(* ===== verification/_CoqProject ===== *)
-Q . S2P
Prelude.v
GoStrings.v
CmdPolicy.v
PolicySet.v
K8sAction.v
Intent.v
Freeze.v
Grants.v
CA.v
Encoding.v
Elevate.v
Crypto.v
Sealed.v
Shim.v
HostPolicy.v
K8sPolicy.v
Signer.v
Approval.v
AuditEntry.v
AuditCanonical.v
AuditVerify.v
AuditTime.v
AuditStore.v
AuditRun.v
AuditRepair.v
Behavior.v
RateLimit.v
Sessions.v
Revocation.v
Prog.v
Broker.v
Engine.v
Routes.v
EngineSessions.v
EngineRun.v
EngineSessionRun.v
EndToEnd.v
EngineFiles.v
EngineK8s.v
EngineK8sRun.v
EngineRecords.v
EngineFilesRun.v
OAuth.v
ServiceConfig.v
Threads.v
Service.v
ServiceInv.v
ServiceSign.v
ServicePolicy.v
ServiceLearn.v
ServiceRun.v
Remote.v
ControlPlane.v
ControlPlaneInv.v
ControlPlaneTrace.v
Relay.v
EndToEndRemote.v
ControlPlaneRun.v
EndToEndRemoteRun.v
Redact.v
Recording.v
ShellReader.v
ShellDriver.v
ShellRun.v
ShellRecord.v
SshConn.v
K8sClient.v
K8sClientRun.v
Bridge.v
BridgeRun.v
PolicyRec.v
Mcp.v
McpRun.v
ConfCheck.v
LocalMode.v
KeyCustody.v
ConfigWrite.v
ConfigEdit.v
ConfigEditRun.v
Frontend.v
