(* ===== verification/Prelude.v ===== *)
(** * infrabroker: a verified model of the broker, the signer and their records

    infrabroker gives agents access to servers and clusters without giving them
    credentials. A _broker_ ([internal/broker]) takes a command from a front end,
    asks a _signer_ ([internal/signer], served by [cmd/signer]) for a certificate
    or token that fits exactly that command, connects and runs it, and writes a
    signed, hash-chained _audit log_ ([internal/audit]). The signer decides by
    host and cluster policies, runtime grants and a kill switch; a _control plane_
    ([cmd/control-plane], [internal/control]) stands between broker and signer
    where humans approve commands, in chat through a _bridge_ ([internal/bridge]);
    a _shim_ ([cmd/infrabroker-shim]) on a sealed host runs only commands the
    signer has signed. Agents reach the broker through MCP tools
    ([internal/mcpserver]) or mTLS ([internal/brokermain]); operators edit
    configurations and read records with [cmd/broker-ctl].

    ** How code becomes definitions

    Pure functions are functions; a Go [(T, error)] is [result E T]; maps are
    [gmap], and where Go leaves the order of a range unspecified the order is a
    parameter; integers are [Z] with their wrap-around written out where it can
    happen; strings are byte strings. A component with a mutex is its state and
    one function per locked operation; a run is a sequence of such operations, in
    any order. Code that is sequential over calls (the broker's methods, the
    service's handlers) is a [prog] ([Prog.v]): its traces cover every answer of
    the other side and every interleaving at the calls. Clocks, random values and
    failing system calls are arguments. The shell parser, Go's regular
    expressions, Ed25519, SHA-256, JSON decoding and the like are classes whose
    laws are hypotheses where they are needed.

    ** Files

    - [Prelude], [GoStrings], [Encoding], [Crypto], [Prog]: results, tactics, Go's
      string and byte encodings, primitives, programs over calls.
    - [CmdPolicy], [PolicySet]: [internal/signer/cmdpolicy.go], [policyset.go]:
      which simple commands a line runs, and the decision of a composed policy.
    - [K8sAction], [K8sPolicy]: [k8saction.go], [k8spolicy.go],
      [internal/k8s/resources.go]: actions, resource tables, cluster rules.
    - [Intent], [Elevate], [HostPolicy], [CA], [Signer]: [signer.go],
      [internal/ca/sign.go]: resolution of an intent, quoting and elevation, the
      certificate, [SignIntent].
    - [Freeze], [Grants], [RateLimit]: the signer's stores with their database.
    - [Sealed], [Shim]: [internal/sealed/envelope.go] and the shim, with
      concurrent shims as a step relation over the nonce directory.
    - [Approval], [Behavior]: [internal/control/approval.go], [behavior.go].
    - [AuditEntry], [AuditCanonical], [AuditVerify], [AuditTime], [AuditStore],
      [AuditRun], [AuditRepair]: [internal/audit] on a disk with failing calls and
      crashes, and the recovery commands of [cmd/broker-ctl].
    - [Sessions], [Revocation], [Broker], [Engine], [Routes], [EngineSessions],
      [EngineFiles], [EngineK8s]: [internal/broker]; [EngineRun],
      [EngineSessionRun], [EndToEnd], [EngineRecords], [EngineFilesRun],
      [EngineK8sRun] hold the statements about its traces.
    - [OAuth], [ServiceConfig], [Threads], [Service]: [internal/oauth], and
      [cmd/signer/main.go]: the compiled state, its validation and reload, every
      handler as a program over the stores, with mutex-guarded sections (the
      threads of [Threads]); [ServiceInv], [ServiceSign], [ServicePolicy],
      [ServiceLearn], [ServiceRun] hold the statements about many concurrent
      requests and their witnesses.
    - [Remote], [ControlPlane]: [internal/signer/remote.go] (the wire client the
      broker and the control plane share) and [cmd/control-plane/main.go],
      [ui.go]; [ControlPlaneInv], [ControlPlaneTrace], [Relay],
      [ControlPlaneRun] hold the statements.
    - [EndToEndRemote], [EndToEndRemoteRun]: the engine over the wire client over
      the signing service.
    - [Redact], [Recording]: [internal/redact], [internal/recording].
    - [ShellReader], [ShellDriver], [SshConn]: [internal/ssh]: the line reader,
      the marker-framed shell session, dialling and one-shot execution; [ShellRun],
      [ShellRecord] hold the statements.
    - [K8sClient], [K8sClientRun]: [internal/k8s/client.go].
    - [Bridge], [BridgeRun]: [internal/bridge], the notifiers of
      [internal/control], [cmd/approval-bridge].
    - [PolicyRec]: [internal/policyrec].
    - [Mcp], [McpRun]: the tool handlers of [internal/mcpserver] over the engine.
    - [ConfCheck]: [internal/confcheck]: repeated keys, comment keys, strict
      loading, pointers.
    - [KeyCustody]: [internal/ca/akv.go], [agent.go]: CA keys in a vault or agent.
    - [LocalMode]: [NewEngine] and the in-process signer of a local configuration.
    - [ConfigWrite]: the crash-safe rewrite of a configuration file
      ([cmd/signer/policy.go], [cmd/broker-ctl/main.go]) on a file system with
      failing calls and crashes; [ConfigEdit], [ConfigEditRun]: the commands that
      add and remove hosts, CA keys and callers.
    - [Frontend]: [internal/brokermain], the configuration check of the control
      plane, the audit table of [cmd/broker-ctl].

    ** What is shown

    - Policy: the implementation of a decision refines a three-valued
      specification over every simple command of a line; compiled cluster rules
      decide exactly like the rules on the fields of an action.
    - Signing: no certificate, envelope or token without a policy that allows it,
      an approval that was given, or a live waiver; certificates are confined to
      the command, host and time they were issued for, and signed by the very key
      the signer advertises, also when a vault rotates it.
    - Approvals and envelopes take effect once, under every interleaving.
    - The kill switch and the grants: a freeze holds until it is lifted, also over
      a restart and a power loss; a restart never widens a policy.
    - The audit log: in every run, with crashes and failing calls, all segments
      verify and acknowledged records are durable; any change to a verified log
      is a forgery of a signature or a hash collision.
    - The broker: nothing is sent to a host or cluster against the policy, over a
      route that changed, on another caller's session or past its certificate;
      every command sent is recorded, and nothing is handed back unrecorded.
    - The signing service: a credential leaves it only past identity, rate,
      freeze and group gates; under every interleaving of requests a frozen
      subject holds no grant; every reload and runtime edit leaves a state that
      was validated as a whole; learned waivers cover the approved line exactly.
    - The control plane: an approval is given by a second person and used once
      (a refinement of the registry protocol), guardrails precede signing, and a
      granted credential is recorded before it is handed out.
    - Across the wire: polling ends, and the guarantee on executed commands holds
      with the signer behind HTTP.
    - Local mode: an engine started from a configuration sends only what the
      policies of that configuration allow, to the pinned hosts it names.
    - Shell sessions: the output of a command is exactly what it printed, is never
      taken for another's, and is recorded in full under strict recording; dialling
      pins every hop's key and closes what it opened.
    - Kubernetes requests: the URL and body denote exactly the signed action.
    - People: four eyes hold through the chat bridge; an approval in the
      conversation needs a human answer and leaves a record.
    - Configurations: edits are never torn, leave a file that loads without
      repeated keys, and change exactly what was asked; policy recommendations
      follow the log exactly.

    Theorems that carry a claim number ([C1], [C2], ...) are the properties of
    the development; each with hypotheses has a witness that applies it to a
    concrete input.

    ** Bounds and fuel

    [chain_loop] walks the [Jump] fields with fuel; [resolveChain_terminates]
    shows that one more than the number of known hosts is enough, for any table.
    The trim of an audit record and the search for a free segment name carry the
    bounds the source itself has (four passes per field, [maxSegmentCollisions]).
    The approval poll of the wire client runs on [poll_fuel], the number of
    intervals that fit in the wait; [pollApproval_returns] shows it never runs out.
    The line reader of a shell runs on the length of the stream plus one, and
    [checkDupKeys] on the number of tokens; both are shown to be enough
    ([shell_output_exact], [duplicate_keys_exact]). Other recursions are structural
    or on a length.

    ** Not modelled

    Network and process plumbing (HTTP servers and clients, TLS set-up, the SSH
    and Slack libraries, the SQLite driver, the clients of vaults and agents), the
    background tickers, the layout a format-preserving patch gives to what it
    inserts (it works on the syntax tree of a third-party library), the JSON of
    chat cards, tool descriptions and other rendered texts, metrics, the set-up
    wizards and the commands of [cmd/broker-ctl] that only print or call HTTP
    endpoints. *)

From Stdlib Require Export Ascii String.
From stdpp Require Export base tactics list strings gmap fin_maps sets sorting.
From Stdlib Require Export ZArith Lia.

#[export] Set Warnings "-clear-no-such-hyp".
#[global] Open Scope Z_scope.
#[global] Arguments String.append !_ _ / : simpl nomatch.

(** ** Results

    A Go function returning [(T, error)] becomes a function into [result E T];
    [E] is the component's own error type, one constructor per error site. *)

Inductive result (E A : Type) : Type :=
| Ok (a : A)
| Err (e : E).
Arguments Ok {E A} a.
Arguments Err {E A} e.

Definition rbind {E A B : Type} (k : A → result E B) (c : result E A) : result E B :=
  match c with Ok a => k a | Err e => Err e end.

Definition rmap_err {E F A : Type} (g : E → F) (c : result E A) : result F A :=
  match c with Ok a => Ok a | Err e => Err (g e) end.

Definition is_ok {E A : Type} (r : result E A) : bool :=
  match r with Ok _ => true | Err _ => false end.

Declare Scope go_scope.
Delimit Scope go_scope with go.
#[global] Open Scope go_scope.

Notation "'let!' x ':=' c 'in' k" := (rbind (fun x => k) c)
  (at level 10, x pattern, c at level 200, k at level 200) : go_scope.
(** [guard! b else e in k]: the early return [if !b { return e }; k]. *)
Notation "'guard!' b 'else' e 'in' k" := (if b then k else Err e)
  (at level 10, b at level 200, e at level 200, k at level 200, only parsing) : go_scope.

(** First error of a sequential pass over a list, [for _, x := range l { ... }]
    with an early [return err]. *)
Fixpoint for_each {E A : Type} (body : A → result E unit) (l : list A) : result E unit :=
  match l with
  | [] => Ok ()
  | x :: l' => let! _ := body x in for_each body l'
  end.

(** The mapping loop [for _, x := range l { y, err := g(x); ...; out = append(out, y) }]. *)
Fixpoint map_each {E A B : Type} (g : A → result E B) (l : list A) : result E (list B) :=
  match l with
  | [] => Ok []
  | x :: l' => let! y := g x in let! ys := map_each g l' in Ok (y :: ys)
  end.

(** ** Automation *)

Create HintDb infra discriminated.

(** Case analysis on the head [match]/[if] of the goal or of a hypothesis,
    keeping the equations, until nothing is left to split. *)
Ltac go_split := repeat (case_match; simplify_eq/=).
Ltac go := go_split; try done; eauto with infra.
(** Turn boolean tests in the context into propositions. *)
Ltac unbool :=
  repeat match goal with
  | H : _ && _ = true |- _ => apply andb_true_iff in H as [? ?]
  | H : _ || _ = false |- _ => apply orb_false_iff in H as [? ?]
  | H : negb _ = true |- _ => apply negb_true_iff in H
  | H : negb _ = false |- _ => apply negb_false_iff in H
  | H : bool_decide _ = true |- _ => apply bool_decide_eq_true in H
  | H : bool_decide _ = false |- _ => apply bool_decide_eq_false in H
  | H : (_ <? _)%Z = true |- _ => apply Z.ltb_lt in H
  | H : (_ <? _)%Z = false |- _ => apply Z.ltb_ge in H
  | H : (_ <=? _)%Z = true |- _ => apply Z.leb_le in H
  | H : (_ <=? _)%Z = false |- _ => apply Z.leb_gt in H
  | H : (_ =? _)%Z = true |- _ => apply Z.eqb_eq in H
  | H : (_ =? _)%Z = false |- _ => apply Z.eqb_neq in H
  end.

(** ** Lemmas on results *)

Lemma rbind_Ok {E A B : Type} (k : A → result E B) c b :
  rbind k c = Ok b → ∃ a, c = Ok a ∧ k a = Ok b.
Proof. destruct c; naive_solver. Qed.

Section results.
Context {E A B : Type}.
Implicit Types (e : E).

Lemma for_each_Ok (body : A → result E unit) l :
  for_each body l = Ok () ↔ Forall (fun x => body x = Ok ()) l.
Proof.
  induction l as [|x l IH]; simpl; [split; auto|].
  rewrite Forall_cons, <-IH. destruct (body x) as [[]|]; simpl; intuition congruence.
Qed.

Lemma for_each_Err (body : A → result E unit) l e :
  for_each body l = Err e → ∃ x, x ∈ l ∧ body x = Err e.
Proof.
  induction l as [|x l IH]; simpl; [done|].
  destruct (body x) as [[]|] eqn:?; simpl; intros; simplify_eq.
  - destruct IH as (y & ? & ?); [done|]. exists y. split; [by right|done].
  - exists x. split; [by left|done].
Qed.

Lemma map_each_Ok (g : A → result E B) l ys :
  map_each g l = Ok ys ↔ Forall2 (fun x y => g x = Ok y) l ys.
Proof.
  revert ys; induction l as [|x l IH]; intros ys; simpl.
  - split; [intros [= <-]; constructor | by inversion 1].
  - destruct (g x) as [y|e] eqn:Hx; simpl.
    + split.
      * intros (zs & Hzs & [= <-])%rbind_Ok. constructor; [done|]. by apply IH.
      * inversion 1 as [|? z ? zs Hxz Hrest]; subst. apply IH in Hrest.
        rewrite Hrest. simpl. congruence.
    + split; [done|]. inversion 1; congruence.
Qed.

Lemma map_each_app (g : A → result E B) l1 l2 :
  map_each g (l1 ++ l2) =
  let! ys1 := map_each g l1 in let! ys2 := map_each g l2 in Ok (ys1 ++ ys2).
Proof.
  induction l1 as [|x l1 IH]; simpl; [by destruct (map_each g l2)|].
  destruct (g x); simpl; [|done]. rewrite IH.
  destruct (map_each g l1); simpl; [|done]. by destruct (map_each g l2).
Qed.
End results.

(** ** Lists *)

Lemma forall_cons_spec {A} (x : A) (l : list A) (P : A → Prop) :
  (∀ y, y ∈ x :: l → P y) ↔ P x ∧ ∀ y, y ∈ l → P y.
Proof. set_solver. Qed.

Lemma existsb_perm {A} (f : A → bool) (l k : list A) : l ≡ₚ k → existsb f l = existsb f k.
Proof.
  intros H. apply eq_bool_prop_intro. rewrite !Is_true_true, !existsb_exists.
  setoid_rewrite <-list_elem_of_In. by setoid_rewrite H.
Qed.

#[export] Instance flat_map_perm {A B} (f : A → list B) : Proper ((≡ₚ) ==> (≡ₚ)) (flat_map f).
Proof. intros l k H. rewrite !flat_map_concat_map. by rewrite H. Qed.

(** ** Iteration over a Go map

    [for k, v := range m] visits the entries in an unspecified order. A
    function whose result depends on that order takes it as an argument; a
    statement about it quantifies over every order that lists the entries. *)

Definition range_order (A : Type) : Type := gmap string A → list (string * A).

Class RangeOrder {A : Type} (iter : range_order A) : Prop :=
  range_perm : ∀ m, iter m ≡ₚ map_to_list m.

#[export] Instance map_to_list_range {A : Type} : RangeOrder (@map_to_list string A (gmap string A) _).
Proof. by intros m. Qed.

Lemma range_elem {A : Type} (iter : range_order A) `{!RangeOrder iter} m k (x : A) :
  (k, x) ∈ iter m ↔ m !! k = Some x.
Proof. rewrite (range_perm m). apply elem_of_map_to_list. Qed.

(** ** Time

    [time.Time] is a number of nanoseconds since the epoch and [time.Duration]
    a number of nanoseconds; [t.Unix()] floors to seconds. *)

Abbreviation time := Z (only parsing).
Abbreviation duration := Z (only parsing).

Definition Second : duration := 1000000000.
Definition Minute : duration := 60 * Second.
Definition Hour : duration := 60 * Minute.
Definition Unix (t : time) : Z := t / Second.
Definition time_of_unix (s : Z) : time := s * Second.

Lemma Unix_mono t1 t2 : t1 ≤ t2 → Unix t1 ≤ Unix t2.
Proof. intros. apply Z.div_le_mono; [done|lia]. Qed.

Lemma time_of_unix_Unix_le t : time_of_unix (Unix t) ≤ t.
Proof. unfold time_of_unix, Unix. pose proof (Z.mul_div_le t Second eq_refl). lia. Qed.

Lemma Unix_lt_time s t : Unix t < s → t < time_of_unix s.
Proof.
  unfold time_of_unix, Unix, Second. intros.
  pose proof (Z.mod_pos_bound t 1000000000). pose proof (Z.div_mod t 1000000000). lia.
Qed.

Lemma Unix_le_time s t : s ≤ Unix t → time_of_unix s ≤ t.
Proof.
  unfold time_of_unix, Unix, Second. intros.
  pose proof (Z.mod_pos_bound t 1000000000). pose proof (Z.div_mod t 1000000000). lia.
Qed.
#[export] Hint Resolve Unix_mono time_of_unix_Unix_le Unix_lt_time Unix_le_time : infra.
