(* ===== verification/GoStrings.v ===== *)
(** * Go's string functions

    Go strings are byte sequences; [string] (a sequence of 8-bit [ascii]) is
    the same thing. This file holds the functions of [strings] and [path] the
    modelled sources call. *)

From S2P Require Import Prelude.

(** ** Bytes *)

Definition byte_of (c : ascii) : Z := Z.of_nat (nat_of_ascii c).

Definition in_range (lo hi : Z) (c : ascii) : bool := (lo <=? byte_of c) && (byte_of c <=? hi).
Definition is_digit (c : ascii) : bool := in_range 48 57 c.
Definition is_lower (c : ascii) : bool := in_range 97 122 c.
Definition is_upper (c : ascii) : bool := in_range 65 90 c.
Definition is_alnum (c : ascii) : bool := is_digit c || is_lower c || is_upper c.
Definition ascii_eqb (a b : ascii) : bool := bool_decide (a = b).

Definition bytes (s : string) : list ascii := list_ascii_of_string s.

Fixpoint forall_char (p : ascii → bool) (s : string) : bool :=
  match s with "" => true | String c s' => p c && forall_char p s' end.
Fixpoint exists_char (p : ascii → bool) (s : string) : bool :=
  match s with "" => false | String c s' => p c || exists_char p s' end.

(** ** Package strings *)

Definition ContainsByte (s : string) (c : ascii) : bool := exists_char (ascii_eqb c) s.
Definition ContainsAny (s chars : string) : bool := exists_char (fun c => ContainsByte chars c) s.
Definition HasPrefix (s p : string) : bool := String.prefix p s.

Fixpoint sdrop (n : nat) (s : string) : string :=
  match n, s with
  | O, _ => s
  | S n', String _ s' => sdrop n' s'
  | S _, "" => ""
  end.

Definition TrimPrefix (s p : string) : string :=
  if HasPrefix s p then sdrop (String.length p) s else s.

(** [strings.Cut(s, sep)] for a one-byte separator. *)
Fixpoint Cut (s : string) (sep : ascii) : string * string * bool :=
  match s with
  | "" => ("", "", false)
  | String c s' =>
      if ascii_eqb c sep then ("", s', true)
      else let '(before, after, found) := Cut s' sep in (String c before, after, found)
  end.

Fixpoint Join (l : list string) (sep : string) : string :=
  match l with
  | [] => ""
  | [x] => x
  | x :: l' => x +:+ sep +:+ Join l' sep
  end.

(** [strings.Split(s, sep)] for a one-byte separator: never empty. *)
Fixpoint Split (s : string) (sep : ascii) : list string :=
  match s with
  | "" => [""]
  | String c s' =>
      if ascii_eqb c sep then "" :: Split s' sep
      else match Split s' sep with [] => [String c ""] | x :: l => String c x :: l end
  end.

(** [strings.ReplaceAll(s, c, r)] for a one-byte pattern. *)
Fixpoint ReplaceByte (s : string) (c : ascii) (r : string) : string :=
  match s with
  | "" => ""
  | String x s' => (if ascii_eqb x c then r else String x "") +:+ ReplaceByte s' c r
  end.

(** Number of bytes of the white-space rune ([unicode.IsSpace]) at the head of
    [s], [0] when there is none. The byte sequences listed are the UTF-8
    encodings of every white-space rune; their first byte is never a
    continuation byte, so scanning byte by byte finds exactly the runes a UTF-8
    decoder finds. *)
Definition space_len (s : string) : nat :=
  match bytes s with
  | a :: rest =>
      let x := byte_of a in
      if ((9 <=? x) && (x <=? 13)) || (x =? 32) then 1%nat
      else match rest with
      | b :: rest' =>
          let y := byte_of b in
          if (x =? 194) && ((y =? 133) || (y =? 160)) then 2%nat
          else match rest' with
          | c :: _ =>
              let z := byte_of c in
              if ((x =? 225) && (y =? 154) && (z =? 128))
                 || ((x =? 226) && (y =? 128)
                     && ((in_range 128 138 c) || (z =? 168) || (z =? 169) || (z =? 175)))
                 || ((x =? 226) && (y =? 129) && (z =? 159))
                 || ((x =? 227) && (y =? 128) && (z =? 128))
              then 3%nat else 0%nat
          | [] => 0%nat
          end
      | [] => 0%nat
      end
  | [] => 0%nat
  end.

(** [strings.Fields]; [skip] counts the remaining bytes of a white-space rune
    and [cur] is the field being read. *)
Fixpoint fields_aux (s : string) (skip : nat) (cur : string) : list string :=
  match s with
  | "" => if bool_decide (cur = "") then [] else [cur]
  | String c s' =>
      match skip with
      | S k => fields_aux s' k cur
      | O => match space_len s with
             | O => fields_aux s' O (cur +:+ String c "")
             | S k => (if bool_decide (cur = "") then [] else [cur]) ++ fields_aux s' k ""
             end
      end
  end.
Definition Fields (s : string) : list string := fields_aux s O "".

(** [strings.TrimSpace(s) == ""]: only white space. *)
Fixpoint all_space_aux (s : string) (skip : nat) : bool :=
  match s with
  | "" => true
  | String _ s' =>
      match skip with
      | S k => all_space_aux s' k
      | O => match space_len s with O => false | S k => all_space_aux s' k end
      end
  end.
Definition all_space (s : string) : bool := all_space_aux s O.

Fixpoint TrimLeftSpace (s : string) (skip : nat) : string :=
  match s with
  | "" => ""
  | String _ s' =>
      match skip with
      | S k => TrimLeftSpace s' k
      | O => match space_len s with O => s | S k => TrimLeftSpace s' k end
      end
  end.
Fixpoint TrimRightSpace (s : string) : string :=
  if all_space s then "" else
  match s with "" => "" | String c s' => String c (TrimRightSpace s') end.
Definition TrimSpace (s : string) : string := TrimRightSpace (TrimLeftSpace s O).

(** ** Package path *)

Fixpoint drop_while {A} (p : A → bool) (l : list A) : list A :=
  match l with [] => [] | x :: l' => if p x then drop_while p l' else l end.
Fixpoint take_while {A} (p : A → bool) (l : list A) : list A :=
  match l with [] => [] | x :: l' => if p x then x :: take_while p l' else [] end.

(** [path.Base]: the last element after trailing slashes are removed; ["."]
    for the empty path and ["/"] for a path of slashes only. *)
Definition Base (s : string) : string :=
  if bool_decide (s = "") then "." else
  let slash c := ascii_eqb c "/"%char in
  match drop_while slash (reverse (bytes s)) with
  | [] => "/"
  | l => string_of_list_ascii (reverse (take_while (fun c => negb (slash c)) l))
  end.

(** First element satisfying a test, the loop [for _, x := range l { if p(x) { return x } }]. *)
Fixpoint list_find_first {A} (p : A → bool) (l : list A) : option A :=
  match l with [] => None | x :: l' => if p x then Some x else list_find_first p l' end.

(** ** Lemmas *)

Lemma list_find_first_Some {A} (p : A → bool) l x : list_find_first p l = Some x → x ∈ l ∧ p x = true.
Proof.
  induction l as [|y l IH]; simpl; [done|]. destruct (p y) eqn:Hy; [intros [= <-]; split; [by left|done]|].
  intros [? ?]%IH. split; [by right|done].
Qed.

Lemma list_find_first_None {A} (p : A → bool) l : list_find_first p l = None → ∀ x, x ∈ l → p x = false.
Proof.
  induction l as [|y l IH]; simpl; [by intros _ x ?%not_elem_of_nil|]. destruct (p y) eqn:Hy; [done|].
  intros H x [->|?]%elem_of_cons; [done|auto].
Qed.

Lemma String_append_nil s : s +:+ "" = s.
Proof. induction s; simpl; congruence. Qed.

Lemma String_append_assoc s1 s2 s3 : (s1 +:+ s2) +:+ s3 = s1 +:+ (s2 +:+ s3).
Proof. induction s1; simpl; congruence. Qed.

Lemma String_append_inj_l s t1 t2 : s +:+ t1 = s +:+ t2 → t1 = t2.
Proof. induction s; simpl; naive_solver. Qed.

Lemma String_length_app s1 s2 :
  String.length (s1 +:+ s2) = (String.length s1 + String.length s2)%nat.
Proof. induction s1; simpl; congruence. Qed.

(** Two concatenations whose first halves have the same length agree half by half. *)
Lemma String_append_inj_len s1 t1 s2 t2 :
  String.length s1 = String.length s2 → s1 +:+ t1 = s2 +:+ t2 → s1 = s2 ∧ t1 = t2.
Proof.
  revert s2; induction s1 as [|c s1 IH]; intros [|c' s2] Hlen Heq; simpl in *; try done.
  simplify_eq. destruct (IH s2) as [-> ->]; auto.
Qed.

Lemma forall_char_app p s t : forall_char p (s +:+ t) = forall_char p s && forall_char p t.
Proof. induction s; simpl; [done|]. by rewrite IHs, andb_assoc. Qed.
Lemma exists_char_app p s t : exists_char p (s +:+ t) = exists_char p s || exists_char p t.
Proof. induction s; simpl; [done|]. by rewrite IHs, orb_assoc. Qed.

Lemma forall_char_impl (p q : ascii → bool) s :
  (∀ c, p c = true → q c = true) → forall_char p s = true → forall_char q s = true.
Proof. induction s; simpl; [done|]. intros ? [? ?]%andb_true_iff. rewrite !andb_true_iff. auto. Qed.

Lemma exists_char_false p s : exists_char p s = negb (forall_char (fun c => negb (p c)) s).
Proof. induction s; simpl; [done|]. rewrite IHs. by destruct (p _), (forall_char _ s). Qed.

Lemma ascii_eqb_refl c : ascii_eqb c c = true.
Proof. by apply bool_decide_eq_true. Qed.
Lemma ascii_eqb_eq a b : ascii_eqb a b = true ↔ a = b.
Proof. apply bool_decide_eq_true. Qed.

(** A split at the first occurrence of a separator byte is unique. *)
Lemma split_at_unique (c : ascii) s1 t1 s2 t2 :
  ContainsByte s1 c = false → ContainsByte s2 c = false →
  s1 +:+ String c t1 = s2 +:+ String c t2 → s1 = s2 ∧ t1 = t2.
Proof.
  unfold ContainsByte. revert s2; induction s1 as [|a s1 IH]; intros [|b s2] H1 H2 Heq; simpl in *.
  - by simplify_eq.
  - injection Heq as <- _. by rewrite ascii_eqb_refl in H2.
  - injection Heq as -> _. by rewrite ascii_eqb_refl in H1.
  - injection Heq as <- Heq. apply orb_false_iff in H1 as [_ H1], H2 as [_ H2].
    destruct (IH s2) as [-> ->]; auto.
Qed.

(** Likewise when the separator is missing on one side: the two differ. *)
Lemma split_at_absent (c : ascii) s t u :
  ContainsByte u c = false → s +:+ String c t = u → False.
Proof.
  intros Hu <-. unfold ContainsByte in Hu. rewrite exists_char_app in Hu. simpl in Hu.
  by rewrite ascii_eqb_refl, orb_true_r in Hu.
Qed.

Lemma prefix_refl_app p s : HasPrefix (p +:+ s) p = true.
Proof.
  unfold HasPrefix. induction p; simpl; [by destruct s|].
  by destruct (ascii_dec _ _).
Qed.

Lemma prefix_spec p s : HasPrefix s p = true ↔ ∃ t, s = p +:+ t.
Proof.
  split; [|intros [t ->]; apply prefix_refl_app].
  unfold HasPrefix. revert s; induction p as [|c p IH]; intros s; simpl; [eauto|].
  destruct s as [|c' s]; simpl; [done|]. destruct (ascii_dec c c') as [->|]; [|done].
  intros [t ->]%IH. eauto.
Qed.

Lemma all_space_empty : all_space "" = true.
Proof. done. Qed.

Lemma all_space_nonempty s : all_space s = false → s ≠ "".
Proof. by intros ? ->. Qed.

(** A string that neither starts nor ends with white space is its own trim. *)
Definition plain_char (c : ascii) : bool := in_range 33 126 c.

Lemma space_len_plain c s : plain_char c = true → space_len (String c s) = O.
Proof.
  unfold plain_char, in_range, space_len. intros H. unbool. simpl.
  set (x := byte_of c) in *.
  assert ((9 <=? x) && (x <=? 13) || (x =? 32) = false) as ->.
  { apply orb_false_iff. rewrite andb_false_iff, Z.eqb_neq, !Z.leb_gt. lia. }
  assert ((x =? 194) = false ∧ (x =? 225) = false ∧ (x =? 226) = false ∧ (x =? 227) = false)
    as (-> & -> & -> & ->) by (split_and!; apply Z.eqb_neq; lia).
  unfold bytes. by destruct (list_ascii_of_string s) as [|? [|? ?]].
Qed.

Lemma all_space_plain s : forall_char plain_char s = true → all_space s = true → s = "".
Proof.
  destruct s as [|c s]; [done|]. cbn [forall_char]. intros [Hc _]%andb_true_iff. unfold all_space.
  cbn [all_space_aux]. by rewrite space_len_plain.
Qed.

Lemma TrimSpace_plain s : forall_char plain_char s = true → TrimSpace s = s.
Proof.
  intros H. unfold TrimSpace. assert (TrimLeftSpace s 0 = s) as ->.
  { destruct s as [|c s']; [done|]. cbn [forall_char] in H. apply andb_true_iff in H as [Hc _].
    cbn [TrimLeftSpace]. by rewrite space_len_plain. }
  induction s as [|c s IH]; [done|].
  assert (all_space (String c s) = false) as Hns.
  { apply not_true_iff_false. intros ?. by apply all_space_plain in H. }
  cbn [forall_char] in H. apply andb_true_iff in H as [_ H].
  change (TrimRightSpace (String c s)) with
    (if all_space (String c s) then "" else String c (TrimRightSpace s)).
  rewrite Hns. by rewrite IH.
Qed.

(** [Cut] at an absent separator, and at the first one. *)
Lemma Cut_absent s c : ContainsByte s c = false → Cut s c = (s, "", false).
Proof.
  unfold ContainsByte. induction s as [|a s IH]; [done|]. cbn [exists_char Cut]. intros [Ha Hs]%orb_false_iff.
  rewrite IH by done. destruct (ascii_eqb a c) eqn:E; [|done]. apply ascii_eqb_eq in E as ->. by rewrite ascii_eqb_refl in Ha.
Qed.
Lemma Cut_app s c t : ContainsByte s c = false → Cut (s +:+ String c t) c = (s, t, true).
Proof.
  unfold ContainsByte. induction s as [|a s IH]; cbn [exists_char Cut String.append]; [by rewrite ascii_eqb_refl|].
  intros [Ha Hs]%orb_false_iff. rewrite IH by done. destruct (ascii_eqb a c) eqn:E; [|done].
  apply ascii_eqb_eq in E as ->. by rewrite ascii_eqb_refl in Ha.
Qed.

(** [Split] inverts [Join] on words without the separator. *)
Lemma Split_absent s c : ContainsByte s c = false → Split s c = [s].
Proof.
  unfold ContainsByte. induction s as [|a s IH]; simpl; [done|]. intros [Ha Hs]%orb_false_iff.
  rewrite IH by done. destruct (ascii_eqb a c) eqn:He; [|done].
  apply ascii_eqb_eq in He as ->. by rewrite ascii_eqb_refl in Ha.
Qed.

Lemma Split_cons s c t : ContainsByte s c = false → Split (s +:+ String c t) c = s :: Split t c.
Proof.
  unfold ContainsByte. induction s as [|a s IH]; simpl; [by rewrite ascii_eqb_refl|].
  intros [Ha Hs]%orb_false_iff. rewrite IH by done. destruct (ascii_eqb a c) eqn:He; [|done].
  apply ascii_eqb_eq in He as ->. by rewrite ascii_eqb_refl in Ha.
Qed.

Lemma Split_Join l c :
  l ≠ [] → Forall (fun w => ContainsByte w c = false) l → Split (Join l (String c "")) c = l.
Proof.
  intros Hne Hall. induction Hall as [|w l Hw Hall IH]; [done|]. destruct l as [|x l].
  - by apply Split_absent.
  - change (Join (w :: x :: l) (String c "")) with (w +:+ String c (Join (x :: l) (String c ""))).
    rewrite Split_cons by done. by rewrite IH.
Qed.

(** The words of a line after the first, each preceded by a space. *)
Fixpoint spaced (l : list string) : string :=
  match l with [] => "" | x :: l' => " " +:+ x +:+ spaced l' end.

Lemma Join_spaced x l : Join (x :: l) " " = x +:+ spaced l.
Proof.
  revert x. induction l as [|y l IH]; intros x; [by rewrite String_append_nil|].
  change (Join (x :: y :: l) " ") with (x +:+ " " +:+ Join (y :: l) " "). by rewrite IH.
Qed.

Lemma spaced_app l k : spaced (l ++ k) = spaced l +:+ spaced k.
Proof. induction l as [|x l IH]; [done|]. simpl. by rewrite IH, !String_append_assoc. Qed.

(** [s[:n]] *)
Fixpoint stake (n : nat) (s : string) : string :=
  match n, s with S n', String c s' => String c (stake n' s') | _, _ => "" end.

(** [len(s)] as an [int]. *)
Definition slen (s : string) : Z := Z.of_nat (String.length s).
Lemma slen_app s t : slen (s +:+ t) = slen s + slen t.
Proof. unfold slen. rewrite String_length_app. lia. Qed.
Lemma slen_nonneg s : 0 ≤ slen s.
Proof. unfold slen. lia. Qed.

(** [s[a:b]] *)
Definition slice (s : string) (a b : Z) : string := stake (Z.to_nat (b - a)) (sdrop (Z.to_nat a) s).

Lemma stake_length n s : (n ≤ String.length s)%nat → String.length (stake n s) = n.
Proof. revert n; induction s as [|c s IH]; intros [|n] H; simpl in *; [done|lia|done|f_equal; apply IH; lia]. Qed.

Lemma sdrop_sdrop n k s : sdrop n (sdrop k s) = sdrop (k + n) s.
Proof. revert k; induction s as [|c s IH]; intros [|k]; simpl; [done|by destruct n|done|apply IH]. Qed.

Lemma stake_sdrop n s : stake n s +:+ sdrop n s = s.
Proof. revert n; induction s as [|c s IH]; intros [|n]; simpl; try done. f_equal. apply IH. Qed.

Lemma sdrop_length n s : String.length (sdrop n s) = (String.length s - n)%nat.
Proof. revert n; induction s as [|c s IH]; intros [|n]; simpl; try done. Qed.

Lemma slice_len s a b : 0 ≤ a → a ≤ b → b ≤ slen s → slen (slice s a b) = b - a.
Proof. unfold slice, slen. intros. rewrite stake_length; [lia|rewrite sdrop_length; lia]. Qed.

Lemma slice_cat s a b c : 0 ≤ a → a ≤ b → b ≤ c → c ≤ slen s → slice s a b +:+ slice s b c = slice s a c.
Proof.
  intros Ha Hb Hc Hl. unfold slice, slen in *.
  replace (sdrop (Z.to_nat b) s) with (sdrop (Z.to_nat (b - a)) (sdrop (Z.to_nat a) s)) by (rewrite sdrop_sdrop; f_equal; lia).
  replace (Z.to_nat (c - a)) with (Z.to_nat (b - a) + Z.to_nat (c - b))%nat by lia.
  generalize (Z.to_nat (b - a)), (Z.to_nat (c - b)), (sdrop (Z.to_nat a) s). clear.
  intros n k t. revert t. induction n as [|n IH]; intros t; [by destruct t|]. destruct t as [|x t]; simpl; [by destruct k|].
  f_equal. apply IH.
Qed.

Lemma slice_all s : slice s 0 (slen s) = s.
Proof.
  unfold slice, slen. rewrite Z.sub_0_r, Nat2Z.id. change (sdrop (Z.to_nat 0) s) with (sdrop 0 s).
  transitivity (stake (String.length s) s); [by destruct s|]. induction s as [|c s IH]; simpl; [done|by rewrite IH].
Qed.
