(* ===== verification/CmdPolicy.v ===== *)
(** * The command policy and the shell front end

    [internal/signer/cmdpolicy.go]: the [CommandPolicy] record and its
    validation, the extraction of simple commands from a parsed shell command,
    the static-word checks and the direct-argv test used for elevation.

    Two things this file does not own are parameters: the regular-expression
    engine ([regexp], on the operator's patterns) and the third-party shell
    parser and literal expander ([mvdan.cc/sh]). Every statement below holds for
    every engine and every parser. *)

From S2P Require Import Prelude GoStrings.

(** ** Parameters *)

(** [regexp.Compile]: [None] is a syntax error, [Some m] a compiled expression
    whose [MatchString] is [m]. *)
Class RegexpEngine : Type := regexp_Compile : string → option (string → bool).

(** The node types of [mvdan.cc/sh/v3/syntax] the source distinguishes. A word
    is the list of its parts; [Other] is any node type the source does not
    name, with its children. *)
Inductive redir_op := DplOut | DplIn | OtherRedir (text : string).

Inductive node : Type :=
| Lit (value : string)
| SglQuoted (value : string)
| DblQuoted (parts : list node)
| CmdSubst (body : list node)
| ProcSubst (body : list node)
| ArithmCmd (body : list node)
| Redirect (op : redir_op) (target : option (list node)) (hdoc : list node)
| DeclClause (body : list node)
| CallExpr (assigns : list node) (args : list (list node))
| Other (children : list node).

Abbreviation word := (list node) (only parsing).

(** A top-level statement of a parsed file. *)
Record Stmt := mkStmt {
  st_Negated : bool;
  st_Background : bool;
  st_Coprocess : bool;
  st_Cmd : option node;
  st_Redirs : list node;
}.

(** [Parser.Parse] ([None] = syntax error, otherwise the file's statements) and
    [expand.Literal] on one word. *)
Class ShellParser : Type := {
  sh_Parse : string → option (list Stmt);
  expand_Literal : word → option string;
}.

(** ** The policy record *)

Definition CmdPolicyOff : string := "off".
Definition CmdPolicyAllowlist : string := "allowlist".
Definition CmdPolicyDenylist : string := "denylist".
Definition CmdPolicyEnforce : string := "enforce".
Definition CmdPolicyAudit : string := "audit".

Record CommandPolicy := mkCommandPolicy {
  cp_Mode : string;
  cp_Enforcement : string;
  cp_Allow : list string;
  cp_Deny : list string;
  cp_RequireApproval : list string;
  cp_ShellParse : option bool;
}.

Definition parseCommands (cp : CommandPolicy) : bool :=
  match cp_ShellParse cp with None => true | Some b => b end.

Definition Active (cp : CommandPolicy) : bool :=
  bool_decide (cp_Mode cp = CmdPolicyAllowlist) || bool_decide (cp_Mode cp = CmdPolicyDenylist).

Definition Restricts (cp : CommandPolicy) : bool :=
  Active cp || bool_decide (cp_RequireApproval cp ≠ []).

Inductive cmd_error :=
| EInvalidRegex (pat : string)
| EAllowlistWithDeny
| EDenylistWithAllow
| EUnknownMode (mode : string)
| EUnknownEnforcement (e : string)
| EShellParse
| ECmdSubst
| EProcSubst
| EArithmCmd
| EFileRedirect (op : redir_op)
| EEnvDeclaration
| EStandaloneAssignment
| EInlineAssignment
| ENonStaticWord
| EGlobOrBrace (lit : string)
| ETilde (lit : string)
| EEquals (lit : string)
| EBackslash (lit : string)
| EDecoding
| EHidingWrapper (w : string)
| EFindExec (action : string)
| ENoCommands.

(** ** The regular-expression cache *)

Section with_engine.
Context `{RE : RegexpEngine}.

Definition regex_cache := gmap string (option (string → bool)).

Definition cachedRegex (cache : regex_cache) (pattern : string) :
    option (string → bool) * regex_cache :=
  match cache !! pattern with
  | Some v => (v, cache)
  | None => let v := regexp_Compile pattern in (v, <[pattern := v]> cache)
  end.

Definition ValidateRegex (pat : string) : result cmd_error unit :=
  match regexp_Compile pat with None => Err (EInvalidRegex pat) | Some _ => Ok () end.

Definition Validate (cp : CommandPolicy) : result cmd_error unit :=
  let! _ := for_each ValidateRegex (cp_Allow cp ++ cp_Deny cp ++ cp_RequireApproval cp) in
  let! _ :=
    (if bool_decide (cp_Mode cp = "" ∨ cp_Mode cp = CmdPolicyOff) then Ok ()
     else if bool_decide (cp_Mode cp = CmdPolicyAllowlist) then
       if bool_decide (cp_Deny cp ≠ []) then Err EAllowlistWithDeny else Ok ()
     else if bool_decide (cp_Mode cp = CmdPolicyDenylist) then
       if bool_decide (cp_Allow cp ≠ []) then Err EDenylistWithAllow else Ok ()
     else Err (EUnknownMode (cp_Mode cp))) in
  if bool_decide (cp_Enforcement cp = "" ∨ cp_Enforcement cp = CmdPolicyEnforce
                  ∨ cp_Enforcement cp = CmdPolicyAudit)
  then Ok () else Err (EUnknownEnforcement (cp_Enforcement cp)).
End with_engine.

(** ** Words *)

Definition isEmptyQuoted (part : node) : bool :=
  match part with
  | SglQuoted v => bool_decide (v = "")
  | DblQuoted ps => bool_decide (length ps = 0%nat)
  | _ => false
  end.

Definition isStaticPart (part : node) : bool :=
  match part with
  | Lit _ | SglQuoted _ => true
  | DblQuoted ps => forallb (fun p => match p with Lit _ => true | _ => false end) ps
  | _ => false
  end.
Definition isStaticWord (w : word) : bool := forallb isStaticPart w.

(** [isFdRef]: [None] is the nil word. *)
Definition isFdRef (w : option word) : bool :=
  match w with
  | Some [Lit v] =>
      if bool_decide (v = "-") then true
      else forall_char is_digit v && bool_decide (v ≠ "")
  | _ => false
  end.

Fixpoint unquotedBackslash (w : word) : option string :=
  match w with
  | [] => None
  | Lit v :: w' => if ContainsByte v "092"%char then Some v else unquotedBackslash w'
  | _ :: w' => unquotedBackslash w'
  end.

(** Index of the first part that is not an empty quoted string. *)
Fixpoint first_part (w : word) : nat :=
  match w with
  | p :: w' => if isEmptyQuoted p then S (first_part w') else O
  | [] => O
  end.

Fixpoint reject_parts (nparts first i : nat) (w : word) : result cmd_error unit :=
  match w with
  | [] => Ok ()
  | Lit v :: w' =>
      if ContainsAny v "*?[{}" then Err (EGlobOrBrace v)
      else if bool_decide (i = first) && HasPrefix v "~" then Err (ETilde v)
      else if bool_decide (i = first) && HasPrefix v "="
              && (bool_decide (1 < String.length v)%nat || bool_decide (1 < nparts)%nat)
           then Err (EEquals v)
      else reject_parts nparts first (S i) w'
  | _ :: w' => reject_parts nparts first (S i) w'
  end.
Definition rejectShellExpansion (w : word) : result cmd_error unit :=
  reject_parts (length w) (first_part w) 0 w.

(** ** Command-hiding wrappers *)

Definition commandHidingWrappers : list string :=
  ["sh"; "bash"; "dash"; "zsh"; "ksh"; "csh"; "tcsh"; "fish"; "ash"; "env"; "eval"; "exec";
   "command"; "nice"; "nohup"; "timeout"; "stdbuf"; "xargs"; "busybox"; "ionice"; "chrt";
   "setarch"; "linux32"; "linux64"; "catchsegv"; "rlwrap"; "script"; "watch"; "time";
   "sudo"; "su"; "doas"; "pkexec"; "runuser"; "sg"; "."; "source"; "trap"; "builtin";
   "hash"; "enable"; "mapfile"; "readarray"; "compgen"; "complete"; "mksh"; "lksh";
   "pdksh"; "rbash"; "yash"; "posh"; "pypy"; "pypy3"; "ipython"; "ipython3"; "Rscript";
   "julia"; "bun"; "deno"; "elixir"; "erl"; "escript"; "guile"; "racket"; "setsid";
   "flock"; "taskset"; "chroot"; "unshare"; "nsenter"; "strace"; "ltrace"; "systemd-run";
   "setpriv"; "prlimit"; "cpulimit"; "daemonize"; "expect"; "tmux"; "screen"; "ssh";
   "python"; "python2"; "python3"; "perl"; "ruby"; "node"; "nodejs"; "php"; "lua"; "tclsh";
   "awk"; "gawk"; "nawk"; "mawk"].

Definition versionedInterpreterPrefixes : list string :=
  ["python3"; "python2"; "nodejs"; "node"; "ruby"; "php"; "perl"; "lua"; "mksh"; "zsh";
   "ksh"; "bash"].

Definition is_version_char (c : ascii) : bool := ascii_eqb c "."%char || is_digit c.

Definition isVersionSuffix (s : string) : bool :=
  match s with
  | "" => false
  | String c s' =>
      let t := if ascii_eqb c "."%char then s' else s in
      match t with
      | "" => false
      | String d _ => is_digit d && forall_char is_version_char t
      end
  end.

Definition versionedInterpreter (base : string) : option string :=
  list_find_first (fun p =>
    HasPrefix base p && bool_decide (base ≠ p)
    && isVersionSuffix (sdrop (String.length p) base)) versionedInterpreterPrefixes.

Definition commandHidingWrapper (lit : string) : option string :=
  let '(argv0, _, _) := Cut lit " "%char in
  if bool_decide (argv0 = "") then None else
  let base := TrimPrefix (Base argv0) "-" in
  if bool_decide (base ∈ commandHidingWrappers) then Some base
  else versionedInterpreter base.

Definition find_actions : list string := ["-exec"; "-execdir"; "-ok"; "-okdir"].

Definition findExecAction (lit : string) : option string :=
  match Fields lit with
  | [] => None
  | f0 :: fs =>
      if bool_decide (Base f0 ≠ "find") then None
      else list_find_first (fun f => bool_decide (f ∈ find_actions)) fs
  end.

Definition shellOnlyBuiltins : list string :=
  ["."; ":"; "alias"; "bg"; "break"; "builtin"; "cd"; "command"; "continue"; "declare";
   "dirs"; "disown"; "eval"; "exec"; "exit"; "export"; "fc"; "fg"; "getopts"; "hash";
   "jobs"; "let"; "local"; "logout"; "popd"; "pushd"; "read"; "readonly"; "return"; "set";
   "shift"; "shopt"; "source"; "suspend"; "times"; "trap"; "type"; "typeset"; "ulimit";
   "umask"; "unalias"; "unset"; "wait"].

(** ** Extraction of the simple commands *)

Section with_parser.
Context `{SP : ShellParser}.

(** One word decoded to the value the target shell will execute. *)
Definition literalWord (w : word) : result cmd_error string :=
  guard! isStaticWord w else ENonStaticWord in
  let! _ := rejectShellExpansion w in
  match unquotedBackslash w with
  | Some bs => Err (EBackslash bs)
  | None => match expand_Literal w with None => Err EDecoding | Some lit => Ok lit end
  end.

Definition literalArgs (args : list word) : result cmd_error string :=
  let! parts := map_each literalWord args in Ok (Join parts " ").

Definition isDupFd (op : redir_op) (target : option word) : bool :=
  match op with DplOut | DplIn => isFdRef target | OtherRedir _ => false end.

(** The walk callback on one node: an error stops the walk, otherwise the list
    of commands the node contributes (at most one). *)
Definition visit (n : node) : result cmd_error (list string) :=
  match n with
  | CmdSubst _ => Err ECmdSubst
  | ProcSubst _ => Err EProcSubst
  | ArithmCmd _ => Err EArithmCmd
  | Redirect op target _ => if isDupFd op target then Ok [] else Err (EFileRedirect op)
  | DeclClause _ => Err EEnvDeclaration
  | CallExpr assigns [] =>
      if bool_decide (assigns ≠ []) then Err EStandaloneAssignment else Ok []
  | CallExpr assigns args =>
      if bool_decide (assigns ≠ []) then Err EInlineAssignment
      else
        let! lit := literalArgs args in
        match commandHidingWrapper lit with
        | Some w => Err (EHidingWrapper w)
        | None => match findExecAction lit with
                  | Some a => Err (EFindExec a)
                  | None => Ok [lit]
                  end
        end
  | _ => Ok []
  end.

(** [syntax.Walk]: depth first, parents before children, children in order. *)
Fixpoint walk (n : node) (cmds : list string) : result cmd_error (list string) :=
  let walks := fold_left (fun acc c => rbind (walk c) acc) in
  let! new := visit n in
  let cmds := cmds ++ new in
  match n with
  | Lit _ | SglQuoted _ => Ok cmds
  | DblQuoted l | CmdSubst l | ProcSubst l | ArithmCmd l | DeclClause l | Other l =>
      walks l (Ok cmds)
  | Redirect _ target hdoc =>
      walks hdoc (match target with Some w => walks w (Ok cmds) | None => Ok cmds end)
  | CallExpr assigns args =>
      fold_left (fun acc w => walks w acc) args (walks assigns (Ok cmds))
  end.

Definition stmt_node (s : Stmt) : node := Other (option_list (st_Cmd s) ++ st_Redirs s).
Definition file_node (stmts : list Stmt) : node := Other (map stmt_node stmts).

Definition extractCommands (command : string) : result cmd_error (list string) :=
  match sh_Parse command with
  | None => Err EShellParse
  | Some stmts =>
      let! cmds := walk (file_node stmts) [] in
      if bool_decide (cmds = []) then Err ENoCommands else Ok cmds
  end.

(** One word of a direct argv; [None] keeps the shell wrapper. *)
Definition directWord (w : word) : option string :=
  if negb (isStaticWord w) || negb (is_ok (rejectShellExpansion w)) then None
  else match unquotedBackslash w with Some _ => None | None => expand_Literal w end.

Definition directArgv (command : string) : option (list string) :=
  match sh_Parse command with
  | Some [stmt] =>
      if st_Negated stmt || st_Background stmt || st_Coprocess stmt
         || bool_decide (st_Redirs stmt ≠ [])
      then None
      else match st_Cmd stmt with
      | Some (CallExpr [] (w0 :: ws)) =>
          argv ← mapM directWord (w0 :: ws);
          match argv with
          | [] => None
          | a0 :: _ =>
              if ContainsByte a0 "="%char then None
              else if bool_decide (a0 ∈ shellOnlyBuiltins) then None
              else Some argv
          end
      | _ => None
      end
  | _ => None
  end.
End with_parser.

(** ** Specification of the walk

    [subnodes n] lists the nodes of a tree, parents first. The walk is the
    sequential pass of [visit] over that list: the recursion, the descent
    decisions and the early exit on error add nothing else. *)

Definition children (n : node) : list node :=
  match n with
  | Lit _ | SglQuoted _ => []
  | DblQuoted l | CmdSubst l | ProcSubst l | ArithmCmd l | DeclClause l | Other l => l
  | Redirect _ target hdoc => default [] target ++ hdoc
  | CallExpr assigns args => assigns ++ concat args
  end.

Fixpoint subnodes (n : node) : list node :=
  n :: match n with
  | Lit _ | SglQuoted _ => []
  | DblQuoted l | CmdSubst l | ProcSubst l | ArithmCmd l | DeclClause l | Other l =>
      flat_map subnodes l
  | Redirect _ target hdoc =>
      match target with Some w => flat_map subnodes w | None => [] end ++ flat_map subnodes hdoc
  | CallExpr assigns args => flat_map subnodes assigns ++ flat_map (flat_map subnodes) args
  end.

Definition file_nodes (stmts : list Stmt) : list node := subnodes (file_node stmts).

(** The command word lists of the simple commands of a tree. *)
Definition call_args (n : node) : option (list word) :=
  match n with CallExpr _ (w :: ws) => Some (w :: ws) | _ => None end.

(** A node the policy refuses whatever its rules say. *)
Definition dangerous (n : node) : bool :=
  match n with
  | CmdSubst _ | ProcSubst _ | ArithmCmd _ | DeclClause _ => true
  | Redirect op target _ => negb (isDupFd op target)
  | CallExpr assigns _ => bool_decide (assigns ≠ [])
  | _ => false
  end.

Section node_induction.
Variable P : node → Prop.
Hypothesis step : ∀ n, Forall P (children n) → P n.

Fixpoint node_children_ind (n : node) : P n.
Proof.
  apply step. destruct n as [v|v|l|l|l|l|op tgt l|l|asg args|l]; simpl; try constructor.
  all: try (induction l as [|c l IH]; constructor; [apply node_children_ind|exact IH]).
  - apply Forall_app_2.
    + destruct tgt as [w|]; simpl; [|constructor].
      induction w as [|c w IH]; constructor; [apply node_children_ind|exact IH].
    + induction l as [|c l IH]; constructor; [apply node_children_ind|exact IH].
  - apply Forall_app_2.
    + induction asg as [|c l IH]; constructor; [apply node_children_ind|exact IH].
    + induction args as [|w args IH]; simpl; [constructor|].
      apply Forall_app_2; [|exact IH].
      induction w as [|c w IHw]; constructor; [apply node_children_ind|exact IHw].
Qed.
End node_induction.

Lemma subnodes_children n : subnodes n = n :: flat_map subnodes (children n).
Proof.
  destruct n as [| | | | | |op tgt hdoc| |asg args|]; simpl; try done.
  - destruct tgt; simpl; [by rewrite flat_map_app|done].
  - rewrite flat_map_app. do 2 f_equal.
    induction args as [|w args IH]; simpl; [done|]. by rewrite flat_map_app, IH.
Qed.

Section walk_facts.
Context `{SP : ShellParser}.

Definition walk_list (l : list node) (acc : result cmd_error (list string)) :=
  fold_left (fun acc c => rbind (walk c) acc) l acc.

Lemma walk_list_Err l e : walk_list l (Err e) = Err e.
Proof. by induction l. Qed.

Lemma walk_children n cmds :
  walk n cmds = let! new := visit n in walk_list (children n) (Ok (cmds ++ new)).
Proof.
  destruct n as [| | | | | |op tgt hdoc| |asg args|]; cbn [walk children]; try done.
  all: destruct (visit _) as [new|e] eqn:Hv; cbn [rbind]; try done.
  - destruct tgt; simpl; [|done]. unfold walk_list. by rewrite fold_left_app.
  - unfold walk_list. rewrite fold_left_app.
    generalize (fold_left (fun acc c => rbind (walk c) acc) asg (Ok (cmds ++ new))).
    clear Hv. induction args as [|w args IH]; intros acc; simpl; [done|].
    by rewrite fold_left_app, IH.
Qed.

Lemma walk_list_spec l cmds :
  Forall (fun c => ∀ cmds, walk c cmds =
    let! news := map_each visit (subnodes c) in Ok (cmds ++ concat news)) l →
  walk_list l (Ok cmds) =
    let! news := map_each visit (flat_map subnodes l) in Ok (cmds ++ concat news).
Proof.
  intros Hl. revert cmds. induction Hl as [|c l Hc _ IH]; intros cmds; simpl.
  - by rewrite app_nil_r.
  - unfold walk_list in *. simpl. rewrite Hc, map_each_app.
    destruct (map_each visit (subnodes c)) as [news|e]; simpl; [|apply walk_list_Err].
    rewrite IH. destruct (map_each visit (flat_map subnodes l)); simpl; [|done].
    by rewrite concat_app, app_assoc.
Qed.

Lemma walk_spec n cmds :
  walk n cmds = let! news := map_each visit (subnodes n) in Ok (cmds ++ concat news).
Proof.
  revert cmds. induction n as [n IH] using node_children_ind. intros cmds.
  rewrite walk_children, subnodes_children. simpl.
  destruct (visit n) as [new|e]; simpl; [|done].
  rewrite (walk_list_spec _ _ IH).
  destruct (map_each visit (flat_map subnodes (children n))); simpl; [|done].
  by rewrite app_assoc.
Qed.

(** What a successful visit says of a node. *)
Lemma visit_Ok n new :
  visit n = Ok new →
  dangerous n = false ∧
  Forall2 (fun args lit => literalArgs args = Ok lit
             ∧ commandHidingWrapper lit = None ∧ findExecAction lit = None)
          (option_list (call_args n)) new.
Proof.
  destruct n as [| | | | | |op tgt hdoc| |asg args|]; cbn [visit dangerous call_args option_list].
  all: try (intros [= <-]; split; [done|constructor]).
  all: try done.
  - destruct (isDupFd op tgt); intros; simplify_eq. split; [done|constructor].
  - destruct args as [|w ws]; case_bool_decide; intros Hv; try done.
    + simplify_eq. split; [done|constructor].
    + split; [done|]. apply rbind_Ok in Hv as (lit & Hlit & Hv).
      destruct (commandHidingWrapper lit) eqn:?; [done|].
      destruct (findExecAction lit) eqn:?; [done|].
      simplify_eq. repeat constructor; done.
Qed.

Lemma visit_complete n :
  dangerous n = false →
  (∀ args, call_args n = Some args → ∃ lit, literalArgs args = Ok lit
             ∧ commandHidingWrapper lit = None ∧ findExecAction lit = None) →
  ∃ new, visit n = Ok new.
Proof.
  destruct n as [| | | | | |op tgt hdoc| |asg args|]; cbn [visit dangerous call_args]; eauto.
  all: try done.
  - intros Hd%negb_false_iff _. rewrite Hd. eauto.
  - intros Hd Hargs. destruct args as [|w ws]; rewrite Hd; [eauto|].
    destruct (Hargs _ eq_refl) as (lit & -> & Hw & Hf). simpl. rewrite Hw, Hf. eauto.
Qed.

(** The relation between a simple command and the string the policy matches. *)
Definition decodes_to (args : list word) (lit : string) : Prop :=
  literalArgs args = Ok lit ∧ commandHidingWrapper lit = None ∧ findExecAction lit = None.

Lemma map_each_visit_spec nodes cmds :
  (∃ news, map_each visit nodes = Ok news ∧ cmds = concat news) ↔
  (∀ n, n ∈ nodes → dangerous n = false) ∧ Forall2 decodes_to (omap call_args nodes) cmds.
Proof.
  revert cmds. induction nodes as [|n nodes IH]; intros cmds; simpl.
  { split; [intros (? & [= <-] & ->); split; [set_solver|constructor]|].
    intros [_ H]. inversion H; subst. by exists []. }
  split.
  - intros (news & Hn & ->). apply rbind_Ok in Hn as (new & Hv & Hn).
    apply rbind_Ok in Hn as (ns & Hns & [= <-]).
    destruct (visit_Ok _ _ Hv) as [Hd Hc].
    destruct (proj1 (IH _) (ex_intro _ ns (conj Hns eq_refl))) as [Hd' Hc'].
    split; [intros m [->|?]%elem_of_cons; auto|].
    simpl. destruct (call_args n); simpl in *; [|by inversion Hc; subst].
    inversion Hc as [|? ? ? ? ? Hnil]; subst. inversion Hnil; subst. by constructor.
  - intros [Hd Hc].
    assert (∃ new cmds', cmds = new ++ cmds' ∧ visit n = Ok new
              ∧ Forall2 decodes_to (omap call_args nodes) cmds') as (new & cmds' & -> & Hv & Hc').
    { destruct (call_args n) as [args|] eqn:Ha.
      - inversion Hc as [|? lit ? cmds' Hlit Hrest]; subst.
        destruct (visit_complete n) as [new Hv]; [set_solver| |].
        { intros ? ?; simplify_eq. by exists lit. }
        destruct (visit_Ok _ _ Hv) as [_ H2]. rewrite Ha in H2; simpl in H2.
        inversion H2 as [|? lit' ? ? Hlit' Hnil]; subst. inversion Hnil; subst.
        destruct Hlit as [Hl _], Hlit' as [Hl' _]. rewrite Hl in Hl'. injection Hl' as <-.
        by exists [lit], cmds'.
      - destruct (visit_complete n) as [new Hv]; [set_solver|naive_solver|].
        destruct (visit_Ok _ _ Hv) as [_ H2]. rewrite Ha in H2. inversion H2; subst.
        by exists [], cmds. }
    destruct (proj2 (IH cmds')) as (ns & Hns & ->); [split; [set_solver|done]|].
    exists (new :: ns). by rewrite Hv, Hns.
Qed.

(** [C19] A command is accepted by the shell front end exactly when it parses,
    its syntax tree contains no refused node anywhere (command or process
    substitution, arithmetic command, file redirection, declaration, environment
    assignment), it has at least one simple command, and the strings handed to
    the policy are exactly the decoded words of every simple command of the
    tree, in order, none of them a command-hiding wrapper or a [find -exec]. *)
Theorem extractCommands_spec command cmds :
  extractCommands command = Ok cmds ↔
  ∃ stmts, sh_Parse command = Some stmts ∧ cmds ≠ [] ∧
    (∀ n, n ∈ file_nodes stmts → dangerous n = false) ∧
    Forall2 decodes_to (omap call_args (file_nodes stmts)) cmds.
Proof.
  unfold extractCommands. destruct (sh_Parse command) as [stmts|]; [|naive_solver].
  rewrite walk_spec. fold (file_nodes stmts). cbn [app].
  pose proof (map_each_visit_spec (file_nodes stmts)) as Hspec. split.
  - intros (out & Hout & Hif)%rbind_Ok. apply rbind_Ok in Hout as (news & Hn & [= <-]).
    case_bool_decide; simplify_eq/=.
    destruct (proj1 (Hspec _) (ex_intro _ news (conj Hn eq_refl))). by exists stmts.
  - intros (? & [= <-] & Hne & Hd & Hc).
    destruct (proj2 (Hspec cmds) (conj Hd Hc)) as (news & -> & ->). cbn [rbind].
    by rewrite bool_decide_eq_false_2.
Qed.

Lemma static_part_quiet p : isStaticPart p = true → Forall (fun n => visit n = Ok []) (subnodes p).
Proof.
  destruct p as [| |ps| | | | | | |]; simpl; try done; intros Hps.
  1,2: by repeat constructor.
  constructor; [done|]. induction ps as [|q ps IH]; simpl in *; [constructor|].
  destruct q; try done. simpl in *. constructor; [done|auto].
Qed.

Lemma static_word_quiet w :
  isStaticWord w = true → Forall (fun n => visit n = Ok []) (flat_map subnodes w).
Proof.
  induction w as [|p w IH]; simpl; [constructor|]. intros [Hp Hw]%andb_true_iff.
  apply Forall_app_2; auto using static_part_quiet.
Qed.

Lemma quiet_visits nodes :
  Forall (fun n => visit n = Ok []) nodes → ∃ news, map_each visit nodes = Ok news ∧ concat news = [].
Proof.
  induction 1 as [|n l Hn _ (news & Hl & Hc)]; simpl; [by exists []|].
  rewrite Hn, Hl. simpl. by eexists.
Qed.

Lemma directWord_literal w a :
  directWord w = Some a ↔ literalWord w = Ok a.
Proof.
  unfold directWord, literalWord. destruct (isStaticWord w); simpl; [|done].
  destruct (rejectShellExpansion w) as [[]|]; simpl; [|done].
  destruct (unquotedBackslash w); [done|]. destruct (expand_Literal w); naive_solver.
Qed.

Lemma literalWord_static w a : literalWord w = Ok a → isStaticWord w = true.
Proof. unfold literalWord. by destruct (isStaticWord w). Qed.

Lemma mapM_directWord ws argv :
  mapM directWord ws = Some argv → map_each literalWord ws = Ok argv.
Proof.
  rewrite mapM_Some, map_each_Ok. intros H. eapply Forall2_impl; [exact H|].
  intros ? ?. apply directWord_literal.
Qed.

(** The words handed straight to [sudo] are the words the policy decided
    on: when a command has a direct argv and the front end accepts it, the only
    string the policy matched is that argv joined by single spaces. *)
Theorem directArgv_agrees command argv cmds :
  directArgv command = Some argv → extractCommands command = Ok cmds →
  cmds = [Join argv " "].
Proof.
  unfold directArgv, extractCommands. destruct (sh_Parse command) as [[|st [|]]|]; try done.
  destruct (_ || _) eqn:Hflags; [done|]. apply orb_false_iff in Hflags as [_ Hr].
  apply bool_decide_eq_false in Hr. apply dec_stable in Hr.
  destruct (st_Cmd st) as [cmd|] eqn:Hcmd; [|done].
  destruct cmd as [| | | | | | | |[|] [|w0 ws]|]; try done.
  intros (argv' & Hm & Hargv)%bind_Some Hex.
  apply mapM_directWord in Hm as Hl.
  assert (argv' = argv) as ->.
  { destruct argv'; [done|]. destruct (ContainsByte _ _); [done|]. by case_bool_decide; simplify_eq. }
  clear Hargv. apply rbind_Ok in Hex as (out & Hw & Hif).
  assert (Hq : Forall (fun n => visit n = Ok []) (flat_map (flat_map subnodes) (w0 :: ws))).
  { apply map_each_Ok in Hl. clear -Hl. induction Hl as [|w a ? ? Hwa _ IH]; simpl; [constructor|].
    apply Forall_app_2; [|exact IH]. eauto using static_word_quiet, literalWord_static. }
  destruct (quiet_visits _ Hq) as (news & Hnews & Hnil).
  rewrite walk_spec in Hw. apply rbind_Ok in Hw as (nn & Hnn & [= <-]).
  unfold file_node, stmt_node in Hnn. cbn [map] in Hnn. rewrite Hcmd, Hr in Hnn.
  unfold option_list, option_rect in Hnn. cbn [app subnodes flat_map] in Hnn.
  rewrite !app_nil_r in Hnn. cbn [map_each visit rbind] in Hnn.
  rewrite bool_decide_eq_false_2 in Hnn by auto. unfold literalArgs in Hnn. rewrite Hl in Hnn.
  cbn [rbind] in Hnn. destruct (commandHidingWrapper _); [done|]. destruct (findExecAction _); [done|].
  cbn [rbind] in Hnn. simpl in Hnews. rewrite Hnews in Hnn. cbn [rbind] in Hnn.
  injection Hnn as <-. simpl in Hif. rewrite Hnil in Hif. by injection Hif.
Qed.
End walk_facts.

(** ** Cache transparency *)

Section cache_facts.
Context `{RE : RegexpEngine}.

Definition cache_ok (cache : regex_cache) : Prop :=
  map_Forall (fun p v => v = regexp_Compile p) cache.

(** The memoised compile answers what [regexp.Compile] answers, errors
    included, and keeps the cache truthful; the definitions below may therefore
    call [regexp_Compile] where the code calls [cachedRegex]. *)
Lemma cachedRegex_transparent cache pattern :
  cache_ok cache →
  (cachedRegex cache pattern).1 = regexp_Compile pattern ∧
  cache_ok (cachedRegex cache pattern).2.
Proof.
  intros Hok. unfold cachedRegex. destruct (cache !! pattern) as [v|] eqn:Hl; simpl.
  - split; [by apply (Hok _ _ Hl)|done].
  - split; [done|]. by apply map_Forall_insert_2.
Qed.

Lemma Validate_patterns cp :
  Validate cp = Ok () →
  Forall (fun p => is_Some (regexp_Compile p)) (cp_Allow cp ++ cp_Deny cp ++ cp_RequireApproval cp).
Proof.
  unfold Validate. intros ([] & H & _)%rbind_Ok. apply for_each_Ok in H.
  eapply Forall_impl; [exact H|]. intros p. unfold ValidateRegex.
  destruct (regexp_Compile p); [eauto|done].
Qed.

Lemma Validate_mode cp :
  Validate cp = Ok () →
  (cp_Mode cp = CmdPolicyAllowlist → cp_Deny cp = []) ∧
  (cp_Mode cp = CmdPolicyDenylist → cp_Allow cp = []).
Proof.
  unfold Validate. intros ([] & _ & H)%rbind_Ok.
  apply rbind_Ok in H as ([] & H & _). split; intros Hm; rewrite Hm in H.
  - rewrite bool_decide_eq_false_2 in H by (by intros [|]).
    rewrite bool_decide_eq_true_2 in H by done. by case_bool_decide.
  - rewrite bool_decide_eq_false_2 in H by (by intros [|]).
    rewrite bool_decide_eq_false_2 in H by done. rewrite bool_decide_eq_true_2 in H by done.
    by case_bool_decide.
Qed.
End cache_facts.

(** ** A concrete engine and parser

    Small instances on which the definitions evaluate: patterns are literal
    prefixes, a pattern starting with ["("] is a syntax error; a command line is
    one simple command of blank-separated literal words. *)

Definition prefix_engine : RegexpEngine := fun pat =>
  if HasPrefix pat "(" then None else Some (fun s => HasPrefix s pat).

Definition lit_value (n : node) : string := match n with Lit v | SglQuoted v => v | _ => "" end.

Definition plain_parser : ShellParser := {|
  sh_Parse s :=
    Some [mkStmt false false false (Some (CallExpr [] (map (fun w => [Lit w]) (Fields s)))) []];
  expand_Literal w := Some (Join (map lit_value w) "");
|}.

(** A parser that also knows one substitution: a command line containing a
    dollar sign has a [CmdSubst] node. *)
Definition subst_parser : ShellParser := {|
  sh_Parse s :=
    Some [mkStmt false false false
      (Some (CallExpr [] (map (fun w => if ContainsByte w "$"%char then [CmdSubst []] else [Lit w])
                              (Fields s)))) []];
  expand_Literal w := Some (Join (map lit_value w) "");
|}.

Example extract_plain :
  @extractCommands plain_parser "systemctl restart nginx" = Ok ["systemctl restart nginx"].
Proof. reflexivity. Qed.
Example extract_wrapper :
  @extractCommands plain_parser "/usr/bin/python3.12 x" = Err (EHidingWrapper "python3").
Proof. reflexivity. Qed.
Example extract_subst : @extractCommands subst_parser "echo $(id)" = Err ENonStaticWord.
Proof. reflexivity. Qed.

(** Witness of [directArgv_agrees] on a concrete command line. *)
Lemma directArgv_agrees_witness :
  ["systemctl restart nginx"] = [Join ["systemctl"; "restart"; "nginx"] " "].
Proof.
  apply (@directArgv_agrees plain_parser "systemctl restart nginx"
           ["systemctl"; "restart"; "nginx"] ["systemctl restart nginx"]); reflexivity.
Defined.
