(* ===== verification/PolicySet.v ===== *)
(** * Composed command policies

    [internal/signer/policyset.go]: the evaluation of a host's composed policy
    set, and its specification as a three-valued verdict: deny wins, then human
    approval, then allow, over every simple command of the line. *)

From S2P Require Import Prelude GoStrings CmdPolicy.

Abbreviation PolicySet := (list CommandPolicy).

(** The rule string returned with a decision; [RuleNone] is the empty string and
    [RuleBehavior] the rule of an escalation by the control plane's guardrails. *)
Inductive matched_rule :=
| RuleNone
| RuleDeny (pat : string)
| RuleRequireApproval (pat : string)
| RuleAllow (pat : string)
| RuleAllowlistNoMatch
| RuleShellParse (e : cmd_error)
| RuleApprovalWaived (r : matched_rule)
| RuleBehavior.

#[global] Instance redir_op_eq_dec : EqDecision redir_op.
Proof. solve_decision. Defined.
#[global] Instance cmd_error_eq_dec : EqDecision cmd_error.
Proof. solve_decision. Defined.
#[global] Instance matched_rule_eq_dec : EqDecision matched_rule.
Proof. solve_decision. Defined.

(** The four results of [Decide]/[decideOne]. *)
Record decision := mkDecision {
  d_allowed : bool;
  d_needsApproval : bool;
  d_rule : matched_rule;
  d_err : option cmd_error;
}.

Definition ps_Active (ps : PolicySet) : bool := existsb Active ps.
Definition ps_Restricts (ps : PolicySet) : bool := existsb Restricts ps.
Definition shellParse (ps : PolicySet) : bool := existsb parseCommands ps.
Definition hasAllowlist (ps : PolicySet) : bool :=
  existsb (fun p => bool_decide (cp_Mode p = CmdPolicyAllowlist)) ps.

Fixpoint enforcement_loop (auditOnly : bool) (ps : PolicySet) : string :=
  match ps with
  | [] => if auditOnly then CmdPolicyAudit else CmdPolicyEnforce
  | p :: ps' =>
      if negb (Restricts p) then enforcement_loop auditOnly ps'
      else if bool_decide (cp_Enforcement p = CmdPolicyAudit) then enforcement_loop true ps'
      else CmdPolicyEnforce
  end.
Definition Enforcement (ps : PolicySet) : string := enforcement_loop false ps.

Section evaluation.
Context `{RE : RegexpEngine} `{SP : ShellParser}.

Definition ps_Validate (ps : PolicySet) : result cmd_error unit := for_each Validate ps.

(** The patterns a pass of [decideOne] tries, in order. *)
Definition deny_patterns (ps : PolicySet) : list string :=
  flat_map (fun p => if bool_decide (cp_Mode p = CmdPolicyDenylist) then cp_Deny p else []) ps.
Definition approval_patterns (ps : PolicySet) : list string := flat_map cp_RequireApproval ps.
Definition allow_patterns (ps : PolicySet) : list string :=
  flat_map (fun p => if bool_decide (cp_Mode p = CmdPolicyAllowlist) then cp_Allow p else []) ps.

(** The first pattern matching the command; an error when a pattern tried
    before it does not compile. *)
Fixpoint first_match (pats : list string) (command : string) : result cmd_error (option string) :=
  match pats with
  | [] => Ok None
  | pat :: pats' =>
      match regexp_Compile pat with
      | None => Err (EInvalidRegex pat)
      | Some m => if m command then Ok (Some pat) else first_match pats' command
      end
  end.

Definition decideOne (ps : PolicySet) (command : string) : decision :=
  match first_match (deny_patterns ps) command with
  | Err e => mkDecision false false RuleNone (Some e)
  | Ok (Some pat) => mkDecision false false (RuleDeny pat) None
  | Ok None =>
  match first_match (approval_patterns ps) command with
  | Err e => mkDecision false false RuleNone (Some e)
  | Ok approval =>
  let needsApproval := match approval with Some _ => true | None => false end in
  let rule := match approval with Some pat => RuleRequireApproval pat | None => RuleNone end in
  match first_match (allow_patterns ps) command with
  | Err e => mkDecision false false RuleNone (Some e)
  | Ok (Some pat) =>
      mkDecision true needsApproval
        (if bool_decide (rule = RuleNone) then RuleAllow pat else rule) None
  | Ok None =>
      if negb (hasAllowlist ps) then mkDecision true needsApproval rule None
      else mkDecision false needsApproval RuleAllowlistNoMatch None
  end end end.

Fixpoint decide_loop (ps : PolicySet) (cmds : list string) (needsApproval : bool)
    (rule : matched_rule) : decision :=
  match cmds with
  | [] => mkDecision true needsApproval rule None
  | cmd :: cmds' =>
      let d := decideOne ps cmd in
      match d_err d with
      | Some _ => d
      | None =>
          if negb (d_allowed d) then d
          else if d_needsApproval d && negb needsApproval
               then decide_loop ps cmds' true (d_rule d)
          else if negb needsApproval then decide_loop ps cmds' needsApproval (d_rule d)
          else decide_loop ps cmds' needsApproval rule
      end
  end.

Definition Decide (ps : PolicySet) (command : string) : decision :=
  if bool_decide (ps = []) then mkDecision true false RuleNone None else
  let cmds := if shellParse ps then extractCommands command else Ok [command] in
  match cmds with
  | Err e => mkDecision false false (RuleShellParse e) (Some e)
  | Ok cmds => decide_loop ps cmds false RuleNone
  end.
End evaluation.

(** ** Specification *)

(** Verdicts, from the most to the least permissive. *)
Inductive verdict := VAllow | VApproval | VDeny.
#[global] Instance verdict_eq_dec : EqDecision verdict.
Proof. solve_decision. Defined.

Definition severity (v : verdict) : nat := match v with VAllow => 0 | VApproval => 1 | VDeny => 2 end.
Definition worst (v w : verdict) : verdict := if bool_decide (severity v < severity w)%nat then w else v.
Definition vle (v w : verdict) : Prop := (severity v ≤ severity w)%nat.
#[global] Instance vle_preorder : PreOrder vle.
Proof. split; unfold vle; [by intros v|by intros v w u ? ?; lia]. Qed.

(** What a decision amounts to for the caller. *)
Definition verdict_of (d : decision) : verdict :=
  match d_err d with
  | Some _ => VDeny
  | None => if d_allowed d then if d_needsApproval d then VApproval else VAllow else VDeny
  end.

Section specification.
Context `{RE : RegexpEngine} `{SP : ShellParser}.

Definition pat_matches (command pat : string) : bool :=
  match regexp_Compile pat with Some m => m command | None => false end.

Definition some_match (pats : list string) (command : string) : bool :=
  existsb (pat_matches command) pats.

(** One simple command: a deny match anywhere, or an allowlist somewhere and a
    match in none, denies; otherwise an approval match anywhere gates. *)
Definition spec_one (ps : PolicySet) (command : string) : verdict :=
  if some_match (deny_patterns ps) command then VDeny
  else if hasAllowlist ps && negb (some_match (allow_patterns ps) command) then VDeny
  else if some_match (approval_patterns ps) command then VApproval
  else VAllow.

(** A command line: the worst verdict over its simple commands. *)
Definition spec_line (ps : PolicySet) (cmds : list string) : verdict :=
  foldr (fun c v => worst (spec_one ps c) v) VAllow cmds.

Definition spec_decide (ps : PolicySet) (command : string) : verdict :=
  if bool_decide (ps = []) then VAllow else
  if shellParse ps then
    match extractCommands command with Err _ => VDeny | Ok cmds => spec_line ps cmds end
  else spec_one ps command.

(** Every pattern of the set compiles; [ps_Validate] establishes it. *)
Definition patterns_ok (ps : PolicySet) : Prop :=
  Forall (fun cp => Forall (fun p => is_Some (regexp_Compile p))
                           (cp_Allow cp ++ cp_Deny cp ++ cp_RequireApproval cp)) ps.

Lemma ps_Validate_patterns ps : ps_Validate ps = Ok () → patterns_ok ps.
Proof.
  unfold ps_Validate. rewrite for_each_Ok. intros H. eapply Forall_impl; [exact H|].
  intros cp. apply Validate_patterns.
Qed.

Lemma patterns_ok_app ps qs : patterns_ok (ps ++ qs) ↔ patterns_ok ps ∧ patterns_ok qs.
Proof. apply Forall_app. Qed.

Lemma patterns_ok_flat ps (sel : CommandPolicy → list string) :
  (∀ cp, sel cp ⊆ cp_Allow cp ++ cp_Deny cp ++ cp_RequireApproval cp) →
  patterns_ok ps → Forall (fun p => is_Some (regexp_Compile p)) (flat_map sel ps).
Proof.
  intros Hsel. induction 1 as [|cp ps Hcp _ IH]; simpl; [constructor|].
  apply Forall_app_2; [|done]. apply Forall_forall. intros p Hp.
  eapply Forall_forall in Hcp; [exact Hcp|]. by apply Hsel.
Qed.

Lemma first_match_ok pats command :
  Forall (fun p => is_Some (regexp_Compile p)) pats →
  ∃ o, first_match pats command = Ok o ∧
    (match o with Some _ => true | None => false end) = some_match pats command.
Proof.
  induction 1 as [|p pats [m Hm] _ (o & Ho & Hs)]; simpl; [by exists None|].
  unfold pat_matches at 1. rewrite Hm. destruct (m command); simpl; eauto.
Qed.

Lemma first_match_Err pats command e :
  first_match pats command = Err e → ¬ Forall (fun p => is_Some (regexp_Compile p)) pats.
Proof. intros He Hall. destruct (first_match_ok _ command Hall) as (? & ? & _). congruence. Qed.

Lemma patterns_ok_passes ps :
  patterns_ok ps →
  Forall (fun p => is_Some (regexp_Compile p)) (deny_patterns ps) ∧
  Forall (fun p => is_Some (regexp_Compile p)) (approval_patterns ps) ∧
  Forall (fun p => is_Some (regexp_Compile p)) (allow_patterns ps).
Proof.
  intros H; split_and!; (eapply patterns_ok_flat; [|exact H]); intros cp; try case_bool_decide; set_solver.
Qed.

(** [decideOne] computes the specification of one simple command, and never
    reports an error on a validated set. *)
Lemma decideOne_spec ps command :
  patterns_ok ps →
  d_err (decideOne ps command) = None ∧ verdict_of (decideOne ps command) = spec_one ps command.
Proof.
  intros (Hd & Hr & Ha)%patterns_ok_passes. unfold decideOne, spec_one.
  destruct (first_match_ok _ command Hd) as (od & -> & <-).
  destruct od; [done|].
  destruct (first_match_ok _ command Hr) as (orr & -> & <-).
  destruct (first_match_ok _ command Ha) as (oa & -> & <-).
  destruct oa, orr, (hasAllowlist ps); done.
Qed.

Lemma worst_VAllow_r v : worst v VAllow = v.
Proof. by destruct v. Qed.
Lemma worst_VDeny_l v : worst VDeny v = VDeny.
Proof. by destruct v. Qed.

Lemma decide_loop_spec ps cmds needs rule :
  patterns_ok ps →
  verdict_of (decide_loop ps cmds needs rule) =
  worst (if needs then VApproval else VAllow) (spec_line ps cmds).
Proof.
  intros Hok. revert needs rule. induction cmds as [|c cmds IH]; intros needs rule; simpl.
  { by destruct needs. }
  destruct (decideOne_spec ps c Hok) as [He Hv]. rewrite <-Hv, He. unfold verdict_of at 2. rewrite He.
  destruct (d_allowed (decideOne ps c)) eqn:Ha; simpl.
  - destruct (d_needsApproval _), needs; simpl; rewrite IH; by destruct (spec_line ps cmds).
  - unfold verdict_of. rewrite He, Ha, worst_VDeny_l. by destruct needs.
Qed.

Lemma Decide_verdict ps command :
  patterns_ok ps → verdict_of (Decide ps command) = spec_decide ps command.
Proof.
  intros Hok. unfold Decide, spec_decide.
  case_bool_decide; [done|]. destruct (shellParse ps).
  - destruct (extractCommands command); [|done]. rewrite decide_loop_spec by done.
    by destruct (spec_line ps a).
  - rewrite decide_loop_spec by done. simpl. rewrite worst_VAllow_r. by destruct (spec_one ps command).
Qed.

(** [C9] The evaluator implements the specification: on a validated set the
    decision on a command line is the worst verdict over its simple commands,
    where a deny match in any denylist wins, then an allowlist with no match
    denies, then a match of any [require_approval] rule gates; a line the shell
    front end refuses is denied. *)
Theorem Decide_refines_spec ps command :
  ps_Validate ps = Ok () → verdict_of (Decide ps command) = spec_decide ps command.
Proof. intros Hok. by apply Decide_verdict, ps_Validate_patterns. Qed.

Lemma spec_line_app ps cmds v :
  vle (spec_line ps cmds) v ↔ ∀ c, c ∈ cmds → vle (spec_one ps c) v.
Proof.
  unfold vle. induction cmds as [|c cmds IH]; simpl; [split; [set_solver|by destruct v; simpl; lia]|].
  rewrite (forall_cons_spec c cmds), <-IH. unfold worst. case_bool_decide; lia.
Qed.

(** A verdict other than [VDeny] on a simple command means what it should. *)
Lemma spec_one_not_denied ps c :
  spec_one ps c ≠ VDeny ↔
  some_match (deny_patterns ps) c = false ∧
  (hasAllowlist ps = true → some_match (allow_patterns ps) c = true).
Proof.
  unfold spec_one. destruct (some_match (deny_patterns ps) c), (hasAllowlist ps),
    (some_match (allow_patterns ps) c), (some_match (approval_patterns ps) c); naive_solver.
Qed.

Lemma not_denied_vle v : v ≠ VDeny ↔ vle v VApproval.
Proof. unfold vle. destruct v; simpl; split; (lia || done). Qed.

(** No simple command of an accepted line escapes the policy: when a
    validated, parsing set does not deny a line, the line parses and every one
    of its simple commands matches no deny rule and, if any member is an
    allowlist, matches some allow rule. *)
Theorem Decide_covers_every_command ps command :
  ps_Validate ps = Ok () → shellParse ps = true →
  verdict_of (Decide ps command) ≠ VDeny →
  ∃ cmds, extractCommands command = Ok cmds ∧
    ∀ c, c ∈ cmds →
      some_match (deny_patterns ps) c = false ∧
      (hasAllowlist ps = true → some_match (allow_patterns ps) c = true).
Proof.
  intros Hv%ps_Validate_patterns Hparse Hd. rewrite Decide_verdict in Hd by done. unfold spec_decide in Hd.
  rewrite Hparse in Hd. case_bool_decide; [by subst|].
  destruct (extractCommands command) as [cmds|]; [|done]. exists cmds. split; [done|].
  apply not_denied_vle in Hd. rewrite spec_line_app in Hd. intros c Hc.
  apply spec_one_not_denied, not_denied_vle. auto.
Qed.

(** *** Order independence *)

Lemma some_match_perm pats qats c : pats ≡ₚ qats → some_match pats c = some_match qats c.
Proof.
  intros H. apply eq_bool_prop_intro. unfold some_match.
  rewrite !Is_true_true, !existsb_exists. setoid_rewrite <-list_elem_of_In. by setoid_rewrite H.
Qed.

#[export] Instance spec_one_perm : Proper ((≡ₚ) ==> eq ==> eq) spec_one.
Proof.
  intros ps qs H c _ <-. unfold spec_one, deny_patterns, allow_patterns, approval_patterns, hasAllowlist.
  rewrite (existsb_perm _ _ _ H). by rewrite !(some_match_perm _ _ c (flat_map_perm _ _ _ H)).
Qed.

#[export] Instance spec_decide_perm : Proper ((≡ₚ) ==> eq ==> eq) spec_decide.
Proof.
  intros ps qs H c _ <-. unfold spec_decide, shellParse. rewrite (existsb_perm _ _ _ H).
  assert (bool_decide (ps = []) = bool_decide (qs = [])) as ->.
  { apply bool_decide_ext. split; intros ->; [by apply Permutation_nil_l in H|by apply Permutation_nil_r in H]. }
  rewrite H. destruct (extractCommands c) as [cmds|]; [|done].
  assert (spec_line ps cmds = spec_line qs cmds) as ->; [|done].
  induction cmds as [|x cmds IH]; simpl; [done|]. by rewrite IH, H.
Qed.

(** The verdict does not depend on the order of the members: any two
    validated sets with the same members, in whatever order they were composed
    or a grant map was iterated, decide every command alike. *)
Theorem Decide_order_independent ps qs command :
  ps ≡ₚ qs → ps_Validate ps = Ok () → ps_Validate qs = Ok () →
  verdict_of (Decide ps command) = verdict_of (Decide qs command).
Proof.
  intros H Hp%ps_Validate_patterns Hq%ps_Validate_patterns.
  rewrite !Decide_verdict by done. by rewrite H.
Qed.

(** *** Composition *)

Lemma some_match_app p q c : some_match (p ++ q) c = some_match p c || some_match q c.
Proof. apply existsb_app. Qed.

(** Joining sets joins their deny, approval and allow patterns. *)
Lemma deny_patterns_app ps qs : deny_patterns (ps ++ qs) = deny_patterns ps ++ deny_patterns qs.
Proof. apply flat_map_app. Qed.
Lemma approval_patterns_app ps qs : approval_patterns (ps ++ qs) = approval_patterns ps ++ approval_patterns qs.
Proof. apply flat_map_app. Qed.
Lemma allow_patterns_app ps qs : allow_patterns (ps ++ qs) = allow_patterns ps ++ allow_patterns qs.
Proof. apply flat_map_app. Qed.
Lemma hasAllowlist_app ps qs : hasAllowlist (ps ++ qs) = hasAllowlist ps || hasAllowlist qs.
Proof. apply existsb_app. Qed.
Lemma shellParse_app ps qs : shellParse (ps ++ qs) = shellParse ps || shellParse qs.
Proof. apply existsb_app. Qed.

Lemma spec_line_mono ps qs cmds :
  (∀ c, vle (spec_one ps c) (spec_one qs c)) → vle (spec_line ps cmds) (spec_line qs cmds).
Proof.
  intros H. apply spec_line_app. intros c Hc. transitivity (spec_one qs c); [apply H|].
  by apply (spec_line_app qs cmds (spec_line qs cmds)).
Qed.

(** Adding a member that carries no allowlist never makes a parsing set more
    permissive. *)
Lemma spec_decide_tighten ps q command :
  shellParse ps = true → cp_Mode q ≠ CmdPolicyAllowlist →
  vle (spec_decide ps command) (spec_decide (ps ++ [q]) command).
Proof.
  intros Hsp Hq. unfold spec_decide. rewrite shellParse_app, Hsp. simpl.
  rewrite (bool_decide_eq_false_2 (ps = [])) by (by intros ->).
  rewrite (bool_decide_eq_false_2 (ps ++ [q] = [])) by (by destruct ps).
  destruct (extractCommands command); [|reflexivity]. apply spec_line_mono. intros c.
  assert (hasAllowlist [q] = false ∧ some_match (allow_patterns [q]) c = false) as [Ha Hm].
  { unfold hasAllowlist, allow_patterns; simpl. by rewrite bool_decide_eq_false_2. }
  unfold spec_one. rewrite deny_patterns_app, approval_patterns_app, allow_patterns_app,
    hasAllowlist_app, !some_match_app, Ha, Hm, !orb_false_r. unfold vle.
  destruct (some_match (deny_patterns ps) c), (some_match (deny_patterns [q]) c),
    (hasAllowlist ps), (some_match (allow_patterns ps) c), (some_match (approval_patterns ps) c),
    (some_match (approval_patterns [q]) c); simpl; lia.
Qed.

(** Members that only carry allow patterns never make a parsing,
    allowlist-active set more restrictive. *)
Definition allow_only (p : CommandPolicy) : Prop :=
  cp_Mode p = CmdPolicyAllowlist ∧ cp_RequireApproval p = [].

Lemma allow_only_patterns gs :
  Forall allow_only gs → deny_patterns gs = [] ∧ approval_patterns gs = [].
Proof.
  induction 1 as [|g gs [Hm Hr] _ [IHd IHa]]; simpl; [done|].
  rewrite Hm, Hr. by rewrite IHd, IHa.
Qed.

Lemma spec_decide_widen ps gs command :
  hasAllowlist ps = true → shellParse ps = true → Forall allow_only gs →
  vle (spec_decide (ps ++ gs) command) (spec_decide ps command).
Proof.
  intros Hal Hsp Hgs. destruct (allow_only_patterns _ Hgs) as [Hd Hr].
  unfold spec_decide. rewrite shellParse_app, Hsp. simpl.
  rewrite (bool_decide_eq_false_2 (ps = [])) by (by intros ->).
  rewrite (bool_decide_eq_false_2 (ps ++ gs = [])) by (by destruct ps).
  destruct (extractCommands command); [|reflexivity]. apply spec_line_mono. intros c.
  unfold spec_one. rewrite deny_patterns_app, approval_patterns_app, allow_patterns_app,
    hasAllowlist_app, Hd, Hr, !app_nil_r, some_match_app, Hal. unfold vle; simpl.
  destruct (some_match (deny_patterns ps) c), (some_match (allow_patterns ps) c),
    (some_match (allow_patterns gs) c), (some_match (approval_patterns ps) c); simpl; lia.
Qed.
End specification.

(** ** Enforcement mode *)

Lemma enforcement_loop_audit b ps :
  enforcement_loop b ps = CmdPolicyAudit ↔
  (b = true ∨ ∃ p, p ∈ ps ∧ Restricts p = true) ∧
  ∀ p, p ∈ ps → Restricts p = true → cp_Enforcement p = CmdPolicyAudit.
Proof.
  revert b. induction ps as [|p ps IH]; intros b; simpl.
  { destruct b; [split; [intros _; split; [by left|set_solver]|done]|].
    split; [done|]. intros [[?|(? & ? & _)] _]; set_solver. }
  destruct (Restricts p) eqn:Hr; simpl; [case_bool_decide as He|].
  - rewrite IH. set_solver.
  - split; [done|]. intros [_ H]. set_solver.
  - rewrite IH.
    assert ((∃ q, q ∈ p :: ps ∧ Restricts q = true) ↔ ∃ q, q ∈ ps ∧ Restricts q = true) as ->.
    { split; intros (q & Hq & Hqr); exists q; (split; [|done]); [|by right].
      apply elem_of_cons in Hq as [->|]; [congruence|done]. }
    rewrite forall_cons_spec, Hr. naive_solver.
Qed.

(** Composition of enforcement is conservative: a set only observes when
    it has a restricting member and every restricting member is in audit mode;
    one enforcing member makes the whole set enforce. *)
Theorem Enforcement_conservative ps :
  Enforcement ps = CmdPolicyAudit ↔
  (∃ p, p ∈ ps ∧ Restricts p = true) ∧
  ∀ p, p ∈ ps → Restricts p = true → cp_Enforcement p = CmdPolicyAudit.
Proof. unfold Enforcement. rewrite enforcement_loop_audit. naive_solver. Qed.

Lemma Enforcement_cases ps : Enforcement ps = CmdPolicyAudit ∨ Enforcement ps = CmdPolicyEnforce.
Proof.
  unfold Enforcement. generalize false. induction ps as [|p ps IH]; intros b; simpl.
  - destruct b; auto.
  - destruct (negb _); [auto|]. case_bool_decide; auto.
Qed.

(** ** Concrete sets *)

(** A host allowlist with a deny rule beside it and one gated command. *)
Definition sample_allow : CommandPolicy :=
  mkCommandPolicy CmdPolicyAllowlist "" ["systemctl "; "uptime"] [] ["systemctl stop"] None.
Definition sample_deny : CommandPolicy :=
  mkCommandPolicy CmdPolicyDenylist "" [] ["systemctl restart sshd"] [] None.
Definition sample_set : PolicySet := [sample_allow; sample_deny].

Example sample_verdicts :
  map (fun c => verdict_of (@Decide prefix_engine plain_parser sample_set c))
    ["uptime"; "systemctl stop nginx"; "systemctl restart sshd"; "rm -rf /"; "sudo id"]
  = [VAllow; VApproval; VDeny; VDeny; VDeny].
Proof. reflexivity. Qed.

Lemma Decide_refines_spec_witness :
  verdict_of (@Decide prefix_engine plain_parser sample_set "systemctl stop nginx") = VApproval.
Proof. exact (@Decide_refines_spec prefix_engine plain_parser sample_set _ eq_refl). Defined.

Lemma Decide_covers_every_command_witness :
  ∃ cmds, @extractCommands plain_parser "uptime" = Ok cmds ∧
    ∀ c, c ∈ cmds →
      @some_match prefix_engine (deny_patterns sample_set) c = false ∧
      (hasAllowlist sample_set = true → @some_match prefix_engine (allow_patterns sample_set) c = true).
Proof. apply (@Decide_covers_every_command prefix_engine plain_parser); [reflexivity..|done]. Defined.

Lemma Decide_order_independent_witness :
  verdict_of (@Decide prefix_engine plain_parser sample_set "systemctl restart sshd")
  = verdict_of (@Decide prefix_engine plain_parser [sample_deny; sample_allow] "systemctl restart sshd").
Proof.
  apply (@Decide_order_independent prefix_engine plain_parser); [constructor|reflexivity..].
Defined.
