(* ===== verification/K8sAction.v ===== *)
(** * Kubernetes actions

    [internal/signer/k8saction.go]: the structured action, its validation and
    its canonical string, and [internal/k8s/resources.go]: the resource table
    that normalises it. The canonical string is what policies match, what the
    approver reads and what the audit log records; it determines the action. *)

From S2P Require Import Prelude GoStrings.

(** ** Identifier grammars *)

Definition lower_alnum (c : ascii) : bool := is_lower c || is_digit c.
Definition label_char (c : ascii) : bool := lower_alnum c || ascii_eqb c "-"%char.
Definition subdomain_char (c : ascii) : bool := label_char c || ascii_eqb c "."%char.

Fixpoint last_char (c : ascii) (s : string) : ascii :=
  match s with "" => c | String c' s' => last_char c' s' end.

(** [^[a-z0-9](M{0,n}[a-z0-9])?$] for a middle class [M] and [max = n + 2]. *)
Definition rfc1123 (mid : ascii → bool) (max : nat) (s : string) : bool :=
  match s with
  | "" => false
  | String c s' =>
      lower_alnum c && forall_char mid s' && lower_alnum (last_char c s')
      && bool_decide (String.length s ≤ max)%nat
  end.

Definition reLabel (s : string) : bool := rfc1123 label_char 63 s.
Definition reSubdomain (s : string) : bool := rfc1123 subdomain_char 253 s.
Definition reK8sResource (s : string) : bool := reLabel s.
Definition reK8sGroup (s : string) : bool := reSubdomain s.
Definition reK8sNamespace (s : string) : bool := reLabel s.
Definition reK8sName (s : string) : bool := reSubdomain s.

(** [^v[0-9]+((alpha|beta)[0-9]+)?$] *)
Fixpoint skip_digits (s : string) : string :=
  match s with String c s' => if is_digit c then skip_digits s' else s | "" => "" end.
Definition digits1 (s : string) : bool := forall_char is_digit s && bool_decide (s ≠ "").
Definition reVersion (s : string) : bool :=
  match s with
  | String "v" (String d s') =>
      is_digit d &&
      (let rest := skip_digits s' in
       bool_decide (rest = "")
       || (HasPrefix rest "alpha" && digits1 (sdrop 5 rest))
       || (HasPrefix rest "beta" && digits1 (sdrop 4 rest)))
  | _ => false
  end.

(** ** Actions *)

Definition K8sVerbGet : string := "get".
Definition K8sVerbList : string := "list".
Definition K8sVerbLogs : string := "logs".
Definition K8sVerbApply : string := "apply".
Definition K8sVerbDelete : string := "delete".
Definition K8sVerbs : list string :=
  [K8sVerbGet; K8sVerbList; K8sVerbLogs; K8sVerbApply; K8sVerbDelete].

Record K8sAction := mkK8sAction {
  ka_Verb : string;
  ka_Resource : string;
  ka_Group : string;
  ka_Namespace : string;
  ka_Name : string;
}.

#[global] Instance K8sAction_eq_dec : EqDecision K8sAction.
Proof. solve_decision. Defined.

Inductive k8s_error :=
| EUnknownVerb (v : string)
| EInvalidResource (r : string)
| EInvalidGroup (g : string)
| EInvalidNamespace (n : string)
| EInvalidName (n : string)
| EListTakesNoName
| ELogsPodsOnly
| ELogsNeedsNamespace
| ENameRequired
| EExtraMissingField
| EExtraBadLabel (r : string)
| EExtraBadGroup (g : string)
| EExtraBadVersion (v : string)
| EExtraCollides (r : string)
| EUnknownResource (r : string)
| EWrongGroup (r g : string).

Definition ka_Validate (a : K8sAction) : result k8s_error unit :=
  guard! bool_decide (ka_Verb a ∈ K8sVerbs) else EUnknownVerb (ka_Verb a) in
  guard! reK8sResource (ka_Resource a) else EInvalidResource (ka_Resource a) in
  guard! bool_decide (ka_Group a = "") || reK8sGroup (ka_Group a)
    else EInvalidGroup (ka_Group a) in
  guard! bool_decide (ka_Namespace a = "") || reK8sNamespace (ka_Namespace a)
    else EInvalidNamespace (ka_Namespace a) in
  guard! bool_decide (ka_Name a = "") || reK8sName (ka_Name a)
    else EInvalidName (ka_Name a) in
  if bool_decide (ka_Verb a = K8sVerbList) then
    guard! bool_decide (ka_Name a = "") else EListTakesNoName in Ok ()
  else if bool_decide (ka_Verb a = K8sVerbLogs) then
    guard! bool_decide (ka_Resource a = "pods") && bool_decide (ka_Group a = "")
      else ELogsPodsOnly in
    guard! bool_decide (ka_Namespace a ≠ "") else ELogsNeedsNamespace in
    guard! bool_decide (ka_Name a ≠ "") else ENameRequired in Ok ()
  else guard! bool_decide (ka_Name a ≠ "") else ENameRequired in Ok ().

Definition Canonical (a : K8sAction) : string :=
  let res := if bool_decide (ka_Group a ≠ "") then ka_Resource a +:+ "." +:+ ka_Group a
             else ka_Resource a in
  let ns := if bool_decide (ka_Namespace a = "") then "-" else ka_Namespace a in
  let name := if bool_decide (ka_Name a = "") then "-" else ka_Name a in
  ka_Verb a +:+ " " +:+ res +:+ " " +:+ ns +:+ "/" +:+ name.

(** ** Resource table *)

Record ResourceDef := mkResourceDef {
  rd_Resource : string;
  rd_Group : string;
  rd_Version : string;
  rd_Kind : string;
  rd_Namespaced : bool;
}.

Definition coreResources : list ResourceDef :=
  [mkResourceDef "pods" "" "v1" "Pod" true;
   mkResourceDef "services" "" "v1" "Service" true;
   mkResourceDef "configmaps" "" "v1" "ConfigMap" true;
   mkResourceDef "secrets" "" "v1" "Secret" true;
   mkResourceDef "serviceaccounts" "" "v1" "ServiceAccount" true;
   mkResourceDef "namespaces" "" "v1" "Namespace" false;
   mkResourceDef "nodes" "" "v1" "Node" false;
   mkResourceDef "events" "" "v1" "Event" true;
   mkResourceDef "persistentvolumeclaims" "" "v1" "PersistentVolumeClaim" true;
   mkResourceDef "persistentvolumes" "" "v1" "PersistentVolume" false;
   mkResourceDef "deployments" "apps" "v1" "Deployment" true;
   mkResourceDef "statefulsets" "apps" "v1" "StatefulSet" true;
   mkResourceDef "daemonsets" "apps" "v1" "DaemonSet" true;
   mkResourceDef "replicasets" "apps" "v1" "ReplicaSet" true;
   mkResourceDef "jobs" "batch" "v1" "Job" true;
   mkResourceDef "cronjobs" "batch" "v1" "CronJob" true;
   mkResourceDef "ingresses" "networking.k8s.io" "v1" "Ingress" true].

Definition core_table : gmap string ResourceDef :=
  foldl (fun t r => <[rd_Resource r := r]> t) ∅ coreResources.

Fixpoint add_extra (table : gmap string ResourceDef) (extra : list ResourceDef) :
    result k8s_error (gmap string ResourceDef) :=
  match extra with
  | [] => Ok table
  | r :: extra' =>
      guard! bool_decide (rd_Resource r ≠ "") && bool_decide (rd_Version r ≠ "")
             && bool_decide (rd_Kind r ≠ "") else EExtraMissingField in
      guard! reLabel (rd_Resource r) else EExtraBadLabel (rd_Resource r) in
      guard! bool_decide (rd_Group r = "") || reSubdomain (rd_Group r)
        else EExtraBadGroup (rd_Group r) in
      guard! reVersion (rd_Version r) else EExtraBadVersion (rd_Version r) in
      match table !! rd_Resource r with
      | Some _ => Err (EExtraCollides (rd_Resource r))
      | None => add_extra (<[rd_Resource r := r]> table) extra'
      end
  end.
Definition Resources (extra : list ResourceDef) : result k8s_error (gmap string ResourceDef) :=
  add_extra core_table extra.

Definition k8s_Resolve (table : gmap string ResourceDef) (resource group : string) :
    result k8s_error ResourceDef :=
  match table !! resource with
  | None => Err (EUnknownResource resource)
  | Some def =>
      guard! bool_decide (group = "") || bool_decide (group = rd_Group def)
        else EWrongGroup resource group in Ok def
  end.

(** ** Facts *)

Example canonical_1 :
  Canonical (mkK8sAction "apply" "deployments" "apps" "prod" "api")
  = "apply deployments.apps prod/api".
Proof. reflexivity. Qed.
Example version_1 : (reVersion "v1beta1", reVersion "v1/x", reVersion "v2alpha3") = (true, false, true).
Proof. reflexivity. Qed.

Lemma rfc1123_chars mid max s :
  (∀ c, lower_alnum c = true → mid c = true) → rfc1123 mid max s = true → forall_char mid s = true.
Proof.
  intros Hm. destruct s as [|c s]; simpl; [done|]. intros H. unbool. apply andb_true_iff. auto.
Qed.

Lemma label_chars s : reLabel s = true → forall_char label_char s = true.
Proof. apply rfc1123_chars. unfold label_char. intros c ->. done. Qed.
Lemma subdomain_chars s : reSubdomain s = true → forall_char subdomain_char s = true.
Proof. apply rfc1123_chars. unfold subdomain_char, label_char. intros c ->. done. Qed.

(** Alphabets without a byte exclude it from every word. *)
Lemma chars_exclude (p : ascii → bool) (c : ascii) s :
  p c = false → forall_char p s = true → ContainsByte s c = false.
Proof.
  intros Hp. unfold ContainsByte. induction s as [|a s IH]; simpl; [done|].
  intros [Ha Hs]%andb_true_iff. rewrite IH, orb_false_r by done.
  apply bool_decide_eq_false. intros <-. congruence.
Qed.

Lemma rfc1123_not_dash mid max : rfc1123 mid max "-" = false.
Proof. done. Qed.

Definition ns_text (s : string) : string := if bool_decide (s = "") then "-" else s.
Definition res_text (r g : string) : string := if bool_decide (g ≠ "") then r +:+ "." +:+ g else r.

Lemma ns_text_inj mid max s t :
  (bool_decide (s = "") || rfc1123 mid max s) = true →
  (bool_decide (t = "") || rfc1123 mid max t) = true → ns_text s = ns_text t → s = t.
Proof.
  unfold ns_text. case_bool_decide; case_bool_decide; simpl; intros; subst; try done;
    by rewrite rfc1123_not_dash in *.
Qed.

Lemma res_text_inj r1 g1 r2 g2 :
  reLabel r1 = true → reLabel r2 = true → res_text r1 g1 = res_text r2 g2 → r1 = r2 ∧ g1 = g2.
Proof.
  intros H1%label_chars H2%label_chars. unfold res_text.
  apply (chars_exclude _ "."%char) in H1; [|done]. apply (chars_exclude _ "."%char) in H2; [|done].
  case_bool_decide as Hg1; case_bool_decide as Hg2; intros Heq.
  - change ("." +:+ g1) with (String "."%char g1) in Heq.
    change ("." +:+ g2) with (String "."%char g2) in Heq.
    by apply split_at_unique in Heq.
  - by apply split_at_absent in Heq.
  - symmetry in Heq. by apply split_at_absent in Heq.
  - split; congruence.
Qed.

Lemma Validate_fields a :
  ka_Validate a = Ok () →
  ka_Verb a ∈ K8sVerbs ∧ reLabel (ka_Resource a) = true ∧
  (bool_decide (ka_Group a = "") || reSubdomain (ka_Group a)) = true ∧
  (bool_decide (ka_Namespace a = "") || reLabel (ka_Namespace a)) = true ∧
  (bool_decide (ka_Name a = "") || reSubdomain (ka_Name a)) = true.
Proof.
  unfold ka_Validate. case_bool_decide; [|done].
  destruct (reK8sResource _) eqn:?; [|done].
  destruct (_ || reK8sGroup _) eqn:?; [|done].
  destruct (_ || reK8sNamespace _) eqn:?; [|done].
  destruct (_ || reK8sName _) eqn:?; [|done]. done.
Qed.

Lemma verb_no_space v : v ∈ K8sVerbs → ContainsByte v " "%char = false.
Proof. unfold K8sVerbs. rewrite !elem_of_cons, elem_of_nil. by intros [->|[->|[->|[->|[->|[]]]]]]. Qed.

Lemma res_text_no_space r g :
  reLabel r = true → (bool_decide (g = "") || reSubdomain g) = true →
  ContainsByte (res_text r g) " "%char = false.
Proof.
  intros Hr%label_chars Hg. apply (chars_exclude _ " "%char) in Hr; [|done].
  unfold res_text. destruct (bool_decide (g ≠ "")) eqn:Hne; [|done]. unbool.
  apply orb_true_iff in Hg as [Hg%bool_decide_eq_true|Hg%subdomain_chars]; [done|].
  apply (chars_exclude _ " "%char) in Hg; [|done].
  unfold ContainsByte in *. by rewrite exists_char_app, Hr.
Qed.

Lemma ns_text_no_slash s :
  (bool_decide (s = "") || reLabel s) = true → ContainsByte (ns_text s) "/"%char = false.
Proof.
  unfold ns_text. case_bool_decide; [done|]. simpl. intros Hl%label_chars.
  by apply (chars_exclude _ "/"%char) in Hl.
Qed.

Lemma Canonical_text a :
  Canonical a = ka_Verb a +:+ String " " (res_text (ka_Resource a) (ka_Group a) +:+
    String " " (ns_text (ka_Namespace a) +:+ String "/" (ns_text (ka_Name a)))).
Proof. done. Qed.

(** The canonical string determines the action: two validated actions with
    the same canonical form are the same action, so a policy match, an approval
    or an audit record on the string is about exactly one action. *)
Theorem Canonical_injective a b :
  ka_Validate a = Ok () → ka_Validate b = Ok () → Canonical a = Canonical b → a = b.
Proof.
  intros (Hva & Hra & Hga & Hna & Hma)%Validate_fields (Hvb & Hrb & Hgb & Hnb & Hmb)%Validate_fields.
  rewrite !Canonical_text. intros Heq.
  apply split_at_unique in Heq as [Hv Heq]; [|by apply verb_no_space..].
  apply split_at_unique in Heq as [Hr Heq]; [|by apply res_text_no_space..].
  apply split_at_unique in Heq as [Hn Hm]; [|by apply ns_text_no_slash..].
  apply res_text_inj in Hr as [? ?]; [|done..].
  apply (ns_text_inj label_char 63) in Hn; [|done..].
  apply (ns_text_inj subdomain_char 253) in Hm; [|done..].
  destruct a, b; simpl in *; congruence.
Qed.

Lemma Canonical_injective_witness :
  mkK8sAction "get" "pods" "" "prod" "web-1" = mkK8sAction "get" "pods" "" "prod" "web-1".
Proof. apply Canonical_injective; reflexivity. Defined.
