(* ===== verification/Intent.v ===== *)
(** * Intents

    [internal/signer/signer.go]: what a broker asks the signer to sign. *)

From S2P Require Import Prelude GoStrings K8sAction.

Definition RoleTarget : string := "target".
Definition RoleBastion : string := "bastion".
Definition PurposeOneshot : string := "oneshot".
Definition PurposeSession : string := "session".
Definition SessionModeExec : string := "exec".
Definition SessionModeShell : string := "shell".
Definition SessionModePTY : string := "pty".
Definition TargetTypeSSH : string := "ssh".
Definition TargetTypeK8s : string := "k8s".

(** [in_PublicKey] is the wire form of the ephemeral public key; a nil group
    list ([None]) is distinct from an empty one. *)
Record Intent := mkIntent {
  in_Caller : string;
  in_Host : string;
  in_TargetType : string;
  in_K8s : option K8sAction;
  in_Role : string;
  in_Purpose : string;
  in_SessionMode : string;
  in_Command : string;
  in_RequestedTTL : duration;
  in_PublicKey : string;
  in_Sudo : bool;
  in_SudoUser : string;
  in_PTY : bool;
  in_FileTransfer : bool;
  in_DryRun : bool;
  in_Preflight : bool;
  in_Approved : bool;
  in_OnBehalfOf : string;
  in_EndUser : string;
  in_EndUserGroups : option (list string);
  in_EndUserContext : string;
  in_RawToken : string;
  in_LearnTTLSeconds : Z;
  in_LearnApprover : string;
  in_LearnApprovalID : string;
}.

(** A one-shot target intent with everything else unset. *)
Definition oneshot (caller host command : string) : Intent :=
  mkIntent caller host "" None RoleTarget PurposeOneshot "" command 0 "" false "" false false
    false false false "" "" None "" "" 0 "" "".
