(* ===== verification/Freeze.v ===== *)
(** * The kill switch

    [internal/signer/freeze.go]: the set of frozen subjects. Its persistence
    discipline is the opposite of the grants': losing a freeze gives access
    back, so a mutation is written before it is acknowledged and a start-up
    that cannot read every row fails. *)

From S2P Require Import Prelude GoStrings.

Definition FreezeCaller : string := "caller".
Definition FreezeEndUser : string := "end_user".
Definition FreezeSessionID : string := "session_id".
Definition FreezeSerial : string := "serial".

Definition ValidFreezeKind (kind : string) : bool :=
  bool_decide (kind ∈ [FreezeCaller; FreezeEndUser; FreezeSessionID; FreezeSerial]).

Record FreezeSubject := mkFreezeSubject { fs_Kind : string; fs_Value : string }.
#[global] Instance FreezeSubject_eq_dec : EqDecision FreezeSubject.
Proof. solve_decision. Defined.
#[global] Program Instance FreezeSubject_countable : Countable FreezeSubject :=
  inj_countable (fun s => (fs_Kind s, fs_Value s)) (fun p => Some (mkFreezeSubject p.1 p.2)) _.
Next Obligation. by intros []. Qed.

Record FrozenEntry := mkFrozenEntry {
  fe_Subject : FreezeSubject;
  fe_Reason : string;
  fe_FrozenBy : string;
  fe_FrozenAt : time;
}.

(** A row of table [freezes], keyed by its primary key (kind, value). *)
Record freeze_row := mkFreezeRow { fr_reason : string; fr_frozen_by : string; fr_frozen_at : Z }.
Abbreviation freeze_table := (gmap FreezeSubject freeze_row).

(** The state db: the rows a query sees, and the rows that survive a power
    loss, which a completed checkpoint brings up to date. *)
Record freeze_db := mkFreezeDB { fdb_committed : freeze_table; fdb_durable : freeze_table }.

Record FreezeStore := mkFreezeStore {
  frozen : gmap FreezeSubject FrozenEntry;
  fz_db : option freeze_db;
}.

Inductive freeze_error :=
| EInvalidFreezeKind (kind : string)
| EEmptyFreezeValue
| EPersistFreeze
| ErrFreezeNotDurable
| ERemoveFreeze
| ELoadFreezes
| EUnknownKindRow (kind : string).

Definition NewFreezeStore : FreezeStore := mkFreezeStore ∅ None.

Definition Volatile (s : FreezeStore) : bool := bool_decide (fz_db s = None).

Definition entry_of_row (subj : FreezeSubject) (r : freeze_row) : FrozenEntry :=
  mkFrozenEntry subj (fr_reason r) (fr_frozen_by r) (time_of_unix (fr_frozen_at r)).

(** [NewFreezeStoreDB]; [readok] says the query and every scan succeeded. *)
Definition NewFreezeStoreDB (readok : bool) (db : freeze_db) : result freeze_error FreezeStore :=
  if negb readok then Err ELoadFreezes else
  match list_find (fun kv => ¬ Is_true (ValidFreezeKind (fs_Kind kv.1)))
                  (map_to_list (fdb_committed db)) with
  | Some (_, (subj, _)) => Err (EUnknownKindRow (fs_Kind subj))
  | None => Ok (mkFreezeStore (map_imap (fun subj r => Some (entry_of_row subj r)) (fdb_committed db))
                              (Some db))
  end.

(** [checkpointDurable]: a completed FULL checkpoint makes the visible rows durable. *)
Definition freezeCheckpoint (ckptok : bool) (db : freeze_db) : option freeze_db :=
  if ckptok then Some (mkFreezeDB (fdb_committed db) (fdb_committed db)) else None.

(** [Add] returns whether the subject was newly frozen, with the error (if any)
    of the last phase. *)
Definition fz_Add (dbok ckptok : bool) (s : FreezeStore) (subj : FreezeSubject)
    (reason by_ : string) (now : time) : (bool * option freeze_error) * FreezeStore :=
  if negb (ValidFreezeKind (fs_Kind subj)) then
    ((false, Some (EInvalidFreezeKind (fs_Kind subj))), s)
  else if bool_decide (fs_Value subj = "") then ((false, Some EEmptyFreezeValue), s)
  else
    let e := mkFrozenEntry subj reason by_ now in
    let existed := bool_decide (is_Some (frozen s !! subj)) in
    let mem := <[subj := e]> (frozen s) in
    match fz_db s with
    | None => ((negb existed, None), mkFreezeStore mem None)
    | Some db =>
        if negb dbok then ((false, Some EPersistFreeze), s)
        else
          let db := mkFreezeDB (<[subj := mkFreezeRow reason by_ (Unix now)]> (fdb_committed db))
                               (fdb_durable db) in
          match freezeCheckpoint ckptok db with
          | None => ((negb existed, Some ErrFreezeNotDurable), mkFreezeStore mem (Some db))
          | Some db' => ((negb existed, None), mkFreezeStore mem (Some db'))
          end
    end.

Definition fz_Remove (dbok ckptok : bool) (s : FreezeStore) (subj : FreezeSubject) :
    (bool * option freeze_error) * FreezeStore :=
  match frozen s !! subj with
  | None => ((false, None), s)
  | Some _ =>
      match fz_db s with
      | None => ((true, None), mkFreezeStore (delete subj (frozen s)) None)
      | Some db =>
          if negb dbok then ((false, Some ERemoveFreeze), s)
          else
            let db := mkFreezeDB (delete subj (fdb_committed db)) (fdb_durable db) in
            match freezeCheckpoint ckptok db with
            | None => ((false, Some ERemoveFreeze), mkFreezeStore (frozen s) (Some db))
            | Some db' => ((true, None), mkFreezeStore (delete subj (frozen s)) (Some db'))
            end
      end
  end.

(** [Frozen] on a possibly nil store. *)
Definition Frozen (s : option FreezeStore) (caller endUser : string) : option FreezeSubject :=
  match s with
  | None => None
  | Some s =>
      let c := mkFreezeSubject FreezeCaller caller in
      let u := mkFreezeSubject FreezeEndUser endUser in
      if bool_decide (caller ≠ "") && bool_decide (is_Some (frozen s !! c)) then Some c
      else if bool_decide (endUser ≠ "") && bool_decide (is_Some (frozen s !! u)) then Some u
      else None
  end.

Definition fz_List (s : option FreezeStore) : list FrozenEntry :=
  match s with None => [] | Some s => map snd (map_to_list (frozen s)) end.

(** ** The store as a transition system

    An operation with the outcomes its database calls had. *)
Inductive freeze_op :=
| OpAdd (dbok ckptok : bool) (subj : FreezeSubject) (reason by_ : string) (now : time)
| OpRemove (dbok ckptok : bool) (subj : FreezeSubject).

Definition run_freeze_op (s : FreezeStore) (op : freeze_op) : (bool * option freeze_error) * FreezeStore :=
  match op with
  | OpAdd d c subj r b n => fz_Add d c s subj r b n
  | OpRemove d c subj => fz_Remove d c s subj
  end.

(** A delete that was applied but whose checkpoint failed. *)
Definition half_removed (op : freeze_op) : bool :=
  match op with OpRemove true false _ => true | _ => false end.

Definition run_freeze_ops (s : FreezeStore) (ops : list freeze_op) : FreezeStore :=
  foldl (fun s op => (run_freeze_op s op).2) s ops.

(** What the decision path enforces. *)
Definition enforced (s : FreezeStore) : gset FreezeSubject := dom (frozen s).

(** ** Facts *)

(** Memory and table agree and every kind is one this binary knows. *)
Definition freeze_inv (s : FreezeStore) : Prop :=
  (∀ subj, subj ∈ enforced s → Is_true (ValidFreezeKind (fs_Kind subj))) ∧
  match fz_db s with None => True | Some db => dom (fdb_committed db) = enforced s end.

Lemma freeze_inv_init : freeze_inv NewFreezeStore ∧ freeze_inv (mkFreezeStore ∅ (Some (mkFreezeDB ∅ ∅))).
Proof. unfold freeze_inv, enforced. simpl. set_solver. Qed.

Lemma fz_Add_inv d c s subj r b n : freeze_inv s → freeze_inv (fz_Add d c s subj r b n).2.
Proof.
  intros [Hk Hdb]. unfold fz_Add. destruct (ValidFreezeKind (fs_Kind subj)) eqn:Hv; simpl; [|done].
  case_bool_decide; [done|]. unfold freeze_inv, enforced in *.
  assert (∀ x, x ∈ dom (<[subj:=mkFrozenEntry subj r b n]> (frozen s)) →
               Is_true (ValidFreezeKind (fs_Kind x))).
  { intros x. rewrite dom_insert_L, elem_of_union, elem_of_singleton.
    intros [->|?]; [by rewrite Hv|auto]. }
  destruct (fz_db s) as [db|] eqn:Hs; [|done]. destruct d; simpl; [|by rewrite Hs].
  destruct c; simpl; split; try done; by rewrite !dom_insert_L, Hdb.
Qed.

Lemma fz_Remove_inv d c s subj :
  (d = true → c = true) → freeze_inv s → freeze_inv (fz_Remove d c s subj).2.
Proof.
  intros Hdc [Hk Hdb]. unfold fz_Remove. destruct (frozen s !! subj) eqn:Hl; [|done].
  unfold freeze_inv, enforced in *.
  assert (∀ x, x ∈ dom (delete subj (frozen s)) → Is_true (ValidFreezeKind (fs_Kind x))).
  { intros x. rewrite dom_delete_L. set_solver. }
  destruct (fz_db s) as [db|] eqn:Hs; [|done]. destruct d; simpl; [|by rewrite Hs].
  rewrite (Hdc eq_refl). simpl. split; [done|]. by rewrite !dom_delete_L, Hdb.
Qed.

Lemma run_freeze_op_inv s op : half_removed op = false → freeze_inv s → freeze_inv (run_freeze_op s op).2.
Proof.
  destruct op as [d c subj r b n|d c subj]; simpl; intros Hh Hi; [by apply fz_Add_inv|].
  apply fz_Remove_inv; [|done]. by destruct d, c.
Qed.

Lemma run_freeze_ops_inv s ops :
  Forall (fun op => half_removed op = false) ops → freeze_inv s → freeze_inv (run_freeze_ops s ops).
Proof.
  intros H. revert s. induction H as [|op ops Hop _ IH]; intros s Hi; simpl; [done|].
  apply IH. by apply run_freeze_op_inv.
Qed.

Lemma load_enforced db s :
  NewFreezeStoreDB true db = Ok s → enforced s = dom (fdb_committed db).
Proof.
  unfold NewFreezeStoreDB. simpl. destruct (list_find _ _) as [[? []]|]; [done|].
  intros [= <-]. unfold enforced. simpl. apply set_eq. intros x.
  rewrite !elem_of_dom, map_lookup_imap.
  destruct (fdb_committed db !! x); simpl; split; intros [? ?]; simplify_eq/=; eauto.
Qed.

Lemma load_total db :
  (∀ subj, subj ∈ dom (fdb_committed db) → Is_true (ValidFreezeKind (fs_Kind subj))) →
  ∃ s, NewFreezeStoreDB true db = Ok s.
Proof.
  intros Hk. unfold NewFreezeStoreDB. simpl.
  destruct (list_find _ _) as [[i [subj r]]|] eqn:Hf; [|eauto].
  apply list_find_Some in Hf as (Hl & Hbad & _). simpl in Hbad. destruct Hbad. apply Hk.
  apply elem_of_dom. exists r. apply elem_of_map_to_list. by eapply list_elem_of_lookup_2.
Qed.

(** A restart loses no freeze and adds none: after any sequence of freezes
    and unfreezes, whatever database calls failed along the way, other than an
    unfreeze whose delete applied and whose checkpoint then failed, reloading
    the state db succeeds and enforces exactly the subjects enforced before. *)
Theorem freeze_restart_exact ops db :
  Forall (fun op => half_removed op = false) ops →
  fz_db (run_freeze_ops (mkFreezeStore ∅ (Some (mkFreezeDB ∅ ∅))) ops) = Some db →
  ∃ s', NewFreezeStoreDB true db = Ok s' ∧
    enforced s' = enforced (run_freeze_ops (mkFreezeStore ∅ (Some (mkFreezeDB ∅ ∅))) ops).
Proof.
  intros Hops Hdb.
  destruct (run_freeze_ops_inv _ ops Hops (proj2 freeze_inv_init)) as [Hk Hm]. rewrite Hdb in Hm.
  destruct (load_total db) as [s' Hs']; [by rewrite Hm|].
  exists s'. split; [done|]. by rewrite (load_enforced _ _ Hs'), Hm.
Qed.

(** The checkpoint of an unfreeze is not covered by that guarantee: when
    the delete applies and the checkpoint fails, the caller gets an error and
    the subject stays enforced in this process, but the row is gone, so a
    reload of the state db no longer enforces it. *)
Theorem half_removed_diverges s db subj e :
  frozen s !! subj = Some e → fz_db s = Some db →
  (fz_Remove true false s subj).1 = (false, Some ERemoveFreeze) ∧
  subj ∈ enforced (fz_Remove true false s subj).2 ∧
  ∀ db' s', fz_db (fz_Remove true false s subj).2 = Some db' →
    NewFreezeStoreDB true db' = Ok s' → subj ∉ enforced s'.
Proof.
  intros Hl Hdb. unfold fz_Remove. rewrite Hl, Hdb. simpl. split_and!; [done| |].
  - apply elem_of_dom. eauto.
  - intros db' s' [= <-] Hload. rewrite (load_enforced _ _ Hload). simpl.
    rewrite dom_delete_L. set_solver.
Qed.

Definition removes (subj : FreezeSubject) (op : freeze_op) : bool :=
  match op with OpRemove _ _ s => bool_decide (s = subj) | _ => false end.

(** What a freeze that was written guarantees of a store: it is enforced and,
    with a state db, visible there. *)
Definition holds (s : FreezeStore) (subj : FreezeSubject) : Prop :=
  subj ∈ enforced s ∧
  match fz_db s with None => True | Some db => subj ∈ dom (fdb_committed db) end.
Definition holds_durably (s : FreezeStore) (subj : FreezeSubject) : Prop :=
  holds s subj ∧ match fz_db s with None => True | Some db => subj ∈ dom (fdb_durable db) end.

Lemma fz_Add_result d c s subj r b n isnew err s' :
  fz_Add d c s subj r b n = ((isnew, err), s') →
  err = None ∨ err = Some ErrFreezeNotDurable →
  holds s' subj ∧ (err = None → holds_durably s' subj).
Proof.
  unfold fz_Add, holds_durably, holds, enforced.
  destruct (negb _); [intros ? [|]; simplify_eq|].
  case_bool_decide; [intros ? [|]; simplify_eq|].
  destruct (fz_db s) as [db|]; [destruct d; simpl; [destruct c; simpl|]|];
    intros H' Herr; simplify_eq; simpl; rewrite ?dom_insert_L; try set_solver.
Qed.

Lemma run_freeze_op_holds s op subj :
  removes subj op = false →
  (holds s subj → holds (run_freeze_op s op).2 subj) ∧
  (holds_durably s subj → holds_durably (run_freeze_op s op).2 subj).
Proof.
  intros Hop. unfold holds_durably, holds, enforced.
  destruct op as [d c t r b n|d c t]; simpl in *.
  - unfold fz_Add. destruct (negb _); [done|]. case_bool_decide; [done|].
    destruct (fz_db s) as [db|] eqn:Hs; [|simpl; rewrite dom_insert_L; set_solver].
    destruct d; simpl; [|by rewrite Hs].
    destruct c; simpl; rewrite !dom_insert_L; set_solver.
  - apply bool_decide_eq_false in Hop. unfold fz_Remove. destruct (frozen s !! t); [|done].
    destruct (fz_db s) as [db|] eqn:Hs; [|simpl; rewrite dom_delete_L; set_solver].
    destruct d; simpl; [|by rewrite Hs].
    destruct c; simpl; rewrite ?dom_delete_L; set_solver.
Qed.

Lemma run_freeze_ops_holds s ops subj :
  Forall (fun op => removes subj op = false) ops →
  (holds s subj → holds (run_freeze_ops s ops) subj) ∧
  (holds_durably s subj → holds_durably (run_freeze_ops s ops) subj).
Proof.
  intros H. revert s. induction H as [|op ops Hop _ IH]; intros s; simpl; [done|].
  destruct (run_freeze_op_holds s op subj Hop) as [H1 H2].
  destruct (IH (run_freeze_op s op).2) as [H3 H4]. auto.
Qed.

(** [C32] The kill switch holds: once a freeze of a caller is acknowledged, even
    as "enforced but not durable", every later decision about that caller finds
    it frozen until someone unfreezes that very subject, whatever other freezes
    and unfreezes run and whatever database calls fail. *)
Theorem freeze_holds d c s caller r b n isnew err s' ops endUser :
  fz_Add d c s (mkFreezeSubject FreezeCaller caller) r b n = ((isnew, err), s') →
  err = None ∨ err = Some ErrFreezeNotDurable →
  Forall (fun op => removes (mkFreezeSubject FreezeCaller caller) op = false) ops →
  Frozen (Some (run_freeze_ops s' ops)) caller endUser = Some (mkFreezeSubject FreezeCaller caller).
Proof.
  intros Hadd Herr Hops. destruct (fz_Add_result _ _ _ _ _ _ _ _ _ _ Hadd Herr) as [Hh _].
  assert (Hne : caller ≠ "").
  { intros ->. unfold fz_Add in Hadd. simpl in Hadd. destruct Herr; simplify_eq. }
  apply (run_freeze_ops_holds _ _ _ Hops) in Hh as [Hh _].
  unfold enforced in Hh. apply elem_of_dom in Hh.
  unfold Frozen. rewrite (bool_decide_eq_true_2 (caller ≠ "")) by done.
  by rewrite (bool_decide_eq_true_2 _ Hh).
Qed.

(** A freeze acknowledged without an error is on disk: after a power loss
    the rows that survive still contain it, and so a reload enforces it, until
    that subject is unfrozen. *)
Theorem freeze_survives_power_loss d c s subj r b n isnew s' ops db s'' :
  fz_Add d c s subj r b n = ((isnew, None), s') →
  Forall (fun op => removes subj op = false) ops →
  fz_db (run_freeze_ops s' ops) = Some db →
  NewFreezeStoreDB true (mkFreezeDB (fdb_durable db) (fdb_durable db)) = Ok s'' →
  subj ∈ enforced s''.
Proof.
  intros Hadd Hops Hdb Hload.
  destruct (fz_Add_result _ _ _ _ _ _ _ _ _ _ Hadd (or_introl eq_refl)) as [_ Hh].
  specialize (Hh eq_refl). apply (run_freeze_ops_holds _ _ _ Hops) in Hh as [_ Hd].
  rewrite Hdb in Hd. by rewrite (load_enforced _ _ Hload).
Qed.

(** *** Witnesses *)

Definition mallory : FreezeSubject := mkFreezeSubject FreezeCaller "mallory".
Definition empty_db_store : FreezeStore := mkFreezeStore ∅ (Some (mkFreezeDB ∅ ∅)).
Definition demo_ops : list freeze_op :=
  [OpAdd true true mallory "incident" "ops" 5000000000;
   OpAdd true false (mkFreezeSubject FreezeSerial "42") "" "ops" 6000000000;
   OpRemove false true mallory].

Lemma freeze_restart_exact_witness :
  ∃ s', NewFreezeStoreDB true
    (default (mkFreezeDB ∅ ∅) (fz_db (run_freeze_ops empty_db_store demo_ops))) = Ok s' ∧
    enforced s' = enforced (run_freeze_ops empty_db_store demo_ops).
Proof. apply freeze_restart_exact; [repeat constructor|reflexivity]. Defined.

Lemma half_removed_diverges_witness :
  (fz_Remove true false (run_freeze_ops empty_db_store demo_ops) mallory).1
  = (false, Some ERemoveFreeze).
Proof.
  apply (half_removed_diverges _
    (default (mkFreezeDB ∅ ∅) (fz_db (run_freeze_ops empty_db_store demo_ops))) _
    (mkFrozenEntry mallory "incident" "ops" 5000000000)); reflexivity.
Defined.

Lemma freeze_holds_witness :
  Frozen (Some (run_freeze_ops (fz_Add true false empty_db_store mallory "x" "ops" 1).2
                  [OpRemove true true (mkFreezeSubject FreezeEndUser "eve")])) "mallory" "eve"
  = Some mallory.
Proof.
  apply (freeze_holds true false empty_db_store "mallory" "x" "ops" 1 true
           (Some ErrFreezeNotDurable)); [reflexivity|by right|repeat constructor].
Defined.

Lemma freeze_survives_power_loss_witness :
  mallory ∈ enforced (default NewFreezeStore
    (match NewFreezeStoreDB true (mkFreezeDB {[mallory := mkFreezeRow "x" "ops" 0]}
                                             {[mallory := mkFreezeRow "x" "ops" 0]}) with
     | Ok s => Some s | Err _ => None end)).
Proof.
  apply (freeze_survives_power_loss true true empty_db_store mallory "x" "ops" 1 true
           (fz_Add true true empty_db_store mallory "x" "ops" 1).2
           [OpAdd false true (mkFreezeSubject FreezeSerial "1") "" "" 2]
           (mkFreezeDB {[mallory := mkFreezeRow "x" "ops" 0]}
                       {[mallory := mkFreezeRow "x" "ops" 0]}));
    [reflexivity|repeat constructor|reflexivity|reflexivity].
Defined.
