(* ===== verification/Grants.v ===== *)
(** * Runtime grants

    [internal/signer/grants.go]: time-boxed allow patterns and approval waivers,
    kept in memory and mirrored in the state database. The decision path reads
    only the memory; the database decides what survives a restart. *)

From S2P Require Import Prelude GoStrings CmdPolicy PolicySet K8sAction Intent Freeze.

Record Grant := mkGrant {
  g_ID : string;
  g_Host : string;
  g_Allow : list string;
  g_WaiveApproval : list string;
  g_Caller : string;
  g_EndUser : string;
  g_Sudo : bool;
  g_SudoUser : string;
  g_Approver : string;
  g_ApprovalID : string;
  g_GrantedAt : time;
  g_ExpiresAt : time;
  g_waiverRE : list (string → bool);
}.

(** A row of table [grants]; times are unix seconds and the pattern lists are
    JSON texts. *)
Record grant_row := mkGrantRow {
  gr_host : string;
  gr_allow : string;
  gr_waive_approval : string;
  gr_caller : string;
  gr_end_user : string;
  gr_sudo : Z;
  gr_sudo_user : string;
  gr_approver : string;
  gr_approval_id : string;
  gr_granted_at : Z;
  gr_expires_at : Z;
}.

(** [json.Marshal] and [json.Unmarshal] on string arrays. *)
Class JSONStrings : Type := {
  json_marshal_strings : list string → string;
  json_unmarshal_strings : string → option (list string);
}.

(** The store: the map the decisions read and, when a state db is configured,
    its [grants] table keyed by the primary key. *)
Record GrantStore := mkGrantStore {
  gs_grants : gmap string Grant;
  gs_db : option (gmap string grant_row);
}.

Inductive grant_error :=
| EGrantEmpty
| EGrantBadAllow (pat : string)
| EGrantBadWaiver (pat : string)
| EGrantPersist
| EGrantRevokeDB
| EGrantLoad.

Definition g_active (g : Grant) (now : time) : bool := now <? g_ExpiresAt g.

Definition g_matches (g : Grant) (host : string) (i : Intent) : bool :=
  bool_decide (g_Host g = host)
  && (bool_decide (g_Caller g = "") || bool_decide (g_Caller g = in_Caller i))
  && (bool_decide (g_EndUser g = "") || bool_decide (g_EndUser g = in_EndUser i)).

Definition canonicalGrantSudoUser (sudo : bool) (user : string) : string :=
  if negb sudo then "" else if bool_decide (user = "") then "root" else user.

Definition waiverApplies (g : Grant) (host : string) (i : Intent) : bool :=
  if negb (g_matches g host i) || negb (Bool.eqb (g_Sudo g) (in_Sudo i))
     || bool_decide (canonicalGrantSudoUser (g_Sudo g) (g_SudoUser g)
                     ≠ canonicalGrantSudoUser (in_Sudo i) (in_SudoUser i))
  then false
  else existsb (fun re => re (in_Command i)) (g_waiverRE g).

Definition NewGrantStore : GrantStore := mkGrantStore ∅ None.

Definition set_SudoUser (u : string) (g : Grant) : Grant :=
  mkGrant (g_ID g) (g_Host g) (g_Allow g) (g_WaiveApproval g) (g_Caller g) (g_EndUser g) (g_Sudo g)
    u (g_Approver g) (g_ApprovalID g) (g_GrantedAt g) (g_ExpiresAt g) (g_waiverRE g).
Definition set_ID (id : string) (g : Grant) : Grant :=
  mkGrant id (g_Host g) (g_Allow g) (g_WaiveApproval g) (g_Caller g) (g_EndUser g) (g_Sudo g)
    (g_SudoUser g) (g_Approver g) (g_ApprovalID g) (g_GrantedAt g) (g_ExpiresAt g) (g_waiverRE g).
Definition set_waiverRE (res : list (string → bool)) (g : Grant) : Grant :=
  mkGrant (g_ID g) (g_Host g) (g_Allow g) (g_WaiveApproval g) (g_Caller g) (g_EndUser g) (g_Sudo g)
    (g_SudoUser g) (g_Approver g) (g_ApprovalID g) (g_GrantedAt g) (g_ExpiresAt g) res.

Definition boolToInt (b : bool) : Z := if b then 1 else 0.

Section operations.
Context `{RE : RegexpEngine} `{JS : JSONStrings}.

Definition compileWaiver (p : string) : result grant_error (string → bool) :=
  match regexp_Compile p with None => Err (EGrantBadWaiver p) | Some m => Ok m end.

Definition compileWaivers (g : Grant) : result grant_error Grant :=
  let! res := map_each compileWaiver (g_WaiveApproval g) in Ok (set_waiverRE res g).

Definition row_of (g : Grant) : grant_row :=
  mkGrantRow (g_Host g) (json_marshal_strings (g_Allow g))
    (json_marshal_strings (g_WaiveApproval g)) (g_Caller g) (g_EndUser g) (boolToInt (g_Sudo g))
    (g_SudoUser g) (g_Approver g) (g_ApprovalID g) (Unix (g_GrantedAt g)) (Unix (g_ExpiresAt g)).

(** [insertDB]: the [INSERT] fails when the driver reports an error ([dbok]
    false) or the primary key is taken; a failed statement changes nothing. *)
Definition insertDB (dbok : bool) (tbl : gmap string grant_row) (g : Grant) :
    option (gmap string grant_row) :=
  if dbok then match tbl !! g_ID g with
               | Some _ => None
               | None => Some (<[g_ID g := row_of g]> tbl)
               end
  else None.

(** [Add]; [id] is the identifier [newGrantID] draws. *)
Definition validateAllow (p : string) : result grant_error unit :=
  match regexp_Compile p with None => Err (EGrantBadAllow p) | Some _ => Ok () end.

Definition gs_Add (id : string) (dbok : bool) (s : GrantStore) (g : Grant) :
    result grant_error string * GrantStore :=
  if bool_decide (g_Allow g = []) && bool_decide (g_WaiveApproval g = []) then (Err EGrantEmpty, s)
  else
    let g := set_SudoUser (canonicalGrantSudoUser (g_Sudo g) (g_SudoUser g)) g in
    match for_each validateAllow (g_Allow g) with
    | Err e => (Err e, s)
    | Ok _ =>
      match compileWaivers g with
      | Err e => (Err e, s)
      | Ok g =>
        let g := set_ID id g in
        match gs_db s with
        | None => (Ok id, mkGrantStore (<[id := g]> (gs_grants s)) None)
        | Some tbl =>
          match insertDB dbok tbl g with
          | None => (Err EGrantPersist, s)
          | Some tbl' => (Ok id, mkGrantStore (<[id := g]> (gs_grants s)) (Some tbl'))
          end
        end
      end
    end.

(** [NewGrantStoreDB]: a row that does not decode or compile is dropped; rows
    already expired are not selected. *)
Definition load_row (id : string) (r : grant_row) : option Grant :=
  allow ← json_unmarshal_strings (gr_allow r);
  waive ← json_unmarshal_strings (gr_waive_approval r);
  let g := mkGrant id (gr_host r) allow waive (gr_caller r) (gr_end_user r)
             (bool_decide (gr_sudo r ≠ 0)) (gr_sudo_user r) (gr_approver r) (gr_approval_id r)
             (time_of_unix (gr_granted_at r)) (time_of_unix (gr_expires_at r)) [] in
  match compileWaivers g with Ok g => Some g | Err _ => None end.

Definition NewGrantStoreDB (tbl : gmap string grant_row) (now : time) : GrantStore :=
  mkGrantStore
    (map_imap (fun id r => if Unix now <? gr_expires_at r then load_row id r else None) tbl)
    (Some tbl).

(** Best-effort deletes: [delok id] says whether the statement succeeded. *)
Definition same_waiver (g ex : Grant) : bool :=
  bool_decide (g_Host ex = g_Host g) && bool_decide (g_Caller ex = g_Caller g)
  && bool_decide (g_EndUser ex = g_EndUser g) && Bool.eqb (g_Sudo ex) (g_Sudo g)
  && bool_decide (canonicalGrantSudoUser (g_Sudo ex) (g_SudoUser ex)
                  = canonicalGrantSudoUser (g_Sudo g) (g_SudoUser g))
  && bool_decide (g_WaiveApproval ex = g_WaiveApproval g) && bool_decide (g_Allow ex = []).

Definition SupersedeWaiver (delok : string → bool) (s : GrantStore) (g : Grant) : nat * GrantStore :=
  let doomed := filter (fun kv => Is_true (same_waiver g kv.2)) (gs_grants s) in
  (size doomed,
   mkGrantStore (filter (fun kv => ¬ Is_true (same_waiver g kv.2)) (gs_grants s))
     (filter (fun kv => ¬ (kv.1 ∈ dom doomed ∧ Is_true (delok kv.1))) <$> gs_db s)).

Definition Purge (delok : bool) (now : time) (s : GrantStore) : nat * GrantStore :=
  let dead := filter (fun kv => ¬ Is_true (g_active kv.2 now)) (gs_grants s) in
  (size dead,
   mkGrantStore (filter (fun kv => Is_true (g_active kv.2 now)) (gs_grants s))
     (if delok then filter (fun kv => ¬ gr_expires_at kv.2 ≤ Unix now) <$> gs_db s else gs_db s)).

Definition gs_Revoke (dbok : bool) (s : GrantStore) (id : string) :
    result grant_error bool * GrantStore :=
  match gs_grants s !! id with
  | None => (Ok false, s)
  | Some _ =>
      match gs_db s with
      | None => (Ok true, mkGrantStore (delete id (gs_grants s)) None)
      | Some tbl =>
          if dbok then (Ok true, mkGrantStore (delete id (gs_grants s)) (Some (delete id tbl)))
          else (Err EGrantRevokeDB, s)
      end
  end.

Definition scoped_to (kind value : string) (g : Grant) : bool :=
  (bool_decide (kind = FreezeCaller) && bool_decide (g_Caller g = value))
  || (bool_decide (kind = FreezeEndUser) && bool_decide (g_EndUser g = value)).

(** [txok]: begin, every delete and commit succeeded; otherwise the transaction
    left the table as it was. *)
Definition RevokeForSubject (txok : bool) (s : GrantStore) (kind value : string) :
    result grant_error nat * GrantStore :=
  if bool_decide (value = "")
     || (bool_decide (kind ≠ FreezeCaller) && bool_decide (kind ≠ FreezeEndUser))
  then (Ok 0%nat, s)
  else
    let doomed := filter (fun kv => Is_true (scoped_to kind value kv.2)) (gs_grants s) in
    let kept := filter (fun kv => ¬ Is_true (scoped_to kind value kv.2)) (gs_grants s) in
    if bool_decide (doomed = ∅) then (Ok 0%nat, s)
    else match gs_db s with
    | None => (Ok (size doomed), mkGrantStore kept None)
    | Some tbl =>
        if txok then
          (Ok (size doomed),
           mkGrantStore kept (Some (filter (fun kv => kv.1 ∉ dom doomed) tbl)))
        else (Err EGrantRevokeDB, s)
    end.

Definition gs_List (iter : range_order Grant) (now : time) (s : GrantStore) :
    list Grant * GrantStore :=
  let live := filter (fun kv => Is_true (g_active kv.2 now)) (gs_grants s) in
  (map snd (iter live), mkGrantStore live (gs_db s)).

Definition grant_policy (g : Grant) : CommandPolicy :=
  mkCommandPolicy CmdPolicyAllowlist "" (g_Allow g) [] [] None.

Definition GrantsFor (iter : range_order Grant) (s : GrantStore) (host : string) (i : Intent)
    (now : time) : PolicySet :=
  omap (fun kv => if g_active kv.2 now && g_matches kv.2 host i && bool_decide (g_Allow kv.2 ≠ [])
                  then Some (grant_policy kv.2) else None) (iter (gs_grants s)).

Definition WaiverMatches (s : GrantStore) (host : string) (i : Intent) (now : time) : bool :=
  existsb (fun kv => g_active kv.2 now && waiverApplies kv.2 host i) (map_to_list (gs_grants s)).
End operations.

(** ** The store as a transition system *)

Inductive grant_op :=
| GAdd (id : string) (dbok : bool) (g : Grant)
| GSupersede (delok : string → bool) (g : Grant)
| GPurge (delok : bool) (now : time)
| GRevoke (dbok : bool) (id : string)
| GRevokeForSubject (txok : bool) (kind value : string)
| GList (now : time).

Section transitions.
Context `{RE : RegexpEngine} `{JS : JSONStrings}.

Definition run_grant_op (s : GrantStore) (op : grant_op) : GrantStore :=
  match op with
  | GAdd id dbok g => (gs_Add id dbok s g).2
  | GSupersede delok g => (SupersedeWaiver delok s g).2
  | GPurge delok now => (Purge delok now s).2
  | GRevoke dbok id => (gs_Revoke dbok s id).2
  | GRevokeForSubject txok kind value => (RevokeForSubject txok s kind value).2
  | GList now => (gs_List map_to_list now s).2
  end.

Definition run_grant_ops (s : GrantStore) (ops : list grant_op) : GrantStore :=
  foldl run_grant_op s ops.

(** ** Well-formed stores *)

(** A stored grant carries its own id, its compiled waivers are those of its
    patterns, and its allow patterns compile. *)
Definition grant_wf (id : string) (g : Grant) : Prop :=
  g_ID g = id ∧ map_each compileWaiver (g_WaiveApproval g) = Ok (g_waiverRE g) ∧
  Forall (fun p => is_Some (regexp_Compile p)) (g_Allow g).
Definition store_wf (s : GrantStore) : Prop := map_Forall grant_wf (gs_grants s).

(** The shape of the result of [Add]. *)
Lemma gs_Add_cases id dbok s g :
  (∃ e, gs_Add id dbok s g = (Err e, s)) ∨
  ∃ g' db', gs_Add id dbok s g = (Ok id, mkGrantStore (<[id := g']> (gs_grants s)) db') ∧
    grant_wf id g' ∧
    match gs_db s with
    | None => db' = None
    | Some tbl => tbl !! id = None ∧ db' = Some (<[id := row_of g']> tbl)
    end.
Proof.
  unfold gs_Add. destruct (_ && _); [eauto|].
  destruct (for_each validateAllow _) as [[]|] eqn:Hal; [|eauto].
  unfold compileWaivers. destruct (map_each compileWaiver _) as [res|] eqn:Hw; simpl; [|eauto].
  set (g' := set_ID id _).
  assert (Hwf : grant_wf id g').
  { split_and!; [done|done|]. simpl. apply for_each_Ok in Hal. simpl in Hal.
    eapply Forall_impl; [exact Hal|]. intros p. unfold validateAllow.
    destruct (regexp_Compile p); [eauto|done]. }
  destruct (gs_db s) as [tbl|]; [|eauto 10].
  unfold insertDB. destruct dbok; [|eauto]. simpl. destruct (tbl !! id) eqn:Ht; [eauto|].
  right. by exists g', (Some (<[id:=row_of g']> tbl)).
Qed.

(** Every operation other than [Add] only removes grants from memory. *)
Lemma run_grant_op_shrinks s op :
  (∀ id d g, op ≠ GAdd id d g) → gs_grants (run_grant_op s op) ⊆ gs_grants s.
Proof.
  destruct op as [id d g|delok g|delok now|d id|tx kind value|now]; simpl; intros H.
  - naive_solver.
  - apply map_filter_subseteq.
  - apply map_filter_subseteq.
  - unfold gs_Revoke. destruct (_ !! id); [|done]. destruct (gs_db s); [destruct d|];
      (apply delete_subseteq || done).
  - unfold RevokeForSubject. destruct (_ || _); [done|]. case_bool_decide; [done|].
    destruct (gs_db s); [destruct tx; [|done]|]; apply map_filter_subseteq.
  - apply map_filter_subseteq.
Qed.

Lemma map_Forall_sub {A} (P : string → A → Prop) (m1 m2 : gmap string A) :
  m1 ⊆ m2 → map_Forall P m2 → map_Forall P m1.
Proof. intros Hsub Hm k x Hk. apply Hm. by eapply lookup_weaken. Qed.

Lemma is_add_dec op : (∃ id d g, op = GAdd id d g) ∨ (∀ id d g, op ≠ GAdd id d g).
Proof. destruct op; naive_solver. Qed.

Lemma run_grant_op_wf s op : store_wf s → store_wf (run_grant_op s op).
Proof.
  intros Hs. destruct (is_add_dec op) as [(id & d & g & ->)|Hn].
  - simpl. destruct (gs_Add_cases id d s g) as [[e ->]|(g' & db' & -> & Hg & _)]; simpl; [done|].
    by apply map_Forall_insert_2.
  - eapply map_Forall_sub; [by apply run_grant_op_shrinks|done].
Qed.

Lemma run_grant_ops_wf s ops : store_wf s → store_wf (run_grant_ops s ops).
Proof. revert s; induction ops; simpl; intros; [done|]. by apply IHops, run_grant_op_wf. Qed.

(** ** Restarts *)

(** Every row that would still load at time [T] belongs to a grant in memory. *)
Definition covered (T : time) (s : GrantStore) : Prop :=
  ∀ tbl id r, gs_db s = Some tbl → tbl !! id = Some r → Unix T < gr_expires_at r →
    ∃ g, gs_grants s !! id = Some g ∧ r = row_of g.

(** No operation looks beyond [T], and no best-effort delete of a superseded
    waiver was lost. *)
Definition op_ok (T : time) (op : grant_op) : Prop :=
  match op with
  | GSupersede delok _ => ∀ id, delok id = true
  | GPurge _ now | GList now => now ≤ T
  | _ => True
  end.

(** A table that only lost rows, and a memory that only lost grants whose rows
    were deleted or no longer load, stay covered. *)
Lemma covered_shrink T s m db' :
  covered T s →
  (∀ tbl', db' = Some tbl' → ∃ tbl, gs_db s = Some tbl ∧ tbl' ⊆ tbl) →
  (∀ tbl' id g, db' = Some tbl' → gs_grants s !! id = Some g → is_Some (tbl' !! id) →
     Unix T < Unix (g_ExpiresAt g) → m !! id = Some g) →
  covered T (mkGrantStore m db').
Proof.
  intros Hc Hdb Hm tbl' id r Htbl Hr Hlive. simpl in *.
  destruct (Hdb _ Htbl) as (tbl & Hs & Hsub).
  destruct (Hc tbl id r Hs) as (g & Hg & ->); [by eapply lookup_weaken|done|].
  exists g. split; [|done]. simpl in Hlive. eapply Hm; eauto.
Qed.

Lemma inactive_not_live T now g : now ≤ T → ¬ Is_true (g_active g now) → ¬ Unix T < Unix (g_ExpiresAt g).
Proof.
  unfold g_active. rewrite Is_true_true, Z.ltb_lt. intros HT Hn Hlt.
  pose proof (Unix_mono (g_ExpiresAt g) T). lia.
Qed.

Lemma covered_step T s op : op_ok T op → covered T s → covered T (run_grant_op s op).
Proof.
  intros Hok Hc. destruct op as [id d g|delok g|delok now|d id|tx kind value|now]; simpl in *.
  - destruct (gs_Add_cases id d s g) as [[e ->]|(g' & db' & -> & _ & Hdb)]; simpl; [done|].
    intros tbl' k r Hd' Hr Hlive. simpl in *. subst db'. destruct (gs_db s) as [tbl|] eqn:Hs; [|done].
    destruct Hdb as [Hnone [= ->]]. destruct (decide (id = k)) as [->|Hne].
    + simplify_map_eq. eauto.
    + rewrite lookup_insert_ne in Hr by done. destruct (Hc tbl k r Hs Hr Hlive) as (h & Hh & ->).
      exists h. by rewrite lookup_insert_ne.
  - apply (covered_shrink T s); [done| |].
    + intros tbl' Hdb. destruct (gs_db s) as [tbl|]; simplify_eq/=. eexists. split; [done|].
      apply map_filter_subseteq.
    + intros tbl' k h Hdb Hk [r Hr] _. destruct (gs_db s) as [tbl|]; simplify_eq/=.
      apply map_lookup_filter_Some in Hr as [_ Hr]. apply map_lookup_filter_Some. split; [done|].
      simpl in *. intros Hw. apply Hr. split; [|by rewrite Hok].
      apply elem_of_dom. exists h. by apply map_lookup_filter_Some.
  - apply (covered_shrink T s); [done| |].
    + intros tbl' Hdb. destruct delok; [|by eexists].
      destruct (gs_db s) as [tbl|]; simplify_eq/=. eexists. split; [done|]. apply map_filter_subseteq.
    + intros tbl' k h _ Hk _ Hl. apply map_lookup_filter_Some. split; [done|]. simpl.
      destruct (g_active h now) eqn:Ha; [done|]. exfalso.
      eapply inactive_not_live; [exact Hok| |exact Hl]. rewrite Ha. intros [].
  - unfold gs_Revoke. destruct (_ !! id) as [h|] eqn:Hid; [|done].
    destruct (gs_db s) as [tbl|] eqn:Hs; [destruct d|]; simpl; [|done|by intros ? ? ? ?].
    apply (covered_shrink T s); [done| |].
    + intros tbl' [= <-]. rewrite Hs. eexists. split; [done|]. apply delete_subseteq.
    + intros tbl' k h' [= <-] Hk [r Hr] _. destruct (decide (id = k)) as [->|]; by simplify_map_eq.
  - unfold RevokeForSubject. destruct (_ || _); [done|]. case_bool_decide; [done|].
    destruct (gs_db s) as [tbl|] eqn:Hs; [destruct tx|]; simpl; [|done|by intros ? ? ? ?].
    apply (covered_shrink T s); [done| |].
    + intros tbl' [= <-]. rewrite Hs. eexists. split; [done|]. apply map_filter_subseteq.
    + intros tbl' k h' [= <-] Hk [r Hr] _. apply map_lookup_filter_Some in Hr as [_ Hr].
      apply map_lookup_filter_Some. split; [done|]. simpl in *. intros Hsc. apply Hr.
      apply elem_of_dom. exists h'. by apply map_lookup_filter_Some.
  - apply (covered_shrink T s); [done|by eexists|].
    intros tbl' k h _ Hk _ Hl. apply map_lookup_filter_Some. split; [done|]. simpl.
    destruct (g_active h now) eqn:Ha; [done|]. exfalso.
    eapply inactive_not_live; [exact Hok| |exact Hl]. rewrite Ha. intros [].
Qed.

Definition empty_store : GrantStore := mkGrantStore ∅ (Some ∅).

Lemma covered_run T ops : Forall (op_ok T) ops → covered T (run_grant_ops empty_store ops).
Proof.
  assert (H0 : covered T empty_store) by (intros tbl id r [= <-] Hr; by simplify_map_eq).
  revert H0. generalize empty_store. intros s H0 Hops. revert s H0.
  induction Hops as [|op ops Hop _ IH]; intros s H0; simpl; [done|]. by apply IH, covered_step.
Qed.

(** The restored grant is a faithful, possibly shorter-lived copy. *)
Definition restores (g' g : Grant) : Prop :=
  g_Host g' = g_Host g ∧ g_Caller g' = g_Caller g ∧ g_EndUser g' = g_EndUser g ∧
  g_Sudo g' = g_Sudo g ∧ g_SudoUser g' = g_SudoUser g ∧
  g_ExpiresAt g' ≤ g_ExpiresAt g ∧
  json_unmarshal_strings (json_marshal_strings (g_Allow g)) = Some (g_Allow g') ∧
  json_unmarshal_strings (json_marshal_strings (g_WaiveApproval g)) = Some (g_WaiveApproval g').

Lemma load_row_restores id g g' : load_row id (row_of g) = Some g' → restores g' g.
Proof.
  unfold load_row. intros (al & Hal & (wa & Hwa & H)%bind_Some)%bind_Some.
  unfold compileWaivers in H. simpl in H. destruct (map_each _ _); simpl in H; [|done].
  injection H as <-. unfold restores; simpl. split_and!; try done.
  - destruct (g_Sudo g); reflexivity.
  - apply time_of_unix_Unix_le.
Qed.

(** [C33] A restart never widens policy: after any sequence of grant operations,
    with any of the inserts, revocations and expiry sweeps failing, every grant
    a reload at time [T] brings back is live at [T], was in memory before the
    restart with the same host, scope, elevation and patterns, and expires no
    later. The one exception is stated: a lost delete of a superseded waiver. *)
Theorem restart_never_widens T ops tbl id g' :
  Forall (op_ok T) ops →
  gs_db (run_grant_ops empty_store ops) = Some tbl →
  gs_grants (NewGrantStoreDB tbl T) !! id = Some g' →
  g_active g' T = true ∧
  ∃ g, gs_grants (run_grant_ops empty_store ops) !! id = Some g ∧ restores g' g.
Proof.
  intros Hops Hdb Hg'. simpl in Hg'. rewrite map_lookup_imap in Hg'.
  apply bind_Some in Hg' as (r & Hr & Hl). destruct (Unix T <? gr_expires_at r) eqn:Hlive; [|done].
  unbool. destruct (covered_run T ops Hops tbl id r Hdb Hr Hlive) as (g & Hg & ->).
  split; [|eauto using load_row_restores].
  unfold g_active. apply Z.ltb_lt. simpl in Hlive.
  revert Hl. unfold load_row. intros (? & _ & (? & _ & H)%bind_Some)%bind_Some.
  unfold compileWaivers in H. simpl in H. destruct (map_each _ _); simpl in H; [|done].
  injection H as <-. simpl.
  by apply Unix_lt_time.
Qed.

(** ** Revocation *)

Definition adds_id (id : string) (op : grant_op) : bool :=
  match op with GAdd id' _ _ => bool_decide (id' = id) | _ => false end.

Definition gone (id : string) (s : GrantStore) : Prop :=
  gs_grants s !! id = None ∧ ∀ tbl, gs_db s = Some tbl → tbl !! id = None.

Lemma gone_step id s op : adds_id id op = false → gone id s → gone id (run_grant_op s op).
Proof.
  intros Ha [Hm Hdb]. destruct (is_add_dec op) as [(k & d & g & ->)|Hn].
  - simpl in *. unbool. destruct (gs_Add_cases k d s g) as [[e ->]|(g' & db' & -> & _ & Hd)]; [done|].
    split; simpl; [by rewrite lookup_insert_ne|]. intros tbl' Hd'. subst db'.
    destruct (gs_db s) as [tbl|]; [|done]. destruct Hd as [_ [= ->]].
    rewrite lookup_insert_ne by done. auto.
  - split.
    { pose proof (run_grant_op_shrinks s op Hn) as Hsub.
      destruct (gs_grants (run_grant_op s op) !! id) eqn:Hl; [|done].
      rewrite (lookup_weaken _ _ _ _ Hl Hsub) in Hm. done. }
    intros tbl' Htbl'. destruct op as [k d g|delok g|delok now|d k|tx kind value|now]; simpl in *.
    + naive_solver.
    + destruct (gs_db s) as [tbl|]; simplify_eq/=. apply map_lookup_filter_None. left. auto.
    + destruct delok; [|auto]. destruct (gs_db s) as [tbl|]; simplify_eq/=.
      apply map_lookup_filter_None. left. auto.
    + unfold gs_Revoke in Htbl'. destruct (_ !! k); [|auto].
      destruct (gs_db s) as [tbl|] eqn:Hs; [destruct d|]; simplify_eq/=; [|naive_solver].
      apply lookup_delete_None. right. auto.
    + unfold RevokeForSubject in Htbl'. destruct (_ || _); [auto|]. case_bool_decide; [auto|].
      destruct (gs_db s) as [tbl|] eqn:Hs; [destruct tx|]; simplify_eq/=; [|naive_solver].
      apply map_lookup_filter_None. left. auto.
    + auto.
Qed.

(** A revoked grant stays revoked: once [Revoke] reports success, no later
    operation and no restart brings the grant back, whatever other operations
    run or fail, as long as its id is not drawn again. *)
Theorem revoked_stays_revoked s dbok id s' ops :
  gs_Revoke dbok s id = (Ok true, s') →
  Forall (fun op => adds_id id op = false) ops →
  gs_grants (run_grant_ops s' ops) !! id = None ∧
  ∀ tbl now, gs_db (run_grant_ops s' ops) = Some tbl →
    gs_grants (NewGrantStoreDB tbl now) !! id = None.
Proof.
  intros Hrev Hops. assert (Hg : gone id (run_grant_ops s' ops)).
  { assert (H0 : gone id s').
    { unfold gs_Revoke in Hrev. destruct (_ !! id); [|done].
      destruct (gs_db s) as [tbl|]; [destruct dbok|]; simplify_eq; split; simpl;
        try apply lookup_delete_eq; [intros ? [= <-]; apply lookup_delete_eq|done]. }
    clear Hrev. revert s' H0. induction Hops as [|op ops Hop _ IH]; intros s' H0; simpl; [done|].
    by apply IH, gone_step. }
  destruct Hg as [Hm Hdb]. split; [done|]. intros tbl now Htbl. simpl.
  by rewrite map_lookup_imap, (Hdb _ Htbl).
Qed.

Lemma RevokeForSubject_kept tx s kind value n s' id g :
  RevokeForSubject tx s kind value = (Ok n, s') →
  value ≠ "" → kind = FreezeCaller ∨ kind = FreezeEndUser →
  gs_grants s' !! id = Some g → scoped_to kind value g = false.
Proof.
  unfold RevokeForSubject. intros Hr Hv Hk Hg.
  rewrite (bool_decide_eq_false_2 (value = "")) in Hr by done. simpl in Hr.
  destruct (bool_decide (kind ≠ FreezeCaller) && _) eqn:Hb.
  { unbool. naive_solver. }
  destruct (scoped_to kind value g) eqn:Hs; [|done]. exfalso.
  case_bool_decide as Hempty.
  - simplify_eq. eapply map_filter_empty_not_lookup in Hempty; [by apply Hempty|].
    simpl. by rewrite Hs.
  - assert (gs_grants s' = filter (fun kv => ¬ Is_true (scoped_to kind value kv.2)) (gs_grants s)) as Hm.
    { destruct (gs_db s) as [tbl|]; [destruct tx|]; by simplify_eq. }
    rewrite Hm in Hg. apply map_lookup_filter_Some in Hg as [_ Hg]. simpl in Hg. by rewrite Hs in Hg.
Qed.

(** Freezing a caller or an end user strips its runtime widenings for
    good: when [RevokeForSubject] succeeds no grant scoped to the subject is
    left in memory, and a restart at any time up to the horizon restores none
    either. *)
Theorem subject_grants_stripped T ops tx kind value n s' :
  Forall (op_ok T) ops →
  value ≠ "" → kind = FreezeCaller ∨ kind = FreezeEndUser →
  RevokeForSubject tx (run_grant_ops empty_store ops) kind value = (Ok n, s') →
  (∀ id g, gs_grants s' !! id = Some g → scoped_to kind value g = false) ∧
  (∀ tbl id g', gs_db s' = Some tbl → gs_grants (NewGrantStoreDB tbl T) !! id = Some g' →
     scoped_to kind value g' = false).
Proof.
  intros Hops Hv Hk Hr. split; [intros id g; by eapply RevokeForSubject_kept|].
  intros tbl id g' Htbl Hg'.
  assert (Hrun : run_grant_ops empty_store (ops ++ [GRevokeForSubject tx kind value]) = s').
  { unfold run_grant_ops. rewrite foldl_app. fold (run_grant_ops empty_store ops). simpl. by rewrite Hr. }
  assert (Hops' : Forall (op_ok T) (ops ++ [GRevokeForSubject tx kind value])).
  { apply Forall_app_2; [done|]. by repeat constructor. }
  rewrite <-Hrun in Htbl. pose proof (covered_run T _ Hops') as Hc.
  simpl in Hg'. rewrite map_lookup_imap in Hg'. apply bind_Some in Hg' as (r & Hrow & Hl).
  destruct (Unix T <? gr_expires_at r) eqn:Hlive; [|done]. unbool.
  destruct (Hc tbl id r Htbl Hrow Hlive) as (g & Hg & ->). rewrite Hrun in Hg.
  apply load_row_restores in Hl as (_ & Hcaller & Huser & _).
  eapply RevokeForSubject_kept in Hg; [|done..]. unfold scoped_to in *. by rewrite Hcaller, Huser.
Qed.

(** ** Decisions *)

Lemma compileWaiver_matches pats res command :
  map_each compileWaiver pats = Ok res →
  existsb (fun re => re command) res = some_match pats command.
Proof.
  rewrite map_each_Ok. induction 1 as [|p re pats res Hp _ IH]; simpl; [done|].
  rewrite IH. f_equal. unfold compileWaiver, pat_matches in *. by destruct (regexp_Compile p); simplify_eq.
Qed.

(** A waiver only un-gates what was approved: in every reachable store, if
    approval is waived for an intent then some unexpired grant names that host,
    is not scoped to another caller or end user, was minted for the same
    elevation (sudo or not, same target user) and has a pattern matching the
    command. *)
Theorem waiver_binds ops host i now :
  WaiverMatches (run_grant_ops empty_store ops) host i now = true →
  ∃ id g, gs_grants (run_grant_ops empty_store ops) !! id = Some g ∧
    now < g_ExpiresAt g ∧ g_Host g = host ∧
    (g_Caller g = "" ∨ g_Caller g = in_Caller i) ∧ (g_EndUser g = "" ∨ g_EndUser g = in_EndUser i) ∧
    g_Sudo g = in_Sudo i ∧
    canonicalGrantSudoUser (g_Sudo g) (g_SudoUser g)
      = canonicalGrantSudoUser (in_Sudo i) (in_SudoUser i) ∧
    some_match (g_WaiveApproval g) (in_Command i) = true.
Proof.
  intros H. unfold WaiverMatches in H. apply existsb_exists in H as ([id g] & Hin & H). simpl in H.
  apply list_elem_of_In, elem_of_map_to_list in Hin. apply andb_true_iff in H as [Hact H].
  assert (Hwf : store_wf (run_grant_ops empty_store ops)) by (by apply run_grant_ops_wf).
  destruct (Hwf _ _ Hin) as (_ & Hre & _).
  unfold waiverApplies in H. destruct (_ || _) eqn:Hb in H; [done|].
  rewrite (compileWaiver_matches _ _ _ Hre) in H.
  apply orb_false_iff in Hb as [Hb Hu]. apply orb_false_iff in Hb as [Hm Hs].
  rewrite negb_false_iff in Hm, Hs. apply eqb_prop in Hs. apply bool_decide_eq_false_1 in Hu.
  unfold g_matches in Hm. rewrite !andb_true_iff, !orb_true_iff, !bool_decide_eq_true in Hm.
  destruct Hm as [[Hh Hc] He]. unfold g_active in Hact. apply Z.ltb_lt in Hact.
  exists id, g. split_and!; try done. by apply dec_stable.
Qed.

(** A grant contributes allow patterns only, and every policy a reachable store
    contributes validates. *)
Lemma GrantsFor_allow_only iter s host i now : Forall allow_only (GrantsFor iter s host i now).
Proof.
  apply Forall_forall. intros p Hp. unfold GrantsFor in Hp. apply list_elem_of_omap in Hp as (kv & _ & Hp).
  destruct (_ && _); by simplify_eq.
Qed.

Lemma GrantsFor_patterns_ok iter `{!RangeOrder iter} s host i now :
  store_wf s → patterns_ok (GrantsFor iter s host i now).
Proof.
  intros Hs. apply Forall_forall. intros p Hp. unfold GrantsFor in Hp.
  apply list_elem_of_omap in Hp as ([id g] & Hin & Hp). destruct (_ && _); simplify_eq/=.
  apply range_elem in Hin; [|done]. rewrite !app_nil_r. by destruct (Hs _ _ Hin) as (_ & _ & ?).
Qed.

(** An expiry sweep is invisible to the decisions taken from then on. *)
Lemma Purge_unobservable delok t now s host i :
  t ≤ now → WaiverMatches (Purge delok t s).2 host i now = WaiverMatches s host i now.
Proof.
  intros Ht. apply eq_bool_prop_intro. unfold WaiverMatches. rewrite !Is_true_true, !existsb_exists.
  setoid_rewrite <-list_elem_of_In. split; intros ([id g] & Hin & H); exists (id, g); (split; [|done]);
    apply elem_of_map_to_list; apply elem_of_map_to_list in Hin; simpl in *.
  - by apply map_lookup_filter_Some in Hin as [? _].
  - apply map_lookup_filter_Some. split; [done|]. simpl. apply andb_true_iff in H as [H _].
    unfold g_active in *. unbool. rewrite Is_true_true, Z.ltb_lt. lia.
Qed.
End transitions.

(** ** A concrete store *)

(** Arrays of at most one string, as a stand-in for the JSON codec. *)
Definition singleton_json : JSONStrings := {|
  json_marshal_strings l := match l with [] => "" | x :: _ => String "["%char x end;
  json_unmarshal_strings s := match s with "" => Some [] | String _ x => Some [x] end;
|}.

Definition sample_grant : Grant :=
  mkGrant "" "web1" [] ["systemctl restart"] "agent" "alice" true "" "bob" "a1" 0 (Hour) [].
Definition sample_intent : Intent :=
  mkIntent "agent" "web1" "" None RoleTarget PurposeOneshot "" "systemctl restart nginx" 0 "" true
    "root" false false false false false "" "alice" None "" "" 0 "" "".
Definition sample_ops : list grant_op :=
  [GAdd "g1" true sample_grant; GAdd "g2" false sample_grant; GAdd "g3" true sample_grant;
   GRevoke true "g3"; GPurge false Minute].
Definition sample_store : GrantStore := @run_grant_ops prefix_engine singleton_json empty_store sample_ops.
Definition sample_table : gmap string grant_row :=
  match gs_db sample_store with Some t => t | None => ∅ end.

Lemma restart_never_widens_witness :
  ∃ g', gs_grants (@NewGrantStoreDB prefix_engine singleton_json sample_table (2 * Minute)) !! "g1" = Some g' ∧
  g_active g' (2 * Minute) = true ∧
  ∃ g, gs_grants sample_store !! "g1" = Some g ∧ @restores singleton_json g' g.
Proof.
  eexists. split; [reflexivity|].
  apply (@restart_never_widens prefix_engine singleton_json (2 * Minute) sample_ops sample_table "g1");
    [by repeat constructor|reflexivity..].
Defined.

Lemma revoked_stays_revoked_witness :
  gs_grants sample_store !! "g3" = None.
Proof.
  refine (proj1 (@revoked_stays_revoked prefix_engine singleton_json
    (@run_grant_ops prefix_engine singleton_json empty_store (take 3 sample_ops)) true "g3" _
    [GPurge false Minute] _ _)); [reflexivity|repeat constructor].
Defined.

Lemma subject_grants_stripped_witness :
  (RevokeForSubject true sample_store FreezeCaller "agent").1 = Ok 1%nat ∧
  ∀ tbl id g',
    gs_db (RevokeForSubject true sample_store FreezeCaller "agent").2 = Some tbl →
    gs_grants (@NewGrantStoreDB prefix_engine singleton_json tbl (2 * Minute)) !! id = Some g' →
    scoped_to FreezeCaller "agent" g' = false.
Proof.
  split; [vm_compute; reflexivity|].
  refine (proj2 (@subject_grants_stripped prefix_engine singleton_json (2 * Minute) sample_ops true
    FreezeCaller "agent" 1%nat _ _ _ _ _)); [by repeat constructor|done|by left|reflexivity].
Defined.

Lemma waiver_binds_witness :
  ∃ id g, gs_grants sample_store !! id = Some g ∧ 2 * Minute < g_ExpiresAt g ∧ g_Host g = "web1" ∧
    (g_Caller g = "" ∨ g_Caller g = "agent") ∧ (g_EndUser g = "" ∨ g_EndUser g = "alice") ∧
    g_Sudo g = true ∧ canonicalGrantSudoUser (g_Sudo g) (g_SudoUser g) = "root" ∧
    @some_match prefix_engine (g_WaiveApproval g) "systemctl restart nginx" = true.
Proof.
  exact (@waiver_binds prefix_engine singleton_json sample_ops "web1" sample_intent (2 * Minute) eq_refl).
Defined.
