(* ===== verification/CA.v ===== *)
(** * The certificate authority primitive

    [internal/ca/sign.go]: the constraints the signer derives and the
    certificate [BuildAndSign] makes of them. The SSH key material is opaque:
    a CA key is its identifier and a signature is the record of the key that
    made it. *)

From S2P Require Import Prelude GoStrings.

Record Constraints := mkConstraints {
  c_Principal : string;
  c_TTL : duration;
  c_SourceAddress : string;
  c_ForceCommand : string;
  c_AllowPortForwarding : bool;
  c_AllowPTY : bool;
  c_KeyID : string;
}.

Definition zero_constraints : Constraints := mkConstraints "" 0 "" "" false false "".

(** The fields of [ssh.Certificate] the code sets; [cert_SignatureKey] is the
    CA that signed it. *)
Record Certificate := mkCertificate {
  cert_Key : string;
  cert_Serial : Z;
  cert_KeyId : string;
  cert_ValidPrincipals : list string;
  cert_ValidAfter : Z;
  cert_ValidBefore : Z;
  cert_CriticalOptions : gmap string string;
  cert_Extensions : gmap string string;
  cert_SignatureKey : string;
}.

Inductive ca_error :=
| EPrincipalRequired
| ETTLRange (ttl : duration)
| ESigningCancelled
| ERandomSerial
| ESignCert.

Definition MaxCertTTL : duration := 15 * Minute.

(** [uint64(x)] of an [int64]. *)
Definition uint64 (z : Z) : Z := z mod 2 ^ 64.

Definition set_if (b : bool) (k v : string) (m : gmap string string) : gmap string string :=
  if b then <[k := v]> m else m.

(** What the run time decides: whether the context was cancelled, the random
    serial (none when the source failed), the clock and whether the CA backend
    signed. *)
Record ca_env := mkCAEnv {
  ce_cancelled : bool;
  ce_serial : option Z;
  ce_now : time;
  ce_signok : bool;
}.

Definition cert_of (caKey pub : string) (serial : Z) (now : time) (c : Constraints) : Certificate :=
  mkCertificate pub serial (c_KeyID c) [c_Principal c]
    (uint64 (Unix (now - 30 * Second))) (uint64 (Unix (now + c_TTL c)))
    (set_if (bool_decide (c_ForceCommand c ≠ "")) "force-command" (c_ForceCommand c)
      (set_if (bool_decide (c_SourceAddress c ≠ "")) "source-address" (c_SourceAddress c) ∅))
    (set_if (c_AllowPTY c) "permit-pty" ""
      (set_if (c_AllowPortForwarding c) "permit-port-forwarding" "" ∅))
    caKey.

Definition BuildAndSign (env : ca_env) (caKey pub : string) (c : Constraints) :
    result ca_error (Certificate * Z) :=
  if bool_decide (c_Principal c = "") then Err EPrincipalRequired
  else if (c_TTL c <=? 0) || (MaxCertTTL <? c_TTL c) then Err (ETTLRange (c_TTL c))
  else if ce_cancelled env then Err ESigningCancelled
  else match ce_serial env with
  | None => Err ERandomSerial
  | Some serial =>
      if ce_signok env then Ok (cert_of caKey pub serial (ce_now env) c, serial) else Err ESignCert
  end.

(** How sshd reads the validity window. *)
Definition cert_valid_at (cert : Certificate) (t : time) : Prop :=
  cert_ValidAfter cert ≤ Unix t < cert_ValidBefore cert.

(** ** What a signed certificate carries *)

Lemma BuildAndSign_Ok env caKey pub c cert serial :
  BuildAndSign env caKey pub c = Ok (cert, serial) ↔
  c_Principal c ≠ "" ∧ 0 < c_TTL c ≤ MaxCertTTL ∧ ce_cancelled env = false ∧
  ce_serial env = Some serial ∧ ce_signok env = true ∧
  cert = cert_of caKey pub serial (ce_now env) c.
Proof.
  unfold BuildAndSign. case_bool_decide; [naive_solver|].
  destruct (_ || _) eqn:Ht.
  { split; [done|]. intros (_ & [? ?] & _). apply orb_true_iff in Ht as [?|?]; unbool; lia. }
  unbool. destruct (ce_cancelled env); [naive_solver|]. destruct (ce_serial env); [|naive_solver].
  destruct (ce_signok env); [|naive_solver]. split; [intros [= <- <-]|naive_solver]. naive_solver lia.
Qed.

Lemma cert_of_force_command caKey pub serial now c :
  cert_CriticalOptions (cert_of caKey pub serial now c) !! "force-command" =
  if bool_decide (c_ForceCommand c = "") then None else Some (c_ForceCommand c).
Proof.
  simpl. unfold set_if. repeat case_bool_decide; try done; by simplify_map_eq.
Qed.

Lemma cert_of_extensions caKey pub serial now c name :
  is_Some (cert_Extensions (cert_of caKey pub serial now c) !! name) ↔
  (name = "permit-pty" ∧ c_AllowPTY c = true) ∨
  (name = "permit-port-forwarding" ∧ c_AllowPortForwarding c = true).
Proof.
  simpl. unfold set_if. destruct (c_AllowPTY c), (c_AllowPortForwarding c);
    rewrite ?lookup_insert_is_Some, lookup_empty; unfold is_Some; naive_solver.
Qed.

Lemma uint64_id z : 0 ≤ z < 2 ^ 64 → uint64 z = z.
Proof. intros. by apply Z.mod_small. Qed.

(** Times between the epoch plus a minute and the end of [int64] seconds. *)
Definition sane_clock (now : time) : Prop := Minute ≤ now < 2 ^ 62 * Second.

Lemma sane_Unix now d : sane_clock now → - (30 * Second) ≤ d ≤ MaxCertTTL →
  0 ≤ Unix (now + d) < 2 ^ 64.
Proof.
  unfold sane_clock, Unix, MaxCertTTL, Minute, Second. intros [H1 H2] Hd. split.
  - apply Z.div_pos; lia.
  - apply Z.div_lt_upper_bound; lia.
Qed.

(** Every certificate is short-lived: whatever the constraints ask, a
    certificate that gets signed is accepted by sshd only from thirty seconds
    before its issuance and for less than fifteen minutes after it. *)
Theorem cert_lifetime_bounded env caKey pub c cert serial t :
  sane_clock (ce_now env) →
  BuildAndSign env caKey pub c = Ok (cert, serial) → cert_valid_at cert t →
  ce_now env - 31 * Second < t < ce_now env + MaxCertTTL.
Proof.
  intros Hc (_ & Httl & _ & _ & _ & ->)%BuildAndSign_Ok [Hlo Hhi]. simpl in *.
  rewrite uint64_id in Hlo by (apply (sane_Unix _ (-(30*Second))); unfold MaxCertTTL, Minute, Second; lia || done).
  rewrite uint64_id in Hhi by (apply sane_Unix; [done|unfold Second in *; lia]).
  unfold Unix in *. set (n := ce_now env) in *.
  pose proof (Z.div_mod t Second ltac:(done)). pose proof (Z.mod_pos_bound t Second ltac:(done)).
  pose proof (Z.div_mod (n - 30 * Second) Second ltac:(done)).
  pose proof (Z.mod_pos_bound (n - 30 * Second) Second ltac:(done)).
  pose proof (Z.div_mod (n + c_TTL c) Second ltac:(done)).
  pose proof (Z.mod_pos_bound (n + c_TTL c) Second ltac:(done)).
  unfold Second in *. lia.
Qed.

Lemma cert_lifetime_bounded_witness :
  1000 * Second - 31 * Second < 1200 * Second < 1000 * Second + MaxCertTTL.
Proof.
  apply (cert_lifetime_bounded (mkCAEnv false (Some 7) (1000 * Second) true) "ca" "k"
           (mkConstraints "host:web1" (5 * Minute) "" "id" false false "kid")
           (cert_of "ca" "k" 7 (1000 * Second) (mkConstraints "host:web1" (5 * Minute) "" "id" false false "kid"))
           7); [|reflexivity|]; vm_compute; split; congruence.
Defined.
