(* ===== verification/Encoding.v ===== *)
(** * Byte encodings of the Go standard library

    [encoding/base64] (raw URL and padded standard alphabets), [encoding/hex],
    [binary.BigEndian.PutUint64] and [strconv.FormatInt] in base 10, as the
    sealed-exec and audit code use them. Bytes are integers in [[0, 256)]. *)

From stdpp Require Import pretty.
From S2P Require Import Prelude GoStrings.

Definition byte_chr (z : Z) : ascii := ascii_of_nat (Z.to_nat z).
Definition bytes_of (s : string) : list Z := map byte_of (bytes s).
Definition string_of_bytes (l : list Z) : string := string_of_list_ascii (map byte_chr l).

Definition is_byte (z : Z) : Prop := 0 ≤ z < 256.

(** ** Integers *)

Definition FormatInt (z : Z) : string := pretty z.

(** The [n] low-order bytes of [z], most significant first. *)
Fixpoint be_bytes (n : nat) (z : Z) : list Z :=
  match n with O => [] | S k => be_bytes k (z / 256) ++ [z mod 256] end.
Definition PutUint64 (z : Z) : string := string_of_bytes (be_bytes 8 z).

(** [int64] wrap-around. *)
Definition wrap64 (z : Z) : Z := (z + 2 ^ 63) mod 2 ^ 64 - 2 ^ 63.
Definition int64 (z : Z) : Prop := - 2 ^ 63 ≤ z < 2 ^ 63.

(** ** Hexadecimal *)

Definition hex_digit (z : Z) : ascii := byte_chr (if z <? 10 then 48 + z else 87 + z).
Definition hex_EncodeToString (s : string) : string :=
  string_of_list_ascii (flat_map (fun b => [hex_digit (b / 16); hex_digit (b mod 16)]) (bytes_of s)).
Definition is_hex (c : ascii) : bool := is_digit c || in_range 97 102 c.

(** ** Base64 *)

Definition sextet_char (c62 c63 : ascii) (z : Z) : ascii :=
  if z <? 26 then byte_chr (65 + z)
  else if z <? 52 then byte_chr (71 + z)
  else if z <? 62 then byte_chr (z - 4)
  else if z =? 62 then c62 else c63.

Definition char_sextet (c62 c63 : ascii) (c : ascii) : option Z :=
  let z := byte_of c in
  if is_upper c then Some (z - 65)
  else if is_lower c then Some (z - 71)
  else if is_digit c then Some (z + 4)
  else if ascii_eqb c c62 then Some 62
  else if ascii_eqb c c63 then Some 63
  else None.

Fixpoint sextets (l : list Z) : list Z :=
  match l with
  | x :: y :: z :: l' =>
      x / 4 :: x mod 4 * 16 + y / 16 :: y mod 16 * 4 + z / 64 :: z mod 64 :: sextets l'
  | [x; y] => [x / 4; x mod 4 * 16 + y / 16; y mod 16 * 4]
  | [x] => [x / 4; x mod 4 * 16]
  | [] => []
  end.

(** The trailing bits of an incomplete group are ignored; one lone sextet is an
    error. *)
Fixpoint octets (l : list Z) : option (list Z) :=
  match l with
  | a :: b :: c :: d :: l' =>
      ls ← octets l'; Some (a * 4 + b / 16 :: b mod 16 * 16 + c / 4 :: c mod 4 * 64 + d :: ls)
  | [a; b; c] => Some [a * 4 + b / 16; b mod 16 * 16 + c / 4]
  | [a; b] => Some [a * 4 + b / 16]
  | [_] => None
  | [] => Some []
  end.

(** The decoder skips carriage returns and newlines anywhere in its input. *)
Definition not_newline (c : ascii) : bool := negb (byte_of c =? 10) && negb (byte_of c =? 13).
Definition strip_newlines (s : string) : list ascii := List.filter not_newline (bytes s).

Definition decode_raw (c62 c63 : ascii) (l : list ascii) : option string :=
  ss ← mapM (char_sextet c62 c63) l; os ← octets ss; Some (string_of_bytes os).

Definition RawURLEncode (s : string) : string :=
  string_of_list_ascii (map (sextet_char "-"%char "_"%char) (sextets (bytes_of s))).
Definition RawURLDecode (s : string) : option string :=
  decode_raw "-"%char "_"%char (strip_newlines s).

(** The padded form: the length is a multiple of four and one or two ['=']
    complete the last group. *)
Definition pad_len (n : nat) : nat := match (n mod 3)%nat with 1%nat => 2 | 2%nat => 1 | _ => 0 end.
Definition StdEncode (s : string) : string :=
  string_of_list_ascii (map (sextet_char "+"%char "/"%char) (sextets (bytes_of s))
    ++ repeat "="%char (pad_len (String.length s))).

Definition unpad (l : list ascii) : option (list ascii) :=
  if (length l mod 4 =? 0)%nat then
    match reverse l with
    | a :: b :: r =>
        if ascii_eqb a "="%char then
          Some (reverse (if ascii_eqb b "="%char then r else b :: r))
        else Some l
    | _ => Some l
    end
  else None.
Definition StdDecode (s : string) : option string :=
  l ← unpad (strip_newlines s); decode_raw "+"%char "/"%char l.

(** ** Lemmas *)

Lemma byte_of_chr z : is_byte z → byte_of (byte_chr z) = z.
Proof. intros [? ?]. unfold byte_of, byte_chr. rewrite nat_ascii_embedding; lia. Qed.
Lemma byte_chr_of c : byte_chr (byte_of c) = c.
Proof. unfold byte_of, byte_chr. by rewrite Nat2Z.id, ascii_nat_embedding. Qed.
Lemma byte_of_bound c : is_byte (byte_of c).
Proof. unfold is_byte, byte_of. pose proof (nat_ascii_bounded c). lia. Qed.

Lemma string_of_bytes_of s : string_of_bytes (bytes_of s) = s.
Proof.
  unfold string_of_bytes, bytes_of, bytes. induction s as [|c s IH]; simpl; [done|].
  by rewrite byte_chr_of, IH.
Qed.

Lemma bytes_of_bound s : Forall is_byte (bytes_of s).
Proof. unfold bytes_of. induction (bytes s); simpl; constructor; auto using byte_of_bound. Qed.

Lemma list_ascii_app s t : list_ascii_of_string (s +:+ t) = list_ascii_of_string s ++ list_ascii_of_string t.
Proof. induction s; simpl; congruence. Qed.

Lemma string_of_list_app l k : string_of_list_ascii (l ++ k) = string_of_list_ascii l +:+ string_of_list_ascii k.
Proof. induction l; simpl; congruence. Qed.

Lemma length_string_of_list l : String.length (string_of_list_ascii l) = length l.
Proof. induction l; simpl; congruence. Qed.

Lemma length_list_of_string s : length (list_ascii_of_string s) = String.length s.
Proof. induction s; simpl; congruence. Qed.

(** Big-endian encodings of integers in range determine the integer. *)
Lemma be_bytes_length n z : length (be_bytes n z) = n.
Proof. revert z; induction n; intros; simpl; [done|]. rewrite length_app, IHn. simpl. lia. Qed.

Lemma be_bytes_bound n z : Forall is_byte (be_bytes n z).
Proof.
  revert z; induction n; intros; simpl; [constructor|]. apply Forall_app_2; [auto|].
  repeat constructor; pose proof (Z.mod_pos_bound z 256); lia.
Qed.

Lemma be_bytes_inj n z w :
  0 ≤ z < 256 ^ Z.of_nat n → 0 ≤ w < 256 ^ Z.of_nat n → be_bytes n z = be_bytes n w → z = w.
Proof.
  revert z w. induction n as [|n IH]; intros z w Hz Hw Heq; simpl in Heq.
  - simpl in *. lia.
  - apply app_inj_2 in Heq as [Heq [= Hmod]]; [|done].
    rewrite Nat2Z.inj_succ, Z.pow_succ_r in Hz, Hw by lia.
    apply IH in Heq; [|split; [apply Z.div_pos; lia|apply Z.div_lt_upper_bound; lia]..].
    rewrite (Z.div_mod z 256), (Z.div_mod w 256) by done. lia.
Qed.

Lemma string_of_bytes_inj l k :
  Forall is_byte l → Forall is_byte k → string_of_bytes l = string_of_bytes k → l = k.
Proof.
  intros Hl Hk Heq. unfold string_of_bytes in Heq.
  apply (f_equal list_ascii_of_string) in Heq. rewrite !list_ascii_of_string_of_list_ascii in Heq.
  revert k Hk Heq. induction Hl as [|x l Hx _ IH]; intros [|y k] Hk Heq; simplify_eq/=; [done|].
  apply Forall_cons in Hk as [Hy Hk]. match goal with H : byte_chr _ = _ |- _ => apply (f_equal byte_of) in H;
    rewrite !byte_of_chr in H by done; subst end. f_equal. auto.
Qed.

Lemma PutUint64_length z : String.length (PutUint64 z) = 8%nat.
Proof. unfold PutUint64, string_of_bytes. by rewrite length_string_of_list, length_map, be_bytes_length. Qed.

Lemma PutUint64_inj z w :
  0 ≤ z < 2 ^ 64 → 0 ≤ w < 2 ^ 64 → PutUint64 z = PutUint64 w → z = w.
Proof.
  intros Hz Hw Heq%string_of_bytes_inj; [|apply be_bytes_bound..].
  eapply be_bytes_inj; [..|exact Heq]; done.
Qed.

Lemma wrap64_id z : int64 z → wrap64 z = z.
Proof. unfold int64, wrap64. intros. rewrite Z.mod_small; lia. Qed.

(** *** Base64 round trip *)

Lemma list_ind3 {A} (P : list A → Prop) :
  P [] → (∀ x, P [x]) → (∀ x y, P [x; y]) → (∀ x y z l, P l → P (x :: y :: z :: l)) → ∀ l, P l.
Proof.
  intros H0 H1 H2 H3. fix IH 1. intros [|x [|y [|z l]]];
  [exact H0|apply H1|apply H2|apply H3, IH].
Qed.

Definition is_sextet (z : Z) : Prop := 0 ≤ z < 64.

Lemma sextets_octets l : Forall is_byte l → octets (sextets l) = Some l.
Proof.
  induction l as [|x|x y|x y z l IH] using list_ind3; intros H; simpl; [done|..];
    repeat match goal with H : Forall _ (_ :: _) |- _ => apply Forall_cons in H as [? H] end;
    unfold is_byte in *.
  - do 2 f_equal. Z.to_euclidean_division_equations. lia.
  - repeat f_equal; Z.to_euclidean_division_equations; lia.
  - rewrite IH by done. simpl. repeat f_equal; Z.to_euclidean_division_equations; lia.
Qed.

Lemma sextets_bound l : Forall is_byte l → Forall is_sextet (sextets l).
Proof.
  unfold is_byte, is_sextet.
  induction l as [|x|x y|x y z l IH] using list_ind3; intros H; simpl;
    repeat match goal with H : Forall _ (_ :: _) |- _ => apply Forall_cons in H as [? H] end;
    repeat constructor; auto; Z.to_euclidean_division_equations; lia.
Qed.

Lemma sextet_all (P : Z → bool) :
  forallb (fun n => P (Z.of_nat n)) (seq 0 64) = true → ∀ z, is_sextet z → P z = true.
Proof.
  intros H z Hz. rewrite forallb_forall in H. unfold is_sextet in Hz.
  rewrite <-(Z2Nat.id z) by lia. apply H, in_seq. lia.
Qed.

Definition url_char (c : ascii) : bool := is_alnum c || ascii_eqb c "-"%char || ascii_eqb c "_"%char.

Definition url_sextet_ok (z : Z) : bool :=
  bool_decide (char_sextet "-"%char "_"%char (sextet_char "-"%char "_"%char z) = Some z)
  && url_char (sextet_char "-"%char "_"%char z).

Lemma char_sextet_url z :
  is_sextet z → char_sextet "-"%char "_"%char (sextet_char "-"%char "_"%char z) = Some z
    ∧ url_char (sextet_char "-"%char "_"%char z) = true.
Proof.
  intros Hz. assert (H : url_sextet_ok z = true) by (by apply sextet_all).
  unfold url_sextet_ok in H. unbool. done.
Qed.

Lemma url_char_not_newline c : url_char c = true → not_newline c = true.
Proof.
  intros H. unfold not_newline. apply andb_true_iff.
  split; apply negb_true_iff, Z.eqb_neq; intros Hc;
    rewrite <-(byte_chr_of c), Hc in H; vm_compute in H; done.
Qed.

Lemma RawURLEncode_chars s : forall_char url_char (RawURLEncode s) = true.
Proof.
  unfold RawURLEncode. pose proof (sextets_bound _ (bytes_of_bound s)) as H.
  induction H as [|z l Hz _ IH]; simpl; [done|]. destruct (char_sextet_url z Hz) as [_ ->]. done.
Qed.

Lemma RawURL_roundtrip s : RawURLDecode (RawURLEncode s) = Some s.
Proof.
  unfold RawURLDecode, decode_raw.
  assert (strip_newlines (RawURLEncode s) = map (sextet_char "-"%char "_"%char) (sextets (bytes_of s))) as ->.
  { unfold strip_newlines, RawURLEncode, bytes. rewrite list_ascii_of_string_of_list_ascii.
    pose proof (sextets_bound _ (bytes_of_bound s)) as H.
    induction H as [|z l Hz _ IH]; simpl; [done|]. destruct (char_sextet_url z Hz) as [_ Hu].
    rewrite url_char_not_newline by done. by rewrite IH. }
  assert (mapM (char_sextet "-"%char "_"%char) (map (sextet_char "-"%char "_"%char) (sextets (bytes_of s)))
          = Some (sextets (bytes_of s))) as ->.
  { apply mapM_Some. pose proof (sextets_bound _ (bytes_of_bound s)) as H.
    induction H as [|z l Hz _ IH]; simpl; constructor; [by apply char_sextet_url|done]. }
  simpl. rewrite sextets_octets by apply bytes_of_bound. simpl. by rewrite string_of_bytes_of.
Qed.

(** *** The padded alphabet *)

Definition std_char (c : ascii) : bool := is_alnum c || ascii_eqb c "+"%char || ascii_eqb c "/"%char.

Definition std_sextet_ok (z : Z) : bool :=
  bool_decide (char_sextet "+"%char "/"%char (sextet_char "+"%char "/"%char z) = Some z)
  && std_char (sextet_char "+"%char "/"%char z).

Lemma char_sextet_std z :
  is_sextet z → char_sextet "+"%char "/"%char (sextet_char "+"%char "/"%char z) = Some z
    ∧ std_char (sextet_char "+"%char "/"%char z) = true.
Proof.
  intros Hz. assert (H : std_sextet_ok z = true) by (by apply sextet_all).
  unfold std_sextet_ok in H. unbool. done.
Qed.

Lemma std_char_spec c : std_char c = true → not_newline c = true ∧ ascii_eqb c "="%char = false.
Proof.
  intros H. unfold not_newline. split.
  - apply andb_true_iff. split; apply negb_true_iff, Z.eqb_neq; intros Hc;
      rewrite <-(byte_chr_of c), Hc in H; vm_compute in H; done.
  - destruct (ascii_eqb c "="%char) eqn:E; [|done]. apply ascii_eqb_eq in E as ->. done.
Qed.

(** The characters of an encoding, before its padding. *)
Definition std_body (s : string) : list ascii := map (sextet_char "+"%char "/"%char) (sextets (bytes_of s)).

Lemma std_body_chars s : Forall (fun c => std_char c = true) (std_body s).
Proof.
  unfold std_body. pose proof (sextets_bound _ (bytes_of_bound s)) as H.
  induction H as [|z l Hz _ IH]; simpl; constructor; [by apply char_sextet_std|done].
Qed.

Lemma sextets_length l : (3 * length (sextets l) + match (length l mod 3)%nat with 1%nat => 6 | 2%nat => 3 | _ => 0 end
  = 4 * (length l + match (length l mod 3)%nat with 1%nat => 2 | 2%nat => 1 | _ => 0 end))%nat.
Proof.
  induction l as [|x|x y|x y z l IH] using list_ind3; [done..|]. cbn [length sextets].
  replace (S (S (S (length l))) mod 3)%nat with (length l mod 3)%nat; [|by rewrite <-(Nat.Div0.mod_add (length l) 1 3); f_equal; lia].
  destruct (length l mod 3)%nat as [|[|[|]]]; lia.
Qed.

Lemma std_body_length s :
  (3 * (length (std_body s) + pad_len (String.length s))
  = 4 * (String.length s + pad_len (String.length s)))%nat.
Proof.
  unfold std_body, pad_len. rewrite length_map. pose proof (sextets_length (bytes_of s)) as H.
  unfold bytes_of, bytes in *. rewrite length_map, length_list_of_string in H.
  pose proof (Nat.mod_upper_bound (String.length s) 3 ltac:(done)).
  destruct (String.length s mod 3)%nat as [|[|[|]]] eqn:E; try lia.
Qed.

Lemma unpad_body s : unpad (std_body s ++ repeat "="%char (pad_len (String.length s))) = Some (std_body s).
Proof.
  pose proof (std_body_length s) as Hlen. pose proof (std_body_chars s) as Hch.
  set (p := pad_len (String.length s)) in *. unfold unpad.
  assert (Hp : p = 0%nat ∨ p = 1%nat ∨ p = 2%nat).
  { unfold p, pad_len. destruct (_ mod 3)%nat as [|[|[|]]]; auto. }
  assert (Hmod : (length (std_body s ++ repeat "="%char p) mod 4 =? 0)%nat = true).
  { apply Nat.eqb_eq. rewrite length_app, repeat_length.
    apply Nat.Div0.mod_divides. exists ((String.length s + p) / 3)%nat.
    assert (Hd : (String.length s + p = 3 * ((String.length s + p) / 3))%nat).
    { apply Nat.Div0.div_exact. unfold p, pad_len. pose proof (Nat.mod_upper_bound (String.length s) 3 ltac:(done)).
      pose proof (Nat.div_mod_eq (String.length s) 3) as Hq.
      destruct (String.length s mod 3)%nat as [|[|[|]]] eqn:E; try lia.
      - by rewrite Nat.add_0_r.
      - apply Nat.Div0.mod_divides. exists (S (String.length s / 3)). lia.
      - apply Nat.Div0.mod_divides. exists (S (String.length s / 3)). lia. }
    lia. }
  rewrite Hmod. rewrite reverse_app.
  assert (Hlast : ∀ a r, reverse (std_body s) = a :: r → ascii_eqb a "="%char = false).
  { intros a r Hr. apply std_char_spec. rewrite Forall_forall in Hch. apply Hch.
    apply elem_of_reverse. rewrite Hr. set_solver. }
  destruct Hp as [->|[->| ->]]; cbn [repeat].
  - change (reverse (@nil ascii)) with (@nil ascii). rewrite app_nil_l, app_nil_r.
    destruct (reverse (std_body s)) as [|a [|b r]] eqn:Hr; try done. by rewrite (Hlast _ _ eq_refl).
  - change (reverse ["="%char]) with ["="%char]. cbn [app].
    destruct (reverse (std_body s)) as [|b r] eqn:Hr.
    { apply (f_equal length) in Hr. rewrite length_reverse in Hr. simpl in Hr. lia. }
    cbn. rewrite (Hlast _ _ eq_refl). rewrite <-Hr. by rewrite reverse_involutive.
  - change (reverse ["="%char; "="%char]) with ["="%char; "="%char]. cbn [app]. rewrite !ascii_eqb_refl. by rewrite reverse_involutive.
Qed.

Lemma Std_roundtrip s : StdDecode (StdEncode s) = Some s.
Proof.
  unfold StdDecode, StdEncode, strip_newlines, bytes. rewrite list_ascii_of_string_of_list_ascii.
  fold (std_body s).
  assert (Hf : List.filter not_newline (std_body s ++ repeat "="%char (pad_len (String.length s)))
    = std_body s ++ repeat "="%char (pad_len (String.length s))).
  { rewrite List.filter_app. f_equal.
    - pose proof (std_body_chars s) as H. induction H as [|c l Hc _ IH]; simpl; [done|].
      by rewrite (proj1 (std_char_spec c Hc)), IH.
    - by induction (pad_len (String.length s)) as [|n IH]; simpl; [|rewrite IH]. }
  rewrite Hf, unpad_body. cbn [mbind option_bind]. unfold decode_raw, std_body.
  assert (mapM (char_sextet "+"%char "/"%char) (map (sextet_char "+"%char "/"%char) (sextets (bytes_of s)))
          = Some (sextets (bytes_of s))) as ->.
  { apply mapM_Some. pose proof (sextets_bound _ (bytes_of_bound s)) as H.
    induction H as [|z l Hz _ IH]; simpl; constructor; [by apply char_sextet_std|done]. }
  simpl. rewrite sextets_octets by apply bytes_of_bound. simpl. by rewrite string_of_bytes_of.
Qed.

Lemma StdEncode_spec s :
  (3 * String.length (StdEncode s) = 4 * (String.length s + pad_len (String.length s)))%nat ∧
  forall_char (fun c => std_char c || ascii_eqb c "="%char) (StdEncode s) = true.
Proof.
  unfold StdEncode. fold (std_body s). rewrite length_string_of_list, length_app, repeat_length. split; [apply std_body_length|].
  rewrite string_of_list_app, forall_char_app. apply andb_true_iff. split.
  - pose proof (std_body_chars s) as H. induction H as [|c l Hc _ IH]; simpl; [done|]. by rewrite Hc.
  - by induction (pad_len _) as [|n IH].
Qed.

Example std_padded : StdEncode "ab" = "YWI=" ∧ StdDecode "YW=I" = None ∧ StdDecode "YWI" = None.
Proof. split_and!; reflexivity. Qed.

Lemma hex_digit_is_hex z : 0 ≤ z < 16 → is_hex (hex_digit z) = true.
Proof.
  intros Hz. assert (H : forallb (fun n => is_hex (hex_digit (Z.of_nat n))) (seq 0 16) = true)
    by (vm_compute; reflexivity).
  rewrite forallb_forall in H. rewrite <-(Z2Nat.id z) by lia. apply H, in_seq. lia.
Qed.

Lemma hex_EncodeToString_spec s :
  String.length (hex_EncodeToString s) = (2 * String.length s)%nat ∧
  forall_char is_hex (hex_EncodeToString s) = true.
Proof.
  unfold hex_EncodeToString, bytes_of, bytes. induction s as [|c s [IHl IHh]]; [done|].
  cbn [list_ascii_of_string map flat_map app string_of_list_ascii String.length forall_char].
  rewrite IHl, IHh. split; [lia|]. pose proof (byte_of_bound c) as Hb. unfold is_byte in Hb.
  rewrite !hex_digit_is_hex; [done|..]; Z.to_euclidean_division_equations; lia.
Qed.

Lemma hex_digit_inj z w : 0 ≤ z < 16 → 0 ≤ w < 16 → hex_digit z = hex_digit w → z = w.
Proof.
  intros Hz Hw H. assert (Hall : forallb (fun n => forallb (fun m =>
    negb (ascii_eqb (hex_digit (Z.of_nat n)) (hex_digit (Z.of_nat m))) || (n =? m)%nat) (seq 0 16)) (seq 0 16) = true)
    by (vm_compute; reflexivity).
  rewrite forallb_forall in Hall. specialize (Hall (Z.to_nat z) ltac:(apply in_seq; lia)).
  rewrite forallb_forall in Hall. specialize (Hall (Z.to_nat w) ltac:(apply in_seq; lia)).
  rewrite !Z2Nat.id, H, ascii_eqb_refl in Hall by lia. simpl in Hall. apply Nat.eqb_eq in Hall. lia.
Qed.

Lemma hex_EncodeToString_inj s t : hex_EncodeToString s = hex_EncodeToString t → s = t.
Proof.
  unfold hex_EncodeToString, bytes_of, bytes. revert t. induction s as [|c s IH]; intros [|d t]; try done.
  cbn [list_ascii_of_string map flat_map app string_of_list_ascii]. intros [= H1 H2 H3].
  pose proof (byte_of_bound c) as Hc. pose proof (byte_of_bound d) as Hd. unfold is_byte in *.
  apply hex_digit_inj in H1, H2; [|Z.to_euclidean_division_equations; lia..].
  assert (byte_of c = byte_of d) by (Z.to_euclidean_division_equations; lia).
  f_equal; [|by apply IH]. rewrite <-(byte_chr_of c), <-(byte_chr_of d). congruence.
Qed.

(** A decimal number holds digits and a sign only. *)
Definition numeral_char (c : ascii) : bool := is_digit c || ascii_eqb c "-"%char.

Lemma pretty_N_char_digit n : is_digit (pretty_N_char n) = true.
Proof. unfold pretty_N_char. repeat case_match; reflexivity. Qed.

Lemma pretty_N_go_digits n s :
  forall_char is_digit s = true → forall_char is_digit (pretty_N_go n s) = true.
Proof.
  revert s. induction (N.lt_wf_0 n) as [n _ IH]; intros s Hs.
  assert (n = 0 ∨ 0 < n)%N as [->|Hn] by lia; [by rewrite pretty_N_go_0|].
  rewrite pretty_N_go_step by done. apply IH; [by apply N.div_lt|].
  simpl. by rewrite pretty_N_char_digit, Hs.
Qed.

Lemma pretty_N_digits (n : N) : forall_char is_digit (pretty n) = true.
Proof.
  unfold pretty, pretty_N. case_decide; [done|]. by apply pretty_N_go_digits.
Qed.

Lemma FormatInt_chars z : forall_char numeral_char (FormatInt z) = true.
Proof.
  assert (H : ∀ n : N, forall_char numeral_char (pretty n) = true).
  { intros n. eapply forall_char_impl; [|apply pretty_N_digits]. unfold numeral_char. by intros c ->. }
  unfold FormatInt, pretty, pretty_Z. destruct z as [|p|p]; [done|apply H|].
  simpl. apply H.
Qed.

Lemma pretty_N_go_length n k s :
  (n < 10 ^ N.of_nat k)%N → (String.length (pretty_N_go n s) ≤ k + String.length s)%nat.
Proof.
  revert n s. induction k as [|k IH]; intros n s Hn.
  - assert (n = 0%N) as -> by (simpl in Hn; lia). rewrite pretty_N_go_0. lia.
  - assert (n = 0 ∨ 0 < n)%N as [->|Hp] by lia; [rewrite pretty_N_go_0; lia|].
    rewrite pretty_N_go_step by done. etransitivity; [apply IH|simpl; lia].
    apply N.Div0.div_lt_upper_bound. rewrite Nat2N.inj_succ, N.pow_succ_r' in Hn. lia.
Qed.

(** A 64-bit number takes at most twenty characters. *)
Lemma FormatInt_length z : - 2 ^ 63 ≤ z < 2 ^ 64 → (String.length (FormatInt z) ≤ 20)%nat.
Proof.
  assert (H : ∀ k (n : N), (0 < k)%nat → (n < 10 ^ N.of_nat k)%N → (String.length (pretty n) ≤ k)%nat).
  { intros k n Hk Hn. unfold pretty, pretty_N. case_decide; [simpl; lia|].
    etransitivity; [by apply pretty_N_go_length|simpl; lia]. }
  intros Hz. unfold FormatInt, pretty, pretty_Z. destruct z as [|p|p]; [simpl; lia| |].
  - apply H; [lia|]. change (10 ^ N.of_nat 20)%N with 100000000000000000000%N. lia.
  - cbn [String.length String.append]. apply le_n_S, (H 19%nat); [lia|].
    change (10 ^ N.of_nat 19)%N with 10000000000000000000%N. lia.
Qed.
