(* ===== verification/Elevate.v ===== *)
(** * Quoting and privilege elevation

    [internal/signer/signer.go]: how the signer builds the command line that the
    target account's shell will parse. The reference is the part of the POSIX
    shell's token recognition the produced lines fall in: plain words, single
    quotes and backslash escapes; a line outside that fragment has no reading. *)

From S2P Require Import Prelude GoStrings CmdPolicy.

(** [regexp] [^[a-zA-Z0-9_][a-zA-Z0-9_.-]{0,31}$]. *)
Definition user_head (c : ascii) : bool := is_alnum c || ascii_eqb c "_"%char.
Definition user_tail (c : ascii) : bool :=
  user_head c || ascii_eqb c "."%char || ascii_eqb c "-"%char.
Definition reValidUser (s : string) : bool :=
  match s with
  | "" => false
  | String c s' => user_head c && forall_char user_tail s' && (Z.of_nat (String.length s') <=? 31)
  end.

(** [regexp] [^[A-Za-z0-9@%_+:,./-]+$]. *)
Definition safe_char (c : ascii) : bool := is_alnum c || ContainsByte "@%_+:,./-" c.
Definition shellSafeWord (s : string) : bool := bool_decide (s ≠ "") && forall_char safe_char s.

Definition ShellQuote (s : string) : string := "'" +:+ ReplaceByte s "'"%char "'\''" +:+ "'".

Definition maybeShellQuote (s : string) : string := if shellSafeWord s then s else ShellQuote s.

Definition BuildElevatedCommand `{ShellParser} (prefix command : string) : string :=
  match directArgv command with
  | Some argv => prefix +:+ " -- " +:+ Join (map maybeShellQuote argv) " "
  | None => prefix +:+ " -- /bin/sh -c " +:+ ShellQuote command
  end.

Definition sudoUserAllowed (allowed : list string) (user : string) : bool :=
  match allowed with
  | [] => bool_decide (user = "root")
  | _ => existsb (fun a => bool_decide (a = user)) allowed
  end.

(** ** Reference: shell token recognition *)

(** The bytes an unquoted word may hold with no meaning to the shell: visible
    ASCII outside the operators, expansions, patterns, comments, tildes, braces
    and assignments. *)
Definition shell_plain (c : ascii) : bool :=
  in_range 33 126 c && negb (ContainsByte "|&;<>()$`\'*?[]#~={}!^" c) && negb (byte_of c =? 34).

Definition emit (cur : option string) : list string := match cur with Some w => [w] | None => [] end.
Definition grow (cur : option string) (c : ascii) : option string :=
  Some ((match cur with Some w => w | None => "" end) +:+ String c "").

(** [shell_words s]: the words of a line, with quotes removed; [None] when the
    line is not in the fragment. [cur] is the word being read, [quoted] whether
    a single quote is open. *)
Fixpoint words_aux (s : string) (cur : option string) (quoted escaped : bool) : option (list string) :=
  match s with
  | "" => if quoted || escaped then None else Some (emit cur)
  | String c s' =>
      if escaped then words_aux s' (grow cur c) false false
      else if quoted then
        if ascii_eqb c "'"%char then words_aux s' cur false false
        else words_aux s' (grow cur c) true false
      else if ascii_eqb c "'"%char then
        words_aux s' (Some (match cur with Some w => w | None => "" end)) true false
      else if ascii_eqb c "\"%char then words_aux s' cur false true
      else if ascii_eqb c " "%char then (emit cur ++.) <$> words_aux s' None false false
      else if shell_plain c then words_aux s' (grow cur c) false false
      else None
  end.
Definition shell_words (s : string) : option (list string) := words_aux s None false false.

(** ** Every quoted word reads back as itself *)

Lemma safe_char_plain c : safe_char c = true → shell_plain c = true.
Proof.
  assert (H : forallb (fun n => implb (safe_char (ascii_of_nat n)) (shell_plain (ascii_of_nat n)))
                (seq 0 256) = true) by (vm_compute; reflexivity).
  intros Hc. rewrite forallb_forall in H. specialize (H (nat_of_ascii c)).
  rewrite ascii_nat_embedding, Hc in H. apply H. apply in_seq. pose proof (nat_ascii_bounded c). lia.
Qed.

Lemma shell_plain_not c : shell_plain c = true →
  ascii_eqb c "'"%char = false ∧ ascii_eqb c "\"%char = false ∧ ascii_eqb c " "%char = false.
Proof.
  intros H. split_and!; apply not_true_iff_false; rewrite ascii_eqb_eq; intros ->; vm_compute in H; done.
Qed.

(** The word read so far, extended by [w]. *)
Definition extend (cur : option string) (w : string) : option string :=
  Some ((match cur with Some x => x | None => "" end) +:+ w).

Lemma extend_grow cur c w : extend (grow cur c) w = extend cur (String c w).
Proof. unfold extend, grow. by rewrite String_append_assoc. Qed.

Lemma words_safe w rest cur :
  forall_char safe_char w = true → w ≠ "" →
  words_aux (w +:+ rest) cur false false = words_aux rest (extend cur w) false false.
Proof.
  revert cur. induction w as [|c w IH]; intros cur Hs Hne; [done|]. simpl in *.
  apply andb_true_iff in Hs as [Hc Hs]. apply safe_char_plain in Hc.
  destruct (shell_plain_not c Hc) as (-> & -> & ->). rewrite Hc.
  destruct w as [|c' w']; [done|]. rewrite IH by done. by rewrite extend_grow.
Qed.

Lemma words_quoted s rest cur :
  words_aux (ReplaceByte s "'"%char "'\''" +:+ "'" +:+ rest) (Some cur) true false
  = words_aux rest (Some (cur +:+ s)) false false.
Proof.
  revert cur. induction s as [|c s IH]; intros cur; simpl; [by rewrite String_append_nil|].
  destruct (ascii_eqb c "'"%char) eqn:Hc; simpl.
  - apply ascii_eqb_eq in Hc as ->. simpl in IH. rewrite IH. simpl. by rewrite String_append_assoc.
  - rewrite Hc. simpl in IH. unfold grow. rewrite IH. simpl. by rewrite String_append_assoc.
Qed.

Lemma words_ShellQuote s rest cur :
  words_aux (ShellQuote s +:+ rest) cur false false = words_aux rest (extend cur s) false false.
Proof.
  unfold ShellQuote. rewrite !String_append_assoc. simpl.
  rewrite (words_quoted s rest). done.
Qed.

Lemma words_maybeShellQuote w rest cur :
  words_aux (maybeShellQuote w +:+ rest) cur false false = words_aux rest (extend cur w) false false.
Proof.
  unfold maybeShellQuote, shellSafeWord. case_bool_decide; simpl; [|apply words_ShellQuote].
  destruct (forall_char safe_char w) eqn:Hs; [by apply words_safe|apply words_ShellQuote].
Qed.

Lemma words_space rest cur :
  words_aux (" " +:+ rest) cur false false = (emit cur ++.) <$> words_aux rest None false false.
Proof. reflexivity. Qed.

Lemma words_Join w ws :
  words_aux (Join (map maybeShellQuote (w :: ws)) " ") None false false = Some (w :: ws).
Proof.
  revert w. induction ws as [|x ws IH]; intros w.
  - simpl. rewrite <-(String_append_nil (maybeShellQuote w)), words_maybeShellQuote. done.
  - change (Join (map maybeShellQuote (w :: x :: ws)) " ")
      with (maybeShellQuote w +:+ " " +:+ Join (map maybeShellQuote (x :: ws)) " ").
    rewrite words_maybeShellQuote, words_space. by rewrite IH.
Qed.

(** Shell quoting is exact: whatever bytes a word holds, the shell reads
    the quoted form back as that one word, and nothing else. *)
Theorem ShellQuote_roundtrip s :
  shell_words (ShellQuote s) = Some [s] ∧ shell_words (maybeShellQuote s) = Some [s].
Proof.
  unfold shell_words. split.
  - rewrite <-(String_append_nil (ShellQuote s)), words_ShellQuote. done.
  - rewrite <-(String_append_nil (maybeShellQuote s)), words_maybeShellQuote. done.
Qed.

(** A prefix made of plain words, the only prefixes [resolveElevation] returns. *)
Definition prefix_words (ws : list string) : Prop := ws ≠ [] ∧ Forall (fun w => shellSafeWord w = true) ws.

Lemma shellSafeWord_self w : shellSafeWord w = true → maybeShellQuote w = w.
Proof. unfold maybeShellQuote. by intros ->. Qed.

Lemma words_prefix ws rest :
  prefix_words ws →
  words_aux (Join ws " " +:+ " " +:+ rest) None false false
  = (ws ++.) <$> words_aux rest None false false.
Proof.
  intros [Hne Hall]. destruct ws as [|w ws]; [done|]. clear Hne. revert w Hall.
  induction ws as [|x ws IH]; intros w Hall; apply Forall_cons in Hall as [Hw Hall].
  - simpl Join. rewrite <-(shellSafeWord_self w) at 1 by done. rewrite words_maybeShellQuote.
    reflexivity.
  - change (Join (w :: x :: ws) " ") with (w +:+ " " +:+ Join (x :: ws) " ").
    rewrite !String_append_assoc. rewrite <-(shellSafeWord_self w) at 1 by done.
    rewrite words_maybeShellQuote, words_space, IH by done.
    by destruct (words_aux rest None false false).
Qed.

Lemma directArgv_nonempty `{ShellParser} command argv : directArgv command = Some argv → argv ≠ [].
Proof.
  unfold directArgv. destruct (sh_Parse command) as [[|st [|]]|]; try done.
  destruct (_ || _); [done|]. destruct (st_Cmd st) as [cmd|]; [|done].
  destruct cmd as [| | | | | | | |[|] [|w0 ws]|]; try done.
  intros ([|a0 argv'] & _ & Hargv)%bind_Some; [done|].
  destruct (ContainsByte _ _); [done|]. by case_bool_decide; simplify_eq.
Qed.

(** What runs is what was asked for: the elevated line the signer bakes into
    the certificate is read by the shell as the elevation prefix, the double
    dash, and then either exactly the command's literal argument vector or
    [/bin/sh -c] with the whole command as one argument. No byte of the command
    is interpreted before sudo. *)
Theorem BuildElevatedCommand_words `{ShellParser} ws command :
  prefix_words ws →
  shell_words (BuildElevatedCommand (Join ws " ") command)
  = Some (ws ++ "--" :: match directArgv command with
                        | Some argv => argv
                        | None => ["/bin/sh"; "-c"; command]
                        end).
Proof.
  intros Hws. unfold shell_words, BuildElevatedCommand.
  destruct (directArgv command) as [argv|] eqn:Hd.
  - apply directArgv_nonempty in Hd. destruct argv as [|a argv]; [done|].
    set (args := Join (map _ _) _).
    transitivity (words_aux (Join ws " " +:+ " " +:+ ("--" +:+ " " +:+ args)) None false false); [done|].
    rewrite words_prefix, words_safe, words_space by done. unfold args. by rewrite words_Join.
  - transitivity (words_aux (Join ws " " +:+ " " +:+ ("--" +:+ " " +:+ ("/bin/sh" +:+ " " +:+
      ("-c" +:+ " " +:+ (ShellQuote command +:+ ""))))) None false false).
    { by rewrite String_append_nil. }
    rewrite words_prefix, words_safe, words_space, words_safe, words_space, words_safe, words_space,
      words_ShellQuote by done. reflexivity.
Qed.

Lemma BuildElevatedCommand_words_witness :
  shell_words (@BuildElevatedCommand plain_parser "sudo -n -u deploy" "systemctl restart nginx")
  = Some ["sudo"; "-n"; "-u"; "deploy"; "--"; "systemctl"; "restart"; "nginx"].
Proof.
  apply (@BuildElevatedCommand_words plain_parser ["sudo"; "-n"; "-u"; "deploy"] "systemctl restart nginx").
  split; [done|]. repeat constructor.
Defined.

Example elevated_glob :
  @BuildElevatedCommand plain_parser "sudo -n" "rm it's*" = "sudo -n -- /bin/sh -c 'rm it'\''s*'".
Proof. reflexivity. Qed.
