(* ===== verification/Crypto.v ===== *)
(** * Cryptographic primitives

    [crypto/ed25519] and [crypto/sha256] as parameters: keys, signatures and
    digests are byte strings. What a theorem needs of them is a hypothesis of
    that theorem. *)

From S2P Require Import Prelude GoStrings Encoding.

Class Ed25519 : Type := {
  ed_public : string → string;
  ed_sign : string → string → string;
  ed_check : string → string → string → bool;
  ed_fromSeed : string → string;
}.
Definition PublicKeySize : nat := 32.
Definition PrivateKeySize : nat := 64.
Definition SeedSize : nat := 32.

(** [ed25519.Verify] panics on a key of the wrong size: no value. *)
Definition ed25519_Verify `{Ed25519} (pub msg sig : string) : option bool :=
  if (String.length pub =? PublicKeySize)%nat then Some (ed_check pub msg sig) else None.

Class Sha256 : Type := { Sum256 : string → string }.
