(* ===== verification/Sealed.v ===== *)
(** * Sealed-exec envelopes

    [internal/sealed/envelope.go]: the signed authorization of one command on
    one host. Ed25519 and the JSON codec of the envelope are parameters; the
    base64 layer, the signed byte string and the checks are modelled. *)

From S2P Require Import Prelude GoStrings Encoding Crypto.

Record Envelope := mkEnvelope {
  e_Nonce : string;
  e_Host : string;
  e_Command : string;
  e_Expiry : Z;
  e_Sig : string;
}.

(** [encoding/json] on [Envelope]. *)
Class EnvelopeJSON : Type := {
  json_marshal_env : Envelope → string;
  json_unmarshal_env : string → option Envelope;
}.

Inductive sealed_error :=
| EBadHostName (name : string)
| EInvalidPrivateKey
| EEmptyHost
| EEmptyCommand
| ETTL
| ENonce
| ENoPinnedKey
| EInvalidPublicKey
| ENoExpectedHost
| EMalformedEnvelope
| EBadSignature
| EWrongHost (got want : string)
| ENoNonce
| ENoCommand
| EExpired (at_ : Z)
| ETooFarAhead
| EKeyNotBase64
| EKeyLength (n : nat)
| EKeyFileLine (line : nat) (e : sealed_error)
| EKeyFileEmpty
| ESeedLength
| EPanic.

Definition ShimCommand : string := "infrabroker-shim".
Definition DefaultTTL : duration := 30 * Second.
Definition MaxTTL : duration := 5 * Minute.

(** [regexp] [^[A-Za-z0-9][A-Za-z0-9._-]{0,63}$]. *)
Definition host_tail (c : ascii) : bool := is_alnum c || ContainsByte "._-" c.
Definition ValidHostName (s : string) : bool :=
  match s with
  | "" => false
  | String c s' => is_alnum c && forall_char host_tail s' && (Z.of_nat (String.length s') <=? 63)
  end.

Definition ForceCommand (host : string) : result sealed_error string :=
  if ValidHostName host then Ok (ShimCommand +:+ " " +:+ host) else Err (EBadHostName host).

Definition domainPrefix : string := "infrabroker-sealed-exec-v1" +:+ String (byte_chr 0) "".

Definition writeField (s : string) : string := PutUint64 (Z.of_nat (String.length s)) +:+ s.

Definition signedBytes (e : Envelope) : string :=
  domainPrefix +:+ writeField (e_Nonce e) +:+ writeField (e_Host e) +:+ writeField (e_Command e)
  +:+ writeField (FormatInt (e_Expiry e)).

Section operations.
Context `{ED : Ed25519} `{EJ : EnvelopeJSON}.

(** The envelope [Sign] fills in; [nonce] is the sixteen random bytes. *)
Definition fresh_envelope (key nonce host command : string) (ttl : duration) (now : time) : Envelope :=
  let e := mkEnvelope (hex_EncodeToString nonce) host command (Unix (now + ttl)) "" in
  mkEnvelope (e_Nonce e) host command (e_Expiry e) (ed_sign key (signedBytes e)).

Definition Sign (nonce : option string) (key host command : string) (ttl : duration) (now : time) :
    result sealed_error string :=
  if negb (String.length key =? PrivateKeySize)%nat then Err EInvalidPrivateKey
  else if bool_decide (host = "") then Err EEmptyHost
  else if bool_decide (command = "") then Err EEmptyCommand
  else if (ttl <=? 0) || (MaxTTL <? ttl) then Err ETTL
  else match nonce with
  | None => Err ENonce
  | Some nonce => Ok (RawURLEncode (json_marshal_env (fresh_envelope key nonce host command ttl now)))
  end.

(** The loop over the pinned keys; a panic aborts it. *)
Fixpoint verify_any (pubs : list string) (msg sig : string) : result sealed_error bool :=
  match pubs with
  | [] => Ok false
  | pub :: pubs' =>
      match ed25519_Verify pub msg sig with
      | None => Err EPanic
      | Some true => Ok true
      | Some false => verify_any pubs' msg sig
      end
  end.

Definition VerifyAny (pubs : list string) (wire expectedHost : string) (now : time) :
    result sealed_error Envelope :=
  if bool_decide (pubs = []) then Err ENoPinnedKey
  else if existsb (fun p => negb (String.length p =? PublicKeySize)%nat) pubs then Err EInvalidPublicKey
  else if bool_decide (expectedHost = "") then Err ENoExpectedHost
  else match RawURLDecode (TrimSpace wire) with
  | None => Err EMalformedEnvelope
  | Some js =>
  match json_unmarshal_env js with
  | None => Err EMalformedEnvelope
  | Some e =>
  let! verified := verify_any pubs (signedBytes e) (e_Sig e) in
  if negb verified then Err EBadSignature
  else if bool_decide (e_Host e ≠ expectedHost) then Err (EWrongHost (e_Host e) expectedHost)
  else if bool_decide (e_Nonce e = "") then Err ENoNonce
  else if bool_decide (e_Command e = "") then Err ENoCommand
  else if e_Expiry e <? Unix now then Err (EExpired (e_Expiry e))
  else if MaxTTL / Second <? wrap64 (e_Expiry e - Unix now) then Err ETooFarAhead
  else Ok e
  end end.

Definition Verify (pub wire expectedHost : string) (now : time) : result sealed_error Envelope :=
  VerifyAny [pub] wire expectedHost now.

Definition PublicKeyString (pub : string) : string := StdEncode pub.

Definition ParsePublicKey (s : string) : result sealed_error string :=
  match StdDecode (TrimSpace s) with
  | None => Err EKeyNotBase64
  | Some raw => if (String.length raw =? PublicKeySize)%nat then Ok raw
                else Err (EKeyLength (String.length raw))
  end.

Fixpoint parse_lines (n : nat) (lines : list string) : result sealed_error (list string) :=
  match lines with
  | [] => Ok []
  | line :: lines' =>
      let line := TrimSpace line in
      if bool_decide (line = "") || HasPrefix line "#" then parse_lines (S n) lines'
      else match ParsePublicKey line with
      | Err e => Err (EKeyFileLine n e)
      | Ok key => let! keys := parse_lines (S n) lines' in Ok (key :: keys)
      end
  end.

Definition ParsePublicKeys (s : string) : result sealed_error (list string) :=
  let! keys := parse_lines 1 (Split s (byte_chr 10)) in
  if bool_decide (keys = []) then Err EKeyFileEmpty else Ok keys.

Definition KeyFromSeed (seed : string) : result sealed_error string :=
  if (String.length seed <? SeedSize)%nat then Err ESeedLength
  else Ok (ed_fromSeed (String.substring 0 SeedSize seed)).
End operations.

(** ** The signed byte string *)

Lemma writeField_inj s1 t1 s2 t2 :
  Z.of_nat (String.length s1) < 2 ^ 63 → Z.of_nat (String.length s2) < 2 ^ 63 →
  writeField s1 +:+ t1 = writeField s2 +:+ t2 → s1 = s2 ∧ t1 = t2.
Proof.
  unfold writeField. rewrite !String_append_assoc. intros H1 H2 Heq.
  apply String_append_inj_len in Heq as [Hlen Heq]; [|by rewrite !PutUint64_length].
  apply PutUint64_inj in Hlen; [|lia..]. apply String_append_inj_len in Heq; [done|lia].
Qed.

(** The strings a Go program can hold. *)
Definition go_envelope (e : Envelope) : Prop :=
  Z.of_nat (String.length (e_Nonce e)) < 2 ^ 63 ∧ Z.of_nat (String.length (e_Host e)) < 2 ^ 63 ∧
  Z.of_nat (String.length (e_Command e)) < 2 ^ 63 ∧
  Z.of_nat (String.length (FormatInt (e_Expiry e))) < 2 ^ 63.

Definition same_authorization (e1 e2 : Envelope) : Prop :=
  e_Nonce e1 = e_Nonce e2 ∧ e_Host e1 = e_Host e2 ∧ e_Command e1 = e_Command e2 ∧
  e_Expiry e1 = e_Expiry e2.

Lemma signedBytes_inj e1 e2 :
  go_envelope e1 → go_envelope e2 → signedBytes e1 = signedBytes e2 → same_authorization e1 e2.
Proof.
  intros (Hn1 & Hh1 & Hc1 & Hx1) (Hn2 & Hh2 & Hc2 & Hx2) Heq. unfold signedBytes in Heq.
  apply String_append_inj_l in Heq.
  apply writeField_inj in Heq as [? Heq]; [|done..].
  apply writeField_inj in Heq as [? Heq]; [|done..].
  apply writeField_inj in Heq as [? Heq]; [|done..].
  rewrite <-(String_append_nil (writeField (FormatInt (e_Expiry e1)))),
          <-(String_append_nil (writeField (FormatInt (e_Expiry e2)))) in Heq.
  apply writeField_inj in Heq as [Hx _]; [|done..].
  unfold FormatInt in Hx. apply (inj pretty.pretty) in Hx. done.
Qed.

Section verification.
Context `{ED : Ed25519} `{EJ : EnvelopeJSON}.

Lemma verify_any_true pubs msg sig :
  verify_any pubs msg sig = Ok true → ∃ pub, pub ∈ pubs ∧ ed_check pub msg sig = true.
Proof.
  induction pubs as [|p pubs IH]; simpl; [done|]. unfold ed25519_Verify at 1.
  destruct (_ =? _)%nat; [|done]. destruct (ed_check p msg sig) eqn:Hp.
  - intros _. exists p. split; [by left|done].
  - intros (q & ? & ?)%IH. exists q. split; [by right|done].
Qed.

Lemma verify_any_total pubs msg sig :
  existsb (fun p => negb (String.length p =? PublicKeySize)%nat) pubs = false →
  verify_any pubs msg sig = Ok (existsb (fun p => ed_check p msg sig) pubs).
Proof.
  induction pubs as [|p pubs IH]; cbn [existsb verify_any]; [done|]. intros [Hp Hps]%orb_false_iff.
  unfold ed25519_Verify at 1. apply negb_false_iff in Hp. rewrite Hp.
  destruct (ed_check p msg sig); [done|]. auto.
Qed.

(** What acceptance means. *)
Lemma VerifyAny_Ok pubs wire host now e :
  VerifyAny pubs wire host now = Ok e →
  (∃ js, RawURLDecode (TrimSpace wire) = Some js ∧ json_unmarshal_env js = Some e) ∧
  (∃ pub, pub ∈ pubs ∧ ed_check pub (signedBytes e) (e_Sig e) = true) ∧
  e_Host e = host ∧ host ≠ "" ∧ e_Nonce e ≠ "" ∧ e_Command e ≠ "" ∧
  Unix now ≤ e_Expiry e ∧ wrap64 (e_Expiry e - Unix now) ≤ 300.
Proof.
  unfold VerifyAny. case_bool_decide; [done|]. destruct (existsb _ _); [done|].
  case_bool_decide; [done|]. destruct (RawURLDecode _) as [js|] eqn:Hjs; [|done].
  destruct (json_unmarshal_env js) as [e'|] eqn:He; [|done].
  intros ([] & Hv & H1)%rbind_Ok; simpl in H1; [|done].
  repeat (case_bool_decide; [done|]). destruct (_ <? Unix now) eqn:Hx; [done|].
  destruct (_ <? wrap64 _) eqn:Hf; [done|]. injection H1 as ->. unbool.
  apply verify_any_true in Hv. change (MaxTTL / Second) with 300 in Hf.
  split_and!; eauto; by apply dec_stable.
Qed.

(** Verification never panics and is host-bound: with any list of pinned
    keys, any bytes on the wire and any clock it returns an envelope or a
    refusal, and an accepted envelope is authenticated by a pinned key, names
    the expected host and carries a nonce and a command. *)
Theorem VerifyAny_total_bound pubs wire host now :
  VerifyAny pubs wire host now ≠ Err EPanic ∧
  ∀ e, VerifyAny pubs wire host now = Ok e →
    (∃ pub, pub ∈ pubs ∧ String.length pub = PublicKeySize ∧
       ed_check pub (signedBytes e) (e_Sig e) = true) ∧
    e_Host e = host ∧ host ≠ "" ∧ e_Nonce e ≠ "" ∧ e_Command e ≠ "".
Proof.
  split.
  - unfold VerifyAny. case_bool_decide; [done|]. destruct (existsb _ _) eqn:Hsz; [done|].
    case_bool_decide; [done|]. destruct (RawURLDecode _); [|done].
    destruct (json_unmarshal_env _); [|done]. rewrite verify_any_total by done. simpl.
    go_split; done.
  - intros e He. pose proof He as (_ & (pub & Hpub & Hck) & ? & ? & ? & ? & _)%VerifyAny_Ok.
    split_and!; try done. exists pub. split_and!; try done.
    unfold VerifyAny in He. case_bool_decide; [done|]. destruct (existsb _ _) eqn:Hsz; [done|].
    rewrite <-not_true_iff_false, existsb_exists in Hsz.
    destruct (String.length pub =? PublicKeySize)%nat eqn:Hl; [by apply Nat.eqb_eq|].
    exfalso. apply Hsz. exists pub. rewrite Hl. split; [by apply list_elem_of_In|done].
Qed.

(** An accepted envelope was issued: if every message the pinned keys
    authenticate is the signed byte string of an envelope the signer issued
    (no forgery), then whatever a broker puts on the wire, the command a host
    accepts, its host, nonce and expiry are those of one issued envelope; the
    four fields cannot be recombined from several. *)
Theorem VerifyAny_sound (issued : list Envelope) pubs wire host now e :
  (∀ pub m s, pub ∈ pubs → ed_check pub m s = true → ∃ e0, e0 ∈ issued ∧ m = signedBytes e0) →
  (∀ e0, e0 ∈ issued → go_envelope e0) → go_envelope e →
  VerifyAny pubs wire host now = Ok e →
  ∃ e0, e0 ∈ issued ∧ same_authorization e0 e ∧ e_Host e0 = host.
Proof.
  intros Hunf Hgo Hge (_ & (pub & Hpub & Hck) & Hh & _)%VerifyAny_Ok.
  destruct (Hunf _ _ _ Hpub Hck) as (e0 & He0 & Hs). exists e0.
  assert (same_authorization e0 e) as Hsame by (apply signedBytes_inj; auto).
  split_and!; [done|done|]. destruct Hsame as (_ & -> & _). done.
Qed.

(** *** Round trip *)

Lemma url_char_plain c : url_char c = true → plain_char c = true.
Proof.
  assert (H : forallb (fun n => implb (url_char (ascii_of_nat n)) (plain_char (ascii_of_nat n)))
                (seq 0 256) = true) by (vm_compute; reflexivity).
  intros Hc. rewrite forallb_forall in H. specialize (H (nat_of_ascii c)).
  rewrite ascii_nat_embedding, Hc in H. apply H. apply in_seq. pose proof (nat_ascii_bounded c). lia.
Qed.

Lemma wire_decodes s : RawURLDecode (TrimSpace (RawURLEncode s)) = Some s.
Proof.
  rewrite TrimSpace_plain; [apply RawURL_roundtrip|].
  eapply forall_char_impl; [apply url_char_plain|apply RawURLEncode_chars].
Qed.

(** Every envelope [Sign] returns is accepted, unchanged, by every verifier that
    pins the signer's public key among others of the right size. *)
Lemma Sign_VerifyAny nonce key host command ttl now wire pubs t :
  Sign (Some nonce) key host command ttl now = Ok wire →
  let e := fresh_envelope key nonce host command ttl now in
  json_unmarshal_env (json_marshal_env e) = Some e →
  ed_check (ed_public key) (signedBytes e) (e_Sig e) = true →
  nonce ≠ "" → ed_public key ∈ pubs → Forall (fun p => String.length p = PublicKeySize) pubs →
  Unix (now + ttl) - 300 ≤ Unix t ≤ Unix (now + ttl) →
  VerifyAny pubs wire host t = Ok e.
Proof.
  intros Hs e Hjson Hsig Hn Hin Hsz Ht. unfold Sign in Hs.
  destruct (_ =? _)%nat; simpl in Hs; [|done]. case_bool_decide; [done|].
  case_bool_decide; [done|]. destruct (_ || _); [done|]. injection Hs as <-. fold e.
  unfold VerifyAny. rewrite bool_decide_eq_false_2 by (intros ->; set_solver).
  assert (existsb (fun p => negb (String.length p =? PublicKeySize)%nat) pubs = false) as Hall.
  { apply not_true_iff_false. rewrite existsb_exists. intros (p & Hp & Hb).
    apply list_elem_of_In in Hp. rewrite Forall_forall in Hsz. by rewrite (Hsz p Hp) in Hb. }
  rewrite Hall, bool_decide_eq_false_2, wire_decodes, Hjson, verify_any_total by done. cbn [rbind].
  assert (existsb (fun p => ed_check p (signedBytes e) (e_Sig e)) pubs = true) as ->.
  { apply existsb_exists. exists (ed_public key). split; [by apply list_elem_of_In|done]. }
  simpl. rewrite (bool_decide_eq_false_2 (host ≠ host)) by auto.
  assert (hex_EncodeToString nonce ≠ "") as Hhex.
  { destruct (hex_EncodeToString_spec nonce) as [Hl _]. intros Heq. rewrite Heq in Hl.
    destruct nonce; [done|]. simpl in Hl. lia. }
  rewrite (bool_decide_eq_false_2 (hex_EncodeToString nonce = "")), bool_decide_eq_false_2 by done.
  rewrite (proj2 (Z.ltb_ge _ _)) by lia. change (MaxTTL / Second) with 300.
  rewrite wrap64_id by (unfold int64; lia). rewrite (proj2 (Z.ltb_ge _ _)) by lia. done.
Qed.

Lemma RawURLEncode_nonempty s : s ≠ "" → TrimSpace (RawURLEncode s) ≠ "".
Proof.
  intros Hs Hw. pose proof (wire_decodes s) as H. rewrite Hw in H. vm_compute in H. naive_solver.
Qed.

(** *** The pinned-key file *)

Definition key_line (line : string) : bool := negb (bool_decide (line = "") || HasPrefix line "#").

Lemma parse_lines_Ok n lines keys :
  parse_lines n lines = Ok keys ↔
  map_each ParsePublicKey (List.filter key_line (map TrimSpace lines)) = Ok keys.
Proof.
  revert n keys. induction lines as [|l lines IH]; intros n keys; simpl; [done|].
  unfold key_line at 1. destruct (_ || _); simpl; [apply IH|].
  destruct (ParsePublicKey _) as [key|e]; simpl; [|done].
  destruct (parse_lines (S n) lines) as [ks|] eqn:Hp; simpl.
  - apply IH in Hp. rewrite Hp. done.
  - split; [done|]. intros (ks & Hks & _)%rbind_Ok. apply (IH (S n)) in Hks. congruence.
Qed.

Lemma ParsePublicKeys_sizes s keys :
  ParsePublicKeys s = Ok keys → Forall (fun p => String.length p = PublicKeySize) keys.
Proof.
  unfold ParsePublicKeys. intros (ks & Hks & H)%rbind_Ok. case_bool_decide; [done|]. injection H as ->.
  apply parse_lines_Ok, map_each_Ok in Hks. clear -Hks.
  induction Hks as [|line key ? ? Hk _ IH]; constructor; [|done]. unfold ParsePublicKey in Hk.
  destruct (StdDecode _); [|done]. destruct (_ =? _)%nat eqn:Hl; simplify_eq. by apply Nat.eqb_eq.
Qed.

(** Key pinning fails closed: a pinned-key file is accepted exactly when
    every line that is neither blank nor a comment is a valid 32-byte key, and
    there is at least one; the keys are then exactly those lines, in order. One
    damaged line rejects the whole file. *)
Theorem ParsePublicKeys_exact s keys :
  ParsePublicKeys s = Ok keys ↔
  keys ≠ [] ∧
  Forall2 (fun line key => ParsePublicKey line = Ok key ∧ String.length key = PublicKeySize)
    (List.filter key_line (map TrimSpace (Split s (byte_chr 10)))) keys.
Proof.
  unfold ParsePublicKeys. split.
  - intros (ks & Hks & H)%rbind_Ok. case_bool_decide; [done|]. injection H as ->. split; [done|].
    apply parse_lines_Ok, map_each_Ok in Hks. eapply Forall2_impl; [exact Hks|]. simpl.
    intros line key Hk. split; [done|]. unfold ParsePublicKey in Hk. destruct (StdDecode _); [|done].
    destruct (_ =? _)%nat eqn:Hl; simplify_eq. by apply Nat.eqb_eq.
  - intros [Hne Hf]. assert (parse_lines 1 (Split s (byte_chr 10)) = Ok keys) as ->.
    { apply parse_lines_Ok, map_each_Ok. eapply Forall2_impl; [exact Hf|]. by intros ? ? [? _]. }
    simpl. by rewrite bool_decide_eq_false_2.
Qed.
End verification.

(** ** Concrete instances *)

(** A toy scheme in which a signature is the public half of the key followed by
    the message, and one that authenticates a single message. *)
Definition toy_ed25519 : Ed25519 := {|
  ed_public k := String.substring 0 32 k;
  ed_sign k m := String.substring 0 32 k +:+ m;
  ed_check p m s := bool_decide (s = p +:+ m);
  ed_fromSeed s := s +:+ s;
|}.
Definition one_message_ed25519 (m0 : string) : Ed25519 := {|
  ed_public k := String.substring 0 32 k;
  ed_sign k m := m;
  ed_check _ m _ := bool_decide (m = m0);
  ed_fromSeed s := s +:+ s;
|}.
(** A codec that knows one envelope. *)
Definition fixed_json (e0 : Envelope) : EnvelopeJSON := {|
  json_marshal_env _ := "envelope";
  json_unmarshal_env _ := Some e0;
|}.

Definition sample_seed : string := "0123456789abcdef0123456789abcdef".
Definition sample_key : string := sample_seed +:+ sample_seed.
Definition sample_nonce : string := "abcdefghijklmnop".
Definition sample_now : time := 1700000000 * Second.
Definition sample_envelope : Envelope :=
  @fresh_envelope toy_ed25519 sample_key sample_nonce "web1" "systemctl restart nginx" DefaultTTL sample_now.

Lemma VerifyAny_sound_witness :
  ∃ e0, e0 ∈ [sample_envelope] ∧ same_authorization e0 sample_envelope ∧ e_Host e0 = "web1".
Proof.
  apply (@VerifyAny_sound (one_message_ed25519 (signedBytes sample_envelope)) (fixed_json sample_envelope)
           [sample_envelope] [sample_seed] (RawURLEncode "envelope") "web1" sample_now).
  - intros pub m s _ Hm. exists sample_envelope. split; [by left|]. by apply bool_decide_eq_true in Hm.
  - intros e0 ->%list_elem_of_singleton. vm_compute. done.
  - vm_compute. done.
  - vm_compute. reflexivity.
Defined.

Example parse_rotation_file :
  ParsePublicKeys ("# pinned" +:+ String (byte_chr 10) (PublicKeyString sample_seed +:+ String (byte_chr 10) ""))
  = Ok [sample_seed].
Proof. vm_compute. reflexivity. Qed.
