(* ===== verification/Shim.v ===== *)
(** * The host-side shim

    [cmd/infrabroker-shim/main.go]: the checks that stand between an envelope
    and [/bin/sh], and the nonce directory that makes an envelope single-use.
    sshd starts one shim per channel, so any number of them run at once; the
    second half is a transition system of concurrent shims over one directory,
    one step per file operation. *)

From stdpp Require Import relations.
From S2P Require Import Prelude GoStrings Encoding Crypto Sealed.

Inductive shim_error :=
| ENoEnvelope
| EReadKey
| ESealed (e : sealed_error)
| EBadNonce (nonce : string)
| ENonceStore
| EReplay
| EClaim
| ECloseNonce
| EArgs.

(** [regexp] [^[0-9a-f]{16,64}$]. *)
Definition nonceRe (s : string) : bool :=
  forall_char is_hex s && (16 <=? String.length s)%nat && (String.length s <=? 64)%nat.

(** The nonce directory: file name to modification time. *)
Abbreviation nonce_dir := (gmap string time).

(** Outcomes of the file operations of one run; [sv_clock] is the clock when the
    nonce file is created, its modification time. *)
Record shim_env := mkShimEnv {
  sv_keyfile : option string;
  sv_mkdirok : bool;
  sv_readdirok : bool;
  sv_infook : string → bool;
  sv_removeok : string → bool;
  sv_openok : bool;
  sv_closeok : bool;
  sv_clock : time;
}.

(** A nonce file old enough to sweep. *)
Definition stale (now mtime : time) : bool := 2 * MaxTTL <? now - mtime.

Definition sweepNonces (env : shim_env) (dir : nonce_dir) (now : time) : nonce_dir :=
  if sv_readdirok env then
    filter (fun kv => ¬ Is_true (sv_infook env kv.1 && stale now kv.2 && sv_removeok env kv.1)) dir
  else dir.

(** [O_CREATE|O_EXCL]. *)
Definition create_excl (env : shim_env) (dir : nonce_dir) (nonce : string) : result shim_error nonce_dir :=
  match dir !! nonce with
  | Some _ => Err EReplay
  | None => if sv_openok env then Ok (<[nonce := sv_clock env]> dir) else Err EClaim
  end.

Definition claimNonce (env : shim_env) (dir : nonce_dir) (nonce : string) (now : time) :
    result shim_error unit * nonce_dir :=
  if negb (sv_mkdirok env) then (Err ENonceStore, dir)
  else
    let dir := sweepNonces env dir now in
    match create_excl env dir nonce with
    | Err e => (Err e, dir)
    | Ok dir' => ((if sv_closeok env then Ok () else Err ECloseNonce), dir')
    end.

Section operations.
Context `{ED : Ed25519} `{EJ : EnvelopeJSON}.

(** The part of [authorize] before the nonce is claimed. *)
Definition check_envelope (keyfile : option string) (expectedHost wire : string) (now : time) :
    result shim_error Envelope :=
  if bool_decide (TrimSpace wire = "") then Err ENoEnvelope
  else match keyfile with
  | None => Err EReadKey
  | Some raw =>
      let! pubs := rmap_err ESealed (ParsePublicKeys raw) in
      let! env := rmap_err ESealed (VerifyAny pubs wire expectedHost now) in
      if nonceRe (e_Nonce env) then Ok env else Err (EBadNonce (e_Nonce env))
  end.

Definition authorize (env : shim_env) (dir : nonce_dir) (expectedHost wire : string) (now : time) :
    result shim_error string * nonce_dir :=
  match check_envelope (sv_keyfile env) expectedHost wire now with
  | Err e => (Err e, dir)
  | Ok e =>
      match claimNonce env dir (e_Nonce e) now with
      | (Err err, dir') => (Err err, dir')
      | (Ok _, dir') => (Ok (e_Command e), dir')
      end
  end.

(** [main]: what is handed to [/bin/sh -c], or a refusal. *)
Definition shim_main (env : shim_env) (dir : nonce_dir) (args : list string) (original : string)
    (now : time) : result shim_error string * nonce_dir :=
  match args with
  | [host] => authorize env dir host original now
  | _ => (Err EArgs, dir)
  end.

(** ** Concurrent shims *)

(** A running shim: the clock it read at start, the envelope it verified then
    and the stale files it has seen and not removed yet. *)
Record proc := mkProc { p_now : time; p_env : Envelope; p_doomed : gset string }.

(** [st_accepted]: the (nonce, expiry, creation time) of every successful claim. *)
Record shim_state := mkShimState {
  st_clock : time;
  st_dir : nonce_dir;
  st_procs : gmap nat proc;
  st_accepted : list (string * Z * time);
}.

Context (keyfile : string) (host : string).

(** The longest a shim may take from reading the clock to creating its nonce
    file. *)
Definition MaxStall : duration := 299 * Second.

Inductive shim_step : shim_state → shim_state → Prop :=
| StepTick st t :
    st_clock st ≤ t →
    shim_step st (mkShimState t (st_dir st) (st_procs st) (st_accepted st))
| StepStart st pid wire e :
    st_procs st !! pid = None →
    check_envelope (Some keyfile) host wire (st_clock st) = Ok e →
    shim_step st (mkShimState (st_clock st) (st_dir st)
      (<[pid := mkProc (st_clock st) e ∅]> (st_procs st)) (st_accepted st))
| StepInfo st pid p name mtime :
    st_procs st !! pid = Some p → st_dir st !! name = Some mtime →
    stale (p_now p) mtime = true →
    shim_step st (mkShimState (st_clock st) (st_dir st)
      (<[pid := mkProc (p_now p) (p_env p) ({[name]} ∪ p_doomed p)]> (st_procs st)) (st_accepted st))
| StepRemove st pid p name :
    st_procs st !! pid = Some p → name ∈ p_doomed p →
    shim_step st (mkShimState (st_clock st) (delete name (st_dir st))
      (<[pid := mkProc (p_now p) (p_env p) (p_doomed p ∖ {[name]})]> (st_procs st)) (st_accepted st))
| StepClaim st pid p env dir' :
    st_procs st !! pid = Some p → sv_clock env = st_clock st →
    st_clock st - p_now p ≤ MaxStall →
    create_excl env (st_dir st) (e_Nonce (p_env p)) = Ok dir' →
    shim_step st (mkShimState (st_clock st) dir' (delete pid (st_procs st))
      ((e_Nonce (p_env p), e_Expiry (p_env p), st_clock st) :: st_accepted st))
| StepExit st pid :
    shim_step st (mkShimState (st_clock st) (st_dir st) (delete pid (st_procs st)) (st_accepted st)).

Definition shim_init (t : time) : shim_state := mkShimState t ∅ ∅ [].

(** *** Invariant *)

(** The signer never issues two envelopes with one nonce: envelopes the host
    accepts with equal nonces have equal expiries. *)
Definition nonces_unique : Prop :=
  ∀ w1 t1 e1 w2 t2 e2,
    check_envelope (Some keyfile) host w1 t1 = Ok e1 → check_envelope (Some keyfile) host w2 t2 = Ok e2 →
    e_Nonce e1 = e_Nonce e2 → e_Expiry e1 = e_Expiry e2.

Record shim_inv (st : shim_state) : Prop := mkShimInv {
  inv_clock : 0 ≤ st_clock st;
  inv_proc : ∀ pid p, st_procs st !! pid = Some p →
    p_now p ≤ st_clock st ∧ Unix (p_now p) ≤ e_Expiry (p_env p) ≤ Unix (p_now p) + 300 ∧
    ∃ w, check_envelope (Some keyfile) host w (p_now p) = Ok (p_env p);
  inv_accepted : ∀ n x c, (n, x, c) ∈ st_accepted st →
    x ≤ Unix c + 300 ∧ (st_clock st ≤ c + 2 * MaxTTL → st_dir st !! n = Some c) ∧
    (∃ w t e, check_envelope (Some keyfile) host w t = Ok e ∧ e_Nonce e = n ∧ e_Expiry e = x);
  inv_doomed : ∀ pid p n x c, st_procs st !! pid = Some p → n ∈ p_doomed p →
    (n, x, c) ∈ st_accepted st → c + 2 * MaxTTL < p_now p;
  inv_dir : ∀ n t, st_dir st !! n = Some t → ∃ x, (n, x, t) ∈ st_accepted st;
  inv_seen : ∀ pid p n, st_procs st !! pid = Some p → n ∈ p_doomed p →
    ∃ x c, (n, x, c) ∈ st_accepted st;
  inv_nodup : NoDup ((fun a => a.1.1) <$> st_accepted st);
}.

(** The decoder stores the expiry in an [int64]. *)
Definition expiry_int64 : Prop := ∀ js e, json_unmarshal_env js = Some e → int64 (e_Expiry e).

(** From the epoch on, the expiry arithmetic does not wrap. *)
Lemma check_envelope_window w t e :
  expiry_int64 → 0 ≤ t → check_envelope (Some keyfile) host w t = Ok e →
  Unix t ≤ e_Expiry e ≤ Unix t + 300.
Proof.
  intros Hint Ht. unfold check_envelope. case_bool_decide; [done|].
  intros (pubs & _ & (e' & He & Hn)%rbind_Ok)%rbind_Ok. destruct (nonceRe _); simplify_eq.
  unfold rmap_err in He. destruct (VerifyAny _ _ _ _) eqn:Hv; simplify_eq.
  apply VerifyAny_Ok in Hv as ((js & _ & Hjs) & _ & _ & _ & _ & _ & Hlo & Hhi).
  apply Hint in Hjs. unfold int64 in Hjs.
  assert (0 ≤ Unix t) by (apply Z.div_pos; unfold Second; lia).
  rewrite wrap64_id in Hhi by (unfold int64; lia). lia.
Qed.

Lemma shim_init_inv t : 0 ≤ t → shim_inv (shim_init t).
Proof. intros. constructor; simpl; try set_solver; constructor. Qed.

Lemma accepted_once (l : list (string * Z * time)) :
  NoDup ((fun a => a.1.1) <$> l) → ∀ n x c x' c', (n, x, c) ∈ l → (n, x', c') ∈ l → c = c'.
Proof.
  induction l as [|[[n0 x0] c0] l IH]; intros Hnd n x c x' c'; [set_solver|].
  rewrite fmap_cons in Hnd. apply NoDup_cons in Hnd as [Hn Hnd]. rewrite list_elem_of_fmap in Hn.
  intros [H1|H1]%elem_of_cons [H2|H2]%elem_of_cons; simplify_eq; [done|..].
  - destruct Hn. by exists (n0, x', c').
  - destruct Hn. by exists (n0, x, c).
  - by eapply IH.
Qed.

(** A nonce whose envelope still verifies has its file in place. *)
Lemma claim_is_fresh st pid p x c :
  nonces_unique → shim_inv st → st_procs st !! pid = Some p →
  st_clock st - p_now p ≤ MaxStall → st_dir st !! e_Nonce (p_env p) = None →
  (e_Nonce (p_env p), x, c) ∉ st_accepted st.
Proof.
  intros Huniq Hinv Hp Hstall Hdir Hin.
  destruct (inv_proc _ Hinv _ _ Hp) as (Hle & [Hlo Hhi] & w & Hw).
  destruct (inv_accepted _ Hinv _ _ _ Hin) as (Hx & Hin' & w' & t' & e' & Hw' & Hn & He).
  assert (e_Expiry (p_env p) = x) as Heq by (rewrite <-He; by eapply Huniq).
  destruct (decide (st_clock st ≤ c + 2 * MaxTTL)) as [Hc|Hc].
  - rewrite Hin' in Hdir; done.
  - assert (Unix (p_now p) ≤ Unix c + 300) by lia.
    assert (p_now p < c + 301 * Second).
    { unfold Unix, Second in *. Z.to_euclidean_division_equations. lia. }
    unfold MaxStall, MaxTTL, Minute, Second in *. lia.
Qed.

Lemma shim_step_inv st st' :
  nonces_unique → expiry_int64 → shim_step st st' → shim_inv st → shim_inv st'.
Proof.
  intros Huniq Hint Hstep Hinv. pose proof Hinv as [Hck Hpr Hac Hdo Hdi Hse Hnd].
  destruct Hstep as [st t Ht|st pid wire e Hnone Hchk|st pid p name mtime Hp Hname Hst
    |st pid p name Hp Hdoom|st pid p env dir' Hp Hclk Hstall Hcr|st pid].
  - constructor; simpl; try done; [lia| |].
    + intros pid p Hp. destruct (Hpr _ _ Hp) as (? & ? & ?). split_and!; [lia|lia|lia|done].
    + intros n x c Hin. destruct (Hac _ _ _ Hin) as (? & H & ?). split_and!; [done| |done].
      intros. apply H. lia.
  - constructor; simpl; try done.
    + intros pid' p [[<- <-]|[_ Hp]]%lookup_insert_Some; [|eauto]. simpl.
      split_and!; [lia| |eauto..]; eapply check_envelope_window; eauto.
    + intros pid' p n x c [[<- <-]|[_ Hp]]%lookup_insert_Some Hn; [set_solver|eauto].
    + intros pid' p n [[<- <-]|[_ Hp]]%lookup_insert_Some Hn; [set_solver|eauto].
  - unfold stale in Hst. unbool. constructor; simpl; try done.
    + intros pid' p' [[<- <-]|[_ Hp']]%lookup_insert_Some; [|eauto]. simpl. eauto.
    + intros pid' p' n x c [[<- <-]|[_ Hp']]%lookup_insert_Some Hn Hin; [|eauto]. simpl in *.
      apply elem_of_union in Hn as [->%elem_of_singleton|Hn]; [|eauto].
      destruct (decide (st_clock st ≤ c + 2 * MaxTTL)) as [Hc|Hc].
      * destruct (Hac _ _ _ Hin) as (_ & H & _). rewrite H in Hname by done. simplify_eq. lia.
      * destruct (Hdi _ _ Hname) as [x' Hin'].
        assert (mtime = c) as ->; [|lia].
        by apply (accepted_once _ Hnd) with (1 := Hin') in Hin.
    + intros pid' p' n [[<- <-]|[_ Hp']]%lookup_insert_Some Hn; [|eauto]. simpl in *.
      apply elem_of_union in Hn as [->%elem_of_singleton|Hn]; [|eauto].
      destruct (Hdi _ _ Hname). eauto.
  - destruct (Hpr _ _ Hp) as (Hle & _).
    constructor; simpl; try done.
    + intros pid' p' [[<- <-]|[_ Hp']]%lookup_insert_Some; [|eauto]. simpl. eauto.
    + intros n x c Hin. destruct (Hac _ _ _ Hin) as (? & H & ?). split_and!; [done| |done].
      intros Hc. destruct (decide (n = name)) as [->|]; [|rewrite lookup_delete_ne by done; auto].
      pose proof (Hdo _ _ _ _ _ Hp Hdoom Hin). lia.
    + intros pid' p' n x c [[<- <-]|[_ Hp']]%lookup_insert_Some Hn Hin; [|eauto]. simpl in *.
      eapply Hdo; [exact Hp| |exact Hin]. set_solver.
    + intros n t [? ?]%lookup_delete_Some. eauto.
    + intros pid' p' n [[<- <-]|[_ Hp']]%lookup_insert_Some Hn; [|eauto]. simpl in *.
      eapply Hse; [exact Hp|]. set_solver.
  - unfold create_excl in Hcr. destruct (st_dir st !! _) eqn:Hdir; [done|].
    destruct (sv_openok env); [|done]. injection Hcr as <-. rewrite Hclk.
    assert (Hfresh : ∀ x c, (e_Nonce (p_env p), x, c) ∉ st_accepted st)
      by (intros; by eapply claim_is_fresh).
    destruct (Hpr _ _ Hp) as (Hle & Hwin & w & Hw).
    constructor; simpl; try done.
    + intros pid' p' [_ Hp']%lookup_delete_Some. eauto.
    + intros n x c [[= -> -> ->]|Hin]%elem_of_cons.
      * split_and!; [|by rewrite lookup_insert_eq|eauto 10].
        pose proof (Unix_mono _ _ Hle). lia.
      * destruct (Hac _ _ _ Hin) as (? & H & ?). split_and!; [done| |done].
        intros Hc. rewrite lookup_insert_ne; [auto|]. intros <-. by eapply Hfresh.
    + intros pid' p' n x c [_ Hp']%lookup_delete_Some Hn [[= -> -> ->]|Hin]%elem_of_cons; [|eauto].
      destruct (Hse _ _ _ Hp' Hn) as (x & c & Hin). by apply Hfresh in Hin.
    + intros n t [[<- <-]|[_ Hn]]%lookup_insert_Some; [eexists; by left|].
      destruct (Hdi _ _ Hn) as [x ?]. exists x. by right.
    + intros pid' p' n [_ Hp']%lookup_delete_Some Hn.
      destruct (Hse _ _ _ Hp' Hn) as (x & c & ?). exists x, c. by right.
    + constructor; [|done]. intros ([[n x] c] & Heq & Hin)%list_elem_of_fmap. simpl in Heq.
      subst. by eapply Hfresh.
  - constructor; simpl; try done.
    + intros pid' p [_ Hp]%lookup_delete_Some. eauto.
    + intros pid' p n x c [_ Hp]%lookup_delete_Some. eauto.
    + intros pid' p n [_ Hp]%lookup_delete_Some. eauto.
Qed.

(** *** A whole run is a path of steps *)

Definition with_dir (dir : nonce_dir) (st : shim_state) : shim_state :=
  mkShimState (st_clock st) dir (st_procs st) (st_accepted st).

Lemma sweep_steps st pid p names :
  st_procs st !! pid = Some p → p_doomed p = ∅ →
  (∀ n, n ∈ names → ∃ m, st_dir st !! n = Some m ∧ stale (p_now p) m = true) → NoDup names →
  rtc shim_step st (with_dir (foldl (fun d n => delete n d) (st_dir st) names) st).
Proof.
  intros Hp Hd Hn Hnd. revert st Hp Hn. induction Hnd as [|n names Hnotin _ IH]; intros st Hp Hn.
  { by destruct st. }
  destruct (Hn n) as (m & Hm & Hs); [by left|].
  eapply rtc_l; [by eapply (StepInfo st pid p n m)|].
  eapply rtc_l.
  { eapply (StepRemove _ pid _ n); simpl; [apply lookup_insert_eq|]. simpl. set_solver. }
  simpl. rewrite insert_insert_eq, Hd.
  assert (<[pid := mkProc (p_now p) (p_env p) (({[n]} ∪ ∅) ∖ {[n]})]> (st_procs st) = st_procs st) as ->.
  { apply insert_id. rewrite Hp. f_equal. destruct p; simpl in *. subst. f_equal. set_solver. }
  specialize (IH (with_dir (delete n (st_dir st)) st)). unfold with_dir in *. simpl in IH.
  apply IH; [done|]. intros k Hk. destruct (Hn k) as (mk & Hmk & Hsk); [by right|]. exists mk. split; [|done].
  rewrite lookup_delete_ne; [done|]. by intros ->.
Qed.

Lemma foldl_delete (d : nonce_dir) names n :
  foldl (fun d n => delete n d) d names !! n = if decide (n ∈ names) then None else d !! n.
Proof.
  revert d. induction names as [|k names IH]; intros d; simpl; [done|]. rewrite IH.
  repeat case_decide; try set_solver; destruct (decide (n = k)) as [->|];
    rewrite ?lookup_delete_eq, ?lookup_delete_ne by done; set_solver.
Qed.

Lemma sweepNonces_deletes env dir now :
  ∃ names, NoDup names ∧ (∀ n, n ∈ names → ∃ m, dir !! n = Some m ∧ stale now m = true) ∧
    foldl (fun d n => delete n d) dir names = sweepNonces env dir now.
Proof.
  unfold sweepNonces. destruct (sv_readdirok env); [|exists []; split_and!; [constructor|set_solver|done]].
  set (P := fun kv : string * time => Is_true (sv_infook env kv.1 && stale now kv.2 && sv_removeok env kv.1)).
  exists ((map_to_list (filter P dir)).*1). split_and!.
  - apply NoDup_fst_map_to_list.
  - intros n ([n' m] & -> & Hin)%list_elem_of_fmap. apply elem_of_map_to_list, map_lookup_filter_Some in Hin.
    destruct Hin as [Hin HP]. exists m. split; [done|]. unfold P in HP. apply Is_true_true in HP.
    unbool. done.
  - apply map_eq. intros n. rewrite foldl_delete, map_lookup_filter.
    destruct (dir !! n) as [m|] eqn:Hn; simpl; [|by case_decide].
    case_decide as Hin.
    + apply list_elem_of_fmap in Hin as ([n' m'] & -> & Hin).
      apply elem_of_map_to_list, map_lookup_filter_Some in Hin as [? HP]. simplify_eq/=.
      rewrite option_guard_False; [done|]. auto.
    + rewrite option_guard_True; [done|]. intros HP. apply Hin, list_elem_of_fmap.
      exists (n, m). split; [done|]. apply elem_of_map_to_list, map_lookup_filter_Some. done.
Qed.

(** A successful [authorize], run alone between two readings of the clock, is a
    path of the transition system that ends in its directory and records its
    nonce. *)
Lemma authorize_steps env st pid wire cmd dir' :
  sv_keyfile env = Some keyfile → st_procs st !! pid = None →
  st_clock st ≤ sv_clock env ≤ st_clock st + MaxStall →
  authorize env (st_dir st) host wire (st_clock st) = (Ok cmd, dir') →
  ∃ e, check_envelope (Some keyfile) host wire (st_clock st) = Ok e ∧ e_Command e = cmd ∧
    rtc shim_step st (mkShimState (sv_clock env) dir' (st_procs st)
      ((e_Nonce e, e_Expiry e, sv_clock env) :: st_accepted st)).
Proof.
  intros Hkf Hpid Hclk. unfold authorize. rewrite Hkf.
  destruct (check_envelope _ _ _ _) as [e|] eqn:Hchk; [|done]. unfold claimNonce.
  destruct (sv_mkdirok env); simpl; [|done]. destruct (create_excl _ _ _) as [d|] eqn:Hcr; [|done].
  destruct (sv_closeok env); [|done]. intros [= <- <-]. exists e. split_and!; [done|done|].
  eapply rtc_l; [by eapply (StepStart st pid wire e)|].
  destruct (sweepNonces_deletes env (st_dir st) (st_clock st)) as (names & Hnd & Hst & Hsw).
  etrans; [eapply (sweep_steps _ pid _ names); simpl; [apply lookup_insert_eq|done|done|done]|].
  unfold with_dir. simpl. rewrite Hsw.
  eapply rtc_l; [eapply (StepTick _ (sv_clock env)); simpl; lia|]. simpl.
  eapply rtc_l; [eapply (StepClaim _ pid _ env d); simpl; [apply lookup_insert_eq|done|simpl; lia|done]|].
  simpl. rewrite delete_insert_id by done. apply rtc_refl.
Qed.

(** [C15] No replay: however many shims run at once, in whatever interleaving of
    their directory reads, removals and exclusive creations, no nonce is ever
    claimed twice on a host, so one envelope runs at most once. This needs the
    signer's nonces to be distinct and every shim to create its file within
    299 seconds of reading the clock. *)
Theorem envelope_single_use t st :
  nonces_unique → expiry_int64 → 0 ≤ t → rtc shim_step (shim_init t) st →
  NoDup ((fun a => a.1.1) <$> st_accepted st).
Proof.
  intros Huniq Hint Ht Hrtc. apply inv_nodup.
  assert (shim_inv (shim_init t)) as H0 by (by apply shim_init_inv). revert H0.
  induction Hrtc as [|? ? ? Hs _ IH]; [done|]. intros H0. apply IH. by eapply shim_step_inv.
Qed.

(** ** Issue to execution *)

Lemma hex_nonce_ok nonce : String.length nonce = 16%nat → nonceRe (hex_EncodeToString nonce) = true.
Proof.
  intros Hl. destruct (hex_EncodeToString_spec nonce) as [Hlen Hhex]. unfold nonceRe.
  by rewrite Hhex, Hlen, Hl.
Qed.

(** [C37] What the signer authorizes, the host runs: an envelope issued for this
    host under a key pinned in its key file, presented while the host's clock
    is no later than the expiry and at most five minutes before it, makes the
    shim run exactly the signed command, once its nonce file is created; the
    rest of the directory is only swept. *)
Theorem sealed_end_to_end env dir raw pubs nonce key command ttl now wire t :
  Sign (Some nonce) key host command ttl now = Ok wire →
  let e := fresh_envelope key nonce host command ttl now in
  json_marshal_env e ≠ "" → json_unmarshal_env (json_marshal_env e) = Some e →
  ed_check (ed_public key) (signedBytes e) (e_Sig e) = true →
  String.length nonce = 16%nat →
  sv_keyfile env = Some raw → ParsePublicKeys raw = Ok pubs → ed_public key ∈ pubs →
  Unix (now + ttl) - 300 ≤ Unix t ≤ Unix (now + ttl) →
  sv_mkdirok env = true → sv_openok env = true → sv_closeok env = true →
  dir !! hex_EncodeToString nonce = None →
  authorize env dir host wire t
  = (Ok command, <[hex_EncodeToString nonce := sv_clock env]> (sweepNonces env dir t)).
Proof.
  intros Hs e Hjne Hj Hed Hl Hkf Hparse Hin Ht Hmk Hop Hcl Hdir.
  assert (Hv : VerifyAny pubs wire host t = Ok e).
  { eapply Sign_VerifyAny; eauto; [by intros ->|by eapply ParsePublicKeys_sizes]. }
  unfold authorize, check_envelope. rewrite Hkf.
  assert (wire = RawURLEncode (json_marshal_env e)) as Hw.
  { unfold Sign in Hs. go_split. done. }
  rewrite bool_decide_eq_false_2 by (rewrite Hw; by apply RawURLEncode_nonempty).
  rewrite Hparse. cbn [rmap_err rbind]. rewrite Hv. cbn [rmap_err rbind].
  change (e_Nonce e) with (hex_EncodeToString nonce). rewrite hex_nonce_ok by done.
  unfold claimNonce. rewrite Hmk. cbn [negb]. unfold create_excl.
  change (e_Nonce e) with (hex_EncodeToString nonce).
  assert (sweepNonces env dir t !! hex_EncodeToString nonce = None) as ->.
  { unfold sweepNonces. destruct (sv_readdirok env); [|done]. apply map_lookup_filter_None. by left. }
  by rewrite Hop, Hcl.
Qed.
End operations.

(** ** Concrete runs *)

Definition good_env (raw : string) (clock : time) : shim_env :=
  mkShimEnv (Some raw) true true (fun _ => true) (fun _ => true) true true clock.
Definition sample_keyfile : string := PublicKeyString sample_seed.

Lemma sealed_end_to_end_witness :
  @authorize toy_ed25519 (fixed_json sample_envelope) (good_env sample_keyfile (sample_now + 2 * Second))
    (<["00112233445566778899aabbccddeeff" := sample_now - 20 * Minute]> ∅) "web1"
    (RawURLEncode "envelope") (sample_now + Second)
  = (Ok "systemctl restart nginx",
     {[ "6162636465666768696a6b6c6d6e6f70" := sample_now + 2 * Second ]}).
Proof.
  etrans; [apply (@sealed_end_to_end toy_ed25519 (fixed_json sample_envelope) "web1"
           (good_env sample_keyfile (sample_now + 2 * Second))
           (<["00112233445566778899aabbccddeeff" := sample_now - 20 * Minute]> ∅)
           sample_keyfile [sample_seed] sample_nonce sample_key "systemctl restart nginx" DefaultTTL sample_now
           (RawURLEncode "envelope") (sample_now + Second))|].
  all: try (vm_compute; reflexivity).
  - vm_compute. discriminate.
  - by left.
  - vm_compute. split; congruence.
Defined.

(** Every wire decodes to the one sample envelope, so nonces are unique. *)
Lemma sample_check_envelope w t e :
  @check_envelope toy_ed25519 (fixed_json sample_envelope) (Some sample_keyfile) "web1" w t = Ok e →
  e = sample_envelope.
Proof.
  unfold check_envelope. case_bool_decide; [done|].
  intros (pubs & _ & (e' & He & Hn)%rbind_Ok)%rbind_Ok. destruct (nonceRe _); simplify_eq.
  unfold rmap_err in He. destruct (VerifyAny _ _ _ _) eqn:Hv; simplify_eq.
  apply VerifyAny_Ok in Hv as ((js & _ & [= <-]) & _). done.
Qed.

(** A run in which the envelope is accepted, on a host where it is the only one. *)
Lemma envelope_single_use_witness :
  ∃ st, length (st_accepted st) = 1%nat ∧ NoDup ((fun a => a.1.1) <$> st_accepted st).
Proof.
  destruct (@authorize_steps toy_ed25519 (fixed_json sample_envelope) sample_keyfile "web1"
    (good_env sample_keyfile (sample_now + 2 * Second)) (shim_init (sample_now + Second)) 1%nat
    (RawURLEncode "envelope") "systemctl restart nginx"
    {[ "6162636465666768696a6b6c6d6e6f70" := sample_now + 2 * Second ]})
    as (e & He & _ & Hrtc); [done|done|vm_compute; split; congruence|vm_compute; reflexivity|].
  eexists. split; [|apply (@envelope_single_use toy_ed25519 (fixed_json sample_envelope) sample_keyfile
    "web1" (sample_now + Second) _); [| | |exact Hrtc]]; [done| | |vm_compute; congruence].
  - intros w1 t1 e1 w2 t2 e2 ->%sample_check_envelope ->%sample_check_envelope. done.
  - intros js e0 [= <-]. vm_compute. split; congruence.
Defined.
