(* ===== verification/HostPolicy.v ===== *)
(** * Host policies and their resolution

    [internal/signer/signer.go], first half: the host table and its compilation
    at load, the authorisation gates, the command-policy stage with runtime
    grants, and [resolve], which turns an intent into certificate constraints. *)

From S2P Require Import Prelude GoStrings CmdPolicy PolicySet K8sAction Intent Grants CA Encoding Elevate Crypto Sealed.

Record HostPolicy := mkHostPolicy {
  hp_Addr : string;
  hp_User : string;
  hp_HostKey : string;
  hp_Jump : string;
  hp_Principal : string;
  hp_SourceAddress : string;
  hp_MaxTTL : duration;
  hp_MaxTTLSeconds : Z;
  hp_AllowAsBastion : bool;
  hp_AllowedCallers : list string;
  hp_AllowSudo : bool;
  hp_AllowedSudoUsers : list string;
  hp_AllowPTY : bool;
  hp_AllowFileTransfer : bool;
  hp_Groups : list string;
  hp_SealedExec : bool;
  hp_CommandPolicy : CommandPolicy;
  hp_Policies : PolicySet;
}.
Abbreviation PolicyTable := (gmap string HostPolicy).

Definition no_policy : CommandPolicy := mkCommandPolicy "" "" [] [] [] None.
Definition zero_host : HostPolicy :=
  mkHostPolicy "" "" "" "" "" "" 0 0 false [] false [] false false [] false no_policy [].

Definition set_Policies (ps : PolicySet) (hp : HostPolicy) : HostPolicy :=
  mkHostPolicy (hp_Addr hp) (hp_User hp) (hp_HostKey hp) (hp_Jump hp) (hp_Principal hp)
    (hp_SourceAddress hp) (hp_MaxTTL hp) (hp_MaxTTLSeconds hp) (hp_AllowAsBastion hp)
    (hp_AllowedCallers hp) (hp_AllowSudo hp) (hp_AllowedSudoUsers hp) (hp_AllowPTY hp)
    (hp_AllowFileTransfer hp) (hp_Groups hp) (hp_SealedExec hp) (hp_CommandPolicy hp) ps.

(** Every error site of the resolution and of the compilation. *)
Inductive signer_error :=
| ELibraryPolicy (name : string) (e : cmd_error)
| EUnknownPolicyRef (group policy : string)
| EDanglingJump (host jump : string)
| EMaxTTLCap (host : string) (n : Z)
| EHostPolicy (host : string) (e : cmd_error)
| EBastionWithPolicy (host : string)
| ENoHost (host : string)
| EUnknownRole (role : string)
| EUnknownPurpose (purpose : string)
| ESealedMode
| EUnsafeIdentity
| ENewlineInCommand
| EEmptyOneshot
| ECallerNotAllowed
| EUserNotInGroups
| ENotABastion
| EPolicyHostAsBastion
| ESudoNotAllowed
| ESudoUserChars (user : string)
| ESudoUserNotListed (user : string)
| EPTYNotAllowed
| EFileTransferNotAllowed
| ESessionModeNotVerifiable
| ECommandPolicyError (e : cmd_error)
| ECommandDenied (rule : matched_rule)
| ESealedHostName (e : sealed_error).

Definition DefaultCallerKey : string := "_default".

(** [composePolicies]: the named policies of ["_default"] and of the host's
    groups, each once, then the inline policy when it restricts. *)
Fixpoint add_named (library : gmap string CommandPolicy) (names : list string)
    (st : gset string * PolicySet) : gset string * PolicySet :=
  match names with
  | [] => st
  | n :: names' =>
      let '(seen, set) := st in
      if bool_decide (n ∈ seen) then add_named library names' st
      else match library !! n with
      | Some cp => add_named library names' ({[n]} ∪ seen, set ++ [cp])
      | None => add_named library names' st
      end
  end.

Definition group_names (groupPolicies : gmap string (list string)) (g : string) : list string :=
  match groupPolicies !! g with Some names => names | None => [] end.

Definition composePolicies (hp : HostPolicy) (library : gmap string CommandPolicy)
    (groupPolicies : gmap string (list string)) : PolicySet :=
  let st := add_named library (group_names groupPolicies DefaultCallerKey) (∅, []) in
  let st := foldl (fun st g => add_named library (group_names groupPolicies g) st) st (hp_Groups hp) in
  if Restricts (hp_CommandPolicy hp) then st.2 ++ [hp_CommandPolicy hp] else st.2.

(** A nil [Policies] falls back to the inline policy; [composePolicies] never
    returns a non-nil empty slice, so nil is the empty list. *)
Definition effectivePolicies (hp : HostPolicy) : PolicySet :=
  match hp_Policies hp with
  | [] => if Restricts (hp_CommandPolicy hp) then [hp_CommandPolicy hp] else []
  | ps => ps
  end.

(** ** Authorisation gates *)

Definition GroupsIntersect (hostGroups userGroups : list string) : bool :=
  existsb (fun hg => existsb (fun ug => bool_decide (hg = ug)) userGroups) hostGroups.

Definition callerAllowed (allowed : list string) (caller : string) : bool :=
  match allowed with [] => true | _ => existsb (fun a => bool_decide (a = caller)) allowed end.

Definition AllowsCaller (hp : HostPolicy) (cn : string) : bool := callerAllowed (hp_AllowedCallers hp) cn.

(** A multi-byte rune is never a control character, so the rune loop is a byte
    loop. *)
Definition hasControlChar (s : string) : bool :=
  exists_char (fun c => (byte_of c <? 32) || (byte_of c =? 127)) s.
Definition HasUnsafeTokenChar (s : string) : bool :=
  hasControlChar s || exists_char (fun c => (byte_of c =? 32) || (byte_of c =? 9)) s.

Definition has_newline (s : string) : bool :=
  exists_char (fun c => (byte_of c =? 10) || (byte_of c =? 13)) s.

Definition is_oneshot_target (i : Intent) : bool :=
  bool_decide (in_Purpose i = PurposeOneshot) && bool_decide (in_Role i = RoleTarget).

Definition authorizeIntent (hp : HostPolicy) (i : Intent) : result signer_error unit :=
  guard! bool_decide (in_Role i = RoleTarget) || bool_decide (in_Role i = RoleBastion)
    else EUnknownRole (in_Role i) in
  guard! bool_decide (in_Purpose i = PurposeOneshot) || bool_decide (in_Purpose i = PurposeSession)
    else EUnknownPurpose (in_Purpose i) in
  guard! negb (hp_SealedExec hp && bool_decide (in_Purpose i = PurposeSession)
               && bool_decide (in_Role i = RoleTarget)
               && bool_decide (in_SessionMode i ≠ SessionModeExec)) else ESealedMode in
  guard! negb (HasUnsafeTokenChar (in_Caller i) || HasUnsafeTokenChar (in_EndUser i)
               || HasUnsafeTokenChar (in_EndUserContext i)) else EUnsafeIdentity in
  guard! negb (has_newline (in_Command i)
               && (bool_decide (in_Purpose i = PurposeOneshot) || ps_Restricts (effectivePolicies hp)))
    else ENewlineInCommand in
  guard! negb (is_oneshot_target i && bool_decide (TrimSpace (in_Command i) = ""))
    else EEmptyOneshot in
  guard! callerAllowed (hp_AllowedCallers hp) (in_Caller i) else ECallerNotAllowed in
  guard! (match in_EndUserGroups i with
          | None => true
          | Some gs => GroupsIntersect (hp_Groups hp) gs
          end) else EUserNotInGroups in
  guard! negb (bool_decide (in_Role i = RoleBastion) && negb (hp_AllowAsBastion hp)) else ENotABastion in
  guard! negb (bool_decide (in_Role i ≠ RoleTarget) && ps_Restricts (effectivePolicies hp))
    else EPolicyHostAsBastion in
  Ok ().

(** [resolveElevation]; the prefix is empty when there is no elevation. *)
Definition resolveElevation (hp : HostPolicy) (i : Intent) : result signer_error string :=
  if negb (in_Sudo i) then Ok ""
  else if bool_decide (in_Role i ≠ RoleTarget) then Ok ""
  else if negb (hp_AllowSudo hp) then Err ESudoNotAllowed
  else
    let sudoUser := if bool_decide (in_SudoUser i = "") then "root" else in_SudoUser i in
    guard! reValidUser sudoUser else ESudoUserChars sudoUser in
    guard! sudoUserAllowed (hp_AllowedSudoUsers hp) sudoUser else ESudoUserNotListed sudoUser in
    Ok (if bool_decide (sudoUser = "root") then "sudo -n" else "sudo -n -u " +:+ sudoUser).

(** ** The command-policy stage *)

(** [GrantProvider]: what the signer reads of the grant store. *)
Record GrantProvider := mkGrantProvider {
  gp_GrantsFor : string → Intent → time → PolicySet;
  gp_WaiverMatches : string → Intent → time → bool;
}.

(** The warning text of audit mode, by the action it reports and the rule. *)
Inductive audit_action := WAllow | WDeny | WApproval | WDenyAndApproval.
Abbreviation warning := (option (audit_action * matched_rule)).

Record commandPolicyResult := mkCPR {
  cr_RequireApproval : bool;
  cr_MatchedRule : matched_rule;
  cr_Enforcement : string;
  cr_Warning : warning;
  cr_WouldDeny : bool;
  cr_WouldRequireApproval : bool;
}.
Definition zero_cpr : commandPolicyResult := mkCPR false RuleNone "" None false false.

Definition commandPolicyWarning (wouldDeny wouldApprove : bool) (rule : matched_rule) : warning :=
  Some ((if wouldDeny && wouldApprove then WDenyAndApproval
         else if wouldDeny then WDeny
         else if wouldApprove then WApproval else WAllow), rule).

(** The readings of the clock on the path of one request. *)
Record clocks := mkClocks { ck_grants : time; ck_waiver : time; ck_keyid : time; ck_envelope : time }.

Definition set_audit (p : CommandPolicy) : CommandPolicy :=
  mkCommandPolicy (cp_Mode p) CmdPolicyAudit (cp_Allow p) (cp_Deny p) (cp_RequireApproval p) (cp_ShellParse p).

(** The policies actually evaluated: the host's, widened by its live grants
    when the baseline already has an allowlist. *)
Definition widened (hp : HostPolicy) (i : Intent) (grants : option GrantProvider) (now : time) : PolicySet :=
  let eff := effectivePolicies hp in
  match grants with
  | Some gp =>
      if hasAllowlist eff then
        let g := gp_GrantsFor gp (in_Host i) i now in
        if bool_decide (g = []) then eff
        else eff ++ (if bool_decide (Enforcement eff = CmdPolicyAudit) then set_audit <$> g else g)
      else eff
  | None => eff
  end.

Section evaluation.
Context `{RE : RegexpEngine} `{SP : ShellParser}.

(** The stage after the decision of the set. *)
Definition apply_decision (i : Intent) (grants : option GrantProvider) (ck : clocks) (enf : string)
    (d : decision) : commandPolicyResult * option signer_error :=
  let audit := bool_decide (enf = CmdPolicyAudit) in
  match d_err d with
  | Some e =>
      if audit then (mkCPR false (d_rule d) enf (commandPolicyWarning true false (d_rule d)) true false, None)
      else (mkCPR false (d_rule d) enf None false false, Some (ECommandPolicyError e))
  | None =>
      if negb (d_allowed d) then
        if audit then
          (mkCPR false (d_rule d) enf (commandPolicyWarning true (d_needsApproval d) (d_rule d)) true
             (d_needsApproval d), None)
        else (mkCPR false (d_rule d) enf None false false, Some (ECommandDenied (d_rule d)))
      else if d_needsApproval d
              && (match grants with Some gp => gp_WaiverMatches gp (in_Host i) i (ck_waiver ck) | None => false end)
      then (mkCPR false (RuleApprovalWaived (d_rule d)) enf None false false, None)
      else if d_needsApproval d then
        if audit then
          (mkCPR false (d_rule d) enf (commandPolicyWarning false true (d_rule d)) false true, None)
        else (mkCPR true (d_rule d) enf None false false, None)
      else (mkCPR false (d_rule d) enf None false false, None)
  end.

Definition resolveCommandPolicy (hp : HostPolicy) (i : Intent) (grants : option GrantProvider)
    (ck : clocks) : commandPolicyResult * option signer_error :=
  let eff := widened hp i grants (ck_grants ck) in
  if bool_decide (in_Role i ≠ RoleTarget) || negb (ps_Restricts eff) then (zero_cpr, None)
  else
    let enf := Enforcement eff in
    let res := mkCPR false RuleNone enf None false false in
    if bool_decide (in_Purpose i = PurposeSession) && bool_decide (in_SessionMode i ≠ SessionModeExec)
    then (res, Some ESessionModeNotVerifiable)
    else if bool_decide (in_Purpose i = PurposeSession) && bool_decide (in_Command i = "")
    then (res, None)
    else apply_decision i grants ck enf (Decide eff (in_Command i)).

(** ** Constraints *)

Definition opt_field (name value : string) : string :=
  if bool_decide (value = "") then "" else " " +:+ name +:+ "=" +:+ value.

Definition key_id (i : Intent) (elevationPrefix : string) (now : time) : string :=
  "agent=" +:+ in_Caller i +:+ " host=" +:+ in_Host i +:+ " role=" +:+ in_Role i
  +:+ " t=" +:+ FormatInt (Unix now)
  +:+ opt_field "user" (in_EndUser i) +:+ opt_field "ctx" (in_EndUserContext i)
  +:+ opt_field "elev" elevationPrefix +:+ (if in_PTY i then " pty=1" else "").

Definition buildConstraints (hp : HostPolicy) (i : Intent) (elevationPrefix : string) (ttl : duration)
    (now : time) : Constraints :=
  mkConstraints (hp_Principal hp) ttl (hp_SourceAddress hp) "" (bool_decide (in_Role i = RoleBastion))
    (in_PTY i) (key_id i elevationPrefix now).

Definition set_ForceCommand (fc : string) (c : Constraints) : Constraints :=
  mkConstraints (c_Principal c) (c_TTL c) (c_SourceAddress c) fc (c_AllowPortForwarding c) (c_AllowPTY c)
    (c_KeyID c).

Record Decision := mkDec {
  dc_Constraints : Constraints;
  dc_ElevationPrefix : string;
  dc_RequireApproval : bool;
  dc_MatchedRule : matched_rule;
  dc_Enforcement : string;
  dc_Warning : warning;
  dc_WouldDeny : bool;
  dc_WouldRequireApproval : bool;
  dc_K8sAction : option K8sAction;
}.
Definition zero_decision : Decision := mkDec zero_constraints "" false RuleNone "" None false false None.

Definition effectiveTTL (hp : HostPolicy) (i : Intent) (defaultMaxTTL : duration) : duration :=
  let maxTTL := if hp_MaxTTL hp <=? 0 then defaultMaxTTL else hp_MaxTTL hp in
  let ttl := in_RequestedTTL i in
  if (ttl <=? 0) || (maxTTL <? ttl) then maxTTL else ttl.

Definition resolve (p : PolicyTable) (i : Intent) (defaultMaxTTL : duration)
    (grants : option GrantProvider) (ck : clocks) : Decision * option signer_error :=
  match p !! in_Host i with
  | None => (zero_decision, Some (ENoHost (in_Host i)))
  | Some hp =>
  match authorizeIntent hp i with
  | Err e => (zero_decision, Some e)
  | Ok _ =>
  match resolveElevation hp i with
  | Err e => (zero_decision, Some e)
  | Ok elev =>
  if in_PTY i && negb (hp_AllowPTY hp) then (zero_decision, Some EPTYNotAllowed)
  else if in_FileTransfer i && negb (hp_AllowFileTransfer hp)
  then (zero_decision, Some EFileTransferNotAllowed)
  else
  let '(cp, err) := resolveCommandPolicy hp i grants ck in
  match err with
  | Some e =>
      (mkDec zero_constraints "" false (cr_MatchedRule cp) (cr_Enforcement cp) (cr_Warning cp)
         (cr_WouldDeny cp) (cr_WouldRequireApproval cp) None, Some e)
  | None =>
      let c := buildConstraints hp i elev (effectiveTTL hp i defaultMaxTTL) (ck_keyid ck) in
      let '(c, elev) :=
        if is_oneshot_target i then
          (set_ForceCommand (if bool_decide (elev ≠ "") then BuildElevatedCommand elev (in_Command i)
                             else in_Command i) c, "")
        else (c, elev) in
      let sealed :=
        if hp_SealedExec hp && bool_decide (c_ForceCommand c = "")
        then rmap_err ESealedHostName
               (let! fc := ForceCommand (in_Host i) in Ok (set_ForceCommand fc c))
        else Ok c in
      match sealed with
      | Err e => (zero_decision, Some e)
      | Ok c =>
          (mkDec c elev (cr_RequireApproval cp) (cr_MatchedRule cp) (cr_Enforcement cp) (cr_Warning cp)
             (cr_WouldDeny cp) (cr_WouldRequireApproval cp) None, None)
      end
  end end end end.

Definition Resolve (p : PolicyTable) (i : Intent) (defaultMaxTTL : duration) (ck : clocks) :
    Decision * option signer_error := resolve p i defaultMaxTTL None ck.

(** ** Compilation at load *)

Definition compile_host (hosts : PolicyTable) (library : gmap string CommandPolicy)
    (groupPolicies : gmap string (list string)) (kv : string * HostPolicy) :
    result signer_error (string * HostPolicy) :=
  let '(name, hp) := kv in
  guard! bool_decide (hp_Jump hp = "") || bool_decide (is_Some (hosts !! hp_Jump hp))
    else EDanglingJump name (hp_Jump hp) in
  guard! hp_MaxTTLSeconds hp <=? 900 else EMaxTTLCap name (hp_MaxTTLSeconds hp) in
  let! _ := rmap_err (EHostPolicy name) (Validate (hp_CommandPolicy hp)) in
  let hp := set_Policies (composePolicies hp library groupPolicies) hp in
  guard! negb (hp_AllowAsBastion hp && ps_Restricts (hp_Policies hp)) else EBastionWithPolicy name in
  Ok (name, hp).

Definition check_group (library : gmap string CommandPolicy) (kv : string * list string) :
    result signer_error unit :=
  for_each (fun n => if bool_decide (is_Some (library !! n)) then Ok () else Err (EUnknownPolicyRef kv.1 n))
    kv.2.

(** The [iter]s are the orders in which the three maps are ranged over; they
    decide which error is reported, not whether there is one. *)
Definition CompileHostPolicies (iterL : range_order CommandPolicy) (iterG : range_order (list string))
    (iterH : range_order HostPolicy) (hosts : PolicyTable) (library : gmap string CommandPolicy)
    (groupPolicies : gmap string (list string)) : result signer_error PolicyTable :=
  let! _ := for_each (fun kv => rmap_err (ELibraryPolicy kv.1) (Validate kv.2)) (iterL library) in
  let! _ := for_each (check_group library) (iterG groupPolicies) in
  let! out := map_each (compile_host hosts library groupPolicies) (iterH hosts) in
  Ok (list_to_map out).
End evaluation.

(** ** What the gates establish *)

Lemma guard_Ok {E A} (b : bool) (e : E) (k : result E A) x :
  (if b then k else Err e) = Ok x → b = true ∧ k = Ok x.
Proof. by destruct b. Qed.

Record authorized (hp : HostPolicy) (i : Intent) : Prop := mkAuthorized {
  au_role : in_Role i = RoleTarget ∨ in_Role i = RoleBastion;
  au_purpose : in_Purpose i = PurposeOneshot ∨ in_Purpose i = PurposeSession;
  au_sealed : hp_SealedExec hp = true → in_Purpose i = PurposeSession → in_Role i = RoleTarget →
    in_SessionMode i = SessionModeExec;
  au_safe : HasUnsafeTokenChar (in_Caller i) = false ∧ HasUnsafeTokenChar (in_EndUser i) = false ∧
    HasUnsafeTokenChar (in_EndUserContext i) = false;
  au_newline : in_Purpose i = PurposeOneshot ∨ ps_Restricts (effectivePolicies hp) = true →
    has_newline (in_Command i) = false;
  au_command : is_oneshot_target i = true → TrimSpace (in_Command i) ≠ "";
  au_caller : hp_AllowedCallers hp = [] ∨ in_Caller i ∈ hp_AllowedCallers hp;
  au_groups : ∀ gs, in_EndUserGroups i = Some gs → ∃ g, g ∈ hp_Groups hp ∧ g ∈ gs;
  au_bastion : in_Role i = RoleBastion → hp_AllowAsBastion hp = true;
  au_policy : ps_Restricts (effectivePolicies hp) = true → in_Role i = RoleTarget;
}.

Lemma GroupsIntersect_spec hs us : GroupsIntersect hs us = true ↔ ∃ g, g ∈ hs ∧ g ∈ us.
Proof.
  unfold GroupsIntersect. rewrite existsb_exists. setoid_rewrite existsb_exists.
  setoid_rewrite bool_decide_eq_true. setoid_rewrite <-list_elem_of_In. naive_solver.
Qed.

Lemma callerAllowed_spec l c : callerAllowed l c = true ↔ l = [] ∨ c ∈ l.
Proof.
  unfold callerAllowed. destruct l as [|a l]; [naive_solver|].
  rewrite existsb_exists. setoid_rewrite bool_decide_eq_true. setoid_rewrite <-list_elem_of_In.
  naive_solver.
Qed.

Lemma authorizeIntent_Ok hp i : authorizeIntent hp i = Ok () → authorized hp i.
Proof.
  unfold authorizeIntent. intros H.
  apply guard_Ok in H as [H1 H]. apply guard_Ok in H as [H2 H]. apply guard_Ok in H as [H3 H].
  apply guard_Ok in H as [H4 H]. apply guard_Ok in H as [H5 H]. apply guard_Ok in H as [H6 H].
  apply guard_Ok in H as [H7 H]. apply guard_Ok in H as [H8 H]. apply guard_Ok in H as [H9 H].
  apply guard_Ok in H as [H10 _].
  rewrite orb_true_iff, !bool_decide_eq_true in H1, H2.
  constructor.
  - done.
  - done.
  - intros Hs Hp Hr. rewrite Hs, Hp, Hr in H3. rewrite negb_true_iff, !andb_false_iff in H3.
    destruct H3 as [[[?|?]|?]|?]; try done. unbool. by apply dec_stable.
  - unbool. done.
  - intros Hor. rewrite negb_true_iff, andb_false_iff, orb_false_iff in H5. unbool.
    destruct H5 as [?|[H5 H5']]; [done|]. apply bool_decide_eq_false in H5. destruct Hor; congruence.
  - intros Ho. rewrite Ho in H6. simpl in H6. unbool. done.
  - by apply callerAllowed_spec.
  - intros gs Hgs. rewrite Hgs in H8. by apply GroupsIntersect_spec.
  - intros Hr. rewrite Hr in H9. destruct (hp_AllowAsBastion hp); done.
  - intros Hr. rewrite Hr, andb_true_r in H10. unbool. by apply dec_stable.
Qed.

(** ** Elevation *)

(** The words of the elevation prefix. *)
Definition elevation_words (i : Intent) : list string :=
  let u := if bool_decide (in_SudoUser i = "") then "root" else in_SudoUser i in
  if bool_decide (u = "root") then ["sudo"; "-n"] else ["sudo"; "-n"; "-u"; u].

Lemma safe_word_user u : reValidUser u = true → shellSafeWord u = true.
Proof.
  destruct u as [|c u]; simpl; [done|]. intros H. unbool. unfold shellSafeWord.
  rewrite bool_decide_eq_true_2 by done. simpl.
  assert (Hh : ∀ c, user_tail c = true → safe_char c = true).
  { unfold user_tail, user_head, safe_char, ContainsByte. intros x. simpl.
    unfold ascii_eqb. repeat case_bool_decide; subst; rewrite ?orb_true_r, ?orb_false_r; try done; intros ->; done. }
  rewrite Hh by (unfold user_tail; by match goal with H : user_head c = true |- _ => rewrite H end).
  simpl. by eapply forall_char_impl.
Qed.

(** A granted prefix is [sudo -n], or [sudo -n -u u] for a valid listed user. *)
Lemma resolveElevation_Ok hp i elev :
  resolveElevation hp i = Ok elev →
  elev = "" ∧ (in_Sudo i = false ∨ in_Role i ≠ RoleTarget) ∨
  in_Sudo i = true ∧ hp_AllowSudo hp = true ∧ elev = Join (elevation_words i) " " ∧
  prefix_words (elevation_words i) ∧
  sudoUserAllowed (hp_AllowedSudoUsers hp) (if bool_decide (in_SudoUser i = "") then "root" else in_SudoUser i) = true.
Proof.
  unfold resolveElevation, elevation_words. destruct (in_Sudo i); simpl; [|naive_solver].
  case_bool_decide; [naive_solver|]. destruct (hp_AllowSudo hp); simpl; [|done].
  set (u := if bool_decide (in_SudoUser i = "") then _ else _).
  intros [Hu [Ha [= <-]]%guard_Ok]%guard_Ok. right. split_and!; try done.
  - case_bool_decide; done.
  - split; [by case_bool_decide|]. case_bool_decide; repeat constructor. by apply safe_word_user.
Qed.

Lemma Join_nonempty_prefix ws : prefix_words ws → Join ws " " ≠ "".
Proof.
  intros [Hne Hall]. destruct ws as [|w ws]; [done|]. apply Forall_cons in Hall as [Hw _].
  destruct w; [done|]. by destruct ws.
Qed.

(** ** Grant providers *)

(** What the signer relies on: a grant contributes allow patterns only, and
    they compile. *)
Class WidenOnly `{RegexpEngine} (gp : GrantProvider) : Prop := {
  wo_allow_only : ∀ host i now, Forall allow_only (gp_GrantsFor gp host i now);
  wo_patterns_ok : ∀ host i now, patterns_ok (gp_GrantsFor gp host i now);
}.
Definition widen_only `{RegexpEngine} (g : option GrantProvider) : Prop :=
  match g with Some gp => WidenOnly gp | None => True end.

(** The grant store is one. *)
Definition provider_of `{RegexpEngine} (iter : range_order Grant) (s : GrantStore) : GrantProvider :=
  mkGrantProvider (GrantsFor iter s) (WaiverMatches s).

#[export] Instance provider_of_widen_only `{RegexpEngine} iter `{!RangeOrder iter} s :
  store_wf s → WidenOnly (provider_of iter s).
Proof.
  intros Hs. split; intros; [apply GrantsFor_allow_only|by apply GrantsFor_patterns_ok].
Qed.

Section resolution.
Context `{RE : RegexpEngine} `{SP : ShellParser}.
Implicit Types (hp : HostPolicy) (i : Intent) (g : option GrantProvider).

Lemma set_audit_allow_only p : allow_only p → allow_only (set_audit p).
Proof. done. Qed.

(** The evaluated set is the host's set followed by allow-only members. *)
Lemma widened_shape hp i g now :
  widen_only g →
  ∃ gs, widened hp i g now = effectivePolicies hp ++ gs ∧ Forall allow_only gs ∧ patterns_ok gs ∧
    (gs ≠ [] → hasAllowlist (effectivePolicies hp) = true).
Proof.
  assert (Hnil : ∃ gs, effectivePolicies hp = effectivePolicies hp ++ gs ∧ Forall allow_only gs ∧
    patterns_ok gs ∧ (gs ≠ [] → hasAllowlist (effectivePolicies hp) = true)).
  { exists []. rewrite app_nil_r. split_and!; [done|constructor|constructor|done]. }
  unfold widened. destruct g as [gp|]; [|done]. intros Hwo. simpl in Hwo.
  destruct (hasAllowlist (effectivePolicies hp)) eqn:Ha; [|done]. case_bool_decide; [done|]. eexists. split; [done|].
  split_and!; [| |done].
  - case_bool_decide; [|apply wo_allow_only]. apply Forall_fmap. eapply Forall_impl; [apply wo_allow_only|done].
  - case_bool_decide; [|apply wo_patterns_ok]. apply Forall_fmap. eapply Forall_impl; [apply wo_patterns_ok|done].
Qed.

Lemma widened_restricts hp i g now :
  ps_Restricts (effectivePolicies hp) = true → ps_Restricts (widened hp i g now) = true.
Proof.
  unfold widened, ps_Restricts. intros H. destruct g; [|done]. destruct (hasAllowlist _); [|done].
  case_bool_decide; [done|]. rewrite existsb_app, H. done.
Qed.

(** Grants never change the enforcement mode of a restricted host. *)
Lemma widened_enforcement hp i g now :
  widen_only g → ps_Restricts (effectivePolicies hp) = true →
  Enforcement (widened hp i g now) = Enforcement (effectivePolicies hp).
Proof.
  intros Hwo Hr. unfold widened. destruct g as [gp|]; [|done]. destruct (hasAllowlist _); [|done].
  case_bool_decide; [done|]. set (eff := effectivePolicies hp) in *.
  destruct (Enforcement_cases eff) as [He|He].
  - rewrite bool_decide_eq_true_2 by done. rewrite He. unfold Enforcement.
    rewrite enforcement_loop_audit. unfold Enforcement in He. rewrite enforcement_loop_audit in He.
    destruct He as [_ He]. split.
    + right. unfold ps_Restricts in Hr. apply existsb_exists in Hr as (p & Hp & Hpr). exists p.
      split; [|done]. apply elem_of_app. left. by apply list_elem_of_In.
    + intros p [Hp|(q & -> & _)%list_elem_of_fmap]%elem_of_app Hpr; [auto|done].
  - rewrite bool_decide_eq_false_2 by (by rewrite He). rewrite He.
    destruct (Enforcement_cases (eff ++ gp_GrantsFor gp (in_Host i) i now)) as [Ha|]; [|done].
    assert (Enforcement eff = CmdPolicyAudit); [|congruence].
    unfold Enforcement in Ha |- *. rewrite enforcement_loop_audit in Ha. rewrite enforcement_loop_audit.
    destruct Ha as [_ Ha]. split.
    + right. unfold ps_Restricts in Hr. apply existsb_exists in Hr as (p & Hp & Hpr). exists p.
      split; [by apply list_elem_of_In|done].
    + intros p Hp. apply Ha, elem_of_app. by left.
Qed.

(** *** Inversion of [resolve] *)

(** The command a one-shot target certificate is pinned to. *)
Definition pinned_command (i : Intent) (elev : string) : string :=
  if bool_decide (elev ≠ "") then BuildElevatedCommand elev (in_Command i) else in_Command i.

Record resolved (hp : HostPolicy) (i : Intent) (ttl0 : duration) (g : option GrantProvider) (ck : clocks)
    (d : Decision) (elev : string) (cp : commandPolicyResult) : Prop := mkResolved {
  rs_auth : authorized hp i;
  rs_elev : resolveElevation hp i = Ok elev;
  rs_pty : in_PTY i = true → hp_AllowPTY hp = true;
  rs_ft : in_FileTransfer i = true → hp_AllowFileTransfer hp = true;
  rs_cp : resolveCommandPolicy hp i g ck = (cp, None);
  rs_elevprefix : dc_ElevationPrefix d = (if is_oneshot_target i then "" else elev);
  rs_approval : dc_RequireApproval d = cr_RequireApproval cp;
  rs_constraints : ∃ fc, dc_Constraints d = set_ForceCommand fc
      (buildConstraints hp i elev (effectiveTTL hp i ttl0) (ck_keyid ck)) ∧
    (is_oneshot_target i = true → fc = pinned_command i elev ∧ fc ≠ "") ∧
    (is_oneshot_target i = false → hp_SealedExec hp = false → fc = "") ∧
    (is_oneshot_target i = false → hp_SealedExec hp = true →
       fc = ShimCommand +:+ " " +:+ in_Host i ∧ ValidHostName (in_Host i) = true);
}.

Lemma TrimSpace_empty s : s = "" → TrimSpace s = "".
Proof. by intros ->. Qed.

Lemma String_append_nonempty s t : s ≠ "" → s +:+ t ≠ "".
Proof. by destruct s. Qed.

Lemma pinned_command_nonempty hp i elev :
  authorized hp i → resolveElevation hp i = Ok elev → is_oneshot_target i = true →
  pinned_command i elev ≠ "".
Proof.
  intros Ha He Ho. unfold pinned_command. case_bool_decide.
  - unfold BuildElevatedCommand. destruct (directArgv _); by apply String_append_nonempty.
  - intros Hc. by apply (au_command _ _ Ha Ho), TrimSpace_empty.
Qed.

Lemma resolve_inv p i ttl0 g ck d :
  resolve p i ttl0 g ck = (d, None) →
  ∃ hp elev cp, p !! in_Host i = Some hp ∧ resolved hp i ttl0 g ck d elev cp.
Proof.
  unfold resolve. destruct (p !! in_Host i) as [hp|]; [|done].
  destruct (authorizeIntent hp i) as [[]|] eqn:Ha; [|done]. apply authorizeIntent_Ok in Ha.
  destruct (resolveElevation hp i) as [elev|] eqn:He; [|done].
  destruct (in_PTY i && _) eqn:Hpty; [done|]. destruct (in_FileTransfer i && _) eqn:Hft; [done|].
  destruct (resolveCommandPolicy hp i g ck) as [cp [e|]] eqn:Hcp; [done|].
  assert (in_PTY i = true → hp_AllowPTY hp = true) by (intros Ht; rewrite Ht in Hpty; by destruct (hp_AllowPTY hp)).
  assert (in_FileTransfer i = true → hp_AllowFileTransfer hp = true)
    by (intros Ht; rewrite Ht in Hft; by destruct (hp_AllowFileTransfer hp)).
  intros Hd. exists hp, elev, cp. split; [done|].
  destruct (is_oneshot_target i) eqn:Ho.
  - pose proof (pinned_command_nonempty hp i elev Ha He Ho) as Hne.
    fold (pinned_command i elev) in Hd.
    simpl in Hd. rewrite (bool_decide_eq_false_2 (pinned_command i elev = "")), andb_false_r in Hd by done.
    injection Hd as <-. constructor; simpl; rewrite ?Ho; try done.
    exists (pinned_command i elev). by split_and!.
  - simpl in Hd. destruct (hp_SealedExec hp) eqn:Hs; simpl in Hd.
    + unfold ForceCommand in Hd. destruct (ValidHostName (in_Host i)) eqn:Hv; simpl in Hd; [|done].
      injection Hd as <-. constructor; simpl; rewrite ?Ho; try done.
      eexists. split_and!; [reflexivity|done|congruence|done].
    + injection Hd as <-. constructor; simpl; rewrite ?Ho; try done.
      exists "". split_and!; [reflexivity|done|done|congruence].
Qed.

(** *** Compiled tables *)

Definition library_ok (library : gmap string CommandPolicy) : Prop :=
  map_Forall (fun _ cp => Validate cp = Ok ()) library.

Lemma add_named_ok library names st :
  library_ok library → patterns_ok st.2 → patterns_ok (add_named library names st).2.
Proof.
  intros Hl. revert st. induction names as [|n names IH]; intros [seen set] Hst; simpl; [done|].
  case_bool_decide; [by apply IH|]. destruct (library !! n) as [cp|] eqn:Hn; [|by apply IH].
  apply IH. simpl in *. apply patterns_ok_app. split; [done|].
  repeat constructor. by eapply Validate_patterns, Hl.
Qed.

Lemma composePolicies_ok hp library gps :
  library_ok library → Validate (hp_CommandPolicy hp) = Ok () → patterns_ok (composePolicies hp library gps).
Proof.
  intros Hl Hv. unfold composePolicies. set (st0 := add_named library _ _).
  assert (H0 : patterns_ok st0.2) by (apply add_named_ok; [done|constructor]).
  assert (H1 : patterns_ok (foldl (fun st gr => add_named library (group_names gps gr) st) st0 (hp_Groups hp)).2).
  { clearbody st0. revert st0 H0. induction (hp_Groups hp) as [|gr grs IH]; intros st0 H0; simpl; [done|].
    apply IH. by apply add_named_ok. }
  destruct (Restricts _); [|done]. apply patterns_ok_app. split; [done|].
  repeat constructor. by apply Validate_patterns.
Qed.

(** What loading a configuration establishes of every host. *)
Record host_compiled (hp : HostPolicy) : Prop := mkHostCompiled {
  hc_patterns : patterns_ok (effectivePolicies hp);
  hc_bastion : hp_AllowAsBastion hp = true → ps_Restricts (effectivePolicies hp) = false;
  hc_ttl : hp_MaxTTLSeconds hp ≤ 900;
}.

Lemma effectivePolicies_composed hp library gps :
  effectivePolicies (set_Policies (composePolicies hp library gps) hp) = composePolicies hp library gps.
Proof.
  unfold effectivePolicies. simpl. destruct (composePolicies hp library gps) eqn:Hc; [|done].
  unfold composePolicies in Hc. destruct (Restricts _); [|done]. by apply app_nil in Hc as [_ ?].
Qed.

Lemma CompileHostPolicies_host iterL iterG iterH `{!RangeOrder iterL} `{!RangeOrder iterH}
    hosts library gps p host hp :
  CompileHostPolicies iterL iterG iterH hosts library gps = Ok p → p !! host = Some hp →
  host_compiled hp ∧
  ∃ hp0, hosts !! host = Some hp0 ∧ hp = set_Policies (composePolicies hp0 library gps) hp0 ∧
    (hp_Jump hp0 = "" ∨ is_Some (hosts !! hp_Jump hp0)).
Proof.
  unfold CompileHostPolicies.
  intros ([] & Hlib & ([] & _ & (out & Hout & [= <-])%rbind_Ok)%rbind_Ok)%rbind_Ok Hp.
  assert (Hl : library_ok library).
  { intros n cp Hn. apply for_each_Ok in Hlib. rewrite Forall_forall in Hlib.
    specialize (Hlib (n, cp)). rewrite range_elem in Hlib by done. specialize (Hlib Hn). simpl in Hlib.
    by destruct (Validate cp) as [[]|]. }
  apply elem_of_list_to_map_2 in Hp. apply map_each_Ok in Hout.
  apply list_elem_of_lookup in Hp as [k Hk]. eapply Forall2_lookup_r in Hout as ([n hp0] & Hk0 & Hc); [|exact Hk].
  simpl in Hc. apply guard_Ok in Hc as [Hj Hc]. apply guard_Ok in Hc as [Ht Hc].
  apply rbind_Ok in Hc as ([] & Hv & Hc). apply guard_Ok in Hc as [Hb [= -> <-]].
  apply list_elem_of_lookup_2, range_elem in Hk0; [|done].
  assert (Hval : Validate (hp_CommandPolicy hp0) = Ok ()) by (by destruct (Validate _) as [[]|]).
  split.
  - constructor; rewrite ?effectivePolicies_composed.
    + by apply composePolicies_ok.
    + simpl. intros Ha. rewrite Ha in Hb. simpl in Hb. by apply negb_true_iff in Hb.
    + by unbool.
  - exists hp0. split_and!; [done|done|]. rewrite orb_true_iff, !bool_decide_eq_true in Hj. done.
Qed.

(** ** Properties *)

(** [C21] Every certificate is confined by what the policy resolved: a one-shot
    target certificate carries exactly the requested command (elevated when
    elevation was granted) as force-command; on a sealed host any other
    certificate is pinned to the shim of that very host; port forwarding is
    granted to bastion hops of hosts that allow it and to nothing else, a PTY
    only where the host allows one, and no other extension ever. *)
Theorem certificate_confined p i ttl0 g ck d hp cenv caKey pub cert serial :
  p !! in_Host i = Some hp → resolve p i ttl0 g ck = (d, None) →
  BuildAndSign cenv caKey pub (dc_Constraints d) = Ok (cert, serial) →
  let fc := cert_CriticalOptions cert !! "force-command" in
  (is_oneshot_target i = true →
     ∃ elev, resolveElevation hp i = Ok elev ∧ fc = Some (pinned_command i elev)) ∧
  (is_oneshot_target i = false → hp_SealedExec hp = true →
     fc = Some (ShimCommand +:+ " " +:+ in_Host i) ∧ ValidHostName (in_Host i) = true) ∧
  (∀ name, is_Some (cert_Extensions cert !! name) →
     name = "permit-pty" ∧ in_PTY i = true ∧ hp_AllowPTY hp = true ∨
     name = "permit-port-forwarding" ∧ in_Role i = RoleBastion ∧ hp_AllowAsBastion hp = true).
Proof.
  intros Hhp (hp' & elev & cp & Hhp' & Hr)%resolve_inv Hsign. simplify_eq.
  apply BuildAndSign_Ok in Hsign as (_ & _ & _ & _ & _ & ->).
  destruct (rs_constraints _ _ _ _ _ _ _ _ Hr) as (fc & Hc & H1 & H2 & H3).
  cbv zeta. rewrite cert_of_force_command. split_and!; [rewrite Hc; simpl..|].
  - intros Ho. exists elev. destruct (H1 Ho) as [-> Hne]. split; [by eapply rs_elev|].
    by rewrite bool_decide_eq_false_2.
  - intros Ho Hs. destruct (H3 Ho Hs) as [-> Hv]. by rewrite bool_decide_eq_false_2.
  - intros name Hn. apply cert_of_extensions in Hn. rewrite Hc in Hn. simpl in Hn.
    destruct Hn as [[-> Hp]|[-> Hb]]; [left|right].
    + split_and!; [done|done|by eapply rs_pty].
    + unbool. split_and!; [done|done|]. eapply au_bastion; [by eapply rs_auth|done].
Qed.

Lemma apply_decision_None i g ck d cp :
  apply_decision i g ck CmdPolicyEnforce d = (cp, None) →
  verdict_of d ≠ VDeny ∧
  (verdict_of d = VApproval → cr_RequireApproval cp = true ∨
     ∃ gp, g = Some gp ∧ gp_WaiverMatches gp (in_Host i) i (ck_waiver ck) = true).
Proof.
  unfold apply_decision, verdict_of. rewrite bool_decide_eq_false_2 by done.
  destruct (d_err d); [done|]. destruct (d_allowed d); simpl; [|done].
  destruct (d_needsApproval d); simpl; [|by intros [= <-]].
  destruct g as [gp|]; [destruct (gp_WaiverMatches _ _ _ _) eqn:Hw|]; intros [= <-];
    (split; [done|intros _]); [right; by exists gp|by left..].
Qed.

Lemma widened_patterns_ok hp i g now :
  widen_only g → patterns_ok (effectivePolicies hp) → patterns_ok (widened hp i g now).
Proof.
  intros Hwo Hp. destruct (widened_shape hp i g now Hwo) as (gs & -> & _ & Hgs & _).
  by apply patterns_ok_app.
Qed.

(** The command-policy stage on a host that enforces its policy. *)
Lemma resolveCommandPolicy_None hp i g ck cp :
  widen_only g → patterns_ok (effectivePolicies hp) →
  ps_Restricts (effectivePolicies hp) = true → Enforcement (effectivePolicies hp) = CmdPolicyEnforce →
  in_Role i = RoleTarget → resolveCommandPolicy hp i g ck = (cp, None) →
  (in_Purpose i = PurposeSession → in_SessionMode i = SessionModeExec) ∧
  (in_Purpose i = PurposeOneshot ∨ in_Command i ≠ "" →
     spec_decide (widened hp i g (ck_grants ck)) (in_Command i) ≠ VDeny ∧
     (spec_decide (widened hp i g (ck_grants ck)) (in_Command i) = VApproval →
        cr_RequireApproval cp = true ∨
        ∃ gp, g = Some gp ∧ gp_WaiverMatches gp (in_Host i) i (ck_waiver ck) = true)).
Proof.
  intros Hwo Hok Hr He Hrole Hcp. unfold resolveCommandPolicy in Hcp.
  rewrite (bool_decide_eq_false_2 (in_Role i ≠ RoleTarget)) in Hcp by auto.
  rewrite widened_restricts in Hcp by done. cbn [orb negb] in Hcp.
  rewrite widened_enforcement, He in Hcp by done.
  rewrite <-Decide_verdict by (by apply widened_patterns_ok).
  destruct (bool_decide (in_Purpose i = PurposeSession) && bool_decide (in_SessionMode i ≠ SessionModeExec)) eqn:Hm;
    [done|]. split.
  { intros Hp. rewrite (bool_decide_eq_true_2 _ Hp) in Hm. simpl in Hm. unbool. by apply dec_stable. }
  intros Hcmd.
  destruct (bool_decide (in_Purpose i = PurposeSession) && bool_decide (in_Command i = "")) eqn:Hc.
  { unbool. exfalso. destruct Hcmd as [Hp|]; [|done]. rewrite Hp in *. done. }
  by eapply apply_decision_None.
Qed.

(** On a host whose loaded policy restricts and enforces, an intent resolves only
    as a target, sessions only in exec mode, and only if the command it carries
    is not denied by the composed policies; a gated command comes out marked for
    approval unless a live waiver covers it. *)
Lemma resolve_enforced p i ttl0 g ck d hp :
  p !! in_Host i = Some hp → host_compiled hp → widen_only g →
  ps_Restricts (effectivePolicies hp) = true → Enforcement (effectivePolicies hp) = CmdPolicyEnforce →
  resolve p i ttl0 g ck = (d, None) →
  in_Role i = RoleTarget ∧
  (in_Purpose i = PurposeSession → in_SessionMode i = SessionModeExec) ∧
  (in_Purpose i = PurposeOneshot ∨ in_Command i ≠ "" →
     spec_decide (widened hp i g (ck_grants ck)) (in_Command i) ≠ VDeny ∧
     (spec_decide (widened hp i g (ck_grants ck)) (in_Command i) = VApproval →
        dc_RequireApproval d = true ∨
        ∃ gp, g = Some gp ∧ gp_WaiverMatches gp (in_Host i) i (ck_waiver ck) = true)).
Proof.
  intros Hhp Hc Hwo Hr He (hp' & elev & cp & Hhp' & Hres)%resolve_inv. simplify_eq.
  pose proof (au_policy _ _ (rs_auth _ _ _ _ _ _ _ _ Hres) Hr) as Hrole. split; [done|].
  rewrite (rs_approval _ _ _ _ _ _ _ _ Hres).
  eapply resolveCommandPolicy_None; eauto; [by apply hc_patterns|by eapply rs_cp].
Qed.

(** *** The key identity *)

Definition token (name value : string) : list string :=
  if bool_decide (value = "") then [] else [name +:+ "=" +:+ value].

(** The attributes the certificate's identity is meant to carry. *)
Definition key_tokens (i : Intent) (elevated : bool) (now : time) : list string :=
  ["agent=" +:+ in_Caller i; "host=" +:+ in_Host i; "role=" +:+ in_Role i; "t=" +:+ FormatInt (Unix now)]
  ++ token "user" (in_EndUser i) ++ token "ctx" (in_EndUserContext i)
  ++ (if elevated then "elev=sudo" :: tail (elevation_words i) else [])
  ++ (if in_PTY i then ["pty=1"] else []).

Lemma opt_field_spaced name value : opt_field name value = spaced (token name value).
Proof.
  unfold opt_field, token. case_bool_decide; [done|]. simpl. by rewrite String_append_nil.
Qed.

Lemma elev_spaced i :
  spaced ("elev=sudo" :: tail (elevation_words i)) = opt_field "elev" (Join (elevation_words i) " ").
Proof.
  unfold elevation_words, opt_field. destruct (bool_decide (in_SudoUser i = "")).
  - rewrite bool_decide_eq_true_2 by done. reflexivity.
  - case_bool_decide; [reflexivity|]. rewrite bool_decide_eq_false_2 by done. simpl.
    by rewrite String_append_nil.
Qed.

Lemma key_id_Join i elev now :
  elev = "" ∨ elev = Join (elevation_words i) " " →
  key_id i elev now = Join (key_tokens i (bool_decide (elev ≠ "")) now) " ".
Proof.
  intros Helev. unfold key_id, key_tokens. cbn [app]. rewrite Join_spaced.
  assert (opt_field "elev" elev =
          spaced (if bool_decide (elev ≠ "") then "elev=sudo" :: tail (elevation_words i) else [])) as ->.
  { destruct Helev as [-> | ->]; [done|]. rewrite bool_decide_eq_true_2; [by rewrite elev_spaced|].
    unfold elevation_words. repeat case_bool_decide; done. }
  assert ((if in_PTY i then " pty=1" else "") = spaced (if in_PTY i then ["pty=1"] else [])) as ->
    by (by destruct (in_PTY i)).
  rewrite !opt_field_spaced. cbn [app spaced]. rewrite !spaced_app, !String_append_assoc. reflexivity.
Qed.

Lemma no_space_token s : HasUnsafeTokenChar s = false → ContainsByte s " "%char = false.
Proof.
  unfold HasUnsafeTokenChar, ContainsByte. intros [_ H]%orb_false_iff.
  induction s as [|c s IH]; simpl in *; [done|]. apply orb_false_iff in H as [Hc H].
  rewrite IH, orb_false_r by done. apply not_true_iff_false. intros <-%ascii_eqb_eq. done.
Qed.

Lemma ContainsByte_app s t c : ContainsByte (s +:+ t) c = ContainsByte s c || ContainsByte t c.
Proof. apply exists_char_app. Qed.

Lemma safe_word_no_space w : shellSafeWord w = true → ContainsByte w " "%char = false.
Proof. unfold shellSafeWord. intros [_ H]%andb_true_iff. by eapply chars_exclude; [|exact H]. Qed.

Lemma token_no_space name value :
  ContainsByte name " "%char = false → ContainsByte value " "%char = false →
  Forall (fun w => ContainsByte w " "%char = false) (token name value).
Proof.
  intros Hn Hv. unfold token. case_bool_decide; constructor; [|constructor].
  by rewrite !ContainsByte_app, Hn, Hv.
Qed.

(** No attribute can be forged in the identity sshd logs: for an authorised
    intent on a host whose name has no space, cutting the certificate's key id at
    its spaces gives exactly the caller, host, role, time, user, context,
    elevation and pty attributes the signer meant, in that order, whatever bytes
    the caller and the end user's identity hold. *)
Theorem key_id_unforgeable hp i elev now :
  authorizeIntent hp i = Ok () → resolveElevation hp i = Ok elev →
  ContainsByte (in_Host i) " "%char = false →
  Split (key_id i elev now) " "%char = key_tokens i (bool_decide (elev ≠ "")) now.
Proof.
  intros Ha%authorizeIntent_Ok He Hhost. apply resolveElevation_Ok in He.
  rewrite key_id_Join by naive_solver. apply Split_Join; [done|].
  destruct (au_safe _ _ Ha) as (Hc & Hu & Hx). unfold key_tokens. apply Forall_app_2; [|apply Forall_app_2;
    [|apply Forall_app_2; [|apply Forall_app_2]]].
  - repeat constructor; rewrite ContainsByte_app; simpl; [by apply no_space_token|done| |].
    + destruct (au_role _ _ Ha) as [-> | ->]; done.
    + eapply chars_exclude; [|apply FormatInt_chars]. done.
  - apply token_no_space; [done|by apply no_space_token].
  - apply token_no_space; [done|by apply no_space_token].
  - destruct He as [[-> _]|(_ & _ & -> & [_ Hws] & _)]; [constructor|].
    case_bool_decide; [|constructor]. constructor; [done|].
    apply Forall_tail. eapply Forall_impl; [exact Hws|]. apply safe_word_no_space.
  - destruct (in_PTY i); repeat constructor.
Qed.

(** *** Runtime grants *)

(** Runtime grants only widen: on a host whose policies parse the command
    (the default), or where no grant was injected, the verdict with the live
    grants is never stricter than the verdict of the file policy alone, for
    every command and every store of grants. *)
Theorem grants_only_widen hp i gp now command :
  WidenOnly gp → patterns_ok (effectivePolicies hp) → shellParse (effectivePolicies hp) = true →
  vle (verdict_of (Decide (widened hp i (Some gp) now) command))
      (verdict_of (Decide (effectivePolicies hp) command)).
Proof.
  intros Hwo Hok Hsp. rewrite !Decide_verdict; [|done|by apply widened_patterns_ok].
  destruct (widened_shape hp i (Some gp) now Hwo) as (gs & -> & Hao & _ & Hne).
  destruct (decide (gs = [])) as [->|Hgs]; [by rewrite app_nil_r|]. apply spec_decide_widen; auto.
Qed.
End resolution.

(** ** Concrete hosts *)

Definition mk_ssh_host (cp : CommandPolicy) (sudo sealed : bool) : HostPolicy :=
  mkHostPolicy "10.0.0.1:22" "deploy" "ssh-ed25519 AAAA" "" "host:web1" "10.0.0.0/8" (5 * Minute) 300
    false ["agent"] sudo ["root"; "deploy"] false false ["web"] sealed cp [].
Definition sample_clocks : clocks := mkClocks Minute Minute Minute Minute.

(** An allowlist that opted out of shell parsing, and a grant of another command. *)
Definition raw_allow : CommandPolicy :=
  mkCommandPolicy CmdPolicyAllowlist "" ["echo "] [] [] (Some false).
Definition uptime_grant : Grant :=
  mkGrant "" "web1" ["uptime"] [] "" "" false "" "bob" "" 0 Hour [].
Definition raw_host : HostPolicy := mk_ssh_host raw_allow false false.
Definition raw_intent : Intent := oneshot "agent" "web1" "echo $(date)".
Definition granted_store : GrantStore :=
  (@gs_Add prefix_engine singleton_json "g1" true NewGrantStore uptime_grant).2.

(** A grant can narrow: on a host whose allowlist set [shell_parse: false],
    a live grant for one command turns shell parsing on for every command, and a
    command the file policy allows is refused while the grant is live. *)
Theorem grant_narrows_raw_host :
  (@resolve prefix_engine subst_parser {["web1" := raw_host]} raw_intent Hour None sample_clocks).2 = None ∧
  (@resolve prefix_engine subst_parser {["web1" := raw_host]} raw_intent Hour
     (Some (@provider_of prefix_engine map_to_list granted_store)) sample_clocks).2
  = Some (ECommandPolicyError ENonStaticWord).
Proof. split; vm_compute; reflexivity. Qed.

(** A host with the sample allowlist, elevation and sealed exec. *)
Definition web_host : HostPolicy := mk_ssh_host sample_allow true true.
Definition web_hosts : PolicyTable := {["web1" := web_host]}.
Definition sudo_intent : Intent :=
  mkIntent "agent" "web1" "" None RoleTarget PurposeOneshot "" "systemctl stop nginx" 0 "key" true
    "deploy" false false false false false "" "alice" (Some ["web"]) "ctx1" "" 0 "" "".
Definition open_intent : Intent :=
  mkIntent "agent" "web1" "" None RoleTarget PurposeSession SessionModeExec "" 0 "key" false
    "" false false false false false "" "alice" None "" "" 0 "" "".
Definition web_provider : GrantProvider := @provider_of prefix_engine map_to_list granted_store.
Definition web_table : PolicyTable :=
  match @CompileHostPolicies prefix_engine map_to_list map_to_list map_to_list web_hosts ∅ ∅ with
  | Ok p => p | Err _ => ∅ end.
Definition web_compiled : HostPolicy := set_Policies [sample_allow] web_host.

Lemma granted_store_wf : @store_wf prefix_engine granted_store.
Proof.
  apply (@run_grant_op_wf prefix_engine singleton_json NewGrantStore (GAdd "g1" true uptime_grant)).
  apply map_Forall_empty.
Qed.

Lemma web_provider_ok : @WidenOnly prefix_engine web_provider.
Proof. apply provider_of_widen_only; [apply _|apply granted_store_wf]. Qed.

(** The sealed host's session certificate. *)
Lemma certificate_confined_witness :
  let d := (@resolve prefix_engine plain_parser web_table open_intent Hour None sample_clocks).1 in
  let cert := cert_of "ca" "key" 7 Hour (dc_Constraints d) in
  cert_CriticalOptions cert !! "force-command" = Some "infrabroker-shim web1".
Proof.
  intros d cert.
  refine (proj1 (proj1 (proj2 (@certificate_confined prefix_engine plain_parser web_table open_intent Hour
    None sample_clocks d web_compiled (mkCAEnv false (Some 7) Hour true) "ca" "key" cert 7 _ _ _)) _ _));
    vm_compute; reflexivity.
Defined.

Lemma key_id_unforgeable_witness :
  Split (key_id sudo_intent "sudo -n -u deploy" Minute) " "%char =
  ["agent=agent"; "host=web1"; "role=target"; "t=60"; "user=alice"; "ctx=ctx1"; "elev=sudo"; "-n"; "-u"; "deploy"].
Proof. exact (key_id_unforgeable web_compiled sudo_intent "sudo -n -u deploy" Minute eq_refl eq_refl eq_refl). Defined.

Lemma grants_only_widen_witness :
  vle (verdict_of (@Decide prefix_engine plain_parser (widened web_compiled sudo_intent (Some web_provider) Minute) "uptime"))
      (verdict_of (@Decide prefix_engine plain_parser [sample_allow] "uptime")).
Proof.
  apply (@grants_only_widen prefix_engine plain_parser web_compiled sudo_intent web_provider Minute "uptime");
    [apply web_provider_ok|by apply (@ps_Validate_patterns prefix_engine)|reflexivity].
Defined.
