(* ===== verification/K8sPolicy.v ===== *)
(** * Kubernetes cluster policies

    [internal/signer/k8spolicy.go]: structured rules compiled to anchored
    regular expressions over the canonical action, the cluster table, and the
    resolution of a Kubernetes intent. The specification reads the rules on the
    fields of the action; the compiled set decides the same on its string. *)

From S2P Require Import Prelude GoStrings CmdPolicy PolicySet K8sAction Intent Grants CA Elevate HostPolicy.

Definition K8sEffectAllow : string := "allow".
Definition K8sEffectDeny : string := "deny".
Definition K8sEffectRequireApproval : string := "require_approval".

Definition k8sTokenTTLMin : Z := 600.
Definition k8sTokenTTLMax : Z := 900.
Definition k8sTokenTTLDefault : Z := 600.

(** [regexp] [^[a-zA-Z0-9][a-zA-Z0-9._-]{0,62}$]. *)
Definition reK8sClusterName (s : string) : bool :=
  match s with
  | "" => false
  | String c s' => is_alnum c && forall_char (fun c => is_alnum c || ContainsByte "._-" c) s'
                   && (Z.of_nat (String.length s') <=? 62)
  end.

Record K8sRule := mkK8sRule {
  kr_Verbs : list string;
  kr_Resources : list string;
  kr_Namespaces : list string;
  kr_Names : list string;
  kr_Effect : string;
}.

Record SABinding := mkSABinding {
  sa_Groups : list string;
  sa_Namespace : string;
  sa_ServiceAccount : string;
}.

Record ClusterPolicy := mkClusterPolicy {
  cl_APIServer : string;
  cl_CACert : string;
  cl_TokenFile : string;
  cl_TokenTTLSeconds : Z;
  cl_Groups : list string;
  cl_AllowedCallers : list string;
  cl_SABindings : list SABinding;
  cl_Rules : list K8sRule;
  cl_ExtraResources : list ResourceDef;
  cl_Policies : PolicySet;
  cl_Resources : gmap string ResourceDef;
  cl_CAPEM : string;
}.
Abbreviation ClusterTable := (gmap string ClusterPolicy).

Definition zero_cluster : ClusterPolicy := mkClusterPolicy "" "" "" 0 [] [] [] [] [] [] ∅ "".

Inductive cluster_error :=
| EUnknownVerbRule (v : string)
| EResourceRule (e : k8s_error)
| ELogsWithoutPods
| EInvalidNamespaceRule (v : string)
| EInvalidNameRule (v : string)
| EUnknownEffect (i : nat) (effect : string)
| ERule (i : nat) (e : cluster_error)
| ENoAllowRule
| EGeneratedPolicy (e : cmd_error)
| EClusterName (name : string)
| EClusterCollides (name : string)
| EAPIServer
| EFilesRequired
| EReadCA
| EBadCA
| EStatTokenFile
| ETokenTTL (n : Z)
| ENoBinding
| EBadBinding (i : nat)
| EExtraResources (e : k8s_error).

(** ** Rules to expressions *)

(** [regexp.QuoteMeta]. *)
Definition is_meta (c : ascii) : bool := ContainsByte "\.+*?()|[]{}^$" c.
Fixpoint QuoteMeta (s : string) : string :=
  match s with
  | "" => ""
  | String c s' => (if is_meta c then String "\"%char (String c "") else String c "") +:+ QuoteMeta s'
  end.

Fixpoint alternates (lit : string → result cluster_error string) (wildcard : string)
    (values : list string) (alts : list string) : result cluster_error string :=
  match values with
  | [] => Ok ("(?:" +:+ Join alts "|" +:+ ")")
  | v :: values' =>
      if bool_decide (v = "*") then Ok ("(?:" +:+ wildcard +:+ ")")
      else let! l := lit v in alternates lit wildcard values' (alts ++ [l])
  end.

Definition compileAlternates (values : list string) (wildcard : string)
    (lit : string → result cluster_error string) : result cluster_error string :=
  match values with
  | [] => Ok ("(?:" +:+ wildcard +:+ ")")
  | _ => alternates lit wildcard values []
  end.

Definition containsLiteral (values : list string) (v : string) : bool :=
  existsb (fun x => bool_decide (x = v)) values.

Definition resourcesCoverPods (resources : list string) (table : gmap string ResourceDef) : bool :=
  match resources with
  | [] => true
  | _ => existsb (fun v => bool_decide (v = "*")
                   || match k8s_Resolve table v "" with
                      | Ok def => bool_decide (rd_Resource def = "pods") && bool_decide (rd_Group def = "")
                      | Err _ => false
                      end) resources
  end.

Definition verb_lit (v : string) : result cluster_error string :=
  if bool_decide (v ∈ K8sVerbs) then Ok (QuoteMeta v) else Err (EUnknownVerbRule v).
Definition resource_token (def : ResourceDef) : string :=
  if bool_decide (rd_Group def ≠ "") then rd_Resource def +:+ "." +:+ rd_Group def else rd_Resource def.
Definition resource_lit (table : gmap string ResourceDef) (v : string) : result cluster_error string :=
  match k8s_Resolve table v "" with
  | Err e => Err (EResourceRule e)
  | Ok def => Ok (QuoteMeta (resource_token def))
  end.
Definition namespace_lit (v : string) : result cluster_error string :=
  if bool_decide (v ≠ "-") && negb (reK8sNamespace v) then Err (EInvalidNamespaceRule v) else Ok (QuoteMeta v).
Definition name_lit (v : string) : result cluster_error string :=
  if bool_decide (v ≠ "-") && negb (reK8sName v) then Err (EInvalidNameRule v) else Ok (QuoteMeta v).

Definition compileK8sRule (r : K8sRule) (table : gmap string ResourceDef) : result cluster_error string :=
  let! verbs := compileAlternates (kr_Verbs r) "[a-z]+" verb_lit in
  let! resources := compileAlternates (kr_Resources r) "[^ ]+" (resource_lit table) in
  guard! negb (containsLiteral (kr_Verbs r) K8sVerbLogs && negb (resourcesCoverPods (kr_Resources r) table))
    else ELogsWithoutPods in
  let! namespaces := compileAlternates (kr_Namespaces r) "[^ /]+" namespace_lit in
  let! names := compileAlternates (kr_Names r) "[^ ]+" name_lit in
  Ok ("^" +:+ verbs +:+ " " +:+ resources +:+ " " +:+ namespaces +:+ "/" +:+ names +:+ "$").

(** The loop over the rules: allow patterns, approval patterns, deny patterns. *)
Fixpoint compile_rules (n : nat) (rules : list K8sRule) (table : gmap string ResourceDef)
    (allow appr deny : list string) : result cluster_error (list string * list string * list string) :=
  match rules with
  | [] => Ok (allow, appr, deny)
  | r :: rules' =>
      let! re := rmap_err (ERule n) (compileK8sRule r table) in
      if bool_decide (kr_Effect r = K8sEffectAllow)
      then compile_rules (S n) rules' table (allow ++ [re]) appr deny
      else if bool_decide (kr_Effect r = K8sEffectDeny)
      then compile_rules (S n) rules' table allow appr (deny ++ [re])
      else if bool_decide (kr_Effect r = K8sEffectRequireApproval)
      then compile_rules (S n) rules' table (allow ++ [re]) (appr ++ [re]) deny
      else Err (EUnknownEffect n (kr_Effect r))
  end.

Definition k8s_policy_set (allow appr deny : list string) : PolicySet :=
  mkCommandPolicy CmdPolicyAllowlist CmdPolicyEnforce allow [] appr None
  :: (if bool_decide (deny ≠ []) then [mkCommandPolicy CmdPolicyDenylist CmdPolicyEnforce [] deny [] None]
      else []).

Definition compileK8sRules `{RegexpEngine} (rules : list K8sRule) (table : gmap string ResourceDef) :
    result cluster_error PolicySet :=
  let! r := compile_rules 0 rules table [] [] [] in
  let '(allow, appr, deny) := r in
  if bool_decide (allow = []) then Err ENoAllowRule
  else
    let ps := k8s_policy_set allow appr deny in
    let! _ := rmap_err EGeneratedPolicy (ps_Validate ps) in Ok ps.

(** ** Clusters *)

(** What compiling a cluster reads from outside: whether the URL is an https
    URL with a host, the bytes of the CA file, the certificate parser and
    whether the token file exists. *)
Record cluster_env := mkClusterEnv {
  cv_https : string → bool;
  cv_readFile : string → option string;
  cv_parseCABundle : string → option string;
  cv_stat : string → bool;
}.

Definition bad_binding (b : SABinding) : bool :=
  negb (reK8sNamespace (sa_Namespace b)) || negb (reK8sName (sa_ServiceAccount b)).
Fixpoint check_bindings (n : nat) (bs : list SABinding) : result cluster_error unit :=
  match bs with
  | [] => Ok ()
  | b :: bs' => if bad_binding b then Err (EBadBinding n) else check_bindings (S n) bs'
  end.

Definition compileCluster `{RegexpEngine} (env : cluster_env) (cp : ClusterPolicy) :
    result cluster_error ClusterPolicy :=
  guard! cv_https env (cl_APIServer cp) else EAPIServer in
  guard! bool_decide (cl_CACert cp ≠ "") && bool_decide (cl_TokenFile cp ≠ "") else EFilesRequired in
  match cv_readFile env (cl_CACert cp) with
  | None => Err EReadCA
  | Some raw =>
  match cv_parseCABundle env raw with
  | None => Err EBadCA
  | Some capem =>
  guard! cv_stat env (cl_TokenFile cp) else EStatTokenFile in
  let ttl := if cl_TokenTTLSeconds cp =? 0 then k8sTokenTTLDefault else cl_TokenTTLSeconds cp in
  guard! (k8sTokenTTLMin <=? ttl) && (ttl <=? k8sTokenTTLMax) else ETokenTTL ttl in
  guard! bool_decide (cl_SABindings cp ≠ []) else ENoBinding in
  let! _ := check_bindings 0 (cl_SABindings cp) in
  let! table := rmap_err EExtraResources (Resources (cl_ExtraResources cp)) in
  let! policies := compileK8sRules (cl_Rules cp) table in
  Ok (mkClusterPolicy (cl_APIServer cp) (cl_CACert cp) (cl_TokenFile cp) ttl (cl_Groups cp)
        (cl_AllowedCallers cp) (cl_SABindings cp) (cl_Rules cp) (cl_ExtraResources cp) policies table capem)
  end end.

Definition compile_cluster_entry `{RegexpEngine} (env : cluster_env) (hosts : PolicyTable)
    (kv : string * ClusterPolicy) : result cluster_error (string * ClusterPolicy) :=
  guard! reK8sClusterName kv.1 else EClusterName kv.1 in
  guard! negb (bool_decide (is_Some (hosts !! kv.1))) else EClusterCollides kv.1 in
  let! compiled := compileCluster env kv.2 in Ok (kv.1, compiled).

Definition CompileClusterPolicies `{RegexpEngine} (env : cluster_env) (iter : range_order ClusterPolicy)
    (clusters : ClusterTable) (hosts : PolicyTable) : result cluster_error ClusterTable :=
  let! out := map_each (compile_cluster_entry env hosts) (iter clusters) in Ok (list_to_map out).

Definition cl_AllowsCaller (cp : ClusterPolicy) (cn : string) : bool :=
  callerAllowed (cl_AllowedCallers cp) cn.

(** ** Resolution *)

Inductive k8s_sign_error :=
| ENoCluster (name : string)
| ENoAction
| EInvalidAction (e : k8s_error)
| EK8sSudo
| EK8sPTY
| EK8sFileTransfer
| EK8sSession
| EK8sRole
| EK8sUnsafeIdentity
| EK8sCaller
| EK8sGroups
| EResolve (e : k8s_error)
| ECommandMismatch (got want : string)
| EK8sPolicy (e : signer_error)
| ErrK8sNoMinter
| ErrK8sNoBinding
| EK8sMint.

Definition bindingFor (cp : ClusterPolicy) (endUserGroups : option (list string)) :
    result k8s_sign_error SABinding :=
  match list_find_first (fun b => bool_decide (sa_Groups b = [])
          || GroupsIntersect (sa_Groups b) (match endUserGroups with Some gs => gs | None => [] end))
        (cl_SABindings cp) with
  | Some b => Ok b
  | None => Err ErrK8sNoBinding
  end.

(** The action the policy decides on: group from the table, namespace dropped
    for cluster-scoped resources. *)
Definition normalize (def : ResourceDef) (a : K8sAction) : K8sAction :=
  mkK8sAction (ka_Verb a) (ka_Resource a) (rd_Group def)
    (if rd_Namespaced def then ka_Namespace a else "") (ka_Name a).

Section resolution.
Context `{RE : RegexpEngine} `{SP : ShellParser}.

(** The gates up to the normalized action. *)
Definition k8s_gates (ct : ClusterTable) (i : Intent) : result k8s_sign_error (ClusterPolicy * K8sAction) :=
  match ct !! in_Host i with
  | None => Err (ENoCluster (in_Host i))
  | Some cp =>
  match in_K8s i with
  | None => Err ENoAction
  | Some a =>
  let! _ := rmap_err EInvalidAction (ka_Validate a) in
  guard! negb (in_Sudo i || bool_decide (in_SudoUser i ≠ "")) else EK8sSudo in
  guard! negb (in_PTY i) else EK8sPTY in
  guard! negb (in_FileTransfer i) else EK8sFileTransfer in
  guard! bool_decide (in_Purpose i = PurposeOneshot) && bool_decide (in_SessionMode i = "") else EK8sSession in
  guard! bool_decide (in_Role i = RoleTarget) else EK8sRole in
  guard! negb (HasUnsafeTokenChar (in_Caller i) || HasUnsafeTokenChar (in_EndUser i)
               || HasUnsafeTokenChar (in_EndUserContext i)) else EK8sUnsafeIdentity in
  guard! callerAllowed (cl_AllowedCallers cp) (in_Caller i) else EK8sCaller in
  guard! (match in_EndUserGroups i with
          | None => true
          | Some gs => GroupsIntersect (cl_Groups cp) gs
          end) else EK8sGroups in
  let! def := rmap_err EResolve (k8s_Resolve (cl_Resources cp) (ka_Resource a) (ka_Group a)) in
  let action := normalize def a in
  guard! bool_decide (in_Command i = Canonical action) else ECommandMismatch (in_Command i) (Canonical action) in
  Ok (cp, action)
  end end.

Definition k8s_host (ps : PolicySet) : HostPolicy := set_Policies ps zero_host.

Definition resolveK8s (ct : ClusterTable) (i : Intent) (grants : option GrantProvider) (ck : clocks) :
    Decision * commandPolicyResult * option k8s_sign_error :=
  match k8s_gates ct i with
  | Err e => (zero_decision, zero_cpr, Some e)
  | Ok (cp, action) =>
      let '(res, err) := resolveCommandPolicy (k8s_host (cl_Policies cp)) i grants ck in
      match err with
      | Some e =>
          (mkDec zero_constraints "" false RuleNone "" None false false (Some action), res, Some (EK8sPolicy e))
      | None =>
          (mkDec zero_constraints "" (cr_RequireApproval res) (cr_MatchedRule res) (cr_Enforcement res) None
             false false (Some action), res, None)
      end
  end.
End resolution.

(** ** Patterns as data *)

(** One field of a rule's expression: a class repeated at least once, or an
    alternation of literals. *)
Inductive field := FAny (cls : ascii → bool) (text : string) | FLits (lits : list string).
Record kpat := mkKpat { kp_verbs : field; kp_resources : field; kp_namespaces : field; kp_names : field }.

Definition render_field (f : field) : string :=
  "(?:" +:+ (match f with FAny _ text => text | FLits l => Join (map QuoteMeta l) "|" end) +:+ ")".
Definition render (kp : kpat) : string :=
  "^" +:+ render_field (kp_verbs kp) +:+ " " +:+ render_field (kp_resources kp) +:+ " "
  +:+ render_field (kp_namespaces kp) +:+ "/" +:+ render_field (kp_names kp) +:+ "$".

Definition field_matches (f : field) (x : string) : bool :=
  match f with
  | FAny cls _ => bool_decide (x ≠ "") && forall_char cls x
  | FLits l => bool_decide (x ∈ l)
  end.

(** The strings the anchored expression matches: no field can hold the byte
    that separates it from the next, so the cut is the first one. *)
Definition kpat_matches (kp : kpat) (s : string) : bool :=
  let '(v, s1, f1) := Cut s " "%char in
  let '(r, s2, f2) := Cut s1 " "%char in
  let '(ns, nm, f3) := Cut s2 "/"%char in
  f1 && f2 && f3 && field_matches (kp_verbs kp) v && field_matches (kp_resources kp) r
  && field_matches (kp_namespaces kp) ns && field_matches (kp_names kp) nm.

(** What is relied on of the regexp engine, for one pattern. *)
Definition re2_agrees `{RegexpEngine} (kp : kpat) : Prop :=
  ∃ m, regexp_Compile (render kp) = Some m ∧ ∀ s, m s = kpat_matches kp s.

Definition rule_field (cls : ascii → bool) (text : string) (tok : string → string) (values : list string) : field :=
  if bool_decide (values = []) || bool_decide ("*" ∈ values) then FAny cls text else FLits (map tok values).

Definition not_space (c : ascii) : bool := negb (ascii_eqb c " "%char).
Definition not_space_slash (c : ascii) : bool := not_space c && negb (ascii_eqb c "/"%char).
Definition table_token (table : gmap string ResourceDef) (v : string) : string :=
  match table !! v with Some def => resource_token def | None => "" end.

Definition rule_pattern (r : K8sRule) (table : gmap string ResourceDef) : kpat :=
  mkKpat (rule_field is_lower "[a-z]+" id (kr_Verbs r))
         (rule_field not_space "[^ ]+" (table_token table) (kr_Resources r))
         (rule_field not_space_slash "[^ /]+" id (kr_Namespaces r))
         (rule_field not_space "[^ ]+" id (kr_Names r)).

Lemma alternates_Ok lit wc tok values alts s :
  (∀ v x, lit v = Ok x → x = QuoteMeta (tok v)) →
  alternates lit wc values (map QuoteMeta alts) = Ok s →
  s = "(?:" +:+ (if bool_decide ("*" ∈ values) then wc
                 else Join (map QuoteMeta (alts ++ map tok values)) "|") +:+ ")".
Proof.
  intros Hlit. revert alts. induction values as [|v values IH]; intros alts; cbn [alternates map].
  { rewrite app_nil_r. rewrite bool_decide_eq_false_2 by set_solver. by intros [= <-]. }
  destruct (bool_decide (v = "*")) eqn:Hv; unbool.
  - intros [= <-]. rewrite bool_decide_eq_true_2 by (subst; set_solver). done.
  - intros (l & Hl & H)%rbind_Ok. apply Hlit in Hl as ->.
    change [QuoteMeta (tok v)] with (map QuoteMeta [tok v]) in H. rewrite <-map_app in H.
    apply IH in H. rewrite <-app_assoc in H. cbn [app] in H. rewrite H.
    assert (bool_decide ("*" ∈ values) = bool_decide ("*" ∈ v :: values)) as -> by
      (apply bool_decide_ext; rewrite elem_of_cons; naive_solver). done.
Qed.

Lemma compileAlternates_Ok cls text tok lit values s :
  (∀ v x, lit v = Ok x → x = QuoteMeta (tok v)) →
  compileAlternates values text lit = Ok s → s = render_field (rule_field cls text tok values).
Proof.
  intros Hlit. unfold compileAlternates, rule_field, render_field.
  destruct values as [|v values]; [by intros [= <-]|].
  intros H. apply (alternates_Ok lit text tok (v :: values) []) in H; [|done].
  rewrite (bool_decide_eq_false_2 (v :: values = [])) by done. simpl orb. rewrite H.
  by case_bool_decide.
Qed.

(** The expression generated for a rule is the rendering of its pattern. *)
Lemma compileK8sRule_render r table re :
  compileK8sRule r table = Ok re → re = render (rule_pattern r table).
Proof.
  unfold compileK8sRule. intros (vs & Hv & (rs & Hr & H)%rbind_Ok)%rbind_Ok.
  apply guard_Ok in H as [_ (ns & Hn & (nm & Hm & [= <-])%rbind_Ok)%rbind_Ok].
  apply (compileAlternates_Ok is_lower _ id) in Hv; [|unfold verb_lit; intros v x; by case_bool_decide; intros [= <-]].
  apply (compileAlternates_Ok not_space _ (table_token table)) in Hr.
  2:{ unfold resource_lit, table_token, k8s_Resolve. intros v x. destruct (table !! v); simpl; [by intros [= <-]|done]. }
  apply (compileAlternates_Ok not_space_slash _ id) in Hn;
    [|unfold namespace_lit; intros v x; by destruct (_ && _); intros [= <-]].
  apply (compileAlternates_Ok not_space _ id) in Hm;
    [|unfold name_lit; intros v x; by destruct (_ && _); intros [= <-]].
  by subst.
Qed.

(** ** Rules read on the fields of the action *)

Definition field_applies (values : list string) (x : string) : bool :=
  bool_decide (values = []) || bool_decide ("*" ∈ values) || bool_decide (x ∈ values).
Definition rule_applies (r : K8sRule) (a : K8sAction) : bool :=
  field_applies (kr_Verbs r) (ka_Verb a) && field_applies (kr_Resources r) (ka_Resource a)
  && field_applies (kr_Namespaces r) (ns_text (ka_Namespace a))
  && field_applies (kr_Names r) (ns_text (ka_Name a)).

Definition has_effect (e : string) (r : K8sRule) : bool := bool_decide (kr_Effect r = e).
Definition permits (r : K8sRule) : bool := has_effect K8sEffectAllow r || has_effect K8sEffectRequireApproval r.

(** Default deny; deny wins; a gated rule both permits and gates. *)
Definition k8s_verdict (rules : list K8sRule) (a : K8sAction) : verdict :=
  if existsb (fun r => has_effect K8sEffectDeny r && rule_applies r a) rules then VDeny
  else if negb (existsb (fun r => permits r && rule_applies r a) rules) then VDeny
  else if existsb (fun r => has_effect K8sEffectRequireApproval r && rule_applies r a) rules then VApproval
  else VAllow.

(** A resource table is keyed by its plural names, which are labels. *)
Definition table_ok (table : gmap string ResourceDef) : Prop :=
  map_Forall (fun k def => rd_Resource def = k ∧ reLabel k = true ∧
                (bool_decide (rd_Group def = "") || reSubdomain (rd_Group def)) = true) table.

Lemma core_table_ok : table_ok core_table.
Proof.
  assert (H : forallb (fun kv => bool_decide (rd_Resource kv.2 = kv.1) && reLabel kv.1
    && (bool_decide (rd_Group kv.2 = "") || reSubdomain (rd_Group kv.2))) (map_to_list core_table) = true)
    by (vm_compute; reflexivity).
  intros k def Hk. rewrite forallb_forall in H. specialize (H (k, def)).
  rewrite <-list_elem_of_In, elem_of_map_to_list in H. specialize (H Hk). simpl in H. unbool. done.
Qed.

Lemma add_extra_ok extra table table' : table_ok table → add_extra table extra = Ok table' → table_ok table'.
Proof.
  revert table. induction extra as [|r extra IH]; intros table Hok; simpl; [by intros [= <-]|].
  intros H. apply guard_Ok in H as [_ H]. apply guard_Ok in H as [Hl H]. apply guard_Ok in H as [Hg H].
  apply guard_Ok in H as [_ H]. destruct (table !! rd_Resource r); [done|].
  apply IH in H; [done|]. by apply map_Forall_insert_2.
Qed.

Lemma Resources_ok extra table : Resources extra = Ok table → table_ok table.
Proof. apply add_extra_ok, core_table_ok. Qed.

Lemma add_extra_keeps extra table table' k def :
  add_extra table extra = Ok table' → table !! k = Some def → table' !! k = Some def.
Proof.
  revert table. induction extra as [|r extra IH]; intros table; simpl; [by intros [= <-]|].
  intros H Hk. do 4 apply guard_Ok in H as [_ H]. destruct (table !! rd_Resource r) eqn:Hr; [done|].
  apply IH in H; [done|]. rewrite lookup_insert_ne; [done|]. intros <-. congruence.
Qed.

(** No extra resource can redefine a core one. *)
Lemma Resources_core extra table k def :
  Resources extra = Ok table → core_table !! k = Some def → table !! k = Some def.
Proof. apply add_extra_keeps. Qed.

Lemma kpat_matches_fields kp a :
  ka_Validate a = Ok () →
  kpat_matches kp (Canonical a) =
  field_matches (kp_verbs kp) (ka_Verb a)
  && field_matches (kp_resources kp) (res_text (ka_Resource a) (ka_Group a))
  && field_matches (kp_namespaces kp) (ns_text (ka_Namespace a))
  && field_matches (kp_names kp) (ns_text (ka_Name a)).
Proof.
  intros (Hv & Hr & Hg & Hn & Hm)%Validate_fields. unfold kpat_matches. rewrite Canonical_text.
  rewrite Cut_app by (by apply verb_no_space). rewrite Cut_app by (by apply res_text_no_space).
  by rewrite Cut_app by (by apply ns_text_no_slash).
Qed.

(** A field's pattern matches a value of the right alphabet exactly when the
    field applies. *)
Lemma rule_field_id cls text values x :
  x ≠ "" → forall_char cls x = true →
  field_matches (rule_field cls text id values) x = field_applies values x.
Proof.
  intros Hx Hc. unfold rule_field, field_applies.
  destruct (_ || _) eqn:Hw; simpl; [by rewrite Hc, bool_decide_eq_true_2|].
  by rewrite map_id.
Qed.

Lemma res_token_text def : resource_token def = res_text (rd_Resource def) (rd_Group def).
Proof. done. Qed.

Lemma rule_field_resource table values resource def :
  table_ok table → table !! resource = Some def →
  (bool_decide ("*" ∈ values) = false → Forall (fun v => is_Some (table !! v)) values) →
  field_matches (rule_field not_space "[^ ]+" (table_token table) values) (res_text resource (rd_Group def))
  = field_applies values resource.
Proof.
  intros Hok Hdef Hres. destruct (Hok _ _ Hdef) as (Hk & Hl & Hg). unfold rule_field, field_applies.
  destruct (bool_decide (values = []) || bool_decide ("*" ∈ values)) eqn:Hw; simpl.
  - rewrite bool_decide_eq_true_2.
    + pose proof (res_text_no_space _ _ Hl Hg) as Hs. unfold ContainsByte in Hs.
      rewrite exists_char_false in Hs. apply negb_false_iff in Hs.
      eapply forall_char_impl; [|exact Hs]. intros c Hc. unfold not_space, ascii_eqb in *.
      apply negb_true_iff, bool_decide_eq_false. apply negb_true_iff, bool_decide_eq_false in Hc. congruence.
    + unfold res_text. destruct resource as [|c0 r0]; [done|]. destruct (bool_decide (rd_Group def ≠ "")); simpl; discriminate.
  - apply orb_false_iff in Hw as [_ Hw]. specialize (Hres Hw). apply bool_decide_ext.
    rewrite list_elem_of_In, in_map_iff. setoid_rewrite <-list_elem_of_In. split.
    + intros (v & Ht & Hv). rewrite Forall_forall in Hres. destruct (Hres v Hv) as [dv Hdv].
      unfold table_token in Ht. rewrite Hdv, res_token_text in Ht.
      destruct (Hok _ _ Hdv) as (<- & Hlv & _). apply res_text_inj in Ht as [Ht _]; [|done..]. by rewrite <-Ht.
    + intros Hv. exists resource. split; [|done]. unfold table_token. rewrite Hdef, res_token_text, Hk. done.
Qed.

(** A compiled rule names only resources of the table (up to a wildcard). *)
Lemma alternates_all lit wc values alts s :
  alternates lit wc values alts = Ok s → bool_decide ("*" ∈ values) = false →
  Forall (fun v => is_ok (lit v) = true) values.
Proof.
  revert alts. induction values as [|v values IH]; intros alts; cbn [alternates]; [constructor|].
  destruct (bool_decide (v = "*")) eqn:Hv; unbool.
  - intros _ Hf. unbool. set_solver.
  - intros (l & Hl & H)%rbind_Ok Hf. unbool. constructor; [by rewrite Hl|].
    eapply IH; [exact H|]. apply bool_decide_eq_false. set_solver.
Qed.

Lemma compileK8sRule_resources r table re :
  compileK8sRule r table = Ok re → bool_decide ("*" ∈ kr_Resources r) = false →
  Forall (fun v => is_Some (table !! v)) (kr_Resources r).
Proof.
  unfold compileK8sRule. intros (vs & _ & (rs & Hr & _)%rbind_Ok)%rbind_Ok Hw.
  unfold compileAlternates in Hr. destruct (kr_Resources r) as [|v l] eqn:Hl; [constructor|].
  eapply alternates_all in Hr; [|done]. eapply Forall_impl; [exact Hr|].
  intros x. unfold resource_lit, k8s_Resolve. destruct (table !! x); [eauto|done].
Qed.

Lemma verb_chars v : v ∈ K8sVerbs → v ≠ "" ∧ forall_char is_lower v = true.
Proof. unfold K8sVerbs. rewrite !elem_of_cons, elem_of_nil. by intros [->|[->|[->|[->|[->|[]]]]]]. Qed.

Definition byte_implies (p q : ascii → bool) : bool :=
  forallb (fun n => implb (p (ascii_of_nat n)) (q (ascii_of_nat n))) (seq 0 256).
Lemma byte_implies_spec p q : byte_implies p q = true → ∀ c, p c = true → q c = true.
Proof.
  unfold byte_implies. rewrite forallb_forall. intros H c Hc. specialize (H (nat_of_ascii c)).
  rewrite ascii_nat_embedding, Hc in H. apply H. apply in_seq. pose proof (nat_ascii_bounded c). lia.
Qed.

Lemma ns_text_chars s :
  (bool_decide (s = "") || reLabel s) = true →
  ns_text s ≠ "" ∧ forall_char not_space_slash (ns_text s) = true.
Proof.
  unfold ns_text. case_bool_decide; [done|]. simpl. intros Hl%label_chars. split; [done|].
  eapply forall_char_impl; [|exact Hl]. by apply byte_implies_spec.
Qed.
Lemma name_text_chars s :
  (bool_decide (s = "") || reSubdomain s) = true →
  ns_text s ≠ "" ∧ forall_char not_space (ns_text s) = true.
Proof.
  unfold ns_text. case_bool_decide; [done|]. simpl. intros Hl%subdomain_chars. split; [done|].
  eapply forall_char_impl; [|exact Hl]. by apply byte_implies_spec.
Qed.

(** The normalized actions of a cluster. *)
Definition normalized (table : gmap string ResourceDef) (a : K8sAction) : Prop :=
  ka_Validate a = Ok () ∧ ∃ def, table !! ka_Resource a = Some def ∧ ka_Group a = rd_Group def.

Lemma rule_pattern_applies r table re a :
  table_ok table → normalized table a → compileK8sRule r table = Ok re →
  kpat_matches (rule_pattern r table) (Canonical a) = rule_applies r a.
Proof.
  intros Hok [Hval (def & Hdef & Hg)] Hc. rewrite kpat_matches_fields by done.
  apply Validate_fields in Hval as (Hv & Hr & Hgr & Hn & Hm). unfold rule_pattern, rule_applies. simpl.
  destruct (verb_chars _ Hv), (ns_text_chars _ Hn), (name_text_chars _ Hm).
  rewrite !rule_field_id by done. rewrite Hg. erewrite rule_field_resource; [done|done|done|].
  by eapply compileK8sRule_resources.
Qed.

(** ** The compiled set decides as the rules read *)

Section exactness.
Context `{RE : RegexpEngine} `{SP : ShellParser}.
Implicit Types (table : gmap string ResourceDef) (rules : list K8sRule).

Definition rule_text table (r : K8sRule) : string := render (rule_pattern r table).

Lemma compile_rules_Ok n rules table al ap dn al' ap' dn' :
  compile_rules n rules table al ap dn = Ok (al', ap', dn') →
  al' = al ++ map (rule_text table) (List.filter permits rules) ∧
  ap' = ap ++ map (rule_text table) (List.filter (has_effect K8sEffectRequireApproval) rules) ∧
  dn' = dn ++ map (rule_text table) (List.filter (has_effect K8sEffectDeny) rules) ∧
  Forall (fun r => is_ok (compileK8sRule r table) = true) rules.
Proof.
  revert n al ap dn. induction rules as [|r rules IH]; intros n al ap dn; cbn [compile_rules].
  { intros [= <- <- <-]. by rewrite !app_nil_r. }
  intros (re & Hre & H)%rbind_Ok. unfold rmap_err in Hre.
  destruct (compileK8sRule r table) as [re'|] eqn:Hc; [|done]. injection Hre as ->.
  apply compileK8sRule_render in Hc as Hre. fold (rule_text table r) in Hre. subst re.
  cbn [List.filter].
  assert (permits r = has_effect K8sEffectAllow r || has_effect K8sEffectRequireApproval r) as -> by done.
  assert (Hexcl : ∀ e, kr_Effect r = e → ∀ e', has_effect e' r = bool_decide (e = e')).
  { by intros e <- e'. }
  destruct (bool_decide (kr_Effect r = K8sEffectAllow)) eqn:H1;
    [|destruct (bool_decide (kr_Effect r = K8sEffectDeny)) eqn:H2;
      [|destruct (bool_decide (kr_Effect r = K8sEffectRequireApproval)) eqn:H3; [|done]]];
    apply IH in H as (-> & -> & -> & Hall); unbool;
    match goal with E : kr_Effect r = _ |- _ => rewrite !(Hexcl _ E) end;
    cbn; rewrite <-?app_assoc; (split_and!; [done..|]); constructor; try done; by rewrite Hc.
Qed.

Lemma some_match_rules rules table (f : K8sRule → bool) a :
  table_ok table → normalized table a →
  Forall (fun r => is_ok (compileK8sRule r table) = true) rules →
  Forall (fun r => re2_agrees (rule_pattern r table)) rules →
  some_match (map (rule_text table) (List.filter f rules)) (Canonical a)
  = existsb (fun r => f r && rule_applies r a) rules.
Proof.
  intros Hok Ha Hc Hre. unfold some_match. induction rules as [|r rules IH]; [done|].
  apply Forall_cons in Hc as [Hc Hcs]. apply Forall_cons in Hre as [(m & Hm & Hms) Hres].
  cbn [List.filter existsb]. rewrite <-(IH Hcs Hres). destruct (f r); [|done]. cbn [map existsb andb].
  destruct (compileK8sRule r table) as [re|] eqn:Hcr; [|done].
  unfold pat_matches at 1. unfold rule_text at 1. rewrite Hm, Hms.
  by rewrite (rule_pattern_applies _ _ _ _ Hok Ha Hcr).
Qed.

Lemma k8s_set_patterns al ap dn :
  deny_patterns (k8s_policy_set al ap dn) = dn ∧ approval_patterns (k8s_policy_set al ap dn) = ap ∧
  allow_patterns (k8s_policy_set al ap dn) = al ∧ hasAllowlist (k8s_policy_set al ap dn) = true ∧
  shellParse (k8s_policy_set al ap dn) = true.
Proof.
  unfold k8s_policy_set, deny_patterns, approval_patterns, allow_patterns.
  destruct (bool_decide (dn ≠ [])) eqn:Hd; unbool; simpl; rewrite ?app_nil_r; [done|].
  split_and!; try done. symmetry. by apply dec_stable.
Qed.

(** The front end reads a canonical action as its three words. *)
Definition canonical_words (a : K8sAction) : list string :=
  [ka_Verb a; res_text (ka_Resource a) (ka_Group a); ns_text (ka_Namespace a) +:+ "/" +:+ ns_text (ka_Name a)].
Definition reads_plain (ws : list string) : Prop :=
  sh_Parse (Join ws " ")
  = Some [mkStmt false false false (Some (CallExpr [] (map (fun w => [Lit w]) ws))) []] ∧
  ∀ w, w ∈ ws → expand_Literal [Lit w] = Some w.

Lemma Canonical_words a : Join (canonical_words a) " " = Canonical a.
Proof. done. Qed.

Definition plain_word_char (c : ascii) : bool := subdomain_char c || ascii_eqb c "/"%char.

Lemma literalWord_plain w :
  forall_char plain_word_char w = true → expand_Literal [Lit w] = Some w → literalWord [Lit w] = Ok w.
Proof.
  intros Hc He. unfold literalWord. simpl isStaticWord. cbn [rbind].
  assert (Hno : ∀ x, plain_word_char x = false → ContainsByte w x = false)
    by (intros x Hx; by eapply chars_exclude).
  unfold rejectShellExpansion. simpl.
  assert (ContainsAny w "*?[{}" = false) as ->.
  { unfold ContainsAny. rewrite exists_char_false. apply negb_false_iff.
    eapply forall_char_impl; [|exact Hc]. intros c Hp.
    by apply (byte_implies_spec plain_word_char (fun c => negb (ContainsByte "*?[{}" c))). }
  assert (Hpre : ∀ x, plain_word_char x = false → HasPrefix w (String x "") = false).
  { intros x Hx. apply not_true_iff_false. intros [t ->]%prefix_spec. simpl in Hc.
    apply andb_true_iff in Hc as [Hc _]. congruence. }
  rewrite (Hpre "~"%char), (Hpre "="%char) by done. simpl. rewrite ?andb_false_r. simpl.
  rewrite (Hno "092"%char) by done. by rewrite He.
Qed.

Lemma space_len_space s : space_len (String " "%char s) = 1%nat.
Proof. reflexivity. Qed.

Lemma fields_first v rest cur :
  forall_char plain_char v = true →
  fields_aux (v +:+ String " "%char rest) 0 cur
  = (if bool_decide (cur +:+ v = "") then [] else [cur +:+ v]) ++ fields_aux rest 0 "".
Proof.
  revert cur. induction v as [|c v IH]; intros cur Hv.
  - rewrite String_append_nil. change ("" +:+ String " "%char rest) with (String " "%char rest).
    cbn [fields_aux]. by rewrite space_len_space.
  - cbn [forall_char] in Hv. apply andb_true_iff in Hv as [Hc Hv].
    change (String c v +:+ String " "%char rest) with (String c (v +:+ String " "%char rest)).
    cbn [fields_aux]. rewrite space_len_plain by done. rewrite IH by done.
    by rewrite String_append_assoc.
Qed.

Lemma verb_not_hidden v rest :
  v ∈ K8sVerbs → commandHidingWrapper (v +:+ String " "%char rest) = None ∧
  findExecAction (v +:+ String " "%char rest) = None.
Proof.
  intros Hv. unfold commandHidingWrapper, findExecAction, Fields.
  rewrite Cut_app by (by apply verb_no_space).
  rewrite fields_first.
  2:{ destruct (verb_chars _ Hv) as [_ Hl]. eapply forall_char_impl; [|exact Hl]. by apply byte_implies_spec. }
  unfold K8sVerbs in Hv. rewrite !elem_of_cons, elem_of_nil in Hv.
  destruct Hv as [->|[->|[->|[->|[->|[]]]]]]; split; reflexivity.
Qed.

Lemma label_plain s : reLabel s = true → forall_char plain_word_char s = true.
Proof. intros H%label_chars. eapply forall_char_impl; [|exact H]. by apply byte_implies_spec. Qed.
Lemma subdomain_plain s : reSubdomain s = true → forall_char plain_word_char s = true.
Proof. intros H%subdomain_chars. eapply forall_char_impl; [|exact H]. by apply byte_implies_spec. Qed.
Lemma ns_text_plain s : s = "" ∨ forall_char plain_word_char s = true → forall_char plain_word_char (ns_text s) = true.
Proof. unfold ns_text. case_bool_decide; [done|]. by intros [?|?]. Qed.

Lemma canonical_words_plain a :
  ka_Validate a = Ok () →
  forall_char plain_word_char (ka_Verb a) = true ∧
  forall_char plain_word_char (res_text (ka_Resource a) (ka_Group a)) = true ∧
  forall_char plain_word_char (ns_text (ka_Namespace a) +:+ "/" +:+ ns_text (ka_Name a)) = true.
Proof.
  intros (Hv & Hr & Hg & Hn & Hm)%Validate_fields.
  rewrite orb_true_iff, bool_decide_eq_true in Hg, Hn, Hm. split_and!.
  - destruct (verb_chars _ Hv) as [_ Hl]. eapply forall_char_impl; [|exact Hl]. by apply byte_implies_spec.
  - unfold res_text. case_bool_decide; [|by apply label_plain]. destruct Hg as [?|Hg]; [done|].
    rewrite !forall_char_app, (label_plain _ Hr), (subdomain_plain _ Hg). done.
  - rewrite !forall_char_app, (ns_text_plain (ka_Namespace a)), (ns_text_plain (ka_Name a)); [done| |].
    + destruct Hm; [by left|right; by apply subdomain_plain].
    + destruct Hn; [by left|right; by apply label_plain].
Qed.

Lemma extract_canonical a :
  ka_Validate a = Ok () → reads_plain (canonical_words a) →
  extractCommands (Canonical a) = Ok [Canonical a].
Proof.
  intros Ha [Hp Hl]. pose proof Ha as (Hv & _)%Validate_fields.
  unfold extractCommands. rewrite <-Canonical_words, Hp.
  assert (Hwords : map_each literalWord (map (fun w => [Lit w]) (canonical_words a)) = Ok (canonical_words a)).
  { destruct (canonical_words_plain a) as (H1 & H2 & H3); [done|].
    unfold canonical_words in *. cbn [map map_each].
    rewrite (literalWord_plain _ H1), (literalWord_plain _ H2), (literalWord_plain _ H3) by (apply Hl; set_solver).
    done. }
  destruct (verb_not_hidden (ka_Verb a) (Join (tail (canonical_words a)) " ") Hv) as [Hh Hf].
  change (ka_Verb a +:+ String " "%char (Join (tail (canonical_words a)) " "))
    with (Join (canonical_words a) " ") in Hh, Hf.
  unfold file_node, stmt_node. cbn [map st_Cmd st_Redirs option_list option_rect app].
  assert (Hvis : visit (CallExpr [] (map (fun w => [Lit w]) (canonical_words a)))
                 = Ok [Join (canonical_words a) " "]).
  { unfold visit. cbn [map canonical_words]. fold (canonical_words a).
    unfold literalArgs. unfold canonical_words in Hwords. cbn [map] in Hwords. rewrite Hwords. cbn [rbind].
    fold (canonical_words a). rewrite Hh, Hf. done. }
  rewrite walk_spec. cbn [subnodes flat_map app map_each].
  rewrite Hvis. reflexivity.
Qed.

Lemma compileK8sRules_Ok rules table ps :
  compileK8sRules rules table = Ok ps →
  patterns_ok ps ∧ Forall (fun r => is_ok (compileK8sRule r table) = true) rules ∧
  ps = k8s_policy_set (map (rule_text table) (List.filter permits rules))
         (map (rule_text table) (List.filter (has_effect K8sEffectRequireApproval) rules))
         (map (rule_text table) (List.filter (has_effect K8sEffectDeny) rules)).
Proof.
  unfold compileK8sRules. intros ([[al ap] dn] & Hc & H)%rbind_Ok.
  apply compile_rules_Ok in Hc as (-> & -> & -> & Hall). cbn [app] in H.
  destruct (bool_decide _); [done|]. apply rbind_Ok in H as ([] & Hv & [= <-]).
  split_and!; [|done|done]. apply ps_Validate_patterns.
  unfold rmap_err in Hv. by destruct (ps_Validate _) as [[]|].
Qed.

(** The same with allow-only members added: they can only stand in for a
    permitting rule. *)
Definition k8s_verdict_with (granted : bool) (rules : list K8sRule) (a : K8sAction) : verdict :=
  if existsb (fun r => has_effect K8sEffectDeny r && rule_applies r a) rules then VDeny
  else if negb (existsb (fun r => permits r && rule_applies r a) rules || granted) then VDeny
  else if existsb (fun r => has_effect K8sEffectRequireApproval r && rule_applies r a) rules then VApproval
  else VAllow.

Lemma k8s_widened_verdict rules table ps a gs :
  compileK8sRules rules table = Ok ps → table_ok table → normalized table a →
  Forall (fun r => re2_agrees (rule_pattern r table)) rules → reads_plain (canonical_words a) →
  Forall allow_only gs →
  spec_decide (ps ++ gs) (Canonical a)
  = k8s_verdict_with (some_match (allow_patterns gs) (Canonical a)) rules a.
Proof.
  intros (Hok & Hall & ->)%compileK8sRules_Ok Ht Ha Hre Hsh Hgs.
  destruct (k8s_set_patterns (map (rule_text table) (List.filter permits rules))
    (map (rule_text table) (List.filter (has_effect K8sEffectRequireApproval) rules))
    (map (rule_text table) (List.filter (has_effect K8sEffectDeny) rules))) as (Hd & Hr & Hl & Hal & Hp).
  destruct (allow_only_patterns _ Hgs) as [Hgd Hgr].
  unfold spec_decide. rewrite bool_decide_eq_false_2 by done. rewrite shellParse_app, Hp. cbn [orb].
  rewrite extract_canonical by (done || apply Ha). cbn [spec_line foldr]. rewrite worst_VAllow_r.
  unfold spec_one, k8s_verdict_with. rewrite deny_patterns_app, approval_patterns_app, allow_patterns_app,
    hasAllowlist_app, Hgd, Hgr, !app_nil_r, some_match_app, Hd, Hr, Hl, Hal, !some_match_rules by done.
  done.
Qed.

Lemma k8s_policy_verdict rules table ps a :
  compileK8sRules rules table = Ok ps → table_ok table → normalized table a →
  Forall (fun r => re2_agrees (rule_pattern r table)) rules → reads_plain (canonical_words a) →
  verdict_of (Decide ps (Canonical a)) = k8s_verdict rules a.
Proof.
  intros Hc Ht Ha Hre Hsh. pose proof Hc as (Hok & _)%compileK8sRules_Ok.
  rewrite Decide_verdict by done. rewrite <-(app_nil_r ps).
  rewrite (k8s_widened_verdict _ _ _ _ [] Hc) by (done || constructor).
  unfold k8s_verdict_with, k8s_verdict. by rewrite orb_false_r.
Qed.

(** [C27] Cluster rules mean what they say: for a loaded rule list and any valid
    action normalised against the cluster's table, the decision the generated
    expressions take on the canonical string is the one read off the structured
    rules on the action's fields: nothing unmatched is allowed, deny wins, a
    [require_approval] rule permits and gates, and no literal of a rule can
    match more than itself. *)
Theorem cluster_policy_exact rules table ps a :
  compileK8sRules rules table = Ok ps → table_ok table → normalized table a →
  Forall (fun r => re2_agrees (rule_pattern r table)) rules → reads_plain (canonical_words a) →
  verdict_of (Decide ps (Canonical a)) = k8s_verdict rules a.
Proof. apply k8s_policy_verdict. Qed.

(** ** Resolution of an intent *)

(** What the gates establish. *)
Record k8s_admitted (ct : ClusterTable) (i : Intent) (cp : ClusterPolicy) (action : K8sAction) : Prop := {
  ad_cluster : ct !! in_Host i = Some cp;
  ad_command : in_Command i = Canonical action;
  ad_shape : in_Sudo i = false ∧ in_PTY i = false ∧ in_FileTransfer i = false ∧
    in_Purpose i = PurposeOneshot ∧ in_Role i = RoleTarget;
  ad_caller : cl_AllowedCallers cp = [] ∨ in_Caller i ∈ cl_AllowedCallers cp;
  ad_groups : ∀ gs, in_EndUserGroups i = Some gs → ∃ g, g ∈ cl_Groups cp ∧ g ∈ gs;
  ad_action : ∃ a def, in_K8s i = Some a ∧ ka_Validate a = Ok () ∧
    cl_Resources cp !! ka_Resource a = Some def ∧
    (ka_Group a = "" ∨ ka_Group a = rd_Group def) ∧ action = normalize def a;
}.

Lemma k8s_gates_Ok ct i cp action : k8s_gates ct i = Ok (cp, action) → k8s_admitted ct i cp action.
Proof.
  unfold k8s_gates. destruct (ct !! in_Host i) as [cp'|] eqn:Hct; [|done].
  destruct (in_K8s i) as [a|] eqn:Hk; [|done].
  intros ([] & Hv & H)%rbind_Ok.
  apply guard_Ok in H as [H1 H]. apply guard_Ok in H as [H2 H]. apply guard_Ok in H as [H3 H].
  apply guard_Ok in H as [H4 H]. apply guard_Ok in H as [H5 H]. apply guard_Ok in H as [_ H].
  apply guard_Ok in H as [H7 H]. apply guard_Ok in H as [H8 H].
  apply rbind_Ok in H as (def & Hd & H). apply guard_Ok in H as [H9 [= -> <-]].
  unfold rmap_err in Hv, Hd. destruct (ka_Validate a) as [[]|] eqn:Ha; [|done].
  destruct (k8s_Resolve _ _ _) as [def'|] eqn:Hr; [|done]. injection Hd as ->.
  unfold k8s_Resolve in Hr. destruct (cl_Resources cp !! _) as [def'|] eqn:Hdef; [|done].
  apply guard_Ok in Hr as [Hg [= ->]]. rewrite orb_true_iff, !bool_decide_eq_true in Hg.
  unbool. constructor; try done.
  - by apply callerAllowed_spec.
  - intros gs Hgs. rewrite Hgs in H8. by apply GroupsIntersect_spec.
  - eauto 10.
Qed.

(** Dropping the namespace of a cluster-scoped resource and filling in the
    group keep an action valid. *)
Lemma normalize_valid def a :
  ka_Validate a = Ok () → (ka_Group a = "" ∨ ka_Group a = rd_Group def) →
  (bool_decide (rd_Group def = "") || reSubdomain (rd_Group def)) = true →
  (rd_Resource def = "pods" → rd_Group def = "" ∧ rd_Namespaced def = true) → rd_Resource def = ka_Resource a →
  ka_Validate (normalize def a) = Ok ().
Proof.
  intros Hv Hg Hgr Hpods Hres. pose proof Hv as Hf. apply Validate_fields in Hf as (H1 & H2 & _ & H4 & H5).
  unfold ka_Validate, normalize in *. simpl. rewrite bool_decide_eq_true_2 in Hv |- * by done.
  unfold reK8sResource, reK8sGroup, reK8sNamespace, reK8sName in *. rewrite H2, Hgr in *. rewrite H4, H5 in *.
  destruct (_ || reSubdomain (ka_Group a)) in Hv; [|done].
  assert ((bool_decide ((if rd_Namespaced def then ka_Namespace a else "") = "")
           || reLabel (if rd_Namespaced def then ka_Namespace a else "")) = true) as ->
    by (destruct (rd_Namespaced def); done).
  destruct (bool_decide (ka_Verb a = K8sVerbList)); [done|].
  destruct (bool_decide (ka_Verb a = K8sVerbLogs)); [|done].
  destruct (bool_decide (ka_Resource a = "pods")) eqn:Hp; [|done]. apply bool_decide_eq_true in Hp.
  destruct Hpods as [Hg0 Hns]; [congruence|]. rewrite Hg0, Hns.
  by destruct (bool_decide (ka_Group a = "")).
Qed.

(** What loading the clusters establishes of each. *)
Lemma CompileClusterPolicies_cluster env iter clusters hosts ct name cp :
  CompileClusterPolicies env iter clusters hosts = Ok ct → ct !! name = Some cp →
  hosts !! name = None ∧ reK8sClusterName name = true ∧
  Resources (cl_ExtraResources cp) = Ok (cl_Resources cp) ∧
  compileK8sRules (cl_Rules cp) (cl_Resources cp) = Ok (cl_Policies cp) ∧
  600 ≤ cl_TokenTTLSeconds cp ≤ 900.
Proof.
  unfold CompileClusterPolicies. intros (out & Hout & [= <-])%rbind_Ok Hcp.
  apply elem_of_list_to_map_2 in Hcp. apply map_each_Ok in Hout.
  apply list_elem_of_lookup in Hcp as [k Hk].
  eapply Forall2_lookup_r in Hout as ([n cp0] & _ & Hc); [|exact Hk].
  unfold compile_cluster_entry in Hc. cbn [fst snd] in Hc.
  apply guard_Ok in Hc as [Hn Hc]. apply guard_Ok in Hc as [Hh Hc].
  apply rbind_Ok in Hc as (cp' & Hc & [= -> ->]). unfold compileCluster in Hc.
  apply guard_Ok in Hc as [_ Hc]. apply guard_Ok in Hc as [_ Hc].
  destruct (cv_readFile _ _); [|done]. destruct (cv_parseCABundle _ _); [|done].
  apply guard_Ok in Hc as [_ Hc]. apply guard_Ok in Hc as [Httl Hc]. apply guard_Ok in Hc as [_ Hc].
  apply rbind_Ok in Hc as ([] & _ & Hc). apply rbind_Ok in Hc as (table & Ht & Hc).
  apply rbind_Ok in Hc as (ps & Hps & [= <-]). unfold rmap_err in Ht.
  destruct (Resources _) as [t|] eqn:HR; [|done]. injection Ht as ->.
  apply negb_true_iff, bool_decide_eq_false in Hh. rewrite <-eq_None_not_Some in Hh.
  unfold k8sTokenTTLMin, k8sTokenTTLMax in Httl. unbool. simpl. split_and!; try done; lia.
Qed.

Lemma k8s_set_enforces al ap dn :
  ps_Restricts (k8s_policy_set al ap dn) = true ∧
  Enforcement (k8s_policy_set al ap dn) = CmdPolicyEnforce.
Proof. unfold k8s_policy_set. by destruct (bool_decide (dn ≠ [])). Qed.

Lemma effective_k8s ps : ps ≠ [] → effectivePolicies (k8s_host ps) = ps.
Proof. by destruct ps. Qed.

Lemma pods_core : core_table !! "pods" = Some (mkResourceDef "pods" "" "v1" "Pod" true).
Proof. reflexivity. Qed.

(** An admitted action is normalised. *)
Lemma admitted_normalized ct i cp action :
  k8s_admitted ct i cp action → Resources (cl_ExtraResources cp) = Ok (cl_Resources cp) →
  normalized (cl_Resources cp) action.
Proof.
  intros [_ _ _ _ _ (a & def & _ & Hv & Hdef & Hg & ->)] HR.
  destruct (Resources_ok _ _ HR _ _ Hdef) as (Hk & Hl & Hgr). split; [|by exists def].
  apply normalize_valid; [done|done|done| |done]. intros Hp. rewrite Hk in Hp. rewrite Hp in Hdef.
  rewrite (Resources_core _ _ _ _ HR pods_core) in Hdef. by injection Hdef as <-.
Qed.

(** The live grants of an intent, when there are any. *)
Definition live_grants (g : option GrantProvider) (i : Intent) (ck : clocks) : PolicySet :=
  match g with Some gp => gp_GrantsFor gp (in_Host i) i (ck_grants ck) | None => [] end.

Lemma allow_patterns_audit gs : allow_patterns (set_audit <$> gs) = allow_patterns gs.
Proof. induction gs as [|p gs IH]; [done|]. rewrite fmap_cons. unfold allow_patterns in *. simpl. by rewrite IH. Qed.

Lemma widened_grants hp i g ck :
  hasAllowlist (effectivePolicies hp) = true → widen_only g →
  ∃ gs, widened hp i g (ck_grants ck) = effectivePolicies hp ++ gs ∧ Forall allow_only gs ∧
    allow_patterns gs = allow_patterns (live_grants g i ck).
Proof.
  intros Hal Hwo. unfold widened, live_grants. destruct g as [gp|]; [|exists []; by rewrite app_nil_r].
  rewrite Hal. case_bool_decide as Hg; [exists []; by rewrite app_nil_r, Hg|]. simpl in Hwo.
  eexists. split_and!; [done| |].
  - case_bool_decide; [|apply wo_allow_only]. apply Forall_fmap. eapply Forall_impl; [apply wo_allow_only|done].
  - case_bool_decide; [|done]. apply allow_patterns_audit.
Qed.

(** A Kubernetes request is decided on the action that runs: when an intent
    resolves on a loaded cluster, its command text is the canonical form of the
    normalised structured action, no deny rule applies to that action whatever
    grants are live, some rule permits it or a live grant does, and if a rule
    gates it the decision asks for approval unless a waiver is live. *)
Theorem k8s_request_decided_on_action env iter clusters hosts ct i g ck d res :
  CompileClusterPolicies env iter clusters hosts = Ok ct → widen_only g →
  resolveK8s ct i g ck = (d, res, None) →
  ∃ cp a, ct !! in_Host i = Some cp ∧ dc_K8sAction d = Some a ∧ in_Command i = Canonical a ∧
    (Forall (fun r => re2_agrees (rule_pattern r (cl_Resources cp))) (cl_Rules cp) →
     reads_plain (canonical_words a) →
     k8s_verdict_with (some_match (allow_patterns (live_grants g i ck)) (Canonical a)) (cl_Rules cp) a ≠ VDeny ∧
     (k8s_verdict_with (some_match (allow_patterns (live_grants g i ck)) (Canonical a)) (cl_Rules cp) a = VApproval →
      dc_RequireApproval d = true ∨
      ∃ gp, g = Some gp ∧ gp_WaiverMatches gp (in_Host i) i (ck_waiver ck) = true)).
Proof.
  intros Hcomp Hwo Hres. unfold resolveK8s in Hres.
  destruct (k8s_gates ct i) as [[cp a]|] eqn:Hgates; [|done]. apply k8s_gates_Ok in Hgates as Had.
  destruct (resolveCommandPolicy _ i g ck) as [cr [e|]] eqn:Hcr; [done|]. injection Hres as <- <-.
  exists cp, a. pose proof (ad_cluster _ _ _ _ Had) as Hct. pose proof (ad_command _ _ _ _ Had) as Hcmd.
  destruct (ad_shape _ _ _ _ Had) as (_ & _ & _ & Hpur & Hrole).
  split_and!; [done|done|done|]. intros Hre Hsh.
  destruct (CompileClusterPolicies_cluster _ _ _ _ _ _ _ Hcomp Hct) as (_ & _ & HR & Hps & _).
  pose proof (admitted_normalized _ _ _ _ Had HR) as Hnorm.
  pose proof Hps as (Hok & _ & Hset)%compileK8sRules_Ok.
  assert (Heff : effectivePolicies (k8s_host (cl_Policies cp)) = cl_Policies cp)
    by (apply effective_k8s; by rewrite Hset).
  apply resolveCommandPolicy_None in Hcr; rewrite ?Heff, ?Hset; try done; [|by rewrite <-Hset|by apply k8s_set_enforces..].
  destruct Hcr as [_ Hcr]. destruct Hcr as [Hnd Hap]; [by left|]. simpl.
  destruct (widened_grants (k8s_host (cl_Policies cp)) i g ck) as (gs & Hw & Hao & Hgs); [|done|].
  { rewrite Heff, Hset. apply k8s_set_patterns. }
  rewrite Hw, Heff, Hcmd, (k8s_widened_verdict _ _ _ _ _ Hps), Hgs in Hnd, Hap; try done; eauto using Resources_ok.
Qed.
End exactness.

(** ** A concrete cluster *)

(** An engine that knows the expressions of a list of patterns. *)
Definition pattern_engine (kps : list kpat) : RegexpEngine := fun pat =>
  option_map kpat_matches (list_find_first (fun kp => bool_decide (render kp = pat)) kps).

Definition sample_rules : list K8sRule :=
  [mkK8sRule ["get"; "list"] ["pods"; "deployments"] ["prod"] [] K8sEffectAllow;
   mkK8sRule ["delete"] ["*"] [] [] K8sEffectRequireApproval;
   mkK8sRule ["*"] ["secrets"] [] [] K8sEffectDeny].
Definition sample_engine : RegexpEngine :=
  pattern_engine (map (fun r => rule_pattern r core_table) sample_rules).
Definition sample_cluster : ClusterPolicy :=
  mkClusterPolicy "https://k8s:6443" "/ca.pem" "/token" 0 ["ops"] [] [mkSABinding [] "infra" "reader"]
    sample_rules [] [] ∅ "".
Definition sample_cluster_env : cluster_env :=
  mkClusterEnv (fun u => HasPrefix u "https://") (fun _ => Some "PEM") Some (fun _ => true).
Definition sample_clusters : ClusterTable :=
  match @CompileClusterPolicies sample_engine sample_cluster_env map_to_list {["prod-k8s" := sample_cluster]} ∅ with
  | Ok ct => ct | Err _ => ∅ end.

Example sample_k8s_verdicts :
  map (k8s_verdict sample_rules)
    [mkK8sAction "get" "pods" "" "prod" "api-1"; mkK8sAction "get" "pods" "" "dev" "api-1";
     mkK8sAction "delete" "deployments" "apps" "dev" "api"; mkK8sAction "get" "secrets" "" "prod" "db";
     mkK8sAction "delete" "secrets" "" "prod" "db"]
  = [VAllow; VDeny; VApproval; VDeny; VDeny].
Proof. reflexivity. Qed.

Lemma sample_engine_agrees :
  Forall (fun r => @re2_agrees sample_engine (rule_pattern r core_table)) sample_rules.
Proof. repeat constructor; (eexists; split; [reflexivity|done]). Qed.

Definition sample_delete : K8sAction := mkK8sAction "delete" "deployments" "apps" "dev" "api".
Definition k8s_intent (a : K8sAction) (command : string) : Intent :=
  mkIntent "agent" "prod-k8s" TargetTypeK8s (Some a) RoleTarget PurposeOneshot "" command 0 "" false
    "" false false false false false "" "alice" (Some ["ops"]) "" "" 0 "" "".

Lemma cluster_policy_exact_witness :
  ∃ ps, @compileK8sRules sample_engine sample_rules core_table = Ok ps ∧
  verdict_of (@Decide sample_engine plain_parser ps (Canonical sample_delete)) = VApproval.
Proof.
  eexists. split; [vm_compute; reflexivity|].
  apply (@cluster_policy_exact sample_engine plain_parser sample_rules core_table _ sample_delete);
    [vm_compute; reflexivity|apply core_table_ok| |apply sample_engine_agrees|].
  - split; [reflexivity|]. eexists. split; reflexivity.
  - split; [reflexivity|]. intros w _. reflexivity.
Defined.

(** The group is filled in from the table before the command is compared. *)
Lemma k8s_request_decided_on_action_witness :
  let i := k8s_intent (mkK8sAction "delete" "deployments" "" "dev" "api") "delete deployments.apps dev/api" in
  let r := @resolveK8s sample_engine plain_parser sample_clusters i None (mkClocks 0 0 0 0) in
  ∃ cp a, sample_clusters !! "prod-k8s" = Some cp ∧ dc_K8sAction r.1.1 = Some a ∧
    "delete deployments.apps dev/api" = Canonical a.
Proof.
  intros i r.
  destruct (@k8s_request_decided_on_action sample_engine plain_parser sample_cluster_env map_to_list
    {["prod-k8s" := sample_cluster]} ∅ sample_clusters i None (mkClocks 0 0 0 0) r.1.1 r.1.2)
    as (cp & a & Hcp & Ha & Hcmd & _); [vm_compute; reflexivity|exact I|vm_compute; reflexivity|].
  exists cp, a. exact (conj Hcp (conj Ha Hcmd)).
Defined.
