(* ===== verification/Signer.v ===== *)
(** * The local signer

    [internal/signer/signer.go], second half, and the signing branch of
    [k8spolicy.go]: group RBAC over the caller table, the selection of the CA
    key, sealed envelopes, and [SignIntent], which issues a certificate, a
    bound token, an envelope or nothing. *)

From S2P Require Import Prelude GoStrings CmdPolicy PolicySet K8sAction Intent Grants CA Encoding Elevate Crypto Sealed HostPolicy K8sPolicy.

(** ** Callers *)

Record CallerPolicy := mkCallerPolicy {
  ca_AllowedGroups : list string;
  ca_SelfApprove : bool;
  ca_RequireVerifiedEndUser : bool;
}.
Abbreviation CallerTable := (gmap string CallerPolicy).
Definition zero_caller : CallerPolicy := mkCallerPolicy [] false false.

Definition MaySelfApprove (t : CallerTable) (cn : string) : bool :=
  if bool_decide (cn = DefaultCallerKey) then false
  else match t !! cn with Some cp => ca_SelfApprove cp | None => false end.

Definition MayRequireVerifiedEndUser (t : CallerTable) (cn : string) : bool :=
  if bool_decide (cn = DefaultCallerKey) then false
  else match t !! cn with Some cp => ca_RequireVerifiedEndUser cp | None => false end.

(** The entry that applies to a CN once the table is not empty. *)
Definition caller_entry (callers : CallerTable) (cn : string) : CallerPolicy :=
  match callers !! cn with
  | Some cp => cp
  | None => match callers !! DefaultCallerKey with Some cp => cp | None => zero_caller end
  end.

(** [HostSetForCaller]: [None] is the unrestricted answer [(nil, false)]. *)
Definition group_set {A} (groups : A → list string) (callerCN : string) (targets : gmap string A)
    (callers : CallerTable) : option (gset string) :=
  if bool_decide (callers = ∅) then None
  else
    let allowed := ca_AllowedGroups (caller_entry callers callerCN) in
    Some (dom (filter (fun kv => Is_true (existsb (fun g => bool_decide (g ∈ allowed)) (groups kv.2))) targets)).
Definition HostSetForCaller (callerCN : string) (policy : PolicyTable) (callers : CallerTable) :
    option (gset string) := group_set hp_Groups callerCN policy callers.
Definition ClusterSetForCaller (callerCN : string) (clusters : ClusterTable) (callers : CallerTable) :
    option (gset string) := group_set cl_Groups callerCN clusters callers.

(** ** The signer *)

(** [TokenMinter]: cluster, namespace, service account and lifetime to a token
    and its expiry; no value is a mint failure. *)
Definition TokenMinter : Type := string → string → string → duration → option (string * time).

Record Local := mkLocal {
  l_defaultCA : string;
  l_groupCAs : gmap string string;
  l_policy : PolicyTable;
  l_defaultTTL : duration;
  l_grants : option GrantProvider;
  l_clusters : ClusterTable;
  l_minter : option TokenMinter;
  l_envelopeKey : option string;
}.

Definition NewLocalWithGrants (defaultCA : string) (groupCAs : gmap string string) (policy : PolicyTable)
    (defaultTTL : duration) (grants : option GrantProvider) : Local :=
  mkLocal defaultCA groupCAs policy defaultTTL grants ∅ None None.
Definition NewLocal (caKey : string) (policy : PolicyTable) (defaultTTL : duration) : Local :=
  NewLocalWithGrants caKey ∅ policy defaultTTL None.
Definition WithEnvelopeKey (key : string) (l : Local) : Local :=
  mkLocal (l_defaultCA l) (l_groupCAs l) (l_policy l) (l_defaultTTL l) (l_grants l) (l_clusters l)
    (l_minter l) (Some key).
Definition WithK8s (clusters : ClusterTable) (minter : TokenMinter) (l : Local) : Local :=
  mkLocal (l_defaultCA l) (l_groupCAs l) (l_policy l) (l_defaultTTL l) (l_grants l) clusters (Some minter)
    (l_envelopeKey l).

Definition HostAllowlistActive (l : Local) (host : string) : bool * bool :=
  match l_policy l !! host with
  | Some hp => (true, hasAllowlist (effectivePolicies hp))
  | None => match l_clusters l !! host with
            | Some cp => (true, hasAllowlist (cl_Policies cp))
            | None => (false, false)
            end
  end.

Fixpoint first_group_ca (groupCAs : gmap string string) (groups : list string) (default : string) : string :=
  match groups with
  | [] => default
  | g :: gs => match groupCAs !! g with Some ca => ca | None => first_group_ca groupCAs gs default end
  end.
Definition caKeyFor (l : Local) (hp : HostPolicy) : string :=
  first_group_ca (l_groupCAs l) (hp_Groups hp) (l_defaultCA l).

(** The reason attached to a denial in a dry run. *)
Inductive sign_error :=
| EResolveSSH (e : signer_error)
| EResolveK8s (e : k8s_sign_error)
| ENoEnvelopeKey
| EEnvelope (e : sealed_error)
| ECASign (e : ca_error).

Inductive reason := NoReason | RError (e : sign_error) | RClusterPolicy.

Record DecisionInfo := mkDecisionInfo {
  di_Allowed : bool;
  di_Reason : reason;
  di_RequireApproval : bool;
  di_MatchedRule : matched_rule;
  di_ForceCommand : string;
  di_TTLSeconds : Z;
  di_Elevation : string;
  di_Enforcement : string;
  di_Warning : warning;
  di_WouldDeny : bool;
  di_WouldRequireApproval : bool;
}.

Definition decisionInfo (d : Decision) (allowed : bool) : DecisionInfo :=
  mkDecisionInfo allowed NoReason (dc_RequireApproval d) (dc_MatchedRule d)
    (c_ForceCommand (dc_Constraints d)) (Z.quot (c_TTL (dc_Constraints d)) Second) (dc_ElevationPrefix d)
    (dc_Enforcement d) (dc_Warning d) (dc_WouldDeny d) (dc_WouldRequireApproval d).

Definition with_reason (r : reason) (di : DecisionInfo) : DecisionInfo :=
  mkDecisionInfo (di_Allowed di) r (di_RequireApproval di) (di_MatchedRule di) (di_ForceCommand di)
    (di_TTLSeconds di) (di_Elevation di) (di_Enforcement di) (di_Warning di) (di_WouldDeny di)
    (di_WouldRequireApproval di).
Definition with_ttl (n : Z) (di : DecisionInfo) : DecisionInfo :=
  mkDecisionInfo (di_Allowed di) (di_Reason di) (di_RequireApproval di) (di_MatchedRule di) (di_ForceCommand di)
    n (di_Elevation di) (di_Enforcement di) (di_Warning di) (di_WouldDeny di) (di_WouldRequireApproval di).
Definition no_approval (di : DecisionInfo) : DecisionInfo :=
  mkDecisionInfo (di_Allowed di) (di_Reason di) false (di_MatchedRule di) (di_ForceCommand di)
    (di_TTLSeconds di) (di_Elevation di) (di_Enforcement di) (di_Warning di) (di_WouldDeny di)
    (di_WouldRequireApproval di).

Record Issued := mkIssued {
  is_Certificate : option Certificate;
  is_Serial : Z;
  is_K8sToken : string;
  is_K8sTokenExpiry : time;
  is_K8sAction : option K8sAction;
  is_ElevationPrefix : string;
  is_Decision : option DecisionInfo;
  is_Envelope : string;
}.
(** An [Issued] with a decision and nothing usable. *)
Definition decision_only (di : DecisionInfo) (a : option K8sAction) : Issued :=
  mkIssued None 0 "" 0 a "" (Some di) "".

(** What the run time supplies to one call: the clocks, the CA environment, the
    envelope nonce and the token serial. *)
Record sign_env := mkSignEnv {
  sg_clocks : clocks;
  sg_ca : ca_env;
  sg_nonce : option string;
  sg_serial : Z;
}.

Section signing.
Context `{RE : RegexpEngine} `{SP : ShellParser} `{ED : Ed25519} `{EJ : EnvelopeJSON}.

Definition sealedEnvelope (l : Local) (env : sign_env) (i : Intent) (d : Decision) :
    result sign_error string :=
  match l_policy l !! in_Host i with
  | None => Ok ""
  | Some hp =>
      if negb (hp_SealedExec hp) then Ok ""
      else if bool_decide (in_Purpose i ≠ PurposeSession) || bool_decide (in_Role i ≠ RoleTarget)
              || negb (in_Preflight i) || bool_decide (in_Command i = "") then Ok ""
      else if dc_RequireApproval d then Ok ""
      else match l_envelopeKey l with
      | None => Err ENoEnvelopeKey
      | Some key =>
          let cmd := if bool_decide (dc_ElevationPrefix d ≠ "")
                     then BuildElevatedCommand (dc_ElevationPrefix d) (in_Command i) else in_Command i in
          rmap_err EEnvelope
            (Sign (sg_nonce env) key (in_Host i) cmd DefaultTTL (ck_envelope (sg_clocks env)))
      end
  end.

(** [signK8s]: a live denial returns the projection and the error. *)
Definition signK8s (l : Local) (env : sign_env) (i : Intent) : option Issued * option sign_error :=
  let '(d, res, err) := resolveK8s (l_clusters l) i (l_grants l) (sg_clocks env) in
  let cp := match l_clusters l !! in_Host i with Some cp => cp | None => zero_cluster end in
  let ttl := cl_TokenTTLSeconds cp * Second in
  match err with
  | Some e =>
      let di := mkDecisionInfo false
        (if bool_decide (cr_MatchedRule res ≠ RuleNone) then RClusterPolicy else RError (EResolveK8s e))
        false (cr_MatchedRule res) "" 0 "" (cr_Enforcement res) (cr_Warning res) (cr_WouldDeny res)
        (cr_WouldRequireApproval res) in
      let denied := Some (decision_only di (dc_K8sAction d)) in
      if in_DryRun i then (denied, None) else (denied, Some (EResolveK8s e))
  | None =>
      let setup :=
        match l_minter l with
        | None => Err ErrK8sNoMinter
        | Some m => let! b := bindingFor cp (in_EndUserGroups i) in Ok (m, b)
        end in
      match setup with
      | Err e =>
          if in_DryRun i then
            (Some (decision_only (with_reason (RError (EResolveK8s e)) (no_approval (decisionInfo d false)))
                     (dc_K8sAction d)), None)
          else (None, Some (EResolveK8s e))
      | Ok (minter, b) =>
          let allowed := with_ttl (Z.quot ttl Second) (decisionInfo d true) in
          if in_DryRun i then (Some (decision_only allowed (dc_K8sAction d)), None)
          else if dc_RequireApproval d && negb (in_Approved i)
          then (Some (decision_only (decisionInfo d true) (dc_K8sAction d)), None)
          else match minter (in_Host i) (sa_Namespace b) (sa_ServiceAccount b) ttl with
          | None => (None, Some (EResolveK8s EK8sMint))
          | Some (token, expiry) =>
              (Some (mkIssued None (sg_serial env) token expiry (dc_K8sAction d) "" (Some allowed) ""), None)
          end
      end
  end.

Definition SignIntent (l : Local) (env : sign_env) (i : Intent) : option Issued * option sign_error :=
  if bool_decide (in_TargetType i = TargetTypeK8s) then signK8s l env i
  else
    let '(d, err) := resolve (l_policy l) i (l_defaultTTL l) (l_grants l) (sg_clocks env) in
    if in_DryRun i then
      match err with
      | Some e => (Some (decision_only (with_reason (RError (EResolveSSH e)) (decisionInfo d false)) None), None)
      | None =>
          match sealedEnvelope l env i d with
          | Err e => (None, Some e)
          | Ok envl => (Some (mkIssued None 0 "" 0 None "" (Some (decisionInfo d true)) envl), None)
          end
      end
    else match err with
    | Some e => (None, Some (EResolveSSH e))
    | None =>
        if dc_RequireApproval d && negb (in_Approved i)
        then (Some (decision_only (decisionInfo d true) None), None)
        else
          let hp := match l_policy l !! in_Host i with Some hp => hp | None => zero_host end in
          match BuildAndSign (sg_ca env) (caKeyFor l hp) (in_PublicKey i) (dc_Constraints d) with
          | Err e => (None, Some (ECASign e))
          | Ok (cert, serial) =>
              (Some (mkIssued (Some cert) serial "" 0 None (dc_ElevationPrefix d)
                       (Some (decisionInfo d true)) ""), None)
          end
    end.
End signing.

(** ** What a certificate or an envelope proves *)

Section properties.
Context `{RE : RegexpEngine} `{SP : ShellParser} `{ED : Ed25519} `{EJ : EnvelopeJSON}.
Implicit Types (l : Local) (env : sign_env) (i : Intent).

(** Where an issued certificate comes from. *)
Lemma SignIntent_cert l env i iss err cert :
  SignIntent l env i = (Some iss, err) → is_Certificate iss = Some cert →
  in_DryRun i = false ∧ in_TargetType i ≠ TargetTypeK8s ∧ is_K8sToken iss = "" ∧ is_Envelope iss = "" ∧
  ∃ d hp, resolve (l_policy l) i (l_defaultTTL l) (l_grants l) (sg_clocks env) = (d, None) ∧
    l_policy l !! in_Host i = Some hp ∧
    (dc_RequireApproval d = false ∨ in_Approved i = true) ∧
    BuildAndSign (sg_ca env) (caKeyFor l hp) (in_PublicKey i) (dc_Constraints d) = Ok (cert, is_Serial iss).
Proof.
  unfold SignIntent. case_bool_decide.
  { unfold signK8s. destruct (resolveK8s _ _ _ _) as [[d res] [e|]].
    - destruct (in_DryRun i); intros [= <- <-]; done.
    - destruct (match l_minter l with Some _ => _ | None => _ end) as [[m b]|];
        destruct (in_DryRun i); try destruct (_ && _); try destruct (m _ _ _ _) as [[tok exp]|];
        intros [= <- <-]; done. }
  destruct (resolve _ _ _ _ _) as [d [e|]] eqn:Hr.
  { destruct (in_DryRun i); intros [= <- <-]; done. }
  destruct (in_DryRun i).
  { destruct (sealedEnvelope _ _ _ _); intros [= <- <-]; done. }
  destruct (dc_RequireApproval d && negb (in_Approved i)) eqn:Hap; [intros [= <- <-]; done|].
  destruct (resolve_inv _ _ _ _ _ _ Hr) as (hp & _ & _ & Hhp & _). rewrite Hhp.
  destruct (BuildAndSign _ _ _ _) as [[c ser]|] eqn:Hb; [|done].
  intros [= <- <-] [= ->]. split_and!; try done. exists d, hp. split_and!; try done.
  destruct (dc_RequireApproval d), (in_Approved i); auto.
Qed.

(** Where an envelope comes from. *)
Lemma SignIntent_envelope l env i iss err :
  SignIntent l env i = (Some iss, err) → is_Envelope iss ≠ "" →
  in_DryRun i = true ∧ is_Certificate iss = None ∧ is_K8sToken iss = "" ∧
  ∃ d hp key nonce,
    resolve (l_policy l) i (l_defaultTTL l) (l_grants l) (sg_clocks env) = (d, None) ∧
    l_policy l !! in_Host i = Some hp ∧ hp_SealedExec hp = true ∧
    in_Purpose i = PurposeSession ∧ in_Role i = RoleTarget ∧ in_Preflight i = true ∧ in_Command i ≠ "" ∧
    dc_RequireApproval d = false ∧ l_envelopeKey l = Some key ∧ sg_nonce env = Some nonce ∧
    Sign (Some nonce) key (in_Host i) (pinned_command i (dc_ElevationPrefix d)) DefaultTTL
      (ck_envelope (sg_clocks env)) = Ok (is_Envelope iss).
Proof.
  unfold SignIntent. case_bool_decide.
  { unfold signK8s. destruct (resolveK8s _ _ _ _) as [[d res] [e|]].
    - destruct (in_DryRun i); intros [= <- <-]; done.
    - destruct (match l_minter l with Some _ => _ | None => _ end) as [[m b]|];
        destruct (in_DryRun i); try destruct (_ && _); try destruct (m _ _ _ _) as [[tok exp]|];
        intros [= <- <-]; done. }
  destruct (resolve _ _ _ _ _) as [d [e|]] eqn:Hr.
  { destruct (in_DryRun i); intros [= <- <-]; done. }
  destruct (in_DryRun i).
  2:{ destruct (_ && _); [by intros [= <- <-]|]. destruct (BuildAndSign _ _ _ _) as [[? ?]|]; [|done].
      by intros [= <- <-]. }
  destruct (sealedEnvelope l env i d) as [envl|] eqn:Hs; [|done]. intros [= <- <-] Hne. simpl in *.
  split_and!; try done. unfold sealedEnvelope in Hs.
  destruct (l_policy l !! in_Host i) as [hp|] eqn:Hhp; [|by simplify_eq].
  destruct (hp_SealedExec hp) eqn:Hse; simpl in Hs; [|by simplify_eq].
  destruct (_ || _) eqn:Hb; [by simplify_eq|]. unbool.
  destruct (dc_RequireApproval d) eqn:Hap; [by simplify_eq|].
  destruct (l_envelopeKey l) as [key|]; [|done]. unfold rmap_err in Hs. fold (pinned_command i (dc_ElevationPrefix d)) in Hs.
  destruct (Sign _ _ _ _ _ _) as [w|] eqn:Hw; [|done]. injection Hs as ->.
  destruct (sg_nonce env) as [nonce|] eqn:Hno.
  2:{ unfold Sign in Hw. go_split; done. }
  exists d, hp, key, nonce. split_and!; try done; by apply dec_stable.
Qed.

(** No credential without the policy's consent: on a loaded host whose
    policy restricts and enforces, whoever gets a certificate from the signer
    asked for a target connection outside a dry run; for a one-shot the command
    is not denied, and if it is gated by [require_approval] then either the
    request carries an approval or a live waiver for exactly this caller, user
    and elevation matches; a session must be in exec mode. *)
Theorem certificate_needs_policy l env i iss err cert hp :
  SignIntent l env i = (Some iss, err) → is_Certificate iss = Some cert →
  l_policy l !! in_Host i = Some hp → host_compiled hp → widen_only (l_grants l) →
  ps_Restricts (effectivePolicies hp) = true → Enforcement (effectivePolicies hp) = CmdPolicyEnforce →
  in_DryRun i = false ∧ in_Role i = RoleTarget ∧
  (in_Purpose i = PurposeSession → in_SessionMode i = SessionModeExec) ∧
  (in_Purpose i = PurposeOneshot →
     let v := spec_decide (widened hp i (l_grants l) (ck_grants (sg_clocks env))) (in_Command i) in
     v ≠ VDeny ∧
     (v = VApproval → in_Approved i = true ∨
        ∃ gp, l_grants l = Some gp ∧ gp_WaiverMatches gp (in_Host i) i (ck_waiver (sg_clocks env)) = true)).
Proof.
  intros Hs Hc Hhp Hcomp Hwo Hr He.
  destruct (SignIntent_cert _ _ _ _ _ _ Hs Hc) as (Hdry & _ & _ & _ & d & hp' & Hres & Hhp' & Hap & _).
  destruct (resolve_enforced _ _ _ _ _ _ _ Hhp Hcomp Hwo Hr He Hres) as (Hrole & Hmode & Hcmd).
  split_and!; [done..|]. intros Hp. destruct (Hcmd (or_introl Hp)) as [Hnd Hapr]. split; [done|].
  intros Hv. destruct (Hapr Hv) as [Hreq|Hw]; [left|by right]. destruct Hap; congruence.
Qed.

(** An envelope is as hard to get as a certificate, and never for a gated
    command: when a preflight on a loaded, restricting and enforcing sealed host
    returns an envelope, the command is not denied, and if a rule gates it a
    live waiver matches (an approval bit does not help); the envelope is signed
    for that host and for exactly the command the policy decided on, with its
    elevation. *)
Theorem envelope_needs_policy l env i iss err hp :
  SignIntent l env i = (Some iss, err) → is_Envelope iss ≠ "" →
  l_policy l !! in_Host i = Some hp → host_compiled hp → widen_only (l_grants l) →
  ps_Restricts (effectivePolicies hp) = true → Enforcement (effectivePolicies hp) = CmdPolicyEnforce →
  in_SessionMode i = SessionModeExec ∧
  (∃ elev key nonce, resolveElevation hp i = Ok elev ∧ l_envelopeKey l = Some key ∧
     Sign (Some nonce) key (in_Host i) (pinned_command i elev) DefaultTTL (ck_envelope (sg_clocks env))
     = Ok (is_Envelope iss)) ∧
  let v := spec_decide (widened hp i (l_grants l) (ck_grants (sg_clocks env))) (in_Command i) in
  v ≠ VDeny ∧
  (v = VApproval →
     ∃ gp, l_grants l = Some gp ∧ gp_WaiverMatches gp (in_Host i) i (ck_waiver (sg_clocks env)) = true).
Proof.
  intros Hs Hne Hhp Hcomp Hwo Hr He.
  destruct (SignIntent_envelope _ _ _ _ _ Hs Hne) as (_ & _ & _ & d & hp' & key & nonce & Hres & Hhp' &
    Hse & Hp & Hrole & _ & Hcmd & Hap & Hkey & _ & Hsign). simplify_eq.
  destruct (resolve_enforced _ _ _ _ _ _ _ Hhp Hcomp Hwo Hr He Hres) as (_ & Hmode & Hpol).
  split; [by apply Hmode|]. destruct (resolve_inv _ _ _ _ _ _ Hres) as (hp' & elev & cp & Hhp' & Hrs).
  simplify_eq. split.
  - exists elev, key, nonce. rewrite (rs_elevprefix _ _ _ _ _ _ _ _ Hrs) in Hsign.
    unfold is_oneshot_target in Hsign. rewrite Hp in Hsign. simpl in Hsign.
    split_and!; [by eapply rs_elev|done|done].
  - destruct (Hpol (or_intror Hcmd)) as [Hnd Hapr]. split; [done|]. intros Hv.
    destruct (Hapr Hv) as [?|]; [congruence|done].
Qed.

(** An error never comes with a credential. *)
Lemma SignIntent_error l env i iss e :
  SignIntent l env i = (Some iss, Some e) →
  is_Certificate iss = None ∧ is_K8sToken iss = "" ∧ is_Envelope iss = "".
Proof.
  unfold SignIntent. case_bool_decide.
  - unfold signK8s. destruct (resolveK8s _ _ _ _) as [[d res] [e'|]].
    { destruct (in_DryRun i); by intros [= <- <-]. }
    destruct (match l_minter l with Some _ => _ | None => _ end) as [[m b]|];
      destruct (in_DryRun i); try destruct (_ && _); try destruct (m _ _ _ _) as [[tok exp]|]; done.
  - destruct (resolve _ _ _ _ _) as [d [e'|]]; destruct (in_DryRun i);
      try destruct (sealedEnvelope _ _ _ _); try destruct (_ && _);
      try destruct (BuildAndSign _ _ _ _) as [[c ser]|]; done.
Qed.

(** A dry run is inert and at most one credential is ever returned: with
    [DryRun] set no certificate and no token is issued for any target, an
    envelope comes only from a dry-run preflight, and no answer carries two of
    certificate, token and envelope. *)
Theorem one_credential_at_most l env i iss err :
  SignIntent l env i = (Some iss, err) →
  (in_DryRun i = true → is_Certificate iss = None ∧ is_K8sToken iss = "") ∧
  (is_Envelope iss ≠ "" → in_DryRun i = true ∧ in_Preflight i = true) ∧
  (is_Certificate iss ≠ None → is_K8sToken iss = "" ∧ is_Envelope iss = "") ∧
  (err ≠ None → is_Certificate iss = None ∧ is_K8sToken iss = "" ∧ is_Envelope iss = "").
Proof.
  intros Hs.
  assert (Hcert : is_Certificate iss ≠ None → in_DryRun i = false ∧ is_K8sToken iss = "" ∧ is_Envelope iss = "").
  { destruct (is_Certificate iss) as [c|] eqn:Hc; [|done]. intros _.
    by destruct (SignIntent_cert _ _ _ _ _ _ Hs Hc) as (? & _ & ? & ? & _). }
  assert (Htok : is_K8sToken iss ≠ "" → in_DryRun i = false ∧ err = None).
  { clear Hcert. revert Hs. unfold SignIntent. case_bool_decide.
    - unfold signK8s. destruct (resolveK8s _ _ _ _) as [[d res] [e|]].
      { destruct (in_DryRun i); intros [= <- <-]; done. }
      destruct (match l_minter l with Some _ => _ | None => _ end) as [[m b]|];
        destruct (in_DryRun i); try destruct (_ && _); try destruct (m _ _ _ _) as [[tok exp]|];
        intros [= <- <-]; done.
    - destruct (resolve _ _ _ _ _) as [d [e|]]; destruct (in_DryRun i);
        try destruct (sealedEnvelope _ _ _ _); try destruct (_ && _);
        try destruct (BuildAndSign _ _ _ _) as [[c ser]|]; intros [= <- <-]; done. }
  split_and!.
  - intros Hd. split; [apply dec_stable|apply dec_stable]; intros H; [apply Hcert in H|apply Htok in H];
      destruct H; congruence.
  - intros He. destruct (SignIntent_envelope _ _ _ _ _ Hs He) as (? & _ & _ & ? & ? & ? & ? & _ & _ & _ & _ & _ & ? & _).
    done.
  - by intros (_ & ? & ?)%Hcert.
  - intros Herr. destruct err as [e|]; [|done]. by eapply SignIntent_error.
Qed.

(** A bound token is minted only for a decided action: a token is returned
    only outside a dry run, for an intent the cluster's policy resolved, with an
    approval when the policy asks for one, and it is minted for the first
    service-account binding open to everyone or shared with the end user's
    groups, with the configured lifetime. *)
Theorem token_needs_policy l env i iss err :
  SignIntent l env i = (Some iss, err) → is_K8sToken iss ≠ "" →
  in_DryRun i = false ∧ in_TargetType i = TargetTypeK8s ∧
  ∃ d res cp minter b,
    resolveK8s (l_clusters l) i (l_grants l) (sg_clocks env) = (d, res, None) ∧
    l_clusters l !! in_Host i = Some cp ∧ is_K8sAction iss = dc_K8sAction d ∧
    (dc_RequireApproval d = true → in_Approved i = true) ∧
    l_minter l = Some minter ∧ b ∈ cl_SABindings cp ∧
    (sa_Groups b = [] ∨ ∃ gs g, in_EndUserGroups i = Some gs ∧ g ∈ sa_Groups b ∧ g ∈ gs) ∧
    minter (in_Host i) (sa_Namespace b) (sa_ServiceAccount b) (cl_TokenTTLSeconds cp * Second)
    = Some (is_K8sToken iss, is_K8sTokenExpiry iss).
Proof.
  unfold SignIntent. case_bool_decide as Ht.
  2:{ destruct (resolve _ _ _ _ _) as [d [e|]]; destruct (in_DryRun i);
        try destruct (sealedEnvelope _ _ _ _); try destruct (_ && _);
        try destruct (BuildAndSign _ _ _ _) as [[c ser]|]; intros [= <- <-]; done. }
  unfold signK8s. destruct (resolveK8s _ _ _ _) as [[d res] [e|]] eqn:Hr.
  { destruct (in_DryRun i); intros [= <- <-]; done. }
  assert (∃ cp, l_clusters l !! in_Host i = Some cp) as [cp Hcp].
  { unfold resolveK8s in Hr. destruct (k8s_gates _ _) as [[cp a]|] eqn:Hg; [|done].
    exists cp. by apply k8s_gates_Ok in Hg as [? _ _ _ _ _]. }
  rewrite Hcp. destruct (l_minter l) as [m|]; [|by destruct (in_DryRun i); intros [= <- <-]].
  destruct (bindingFor cp (in_EndUserGroups i)) as [b|] eqn:Hb; simpl;
    [|by destruct (in_DryRun i); intros [= <- <-]].
  destruct (in_DryRun i); [by intros [= <- <-]|].
  destruct (dc_RequireApproval d && negb (in_Approved i)) eqn:Hap; [by intros [= <- <-]|].
  destruct (m _ _ _ _) as [[tok exp]|] eqn:Hm; [|done]. intros [= <- <-] _. simpl.
  split_and!; try done. exists d, res, cp, m, b. split_and!; try done.
  - intros Ha. rewrite Ha in Hap. by destruct (in_Approved i).
  - unfold bindingFor in Hb. destruct (list_find_first _ _) eqn:Hf; [|done]. injection Hb as ->.
    by apply list_find_first_Some in Hf as [? _].
  - unfold bindingFor in Hb. destruct (list_find_first _ _) eqn:Hf; [|done]. injection Hb as ->.
    apply list_find_first_Some in Hf as [_ Hf]. apply orb_true_iff in Hf as [?%bool_decide_eq_true|Hg]; [by left|].
    right. apply GroupsIntersect_spec in Hg as (g & Hg1 & Hg2).
    destruct (in_EndUserGroups i) as [gs|]; [eauto|set_solver].
Qed.

Lemma effectiveTTL_cap hp i ttl0 :
  effectiveTTL hp i ttl0 ≤ (if hp_MaxTTL hp <=? 0 then ttl0 else hp_MaxTTL hp).
Proof.
  unfold effectiveTTL. destruct (hp_MaxTTL hp <=? 0) eqn:H1;
    (destruct (_ || _) eqn:H; [lia|]); unbool; lia.
Qed.

(** A caller cannot stretch a certificate: whatever lifetime it asks for,
    the certificate it gets expires no later than the host's configured maximum
    (or the signer's default) after its issuance, and is for the host's
    principal and source address only. *)
Theorem certificate_scope_fixed l env i iss err cert hp :
  SignIntent l env i = (Some iss, err) → is_Certificate iss = Some cert →
  l_policy l !! in_Host i = Some hp → sane_clock (ce_now (sg_ca env)) →
  cert_ValidPrincipals cert = [hp_Principal hp] ∧
  cert_ValidBefore cert
    ≤ Unix (ce_now (sg_ca env) + (if hp_MaxTTL hp <=? 0 then l_defaultTTL l else hp_MaxTTL hp)) ∧
  (hp_SourceAddress hp ≠ "" → cert_CriticalOptions cert !! "source-address" = Some (hp_SourceAddress hp)) ∧
  cert_SignatureKey cert = caKeyFor l hp.
Proof.
  intros Hs Hc Hhp Hck.
  destruct (SignIntent_cert _ _ _ _ _ _ Hs Hc) as (_ & _ & _ & _ & d & hp' & Hres & Hhp' & _ & Hb). simplify_eq.
  destruct (resolve_inv _ _ _ _ _ _ Hres) as (hp' & elev & cp & Hhp' & Hrs). simplify_eq.
  apply BuildAndSign_Ok in Hb as (_ & Httl & _ & _ & _ & ->).
  destruct (rs_constraints _ _ _ _ _ _ _ _ Hrs) as (fc & Hcs & _). rewrite Hcs in *. simpl in *.
  split_and!; [done| | |done].
  - rewrite uint64_id by (apply sane_Unix; [done|unfold Second; lia]). apply Unix_mono.
    pose proof (effectiveTTL_cap hp i (l_defaultTTL l)). lia.
  - intros Hsa. unfold set_if. rewrite (bool_decide_eq_true_2 (hp_SourceAddress hp ≠ "")) by done.
    case_bool_decide; by simplify_map_eq.
Qed.
End properties.

(** ** Group RBAC *)

Lemma elem_of_group_set {A} (groups : A → list string) cn (targets : gmap string A) callers set name :
  group_set groups cn targets callers = Some set →
  (name ∈ set ↔ ∃ x g, targets !! name = Some x ∧ g ∈ groups x ∧ g ∈ ca_AllowedGroups (caller_entry callers cn)).
Proof.
  unfold group_set. case_bool_decide; [done|]. intros [= <-]. rewrite elem_of_dom.
  unfold is_Some. setoid_rewrite map_lookup_filter_Some. simpl.
  setoid_rewrite Is_true_true. setoid_rewrite existsb_exists. setoid_rewrite bool_decide_eq_true.
  setoid_rewrite <-list_elem_of_In. naive_solver.
Qed.

(** A configured caller table is default-deny: once it is not empty every
    caller is restricted to the hosts (and clusters) sharing one of its groups;
    a caller it does not list gets the [_default] entry, or nothing at all; and
    neither self-approval nor identity verification is ever inherited from
    [_default], not even by a certificate named so. *)
Theorem rbac_default_deny callers cn (policy : PolicyTable) (clusters : ClusterTable) :
  callers ≠ ∅ →
  (∃ hs cs, HostSetForCaller cn policy callers = Some hs ∧ ClusterSetForCaller cn clusters callers = Some cs ∧
     (∀ h, h ∈ hs → ∃ hp g, policy !! h = Some hp ∧ g ∈ hp_Groups hp ∧ g ∈ ca_AllowedGroups (caller_entry callers cn)) ∧
     (callers !! cn = None → callers !! DefaultCallerKey = None → hs = ∅ ∧ cs = ∅)) ∧
  (MaySelfApprove callers cn = true ∨ MayRequireVerifiedEndUser callers cn = true →
     cn ≠ DefaultCallerKey ∧ is_Some (callers !! cn)).
Proof.
  intros Hne. split.
  - unfold HostSetForCaller, ClusterSetForCaller.
    destruct (group_set hp_Groups cn policy callers) as [hs|] eqn:Hh;
      [|unfold group_set in Hh; by rewrite bool_decide_eq_false_2 in Hh].
    destruct (group_set cl_Groups cn clusters callers) as [cs|] eqn:Hc;
      [|unfold group_set in Hc; by rewrite bool_decide_eq_false_2 in Hc].
    exists hs, cs. split_and!; try done.
    + intros h Hin. by apply (elem_of_group_set _ _ _ _ _ _ Hh).
    + intros Hn Hd. assert (He : ca_AllowedGroups (caller_entry callers cn) = [])
        by (unfold caller_entry; by rewrite Hn, Hd).
      split; apply elem_of_equiv_empty_L; intros x Hin;
        [apply (elem_of_group_set _ _ _ _ _ _ Hh) in Hin|apply (elem_of_group_set _ _ _ _ _ _ Hc) in Hin];
        destruct Hin as (? & ? & _ & _ & Hin); rewrite He in Hin; set_solver.
  - unfold MaySelfApprove, MayRequireVerifiedEndUser. case_bool_decide; [by intros [|]|].
    destruct (callers !! cn); [eauto|by intros [|]].
Qed.

(** ** A concrete signer *)

Definition sample_minter : TokenMinter := fun cluster ns sa ttl => Some ("tok:" +:+ sa, ttl).
Definition sample_local : Local :=
  WithK8s sample_clusters sample_minter
    (WithEnvelopeKey sample_key (NewLocalWithGrants "ca-default" {["web" := "ca-web"]} web_table Hour (Some web_provider))).
Definition sample_sign_env : sign_env :=
  mkSignEnv sample_clocks (mkCAEnv false (Some 7) Hour true) (Some sample_nonce) 9.
Definition approved (i : Intent) : Intent :=
  mkIntent (in_Caller i) (in_Host i) (in_TargetType i) (in_K8s i) (in_Role i) (in_Purpose i) (in_SessionMode i)
    (in_Command i) (in_RequestedTTL i) (in_PublicKey i) (in_Sudo i) (in_SudoUser i) (in_PTY i) (in_FileTransfer i)
    (in_DryRun i) (in_Preflight i) true (in_OnBehalfOf i) (in_EndUser i) (in_EndUserGroups i)
    (in_EndUserContext i) (in_RawToken i) (in_LearnTTLSeconds i) (in_LearnApprover i) (in_LearnApprovalID i).
Definition preflight_intent : Intent :=
  mkIntent "agent" "web1" "" None RoleTarget PurposeSession SessionModeExec "uptime" 0 "key" false
    "" false false true true false "" "alice" None "" "" 0 "" "".
Definition sign_sample (i : Intent) : option Issued * option sign_error :=
  @SignIntent prefix_engine plain_parser toy_ed25519 (fixed_json sample_envelope) sample_local sample_sign_env i.
Definition issued_for (i : Intent) : Issued :=
  match (sign_sample i).1 with Some iss => iss | None => decision_only (decisionInfo zero_decision false) None end.
Definition cert_for (i : Intent) : Certificate :=
  match is_Certificate (issued_for i) with Some c => c | None => cert_of "" "" 0 0 zero_constraints end.

Example gated_without_approval :
  is_Certificate (issued_for sudo_intent) = None ∧ is_Certificate (issued_for (approved sudo_intent)) ≠ None.
Proof. split; vm_compute; [reflexivity|discriminate]. Qed.

Lemma web_compiled_ok : @host_compiled prefix_engine web_compiled.
Proof. constructor; [by apply (@ps_Validate_patterns prefix_engine)|done|vm_compute; congruence]. Qed.

Lemma certificate_needs_policy_witness :
  in_DryRun (approved sudo_intent) = false ∧ in_Role (approved sudo_intent) = RoleTarget.
Proof.
  destruct (@certificate_needs_policy prefix_engine plain_parser toy_ed25519 (fixed_json sample_envelope)
    sample_local sample_sign_env (approved sudo_intent) (issued_for (approved sudo_intent)) None
    (cert_for (approved sudo_intent)) web_compiled) as (H1 & H2 & _);
    [vm_compute; reflexivity|vm_compute; reflexivity|vm_compute; reflexivity|apply web_compiled_ok
    |apply web_provider_ok|reflexivity|reflexivity|exact (conj H1 H2)].
Defined.

Lemma envelope_needs_policy_witness : in_SessionMode preflight_intent = SessionModeExec.
Proof.
  destruct (@envelope_needs_policy prefix_engine plain_parser toy_ed25519 (fixed_json sample_envelope)
    sample_local sample_sign_env preflight_intent (issued_for preflight_intent) None web_compiled) as (H1 & _);
    [vm_compute; reflexivity|vm_compute; discriminate|vm_compute; reflexivity|apply web_compiled_ok
    |apply web_provider_ok|reflexivity|reflexivity|exact H1].
Defined.

Lemma one_credential_at_most_witness :
  is_Certificate (issued_for preflight_intent) = None ∧ is_K8sToken (issued_for preflight_intent) = "".
Proof.
  refine (proj1 (@one_credential_at_most prefix_engine plain_parser toy_ed25519 (fixed_json sample_envelope)
    sample_local sample_sign_env preflight_intent (issued_for preflight_intent) None _) eq_refl).
  vm_compute. reflexivity.
Defined.

Lemma certificate_scope_fixed_witness :
  cert_ValidPrincipals (cert_for (approved sudo_intent)) = ["host:web1"].
Proof.
  refine (proj1 (@certificate_scope_fixed prefix_engine plain_parser toy_ed25519 (fixed_json sample_envelope)
    sample_local sample_sign_env (approved sudo_intent) (issued_for (approved sudo_intent)) None
    (cert_for (approved sudo_intent)) web_compiled _ _ _ _)); [vm_compute; reflexivity..|].
  vm_compute. split; congruence.
Defined.

(** The token of an admitted read on the sample cluster. *)
Definition get_intent : Intent :=
  k8s_intent (mkK8sAction "get" "pods" "" "prod" "api") "get pods prod/api".
Definition k8s_local : Local := WithK8s sample_clusters sample_minter (NewLocal "ca" ∅ Hour).

Lemma token_needs_policy_witness :
  ∃ iss, @SignIntent sample_engine plain_parser toy_ed25519 (fixed_json sample_envelope) k8s_local
           sample_sign_env get_intent = (Some iss, None) ∧ in_DryRun get_intent = false.
Proof.
  eexists. split; [vm_compute; reflexivity|].
  refine (proj1 (@token_needs_policy sample_engine plain_parser toy_ed25519 (fixed_json sample_envelope)
    k8s_local sample_sign_env get_intent _ None _ _)); [vm_compute; reflexivity|]. discriminate.
Defined.

Definition one_caller : CallerTable := {["agent" := mkCallerPolicy ["web"] false false]}.

Lemma rbac_default_deny_witness :
  HostSetForCaller "other" web_table one_caller = Some ∅ ∧
  (∃ hs, HostSetForCaller "agent" web_table one_caller = Some hs ∧ ∀ h, h ∈ hs → ∃ hp, web_table !! h = Some hp).
Proof.
  split; [vm_compute; reflexivity|].
  destruct (rbac_default_deny one_caller "agent" web_table ∅ ltac:(done)) as [(hs & cs & Hhs & _ & Hin & _) _].
  exists hs. split; [exact Hhs|]. intros h Hh. destruct (Hin h Hh) as (hp & g & Hhp & _). exists hp. exact Hhp.
Defined.
