(* ===== verification/Approval.v ===== *)
(** * The approval registry

    [internal/control/approval.go]: requests waiting for a human decision, kept
    in memory and written through to a state database. Every operation runs
    under the registry's mutex, so concurrent callers interleave whole
    operations; the clock is an argument of each. *)

From S2P Require Import Prelude GoStrings PolicySet Intent.

(** [signer.WireRequest]. *)
Record WireRequest := mkWireRequest {
  wr_Host : string;
  wr_Role : string;
  wr_Purpose : string;
  wr_SessionMode : string;
  wr_Command : string;
  wr_TTLSeconds : Z;
  wr_PublicKey : string;
  wr_TargetType : string;
  wr_K8sVerb : string;
  wr_K8sResource : string;
  wr_K8sGroup : string;
  wr_K8sNamespace : string;
  wr_K8sName : string;
  wr_Sudo : bool;
  wr_SudoUser : string;
  wr_PTY : bool;
  wr_FileTransfer : bool;
  wr_DryRun : bool;
  wr_Preflight : bool;
  wr_OnBehalfOf : string;
  wr_Approved : bool;
  wr_EndUser : string;
  wr_EndUserGroups : option (list string);
  wr_EndUserContext : string;
  wr_BearerToken : string;
  wr_LearnTTLSeconds : Z;
  wr_LearnApprover : string;
  wr_LearnApprovalID : string;
}.

Definition strip_bearer (r : WireRequest) : WireRequest :=
  mkWireRequest (wr_Host r) (wr_Role r) (wr_Purpose r) (wr_SessionMode r) (wr_Command r) (wr_TTLSeconds r)
    (wr_PublicKey r) (wr_TargetType r) (wr_K8sVerb r) (wr_K8sResource r) (wr_K8sGroup r) (wr_K8sNamespace r)
    (wr_K8sName r) (wr_Sudo r) (wr_SudoUser r) (wr_PTY r) (wr_FileTransfer r) (wr_DryRun r) (wr_Preflight r)
    (wr_OnBehalfOf r) (wr_Approved r) (wr_EndUser r) (wr_EndUserGroups r) (wr_EndUserContext r) ""
    (wr_LearnTTLSeconds r) (wr_LearnApprover r) (wr_LearnApprovalID r).

(** [encoding/json] on [WireRequest]. *)
Class WireJSON : Type := {
  json_marshal_req : WireRequest → string;
  json_unmarshal_req : string → option WireRequest;
}.

Inductive Status := StatusPending | StatusApproved | StatusDenied | StatusExpired.
#[global] Instance Status_eq_dec : EqDecision Status.
Proof. solve_decision. Defined.

(** [ap_DecidedAt] is [None] for the zero time. *)
Record Approval := mkApproval {
  ap_ID : string;
  ap_Caller : string;
  ap_EndUser : string;
  ap_Host : string;
  ap_Command : string;
  ap_Sudo : bool;
  ap_SudoUser : string;
  ap_Rule : matched_rule;
  ap_Status : Status;
  ap_CreatedAt : time;
  ap_DecidedBy : string;
  ap_DecidedAt : option time;
  ap_TargetType : string;
  ap_LearnTTL : duration;
  ap_EndUserStripped : bool;
  ap_req : WireRequest;
  ap_consumed : bool;
  ap_issuing : bool;
  ap_resultReported : bool;
}.

(** A row of table [approvals]; times are unix seconds, [0] is no time. *)
Record approval_row := mkApprovalRow {
  rw_caller : string;
  rw_end_user : string;
  rw_host : string;
  rw_command : string;
  rw_sudo : Z;
  rw_sudo_user : string;
  rw_rule : matched_rule;
  rw_status : Status;
  rw_created_at : Z;
  rw_decided_by : string;
  rw_decided_at : Z;
  rw_learn_ttl_seconds : Z;
  rw_consumed : Z;
  rw_request_json : string;
  rw_end_user_stripped : Z;
}.

Record Registry := mkRegistry {
  rg_items : gmap string Approval;
  rg_ttl : duration;
  rg_db : option (gmap string approval_row);
}.

Inductive approval_error :=
| EUnknownApproval (id : string)
| ENotPending (id : string) (s : Status)
| ErrLearnUnattributable (a : Approval)
| ENewID
| EPersistApproval.

(** ** Updates *)

Definition set_status (s : Status) (a : Approval) : Approval :=
  mkApproval (ap_ID a) (ap_Caller a) (ap_EndUser a) (ap_Host a) (ap_Command a) (ap_Sudo a) (ap_SudoUser a)
    (ap_Rule a) s (ap_CreatedAt a) (ap_DecidedBy a) (ap_DecidedAt a) (ap_TargetType a) (ap_LearnTTL a)
    (ap_EndUserStripped a) (ap_req a) (ap_consumed a) (ap_issuing a) (ap_resultReported a).
Definition set_decision (s : Status) (by_ : string) (at_ : time) (learn : duration) (a : Approval) : Approval :=
  mkApproval (ap_ID a) (ap_Caller a) (ap_EndUser a) (ap_Host a) (ap_Command a) (ap_Sudo a) (ap_SudoUser a)
    (ap_Rule a) s (ap_CreatedAt a) by_ (Some at_) (ap_TargetType a) learn
    (ap_EndUserStripped a) (ap_req a) (ap_consumed a) (ap_issuing a) (ap_resultReported a).
Definition set_flags (consumed issuing reported : bool) (a : Approval) : Approval :=
  mkApproval (ap_ID a) (ap_Caller a) (ap_EndUser a) (ap_Host a) (ap_Command a) (ap_Sudo a) (ap_SudoUser a)
    (ap_Rule a) (ap_Status a) (ap_CreatedAt a) (ap_DecidedBy a) (ap_DecidedAt a) (ap_TargetType a) (ap_LearnTTL a)
    (ap_EndUserStripped a) (ap_req a) consumed issuing reported.

Definition with_items (items : gmap string Approval) (r : Registry) : Registry :=
  mkRegistry items (rg_ttl r) (rg_db r).

(** A best-effort write: the table changes when the statement succeeds. *)
Definition updateDBBestEffort (dbok : bool) (upd : gmap string approval_row → gmap string approval_row)
    (r : Registry) : Registry :=
  mkRegistry (rg_items r) (rg_ttl r) (if dbok then upd <$> rg_db r else rg_db r).

Definition NewRegistry (ttl : duration) : Registry :=
  mkRegistry ∅ (if ttl <=? 0 then 2 * Minute else ttl) None.

Definition approvalTargetType (t : string) : string :=
  if bool_decide (t = TargetTypeK8s) then TargetTypeK8s else "".

Definition expireLocked (ttl : duration) (now : time) (a : Approval) : Approval :=
  match ap_Status a with
  | StatusPending =>
      if now - ap_CreatedAt a <=? ttl then a
      else if ap_consumed a then a else set_status StatusExpired a
  | StatusApproved =>
      if ap_consumed a || ap_issuing a then a
      else
        let anchor := match ap_DecidedAt a with Some t => t | None => ap_CreatedAt a end in
        if now - anchor <=? ttl then a
        else if ap_consumed a then a else set_status StatusExpired a
  | _ => a
  end.

Definition purgeLocked (dbok : bool) (now : time) (r : Registry) : Registry :=
  updateDBBestEffort dbok (filter (fun kv => ¬ rw_created_at kv.2 ≤ Unix (now - 2 * rg_ttl r)))
    (with_items (filter (fun kv => ¬ 2 * rg_ttl r < now - ap_CreatedAt kv.2) (rg_items r)) r).

(** [Get]; the expiry it applies stays in the registry. *)
Definition Get (now : time) (r : Registry) (id : string) : option Approval * Registry :=
  match rg_items r !! id with
  | None => (None, r)
  | Some a => let a := expireLocked (rg_ttl r) now a in (Some a, with_items (<[id := a]> (rg_items r)) r)
  end.

Definition Request (r : Registry) (id : string) : option WireRequest := ap_req <$> rg_items r !! id.

Definition rg_Decide (dbok : bool) (now : time) (r : Registry) (id : string) (approve : bool) (by_ : string)
    (learnTTL : duration) : result approval_error Approval * Registry :=
  match rg_items r !! id with
  | None => (Err (EUnknownApproval id), r)
  | Some a =>
      let a := expireLocked (rg_ttl r) now a in
      let r := with_items (<[id := a]> (rg_items r)) r in
      if bool_decide (ap_Status a ≠ StatusPending) then (Err (ENotPending id (ap_Status a)), r)
      else if approve && (0 <? learnTTL) && ap_EndUserStripped a then (Err (ErrLearnUnattributable a), r)
      else
        let a := set_decision (if approve then StatusApproved else StatusDenied) by_ now
                   (if approve && (0 <? learnTTL) then learnTTL else ap_LearnTTL a) a in
        (Ok a,
         updateDBBestEffort dbok
           (alter (fun w => mkApprovalRow (rw_caller w) (rw_end_user w) (rw_host w) (rw_command w) (rw_sudo w)
               (rw_sudo_user w) (rw_rule w) (ap_Status a) (rw_created_at w) by_ (Unix now)
               (Z.quot (ap_LearnTTL a) Second) (rw_consumed w) (rw_request_json w) (rw_end_user_stripped w)) id)
           (with_items (<[id := a]> (rg_items r)) r))
  end.

(** [(started, retry)]. *)
Definition BeginConsume (now : time) (r : Registry) (id : string) : (bool * bool) * Registry :=
  match rg_items r !! id with
  | None => ((false, false), r)
  | Some a =>
      let a := expireLocked (rg_ttl r) now a in
      let r := with_items (<[id := a]> (rg_items r)) r in
      if bool_decide (ap_Status a ≠ StatusApproved) || ap_consumed a then ((false, false), r)
      else if ap_issuing a then ((false, true), r)
      else ((true, false),
            with_items (<[id := set_flags (ap_consumed a) true (ap_resultReported a) a]> (rg_items r)) r)
  end.

Definition FinishConsume (dbok : bool) (r : Registry) (id : string) (success : bool) : Registry :=
  match rg_items r !! id with
  | None => r
  | Some a =>
      let a' := set_flags (if success then true else ap_consumed a) false (ap_resultReported a) a in
      let r' := with_items (<[id := a']> (rg_items r)) r in
      if success then
        updateDBBestEffort dbok
          (alter (fun w => mkApprovalRow (rw_caller w) (rw_end_user w) (rw_host w) (rw_command w) (rw_sudo w)
             (rw_sudo_user w) (rw_rule w) (rw_status w) (rw_created_at w) (rw_decided_by w) (rw_decided_at w)
             (rw_learn_ttl_seconds w) 1 (rw_request_json w) (rw_end_user_stripped w)) id) r'
      else r'
  end.

Definition ReportResultOnce (now : time) (r : Registry) (id : string) : bool * Registry :=
  match rg_items r !! id with
  | None => (false, r)
  | Some a =>
      let a := expireLocked (rg_ttl r) now a in
      let r := with_items (<[id := a]> (rg_items r)) r in
      if bool_decide (ap_Status a ≠ StatusDenied) && bool_decide (ap_Status a ≠ StatusExpired) then (false, r)
      else if ap_resultReported a then (false, r)
      else (true, with_items (<[id := set_flags (ap_consumed a) (ap_issuing a) true a]> (rg_items r)) r)
  end.

Definition rg_List (iter : range_order Approval) (dbok : bool) (now : time) (r : Registry) :
    list Approval * Registry :=
  let r := purgeLocked dbok now r in
  let items := expireLocked (rg_ttl r) now <$> rg_items r in
  (map snd (iter items), with_items items r).

Section persistence.
Context `{WJ : WireJSON}.

Definition bool_int (b : bool) : Z := if b then 1 else 0.

Definition row_of_approval (a : Approval) : approval_row :=
  mkApprovalRow (ap_Caller a) (ap_EndUser a) (ap_Host a) (ap_Command a) (bool_int (ap_Sudo a)) (ap_SudoUser a)
    (ap_Rule a) (ap_Status a) (Unix (ap_CreatedAt a)) (ap_DecidedBy a) 0 0 0
    (json_marshal_req (strip_bearer (ap_req a))) (bool_int (ap_EndUserStripped a)).

(** [insertDB]: fails on a driver error or a duplicate key. *)
Definition rg_insertDB (dbok : bool) (tbl : gmap string approval_row) (a : Approval) :
    option (gmap string approval_row) :=
  if dbok then match tbl !! ap_ID a with
               | Some _ => None
               | None => Some (<[ap_ID a := row_of_approval a]> tbl)
               end
  else None.

(** The request as it enters the registry. *)
Definition new_approval (id : string) (req : WireRequest) (caller : string) (rule : matched_rule)
    (stripped : bool) (now : time) : Approval :=
  mkApproval id caller (wr_EndUser req) (wr_Host req) (wr_Command req) (wr_Sudo req) (wr_SudoUser req) rule
    StatusPending now "" None (approvalTargetType (wr_TargetType req)) 0 stripped req false false false.

(** [CreateWith]; [id] is what [newID] draws, [now1] and [now2] the clock at the
    purge and at the creation, [delok] and [insok] the outcomes of the two
    statements. *)
Definition CreateWith (id : option string) (delok insok : bool) (now1 now2 : time) (r : Registry)
    (req : WireRequest) (caller : string) (rule : matched_rule) (stripped : bool) :
    result approval_error Approval * Registry :=
  match id with
  | None => (Err ENewID, r)
  | Some id =>
      let r := purgeLocked delok now1 r in
      let a := new_approval id req caller rule stripped now2 in
      match rg_db r with
      | None => (Ok a, with_items (<[id := a]> (rg_items r)) r)
      | Some tbl =>
          match rg_insertDB insok tbl a with
          | None => (Err EPersistApproval, r)
          | Some tbl' => (Ok a, mkRegistry (<[id := a]> (rg_items r)) (rg_ttl r) (Some tbl'))
          end
      end
  end.
Definition Create (id : option string) (delok insok : bool) (now1 now2 : time) (r : Registry)
    (req : WireRequest) (caller : string) (rule : matched_rule) :=
  CreateWith id delok insok now1 now2 r req caller rule false.

Definition load_approval (id : string) (w : approval_row) : option Approval :=
  match json_unmarshal_req (rw_request_json w) with
  | None => None
  | Some req =>
      Some (mkApproval id (rw_caller w) (rw_end_user w) (rw_host w) (rw_command w)
        (bool_decide (rw_sudo w ≠ 0)) (rw_sudo_user w) (rw_rule w) (rw_status w) (time_of_unix (rw_created_at w))
        (rw_decided_by w) (if rw_decided_at w =? 0 then None else Some (time_of_unix (rw_decided_at w)))
        (approvalTargetType (wr_TargetType req)) (rw_learn_ttl_seconds w * Second)
        (bool_decide (rw_end_user_stripped w ≠ 0)) req (bool_decide (rw_consumed w ≠ 0)) false false)
  end.

Definition NewRegistryDB (ttl : duration) (tbl : gmap string approval_row) (now : time) : Registry :=
  let r := NewRegistry ttl in
  mkRegistry
    (map_imap (fun id w => if Unix (now - 2 * rg_ttl r) <? rw_created_at w then load_approval id w else None) tbl)
    (rg_ttl r) (Some tbl).
End persistence.

(** [WithRedactedCommand] and [TargetLabel], for the notification sinks. *)
Definition WithRedactedCommand (redact : option (string → string)) (a : Approval) : Approval :=
  match redact with
  | None => a
  | Some f =>
      mkApproval (ap_ID a) (ap_Caller a) (ap_EndUser a) (ap_Host a) (f (ap_Command a)) (ap_Sudo a) (ap_SudoUser a)
        (ap_Rule a) (ap_Status a) (ap_CreatedAt a) (ap_DecidedBy a) (ap_DecidedAt a) (ap_TargetType a) (ap_LearnTTL a)
        (ap_EndUserStripped a) (ap_req a) (ap_consumed a) (ap_issuing a) (ap_resultReported a)
  end.
Definition TargetLabel (a : Approval) : string :=
  if bool_decide (ap_TargetType a = TargetTypeK8s) then "Cluster" else "Host".

(** ** The registry and its clients as a transition system *)

(** One operation; [RPurge] then [RInsert] is [CreateWith], whose two critical
    sections other operations may separate. *)
Inductive reg_op :=
| RPurge (dbok : bool) (now : time)
| RInsert (insok : bool) (now : time) (id : string) (req : WireRequest) (caller : string)
    (rule : matched_rule) (stripped : bool)
| RGet (now : time) (id : string)
| RDecide (dbok : bool) (now : time) (id : string) (approve : bool) (by_ : string) (learn : duration)
| RBegin (now : time) (id : string)
| RFinish (dbok : bool) (id : string) (success : bool)
| RReport (now : time) (id : string)
| RList (dbok : bool) (now : time)
| RRestart (now : time).

Section transitions.
Context `{WJ : WireJSON}.

Definition insert_approval (insok : bool) (now : time) (r : Registry) (id : string) (req : WireRequest)
    (caller : string) (rule : matched_rule) (stripped : bool) : result approval_error Approval * Registry :=
  let a := new_approval id req caller rule stripped now in
  match rg_db r with
  | None => (Ok a, with_items (<[id := a]> (rg_items r)) r)
  | Some tbl =>
      match rg_insertDB insok tbl a with
      | None => (Err EPersistApproval, r)
      | Some tbl' => (Ok a, mkRegistry (<[id := a]> (rg_items r)) (rg_ttl r) (Some tbl'))
      end
  end.

Lemma CreateWith_steps id delok insok now1 now2 r req caller rule stripped :
  CreateWith (Some id) delok insok now1 now2 r req caller rule stripped
  = insert_approval insok now2 (purgeLocked delok now1 r) id req caller rule stripped.
Proof. reflexivity. Qed.

(** The registry after an operation. *)
Definition run_reg (r : Registry) (op : reg_op) : Registry :=
  match op with
  | RPurge dbok now => purgeLocked dbok now r
  | RInsert insok now id req caller rule stripped => (insert_approval insok now r id req caller rule stripped).2
  | RGet now id => (Get now r id).2
  | RDecide dbok now id approve by_ learn => (rg_Decide dbok now r id approve by_ learn).2
  | RBegin now id => (BeginConsume now r id).2
  | RFinish dbok id success => FinishConsume dbok r id success
  | RReport now id => (ReportResultOnce now r id).2
  | RList dbok now => (rg_List map_to_list dbok now r).2
  | RRestart now => match rg_db r with Some tbl => NewRegistryDB (rg_ttl r) tbl now | None => r end
  end.

Definition op_time (op : reg_op) : option time :=
  match op with
  | RPurge _ now | RInsert _ now _ _ _ _ _ | RGet now _ | RDecide _ now _ _ _ _ | RBegin now _
  | RReport now _ | RList _ now | RRestart now => Some now
  | RFinish _ _ _ => None
  end.

(** The registry, the clock, the ids ever drawn, the claims whose holder has not
    reported back and the ids a credential was issued for. *)
Record reg_state := mkRegState {
  gs_reg : Registry;
  gs_clock : time;
  gs_created : gset string;
  gs_claims : gset string;
  gs_issued : list string;
  gs_approved : gset string;
}.

(** What a client may do: time does not go back, ids are drawn once, only the
    holder of a claim finishes it, and the process restarts with no claim in
    flight and over a database. *)
Definition op_allowed (st : reg_state) (op : reg_op) : Prop :=
  (∀ now, op_time op = Some now → gs_clock st ≤ now) ∧
  match op with
  | RInsert _ _ id _ _ _ _ => id ∉ gs_created st
  | RFinish _ id _ => id ∈ gs_claims st
  | RRestart _ => gs_claims st = ∅ ∧ rg_db (gs_reg st) ≠ None
  | _ => True
  end.

Definition reg_next (st : reg_state) (op : reg_op) : reg_state :=
  let r := gs_reg st in
  mkRegState (run_reg r op)
    (match op_time op with Some now => now | None => gs_clock st end)
    (match op with RInsert _ _ id _ _ _ _ => {[id]} ∪ gs_created st | _ => gs_created st end)
    (match op with
     | RBegin now id => if (BeginConsume now r id).1.1 then {[id]} ∪ gs_claims st else gs_claims st
     | RFinish _ id _ => gs_claims st ∖ {[id]}
     | _ => gs_claims st
     end)
    (match op with RFinish _ id true => id :: gs_issued st | _ => gs_issued st end)
    (match op with
     | RDecide dbok now id true by_ learn =>
         if is_ok (rg_Decide dbok now r id true by_ learn).1 then {[id]} ∪ gs_approved st else gs_approved st
     | _ => gs_approved st
     end).

Inductive reg_run (st : reg_state) : list reg_op → reg_state → Prop :=
| run_nil : reg_run st [] st
| run_snoc ops st' op : reg_run st ops st' → op_allowed st' op → reg_run st (ops ++ [op]) (reg_next st' op).

Definition reg_init (ttl : duration) (db : bool) : reg_state :=
  mkRegState (mkRegistry ∅ (rg_ttl (NewRegistry ttl)) (if db then Some ∅ else None)) 0 ∅ ∅ [] ∅.

(** The write that marks a request consumed was not lost. *)
Definition consume_durable (op : reg_op) : Prop :=
  match op with RFinish dbok _ true => dbok = true | _ => True end.

(** *** Invariant *)

Definition aged (st : reg_state) (created : Z) : Prop :=
  created ≤ Unix (gs_clock st - 2 * rg_ttl (gs_reg st)).

Record reg_inv (st : reg_state) : Prop := {
  ri_ttl : 0 < rg_ttl (gs_reg st);
  ri_disjoint : ∀ id, id ∈ gs_claims st → id ∉ gs_issued st;
  ri_nodup : NoDup (gs_issued st);
  ri_created : (∀ id, id ∈ gs_claims st ∨ id ∈ gs_issued st → id ∈ gs_created st) ∧
    (∀ id, is_Some (rg_items (gs_reg st) !! id) → id ∈ gs_created st) ∧
    (∀ tbl id, rg_db (gs_reg st) = Some tbl → is_Some (tbl !! id) → id ∈ gs_created st);
  ri_item : ∀ id a, rg_items (gs_reg st) !! id = Some a →
    (ap_issuing a = true ↔ id ∈ gs_claims st) ∧ (id ∈ gs_issued st → ap_consumed a = true) ∧
    (ap_Status a = StatusApproved → id ∈ gs_approved st);
  ri_approved : ∀ id, id ∈ gs_claims st ∨ id ∈ gs_issued st → id ∈ gs_approved st;
  ri_row : ∀ tbl id w, rg_db (gs_reg st) = Some tbl → tbl !! id = Some w →
    (id ∈ gs_issued st → rw_consumed w ≠ 0 ∨ aged st (rw_created_at w)) ∧
    (id ∈ gs_claims st → rg_items (gs_reg st) !! id = None → aged st (rw_created_at w)) ∧
    (∀ a, rg_items (gs_reg st) !! id = Some a → rw_created_at w = Unix (ap_CreatedAt a)) ∧
    (rw_status w = StatusApproved → id ∈ gs_approved st);
}.

(** An update of an entry that concerns neither claims, consumption, creation
    nor approval. *)
Record quiet (a a' : Approval) : Prop := {
  q_issuing : ap_issuing a' = ap_issuing a;
  q_consumed : ap_consumed a' = ap_consumed a;
  q_created : ap_CreatedAt a' = ap_CreatedAt a;
  q_approved : ap_Status a' = StatusApproved → ap_Status a = StatusApproved;
}.

Lemma quiet_refl a : quiet a a.
Proof. by split. Qed.

Lemma expireLocked_quiet ttl now a : quiet a (expireLocked ttl now a).
Proof. unfold expireLocked. repeat case_match; by split. Qed.

Definition set_reg (st : reg_state) (now : time) (r : Registry) : reg_state :=
  mkRegState r now (gs_created st) (gs_claims st) (gs_issued st) (gs_approved st).

Definition same_items (m m' : gmap string Approval) : Prop :=
  ∀ id, match m !! id, m' !! id with
        | Some a, Some a' => quiet a a'
        | None, None => True
        | _, _ => False
        end.

Lemma same_items_refl m : same_items m m.
Proof. intros k. destruct (m !! k); [apply quiet_refl|done]. Qed.

Lemma same_items_insert m id a a' : m !! id = Some a → quiet a a' → same_items m (<[id := a']> m).
Proof.
  intros Hm Hq k. destruct (decide (k = id)) as [->|].
  - by rewrite Hm, lookup_insert_eq.
  - rewrite lookup_insert_ne by done. by destruct (m !! k); [apply quiet_refl|].
Qed.

Lemma same_items_fmap m ttl now : same_items m (expireLocked ttl now <$> m).
Proof. intros k. rewrite lookup_fmap. destruct (m !! k); simpl; [apply expireLocked_quiet|done]. Qed.

Lemma aged_mono ttl t1 t2 c : t1 ≤ t2 → c ≤ Unix (t1 - 2 * ttl) → c ≤ Unix (t2 - 2 * ttl).
Proof. intros. pose proof (Unix_mono (t1 - 2 * ttl) (t2 - 2 * ttl)). lia. Qed.

(** Time passes and entries are updated quietly. *)
Lemma inv_quiet st now m :
  gs_clock st ≤ now → same_items (rg_items (gs_reg st)) m → reg_inv st →
  reg_inv (set_reg st now (with_items m (gs_reg st))).
Proof.
  intros Hn Hm [H1 H2 H3 (H4a & H4b & H4c) H5 H6 H7]. constructor; simpl; try done.
  - split_and!; try done. intros id [a' Ha']. specialize (Hm id). rewrite Ha' in Hm.
    destruct (rg_items _ !! id) eqn:Ha; [|done]. eauto.
  - intros id a' Ha'. specialize (Hm id). rewrite Ha' in Hm.
    destruct (rg_items _ !! id) as [a|] eqn:Ha; [|done]. destruct (H5 _ _ Ha) as (Hi & Hc & Hs).
    destruct Hm as [Q1 Q2 Q3 Q4]. rewrite Q1, Q2. split_and!; auto.
  - intros tbl id w Htbl Hw. destruct (H7 _ _ _ Htbl Hw) as (K1 & K2 & K3 & K4). unfold aged in *. simpl.
    split_and!; [|intros Hcl Hnone|intros a' Ha'|done].
    + intros Hi. destruct (K1 Hi); [by left|right]. by eapply aged_mono.
    + eapply aged_mono; [done|]. apply K2; [done|]. specialize (Hm id). rewrite Hnone in Hm.
      by destruct (rg_items _ !! id).
    + specialize (Hm id). rewrite Ha' in Hm. destruct (rg_items _ !! id) as [a|] eqn:Ha; [|done].
      rewrite (K3 _ eq_refl). by rewrite (q_created _ _ Hm).
Qed.

Lemma Unix_le_mono_purge now ttl c : 2 * ttl < now - c → Unix c ≤ Unix (now - 2 * ttl).
Proof. intros. apply Unix_mono. lia. Qed.

Lemma inv_purge st dbok now :
  gs_clock st ≤ now → reg_inv st → reg_inv (set_reg st now (purgeLocked dbok now (gs_reg st))).
Proof.
  intros Hn [H1 H2 H3 (H4a & H4b & H4c) H5 H6 H7].
  assert (Hdb : ∀ tbl' id w, rg_db (purgeLocked dbok now (gs_reg st)) = Some tbl' → tbl' !! id = Some w →
    ∃ tbl, rg_db (gs_reg st) = Some tbl ∧ tbl !! id = Some w).
  { unfold purgeLocked; simpl. intros tbl' id w Ht Hw. destruct dbok; [|eauto].
    destruct (rg_db (gs_reg st)) as [tbl|]; simplify_eq/=. apply map_lookup_filter_Some in Hw as [? _]. eauto. }
  constructor; simpl; try done.
  - split_and!; [done| |].
    + intros id [a [Ha _]%map_lookup_filter_Some]. eauto.
    + intros tbl' id Ht [w Hw]. destruct (Hdb _ _ _ Ht Hw) as (tbl & Htb & Hw'). eauto.
  - intros id a [Ha _]%map_lookup_filter_Some. eauto.
  - intros tbl' id w Ht Hw. destruct (Hdb _ _ _ Ht Hw) as (tbl & Htb & Hw').
    destruct (H7 _ _ _ Htb Hw') as (K1 & K2 & K3 & K4). unfold aged in *. simpl. split_and!; [|intros Hcl Hnone| |done].
    + intros Hi. destruct (K1 Hi); [by left|right]. by eapply aged_mono.
    + destruct (rg_items (gs_reg st) !! id) as [a|] eqn:Ha.
      * apply map_lookup_filter_None in Hnone as [?|Hold]; [congruence|]. specialize (Hold a Ha). simpl in Hold.
        rewrite (K3 a eq_refl). apply Unix_le_mono_purge. lia.
      * eapply aged_mono; [done|]. by apply K2.
    + intros a [Ha _]%map_lookup_filter_Some. by apply K3.
Qed.

Lemma inv_insert st insok now id req caller rule stripped :
  gs_clock st ≤ now → id ∉ gs_created st → reg_inv st →
  reg_inv (reg_next st (RInsert insok now id req caller rule stripped)).
Proof.
  intros Hn Hfresh Hinv. pose proof Hinv as [H1 H2 H3 (H4a & H4b & H4c) H5 H6 H7].
  unfold reg_next. simpl.
  assert (Hnocl : (id ∉ gs_claims st) ∧ (id ∉ gs_issued st)) by (split; intros Hx; apply Hfresh; auto).
  assert (Hnoitem : rg_items (gs_reg st) !! id = None).
  { destruct (_ !! id) eqn:?; [|done]. exfalso. apply Hfresh. eauto. }
  assert (Hnorow : ∀ tbl, rg_db (gs_reg st) = Some tbl → tbl !! id = None).
  { intros tbl Ht. destruct (tbl !! id) eqn:?; [|done]. exfalso. apply Hfresh. eauto. }
  pose proof (inv_quiet st now (rg_items (gs_reg st)) Hn (same_items_refl _) Hinv) as Hq.
  unfold insert_approval, rg_insertDB. set (a := new_approval id req caller rule stripped now).
  change (ap_ID a) with id. set (st' := set_reg st now _) in Hq.
  assert (Hgen : ∀ db', (∀ tbl' k w, db' = Some tbl' → tbl' !! k = Some w →
      k = id ∧ w = row_of_approval a ∨ k ≠ id ∧ ∃ tbl, rg_db (gs_reg st) = Some tbl ∧ tbl !! k = Some w) →
    reg_inv (mkRegState (mkRegistry (<[id := a]> (rg_items (gs_reg st))) (rg_ttl (gs_reg st)) db') now
      ({[id]} ∪ gs_created st) (gs_claims st) (gs_issued st) (gs_approved st))).
  { intros db' Hdb. constructor; simpl; try done.
    - split_and!.
      + intros k Hk. apply elem_of_union. right. auto.
      + intros k [b [[<- _]|[_ Hb]]%lookup_insert_Some]; [set_solver|]. apply elem_of_union. right. eauto.
      + intros tbl' k Ht [w Hw]. destruct (Hdb _ _ _ Ht Hw) as [[-> _]|(_ & tbl & Htb & Hw')]; [set_solver|].
        apply elem_of_union. right. eauto.
    - intros k b [[<- <-]|[Hne Hb]]%lookup_insert_Some; [|eauto]. simpl. naive_solver.
    - intros tbl' k w Ht Hw. destruct (Hdb _ _ _ Ht Hw) as [[-> ->]|(Hne & tbl & Htb & Hw')].
      + split_and!; [naive_solver|naive_solver| |done]. intros b. rewrite lookup_insert_eq. by intros [= <-].
      + destruct (ri_row _ Hq _ _ _ Htb Hw') as (K1 & K2 & K3 & K4). simpl in *.
        rewrite lookup_insert_ne by done. done. }
  destruct (rg_db (gs_reg st)) as [tbl|] eqn:Hdb.
  - destruct insok; simpl.
    + rewrite (Hnorow tbl eq_refl). simpl. apply Hgen. intros tbl' k w [= <-].
      intros [[<- <-]|[Hne Hw]]%lookup_insert_Some; [by left|right]. eauto.
    + destruct Hq as [Q1 Q2 Q3 (Q4a & Q4b & Q4c) Q5 Q6 Q7]. destruct (gs_reg st) as [items ttl db]; simpl in *.
      constructor; simpl; try done. split_and!; set_solver.
  - simpl. unfold with_items. rewrite Hdb. apply Hgen. done.
Qed.

(** A decision on a pending entry. *)
Lemma inv_decided st id a a' (upd : approval_row → approval_row) dbok approved :
  rg_items (gs_reg st) !! id = Some a → ap_issuing a' = ap_issuing a → ap_consumed a' = ap_consumed a →
  ap_CreatedAt a' = ap_CreatedAt a → gs_approved st ⊆ approved →
  (ap_Status a' = StatusApproved → id ∈ approved) →
  (∀ w, rw_consumed (upd w) = rw_consumed w ∧ rw_created_at (upd w) = rw_created_at w ∧
        rw_status (upd w) = ap_Status a') →
  reg_inv st →
  reg_inv (mkRegState
    (updateDBBestEffort dbok (alter upd id) (with_items (<[id := a']> (rg_items (gs_reg st))) (gs_reg st)))
    (gs_clock st) (gs_created st) (gs_claims st) (gs_issued st) approved).
Proof.
  intros Ha E1 E2 E3 Happ Hst Hupd [H1 H2 H3 (H4a & H4b & H4c) H5 H6 H7].
  assert (Hdb : ∀ tbl' k w', rg_db (updateDBBestEffort dbok (alter upd id) (gs_reg st)) = Some tbl' →
    tbl' !! k = Some w' → ∃ tbl w, rg_db (gs_reg st) = Some tbl ∧ tbl !! k = Some w ∧
      rw_consumed w' = rw_consumed w ∧ rw_created_at w' = rw_created_at w ∧
      (rw_status w' = rw_status w ∨ k = id ∧ rw_status w' = ap_Status a')).
  { simpl. intros tbl' k w' Ht Hw. destruct dbok; [|eauto 10].
    destruct (rg_db (gs_reg st)) as [tbl|]; simplify_eq/=.
    destruct (decide (k = id)) as [->|Hne].
    - rewrite lookup_alter_eq in Hw. destruct (tbl !! id) as [w|] eqn:Hw0; simplify_eq/=.
      destruct (Hupd w) as (-> & -> & ->). eauto 10.
    - rewrite lookup_alter_ne in Hw by done. eauto 10. }
  constructor; simpl; try done.
  - split_and!; [done| |].
    + intros k [b [[<- _]|[_ Hb]]%lookup_insert_Some]; eauto.
    + intros tbl' k Ht [w' Hw]. destruct (Hdb _ _ _ Ht Hw) as (tbl & w & Htb & Hw0 & _). eauto.
  - intros k b [[<- <-]|[_ Hb]]%lookup_insert_Some.
    + destruct (H5 _ _ Ha) as (K1 & K2 & _). rewrite E1, E2. done.
    + destruct (H5 _ _ Hb) as (K1 & K2 & K3). split_and!; auto.
  - auto.
  - intros tbl' k w' Ht Hw. destruct (Hdb _ _ _ Ht Hw) as (tbl & w & Htb & Hw0 & Ec & Ecr & Es).
    destruct (H7 _ _ _ Htb Hw0) as (K1 & K2 & K3 & K4). unfold aged in *. simpl in *. rewrite Ec, Ecr.
    split_and!; [done|intros Hcl Hnone| |].
    + apply lookup_insert_None in Hnone as [? _]. auto.
    + intros b [[<- <-]|[_ Hb]]%lookup_insert_Some; [|eauto]. rewrite E3. eauto.
    + intros Hs. destruct Es as [Es|[-> Es]]; [rewrite Es in Hs; auto|]. apply Hst. congruence.
Qed.

(** A finished claim. *)
Lemma inv_finish st dbok id success :
  id ∈ gs_claims st → (success = true → dbok = true) → reg_inv st →
  reg_inv (reg_next st (RFinish dbok id success)).
Proof.
  intros Hcl Hdur [H1 H2 H3 (H4a & H4b & H4c) H5 H6 H7]. unfold reg_next. simpl.
  set (issued := if success then id :: gs_issued st else gs_issued st).
  assert (Hiss : ∀ k, k ∈ issued ↔ k ∈ gs_issued st ∨ success = true ∧ k = id).
  { intros k. unfold issued. destruct success; set_solver. }
  assert (Hbase : NoDup issued ∧ (∀ k, k ∈ gs_claims st ∖ {[id]} → k ∉ issued) ∧
    (∀ k, k ∈ gs_claims st ∖ {[id]} ∨ k ∈ issued → k ∈ gs_created st ∧ k ∈ gs_approved st)).
  { split_and!.
    - unfold issued. destruct success; [|done]. constructor; [|done]. auto.
    - intros k Hk. rewrite Hiss. set_solver.
    - intros k. rewrite Hiss. set_solver. }
  destruct Hbase as (B1 & B2 & B3).
  unfold FinishConsume. destruct (rg_items (gs_reg st) !! id) as [a|] eqn:Ha.
  - set (a' := set_flags _ _ _ a). set (upd := fun w : approval_row => _).
    assert (Hreg : (if success then updateDBBestEffort dbok (alter upd id) (with_items (<[id:=a']> (rg_items (gs_reg st))) (gs_reg st))
                    else with_items (<[id:=a']> (rg_items (gs_reg st))) (gs_reg st))
      = mkRegistry (<[id:=a']> (rg_items (gs_reg st))) (rg_ttl (gs_reg st))
          (if success then alter upd id <$> rg_db (gs_reg st) else rg_db (gs_reg st))).
    { destruct success; [|done]. unfold updateDBBestEffort. simpl. by rewrite Hdur. }
    rewrite Hreg. clear Hreg.
    assert (Hdb : ∀ tbl' k w', (if success then alter upd id <$> rg_db (gs_reg st) else rg_db (gs_reg st)) = Some tbl' →
      tbl' !! k = Some w' → ∃ tbl w, rg_db (gs_reg st) = Some tbl ∧ tbl !! k = Some w ∧
        rw_created_at w' = rw_created_at w ∧ rw_status w' = rw_status w ∧
        (rw_consumed w' = 1 ∨ rw_consumed w' = rw_consumed w ∧ (k = id → success = false))).
    { intros tbl' k w' Ht Hw. destruct success; [|eauto 10].
      destruct (rg_db (gs_reg st)) as [tbl|]; simplify_eq/=. destruct (decide (k = id)) as [->|Hne].
      - rewrite lookup_alter_eq in Hw. destruct (tbl !! id) as [w|] eqn:Hw0; simplify_eq/=. eauto 10.
      - rewrite lookup_alter_ne in Hw by done. exists tbl, w'. split_and!; try done. by right. }
    constructor; simpl; try done.
    + split_and!; [by intros k Hk; apply B3| |].
      * intros k [b [[<- _]|[_ Hb]]%lookup_insert_Some]; eauto.
      * intros tbl' k Ht [w' Hw]. destruct (Hdb _ _ _ Ht Hw) as (tbl & w & Htb & Hw0 & _). eauto.
    + intros k b [[<- <-]|[Hne Hb]]%lookup_insert_Some.
      * destruct (H5 _ _ Ha) as (K1 & K2 & K3). simpl. rewrite Hiss. split_and!; [set_solver| |done].
        intros [Hi|[-> _]]; [|done]. destruct success; [done|auto].
      * destruct (H5 _ _ Hb) as (K1 & K2 & K3). rewrite Hiss, elem_of_difference, K1. set_solver.
    + intros k Hk. by apply B3.
    + intros tbl' k w' Ht Hw. destruct (Hdb _ _ _ Ht Hw) as (tbl & w & Htb & Hw0 & Ecr & Es & Ec).
      destruct (H7 _ _ _ Htb Hw0) as (K1 & K2 & K3 & K4). unfold aged in *. simpl. rewrite Ecr, Es.
      split_and!; [|intros Hk Hnone| |done].
      * rewrite Hiss. intros Hk. destruct Ec as [->|[-> Ec]]; [by left|].
        destruct Hk as [Hk|[-> ->]]; [auto|]. by specialize (Ec eq_refl).
      * apply lookup_insert_None in Hnone as [? _]. apply K2; [set_solver|done].
      * intros b [[<- <-]|[_ Hb]]%lookup_insert_Some; [exact (K3 a Ha)|eauto].
  - constructor; simpl; try done.
    + split_and!; [by intros k Hk; apply B3|done|done].
    + intros k b Hb. assert (k ≠ id) by (intros ->; congruence).
      destruct (H5 _ _ Hb) as (K1 & K2 & K3). rewrite Hiss, elem_of_difference, K1. set_solver.
    + intros k Hk. by apply B3.
    + intros tbl k w Ht Hw. destruct (H7 _ _ _ Ht Hw) as (K1 & K2 & K3 & K4). split_and!; [|set_solver|done|done].
      rewrite Hiss. intros [Hk|[_ ->]]; [auto|]. right. by apply K2.
Qed.

(** A claim that starts. *)
Lemma inv_claim st id a :
  rg_items (gs_reg st) !! id = Some a → ap_Status a = StatusApproved → ap_consumed a = false →
  reg_inv st →
  reg_inv (mkRegState (with_items (<[id := set_flags (ap_consumed a) true (ap_resultReported a) a]>
      (rg_items (gs_reg st))) (gs_reg st)) (gs_clock st) (gs_created st) ({[id]} ∪ gs_claims st)
    (gs_issued st) (gs_approved st)).
Proof.
  intros Ha Hs Hc [H1 H2 H3 (H4a & H4b & H4c) H5 H6 H7]. destruct (H5 _ _ Ha) as (K1 & K2 & K3).
  assert (Hni : id ∉ gs_issued st) by (intros Hi; apply K2 in Hi; congruence).
  constructor; simpl; try done.
  - set_solver.
  - split_and!; [|intros k [b [[<- _]|[_ Hb]]%lookup_insert_Some]; eauto|done].
    intros k [[->%elem_of_singleton|Hk]%elem_of_union|Hk]; eauto.
  - intros k b [[<- <-]|[Hne Hb]]%lookup_insert_Some.
    + simpl. split_and!; [set_solver|done|auto].
    + destruct (H5 _ _ Hb) as (L1 & L2 & L3). split_and!; [|done|done]. rewrite L1. set_solver.
  - intros k [[->%elem_of_singleton|Hk]%elem_of_union|Hk]; eauto.
  - intros tbl k w Ht Hw. destruct (H7 _ _ _ Ht Hw) as (L1 & L2 & L3 & L4). split_and!; [done| | |done].
    + intros Hk [Hn Hne]%lookup_insert_None. apply L2; [set_solver|done].
    + intros b [[<- <-]|[_ Hb]]%lookup_insert_Some; [exact (L3 a Ha)|eauto].
Qed.

Lemma Unix_time_of_unix s : Unix (time_of_unix s) = s.
Proof. unfold Unix, time_of_unix. by rewrite Z.div_mul. Qed.

(** A restart from the database, with no claim in flight. *)
Lemma inv_restart st tbl now :
  gs_clock st ≤ now → gs_claims st = ∅ → rg_db (gs_reg st) = Some tbl → reg_inv st →
  reg_inv (set_reg st now (NewRegistryDB (rg_ttl (gs_reg st)) tbl now)).
Proof.
  intros Hn Hcl Hdb [H1 H2 H3 (H4a & H4b & H4c) H5 H6 H7].
  assert (Httl : rg_ttl (NewRegistry (rg_ttl (gs_reg st))) = rg_ttl (gs_reg st)).
  { simpl. case_match; unbool; lia. }
  assert (Hload : ∀ id a, rg_items (NewRegistryDB (rg_ttl (gs_reg st)) tbl now) !! id = Some a →
    ∃ w, tbl !! id = Some w ∧ Unix (now - 2 * rg_ttl (gs_reg st)) < rw_created_at w ∧
      load_approval id w = Some a).
  { unfold NewRegistryDB. rewrite Httl. cbn [rg_items]. intros id a. rewrite map_lookup_imap.
    destruct (tbl !! id) as [w|]; simpl; [|done]. case_match; [|done]. unbool. eauto. }
  assert (Hfields : ∀ id w a, load_approval id w = Some a → ap_issuing a = false ∧
    ap_consumed a = bool_decide (rw_consumed w ≠ 0) ∧ ap_Status a = rw_status w ∧
    ap_CreatedAt a = time_of_unix (rw_created_at w)).
  { unfold load_approval. intros id w a. case_match; [|done]. by intros [= <-]. }
  constructor; cbn [gs_reg gs_claims gs_issued gs_created gs_approved set_reg]; try done.
  - unfold NewRegistryDB. by rewrite Httl.
  - split_and!; [done| |].
    + intros id [a Ha]. destruct (Hload _ _ Ha) as (w & Hw & _). eauto.
    + intros t id [= <-] Hw. eauto.
  - intros id a Ha. destruct (Hload _ _ Ha) as (w & Hw & Hyoung & Hl).
    destruct (Hfields _ _ _ Hl) as (-> & -> & -> & _). destruct (H7 _ _ _ Hdb Hw) as (K1 & K2 & K3 & K4).
    rewrite Hcl. split_and!; [set_solver| |done]. intros Hi. apply bool_decide_eq_true.
    destruct (K1 Hi) as [|Hag]; [done|]. unfold aged in Hag.
    pose proof (aged_mono (rg_ttl (gs_reg st)) _ _ _ Hn Hag). lia.
  - intros t id w [= <-] Hw. destruct (H7 _ _ _ Hdb Hw) as (K1 & K2 & K3 & K4). split_and!; [| |intros a Ha|done].
    + intros Hi. destruct (K1 Hi) as [|Hag]; [by left|right]. unfold aged in *. cbn.
      change (if rg_ttl (gs_reg st) <=? 0 then 2 * Minute else rg_ttl (gs_reg st))
        with (rg_ttl (NewRegistry (rg_ttl (gs_reg st)))). rewrite Httl. by eapply aged_mono.
    + rewrite Hcl. set_solver.
    + destruct (Hload _ _ Ha) as (w' & Hw' & _ & Hl). assert (w' = w) as -> by congruence.
      destruct (Hfields _ _ _ Hl) as (_ & _ & _ & ->). by rewrite Unix_time_of_unix.
Qed.

Lemma inv_decide st dbok now id approve by_ learn :
  gs_clock st ≤ now → reg_inv st → reg_inv (reg_next st (RDecide dbok now id approve by_ learn)).
Proof.
  intros Hn Hinv. unfold reg_next. cbn [run_reg op_time]. unfold rg_Decide.
  destruct (rg_items (gs_reg st) !! id) as [a0|] eqn:Ha0.
  2: { pose proof (inv_quiet st now _ Hn (same_items_refl _) Hinv) as Hq.
       destruct st as [[items ttl db] ?????], approve; exact Hq. }
  set (a := expireLocked (rg_ttl (gs_reg st)) now a0). cbn [is_ok].
  pose proof (inv_quiet st now (<[id:=a]> (rg_items (gs_reg st))) Hn
    (same_items_insert _ _ _ _ Ha0 (expireLocked_quiet _ _ _)) Hinv) as Hq.
  assert (Hsame : reg_inv (mkRegState (with_items (<[id:=a]> (rg_items (gs_reg st))) (gs_reg st)) now (gs_created st)
    (gs_claims st) (gs_issued st) (gs_approved st))) by exact Hq.
  set (st1 := set_reg st now _) in Hq. clearbody a.
  assert (Hit : rg_items (gs_reg st1) !! id = Some a) by apply lookup_insert_eq.
  case_bool_decide as Hp; [by destruct approve|].
  destruct approve; cbn [andb].
  - destruct ((0 <? learn) && ap_EndUserStripped a); [exact Hsame|]. cbn [fst snd is_ok].
    refine (inv_decided st1 id a (set_decision StatusApproved by_ now _ a) _ dbok _ Hit eq_refl eq_refl eq_refl _ _ _ Hq);
      [set_solver|set_solver|intros w; split_and!; reflexivity].
  - refine (inv_decided st1 id a (set_decision StatusDenied by_ now _ a) _ dbok _ Hit eq_refl eq_refl eq_refl _ _ _ Hq);
      [set_solver|done|intros w; split_and!; reflexivity].
Qed.

Lemma inv_begin st now id : gs_clock st ≤ now → reg_inv st → reg_inv (reg_next st (RBegin now id)).
Proof.
  intros Hn Hinv. unfold reg_next. cbn [run_reg op_time]. unfold BeginConsume.
  destruct (rg_items (gs_reg st) !! id) as [a0|] eqn:Ha0; cbn [fst snd].
  2: { destruct st as [[items ttl db] ?????]. exact (inv_quiet _ now items Hn (same_items_refl _) Hinv). }
  set (a := expireLocked (rg_ttl (gs_reg st)) now a0).
  pose proof (inv_quiet st now (<[id:=a]> (rg_items (gs_reg st))) Hn
    (same_items_insert _ _ _ _ Ha0 (expireLocked_quiet _ _ _)) Hinv) as Hq.
  destruct (bool_decide (ap_Status a ≠ StatusApproved) || ap_consumed a) eqn:Hb; [exact Hq|].
  destruct (ap_issuing a) eqn:Hi; [exact Hq|]. cbn [fst snd]. unbool.
  refine (inv_claim (set_reg st now _) id a _ _ _ Hq); [apply lookup_insert_eq| |done].
  by apply dec_stable.
Qed.

Lemma inv_next st op :
  op_allowed st op → consume_durable op → reg_inv st → reg_inv (reg_next st op).
Proof.
  intros [Ht Hop] Hdur Hinv.
  assert (Hupd : ∀ now m, gs_clock st ≤ now → same_items (rg_items (gs_reg st)) m →
    reg_inv (set_reg st now (with_items m (gs_reg st)))) by (intros; by apply inv_quiet).
  assert (Hid : ∀ now, gs_clock st ≤ now → reg_inv (set_reg st now (gs_reg st))).
  { intros now Hn. specialize (Hupd now _ Hn (same_items_refl _)). by destruct (gs_reg st). }
  destruct op; cbn [op_time] in Ht.
  - by apply inv_purge; [apply Ht|].
  - apply inv_insert; auto.
  - unfold reg_next. cbn [run_reg op_time]. unfold Get. destruct (_ !! id) eqn:Ha; [|by apply Hid, Ht].
    apply Hupd; [by apply Ht|]. eapply same_items_insert; [done|apply expireLocked_quiet].
  - apply inv_decide; auto.
  - apply inv_begin; auto.
  - apply inv_finish; [done| |done]. by intros ->.
  - unfold reg_next. cbn [run_reg op_time]. unfold ReportResultOnce.
    destruct (_ !! id) as [a|] eqn:Ha; [|by apply Hid, Ht]. specialize (Ht now eq_refl).
    repeat case_match; cbn [snd]; (apply Hupd; [done|]); cbn [rg_items with_items]; rewrite ?insert_insert_eq;
      (eapply same_items_insert; [done|]); [apply expireLocked_quiet..|].
    destruct (expireLocked_quiet (rg_ttl (gs_reg st)) now a). by split.
  - unfold reg_next. cbn [run_reg op_time rg_List snd]. specialize (Ht now eq_refl).
    pose proof (inv_purge st dbok now Ht Hinv) as Hp.
    exact (inv_quiet (set_reg st now _) now _ (Z.le_refl now) (same_items_fmap _ _ _) Hp).
  - destruct Hop as [Hcl Hdb]. unfold reg_next. cbn [run_reg op_time].
    destruct (rg_db (gs_reg st)) as [tbl|] eqn:Hd; [|done]. by apply inv_restart; [apply Ht| | |].
Qed.

Lemma reg_init_inv ttl db : reg_inv (reg_init ttl db).
Proof.
  assert (Hdb : ∀ (tbl : gmap string approval_row) id w, (if db then Some ∅ else None) = Some tbl → tbl !! id = Some w → False).
  { destruct db; intros tbl id w [= <-]. by rewrite lookup_empty. }
  constructor; simpl; try set_solver.
  - destruct (Z.leb_spec ttl 0); [done|lia].
  - constructor.
  - split_and!; [set_solver|intros id [a Ha]; by rewrite lookup_empty in Ha|].
    intros tbl id Ht [w Hw]. by destruct (Hdb _ _ _ Ht Hw).
Qed.

Lemma reg_run_inv ttl db ops st :
  reg_run (reg_init ttl db) ops st → Forall consume_durable ops → reg_inv st.
Proof.
  induction 1 as [|ops st op Hrun IH Hall]; intros Hd; [apply reg_init_inv|].
  apply Forall_app in Hd as [Hd1 Hd2]. inversion Hd2; subst. apply inv_next; auto.
Qed.

(** *** What may happen to one request *)

(** The moves of a request's status. *)
Definition status_step (s s' : Status) : Prop :=
  s = s' ∨ match s, s' with
           | StatusPending, _ | StatusApproved, StatusExpired => True
           | _, _ => False
           end.

(** Everything the approver saw is fixed, the outcome is final, a used approval
    stays used and a recorded decision is not rewritten. *)
Record evolves (a a' : Approval) : Prop := {
  ev_fixed : (ap_ID a', ap_Caller a', ap_EndUser a', ap_Host a', ap_Command a', ap_Sudo a', ap_SudoUser a',
      ap_Rule a', ap_CreatedAt a', ap_TargetType a', ap_EndUserStripped a', ap_req a')
    = (ap_ID a, ap_Caller a, ap_EndUser a, ap_Host a, ap_Command a, ap_Sudo a, ap_SudoUser a,
      ap_Rule a, ap_CreatedAt a, ap_TargetType a, ap_EndUserStripped a, ap_req a);
  ev_status : status_step (ap_Status a) (ap_Status a');
  ev_consumed : ap_consumed a = true → ap_consumed a' = true;
  ev_reported : ap_resultReported a = true → ap_resultReported a' = true;
  ev_decision : ap_Status a ≠ StatusPending →
    (ap_DecidedBy a', ap_DecidedAt a', ap_LearnTTL a') = (ap_DecidedBy a, ap_DecidedAt a, ap_LearnTTL a);
}.

Lemma evolves_refl a : evolves a a.
Proof. split; try done. by left. Qed.

Lemma expireLocked_evolves ttl now a : evolves a (expireLocked ttl now a).
Proof.
  destruct a as [????????[]??????????]; unfold expireLocked; simpl; repeat case_match; split; simpl; try done; first [by left|by right].
Qed.

Lemma evolves_flags a c i p : (ap_consumed a = true → c = true) → (ap_resultReported a = true → p = true) →
  evolves a (set_flags c i p a).
Proof. intros. split; simpl; try done. by left. Qed.

Lemma evolves_trans a b c : evolves a b → evolves b c → evolves a c.
Proof.
  intros [F1 S1 C1 R1 D1] [F2 S2 C2 R2 D2]. split; [congruence| |auto|auto|].
  - unfold status_step in *. destruct (ap_Status a), (ap_Status b), (ap_Status c); naive_solver.
  - intros Hp. rewrite D2; [auto|]. unfold status_step in S1. destruct (ap_Status a), (ap_Status b); naive_solver.
Qed.
#[local] Hint Resolve evolves_refl expireLocked_evolves : infra.

Lemma insert_evolves (m : gmap string Approval) k b id a a' :
  m !! id = Some a → (k = id → evolves a b) → <[k := b]> m !! id = Some a' → evolves a a'.
Proof.
  intros Ha Hev [[-> <-]|[_ Ha']]%lookup_insert_Some; [auto|]. assert (a' = a) as -> by congruence. apply evolves_refl.
Qed.

Lemma run_reg_evolves r op id a a' :
  match op with RInsert _ _ id' _ _ _ _ => id' ≠ id | RRestart _ => False | _ => True end →
  rg_items r !! id = Some a → rg_items (run_reg r op) !! id = Some a' → evolves a a'.
Proof.
  intros Hop Ha Ha'.
  assert (Hsame : rg_items r !! id = Some a' → evolves a a').
  { intros. assert (a' = a) as -> by congruence. apply evolves_refl. }
  assert (Hins : ∀ k b, (k = id → evolves a b) → <[k := b]> (rg_items r) !! id = Some a' → evolves a a').
  { intros k b. by apply insert_evolves. }
  destruct op; cbn [run_reg] in Ha'.
  - apply map_lookup_filter_Some in Ha' as [? _]. auto.
  - revert Ha'. unfold insert_approval. repeat case_match; cbn; auto; by rewrite lookup_insert_ne.
  - revert Ha'. unfold Get. case_match eqn:Hk; cbn; [|auto]. apply Hins. intros ->. simplify_eq. auto with infra.
  - revert Ha'. unfold rg_Decide. destruct (rg_items r !! id0) as [a0|] eqn:Hk; cbn; [|auto].
    assert (Hx : id0 = id → evolves a (expireLocked (rg_ttl r) now a0)) by (intros ->; simplify_eq; auto with infra).
    case_bool_decide as Hp; [by apply Hins|]. case_match; [by apply Hins|]. cbn. rewrite insert_insert_eq.
    apply Hins. intros E. eapply evolves_trans; [by apply Hx|].
    split; simpl; rewrite ?Hp; try done. right. by destruct approve.
  - revert Ha'. unfold BeginConsume. destruct (rg_items r !! id0) as [a0|] eqn:Hk; cbn; [|auto].
    assert (Hx : id0 = id → evolves a (expireLocked (rg_ttl r) now a0)) by (intros ->; simplify_eq; auto with infra).
    repeat case_match; cbn; rewrite ?insert_insert_eq; apply Hins; [done|done|].
    intros E. eapply evolves_trans; [by apply Hx|]. by apply evolves_flags.
  - revert Ha'. unfold FinishConsume. destruct (rg_items r !! id0) as [a0|] eqn:Hk; cbn; [|auto].
    assert (Hf : id0 = id → evolves a (set_flags (if success then true else ap_consumed a0) false
      (ap_resultReported a0) a0)).
    { intros ->. simplify_eq. apply evolves_flags; [|done]. by destruct success. }
    destruct success; cbn; by apply Hins.
  - revert Ha'. unfold ReportResultOnce. destruct (rg_items r !! id0) as [a0|] eqn:Hk; cbn; [|auto].
    assert (Hx : id0 = id → evolves a (expireLocked (rg_ttl r) now a0)) by (intros ->; simplify_eq; auto with infra).
    repeat case_match; cbn; rewrite ?insert_insert_eq; apply Hins; [done|done|].
    intros E. eapply evolves_trans; [by apply Hx|]. by apply evolves_flags.
  - revert Ha'. cbn. rewrite lookup_fmap_Some. intros (b & <- & [Hb _]%map_lookup_filter_Some).
    assert (b = a) as -> by congruence. apply expireLocked_evolves.
  - done.
Qed.

(** *** Learned waivers *)

(** A learn duration is only ever recorded for an attributable end user, in
    memory and on disk. *)
Record learn_inv (r : Registry) : Prop := {
  li_item : ∀ id a, rg_items r !! id = Some a → 0 < ap_LearnTTL a → ap_EndUserStripped a = false;
  li_row : ∀ tbl id w, rg_db r = Some tbl → tbl !! id = Some w → 0 < rw_learn_ttl_seconds w →
    rw_end_user_stripped w = 0;
  li_agree : ∀ tbl id w a, rg_db r = Some tbl → tbl !! id = Some w → rg_items r !! id = Some a →
    ap_EndUserStripped a = bool_decide (rw_end_user_stripped w ≠ 0);
}.

(** Updating entries and rows in place. *)
Lemma learn_inv_sub r r' :
  (∀ id a', rg_items r' !! id = Some a' → ∃ a, rg_items r !! id = Some a ∧
     ap_EndUserStripped a' = ap_EndUserStripped a ∧
     (0 < ap_LearnTTL a' → 0 < ap_LearnTTL a ∨ ap_EndUserStripped a = false)) →
  (∀ tbl' id w', rg_db r' = Some tbl' → tbl' !! id = Some w' → ∃ tbl w, rg_db r = Some tbl ∧ tbl !! id = Some w ∧
     rw_end_user_stripped w' = rw_end_user_stripped w ∧
     (0 < rw_learn_ttl_seconds w' → 0 < rw_learn_ttl_seconds w ∨
       ∃ a, rg_items r !! id = Some a ∧ ap_EndUserStripped a = false)) →
  learn_inv r → learn_inv r'.
Proof.
  intros Hi Hd [L1 L2 L3]. split.
  - intros id a' Ha' Hp. destruct (Hi _ _ Ha') as (a & Ha & -> & Hl). destruct (Hl Hp); eauto.
  - intros tbl' id w' Ht Hw Hp. destruct (Hd _ _ _ Ht Hw) as (tbl & w & Htb & Hw0 & -> & Hl).
    destruct (Hl Hp) as [|(a & Ha & Hs)]; [eauto|]. rewrite (L3 _ _ _ _ Htb Hw0 Ha) in Hs. unbool.
    by apply dec_stable in Hs.
  - intros tbl' id w' a' Ht Hw Ha'. destruct (Hd _ _ _ Ht Hw) as (tbl & w & Htb & Hw0 & -> & _).
    destruct (Hi _ _ Ha') as (a & Ha & -> & _). eauto.
Qed.

Lemma learn_inv_insert insok now r id req caller rule stripped :
  learn_inv r → learn_inv (insert_approval insok now r id req caller rule stripped).2.
Proof.
  intros HL. pose proof HL as [L1 L2 L3]. unfold insert_approval, rg_insertDB.
  destruct (rg_db r) as [tbl|] eqn:Hdb.
  - destruct insok; [|exact HL]. destruct (tbl !! _) eqn:Hk; [exact HL|]. simpl. split; simpl.
    + intros k b [[<- <-]|[_ Hb]]%lookup_insert_Some; [done|eauto].
    + intros t k w [= <-] [[<- <-]|[_ Hw]]%lookup_insert_Some; [done|]. eauto.
    + intros t k w b [= <-] [[<- <-]|[? Hw]]%lookup_insert_Some.
      * rewrite lookup_insert_eq. intros [= <-]. by destruct stripped.
      * rewrite lookup_insert_ne by done. eauto.
  - simpl. split; simpl; rewrite ?Hdb; [|done|done].
    intros k b [[<- <-]|[_ Hb]]%lookup_insert_Some; [done|eauto].
Qed.

Lemma learn_inv_restart ttl tbl now r : rg_db r = Some tbl → learn_inv r → learn_inv (NewRegistryDB ttl tbl now).
Proof.
  intros Hdb [L1 L2 L3].
  assert (Hload : ∀ id a, rg_items (NewRegistryDB ttl tbl now) !! id = Some a → ∃ w, tbl !! id = Some w ∧
    ap_EndUserStripped a = bool_decide (rw_end_user_stripped w ≠ 0) ∧
    ap_LearnTTL a = rw_learn_ttl_seconds w * Second).
  { unfold NewRegistryDB. cbn [rg_items]. intros id a. rewrite map_lookup_imap.
    destruct (tbl !! id) as [w|]; cbn [mbind option_bind]; [|done].
    destruct (_ <? rw_created_at w); [|done]. unfold load_approval.
    destruct (json_unmarshal_req _); [|done]. intros [= <-]. eauto. }
  split.
  - intros id a Ha Hp. destruct (Hload _ _ Ha) as (w & Hw & -> & Hl).
    apply bool_decide_eq_false. intros Hne. apply Hne, (L2 _ _ _ Hdb Hw). unfold Second in Hl. lia.
  - intros t id w [= <-] Hw. eauto.
  - intros t id w a [= <-] Hw Ha. destruct (Hload _ _ Ha) as (w' & Hw' & -> & _). by simplify_eq.
Qed.

Lemma expireLocked_learn ttl now a :
  ap_EndUserStripped (expireLocked ttl now a) = ap_EndUserStripped a ∧
  ap_LearnTTL (expireLocked ttl now a) = ap_LearnTTL a.
Proof. unfold expireLocked. by repeat case_match. Qed.

Lemma learn_inv_upd r id a a' :
  rg_items r !! id = Some a → ap_EndUserStripped a' = ap_EndUserStripped a →
  (0 < ap_LearnTTL a' → 0 < ap_LearnTTL a ∨ ap_EndUserStripped a = false) →
  learn_inv r → learn_inv (with_items (<[id := a']> (rg_items r)) r).
Proof.
  intros Ha Hs Hl HL. apply (learn_inv_sub r); [|by simpl; eauto 10|done].
  simpl. intros k b [[<- <-]|[_ Hb]]%lookup_insert_Some; eauto.
Qed.

Lemma learn_inv_expire r now id a :
  rg_items r !! id = Some a → learn_inv r →
  learn_inv (with_items (<[id := expireLocked (rg_ttl r) now a]> (rg_items r)) r).
Proof.
  intros Ha HL. destruct (expireLocked_learn (rg_ttl r) now a) as [E1 E2].
  eapply learn_inv_upd; [done|done|rewrite E2; by left|done].
Qed.

Lemma learn_inv_purge r dbok now : learn_inv r → learn_inv (purgeLocked dbok now r).
Proof.
  intros HL. apply (learn_inv_sub r); [| |done].
  - simpl. intros id a [Ha _]%map_lookup_filter_Some. eauto.
  - simpl. intros t id w Ht Hw. destruct dbok; [|eauto 10]. destruct (rg_db r); simplify_eq/=.
    apply map_lookup_filter_Some in Hw as [Hw _]. eauto 10.
Qed.

(** An update of one row next to the entry it mirrors. *)
Lemma learn_inv_alter r dbok id b (upd : approval_row → approval_row) :
  rg_items r !! id = Some b →
  (∀ w, rw_end_user_stripped (upd w) = rw_end_user_stripped w) →
  (∀ w, 0 < rw_learn_ttl_seconds (upd w) → 0 < rw_learn_ttl_seconds w ∨ 0 < ap_LearnTTL b) →
  learn_inv r → learn_inv (updateDBBestEffort dbok (alter upd id) r).
Proof.
  intros Hb Hs Hl HL. apply (learn_inv_sub r); [by simpl; eauto 10| |done]. simpl.
  intros t k w' Ht Hw. destruct dbok; [|eauto 10]. destruct (rg_db r) as [t0|]; simplify_eq/=.
  destruct (decide (k = id)) as [->|]; [|rewrite lookup_alter_ne in Hw by done; eauto 10].
  rewrite lookup_alter_eq in Hw. destruct (t0 !! id) as [w|] eqn:Hw0; simplify_eq/=.
  exists t0, w. split_and!; [done|done|apply Hs|]. intros Hq.
  destruct (Hl w Hq); [by left|right]. exists b. split; [done|]. by apply (li_item _ HL id).
Qed.

Lemma quot_pos_inv l d : 0 < d → 0 < Z.quot l d → 0 < l.
Proof. intros Hd Hq. destruct (Z.lt_ge_cases 0 l); [done|]. pose proof (Z.quot_le_mono l 0 d). rewrite Z.quot_0_l in *; lia. Qed.

Lemma learn_inv_decide r dbok now id approve by_ learn :
  learn_inv r → learn_inv (rg_Decide dbok now r id approve by_ learn).2.
Proof.
  intros HL. unfold rg_Decide. destruct (_ !! id) as [a|] eqn:Ha; [|done].
  pose proof (learn_inv_expire r now id a Ha HL) as Hb. set (b := expireLocked _ now a) in *. clearbody b.
  case_bool_decide; [done|]. destruct (approve && (0 <? learn) && ap_EndUserStripped b) eqn:Hl; [done|]. cbn [snd].
  set (c := set_decision _ _ _ _ b). eapply (learn_inv_alter _ dbok id c).
  - apply lookup_insert_eq.
  - done.
  - intros w Hq. right. by apply (quot_pos_inv _ Second).
  - eapply learn_inv_upd; [apply lookup_insert_eq|done| |done]. simpl.
    destruct (approve && (0 <? learn)); [by right|by left].
Qed.

Lemma learn_inv_run r op : learn_inv r → learn_inv (run_reg r op).
Proof.
  intros HL. destruct op; cbn [run_reg].
  - by apply learn_inv_purge.
  - by apply learn_inv_insert.
  - unfold Get. destruct (_ !! id) eqn:Ha; [|done]. by apply learn_inv_expire.
  - by apply learn_inv_decide.
  - unfold BeginConsume. destruct (_ !! id) as [a|] eqn:Ha; [|done].
    pose proof (learn_inv_expire r now id a Ha HL). repeat case_match; cbn [snd]; [done..|].
    eapply learn_inv_upd; [apply lookup_insert_eq|done|by left|done].
  - unfold FinishConsume. destruct (_ !! id) as [a|] eqn:Ha; [|done].
    set (b := set_flags _ _ _ a). assert (Hb : learn_inv (with_items (<[id := b]> (rg_items r)) r)).
    { eapply learn_inv_upd; [done|done|by left|done]. }
    destruct success; [|done]. eapply learn_inv_alter; [apply lookup_insert_eq|done|by left|done].
  - unfold ReportResultOnce. destruct (_ !! id) as [a|] eqn:Ha; [|done].
    pose proof (learn_inv_expire r now id a Ha HL). repeat case_match; cbn [snd]; [done..|].
    eapply learn_inv_upd; [apply lookup_insert_eq|done|by left|done].
  - refine (learn_inv_sub _ _ _ _ (learn_inv_purge r dbok now HL)); [|by simpl; eauto 10].
    cbn. intros k b. rewrite lookup_fmap_Some. intros (a & <- & Ha). exists a. split; [done|].
    destruct (expireLocked_learn (rg_ttl r) now a) as [E1 E2]. rewrite E1, E2. auto.
  - destruct (rg_db r) eqn:Hdb; [|done]. by eapply learn_inv_restart.
Qed.

(** *** Bearer tokens *)

Definition strip_approval (a : Approval) : Approval :=
  mkApproval (ap_ID a) (ap_Caller a) (ap_EndUser a) (ap_Host a) (ap_Command a) (ap_Sudo a) (ap_SudoUser a)
    (ap_Rule a) (ap_Status a) (ap_CreatedAt a) (ap_DecidedBy a) (ap_DecidedAt a) (ap_TargetType a) (ap_LearnTTL a)
    (ap_EndUserStripped a) (strip_bearer (ap_req a)) (ap_consumed a) (ap_issuing a) (ap_resultReported a).
Definition strip_reg (r : Registry) : Registry := with_items (strip_approval <$> rg_items r) r.
(** The same operation on a request without its bearer token. *)
Definition strip_op (op : reg_op) : reg_op :=
  match op with
  | RInsert insok now id req caller rule stripped => RInsert insok now id (strip_bearer req) caller rule stripped
  | _ => op
  end.

Lemma strip_expire ttl now a : strip_approval (expireLocked ttl now a) = expireLocked ttl now (strip_approval a).
Proof. unfold expireLocked. destruct a as [????????[]??????????]; simpl; by repeat case_match. Qed.

Lemma strip_reg_insert r id a :
  strip_reg (with_items (<[id := a]> (rg_items r)) r)
  = with_items (<[id := strip_approval a]> (rg_items (strip_reg r))) (strip_reg r).
Proof. unfold strip_reg, with_items. simpl. by rewrite fmap_insert. Qed.

Lemma strip_filter_age (m : gmap string Approval) ttl now :
  strip_approval <$> filter (fun kv => ¬ 2 * ttl < now - ap_CreatedAt kv.2) m
  = filter (fun kv => ¬ 2 * ttl < now - ap_CreatedAt kv.2) (strip_approval <$> m).
Proof. by rewrite map_filter_fmap. Qed.

Lemma strip_reg_purge dbok now r : strip_reg (purgeLocked dbok now r) = purgeLocked dbok now (strip_reg r).
Proof.
  unfold strip_reg, purgeLocked, updateDBBestEffort, with_items. cbn [rg_items rg_ttl rg_db].
  by rewrite strip_filter_age.
Qed.

Lemma strip_reg_idem r : strip_reg (strip_reg r) = strip_reg r.
Proof.
  unfold strip_reg, with_items. simpl. f_equal. rewrite <-map_fmap_compose. by apply map_fmap_ext.
Qed.

Lemma strip_reg_updateDB dbok upd r :
  strip_reg (updateDBBestEffort dbok upd r) = updateDBBestEffort dbok upd (strip_reg r).
Proof. done. Qed.

(** Forgetting the tokens commutes with every operation but a restart. *)
Lemma strip_reg_run r op :
  match op with RRestart _ => False | _ => True end →
  strip_reg (run_reg r op) = run_reg (strip_reg r) (strip_op op).
Proof.
  intros Hop.
  assert (Hlk : ∀ id, rg_items (strip_reg r) !! id = strip_approval <$> rg_items r !! id) by (intros; apply lookup_fmap).
  destruct op; cbn [run_reg strip_op]; try done.
  - apply strip_reg_purge.
  - unfold insert_approval, rg_insertDB. cbn [strip_reg with_items rg_db]. destruct (rg_db r) as [t|] eqn:Hdb.
    + change (ap_ID (new_approval id (strip_bearer req) caller rule stripped now)) with id.
      change (ap_ID (new_approval id req caller rule stripped now)) with id.
      destruct insok; [|done]. destruct (t !! id); [done|]. cbn [snd].
      unfold strip_reg, with_items. cbn [rg_items rg_ttl rg_db]. by rewrite fmap_insert.
    + apply strip_reg_insert.
  - unfold Get. rewrite Hlk. destruct (rg_items r !! id) as [a|]; [|done].
    cbn [fmap option_fmap option_map snd]. by rewrite strip_reg_insert, strip_expire.
  - unfold rg_Decide. rewrite Hlk. destruct (rg_items r !! id) as [a|]; [|done].
    cbn [fmap option_fmap option_map]. change (rg_ttl (strip_reg r)) with (rg_ttl r). rewrite <-strip_expire.
    set (b := expireLocked _ now a). cbn [strip_approval ap_Status ap_EndUserStripped ap_LearnTTL].
    destruct (bool_decide (ap_Status b ≠ StatusPending)); [apply strip_reg_insert|].
    destruct (approve && (0 <? learn) && ap_EndUserStripped b); [apply strip_reg_insert|]. cbn [snd].
    by rewrite strip_reg_updateDB, !strip_reg_insert.
  - unfold BeginConsume. rewrite Hlk. destruct (rg_items r !! id) as [a|]; [|done].
    cbn [fmap option_fmap option_map]. change (rg_ttl (strip_reg r)) with (rg_ttl r). rewrite <-strip_expire.
    set (b := expireLocked _ now a). cbn [strip_approval ap_Status ap_consumed ap_issuing ap_resultReported].
    destruct (_ || ap_consumed b); [apply strip_reg_insert|].
    destruct (ap_issuing b); [apply strip_reg_insert|]. cbn [snd]. by rewrite !strip_reg_insert.
  - unfold FinishConsume. rewrite Hlk. destruct (rg_items r !! id) as [a|]; [|done].
    cbn [fmap option_fmap option_map]. destruct success; [rewrite strip_reg_updateDB|]; by rewrite strip_reg_insert.
  - unfold ReportResultOnce. rewrite Hlk. destruct (rg_items r !! id) as [a|]; [|done].
    cbn [fmap option_fmap option_map]. change (rg_ttl (strip_reg r)) with (rg_ttl r). rewrite <-strip_expire.
    set (b := expireLocked _ now a). cbn [strip_approval ap_Status ap_consumed ap_issuing ap_resultReported].
    destruct (_ && _); [apply strip_reg_insert|].
    destruct (ap_resultReported b); [apply strip_reg_insert|]. cbn [snd]. by rewrite !strip_reg_insert.
  - unfold rg_List. cbn [snd]. rewrite <-strip_reg_purge. set (r1 := purgeLocked dbok now r). clearbody r1.
    unfold strip_reg, with_items. cbn [rg_items rg_ttl rg_db]. f_equal. rewrite <-!map_fmap_compose.
    apply map_fmap_ext. intros k a _. apply strip_expire.
Qed.

Lemma strip_reg_step r r' op :
  strip_reg r = strip_reg r' → strip_reg (run_reg r op) = strip_reg (run_reg r' (strip_op op)).
Proof.
  intros E. assert (Hcase : (∃ now, op = RRestart now) ∨ match op with RRestart _ => False | _ => True end)
    by (destruct op; eauto).
  destruct Hcase as [[now ->]|Hop].
  - cbn [run_reg strip_op]. replace (rg_db r') with (rg_db r) by exact (f_equal rg_db E).
    replace (rg_ttl r') with (rg_ttl r) by exact (f_equal rg_ttl E). by destruct (rg_db r).
  - rewrite !strip_reg_run by (destruct op; done). rewrite E. by destruct op.
Qed.

(** [C14] An approval is good for one credential. Whatever sequence of requests,
    decisions, polls, expiries, purges and restarts the registry goes through,
    with concurrent pollers interleaved in any way, no id ever appears twice among
    those a credential was issued for, each of them was approved by an approver,
    and a claim is handed out only for an approved id with no other claim in
    flight and no credential issued. It assumes that the process does not die
    between a claim and its completion and that the write recording a consumption
    reaches the database. *)
Theorem approval_exactly_once ttl db ops st :
  reg_run (reg_init ttl db) ops st → Forall consume_durable ops →
  NoDup (gs_issued st) ∧ (∀ id, id ∈ gs_issued st → id ∈ gs_approved st) ∧
  (∀ now id, gs_clock st ≤ now → (BeginConsume now (gs_reg st) id).1.1 = true →
     (id ∉ gs_issued st) ∧ (id ∉ gs_claims st) ∧ id ∈ gs_approved st).
Proof.
  intros Hrun Hdur. pose proof (reg_run_inv _ _ _ _ Hrun Hdur) as [H1 H2 H3 H4 H5 H6 H7].
  split_and!; [done|auto|]. intros now id Hn. unfold BeginConsume.
  destruct (rg_items _ !! id) as [a|] eqn:Ha; [|done].
  destruct (expireLocked_quiet (rg_ttl (gs_reg st)) now a) as [Q1 Q2 Q3 Q4].
  destruct (H5 _ _ Ha) as (K1 & K2 & K3).
  destruct (_ || _) eqn:Hb; [done|]. destruct (ap_issuing _) eqn:Hi; [done|]. intros _. unbool.
  rewrite Q1 in Hi. rewrite Q2 in *. split_and!.
  - intros Hx. apply K2 in Hx. congruence.
  - rewrite <-K1. congruence.
  - by apply K3, Q4, dec_stable.
Qed.

(** What an approver approves is what is forwarded. As long as the process
    runs, no operation changes a request's content (caller, end user, host,
    command, elevation, rule, wire request), moves its status anywhere but from
    pending to an outcome or from approved to expired, rewrites a recorded
    decision, or makes a used approval usable again. *)
Theorem approval_immutable ttl db ops st op id a a' :
  reg_run (reg_init ttl db) ops st → Forall consume_durable ops → op_allowed st op →
  (∀ now, op ≠ RRestart now) →
  rg_items (gs_reg st) !! id = Some a → rg_items (run_reg (gs_reg st) op) !! id = Some a' → evolves a a'.
Proof.
  intros Hrun Hdur [_ Hop] Hnr Ha. pose proof (reg_run_inv _ _ _ _ Hrun Hdur) as Hinv.
  apply run_reg_evolves; [|done]. destruct op; try done; [|by eapply Hnr].
  intros ->. apply Hop. destruct (ri_created _ Hinv) as (_ & Hc & _). by apply Hc.
Qed.

(** No approval carries a learn duration when its end user was dropped as
    untrusted, in any sequence of operations and restarts: a learned waiver always
    has the end user the approver saw. *)
Theorem learn_attributable ttl db ops id a :
  rg_items (foldl run_reg (gs_reg (reg_init ttl db)) ops) !! id = Some a →
  0 < ap_LearnTTL a → ap_EndUserStripped a = false.
Proof.
  cut (learn_inv (foldl run_reg (gs_reg (reg_init ttl db)) ops)); [intros [H _ _]; eauto|].
  assert (Hfold : ∀ r, learn_inv r → learn_inv (foldl run_reg r ops)).
  { induction ops as [|op ops IH]; simpl; [done|]. intros r Hr. by apply IH, learn_inv_run. }
  apply Hfold. destruct db; split; simpl; intros; simplify_map_eq.
Qed.

(** The database never depends on a bearer token: two runs whose requests
    differ only in their tokens leave identical tables, whatever the operations in
    between, restarts included. *)
Theorem bearer_never_persisted r ops :
  rg_db (foldl run_reg r (strip_op <$> ops)) = rg_db (foldl run_reg r ops).
Proof.
  cut (∀ r1 r2, strip_reg r1 = strip_reg r2 →
    strip_reg (foldl run_reg r1 ops) = strip_reg (foldl run_reg r2 (strip_op <$> ops))).
  { intros H. symmetry. exact (f_equal rg_db (H r r eq_refl)). }
  clear r. induction ops as [|op ops IH]; simpl; [done|]. intros r1 r2 E. by apply IH, strip_reg_step.
Qed.

(** *** The crash window of a lost write *)

Definition lost_write_req : WireRequest :=
  mkWireRequest "db1" "" "exec" "" "systemctl restart pg" 60 "ssh-ed25519 AAAA" "" "" "" "" "" "" false "" false
    false false false "" false "" None "" "" 0 "" "".
(** Created, approved, consumed with the write lost, restarted, consumed again. *)
Definition lost_write_ops : list reg_op :=
  [RInsert true (1000 * Second) "a1" lost_write_req "broker-1" RuleNone false;
   RDecide true (1010 * Second) "a1" true "alice" 0;
   RBegin (1012 * Second) "a1"; RFinish false "a1" true;
   RRestart (1015 * Second);
   RBegin (1016 * Second) "a1"; RFinish true "a1" true].

Lemma reg_run_snoc2 st ops1 op ops2 st' :
  ops1 = ops2 ++ [op] → reg_run st ops2 st' → op_allowed st' op → reg_run st ops1 (reg_next st' op).
Proof. intros ->. apply run_snoc. Qed.

Lemma lost_write_prefix :
  ∃ st tbl, reg_run (reg_init 0 true) (take 4 lost_write_ops) st ∧
    gs_issued st = ["a1"] ∧ gs_claims st = ∅ ∧ gs_clock st = 1012 * Second ∧ rg_ttl (gs_reg st) = 2 * Minute ∧
    rg_db (gs_reg st) = Some tbl ∧
    tbl !! "a1" = Some (mkApprovalRow "broker-1" "" "db1" "systemctl restart pg" 0 "" RuleNone StatusApproved 1000
      "alice" 1010 0 0 (json_marshal_req (strip_bearer lost_write_req)) 0).
Proof.
  eexists (reg_next (reg_next (reg_next (reg_next (reg_init 0 true) _) _) _) _), _. split.
  { unfold lost_write_ops. cbn [take].
    eapply reg_run_snoc2; [instantiate (2 := [_; _; _]); reflexivity| |].
    1: eapply reg_run_snoc2; [instantiate (2 := [_; _]); reflexivity| |].
    1: eapply reg_run_snoc2; [instantiate (2 := [_]); reflexivity| |].
    1: eapply reg_run_snoc2; [instantiate (2 := []); reflexivity|constructor|].
    all: split; [intros now [= <-]; vm_compute; discriminate|].
    all: vm_compute; try reflexivity. 
    all: try (intros H; inversion H). }
  split_and!; vm_compute; reflexivity.
Qed.

(** A consumption whose write is lost is not final: after a restart the
    approval is claimable again and a second credential is issued on one decision,
    so the last persisted transition is not always the more conservative one.
    For every codec that decodes the request it encoded. *)
Theorem lost_consume_reissues q :
  json_unmarshal_req (json_marshal_req (strip_bearer lost_write_req)) = Some q →
  ∃ st, reg_run (reg_init 0 true) lost_write_ops st ∧ gs_issued st = ["a1"; "a1"].
Proof.
  intros Hq. destruct lost_write_prefix as (st & tbl & Hrun & Hi & Hc & Hclk & Httl & Hdb & Hrow).
  set (t5 := 1015 * Second). set (t6 := 1016 * Second).
  set (st5 := reg_next st (RRestart t5)). set (st6 := reg_next st5 (RBegin t6 "a1")).
  assert (Hb : (BeginConsume t6 (gs_reg st5) "a1").1.1 = true).
  { unfold st5, reg_next, BeginConsume. cbn [run_reg gs_reg]. rewrite Hdb, Httl. unfold NewRegistryDB. cbn [rg_items].
    rewrite map_lookup_imap, Hrow. cbn [mbind option_bind]. unfold load_approval. cbn [rw_request_json].
    rewrite Hq. vm_compute. reflexivity. }
  exists (reg_next st6 (RFinish true "a1" true)). split.
  - apply (reg_run_snoc2 _ _ _ (take 6 lost_write_ops)); [done| |].
    1: apply (reg_run_snoc2 _ _ _ (take 5 lost_write_ops)); [done| |].
    1: apply (reg_run_snoc2 _ _ _ (take 4 lost_write_ops)); [done|done|].
    + split; [intros now [= <-]; rewrite Hclk; done|]. by rewrite Hdb.
    + split; [|done]. by intros now [= <-].
    + split; [done|]. unfold st6, reg_next. cbn [gs_claims]. rewrite Hb. set_solver.
  - cbn. by rewrite Hi.
Qed.
End transitions.

(** *** Concrete runs *)

(** A codec that keeps the host name. *)
Definition host_json : WireJSON := {|
  json_marshal_req r := wr_Host r;
  json_unmarshal_req s := Some (mkWireRequest s "" "exec" "" "" 60 "" "" "" "" "" "" "" false "" false
    false false false "" false "" None "" "" 0 "" "") |}.

#[global] Instance op_allowed_dec `{WireJSON} st op : Decision (op_allowed st op).
Proof.
  unfold op_allowed. apply and_dec.
  - destruct (op_time op) as [t|].
    + destruct (decide (gs_clock st ≤ t)); [left|right]; naive_solver.
    + left. naive_solver.
  - destruct op; apply _.
Defined.

Fixpoint reg_exec `{WireJSON} (st : reg_state) (ops : list reg_op) : option reg_state :=
  match ops with
  | [] => Some st
  | op :: ops => if bool_decide (op_allowed st op) then reg_exec (reg_next st op) ops else None
  end.

Lemma reg_exec_run `{WireJSON} st0 ops0 st ops st' :
  reg_run st0 ops0 st → reg_exec st ops = Some st' → reg_run st0 (ops0 ++ ops) st'.
Proof.
  revert ops0 st. induction ops as [|op ops IH]; intros ops0 st Hrun; simpl.
  - intros [= <-]. by rewrite app_nil_r.
  - case_bool_decide; [|done]. intros Hx. replace (ops0 ++ op :: ops) with ((ops0 ++ [op]) ++ ops)
      by by rewrite <-app_assoc. eapply IH; [|exact Hx]. by constructor.
Qed.

(** Two pollers race, the signer fails once, the process restarts. *)
Definition race_ops : list reg_op :=
  [RInsert true (1000 * Second) "a1" lost_write_req "broker-1" RuleNone false;
   RDecide true (1010 * Second) "a1" true "alice" (3600 * Second);
   RBegin (1012 * Second) "a1"; RBegin (1012 * Second) "a1"; RFinish true "a1" false;
   RRestart (1015 * Second);
   RBegin (1016 * Second) "a1"; RFinish true "a1" true].
Definition race_st : reg_state :=
  match @reg_exec host_json (@reg_init 0 true) race_ops with Some st => st | None => reg_init 0 true end.

Lemma race_run : @reg_run host_json (reg_init 0 true) race_ops race_st.
Proof. apply (@reg_exec_run host_json _ [] (reg_init 0 true)); [constructor|]. vm_compute. reflexivity. Qed.

Lemma approval_exactly_once_witness :
  @reg_run host_json (reg_init 0 true) race_ops race_st ∧ gs_issued race_st = ["a1"] ∧ NoDup (gs_issued race_st).
Proof.
  split; [exact race_run|]. split; [vm_compute; reflexivity|].
  refine (proj1 (@approval_exactly_once host_json 0 true race_ops race_st race_run _)).
  repeat constructor.
Defined.

Lemma approval_immutable_witness :
  ∃ a a', rg_items (gs_reg race_st) !! "a1" = Some a ∧
    rg_items (@run_reg host_json (gs_reg race_st) (RGet (2000 * Second) "a1")) !! "a1" = Some a' ∧ evolves a a'.
Proof.
  eexists _, _. split; [vm_compute; reflexivity|]. split; [vm_compute; reflexivity|].
  refine (@approval_immutable host_json 0 true race_ops race_st (RGet (2000 * Second) "a1") "a1" _ _ race_run _ _ _ _ _);
    [repeat constructor|split; [intros now [= <-]; vm_compute; discriminate|exact I]|discriminate
    |vm_compute; reflexivity|vm_compute; reflexivity].
Defined.

Lemma learn_attributable_witness :
  ∃ a, rg_items (foldl (@run_reg host_json) (gs_reg (reg_init 0 true)) race_ops) !! "a1" = Some a ∧
    0 < ap_LearnTTL a ∧ ap_EndUserStripped a = false.
Proof.
  eexists. split; [vm_compute; reflexivity|]. split; [vm_compute; reflexivity|].
  refine (@learn_attributable host_json 0 true race_ops "a1" _ _ _); vm_compute; reflexivity.
Defined.

Lemma lost_consume_reissues_witness :
  ∃ st, @reg_run host_json (reg_init 0 true) lost_write_ops st ∧ gs_issued st = ["a1"; "a1"].
Proof. exact (@lost_consume_reissues host_json _ eq_refl). Defined.
