(* ===== verification/AuditEntry.v ===== *)
(** * Audit records

    [internal/audit/log.go] and [verify.go]: the record, its JSON text, the trim
    that keeps a line within the readers' buffer, and its signature. The text is
    what [encoding/json] writes, HTML escaping and invalid UTF-8 included; the
    text of a timestamp is a parameter. *)

From S2P Require Import Prelude GoStrings Encoding Crypto.


(** ** UTF-8 *)

Inductive rune :=
| RAscii (c : ascii)
| RMulti (s : string)
| RBad (c : ascii).

Definition cont (c : ascii) : bool := in_range 128 191 c.

(** Well-formed sequences of two, three and four bytes. *)
Definition is2 (c1 c2 : ascii) : bool := in_range 194 223 c1 && cont c2.
Definition is3 (c1 c2 c3 : ascii) : bool :=
  (in_range 224 224 c1 && in_range 160 191 c2
   || (in_range 225 236 c1 || in_range 238 239 c1) && cont c2
   || in_range 237 237 c1 && in_range 128 159 c2) && cont c3.
Definition is4 (c1 c2 c3 c4 : ascii) : bool :=
  (in_range 240 240 c1 && in_range 144 191 c2
   || in_range 241 243 c1 && cont c2
   || in_range 244 244 c1 && in_range 128 143 c2) && cont c3 && cont c4.

(** A string as [utf8.DecodeRune] reads it: a byte that starts no valid rune is
    one rune by itself. *)
Fixpoint runes (s : string) : list rune :=
  match s with
  | "" => []
  | String c1 s1 =>
      if byte_of c1 <? 128 then RAscii c1 :: runes s1
      else
        match s1 with
        | "" => [RBad c1]
        | String c2 s2 =>
            if is2 c1 c2 then RMulti (String c1 (String c2 "")) :: runes s2
            else
              match s2 with
              | "" => RBad c1 :: runes s1
              | String c3 s3 =>
                  if is3 c1 c2 c3 then RMulti (String c1 (String c2 (String c3 ""))) :: runes s3
                  else
                    match s3 with
                    | "" => RBad c1 :: runes s1
                    | String c4 s4 =>
                        if is4 c1 c2 c3 c4
                        then RMulti (String c1 (String c2 (String c3 (String c4 "")))) :: runes s4
                        else RBad c1 :: runes s1
                    end
              end
        end
  end.

Definition concat_map (f : rune → string) (l : list rune) : string :=
  foldr (fun r acc => f r +:+ acc) "" l.

(** ** Strings in JSON *)

Definition dq : string := String (byte_chr 34) "".
Definition backslash : ascii := byte_chr 92.

Definition esc_ascii (c : ascii) : string :=
  let b := byte_of c in
  if (b =? 34) || (b =? 92) then String backslash (String c "")
  else if b =? 8 then String backslash "b"
  else if b =? 12 then String backslash "f"
  else if b =? 10 then String backslash "n"
  else if b =? 13 then String backslash "r"
  else if b =? 9 then String backslash "t"
  else if (b <? 32) || (b =? 60) || (b =? 62) || (b =? 38)
  then String backslash ("u00" +:+ hex_EncodeToString (String c ""))
  else String c "".

(** U+2028 and U+2029. *)
Definition line_sep (s : string) : option string :=
  if bool_decide (s = string_of_bytes [226; 128; 168]) then Some (String backslash "u2028")
  else if bool_decide (s = string_of_bytes [226; 128; 169]) then Some (String backslash "u2029")
  else None.

Definition esc_rune (r : rune) : string :=
  match r with
  | RAscii c => esc_ascii c
  | RMulti s => match line_sep s with Some t => t | None => s end
  | RBad _ => String backslash "ufffd"
  end.
Definition escape (s : string) : string := concat_map esc_rune (runes s).
Definition json_string (s : string) : string := dq +:+ escape s +:+ dq.

(** [strings.ToValidUTF8] by runes: what decoding the text of [s] gives back. *)
Definition valid_rune (r : rune) : string :=
  match r with RAscii c => String c "" | RMulti s => s | RBad _ => string_of_bytes [239; 191; 189] end.
Definition to_valid (s : string) : string := concat_map valid_rune (runes s).
Definition good_rune (r : rune) : bool := match r with RBad _ => false | _ => true end.
Definition ValidString (s : string) : bool := forallb good_rune (runes s).

(** ** The record *)

Record Entry := mkEntry {
  ae_Time : option time;
  ae_Caller : string;
  ae_Host : string;
  ae_User : string;
  ae_Principal : string;
  ae_Command : string;
  ae_TTL : string;
  ae_Serial : Z;
  ae_SessionID : string;
  ae_EndUserContext : string;
  ae_TargetType : string;
  ae_BodySHA256 : string;
  ae_Outcome : string;
  ae_ExitCode : Z;
  ae_Err : string;
  ae_Elevation : string;
  ae_PTY : bool;
  ae_PolicyRule : string;
  ae_DryRun : bool;
  ae_Warning : string;
  ae_ApprovalID : string;
  ae_ApprovedBy : string;
  ae_ApprovedVia : string;
  ae_Anomaly : string;
  ae_Seq : Z;
  ae_PrevHash : string;
  ae_Sig : string;
}.

(** The string fields a record may be trimmed in. *)
Inductive efield :=
| FCaller | FHost | FUser | FPrincipal | FCommand | FTTL | FSessionID | FEndUserContext | FTargetType
| FBodySHA256 | FErr | FElevation | FPolicyRule | FWarning | FApprovalID | FApprovedBy | FApprovedVia
| FAnomaly.
#[global] Instance efield_eq_dec : EqDecision efield.
Proof. solve_decision. Defined.

Definition efield_index (f : efield) : nat :=
  match f with
  | FCaller => 0 | FHost => 1 | FUser => 2 | FPrincipal => 3 | FCommand => 4 | FTTL => 5 | FSessionID
  => 6 | FEndUserContext => 7 | FTargetType => 8 | FBodySHA256 => 9 | FErr => 10 | FElevation => 11 |
  FPolicyRule => 12 | FWarning => 13 | FApprovalID => 14 | FApprovedBy => 15 | FApprovedVia => 16 |
  FAnomaly => 17
  end.
Definition efield_eqb (f g : efield) : bool := (efield_index f =? efield_index g)%nat.

Definition get_field (f : efield) (e : Entry) : string :=
  match f with
  | FCaller => ae_Caller e | FHost => ae_Host e | FUser => ae_User e | FPrincipal => ae_Principal e
  | FCommand => ae_Command e | FTTL => ae_TTL e | FSessionID => ae_SessionID e
  | FEndUserContext => ae_EndUserContext e | FTargetType => ae_TargetType e
  | FBodySHA256 => ae_BodySHA256 e | FErr => ae_Err e | FElevation => ae_Elevation e
  | FPolicyRule => ae_PolicyRule e | FWarning => ae_Warning e | FApprovalID => ae_ApprovalID e
  | FApprovedBy => ae_ApprovedBy e | FApprovedVia => ae_ApprovedVia e | FAnomaly => ae_Anomaly e
  end.

(** Every trimmable field passed through [g]. *)
Definition map_text (g : efield → string → string) (e : Entry) : Entry :=
  mkEntry
    (ae_Time e) (g FCaller (ae_Caller e)) (g FHost (ae_Host e)) (g FUser (ae_User e))
    (g FPrincipal (ae_Principal e)) (g FCommand (ae_Command e)) (g FTTL (ae_TTL e)) (ae_Serial e)
    (g FSessionID (ae_SessionID e)) (g FEndUserContext (ae_EndUserContext e))
    (g FTargetType (ae_TargetType e)) (g FBodySHA256 (ae_BodySHA256 e)) (ae_Outcome e) (ae_ExitCode e)
    (g FErr (ae_Err e)) (g FElevation (ae_Elevation e)) (ae_PTY e) (g FPolicyRule (ae_PolicyRule e))
    (ae_DryRun e) (g FWarning (ae_Warning e)) (g FApprovalID (ae_ApprovalID e))
    (g FApprovedBy (ae_ApprovedBy e)) (g FApprovedVia (ae_ApprovedVia e)) (g FAnomaly (ae_Anomaly e))
    (ae_Seq e) (ae_PrevHash e) (ae_Sig e).
Definition set_field (f : efield) (s : string) : Entry → Entry :=
  map_text (fun k old => if efield_eqb k f then s else old).

(** The fields [Append] fills in. *)
Definition set_chain (tm : option time) (seq : Z) (prev sig : string) (e : Entry) : Entry :=
  mkEntry
    tm (ae_Caller e) (ae_Host e) (ae_User e) (ae_Principal e) (ae_Command e) (ae_TTL e) (ae_Serial e)
    (ae_SessionID e) (ae_EndUserContext e) (ae_TargetType e) (ae_BodySHA256 e) (ae_Outcome e)
    (ae_ExitCode e) (ae_Err e) (ae_Elevation e) (ae_PTY e) (ae_PolicyRule e) (ae_DryRun e) (ae_Warning e)
    (ae_ApprovalID e) (ae_ApprovedBy e) (ae_ApprovedVia e) (ae_Anomaly e) seq prev sig.

(** The record a reader gets back: invalid bytes have become U+FFFD. *)
Definition clean_entry (e : Entry) : Entry :=
  mkEntry
    (ae_Time e) (to_valid (ae_Caller e)) (to_valid (ae_Host e)) (to_valid (ae_User e))
    (to_valid (ae_Principal e)) (to_valid (ae_Command e)) (to_valid (ae_TTL e)) (ae_Serial e)
    (to_valid (ae_SessionID e)) (to_valid (ae_EndUserContext e)) (to_valid (ae_TargetType e))
    (to_valid (ae_BodySHA256 e)) (to_valid (ae_Outcome e)) (ae_ExitCode e) (to_valid (ae_Err e))
    (to_valid (ae_Elevation e)) (ae_PTY e) (to_valid (ae_PolicyRule e)) (ae_DryRun e)
    (to_valid (ae_Warning e)) (to_valid (ae_ApprovalID e)) (to_valid (ae_ApprovedBy e))
    (to_valid (ae_ApprovedVia e)) (to_valid (ae_Anomaly e)) (ae_Seq e) (to_valid (ae_PrevHash e))
    (to_valid (ae_Sig e)).

(** ** JSON text *)

(** [time.Time.MarshalJSON]; it fails outside years 0 to 9999. *)
Class TimeJSON : Type := { time_MarshalJSON : option time → option string }.

Definition key (name : string) : string := dq +:+ name +:+ dq +:+ ":".
Definition mem_str (name v : string) : option string := Some (key name +:+ json_string v).
Definition mem_int (name : string) (z : Z) : option string := Some (key name +:+ FormatInt z).
Definition omit_str (name v : string) : option string := if bool_decide (v = "") then None else mem_str name v.
Definition omit_bool (name : string) (b : bool) : option string := if b then Some (key name +:+ "true") else None.

Definition members (tm : string) (e : Entry) : list (option string) :=
  [ Some (key "time" +:+ tm); mem_str "caller" (ae_Caller e); mem_str "host" (ae_Host e);
    mem_str "user" (ae_User e); mem_str "principal" (ae_Principal e); mem_str "command" (ae_Command e);
    mem_str "ttl" (ae_TTL e); mem_int "serial" (ae_Serial e); omit_str "session_id" (ae_SessionID e);
    omit_str "end_user_context" (ae_EndUserContext e); omit_str "target_type" (ae_TargetType e);
    omit_str "body_sha256" (ae_BodySHA256 e); mem_str "outcome" (ae_Outcome e);
    mem_int "exit_code" (ae_ExitCode e); omit_str "err" (ae_Err e); omit_str "elevation" (ae_Elevation e);
    omit_bool "pty" (ae_PTY e); omit_str "policy_rule" (ae_PolicyRule e);
    omit_bool "dry_run" (ae_DryRun e); omit_str "warning" (ae_Warning e);
    omit_str "approval_id" (ae_ApprovalID e); omit_str "approved_by" (ae_ApprovedBy e);
    omit_str "approved_via" (ae_ApprovedVia e); omit_str "anomaly" (ae_Anomaly e);
    mem_int "seq" (ae_Seq e); mem_str "prev_hash" (ae_PrevHash e); mem_str "sig" (ae_Sig e) ].

Definition Marshal `{TimeJSON} (e : Entry) : option string :=
  match time_MarshalJSON (ae_Time e) with
  | None => None
  | Some tm => Some ("{" +:+ Join (omap id (members tm e)) "," +:+ "}")
  end.


(** ** Trimming *)

Definition readerBufferSize : Z := 256 * 1024.
Definition maxEntryBytes : Z := readerBufferSize.
Definition truncatedMarker : string := "...[TRUNCATED]".

(** [for keep > 0 && !utf8.RuneStart(s[keep]) { keep-- }]. *)
Fixpoint back_to_rune (s : string) (keep : nat) : nat :=
  match keep with
  | O => O
  | S k => match String.get keep s with
           | Some c => if cont c then back_to_rune s k else keep
           | None => keep
           end
  end.

Definition truncateField (s : string) (over : Z) : string :=
  let keep := Z.max 0 (slen s - over - slen truncatedMarker) in
  String.substring 0 (back_to_rune s (Z.to_nat keep)) s +:+ truncatedMarker.

Definition trimmable (s : string) : bool := bool_decide (s ≠ "") && bool_decide (s ≠ truncatedMarker).

(** The loop over the fields; the first of the longest wins. *)
Fixpoint longest_loop (e : Entry) (best : option efield) (fields : list efield) : option efield :=
  match fields with
  | [] => best
  | f :: fields' =>
      let best' :=
        if negb (trimmable (get_field f e)) then best
        else match best with
             | None => Some f
             | Some b => if slen (get_field b e) <? slen (get_field f e) then Some f else best
             end in
      longest_loop e best' fields'
  end.
Definition longestTrimmable (e : Entry) (fields : list efield) : option efield := longest_loop e None fields.

Definition free_fields : list efield := [FCommand; FErr; FWarning; FAnomaly].
(** In the order of the record, without the free-text, outcome and chain fields. *)
Definition metadataStringFields : list efield :=
  [FCaller; FHost; FUser; FPrincipal; FTTL; FSessionID; FEndUserContext; FTargetType; FBodySHA256;
   FElevation; FPolicyRule; FApprovalID; FApprovedBy; FApprovedVia].

Definition fit_reserve : Z := 1024.
Definition fit_budget : Z := maxEntryBytes - fit_reserve.

Fixpoint fit_loop `{TimeJSON} (n : nat) (e : Entry) : Entry :=
  match n with
  | O => e
  | S n' =>
      match Marshal e with
      | None => e
      | Some b =>
          if slen b <=? fit_budget then e
          else
            match (match longestTrimmable e free_fields with
                   | Some f => Some f
                   | None => longestTrimmable e metadataStringFields
                   end) with
            | None => e
            | Some f => fit_loop n' (set_field f (truncateField (get_field f e) (slen b - fit_budget)) e)
            end
      end
  end.
Definition fitEntry `{TimeJSON} (e : Entry) : Entry :=
  fit_loop (4 * (length free_fields + length metadataStringFields)) e.

(** ** Signatures *)

Inductive audit_error :=
| ESigEncoding
| EMarshal
| ESignature
| EAuditPanic.

Definition VerifyEntry `{TimeJSON} `{Ed25519} (e : Entry) (pub : string) : result audit_error unit :=
  match StdDecode (ae_Sig e) with
  | None => Err ESigEncoding
  | Some sig =>
      match Marshal (set_chain (ae_Time e) (ae_Seq e) (ae_PrevHash e) "" e) with
      | None => Err EMarshal
      | Some payload =>
          match ed25519_Verify pub payload sig with
          | None => Err EAuditPanic
          | Some true => Ok ()
          | Some false => Err ESignature
          end
      end
  end.

(** The record [doAppend] writes: numbered, linked and signed. *)
Definition seal_entry `{TimeJSON} `{Ed25519} (signKey : string) (tm : option time) (seq : Z) (prev : string)
    (e : Entry) : option Entry :=
  match Marshal (set_chain tm seq prev "" e) with
  | None => None
  | Some payload => Some (set_chain tm seq prev (StdEncode (ed_sign signKey payload)) e)
  end.

(** ** Runes *)

Definition rune_bytes (r : rune) : string :=
  match r with RAscii c | RBad c => String c "" | RMulti s => s end.
(** A string that does not start inside a rune. *)
Definition rune_boundary (s : string) : Prop := match s with "" => True | String c _ => cont c = false end.

Lemma in_range_cont lo hi c : 128 ≤ lo → hi ≤ 191 → cont c = false → in_range lo hi c = false.
Proof. unfold cont, in_range. intros ?? H. apply andb_false_iff in H. apply andb_false_iff. rewrite !Z.leb_gt in *. lia. Qed.

Lemma is2_boundary c1 c2 : cont c2 = false → is2 c1 c2 = false.
Proof. unfold is2. intros ->. apply andb_false_r. Qed.
Lemma is3_boundary2 c1 c2 c3 : cont c2 = false → is3 c1 c2 c3 = false.
Proof.
  unfold is3. intros H. rewrite (in_range_cont 160 191), (in_range_cont 128 159) by done. rewrite H.
  by rewrite !andb_false_r.
Qed.
Lemma is3_boundary3 c1 c2 c3 : cont c3 = false → is3 c1 c2 c3 = false.
Proof. unfold is3. intros ->. apply andb_false_r. Qed.
Lemma is4_boundary2 c1 c2 c3 c4 : cont c2 = false → is4 c1 c2 c3 c4 = false.
Proof.
  unfold is4. intros H. rewrite (in_range_cont 144 191), (in_range_cont 128 143) by done. rewrite H.
  by rewrite !andb_false_r.
Qed.
Lemma is4_boundary3 c1 c2 c3 c4 : cont c3 = false → is4 c1 c2 c3 c4 = false.
Proof. unfold is4. intros ->. by rewrite andb_false_r. Qed.
Lemma is4_boundary4 c1 c2 c3 c4 : cont c4 = false → is4 c1 c2 c3 c4 = false.
Proof. unfold is4. intros ->. apply andb_false_r. Qed.

(** Induction over a string rune by rune. *)
Lemma string_len_ind (P : string → Prop) :
  (∀ s, (∀ t, (String.length t < String.length s)%nat → P t) → P s) → ∀ s, P s.
Proof.
  intros H s. remember (String.length s) as n eqn:Hn. revert s Hn.
  induction (lt_wf n) as [n _ IH]. intros s ->. apply H. intros t Ht. by eapply IH.
Qed.

(** One step of [runes]. *)
Lemma runes_cons c1 s1 :
  runes (String c1 s1) =
  if byte_of c1 <? 128 then RAscii c1 :: runes s1
  else match s1 with
       | String c2 s2 =>
           if is2 c1 c2 then RMulti (String c1 (String c2 "")) :: runes s2
           else match s2 with
                | String c3 s3 =>
                    if is3 c1 c2 c3 then RMulti (String c1 (String c2 (String c3 ""))) :: runes s3
                    else match s3 with
                         | String c4 s4 =>
                             if is4 c1 c2 c3 c4
                             then RMulti (String c1 (String c2 (String c3 (String c4 "")))) :: runes s4
                             else RBad c1 :: runes s1
                         | "" => RBad c1 :: runes s1
                         end
                | "" => RBad c1 :: runes s1
                end
       | "" => RBad c1 :: runes s1
       end.
Proof. cbn [runes]. repeat case_match; reflexivity. Qed.

Lemma runes_app a b : rune_boundary b → runes (a +:+ b) = runes a ++ runes b.
Proof.
  destruct b as [|d b]; intros Hb; [by rewrite String_append_nil, app_nil_r|]. simpl in Hb.
  induction a as [a IH] using string_len_ind.
  destruct a as [|c1 a1]; [done|]. cbn [String.append]. rewrite (runes_cons c1 a1), (runes_cons c1 (a1 +:+ _)).
  rewrite (IH a1) by (simpl; lia). destruct (byte_of c1 <? 128); [done|].
  destruct a1 as [|c2 a2]; cbn [String.append].
  { rewrite is2_boundary by done. destruct b as [|d2 b]; [done|]. rewrite is3_boundary2 by done.
    destruct b; [done|]. by rewrite is4_boundary2. }
  rewrite (IH a2) by (simpl; lia). destruct (is2 c1 c2); [done|].
  destruct a2 as [|c3 a3]; cbn [String.append].
  { rewrite is3_boundary3 by done. destruct b; [done|]. by rewrite is4_boundary3. }
  rewrite (IH a3) by (simpl; lia). destruct (is3 c1 c2 c3); [done|].
  destruct a3 as [|c4 a4]; cbn [String.append]; [by rewrite is4_boundary4|].
  rewrite (IH a4) by (simpl; lia). by destruct (is4 c1 c2 c3 c4).
Qed.

Lemma runes_bytes s : concat_map rune_bytes (runes s) = s.
Proof.
  induction s as [s IH] using string_len_ind. destruct s as [|c1 s1]; [done|]. rewrite runes_cons.
  assert (Hbad : concat_map rune_bytes (RBad c1 :: runes s1) = String c1 s1).
  { cbn. f_equal. apply IH. simpl. lia. }
  repeat case_match; try done; cbn; repeat f_equal; apply IH; simpl; lia.
Qed.

Lemma concat_map_app f l k : concat_map f (l ++ k) = concat_map f l +:+ concat_map f k.
Proof. induction l as [|r l IH]; simpl; [done|]. by rewrite IH, String_append_assoc. Qed.

Lemma concat_map_len (f g : rune → string) l :
  (∀ r, r ∈ l → slen (f r) ≤ slen (g r)) → slen (concat_map f l) ≤ slen (concat_map g l).
Proof.
  induction l as [|r l IH]; intros H; simpl; [done|]. unfold slen in *. rewrite !String_length_app, !Nat2Z.inj_add.
  pose proof (H r ltac:(set_solver)). specialize (IH (fun r' Hr => H r' ltac:(set_solver))). lia.
Qed.


Lemma esc_ascii_len c : 1 ≤ slen (esc_ascii c).
Proof. unfold esc_ascii. repeat case_match; unfold slen; simpl; lia. Qed.

Lemma esc_rune_len r : slen (rune_bytes r) ≤ slen (esc_rune r).
Proof.
  destruct r as [c|s|c]; simpl; [apply esc_ascii_len| |done].
  unfold line_sep. repeat case_bool_decide; subst; done.
Qed.

Lemma escape_len s : slen s ≤ slen (escape s).
Proof. rewrite <-(runes_bytes s) at 1. apply concat_map_len. intros r _. apply esc_rune_len. Qed.

Lemma escape_app a b : rune_boundary b → escape (a +:+ b) = escape a +:+ escape b.
Proof. intros Hb. unfold escape. by rewrite runes_app, concat_map_app. Qed.

(** ** The trim *)

Lemma substring_sdrop k s : String.substring 0 k s +:+ sdrop k s = s.
Proof. revert k. induction s as [|c s IH]; intros [|k]; simpl; [done..|]. by rewrite IH. Qed.

Lemma sdrop_get k s : match sdrop k s with "" => String.get k s = None | String c _ => String.get k s = Some c end.
Proof. revert k. induction s as [|c s IH]; intros [|k]; simpl; try done. apply IH. Qed.

Lemma slen_sdrop k s : (k ≤ String.length s)%nat → slen (sdrop k s) = slen s - Z.of_nat k.
Proof.
  unfold slen. revert k. induction s as [|c s IH]; intros [|k] Hk; simpl in *; try lia.
  rewrite IH by lia. lia.
Qed.

Lemma back_to_rune_spec s k :
  (back_to_rune s k ≤ k)%nat ∧ (back_to_rune s k = O ∨ rune_boundary (sdrop (back_to_rune s k) s)).
Proof.
  induction k as [|k [IH1 IH2]]; cbn [back_to_rune]; [by split; [|left]|].
  pose proof (sdrop_get (S k) s) as Hd. destruct (String.get (S k) s) as [c|] eqn:Hg.
  - destruct (cont c) eqn:Hc; [split; [lia|done]|]. split; [lia|right].
    destruct (sdrop (S k) s); simpl; congruence.
  - split; [lia|right]. by destruct (sdrop (S k) s).
Qed.

(** A trim either leaves the bare marker or removes the overage from the text. *)
Lemma truncateField_cases s over :
  0 < over →
  truncateField s over = truncatedMarker ∨
  slen (escape (truncateField s over)) ≤ slen (escape s) - over.
Proof.
  intros Ho. unfold truncateField. set (k0 := Z.to_nat _).
  destruct (back_to_rune_spec s k0) as [Hle [H0|Hb]]; [left; by rewrite H0; destruct s|].
  set (k := back_to_rune s k0) in *. destruct (decide (k = O)) as [->|Hk]; [left; by destruct s|right].
  assert (Hm : slen truncatedMarker = 14) by done.
  assert (Hks : Z.of_nat k ≤ slen s - over - 14) by lia.
  rewrite escape_app by done. change (escape truncatedMarker) with truncatedMarker.
  rewrite <-(substring_sdrop k s) at 2. rewrite escape_app by done. rewrite !slen_app, Hm.
  pose proof (escape_len (sdrop k s)). rewrite slen_sdrop in * by (unfold slen in Hks; lia). lia.
Qed.

Lemma truncateField_nonempty s over : truncateField s over ≠ "".
Proof. unfold truncateField. by destruct (String.substring _ _ _). Qed.

(** ** Lengths *)

Definition mlen (o : option string) : Z := match o with Some s => slen s + 1 | None => 0 end.
Definition sum_mlen (l : list (option string)) : Z := foldr (fun o n => mlen o + n) 0 l.

Lemma Join_mlen l : omap id l ≠ [] → slen (Join (omap id l) ",") + 1 = sum_mlen l.
Proof.
  assert (H0 : ∀ l : list (option string), omap id l = [] → sum_mlen l = 0).
  { induction l0 as [|[s|] l0 IH]; simpl; [done|done|]. intros H. by rewrite IH. }
  induction l as [|[s|] l IH]; cbn [omap list_omap id]; [done| |].
  - intros _. cbn [sum_mlen foldr mlen]. fold (sum_mlen l). destruct (omap id l) as [|t ts] eqn:Hl.
    + rewrite (H0 l Hl). simpl. lia.
    + rewrite <-IH by done. change (Join (s :: t :: ts) ",") with (s +:+ "," +:+ Join (t :: ts) ",").
      rewrite !slen_app. change (slen ",") with 1. lia.
  - cbn. intros H. by apply IH.
Qed.

Lemma Marshal_len `{TimeJSON} e b :
  Marshal e = Some b → ∃ tm, time_MarshalJSON (ae_Time e) = Some tm ∧ slen b = 1 + sum_mlen (members tm e).
Proof.
  unfold Marshal. destruct (time_MarshalJSON _) as [tm|]; [|done]. intros Hb. exists tm. split; [done|].
  assert (b = "{" +:+ Join (omap id (members tm e)) "," +:+ "}") as -> by congruence.
  rewrite <-Join_mlen by done. rewrite !slen_app. change (slen "{") with 1. change (slen "}") with 1. lia.
Qed.

Lemma mem_str_mlen name v : mlen (mem_str name v) = slen name + 6 + slen (escape v).
Proof. unfold mem_str, key, json_string. cbn [mlen]. rewrite !slen_app. change (slen dq) with 1. change (slen ":") with 1. lia. Qed.

Lemma omit_str_mlen name v : v ≠ "" → mlen (omit_str name v) = slen name + 6 + slen (escape v).
Proof. intros Hv. unfold omit_str. rewrite bool_decide_eq_false_2 by done. apply mem_str_mlen. Qed.

#[local] Opaque mlen mem_str omit_str mem_int omit_bool escape slen key.

Lemma set_field_mlen f s tm e :
  get_field f e ≠ "" → s ≠ "" →
  sum_mlen (members tm (set_field f s e)) + slen (escape (get_field f e))
  = sum_mlen (members tm e) + slen (escape s).
Proof.
  intros Hg Hs. destruct f; unfold set_field, map_text; cbn in Hg |- *;
    rewrite ?mem_str_mlen, ?(omit_str_mlen _ s), ?(omit_str_mlen _ _ Hg) by done; lia.
Qed.

#[local] Transparent mlen mem_str omit_str mem_int omit_bool escape slen key.

(** ** The loop *)

Definition all_fields : list efield := free_fields ++ metadataStringFields.

Lemma all_fields_complete f : f ∈ all_fields.
Proof. destruct f; set_solver. Qed.

Lemma get_set_field f g s e : get_field g (set_field f s e) = if efield_eqb g f then s else get_field g e.
Proof. by destruct f, g. Qed.

Lemma efield_eqb_eq f g : efield_eqb f g = true ↔ f = g.
Proof. split; [by destruct f, g|intros ->; by destruct g]. Qed.

Lemma longest_loop_spec e fields best :
  match longest_loop e best fields with
  | Some f => best = Some f ∨ f ∈ fields ∧ trimmable (get_field f e) = true
  | None => best = None ∧ ∀ f, f ∈ fields → trimmable (get_field f e) = false
  end.
Proof.
  revert best. induction fields as [|f fields IH]; intros best; simpl.
  - destruct best; [by left|]. split; [done|set_solver].
  - match goal with |- context [longest_loop e ?b fields] => specialize (IH b); destruct (longest_loop e b fields) as [g|] end.
    + destruct IH as [Hb|[Hg Ht]]; [|right; split; [set_solver|done]].
      destruct (trimmable (get_field f e)) eqn:Hf; simpl in Hb; [|by left].
      destruct best as [b|]; [|right; simplify_eq; split; [set_solver|done]].
      destruct (_ <? _); simplify_eq; [right; split; [set_solver|done]|by left].
    + destruct IH as [Hb Hn]. destruct (trimmable (get_field f e)) eqn:Hf; simpl in Hb.
      * destruct best; [by destruct (_ <? _)|done].
      * split; [done|]. intros g [->|Hg]%elem_of_cons; auto.
Qed.

Definition pick_field (e : Entry) : option efield :=
  match longestTrimmable e free_fields with
  | Some f => Some f
  | None => longestTrimmable e metadataStringFields
  end.

Lemma pick_field_spec e :
  match pick_field e with
  | Some f => trimmable (get_field f e) = true
  | None => ∀ f, trimmable (get_field f e) = false
  end.
Proof.
  unfold pick_field, longestTrimmable. pose proof (longest_loop_spec e free_fields None) as H1.
  pose proof (longest_loop_spec e metadataStringFields None) as H2.
  destruct (longest_loop e None free_fields) as [f|]; [by destruct H1 as [[=]|[_ ?]]|].
  destruct (longest_loop e None metadataStringFields) as [f|]; [by destruct H2 as [[=]|[_ ?]]|].
  destruct H1 as [_ H1], H2 as [_ H2]. intros f. pose proof (all_fields_complete f) as Hf.
  apply elem_of_app in Hf as [Hf|Hf]; auto.
Qed.

(** The fields that still have text to give. *)
Definition trim_count (e : Entry) (l : list efield) : nat :=
  length (List.filter (fun f => trimmable (get_field f e)) l).

Lemma trim_count_marker e f l :
  NoDup l → f ∈ l → trimmable (get_field f e) = true →
  S (trim_count (set_field f truncatedMarker e) l) = trim_count e l.
Proof.
  unfold trim_count. intros Hnd Hf Ht. induction l as [|g l IH]; [set_solver|].
  apply NoDup_cons in Hnd as [Hg Hnd]. cbn [List.filter]. rewrite get_set_field.
  assert (Hrest : f ∉ l → List.filter (fun h => trimmable (get_field h (set_field f truncatedMarker e))) l
    = List.filter (fun h => trimmable (get_field h e)) l).
  { intros Hfl. apply List.filter_ext_in. intros h Hh%list_elem_of_In. rewrite get_set_field.
    destruct (efield_eqb h f) eqn:E; [|done]. apply efield_eqb_eq in E as ->. done. }
  apply elem_of_cons in Hf as [->|Hf].
  - rewrite (proj2 (efield_eqb_eq g g) eq_refl), Ht, Hrest by done. done.
  - destruct (efield_eqb g f) eqn:E; [apply efield_eqb_eq in E as ->; done|].
    destruct (trimmable (get_field g e)); simpl; rewrite <-IH by done; done.
Qed.

Lemma all_fields_NoDup : NoDup all_fields.
Proof. apply (bool_decide_unpack _). vm_compute. exact I. Qed.

(** What the trim does not touch. *)
Definition same_rest (e e' : Entry) : Prop :=
  ae_Time e' = ae_Time e ∧ ae_Serial e' = ae_Serial e ∧ ae_Outcome e' = ae_Outcome e ∧ ae_ExitCode e' = ae_ExitCode e ∧
  ae_PTY e' = ae_PTY e ∧ ae_DryRun e' = ae_DryRun e ∧ ae_Seq e' = ae_Seq e ∧ ae_PrevHash e' = ae_PrevHash e ∧
  ae_Sig e' = ae_Sig e.

Section trimming.
Context `{TJ : TimeJSON}.

Lemma set_field_Marshal f s e b :
  Marshal e = Some b → get_field f e ≠ "" → s ≠ "" →
  ∃ b', Marshal (set_field f s e) = Some b' ∧ slen b' = slen b - slen (escape (get_field f e)) + slen (escape s).
Proof.
  intros Hb Hg Hs. destruct (Marshal_len _ _ Hb) as (tm & Htm & Hlen).
  assert (Hb' : ∃ b', Marshal (set_field f s e) = Some b').
  { unfold Marshal. change (ae_Time (set_field f s e)) with (ae_Time e). rewrite Htm. eauto. }
  destruct Hb' as [b' Hb']. exists b'. split; [done|]. destruct (Marshal_len _ _ Hb') as (tm' & Htm' & Hlen').
  change (ae_Time (set_field f s e)) with (ae_Time e) in Htm'. assert (tm' = tm) as -> by congruence.
  pose proof (set_field_mlen f s tm e Hg Hs). lia.
Qed.

(** The loop ends on a record within budget or with nothing left to trim. *)
Lemma fit_loop_spec n e b :
  Marshal e = Some b → (trim_count e all_fields < n)%nat →
  same_rest e (fit_loop n e) ∧
  ∃ b', Marshal (fit_loop n e) = Some b' ∧
    (slen b' ≤ fit_budget ∨ ∀ f, trimmable (get_field f (fit_loop n e)) = false).
Proof.
  revert e b. induction n as [|n IH]; intros e b Hb Hn; [lia|]. cbn [fit_loop]. rewrite Hb.
  destruct (Z.leb_spec (slen b) fit_budget) as [|Hover]; [split; [done|eauto]|].
  fold (pick_field e). pose proof (pick_field_spec e) as Hp. destruct (pick_field e) as [f|]; [|split; [done|eauto]].
  set (s := truncateField (get_field f e) (slen b - fit_budget)).
  assert (Hg : get_field f e ≠ "").
  { unfold trimmable in Hp. unbool. done. }
  destruct (set_field_Marshal f s e b Hb Hg (truncateField_nonempty _ _)) as (b1 & Hb1 & Hlen1).
  destruct (truncateField_cases (get_field f e) (slen b - fit_budget) ltac:(lia)) as [Hm|Hle].
  - fold s in Hm. rewrite Hm in *. destruct (IH _ _ Hb1) as [Hs Hrest]; [|split; [exact Hs|exact Hrest]].
    pose proof (trim_count_marker e f all_fields all_fields_NoDup (all_fields_complete f) Hp). lia.
  - fold s in Hle. assert (Hfit : fit_loop n (set_field f s e) = set_field f s e).
    { destruct n; [done|]. cbn [fit_loop]. rewrite Hb1. rewrite (proj2 (Z.leb_le _ _)) by lia. done. }
    rewrite Hfit. split; [done|]. exists b1. split; [done|]. left. lia.
Qed.
End trimming.

(** ** Every line fits the readers' buffer *)

Definition plain_json (c : ascii) : bool := is_alnum c || ascii_eqb c "+"%char || ascii_eqb c "/"%char || ascii_eqb c "="%char.

Lemma plain_json_esc c : plain_json c = true → byte_of c < 128 ∧ esc_ascii c = String c "".
Proof.
  intros H. assert (Hall : forallb (fun n => let c := byte_chr (Z.of_nat n) in
    negb (plain_json c) || (byte_of c <? 128) && bool_decide (esc_ascii c = String c "")) (seq 0 256) = true)
    by (vm_compute; reflexivity).
  rewrite forallb_forall in Hall. pose proof (byte_of_bound c) as Hb. unfold is_byte in Hb.
  specialize (Hall (Z.to_nat (byte_of c))). rewrite Z2Nat.id, byte_chr_of in Hall by lia. cbn zeta in Hall.
  rewrite H in Hall. specialize (Hall ltac:(apply in_seq; lia)). simpl in Hall. unbool. done.
Qed.

Lemma escape_plain s : forall_char plain_json s = true → escape s = s.
Proof.
  induction s as [|c s IH]; [done|]. cbn [forall_char]. intros [Hc Hs]%andb_true_iff.
  destruct (plain_json_esc c Hc) as [Hb He]. unfold escape. rewrite runes_cons, (proj2 (Z.ltb_lt _ _) Hb).
  cbn [concat_map foldr esc_rune]. rewrite He. cbn [String.append]. f_equal. by apply IH.
Qed.

(** What producers put in a record besides free text and metadata. *)
Record entry_shape (e : Entry) : Prop := {
  es_serial : 0 ≤ ae_Serial e < 2 ^ 64;
  es_exit : - 2 ^ 63 ≤ ae_ExitCode e < 2 ^ 63;
  es_seq : 0 ≤ ae_Seq e < 2 ^ 64;
  es_outcome : slen (escape (ae_Outcome e)) ≤ 1024;
  es_fresh : ae_PrevHash e = "" ∧ ae_Sig e = "";
}.

(** [RFC3339Nano] in quotes; the zero time has a text. *)
Definition time_text_ok `{TimeJSON} : Prop :=
  time_MarshalJSON None ≠ None ∧ ∀ t s, time_MarshalJSON t = Some s → slen s ≤ 37.

Lemma mem_int_mlen name z : - 2 ^ 63 ≤ z < 2 ^ 64 → 0 ≤ mlen (mem_int name z) ≤ slen name + 24.
Proof.
  intros Hz. pose proof (FormatInt_length z Hz) as H. unfold mem_int, key.
  change (mlen (Some ?x)) with (slen x + 1). rewrite !slen_app. change (slen dq) with 1. change (slen ":") with 1.
  pose proof (slen_nonneg name). pose proof (slen_nonneg (FormatInt z)).
  assert (slen (FormatInt z) ≤ 20) by (unfold slen; lia). lia.
Qed.

Lemma omit_bool_mlen name b : mlen (omit_bool name b) ≤ slen name + 8.
Proof.
  unfold omit_bool, key. pose proof (slen_nonneg name). destruct b; [|change (mlen None) with 0; lia].
  change (mlen (Some ?x)) with (slen x + 1). rewrite !slen_app. change (slen dq) with 1. change (slen ":") with 1.
  change (slen "true") with 4. lia.
Qed.

Lemma exhausted_escape v : trimmable v = false → slen (escape v) ≤ 14.
Proof.
  unfold trimmable. intros [H|H]%andb_false_iff; unbool; apply dec_stable in H; subst;
    apply Z.leb_le; vm_compute; reflexivity.
Qed.

Lemma omit_str_le name v : mlen (omit_str name v) ≤ slen name + 6 + slen (escape v).
Proof.
  destruct (decide (v = "")) as [->|Hv]; [|by rewrite omit_str_mlen].
  unfold omit_str. rewrite bool_decide_eq_true_2 by done. change (mlen None) with 0.
  pose proof (slen_nonneg name). pose proof (slen_nonneg (escape "")). lia.
Qed.

Section bound.
Context `{TJ : TimeJSON}.

(** A record with every field exhausted is far below the budget. *)
Lemma exhausted_short e b :
  time_text_ok → entry_shape e → (∀ f, trimmable (get_field f e) = false) → Marshal e = Some b → slen b ≤ fit_budget.
Proof.
  intros [_ Ht] [S1 S2 S3 S4 [S5 S6]] Hf Hb. destruct (Marshal_len _ _ Hb) as (tm & Htm & ->).
  apply Ht in Htm. assert (Hx : ∀ f, slen (escape (get_field f e)) ≤ 14) by (intros f; by apply exhausted_escape).
  pose proof (Hx FCaller). pose proof (Hx FHost). pose proof (Hx FUser). pose proof (Hx FPrincipal).
  pose proof (Hx FCommand). pose proof (Hx FTTL). pose proof (Hx FSessionID). pose proof (Hx FEndUserContext).
  pose proof (Hx FTargetType). pose proof (Hx FBodySHA256). pose proof (Hx FErr). pose proof (Hx FElevation).
  pose proof (Hx FPolicyRule). pose proof (Hx FWarning). pose proof (Hx FApprovalID). pose proof (Hx FApprovedBy).
  pose proof (Hx FApprovedVia). pose proof (Hx FAnomaly). cbn [get_field] in *.
  unfold members. cbn [sum_mlen foldr].
  pose proof (mem_int_mlen "serial" (ae_Serial e) ltac:(lia)). pose proof (mem_int_mlen "exit_code" (ae_ExitCode e) ltac:(lia)).
  pose proof (mem_int_mlen "seq" (ae_Seq e) ltac:(lia)).
  rewrite !mem_str_mlen. rewrite S5, S6. change (slen (escape "")) with 0.
  change (mlen (Some ?x)) with (slen x + 1). rewrite slen_app.
  repeat match goal with |- context [mlen (omit_str ?n ?v)] =>
    pose proof (omit_str_le n v); generalize dependent (mlen (omit_str n v)); intros end.
  pose proof (omit_bool_mlen "pty" (ae_PTY e)). pose proof (omit_bool_mlen "dry_run" (ae_DryRun e)).
  repeat match goal with H : context [slen ?s] |- _ => match s with String _ _ => let n := eval vm_compute in (slen s) in change (slen s) with n in H end end.
  repeat match goal with |- context [slen ?s] => match s with String _ _ => let n := eval vm_compute in (slen s) in change (slen s) with n end end.
  assert (slen (key "time") = 7) as -> by reflexivity. unfold fit_budget, maxEntryBytes, readerBufferSize, fit_reserve. lia.
Qed.

Lemma fitEntry_budget e b :
  time_text_ok → entry_shape e → Marshal e = Some b →
  same_rest e (fitEntry e) ∧ ∃ b', Marshal (fitEntry e) = Some b' ∧ slen b' ≤ fit_budget.
Proof.
  intros Ht He Hb. unfold fitEntry. set (n := (4 * _)%nat).
  destruct (fit_loop_spec n e b Hb) as (Hs & b' & Hb' & Hcase); swap 1 2.
  - split; [exact Hs|]. exists b'. split; [exact Hb'|]. destruct Hcase as [?|Hex]; [done|].
    apply exhausted_short in Hb'; try done. destruct Hs as (E1 & E2 & E3 & E4 & E5 & E6 & E7 & E8 & E9), He.
    split; congruence.
  - unfold trim_count. etransitivity; [apply Nat.lt_succ_r, List.filter_length_le|]. vm_compute. lia.
Qed.

(** What numbering, linking, dating and signing add. *)
Lemma set_chain_len tm seq prev sig e b line :
  time_text_ok → 0 ≤ seq < 2 ^ 64 → Marshal e = Some b → ae_PrevHash e = "" → ae_Sig e = "" → 0 ≤ ae_Seq e < 2 ^ 64 →
  slen (escape sig) ≤ 88 → slen (escape prev) ≤ 64 →
  Marshal (set_chain tm seq prev sig e) = Some line → slen line ≤ slen b + 216.
Proof.
  intros [_ Ht] Hseq Hb Hp Hs He Hsig Hprev Hline. destruct (Marshal_len _ _ Hb) as (t0 & Ht0 & ->).
  destruct (Marshal_len _ _ Hline) as (t1 & Ht1 & ->). apply Ht in Ht0, Ht1. clear Hb Hline.
  unfold members, set_chain in *. cbn -[mlen omit_str mem_str mem_int omit_bool Z.add key String.append slen] in *.
  pose proof (mem_int_mlen "seq" (ae_Seq e) ltac:(lia)). pose proof (mem_int_mlen "seq" seq ltac:(lia)).
  rewrite !(mem_str_mlen "prev_hash"), !(mem_str_mlen "sig"). rewrite Hp, Hs.
  assert (slen (escape "") = 0) as -> by reflexivity.
  change (mlen (Some ?x)) with (slen x + 1). rewrite !slen_app. pose proof (slen_nonneg t0).
  assert (slen "seq" = 3) as E3 by reflexivity. rewrite E3 in *. lia.
Qed.

Lemma fit_loop_None n e : Marshal e = None → fit_loop n e = e.
Proof. destruct n; cbn [fit_loop]; [done|]. by intros ->. Qed.

(** Whatever text a request puts in any field of a record, the line that is
    signed, linked and written is strictly shorter than the buffer of every
    reader. *)
Lemma sealed_line_short `{Ed25519} signKey e tm seq prev e' line :
  time_text_ok → entry_shape e → tm = ae_Time e ∨ ae_Time e = None → 0 ≤ seq < 2 ^ 64 →
  slen prev ≤ 64 → forall_char plain_json prev = true →
  (∀ m, String.length (ed_sign signKey m) = 64%nat) →
  seal_entry signKey tm seq prev (fitEntry e) = Some e' → Marshal e' = Some line →
  slen line < readerBufferSize.
Proof.
  intros Ht He Htm Hseq Hprev Hpc Hsig Hseal Hline.
  assert (Hb : ∃ b, Marshal e = Some b).
  { destruct (time_MarshalJSON (ae_Time e)) as [t|] eqn:E; [unfold Marshal; rewrite E; eauto|].
    exfalso. destruct Htm as [->|H0]; [|by rewrite H0 in E; apply (proj1 Ht)].
    assert (Hn : Marshal e = None) by (unfold Marshal; by rewrite E).
    unfold fitEntry in Hseal. rewrite fit_loop_None in Hseal by done.
    unfold seal_entry, Marshal, set_chain in Hseal. cbn [ae_Time] in Hseal. by rewrite E in Hseal. }
  destruct Hb as [b Hb]. destruct (fitEntry_budget e b Ht He Hb) as (Hs & b' & Hb' & Hfit).
  destruct Hs as (E1 & E2 & E3 & E4 & E5 & E6 & E7 & E8 & E9), He as [S1 S2 S3 S4 [S5 S6]].
  unfold seal_entry in Hseal. destruct (Marshal (set_chain tm seq prev "" (fitEntry e))) as [m|]; [|done].
  injection Hseal as <-.
  assert (Hlen : slen line ≤ slen b' + 216).
  { eapply set_chain_len; [done|done|exact Hb'|congruence|congruence|congruence| | |exact Hline].
    - destruct (StdEncode_spec (ed_sign signKey m)) as [Hl Hc]. rewrite escape_plain by exact Hc.
      unfold slen. rewrite Hsig in Hl. change (pad_len 64) with 2%nat in Hl. lia.
    - by rewrite escape_plain. }
  unfold fit_budget, maxEntryBytes, fit_reserve in Hfit. lia.
Qed.
End bound.

(** ** What survives decoding *)

Definition wf_multi (t : string) : bool :=
  match t with
  | String a (String b "") => is2 a b
  | String a (String b (String c "")) => is3 a b c
  | String a (String b (String c (String d ""))) => is4 a b c d
  | _ => false
  end.
Definition wf_rune (r : rune) : Prop :=
  match r with RAscii c => byte_of c < 128 | RMulti t => wf_multi t = true | RBad _ => True end.

Lemma runes_wf s : Forall wf_rune (runes s).
Proof.
  induction s as [s IH] using string_len_ind. destruct s as [|c1 s1]; [constructor|]. rewrite runes_cons.
  assert (Hbad : Forall wf_rune (RBad c1 :: runes s1)) by (constructor; [done|apply IH; simpl; lia]).
  repeat case_match; try done; (constructor; [simpl; unbool; done|apply IH; simpl; lia]).
Qed.

Lemma in_range_bound lo hi c : in_range lo hi c = true ↔ lo ≤ byte_of c ≤ hi.
Proof. unfold in_range. rewrite andb_true_iff, !Z.leb_le. done. Qed.
Lemma in_range_out lo hi c : byte_of c < lo ∨ hi < byte_of c → in_range lo hi c = false.
Proof. intros H. destruct (in_range lo hi c) eqn:E; [|done]. apply in_range_bound in E. lia. Qed.

Lemma is2_lead a b : is2 a b = true → 194 ≤ byte_of a ≤ 223.
Proof. unfold is2. intros [?%in_range_bound _]%andb_true_iff. done. Qed.
Lemma is3_lead a b c : is3 a b c = true → 224 ≤ byte_of a ≤ 239.
Proof.
  unfold is3. intros [H _]%andb_true_iff.
  repeat (apply orb_true_iff in H as [H|H]); apply andb_true_iff in H as [H _];
    try (apply orb_true_iff in H as [H|H]); apply in_range_bound in H; lia.
Qed.
Lemma is4_lead a b c d : is4 a b c d = true → 240 ≤ byte_of a ≤ 244.
Proof.
  unfold is4. intros [[H _]%andb_true_iff _]%andb_true_iff.
  repeat (apply orb_true_iff in H as [H|H]); apply andb_true_iff in H as [H _]; apply in_range_bound in H; lia.
Qed.
Lemma is2_false a b : 223 < byte_of a → is2 a b = false.
Proof. intros H. unfold is2. by rewrite (in_range_out 194 223 a) by lia. Qed.
Lemma is3_false a b c : 239 < byte_of a → is3 a b c = false.
Proof. intros H. unfold is3.
  by rewrite (in_range_out 224 224 a), (in_range_out 225 236 a), (in_range_out 238 239 a), (in_range_out 237 237 a) by lia.
Qed.

Lemma runes_multi t s : wf_multi t = true → runes (t +:+ s) = RMulti t :: runes s.
Proof.
  destruct t as [|a [|b [|c [|d [|]]]]]; simpl wf_multi; try done; intros H; cbn [String.append]; rewrite runes_cons.
  - pose proof (is2_lead _ _ H). rewrite (proj2 (Z.ltb_ge _ _)) by lia. by rewrite H.
  - pose proof (is3_lead _ _ _ H). rewrite (proj2 (Z.ltb_ge _ _)), is2_false by lia. by rewrite H.
  - pose proof (is4_lead _ _ _ _ H). rewrite (proj2 (Z.ltb_ge _ _)), is2_false, is3_false by lia. by rewrite H.
Qed.

Definition replacement : rune := RMulti (string_of_bytes [239; 191; 189]).
Definition fix_rune (r : rune) : rune := match r with RBad _ => replacement | _ => r end.

Lemma runes_to_valid s : runes (to_valid s) = fix_rune <$> runes s.
Proof.
  unfold to_valid. pose proof (runes_wf s) as H. induction H as [|r l Hr _ IH]; [done|].
  cbn [concat_map foldr fmap list_fmap]. fold (concat_map valid_rune l).
  destruct r as [c|t|c]; simpl in Hr; cbn [valid_rune fix_rune].
  - cbn [String.append]. rewrite runes_cons, (proj2 (Z.ltb_lt _ _) Hr). by rewrite IH.
  - rewrite runes_multi by done. by rewrite IH.
  - rewrite runes_multi by reflexivity. by rewrite IH.
Qed.

Lemma to_valid_id s : ValidString s = true → to_valid s = s.
Proof.
  unfold ValidString, to_valid. intros H. rewrite <-(runes_bytes s) at 2. induction (runes s) as [|r l IH]; [done|].
  cbn [forallb] in H. apply andb_true_iff in H as [Hr Hl]. cbn [concat_map foldr].
  fold (concat_map valid_rune l) (concat_map rune_bytes l). rewrite IH by done. by destruct r.
Qed.

Lemma escape_to_valid s :
  slen (escape (to_valid s)) ≤ slen (escape s) ∧
  (ValidString s = false → slen (escape (to_valid s)) < slen (escape s)).
Proof.
  unfold escape, ValidString. rewrite runes_to_valid. induction (runes s) as [|r l [IH1 IH2]]; [done|].
  cbn [concat_map foldr fmap list_fmap forallb]. fold (concat_map esc_rune (fix_rune <$> l)) (concat_map esc_rune l).
  rewrite !slen_app. destruct r as [c|t|c]; cbn [fix_rune good_rune andb].
  - split; [lia|]. intros H%IH2. lia.
  - split; [lia|]. intros H%IH2. lia.
  - change (slen (esc_rune replacement)) with 3. change (slen (esc_rune (RBad c))) with 6. split; [lia|]. lia.
Qed.

Lemma to_valid_nonempty s : s ≠ "" → to_valid s ≠ "".
Proof.
  destruct s as [|c s]; [done|]. intros _ H. apply (f_equal runes) in H. rewrite runes_to_valid, runes_cons in H.
  repeat case_match; done.
Qed.

Definition entry_valid (e : Entry) : bool :=
  ValidString (ae_Outcome e) && ValidString (ae_PrevHash e) && ValidString (ae_Sig e)
  && forallb (fun f => ValidString (get_field f e)) all_fields.

Lemma clean_entry_id e : entry_valid e = true → clean_entry e = e.
Proof.
  destruct e. unfold entry_valid, clean_entry. cbn -[to_valid ValidString]. intros H. rewrite !andb_true_iff in H.
  destruct_and!. by rewrite !to_valid_id by done.
Qed.

Lemma mem_str_valid name v :
  mlen (mem_str name (to_valid v)) ≤ mlen (mem_str name v) ∧
  (ValidString v = false → mlen (mem_str name (to_valid v)) < mlen (mem_str name v)).
Proof. rewrite !mem_str_mlen. destruct (escape_to_valid v) as [H1 H2]. split; [lia|]. intros H%H2. lia. Qed.

Lemma omit_str_valid name v :
  mlen (omit_str name (to_valid v)) ≤ mlen (omit_str name v) ∧
  (ValidString v = false → mlen (omit_str name (to_valid v)) < mlen (omit_str name v)).
Proof.
  destruct (decide (v = "")) as [->|Hv]; [done|].
  rewrite !omit_str_mlen by first [done|by apply to_valid_nonempty].
  destruct (escape_to_valid v) as [H1 H2]. split; [lia|]. intros H%H2. lia.
Qed.

(** A record with an invalid byte in some field gets a shorter text. *)
Lemma clean_shorter tm e :
  sum_mlen (members tm e) ≤ sum_mlen (members tm (clean_entry e)) → entry_valid e = true.
Proof.
  unfold members, clean_entry.
  cbn -[mlen omit_str mem_str mem_int omit_bool Z.add key String.append slen to_valid].
  destruct (mem_str_valid "caller" (ae_Caller e)). destruct (mem_str_valid "host" (ae_Host e)).
  destruct (mem_str_valid "user" (ae_User e)). destruct (mem_str_valid "principal" (ae_Principal e)).
  destruct (mem_str_valid "command" (ae_Command e)). destruct (mem_str_valid "ttl" (ae_TTL e)).
  destruct (omit_str_valid "session_id" (ae_SessionID e)). destruct (omit_str_valid "end_user_context" (ae_EndUserContext e)).
  destruct (omit_str_valid "target_type" (ae_TargetType e)). destruct (omit_str_valid "body_sha256" (ae_BodySHA256 e)).
  destruct (mem_str_valid "outcome" (ae_Outcome e)). destruct (omit_str_valid "err" (ae_Err e)).
  destruct (omit_str_valid "elevation" (ae_Elevation e)). destruct (omit_str_valid "policy_rule" (ae_PolicyRule e)).
  destruct (omit_str_valid "warning" (ae_Warning e)). destruct (omit_str_valid "approval_id" (ae_ApprovalID e)).
  destruct (omit_str_valid "approved_by" (ae_ApprovedBy e)). destruct (omit_str_valid "approved_via" (ae_ApprovedVia e)).
  destruct (omit_str_valid "anomaly" (ae_Anomaly e)). destruct (mem_str_valid "prev_hash" (ae_PrevHash e)).
  destruct (mem_str_valid "sig" (ae_Sig e)).
  intros Hle. unfold entry_valid. cbn [forallb all_fields free_fields metadataStringFields app get_field].
  rewrite !andb_true_iff. split_and!; try done; apply not_false_is_true; intros E;
    match goal with H : ValidString ?v = false → _, E : ValidString ?v = false |- _ => apply H in E end;
    repeat match goal with H : ValidString _ = false → _ |- _ => clear H end; lia.
Qed.

Lemma ValidString_plain s : forall_char plain_json s = true → ValidString s = true.
Proof.
  induction s as [|c s IH]; [done|]. cbn [forall_char]. intros [Hc Hs]%andb_true_iff.
  destruct (plain_json_esc c Hc) as [Hb _]. unfold ValidString. rewrite runes_cons, (proj2 (Z.ltb_lt _ _) Hb).
  cbn [forallb good_rune andb]. by apply IH.
Qed.

Section signatures.
Context `{TJ : TimeJSON} `{ED : Ed25519}.

(** What a reader can verify: a record as [Append] signs it, read back from
    its line, passes signature verification exactly when every string in it is
    valid UTF-8. For a record with one invalid byte, such as an error text relayed
    from a remote host, the encoder writes the six characters of an escaped
    U+FFFD and the verifier re-encodes three raw bytes, so an untouched log fails
    verification. *)
Theorem record_verifies_iff_valid signKey pub tm seq prev e e' :
  (∀ m, ed_check pub m (ed_sign signKey m) = true) →
  (∀ m m', ed_check pub m (ed_sign signKey m') = true → m = m') →
  String.length pub = PublicKeySize →
  seal_entry signKey tm seq prev e = Some e' →
  VerifyEntry (clean_entry e') pub = Ok () ↔ entry_valid e' = true.
Proof.
  intros Hok Hforge Hpub Hseal. unfold seal_entry in Hseal.
  set (p := set_chain tm seq prev "" e) in Hseal. destruct (Marshal p) as [m|] eqn:Hm; [|done].
  injection Hseal as <-. set (sig := ed_sign signKey m).
  assert (Hsv : ValidString (StdEncode sig) = true) by apply ValidString_plain, StdEncode_spec.
  assert (Hvalid : entry_valid (set_chain tm seq prev (StdEncode sig) e) = entry_valid p).
  { unfold entry_valid, p. cbn [set_chain ae_Sig ae_Outcome ae_PrevHash]. by rewrite Hsv. }
  rewrite Hvalid. unfold VerifyEntry. cbn [clean_entry set_chain ae_Sig].
  rewrite to_valid_id, Std_roundtrip by done.
  match goal with |- context [Marshal ?x] => change (Marshal x) with (Marshal (clean_entry p)) end.
  unfold ed25519_Verify. rewrite Hpub, Nat.eqb_refl. split.
  - destruct (Marshal (clean_entry p)) as [m'|] eqn:Hm'; [|done]. destruct (ed_check pub m' sig) eqn:Hc; [|done].
    intros _. apply Hforge in Hc as ->. destruct (Marshal_len _ _ Hm) as (t & Ht & Hlen).
    destruct (Marshal_len _ _ Hm') as (t' & Ht' & Hlen'). apply (clean_shorter t).
    change (ae_Time (clean_entry p)) with (ae_Time p) in Ht'. assert (t' = t) as -> by congruence. lia.
  - intros Hv%clean_entry_id. rewrite Hv, Hm. by rewrite Hok.
Qed.
End signatures.

(** ** Concrete records *)

Definition sample_time : TimeJSON := {| time_MarshalJSON _ := Some (dq +:+ "2026-01-02T03:04:05Z" +:+ dq) |}.
(** Signatures that are their message. *)
Definition plain_ed25519 : Ed25519 :=
  {| ed_public k := k; ed_sign _ m := m; ed_check _ m s := bool_decide (m = s); ed_fromSeed s := s |}.
(** Signatures of the right size. *)
Definition sized_ed25519 : Ed25519 :=
  {| ed_public k := k; ed_sign _ _ := string_of_list_ascii (repeat "A"%char 64); ed_check _ _ _ := true; ed_fromSeed s := s |}.
Definition sample_pub : string := string_of_list_ascii (repeat "p"%char 32).

Definition sample_entry (host err : string) : Entry :=
  mkEntry None "agent" host "root" "web" "uptime" "60s" 7 "" "" "" "" "error" 0 err "" false "" false "" "" "" "" "" 0 "" "".
(** An error text with a byte that is not UTF-8. *)
Definition raw_err : string := "rejected: " +:+ String (byte_chr 255) "".

Example escape_1 : escape (String (byte_chr 34) "<a>") = String (byte_chr 92) (String (byte_chr 34) "") +:+ String backslash "u003ca" +:+ String backslash "u003e".
Proof. reflexivity. Qed.
Example truncate_rune : truncateField ("aaaaaaaaaaaaaaaaaaaa" +:+ string_of_bytes [195; 169]) 7 = "a...[TRUNCATED]".
Proof. reflexivity. Qed.

Lemma sample_time_ok : @time_text_ok sample_time.
Proof. split; [done|]. intros t s [= <-]. vm_compute. discriminate. Qed.

Lemma record_verifies_iff_valid_witness :
  ∃ e', @seal_entry sample_time plain_ed25519 "k" None 1 "" (sample_entry "web1" raw_err) = Some e' ∧
    entry_valid e' = false ∧ (@VerifyEntry sample_time plain_ed25519 (clean_entry e') sample_pub = Ok () ↔ entry_valid e' = true).
Proof.
  eexists. split; [reflexivity|]. split; [vm_compute; reflexivity|].
  refine (@record_verifies_iff_valid sample_time plain_ed25519 "k" sample_pub None 1 "" (sample_entry "web1" raw_err) _
    _ _ eq_refl eq_refl).
  - intros m. simpl. by apply bool_decide_eq_true.
  - intros m m' H. simpl in H. by apply bool_decide_eq_true in H.
Defined.
