(* ===== verification/AuditCanonical.v ===== *)
(** * The canonical text of an audit record is unambiguous

    The signature and the hash chain of [internal/audit] cover the text
    [json.Marshal] writes. A reader for JSON strings inverts the escaping, and
    the text of a record determines all of its fields. *)

From stdpp Require Import pretty.
From S2P Require Import Prelude GoStrings Encoding Crypto AuditEntry.

(** ** Reading a JSON string *)

(** The character of an escape after the backslash, and the four digits the
    encoder writes after a [u]. *)
Definition simple_escape (c : ascii) : option string :=
  let b := byte_of c in
  if (b =? 34) || (b =? 92) then Some (String c "")
  else if b =? 98 then Some (String (byte_chr 8) "")
  else if b =? 102 then Some (String (byte_chr 12) "")
  else if b =? 110 then Some (String (byte_chr 10) "")
  else if b =? 114 then Some (String (byte_chr 13) "")
  else if b =? 116 then Some (String (byte_chr 9) "")
  else None.

Definition hex_value (c : ascii) : option Z :=
  if is_digit c then Some (byte_of c - 48) else if in_range 97 102 c then Some (byte_of c - 87) else None.

(** The UTF-8 bytes of a code point below U+10000. *)
Definition utf8_of (n : Z) : string :=
  if n <? 128 then String (byte_chr n) ""
  else if n <? 2048 then string_of_bytes [192 + n / 64; 128 + n mod 64]
  else string_of_bytes [224 + n / 4096; 128 + n / 64 mod 64; 128 + n mod 64].

(** The decoded contents up to the closing quote, and what follows it. *)
Fixpoint read_body (s : string) : option (string * string) :=
  match s with
  | "" => None
  | String c s1 =>
      if ascii_eqb c (byte_chr 34) then Some ("", s1)
      else if ascii_eqb c backslash then
        match s1 with
        | String u s2 =>
            if ascii_eqb u "u"%char then
              match s2 with
              | String h1 (String h2 (String h3 (String h4 s3))) =>
                  match hex_value h1, hex_value h2, hex_value h3, hex_value h4 with
                  | Some a, Some b, Some c, Some d =>
                      '(t, rest) ← read_body s3; Some (utf8_of (((a * 16 + b) * 16 + c) * 16 + d) +:+ t, rest)
                  | _, _, _, _ => None
                  end
              | _ => None
              end
            else x ← simple_escape u; '(t, rest) ← read_body s2; Some (x +:+ t, rest)
        | "" => None
        end
      else '(t, rest) ← read_body s1; Some (String c t, rest)
  end.

Definition prepend (p : string) (r : option (string * string)) : option (string * string) :=
  '(t, rest) ← r; Some (p +:+ t, rest).

Lemma read_esc_ascii c k :
  byte_of c < 128 → read_body (esc_ascii c +:+ k) = prepend (String c "") (read_body k).
Proof.
  destruct c as [[] [] [] [] [] [] [] []]; intros H; first [vm_compute in H; discriminate H|reflexivity].
Qed.

Lemma read_raw c k : 128 ≤ byte_of c → read_body (String c k) = prepend (String c "") (read_body k).
Proof.
  intros H. cbn [read_body].
  destruct (ascii_eqb c (byte_chr 34)) eqn:E1; [apply ascii_eqb_eq in E1 as ->; vm_compute in H; done|].
  destruct (ascii_eqb c backslash) eqn:E2; [apply ascii_eqb_eq in E2 as ->; vm_compute in H; done|]. done.
Qed.

Lemma prepend_prepend p q r : prepend p (prepend q r) = prepend (p +:+ q) r.
Proof. destruct r as [[t rest]|]; [|done]. cbn. by rewrite String_append_assoc. Qed.

Lemma wf_multi_high t : wf_multi t = true → forall_char (fun c => 128 <=? byte_of c) t = true.
Proof.
  assert (Hr : ∀ lo hi c, 128 ≤ lo → in_range lo hi c = true → (128 <=? byte_of c) = true).
  { intros lo hi c Hlo H%in_range_bound. apply Z.leb_le. lia. }
  assert (Hc : ∀ c, cont c = true → (128 <=? byte_of c) = true) by (intros c; by apply Hr).
  destruct t as [|a [|b [|c [|d [|]]]]]; cbn [wf_multi forall_char]; try done; intros H.
  - pose proof (is2_lead _ _ H). unfold is2 in H. unbool. rewrite (Hc b), (proj2 (Z.leb_le _ _)) by (done || lia). done.
  - pose proof (is3_lead _ _ _ H). unfold is3 in H. apply andb_true_iff in H as [H H3].
    rewrite (Hc c), (proj2 (Z.leb_le 128 (byte_of a))) by (done || lia).
    repeat (apply orb_true_iff in H as [H|H]); apply andb_true_iff in H as [_ H];
      rewrite ?(Hc b), ?(Hr 160 191 b), ?(Hr 128 159 b) by done; done.
  - pose proof (is4_lead _ _ _ _ H). unfold is4 in H. apply andb_true_iff in H as [[H H3]%andb_true_iff H4].
    rewrite (Hc c), (Hc d), (proj2 (Z.leb_le 128 (byte_of a))) by (done || lia).
    repeat (apply orb_true_iff in H as [H|H]); apply andb_true_iff in H as [_ H];
      rewrite ?(Hc b), ?(Hr 144 191 b), ?(Hr 128 143 b) by done; done.
Qed.

Lemma read_high t k :
  forall_char (fun c => 128 <=? byte_of c) t = true → read_body (t +:+ k) = prepend t (read_body k).
Proof.
  induction t as [|c t IH]; cbn [forall_char String.append]; intros H.
  - by destruct (read_body k) as [[]|].
  - unbool. rewrite read_raw by done. rewrite IH by done. by rewrite prepend_prepend.
Qed.

Lemma read_esc_rune r k : wf_rune r → read_body (esc_rune r +:+ k) = prepend (valid_rune r) (read_body k).
Proof.
  destruct r as [c|t|c]; cbn [wf_rune esc_rune valid_rune]; intros H.
  - by apply read_esc_ascii.
  - unfold line_sep. repeat case_bool_decide; subst; [reflexivity|reflexivity|]. by apply read_high, wf_multi_high.
  - reflexivity.
Qed.

(** Reading inverts escaping, up to invalid bytes. *)
Lemma read_escape s rest : read_body (escape s +:+ dq +:+ rest) = Some (to_valid s, rest).
Proof.
  unfold escape, to_valid. pose proof (runes_wf s) as H. induction H as [|r l Hr _ IH]; [done|].
  cbn [concat_map foldr]. fold (concat_map esc_rune l) (concat_map valid_rune l).
  rewrite String_append_assoc, read_esc_rune by done. by rewrite IH.
Qed.

(** ** Members of the record

    A member is its name and, unless it is omitted, a string or a raw token
    (number, boolean, timestamp). *)

Inductive jval :=
| JStr (s : string)
| JRaw (t : string).

Definition jtext (j : jval) : string := match j with JStr s => json_string s | JRaw t => t end.
Definition member (f : string * option jval) : option string :=
  match f.2 with Some j => Some (key f.1 +:+ jtext j) | None => None end.

(** A member list after its first member, up to the closing brace. *)
Fixpoint rest_text (fs : list (string * option jval)) : string :=
  match fs with
  | [] => "}"
  | (n, None) :: fs' => rest_text fs'
  | (n, Some j) :: fs' => "," +:+ key n +:+ jtext j +:+ rest_text fs'
  end.

Definition omitted (v : string) : option jval := if bool_decide (v = "") then None else Some (JStr v).
Definition flag (b : bool) : option jval := if b then Some (JRaw "true") else None.

Definition fields_of (tm : string) (e : Entry) : list (string * option jval) :=
  [ ("time", Some (JRaw tm)); ("caller", Some (JStr (ae_Caller e))); ("host", Some (JStr (ae_Host e)));
    ("user", Some (JStr (ae_User e))); ("principal", Some (JStr (ae_Principal e)));
    ("command", Some (JStr (ae_Command e))); ("ttl", Some (JStr (ae_TTL e)));
    ("serial", Some (JRaw (FormatInt (ae_Serial e)))); ("session_id", omitted (ae_SessionID e));
    ("end_user_context", omitted (ae_EndUserContext e)); ("target_type", omitted (ae_TargetType e));
    ("body_sha256", omitted (ae_BodySHA256 e)); ("outcome", Some (JStr (ae_Outcome e)));
    ("exit_code", Some (JRaw (FormatInt (ae_ExitCode e)))); ("err", omitted (ae_Err e));
    ("elevation", omitted (ae_Elevation e)); ("pty", flag (ae_PTY e)); ("policy_rule", omitted (ae_PolicyRule e));
    ("dry_run", flag (ae_DryRun e)); ("warning", omitted (ae_Warning e)); ("approval_id", omitted (ae_ApprovalID e));
    ("approved_by", omitted (ae_ApprovedBy e)); ("approved_via", omitted (ae_ApprovedVia e));
    ("anomaly", omitted (ae_Anomaly e)); ("seq", Some (JRaw (FormatInt (ae_Seq e))));
    ("prev_hash", Some (JStr (ae_PrevHash e))); ("sig", Some (JStr (ae_Sig e))) ].

Lemma omit_str_member n v : omit_str n v = member (n, omitted v).
Proof. unfold omit_str, omitted. by case_bool_decide. Qed.
Lemma omit_bool_member n b : omit_bool n b = member (n, flag b).
Proof. by destruct b. Qed.

Lemma members_fields tm e : members tm e = map member (fields_of tm e).
Proof. unfold members, fields_of. rewrite !omit_str_member, !omit_bool_member. reflexivity. Qed.

Lemma Join_rest m fs : Join (m :: omap id (map member fs)) "," +:+ "}" = m +:+ rest_text fs.
Proof.
  revert m. induction fs as [|[n [j|]] fs IH]; intros m; [done| |apply IH].
  change (omap id (map member ((n, Some j) :: fs))) with ((key n +:+ jtext j) :: omap id (map member fs)).
  change (Join (m :: ?x :: ?l) ",") with (m +:+ "," +:+ Join (x :: l) ",").
  rewrite !String_append_assoc, IH. cbn [rest_text]. by rewrite !String_append_assoc.
Qed.

Lemma Join_first n j fs :
  "," +:+ Join (omap id (map member ((n, Some j) :: fs))) "," +:+ "}" = rest_text ((n, Some j) :: fs).
Proof.
  change (omap id (map member ((n, Some j) :: fs))) with ((key n +:+ jtext j) :: omap id (map member fs)).
  rewrite Join_rest. cbn [rest_text]. by rewrite String_append_assoc.
Qed.

(** ** Splitting at a delimiter *)

Definition starts (p : ascii → bool) (s : string) : Prop := match s with "" => False | String c _ => p c = true end.

Lemma delim_inj p a b x y :
  forall_char (fun c => negb (p c)) a = true → forall_char (fun c => negb (p c)) b = true →
  starts p x → starts p y → a +:+ x = b +:+ y → a = b ∧ x = y.
Proof.
  revert b. induction a as [|c a IH]; intros [|d b]; cbn [forall_char String.append]; intros Ha Hb Hx Hy E.
  - done.
  - subst x. cbn [starts] in Hx. by rewrite Hx in Hb.
  - subst y. cbn [starts] in Hy. by rewrite Hy in Ha.
  - apply andb_true_iff in Ha as [_ Ha], Hb as [_ Hb]. injection E as -> E. destruct (IH b Ha Hb Hx Hy E) as [-> ->]. done.
Qed.

Definition is_quote (c : ascii) : bool := ascii_eqb c (byte_chr 34).
Definition is_delim (c : ascii) : bool := ascii_eqb c ","%char || ascii_eqb c "}"%char.
Definition plain_name (n : string) : bool := forall_char (fun c => negb (is_quote c)) n.
Definition raw_text (t : string) : bool := forall_char (fun c => negb (is_delim c)) t.

Lemma comma_inj a b : "," +:+ a = "," +:+ b → a = b.
Proof. intros E. by injection E. Qed.

Lemma brace_inj a b : "{" +:+ a = "{" +:+ b → a = b.
Proof. intros E. by injection E. Qed.

Lemma key_inj n n' x y :
  plain_name n = true → plain_name n' = true → key n +:+ x = key n' +:+ y → n = n' ∧ x = y.
Proof.
  intros Hn Hn'. unfold key. rewrite !String_append_assoc. intros E. injection E as E.
  apply (delim_inj is_quote n n') in E as [-> E']; [by injection E' as ->|done..].
Qed.

Lemma rest_starts fs : starts is_delim (rest_text fs).
Proof. induction fs as [|[n [j|]] fs IH]; done. Qed.

(** ** Equal texts, equal fields *)

Definition like (j j' : jval) : Prop :=
  match j, j' with
  | JStr s, JStr s' => ValidString s = true ∧ ValidString s' = true
  | JRaw t, JRaw t' => raw_text t = true ∧ raw_text t' = true
  | _, _ => False
  end.
Definition like_field (f f' : string * option jval) : Prop :=
  f.1 = f'.1 ∧ match f.2, f'.2 with Some j, Some j' => like j j' | _, _ => True end.

Lemma json_string_inj s s' x y :
  ValidString s = true → ValidString s' = true → json_string s +:+ x = json_string s' +:+ y → s = s' ∧ x = y.
Proof.
  intros Hs Hs' E. unfold json_string in E. rewrite !String_append_assoc in E. injection E as E.
  assert (Er : read_body (escape s +:+ dq +:+ x) = read_body (escape s' +:+ dq +:+ y)) by (f_equal; exact E).
  rewrite !read_escape, !to_valid_id in Er by done. by injection Er.
Qed.

Lemma jtext_inj j j' fs fs' :
  like j j' → jtext j +:+ rest_text fs = jtext j' +:+ rest_text fs' → j = j' ∧ rest_text fs = rest_text fs'.
Proof.
  destruct j as [s|t], j' as [s'|t']; cbn [like jtext]; intros H E; try done; destruct H as [H H'].
  - destruct (json_string_inj _ _ _ _ H H' E) as [-> ->]. done.
  - destruct (delim_inj is_delim t t' _ _ H H' (rest_starts _) (rest_starts _) E) as [-> ->]. done.
Qed.

Lemma rest_first fs : rest_text fs = "}" ∨ ∃ n x, n ∈ map fst fs ∧ rest_text fs = "," +:+ key n +:+ x.
Proof.
  induction fs as [|[n [j|]] fs IH]; cbn [rest_text map fst]; [by left| |].
  - right. exists n, (jtext j +:+ rest_text fs). split; [by left|done].
  - destruct IH as [->|(n' & x & Hn & ->)]; [by left|right]. exists n', x. split; [by right|done].
Qed.

Lemma rest_absent n x fs :
  plain_name n = true → Forall (fun m => plain_name m = true) (map fst fs) → n ∉ map fst fs →
  "," +:+ key n +:+ x ≠ rest_text fs.
Proof.
  intros Hn Hall Hnin E. destruct (rest_first fs) as [E'|(m & y & Hm & E')]; rewrite E' in E; [done|].
  apply comma_inj, (key_inj n m) in E as [-> _]; [done|done|]. by eapply (proj1 (Forall_forall _ _) Hall).
Qed.

Lemma rest_inj fs fs' :
  Forall2 like_field fs fs' → Forall (fun m => plain_name m = true) (map fst fs) → NoDup (map fst fs) →
  rest_text fs = rest_text fs' → fs = fs'.
Proof.
  induction 1 as [|[n o] [n' o'] fs fs' [En Ho] Hall IH]; [done|]. cbn [fst snd] in *. subst n'.
  assert (Hnames : map fst fs = map fst fs').
  { clear IH. induction Hall as [|a b l l' [Ea _] _ IHl]; [done|]. simpl. by rewrite Ea, IHl. }
  cbn [map fst]. intros [Hn Hp]%Forall_cons [Hnin Hnd]%NoDup_cons E.
  destruct o as [j|], o' as [j'|]; cbn [rest_text] in E.
  - apply comma_inj in E. destruct (key_inj n n _ _ Hn Hn E) as [_ E']. destruct (jtext_inj _ _ _ _ Ho E') as [-> Er].
    by rewrite (IH Hp Hnd Er).
  - exfalso. rewrite Hnames in Hp, Hnin. by eapply rest_absent in E.
  - exfalso. symmetry in E. by eapply rest_absent in E.
  - by rewrite (IH Hp Hnd E).
Qed.

Section canonical.
Context `{TJ : TimeJSON}.

(** What is needed of timestamps: the text names the instant and holds no
    delimiter. *)
Definition time_text_canonical : Prop :=
  (∀ t t' s, time_MarshalJSON t = Some s → time_MarshalJSON t' = Some s → t = t') ∧
  ∀ t s, time_MarshalJSON t = Some s → raw_text s = true.

Lemma omitted_inj v v' : omitted v = omitted v' → v = v'.
Proof. unfold omitted. repeat case_bool_decide; intros E; congruence. Qed.
Lemma flag_inj b b' : flag b = flag b' → b = b'.
Proof. by destruct b, b'. Qed.

Lemma raw_FormatInt z : raw_text (FormatInt z) = true.
Proof.
  eapply forall_char_impl; [|apply FormatInt_chars]. intros [[] [] [] [] [] [] [] []]; done.
Qed.

Lemma like_omitted n v v' :
  ValidString v = true → ValidString v' = true → like_field (n, omitted v) (n, omitted v').
Proof. intros. split; [done|]. unfold omitted. by repeat case_bool_decide. Qed.
Lemma like_flag n b b' : like_field (n, flag b) (n, flag b').
Proof. split; [done|]. by destruct b, b'. Qed.

Lemma fields_like tm tm' e e' :
  raw_text tm = true → raw_text tm' = true → entry_valid e = true → entry_valid e' = true →
  Forall2 like_field (fields_of tm e) (fields_of tm' e').
Proof.
  intros Ht Ht'. unfold entry_valid. cbn [forallb all_fields free_fields metadataStringFields app get_field].
  rewrite !andb_true_iff. intros ? ?. destruct_and!.
  unfold fields_of. repeat (apply List.Forall2_cons;
    [first [by apply like_omitted|apply like_flag|split; [done|]; cbn [snd like]; auto using raw_FormatInt]|]).
  constructor.
Qed.

(** The text of a record determines it. *)
Lemma Marshal_inj e e' s :
  time_text_canonical → entry_valid e = true → entry_valid e' = true →
  Marshal e = Some s → Marshal e' = Some s → e = e'.
Proof.
  intros [Hinj Hraw] Hv Hv'. unfold Marshal.
  destruct (time_MarshalJSON (ae_Time e)) as [tm|] eqn:Ht; [|done].
  destruct (time_MarshalJSON (ae_Time e')) as [tm'|] eqn:Ht'; [|done]. intros E E'.
  apply (inj Some) in E as <-. apply (inj Some) in E' as E. rewrite !members_fields in E.
  pose proof (fields_like tm tm' e e' (Hraw _ _ Ht) (Hraw _ _ Ht') Hv Hv') as Hlike.
  assert (Hf : fields_of tm' e' = fields_of tm e).
  { symmetry. apply rest_inj; [exact Hlike|repeat constructor|apply (bool_decide_unpack _); vm_compute; exact I|]. 
    apply brace_inj, (f_equal (fun x => "," +:+ x)) in E. symmetry. unfold fields_of in E |- *. by rewrite !Join_first in E. }
  clear E Hlike. unfold fields_of in Hf. injection Hf. intros.
  repeat match goal with
  | H : omitted _ = omitted _ |- _ => apply omitted_inj in H
  | H : flag _ = flag _ |- _ => apply flag_inj in H
  | H : FormatInt _ = FormatInt _ |- _ => apply (inj (pretty : Z → string)) in H
  end.
  assert (ae_Time e = ae_Time e') by (apply (Hinj _ _ tm); congruence).
  clear Hinj Hraw Hv Hv' Ht Ht' Hf E'. destruct e, e'. simpl in *. by subst.
Qed.
End canonical.

(** Timestamps written as a number of nanoseconds. *)
Definition numeric_time : TimeJSON :=
  {| time_MarshalJSON t := Some (match t with Some z => FormatInt z | None => "null" end) |}.

Lemma numeric_time_canonical : @time_text_canonical numeric_time.
Proof.
  split.
  - assert (Hn : ∀ z, FormatInt z ≠ "null").
    { intros z E. pose proof (FormatInt_chars z) as H. by rewrite E in H. }
    intros [z|] [z'|] s; simpl; intros E E'; apply (inj Some) in E as <-; apply (inj Some) in E'; [|by symmetry in E'; apply Hn in E'|by apply Hn in E'|done].
    f_equal. by apply (inj (pretty : Z → string)).
  - intros [z|] s E; apply (inj Some) in E as <-; [apply raw_FormatInt|done].
Qed.
