(* ===== verification/AuditVerify.v ===== *)
(** * Reading an audit log

    [internal/audit/verify.go]: the line scanner, the chain verifier, segment
    bounds and the search for a corrupt tail. A file is its bytes. *)

From S2P Require Import Prelude GoStrings Encoding Crypto AuditEntry AuditCanonical.

Definition newline : ascii := byte_chr 10.
Definition carriage : ascii := byte_chr 13.

(** [json.Unmarshal] into an [Entry]. *)
Class EntryDecoder : Type := { Unmarshal : string → option Entry }.

(** ** Lines *)

(** [bufio.ScanLines] drops one trailing carriage return. *)
Fixpoint drop_cr (s : string) : string :=
  match s with
  | "" => ""
  | String c "" => if ascii_eqb c carriage then "" else s
  | String c s' => String c (drop_cr s')
  end.

(** The tokens of a scanner with a [readerBufferSize] buffer, and whether it
    stopped on a line too long for it. *)
Fixpoint scan_pieces (pieces : list string) : list string * bool :=
  match pieces with
  | [] => ([], false)
  | p :: rest =>
      if bool_decide (rest = []) && bool_decide (p = "") then ([], false)
      else if readerBufferSize <=? slen p then ([], true)
      else let '(lines, toolong) := scan_pieces rest in (drop_cr p :: lines, toolong)
  end.
Definition scan (data : string) : list string * bool := scan_pieces (Split data newline).

Definition isBlankLine (b : string) : bool := bool_decide (TrimSpace b = "").

Section reading.
Context `{TJ : TimeJSON} `{ED : Ed25519} `{SH : Sha256} `{DE : EntryDecoder}.

Definition line_hash (line : string) : string := hex_EncodeToString (Sum256 line).

(** ** The chain *)

Record verify_state := mkVS {
  vs_prevHash : string;
  vs_prevSeq : Z;
  vs_first : bool;
  vs_total : Z;
  vs_malformed : Z;
  vs_errs : Z;
  vs_kept : list Entry;
}.

Definition count (b : bool) : Z := if b then 1 else 0.

(** One line; [None] is the panic of a key of the wrong size. *)
Definition verify_line (pub : option string) (st : verify_state) (line : string) : option verify_state :=
  if isBlankLine line then Some st
  else
    match Unmarshal line with
    | None =>
        Some (mkVS (vs_prevHash st) (vs_prevSeq st) (vs_first st) (vs_total st) (vs_malformed st + 1)
                (vs_errs st + 1) (vs_kept st))
    | Some e =>
        let badSeq := negb (vs_first st) && negb (ae_Seq e =? (vs_prevSeq st + 1) mod 2 ^ 64) in
        let badHash := negb (vs_first st) && bool_decide (ae_PrevHash e ≠ vs_prevHash st) in
        match (match pub with Some pub => VerifyEntry e pub | None => Ok () end) with
        | Err EAuditPanic => None
        | sig =>
            let badSig := negb (is_ok sig) in
            let good := negb badSeq && negb badHash && negb badSig in
            Some (mkVS (line_hash line) (ae_Seq e) false (vs_total st + 1) (vs_malformed st)
                    (vs_errs st + count badSeq + count badHash + count badSig)
                    (if good then vs_kept st ++ [e] else vs_kept st))
        end
    end.

Fixpoint verify_lines (pub : option string) (st : verify_state) (lines : list string) : option verify_state :=
  match lines with
  | [] => Some st
  | l :: lines' => st' ← verify_line pub st l; verify_lines pub st' lines'
  end.

Definition verify_init : verify_state := mkVS "" 0 true 0 0 0 [].

Definition verify (data : string) (pub : option string) : option verify_state :=
  let '(lines, toolong) := scan data in
  st ← verify_lines pub verify_init lines;
  Some (mkVS (vs_prevHash st) (vs_prevSeq st) (vs_first st) (vs_total st) (vs_malformed st)
          (vs_errs st + count toolong) (vs_kept st)).

Definition Verify (data : string) (pub : option string) : option (Z * Z) :=
  st ← verify data pub; Some (vs_total st, vs_errs st).

(** [(ok, skipped, errs)]. *)
Definition VerifyEntries (data : string) (pub : option string) : option (list Entry * Z * Z) :=
  st ← verify data pub;
  Some (vs_kept st, vs_total st + vs_malformed st - Z.of_nat (length (vs_kept st)), vs_errs st).

(** ** Bounds of a segment *)

Inductive bounds_error := EParseFirst | EScan | ErrEmptySegment.

Fixpoint bounds_loop (first : option string) (last : string) (lines : list string) :
    result bounds_error (option string * string) :=
  match lines with
  | [] => Ok (first, last)
  | l :: lines' =>
      if isBlankLine l then bounds_loop first last lines'
      else
        match first with
        | Some _ => bounds_loop first (line_hash l) lines'
        | None =>
            match Unmarshal l with
            | None => Err EParseFirst
            | Some e => bounds_loop (Some (ae_PrevHash e)) (line_hash l) lines'
            end
        end
  end.

Definition FileBounds (data : string) : result bounds_error (string * string) :=
  let '(lines, toolong) := scan data in
  let! (first, last) := bounds_loop None "" lines in
  if toolong then Err EScan
  else match first with None => Err ErrEmptySegment | Some f => Ok (f, last) end.

(** ** Corrupt tails *)

Record tail_state := mkTS {
  ts_cleanEnd : Z;
  ts_lastGoodSeq : Z;
  ts_goodCount : Z;
  ts_offset : Z;
  ts_sawBad : bool;
  ts_middle : bool;
}.

(** [bytes.TrimRight(line, "\r")]. *)
Fixpoint trim_cr (s : string) : string :=
  match s with
  | "" => ""
  | String c s' => match trim_cr s' with
                   | "" => if ascii_eqb c carriage then "" else String c ""
                   | t => String c t
                   end
  end.

(** [len] counts the newline of a terminated line. *)
Definition tail_line (st : tail_state) (line : string) (len : Z) : tail_state :=
  let off' := ts_offset st + len in
  if isBlankLine line then mkTS (ts_cleanEnd st) (ts_lastGoodSeq st) (ts_goodCount st) off' (ts_sawBad st) (ts_middle st)
  else
    match Unmarshal (trim_cr line) with
    | Some e =>
        if ts_sawBad st
        then mkTS (ts_cleanEnd st) (ts_lastGoodSeq st) (ts_goodCount st) off' true true
        else mkTS off' (ae_Seq e) (ts_goodCount st + 1) off' false (ts_middle st)
    | None => mkTS (ts_cleanEnd st) (ts_lastGoodSeq st) (ts_goodCount st) off' true (ts_middle st)
    end.

(** The loop over [data[offset:]]; the last piece has no newline, and an empty
    one is the end of the data. *)
Fixpoint tail_loop (st : tail_state) (pieces : list string) : tail_state :=
  match pieces with
  | [] => st
  | [p] => if bool_decide (p = "") then st else tail_line st p (slen p)
  | p :: rest => tail_loop (tail_line st p (slen p + 1)) rest
  end.

(** [(cleanEnd, lastGoodSeq, goodCount, corruptTail, middleCorruption)]. *)
Definition TrailingCorruption (data : string) : Z * Z * Z * string * bool :=
  let st := tail_loop (mkTS 0 0 0 0 false false) (Split data newline) in
  (ts_cleanEnd st, ts_lastGoodSeq st, ts_goodCount st,
   if ts_sawBad st && negb (ts_middle st) then sdrop (Z.to_nat (ts_cleanEnd st)) data else "",
   ts_middle st).
End reading.

(** ** Tamper evidence *)

Section tamper.
Context `{TJ : TimeJSON} `{ED : Ed25519} `{SH : Sha256} `{DE : EntryDecoder}.

(** The record a signature covers. *)
Definition signed_part (e : Entry) : Entry := set_chain (ae_Time e) (ae_Seq e) (ae_PrevHash e) "" e.

Definition records (data : string) : list string := List.filter (fun l => negb (isBlankLine l)) (scan data).1.

(** Each line parses, is signed, and names its predecessor. *)
Fixpoint links (pub : string) (prev : option string) (lines : list string) : Prop :=
  match lines with
  | [] => True
  | l :: lines' =>
      ∃ e, Unmarshal l = Some e ∧ VerifyEntry e pub = Ok () ∧
        (∀ h, prev = Some h → ae_PrevHash e = h) ∧ links pub (Some (line_hash l)) lines'
  end.

Lemma verify_lines_errs pub st lines st' :
  verify_lines pub st lines = Some st' → vs_errs st ≤ vs_errs st'.
Proof.
  revert st. induction lines as [|l lines IH]; intros st; cbn [verify_lines]; [by intros [= <-]|].
  intros (st1 & H1 & H2)%bind_Some. apply IH in H2. etransitivity; [|exact H2]. clear H2 IH.
  assert (Hc : ∀ b, 0 ≤ count b) by (intros []; done). revert H1. unfold verify_line.
  destruct (isBlankLine l); [by intros [= <-]|]. destruct (Unmarshal l) as [e|]; [|intros [= <-]; simpl; lia].
  destruct (match pub with Some _ => _ | None => _ end) as [[]|[]]; intros H1; try done; injection H1 as <-; cbn [vs_errs];
    repeat match goal with |- context [count ?b] => generalize (Hc b); generalize (count b); intros ? ? end; lia.
Qed.

Lemma verify_lines_links pub st lines st' :
  verify_lines (Some pub) st lines = Some st' → vs_errs st' = vs_errs st →
  links pub (if vs_first st then None else Some (vs_prevHash st)) (List.filter (fun l => negb (isBlankLine l)) lines).
Proof.
  revert st. induction lines as [|l lines IH]; intros st; cbn [verify_lines List.filter]; [done|].
  intros (st1 & H1 & H2)%bind_Some Herr. pose proof (verify_lines_errs _ _ _ _ H2) as Hmono.
  revert H1. unfold verify_line. destruct (isBlankLine l); cbn [negb].
  { intros [= <-]. by apply IH. }
  destruct (Unmarshal l) as [e|] eqn:He; [|intros [= <-]; simpl in *; lia].
  destruct (VerifyEntry e pub) as [[]|err] eqn:Hv.
  - intros [= <-]. cbn [links]. cbn [vs_errs is_ok negb count] in Hmono.
    set (badSeq := negb (vs_first st) && _) in *. set (badHash := negb (vs_first st) && bool_decide _) in *.
    assert (Hbad : badSeq = false ∧ badHash = false) by (destruct badSeq, badHash; simpl in *; split; done || lia).
    exists e. split; [done|]. split; [done|]. split.
    + destruct (vs_first st) eqn:Hf; [done|]. intros h [= <-]. destruct Hbad as [_ Hb]. unfold badHash in Hb. simpl in Hb.
      unbool. by apply dec_stable.
    + apply (IH _ H2). rewrite Herr. cbn [vs_errs is_ok negb count]. destruct Hbad as [-> ->]. simpl. lia.
  - assert (Hc : ∀ b, 0 ≤ count b) by (intros []; done).
    destruct err; intros H1; try done; injection H1 as <-; exfalso; cbn [vs_errs is_ok negb] in Hmono;
      change (count true) with 1 in Hmono; rewrite Herr in Hmono; revert Hmono;
      repeat match goal with |- context [count ?b] => generalize (Hc b); generalize (count b); intros ? ? end; lia.
Qed.

(** The log as it was written: each record names the one before it. *)
Definition written_chain (written : list string) : Prop :=
  ∀ A w B e, written = A ++ w :: B → Unmarshal w = Some e →
    ae_PrevHash e = match last A with Some v => line_hash v | None => "" end.

(** Same content, whatever the signature bytes and the spelling of the JSON. *)
Definition same_record (l w : string) : Prop :=
  ∃ e e', Unmarshal l = Some e ∧ Unmarshal w = Some e' ∧ signed_part e = signed_part e'.

(** [lines] are consecutive lines of the log, byte for byte but for the last,
    which has the content of the written one. *)
Definition run_of (lines written : list string) : Prop :=
  ∃ A init lst w B, lines = init ++ [lst] ∧ written = A ++ init ++ w :: B ∧ same_record lst w.

(** What the reader is taken to have: strings it decodes are valid UTF-8, as
    [encoding/json] makes them, a timestamp is written unambiguously, and among
    the lines at hand no two share a digest. *)
Definition decodes_valid : Prop := ∀ s e, Unmarshal s = Some e → entry_valid e = true.
Definition no_collision (lines : list string) : Prop :=
  (∀ a b, a ∈ lines → b ∈ lines → Sum256 a = Sum256 b → a = b) ∧ ∀ a, a ∈ lines → Sum256 a ≠ "".

(** No signature in [lines] was made by anyone but the log: its content is that
    of a written record. *)
Definition unforged (pub : string) (lines written : list string) : Prop :=
  ∀ l e m sig, l ∈ lines → Unmarshal l = Some e → StdDecode (ae_Sig e) = Some sig →
    Marshal (signed_part e) = Some m → ed_check pub m sig = true →
    ∃ w e', w ∈ written ∧ Unmarshal w = Some e' ∧ Marshal (signed_part e') = Some m.

Lemma line_hash_inj a b : line_hash a = line_hash b → Sum256 a = Sum256 b.
Proof. apply hex_EncodeToString_inj. Qed.

Lemma line_hash_nonempty a : Sum256 a ≠ "" → line_hash a ≠ "".
Proof. unfold line_hash. intros Hne H. apply Hne, hex_EncodeToString_inj. by rewrite H. Qed.

Lemma signed_part_valid e : entry_valid e = true → entry_valid (signed_part e) = true.
Proof. unfold entry_valid, signed_part. cbn [set_chain ae_Outcome ae_PrevHash ae_Sig]. rewrite !andb_true_iff. intros [[[? ?] ?] ?]. split_and!; done. Qed.

Lemma VerifyEntry_signed e pub :
  VerifyEntry e pub = Ok () →
  ∃ sig m, StdDecode (ae_Sig e) = Some sig ∧ Marshal (signed_part e) = Some m ∧ ed_check pub m sig = true.
Proof.
  unfold VerifyEntry. destruct (StdDecode (ae_Sig e)) as [sig|]; [|done]. fold (signed_part e).
  destruct (Marshal (signed_part e)) as [m|]; [|done]. unfold ed25519_Verify. destruct (_ =? _)%nat; [|done].
  destruct (ed_check pub m sig) eqn:Hc; [|done]. eauto.
Qed.

Lemma links_run pub written prev l lines :
  time_text_canonical → decodes_valid → no_collision ((l :: lines) ++ written) →
  unforged pub (l :: lines) written → written_chain written →
  links pub prev (l :: lines) → run_of (l :: lines) written.
Proof.
  intros Htime Hdec [Hcol Hne] Hforge Hw. revert prev l Hcol Hne Hforge.
  induction lines as [|l2 lines IH]; intros prev l Hcol Hne Hforge (e & He & Hv & _ & Hrest).
  - destruct (VerifyEntry_signed _ _ Hv) as (sig & m & Hsig & Hm & Hc).
    destruct (Hforge l e m sig ltac:(by left) He Hsig Hm Hc) as (w & e' & Hin & He' & Hm').
    apply list_elem_of_split in Hin as (A & B & ->).
    exists A, [], l, w, B. split; [done|]. split; [done|]. exists e, e'. split; [done|]. split; [done|].
    eapply Marshal_inj; eauto using signed_part_valid.
  - assert (Hsub : ∀ x, x ∈ (l2 :: lines) ++ written → x ∈ (l :: l2 :: lines) ++ written) by (intros x; simpl; by right).
    destruct (IH (Some (line_hash l)) l2) as (A & init & lst & w & B & El & Ew & Hs);
      [intros; apply Hcol; auto|intros; apply Hne; auto|intros ? ? ? ? Hin; apply Hforge; by right|exact Hrest|].
    destruct Hrest as (e2 & He2 & _ & Hp2 & _). specialize (Hp2 _ eq_refl).
    assert (Hhd : ∃ v C e3, init ++ w :: B = v :: C ∧ Unmarshal v = Some e3 ∧ ae_PrevHash e3 = line_hash l).
    { destruct init as [|i init]; simplify_eq/=.
      - destruct Hs as (a & b & Ha & Hb & Es). assert (a = e2) as -> by congruence.
        exists w, B, b. split; [done|]. split; [done|]. apply (f_equal ae_PrevHash) in Es. simpl in Es. congruence.
      - eexists _, _, e2. done. }
    destruct Hhd as (v & C & e3 & Ev & He3 & Hp3). rewrite Ev in Ew.
    specialize (Hw A v C e3 Ew He3). rewrite Hp3 in Hw.
    destruct (last A) as [u|] eqn:HA; [|by apply line_hash_nonempty in Hw; [|apply Hne; by left]].
    apply last_Some in HA as [A' ->]. apply line_hash_inj, Hcol in Hw as ->; [|by left|rewrite Ew, !elem_of_app; right; left; right; by left].
    exists A', (u :: init), lst, w, B. split; [by rewrite El|]. split; [|done].
    rewrite Ew, <-Ev. by rewrite <-app_assoc.
Qed.

(** [C31] An accepted log cannot have been edited: when verification of a file
    against the audit key reports no problem, the lines of the file are
    consecutive lines of the log as it was written, byte for byte, except that the
    last one may be spelled differently with the same signed content. Removing a
    record from the middle, inserting, reordering or changing any record is
    reported. This needs that the signatures in the file were made by the log and
    that no two of the lines have the same digest. *)
Theorem verify_tamper_evident pub written data st :
  time_text_canonical → decodes_valid →
  no_collision (records data ++ written) → unforged pub (records data) written → written_chain written →
  verify data (Some pub) = Some st → vs_errs st = 0 →
  records data = [] ∨ run_of (records data) written.
Proof.
  intros Htime Hdec Hcol Hforge Hw Hv Herr. unfold verify, records in *. destruct (scan data) as [lines toolong].
  apply bind_Some in Hv as (st1 & H1 & [= <-]). cbn [vs_errs fst] in *.
  pose proof (verify_lines_errs _ _ _ _ H1) as Hmono. change (vs_errs verify_init) with 0 in Hmono.
  assert (Hz : vs_errs st1 = 0) by (destruct toolong; cbn [count] in Herr; lia).
  pose proof (verify_lines_links pub verify_init lines st1 H1 Hz) as Hl.
  destruct (List.filter _ lines) as [|l ls]; [by left|right]. by eapply links_run.
Qed.
End tamper.

(** ** A log of two records *)

Definition demo_hash : Sha256 := {| Sum256 s := s |}.
Definition demo_record (seq : Z) (prev : string) : Entry :=
  match @seal_entry numeric_time plain_ed25519 "k" (Some seq) seq prev (sample_entry "web1" "") with
  | Some e => e
  | None => sample_entry "" ""
  end.
Definition demo_line (e : Entry) : string := match @Marshal numeric_time e with Some s => s | None => "" end.
Definition demo_1 : Entry := demo_record 1 "".
Definition demo_2 : Entry := demo_record 2 (@line_hash demo_hash (demo_line demo_1)).
Definition demo_log : list string := [demo_line demo_1; demo_line demo_2].
Definition demo_file : string := Join (demo_log ++ [""]) (String newline "").
Definition demo_decoder : EntryDecoder :=
  {| Unmarshal s := if bool_decide (s = demo_line demo_1) then Some demo_1
                    else if bool_decide (s = demo_line demo_2) then Some demo_2 else None |}.

Lemma demo_records : records demo_file = demo_log.
Proof. vm_compute. reflexivity. Qed.
Lemma demo_decode e s : @Unmarshal demo_decoder s = Some e → (s = demo_line demo_1 ∧ e = demo_1) ∨ (s = demo_line demo_2 ∧ e = demo_2).
Proof. unfold Unmarshal, demo_decoder. repeat case_bool_decide; intros E; [left|right|done]; (split; [done|congruence]). Qed.
Lemma split_two {A : Type} (x y w : A) K B : [x; y] = K ++ w :: B → (K = [] ∧ w = x) ∨ (K = [x] ∧ w = y).
Proof. destruct K as [|a [|b [|c K]]]; intros E; simplify_list_eq; auto. Qed.
Lemma demo_chain : @written_chain demo_hash demo_decoder demo_log.
Proof.
  assert (Hne : demo_line demo_1 ≠ demo_line demo_2) by (apply (bool_decide_unpack _); vm_compute; exact I).
  intros K w B e [[-> ->]|[-> ->]]%split_two [[E ->]|[E ->]]%demo_decode; cbn [last];
    [|by apply Hne in E|by symmetry in E; apply Hne in E|]; vm_compute; reflexivity.
Qed.

Definition demo_state : verify_state :=
  match @verify numeric_time plain_ed25519 demo_hash demo_decoder demo_file (Some sample_pub) with
  | Some st => st
  | None => verify_init
  end.

Lemma verify_tamper_evident_witness :
  vs_errs demo_state = 0 ∧ vs_total demo_state = 2 ∧
  (records demo_file = [] ∨ @run_of demo_decoder (records demo_file) demo_log).
Proof.
  split; [vm_compute; reflexivity|]. split; [vm_compute; reflexivity|].
  apply (@verify_tamper_evident numeric_time plain_ed25519 demo_hash demo_decoder sample_pub demo_log demo_file demo_state).
  - exact numeric_time_canonical.
  - intros s e [[_ ->]|[_ ->]]%demo_decode; vm_compute; reflexivity.
  - rewrite demo_records. split; [done|]. intros a Ha. apply elem_of_app in Ha.
    assert (Hin : a ∈ demo_log) by tauto. repeat (apply elem_of_cons in Hin as [->|Hin]); [by vm_compute..|by apply elem_of_nil in Hin].
  - rewrite demo_records. intros l e m sig Hl He _ Hm _. exists l, e. done.
  - exact demo_chain.
  - vm_compute. reflexivity.
  - vm_compute. reflexivity.
Defined.
