(* ===== verification/AuditTime.v ===== *)
(** * Segment names

    [internal/audit/log.go] names a rotated segment after the second of its
    rotation, with a numeric suffix for several in one second, and recognises and
    orders segments by that name ([verify.go], [segmentOrder]). Here are
    [time.Format] and [time.Parse] for that layout, over the Gregorian calendar. *)

From stdpp Require Import pretty.
From S2P Require Import Prelude GoStrings Encoding.

(** ** Decimal numbers *)

Definition digit_char (z : Z) : ascii := byte_chr (48 + z).
Definition digit_value (c : ascii) : Z := byte_of c - 48.

(** The [n] low-order decimal digits. *)
Fixpoint pad (n : nat) (z : Z) : string :=
  match n with O => "" | S k => pad k (z / 10) +:+ String (digit_char (z mod 10)) "" end.

Fixpoint dec_acc (acc : Z) (s : string) : Z :=
  match s with "" => acc | String c s' => dec_acc (acc * 10 + digit_value c) s' end.

(** [strconv.Atoi] of a string of digits: out of range, the largest [int]. *)
Definition Atoi (s : string) : Z := Z.min (dec_acc 0 s) (2 ^ 63 - 1).

(** Byte order on strings. *)
Fixpoint str_ltb (a b : string) : bool :=
  match a, b with
  | _, "" => false
  | "", String _ _ => true
  | String c a', String d b' => (byte_of c <? byte_of d) || ((byte_of c =? byte_of d) && str_ltb a' b')
  end.

(** ** The calendar *)

Definition leap (y : Z) : bool := (y mod 4 =? 0) && (negb (y mod 100 =? 0) || (y mod 400 =? 0)).
Definition daysIn (m y : Z) : Z :=
  if m =? 2 then (if leap y then 29 else 28) else if (m =? 4) || (m =? 6) || (m =? 9) || (m =? 11) then 30 else 31.

(** Year and day of year of a day of a 400-year era; years start on 1 March, so
    that the leap day is the last of a year. *)
Definition era_year (doe : Z) : Z * Z :=
  let n100 := Z.min 3 (doe / 36524) in
  let r100 := doe - n100 * 36524 in
  let n4 := r100 / 1461 in
  let r4 := r100 - n4 * 1461 in
  let n1 := Z.min 3 (r4 / 365) in
  (n100 * 100 + n4 * 4 + n1, r4 - n1 * 365).

(** Month, day, and whether the calendar year is the next one. *)
Definition year_day (doy : Z) : Z * Z * bool :=
  let mp := (5 * doy + 2) / 153 in
  let m := if mp <? 10 then mp + 3 else mp - 9 in
  (m, doy - (153 * mp + 2) / 5 + 1, m <=? 2).

Definition era_date (doe : Z) : Z * Z * Z :=
  let '(y, doy) := era_year doe in
  let '(m, d, next) := year_day doy in (y + (if next then 1 else 0), m, d).

(** Of a day counted from 1 January 1970. *)
Definition civil (day : Z) : Z * Z * Z :=
  let z := day + 719468 in
  let '(y, m, d) := era_date (z mod 146097) in (y + z / 146097 * 400, m, d).

(** ** The layout [20060102T150405Z] *)

Definition year_text (y : Z) : string :=
  let wide y := if y <? 10000 then pad 4 y else FormatInt y in
  if y <? 0 then "-" +:+ wide (- y) else wide y.

Definition Format (t : time) : string :=
  let s := Unix t in
  let '(y, m, d) := civil (s / 86400) in
  let r := s mod 86400 in
  year_text y +:+ pad 2 m +:+ pad 2 d +:+ "T" +:+ pad 2 (r / 3600) +:+ pad 2 (r / 60 mod 60) +:+ pad 2 (r mod 60) +:+ "Z".

(** [n] digits, their value and what follows. *)
Fixpoint get_num (n : nat) (acc : Z) (s : string) : option (Z * string) :=
  match n, s with
  | O, _ => Some (acc, s)
  | S n', String c s' => if is_digit c then get_num n' (acc * 10 + digit_value c) s' else None
  | S _, "" => None
  end.

Definition skip_char (c : ascii) (s : string) : option string :=
  match s with String d s' => if ascii_eqb c d then Some s' else None | "" => None end.

Fixpoint skip_digits (s : string) : string :=
  match s with String c s' => if is_digit c then skip_digits s' else s | "" => "" end.

(** Fractional seconds are accepted although the layout has none. *)
Definition skip_fraction (s : string) : string :=
  match s with
  | String c (String d s') =>
      if (ascii_eqb c ","%char || ascii_eqb c "."%char) && is_digit d then skip_digits s' else s
  | _ => s
  end.

(** Whether [time.Parse] accepts the text. *)
Definition Parse (s : string) : bool :=
  match
    ('(y, s) ← get_num 4 0 s; '(m, s) ← get_num 2 0 s; '(d, s) ← get_num 2 0 s; s ← skip_char "T" s;
     '(h, s) ← get_num 2 0 s; '(mi, s) ← get_num 2 0 s; '(sec, s) ← get_num 2 0 s;
     s ← skip_char "Z" (skip_fraction s);
     Some ((1 <=? m) && (m <=? 12) && (1 <=? d) && (d <=? daysIn m y) && (h <? 24) && (mi <? 60) && (sec <? 60)
           && bool_decide (s = "")))
  with Some b => b | None => false end.

(** ** Segment names *)

Definition maxSegmentCollisions : Z := 10000.

Definition isRotatedSegment (suffix : string) : bool :=
  let '(ts, tail, dot) := Cut suffix "."%char in
  if dot then bool_decide (tail ≠ "") && forall_char is_digit tail && Parse ts else Parse suffix.

Definition segmentOrder (prefix path : string) : string * Z :=
  let suffix := TrimPrefix path prefix in
  let '(ts, tail, dot) := Cut suffix "."%char in
  if dot then (ts, Atoi tail) else (suffix, 0).

Definition segment_before (prefix p q : string) : bool :=
  let '(tp, np) := segmentOrder prefix p in
  let '(tq, nq) := segmentOrder prefix q in
  if bool_decide (tp ≠ tq) then str_ltb tp tq else np <? nq.

(** Name number [n] for second [t]. *)
Definition segment_name (logPath : string) (t : time) (n : Z) : string :=
  logPath +:+ "." +:+ Format t +:+ (if n =? 0 then "" else "." +:+ FormatInt n).

(** The first name that [os.Stat] does not find, the plain one when all are taken. *)
Fixpoint free_name (stat : string → bool) (logPath : string) (t : time) (n : Z) (fuel : nat) : string :=
  match fuel with
  | O => segment_name logPath t 0
  | S fuel' => let c := segment_name logPath t n in if stat c then free_name stat logPath t (n + 1) fuel' else c
  end.
Definition rotatedSegmentPath (stat : string → bool) (logPath : string) (t : time) : string :=
  free_name stat logPath t 0 (S (Z.to_nat maxSegmentCollisions)).

(** ** Every day of an era *)

Lemma era_year_step doe y k y' k' :
  0 ≤ doe → doe + 1 < 146097 → era_year doe = (y, k) → era_year (doe + 1) = (y', k') →
  (y' = y ∧ k' = k + 1) ∨ (y' = y + 1 ∧ k' = 0).
Proof.
  unfold era_year. intros H0 H1 E E'. injection E as <- <-. injection E' as <- <-. Z.to_euclidean_division_equations. lia.
Qed.

Lemma era_year_bounds doe y k :
  0 ≤ doe < 146097 → era_year doe = (y, k) → 0 ≤ y < 400 ∧ 0 ≤ k ≤ 365 ∧ (k = 365 → leap (y + 1) = true).
Proof.
  unfold era_year. intros H E. injection E as <- <-. split; [|split].
  1,2: Z.to_euclidean_division_equations; lia.
  intros Hk. unfold leap. apply andb_true_iff. rewrite orb_true_iff, negb_true_iff, Z.eqb_neq, !Z.eqb_eq.
  Z.to_euclidean_division_equations. lia.
Qed.

(** The days of a year, by cases. *)
Definition day_ok (doy : Z) : bool :=
  let '(m, d, next) := year_day doy in
  (1 <=? m) && (m <=? 12) && (1 <=? d) && (if doy =? 365 then (m =? 2) && (d =? 29) else d <=? daysIn m 1) && Bool.eqb next (m <=? 2).
Definition doy_key (doy : Z) : Z := let '(m, d, next) := year_day doy in (if next then 10000 else 0) + (m * 100 + d).

Lemma upto (f : Z → bool) n x :
  forallb f (map Z.of_nat (List.seq 0 n)) = true → 0 ≤ x < Z.of_nat n → f x = true.
Proof.
  intros H Hx. rewrite forallb_forall in H. apply H. apply in_map_iff. exists (Z.to_nat x). split; [lia|]. apply in_seq. lia.
Qed.

Lemma day_checked doy : 0 ≤ doy ≤ 365 → day_ok doy = true.
Proof. intros H. apply (upto day_ok 366); [vm_compute; reflexivity|lia]. Qed.
Lemma doy_key_step doy : 0 ≤ doy < 365 → doy_key doy < doy_key (doy + 1).
Proof.
  intros H. apply Z.ltb_lt, (upto (fun x => doy_key x <? doy_key (x + 1)) 365); [vm_compute; reflexivity|lia].
Qed.
Lemma doy_key_wrap doy : 0 ≤ doy ≤ 365 → doy_key doy < 10000 + doy_key 0.
Proof.
  intros H. apply Z.ltb_lt, (upto (fun x => doy_key x <? 10000 + doy_key 0) 366); [vm_compute; reflexivity|lia].
Qed.

Definition date_key (y m d : Z) : Z := y * 10000 + (m * 100 + d).
Definition era_key (doe : Z) : Z := let '(y, m, d) := era_date doe in date_key y m d.

Lemma era_key_split doe y k : era_year doe = (y, k) → era_key doe = y * 10000 + doy_key k.
Proof.
  intros E. unfold era_key, era_date, doy_key. rewrite E. destruct (year_day k) as [[m d] []]; unfold date_key; lia.
Qed.

Lemma era_key_step doe : 0 ≤ doe → doe + 1 < 146097 → era_key doe < era_key (doe + 1).
Proof.
  intros H0 H1. destruct (era_year doe) as [y k] eqn:E, (era_year (doe + 1)) as [y' k'] eqn:E'.
  rewrite (era_key_split _ _ _ E), (era_key_split _ _ _ E').
  destruct (era_year_bounds doe y k ltac:(lia) E) as (_ & Hk & _), (era_year_bounds (doe + 1) y' k' ltac:(lia) E') as (_ & Hk' & _).
  destruct (era_year_step _ _ _ _ _ H0 H1 E E') as [[-> ->]|[-> ->]].
  - pose proof (doy_key_step k ltac:(lia)). lia.
  - pose proof (doy_key_wrap k Hk). lia.
Qed.

Lemma daysIn_le m y : daysIn m y ≤ 31.
Proof. unfold daysIn. repeat case_match; lia. Qed.
Lemma daysIn_common m y : daysIn m 1 ≤ daysIn m y.
Proof. unfold daysIn. change (leap 1) with false. repeat case_match; lia. Qed.

Lemma era_date_ok doe y m d :
  0 ≤ doe < 146097 → era_date doe = (y, m, d) → 1 ≤ m ≤ 12 ∧ 1 ≤ d ≤ daysIn m y.
Proof.
  intros H. unfold era_date. destruct (era_year doe) as [y0 k] eqn:E.
  destruct (era_year_bounds _ _ _ H E) as (_ & Hk & Hleap). pose proof (day_checked k Hk) as Hc. unfold day_ok in Hc.
  destruct (year_day k) as [[m0 d0] next]. intros E'. injection E' as <- <- <-.
  repeat (apply andb_true_iff in Hc as [Hc ?]). apply eqb_prop in H0 as ->. unbool. destruct (k =? 365) eqn:Ek; unbool.
  - subst m0 d0. unfold daysIn. simpl. rewrite Hleap by done. lia.
  - pose proof (daysIn_common m0 (y0 + (if m0 <=? 2 then 1 else 0))). lia.
Qed.

Lemma daysIn_period m y k : daysIn m (y + k * 400) = daysIn m y.
Proof.
  assert (H : leap (y + k * 400) = leap y).
  { unfold leap. rewrite Z_mod_plus_full, <-(Z_mod_plus_full y (k * 4) 100), <-(Z_mod_plus_full y (k * 100) 4).
    by replace (y + k * 4 * 100) with (y + k * 400) by lia; replace (y + k * 100 * 4) with (y + k * 400) by lia. }
  unfold daysIn. by rewrite H.
Qed.

Lemma civil_valid day y m d :
  civil day = (y, m, d) → 1 ≤ m ≤ 12 ∧ 1 ≤ d ≤ daysIn m y ∧ d ≤ 31.
Proof.
  unfold civil. destruct (era_date _) as [[y0 m0] d0] eqn:E. intros E'. injection E' as <- <- <-.
  apply era_date_ok in E; [|apply Z.mod_pos_bound; lia]. rewrite daysIn_period. pose proof (daysIn_le m0 y0). lia.
Qed.

Definition day_key (day : Z) : Z := let '(y, m, d) := civil day in date_key y m d.

Lemma day_key_step day : day_key day < day_key (day + 1).
Proof.
  unfold day_key, civil. replace (day + 1 + 719468) with (day + 719468 + 1) by lia. set (z := day + 719468).
  pose proof (Z.mod_pos_bound z 146097 ltac:(lia)) as Hb. pose proof (Z.div_mod z 146097 ltac:(lia)) as Hd.
  assert (Hk : ∀ x k, (let '(y, m, d) := (let '(y, m, d) := era_date x in (y + k * 400, m, d)) in date_key y m d) = era_key x + k * 4000000).
  { intros x k. unfold era_key. destruct (era_date x) as [[y m] d]. unfold date_key. lia. }
  rewrite !Hk. destruct (decide (z mod 146097 = 146096)) as [Hl|Hl].
  - rewrite <-(Z.mod_unique (z + 1) 146097 (z / 146097 + 1) 0), <-(Z.div_unique (z + 1) 146097 (z / 146097 + 1) 0) by lia.
    rewrite Hl. change (era_key 146096) with 4000229. change (era_key 0) with 301. lia.
  - rewrite <-(Z.mod_unique (z + 1) 146097 (z / 146097) (z mod 146097 + 1)),
      <-(Z.div_unique (z + 1) 146097 (z / 146097) (z mod 146097 + 1)) by lia.
    pose proof (era_key_step (z mod 146097)). lia.
Qed.

Lemma day_key_mono a b : a < b → day_key a < day_key b.
Proof.
  intros H. replace b with (a + 1 + Z.of_nat (Z.to_nat (b - a - 1))) by lia.
  induction (Z.to_nat (b - a - 1)) as [|n IH]; [rewrite Z.add_0_r; apply day_key_step|].
  etransitivity; [exact IH|]. replace (a + 1 + Z.of_nat (S n)) with (a + 1 + Z.of_nat n + 1) by lia. apply day_key_step.
Qed.

(** ** Fixed-width numbers *)

Lemma byte_digit z : 0 ≤ z < 10 → is_digit (digit_char z) = true ∧ digit_value (digit_char z) = z.
Proof.
  intros H. assert (Hb : byte_of (digit_char z) = 48 + z).
  { unfold digit_char, byte_of, byte_chr. rewrite nat_ascii_embedding; lia. }
  unfold is_digit, in_range, digit_value. rewrite Hb, andb_true_iff, !Z.leb_le. lia.
Qed.

Lemma pad_length n z : String.length (pad n z) = n.
Proof. revert z. induction n as [|n IH]; intros z; [done|]. cbn [pad]. rewrite String_length_app, IH. simpl. lia. Qed.

Lemma pad_digits n z : forall_char is_digit (pad n z) = true.
Proof.
  revert z. induction n as [|n IH]; intros z; [done|]. cbn [pad]. rewrite forall_char_app, IH. cbn [forall_char].
  by rewrite (proj1 (byte_digit _ (Z.mod_pos_bound z 10 ltac:(lia)))).
Qed.

Lemma get_num_app n m acc s v s' :
  get_num n acc s = Some (v, s') → get_num (n + m) acc s = get_num m v s'.
Proof.
  revert acc s. induction n as [|n IH]; intros acc s; cbn [get_num Nat.add]; [by intros [= <- <-]|].
  destruct s as [|c s]; [done|]. destruct (is_digit c); [|done]. apply IH.
Qed.

Lemma get_num_pad n z acc s :
  0 ≤ z < 10 ^ Z.of_nat n → get_num n acc (pad n z +:+ s) = Some (acc * 10 ^ Z.of_nat n + z, s).
Proof.
  revert z acc s. induction n as [|n IH]; intros z acc s Hz; cbn [pad]; [simpl; f_equal; f_equal; lia|].
  rewrite Nat2Z.inj_succ, Z.pow_succ_r in Hz |- * by lia. rewrite String_append_assoc.
  assert (Hq : 0 ≤ z / 10 < 10 ^ Z.of_nat n) by (split; [apply Z.div_pos; lia|apply Z.div_lt_upper_bound; lia]).
  replace (S n) with (n + 1)%nat by lia. rewrite (get_num_app _ _ _ _ _ _ (IH _ acc _ Hq)). cbn [get_num String.append].
  destruct (byte_digit (z mod 10) (Z.mod_pos_bound z 10 ltac:(lia))) as [-> ->].
  f_equal. f_equal. pose proof (Z.div_mod z 10 ltac:(lia)). lia.
Qed.

Lemma pad_app a b x y : 0 ≤ y < 10 ^ Z.of_nat b → pad (a + b) (x * 10 ^ Z.of_nat b + y) = pad a x +:+ pad b y.
Proof.
  revert y. induction b as [|b IH]; intros y Hy.
  - simpl in Hy. rewrite Nat.add_0_r, String_append_nil. f_equal. simpl. lia.
  - rewrite Nat.add_succ_r. cbn [pad]. rewrite Nat2Z.inj_succ, Z.pow_succ_r in Hy |- * by lia.
    assert (Hq : 0 ≤ y / 10 < 10 ^ Z.of_nat b) by (split; [apply Z.div_pos; lia|apply Z.div_lt_upper_bound; lia]).
    replace (x * (10 * 10 ^ Z.of_nat b) + y) with (y + x * 10 ^ Z.of_nat b * 10) by lia.
    rewrite Z_div_plus_full, Z_mod_plus_full by lia. rewrite Z.add_comm, IH by done. by rewrite String_append_assoc.
Qed.

Lemma pad_8 x y : 0 ≤ y < 10000 → pad 8 (x * 10000 + y) = pad 4 x +:+ pad 4 y.
Proof. exact (pad_app 4 4 x y). Qed.
Lemma pad_6 x y : 0 ≤ y < 10000 → pad 6 (x * 10000 + y) = pad 2 x +:+ pad 4 y.
Proof. exact (pad_app 2 4 x y). Qed.
Lemma pad_4 x y : 0 ≤ y < 100 → pad 4 (x * 100 + y) = pad 2 x +:+ pad 2 y.
Proof. exact (pad_app 2 2 x y). Qed.

(** ** Byte order of fixed-width texts *)

Lemma byte_of_inj c d : byte_of c = byte_of d → c = d.
Proof. unfold byte_of. intros H%Nat2Z.inj. by rewrite <-(ascii_nat_embedding c), H, ascii_nat_embedding. Qed.

Lemma str_ltb_irrefl a : str_ltb a a = false.
Proof. induction a as [|c a IH]; [done|]. cbn [str_ltb]. by rewrite Z.ltb_irrefl, Z.eqb_refl, IH. Qed.

Lemma str_ltb_common a x y : str_ltb (a +:+ x) (a +:+ y) = str_ltb x y.
Proof. induction a as [|c a IH]; [done|]. cbn [str_ltb String.append]. by rewrite Z.ltb_irrefl, Z.eqb_refl, IH. Qed.

Lemma str_ltb_front a b x y :
  String.length a = String.length b → str_ltb a b = true → str_ltb (a +:+ x) (b +:+ y) = true.
Proof.
  revert b. induction a as [|c a IH]; intros [|d b]; cbn [str_ltb String.append]; try done.
  intros Hl. injection Hl as Hl. rewrite !orb_true_iff, !andb_true_iff. intros [H|[H1 H2]]; [by left|right; auto].
Qed.

Lemma pad_lt n a b : 0 ≤ a → a < b → b < 10 ^ Z.of_nat n → str_ltb (pad n a) (pad n b) = true.
Proof.
  revert a b. induction n as [|n IH]; intros a b Ha Hab Hb; [simpl in Hb; lia|].
  rewrite Nat2Z.inj_succ, Z.pow_succ_r in Hb by lia. cbn [pad].
  pose proof (Z.div_mod a 10 ltac:(lia)). pose proof (Z.div_mod b 10 ltac:(lia)).
  pose proof (Z.mod_pos_bound a 10 ltac:(lia)) as Ma. pose proof (Z.mod_pos_bound b 10 ltac:(lia)) as Mb.
  destruct (decide (a / 10 = b / 10)) as [E|E].
  - rewrite E, str_ltb_common. destruct (byte_digit _ Ma) as [_ Ea], (byte_digit _ Mb) as [_ Eb]. unfold digit_value in *.
    cbn [str_ltb]. apply orb_true_iff. left. apply Z.ltb_lt. lia.
  - apply str_ltb_front; [by rewrite !pad_length|]. apply IH; [apply Z.div_pos; lia|lia|apply Z.div_lt_upper_bound; lia].
Qed.

(** ** The stamp of a time *)

Definition stamp_year (t : time) : Z := (civil (Unix t / 86400)).1.1.
(** Times the layout can hold. *)
Definition stampable (t : time) : Prop := 0 ≤ stamp_year t < 10000.
Definition clock (r : Z) : Z := r / 3600 * 10000 + (r / 60 mod 60 * 100 + r mod 60).

Lemma Format_text t :
  stampable t → Format t = pad 8 (day_key (Unix t / 86400)) +:+ "T" +:+ pad 6 (clock (Unix t mod 86400)) +:+ "Z".
Proof.
  unfold stampable, stamp_year, Format, day_key. destruct (civil _) as [[y m] d] eqn:E. cbn [fst].
  destruct (civil_valid _ _ _ _ E) as (Hm & Hd & Hd'). intros Hy. unfold year_text.
  rewrite (proj2 (Z.ltb_ge y 0)), (proj2 (Z.ltb_lt y 10000)) by lia. unfold date_key, clock.
  set (r := Unix t mod 86400). pose proof (Z.mod_pos_bound (Unix t) 86400 ltac:(lia)) as Hr. fold r in Hr.
  pose proof (Z.mod_pos_bound (r / 60) 60 ltac:(lia)). pose proof (Z.mod_pos_bound r 60 ltac:(lia)).
  rewrite pad_8, pad_6, !pad_4 by lia. by rewrite !String_append_assoc.
Qed.

Lemma day_key_bound t : stampable t → 0 ≤ day_key (Unix t / 86400) < 10 ^ Z.of_nat 8.
Proof.
  unfold stampable, stamp_year, day_key. destruct (civil _) as [[y m] d] eqn:E. cbn [fst].
  destruct (civil_valid _ _ _ _ E) as (Hm & Hd & Hd'). unfold date_key. simpl. lia.
Qed.
Lemma clock_bound r : 0 ≤ r < 86400 → 0 ≤ clock r < 10 ^ Z.of_nat 6.
Proof. unfold clock. intros H. simpl. Z.to_euclidean_division_equations. lia. Qed.
Lemma clock_mono r r' : 0 ≤ r → r < r' → clock r < clock r'.
Proof. unfold clock. intros H0 H. Z.to_euclidean_division_equations. lia. Qed.

(** Later seconds have later stamps. *)
Lemma Format_lt t t' : stampable t → stampable t' → Unix t < Unix t' → str_ltb (Format t) (Format t') = true.
Proof.
  intros Ht Ht' H. rewrite !Format_text by done.
  pose proof (day_key_bound t Ht). pose proof (day_key_bound t' Ht').
  pose proof (Z.mod_pos_bound (Unix t) 86400 ltac:(lia)) as Hr. pose proof (Z.mod_pos_bound (Unix t') 86400 ltac:(lia)) as Hr'.
  destruct (decide (Unix t / 86400 = Unix t' / 86400)) as [E|E].
  - rewrite E, !str_ltb_common. apply str_ltb_front; [by rewrite !pad_length|].
    apply pad_lt; [apply clock_bound; lia| |apply clock_bound; lia]. apply clock_mono; [lia|].
    Z.to_euclidean_division_equations. lia.
  - apply str_ltb_front; [by rewrite !pad_length|]. apply pad_lt; [lia| |lia]. apply day_key_mono.
    Z.to_euclidean_division_equations. lia.
Qed.

Lemma Format_Unix t t' : Unix t = Unix t' → Format t = Format t'.
Proof. unfold Format. by intros ->. Qed.

Lemma Parse_Format t : stampable t → Parse (Format t) = true.
Proof.
  unfold stampable, stamp_year, Format. destruct (civil _) as [[y m] d] eqn:E. cbn [fst].
  destruct (civil_valid _ _ _ _ E) as (Hm & Hd & Hd'). intros Hy. unfold year_text.
  rewrite (proj2 (Z.ltb_ge y 0)), (proj2 (Z.ltb_lt y 10000)) by lia.
  set (r := Unix t mod 86400). pose proof (Z.mod_pos_bound (Unix t) 86400 ltac:(lia)) as Hr. fold r in Hr.
  pose proof (Z.mod_pos_bound (r / 60) 60 ltac:(lia)). pose proof (Z.mod_pos_bound r 60 ltac:(lia)).
  assert (Hh : 0 ≤ r / 3600 < 24) by (Z.to_euclidean_division_equations; lia).
  unfold Parse. rewrite get_num_pad by (simpl; lia). cbn [mbind option_bind]. rewrite get_num_pad by (simpl; lia).
  cbn [mbind option_bind]. rewrite get_num_pad by (simpl; lia). cbn [mbind option_bind String.append skip_char].
  rewrite ascii_eqb_refl. cbn [mbind option_bind].
  rewrite get_num_pad by (simpl; lia). cbn [mbind option_bind]. rewrite get_num_pad by (simpl; lia).
  cbn [mbind option_bind]. rewrite get_num_pad by (simpl; lia). cbn [mbind option_bind skip_fraction skip_char].
  rewrite ascii_eqb_refl. cbn [mbind option_bind]. rewrite bool_decide_eq_true_2, !Z.mul_0_l, !Z.add_0_l by done.
  rewrite !andb_true_iff, !Z.leb_le, !Z.ltb_lt. lia.
Qed.

(** ** Names of segments *)

Lemma dec_acc_go (n : N) s acc : dec_acc 0 (pretty_N_go n s) = acc → dec_acc (Z.of_N n) s = acc.
Proof.
  revert s. induction (N.lt_wf_0 n) as [n _ IH]. intros s. destruct (decide (0 < n)%N) as [Hn|Hn].
  - rewrite pretty_N_go_step by done. intros H. apply IH in H; [|apply N.div_lt; lia]. cbn [dec_acc] in H.
    rewrite <-H. f_equal. unfold digit_value.
    assert (Hd : ∀ k, (k < 10)%N → byte_of (pretty_N_char k) - 48 = Z.of_N k).
    { intros k Hk. destruct k as [|p]; [reflexivity|]. do 4 (destruct p as [p|p|]; try reflexivity; try lia). }
    rewrite Hd by (apply N.mod_upper_bound; done). pose proof (N.div_mod' n 10). lia.
  - assert (n = 0%N) as -> by lia. by rewrite pretty_N_go_0.
Qed.

Lemma dec_pretty (n : N) : dec_acc 0 (pretty n) = Z.of_N n.
Proof. unfold pretty, pretty_N. case_decide; [by subst|]. symmetry. exact (dec_acc_go n "" _ eq_refl). Qed.

Lemma dec_FormatInt z : 0 ≤ z → dec_acc 0 (FormatInt z) = z.
Proof. intros Hz. unfold FormatInt, pretty, pretty_Z. destruct z as [|p|p]; [done|exact (dec_pretty (N.pos p))|lia]. Qed.

Lemma Atoi_FormatInt z : 0 ≤ z < 2 ^ 63 → Atoi (FormatInt z) = z.
Proof. intros Hz. unfold Atoi. rewrite dec_FormatInt; lia. Qed.

Lemma digits_no_dot s : forall_char is_digit s = true → ContainsByte s "."%char = false.
Proof.
  unfold ContainsByte. rewrite exists_char_false. intros H. apply negb_false_iff. eapply forall_char_impl; [|exact H].
  intros [[] [] [] [] [] [] [] []]; done.
Qed.
Lemma Format_no_dot t : stampable t → ContainsByte (Format t) "."%char = false.
Proof.
  intros H. rewrite Format_text by done. unfold ContainsByte. rewrite !exists_char_app.
  pose proof (digits_no_dot _ (pad_digits 8 (day_key (Unix t / 86400)))) as H8.
  pose proof (digits_no_dot _ (pad_digits 6 (clock (Unix t mod 86400)))) as H6. unfold ContainsByte in H8, H6.
  by rewrite H8, H6.
Qed.

Lemma FormatInt_digits z : 0 ≤ z → forall_char is_digit (FormatInt z) = true.
Proof. intros H. unfold FormatInt, pretty, pretty_Z. destruct z; [done| |lia]. apply pretty_N_digits. Qed.
Lemma FormatInt_nonempty z : 0 ≤ z < 2 ^ 63 → z ≠ 0 → FormatInt z ≠ "".
Proof. intros H H0 E. pose proof (Atoi_FormatInt z H) as Ha. rewrite E in Ha. vm_compute in Ha. lia. Qed.

Definition segment_suffix (t : time) (n : Z) : string := Format t +:+ (if n =? 0 then "" else "." +:+ FormatInt n).
Lemma segment_name_suffix logPath t n : segment_name logPath t n = (logPath +:+ ".") +:+ segment_suffix t n.
Proof. unfold segment_name, segment_suffix. by rewrite String_append_assoc. Qed.

Lemma sdrop_app p s : sdrop (String.length p) (p +:+ s) = s.
Proof. induction p as [|c p IH]; [by destruct s|]. exact IH. Qed.
Lemma TrimPrefix_app p s : TrimPrefix (p +:+ s) p = s.
Proof. unfold TrimPrefix. by rewrite prefix_refl_app, sdrop_app. Qed.

Lemma segment_suffix_cut t n :
  stampable t → 0 ≤ n →
  Cut (segment_suffix t n) "."%char = (Format t, if n =? 0 then "" else FormatInt n, negb (n =? 0)).
Proof.
  intros Ht Hn. unfold segment_suffix. destruct (n =? 0) eqn:E.
  - rewrite String_append_nil. by apply Cut_absent, Format_no_dot.
  - exact (Cut_app _ _ _ (Format_no_dot t Ht)).
Qed.

Lemma segmentOrder_name logPath t n :
  stampable t → 0 ≤ n < 2 ^ 63 → segmentOrder (logPath +:+ ".") (segment_name logPath t n) = (Format t, n).
Proof.
  intros Ht Hn. unfold segmentOrder. rewrite segment_name_suffix, TrimPrefix_app, segment_suffix_cut by (done || lia).
  destruct (n =? 0) eqn:E; cbn [negb]; [|by rewrite Atoi_FormatInt].
  apply Z.eqb_eq in E as ->. unfold segment_suffix. by rewrite String_append_nil.
Qed.

Lemma isRotatedSegment_name t n : stampable t → 0 ≤ n < 2 ^ 63 → isRotatedSegment (segment_suffix t n) = true.
Proof.
  intros Ht Hn. unfold isRotatedSegment. rewrite segment_suffix_cut by (done || lia). destruct (n =? 0) eqn:E; cbn [negb].
  - unfold segment_suffix. rewrite E, String_append_nil. by apply Parse_Format.
  - apply Z.eqb_neq in E. rewrite bool_decide_eq_true_2 by (by apply FormatInt_nonempty).
    rewrite FormatInt_digits, Parse_Format by (done || lia). done.
Qed.

(** The order of names is the order of seconds, then of numbers. *)
Lemma segment_before_name logPath t n t' n' :
  stampable t → stampable t' → 0 ≤ n < 2 ^ 63 → 0 ≤ n' < 2 ^ 63 →
  Unix t < Unix t' ∨ (Unix t = Unix t' ∧ n < n') →
  segment_before (logPath +:+ ".") (segment_name logPath t n) (segment_name logPath t' n') = true.
Proof.
  intros Ht Ht' Hn Hn' H. unfold segment_before. rewrite !segmentOrder_name by done. destruct H as [H|[H Hl]].
  - pose proof (Format_lt t t' Ht Ht' H) as Hlt. case_bool_decide as E; [done|].
    by rewrite E, str_ltb_irrefl in Hlt.
  - rewrite (Format_Unix t t' H), bool_decide_eq_false_2 by (intros E; by apply E). by apply Z.ltb_lt.
Qed.
