(* ===== verification/AuditStore.v ===== *)
(** * The audit log on disk

    [internal/audit/log.go] and [VerifySegments] of [verify.go]: opening a log and
    restoring its chain, appending, rotating, and verifying all segments. The disk
    is the contents of the files by path, with the part an [fsync] has made
    durable. A record [faults] says which system calls of an operation fail. *)

From S2P Require Import Prelude GoStrings Encoding Crypto AuditEntry AuditCanonical AuditVerify AuditTime.

Abbreviation files := (gmap string string) (only parsing).

Record Disk := mkDisk {
  dk_files : gmap string string;
  dk_synced : gmap string string;
}.

(** [true] is a call that fails; a failed [Write] has written some bytes. *)
Record faults := mkFaults {
  ft_readdir : bool;
  ft_read : string → bool;
  ft_tail : bool;
  ft_stat : string → bool;
  ft_fstat : bool;
  ft_presync : bool;
  ft_rename : bool;
  ft_reopen : bool;
  ft_open : bool;
  ft_write : option nat;
}.
Definition no_faults : faults :=
  mkFaults false (fun _ => false) false (fun _ => false) false false false false false None.

Definition Stat (fs : files) (ft : faults) (p : string) : bool := bool_decide (is_Some (fs !! p)) && negb (ft_stat ft p).

Inductive store_error :=
| EReadLog | EScanLog | EParseLast | EDiscover | ESeed (e : option bounds_error) | EOpenLog
| EReopen | EPayload | ELine | EWrite | EFsync.

(** ** Segments *)

Definition seg_prefix (logPath : string) : string := logPath +:+ ".".
Definition seg_le (prefix : string) (p q : string) : Prop := segment_before prefix q p = false.
#[global] Instance seg_le_dec prefix p q : Decision (seg_le prefix p q).
Proof. unfold seg_le. apply _. Defined.

Definition is_segment (logPath p : string) : bool :=
  HasPrefix p (seg_prefix logPath) && isRotatedSegment (TrimPrefix p (seg_prefix logPath)).

Definition discoverSegments (fs : files) (ft : faults) (logPath : string) : result store_error (list string) :=
  if ft_readdir ft then Err EDiscover
  else
    let found := List.filter (is_segment logPath) (map fst (map_to_list fs)) in
    Ok (merge_sort (seg_le (seg_prefix logPath)) found ++ (if Stat fs ft logPath then [logPath] else [])).

(** What [os.Open] and a read to the end give. *)
Definition read_file (fs : files) (ft : faults) (p : string) : option string :=
  if ft_read ft p then None else fs !! p.

(** ** The log *)

Record Log := mkLog {
  lg_open : bool;
  lg_path : string;
  lg_signKey : string;
  lg_redactor : option (string → string);
  lg_prevHash : string;
  lg_seq : Z;
  lg_maxFileSize : Z;
  lg_needsNewline : bool;
  lg_writeCount : Z;
  lg_syncedCount : Z;
  lg_syncing : bool;
}.

Definition set_open (b : bool) (l : Log) : Log :=
  mkLog b (lg_path l) (lg_signKey l) (lg_redactor l) (lg_prevHash l) (lg_seq l) (lg_maxFileSize l)
    (lg_needsNewline l) (lg_writeCount l) (lg_syncedCount l) (lg_syncing l).
Definition set_head (seq : Z) (prev : string) (nl : bool) (l : Log) : Log :=
  mkLog (lg_open l) (lg_path l) (lg_signKey l) (lg_redactor l) prev seq (lg_maxFileSize l) nl
    (lg_writeCount l) (lg_syncedCount l) (lg_syncing l).
Definition set_sync (written synced : Z) (syncing : bool) (l : Log) : Log :=
  mkLog (lg_open l) (lg_path l) (lg_signKey l) (lg_redactor l) (lg_prevHash l) (lg_seq l) (lg_maxFileSize l)
    (lg_needsNewline l) written synced syncing.
Definition SetRedactor (r : option (string → string)) (l : Log) : Log :=
  mkLog (lg_open l) (lg_path l) (lg_signKey l) r (lg_prevHash l) (lg_seq l) (lg_maxFileSize l)
    (lg_needsNewline l) (lg_writeCount l) (lg_syncedCount l) (lg_syncing l).

Definition AuditLogMaxSize : Z := 100 * 1024 * 1024.

(** [O_CREATE]: an absent file appears empty. *)
Definition create (fs : files) (p : string) : files :=
  match fs !! p with Some _ => fs | None => <[p := ""]> fs end.

Fixpoint last_char (s : string) : option ascii :=
  match s with "" => None | String c "" => Some c | String _ s' => last_char s' end.

Definition last_record (lines : list string) : option string :=
  last (List.filter (fun l => negb (isBlankLine l)) lines).

Definition FailClosed (mode : string) : option bool :=
  if bool_decide (mode = "") || bool_decide (mode = "closed") then Some true
  else if bool_decide (mode = "open") then Some false
  else None.

Section store.
Context `{TJ : TimeJSON} `{ED : Ed25519} `{SH : Sha256} `{DE : EntryDecoder}.

(** [(total, errs)] with the hash of the last linked segment. *)
Fixpoint segments_loop (fs : files) (ft : faults) (logPath : string) (pub : option string) (first : bool)
    (prevLast : string) (total errs : Z) (segs : list string) : option (Z * Z) :=
  match segs with
  | [] => Some (total, errs)
  | seg :: segs' =>
      match read_file fs ft seg with
      | None => segments_loop fs ft logPath pub false prevLast total (errs + 1) segs'
      | Some data =>
          '(t, e) ← Verify data pub;
          let total := total + t in
          let errs := errs + e in
          match FileBounds data with
          | Err err =>
              let tolerated := bool_decide (seg = logPath) && match err with ErrEmptySegment => true | _ => false end in
              segments_loop fs ft logPath pub false prevLast total (errs + count (negb tolerated)) segs'
          | Ok (firstPrev, lastHash) =>
              let broken := bool_decide (firstPrev ≠ (if first then "" else prevLast)) in
              segments_loop fs ft logPath pub false lastHash total (errs + count broken) segs'
          end
      end
  end.

(** [None] is the panic of a key of the wrong size. *)
Definition VerifySegments (fs : files) (ft : faults) (logPath : string) (pub : option string) : option (Z * Z) :=
  match discoverSegments fs ft logPath with
  | Err _ => Some (0, 1)
  | Ok [] => Some (0, 1)
  | Ok segs => segments_loop fs ft logPath pub true "" 0 0 segs
  end.

(** The chain head left by the newest rotated segment. *)
Definition seedFromRotatedSegments (fs : files) (ft : faults) (l : Log) : result store_error Log :=
  let! segs := discoverSegments fs ft (lg_path l) in
  match last (List.filter (fun s => negb (bool_decide (s = lg_path l))) segs) with
  | None => Ok l
  | Some newest =>
      match read_file fs ft newest with
      | None => Err (ESeed None)
      | Some data =>
          match FileBounds data with
          | Err e => Err (ESeed (Some e))
          | Ok (_, lastHash) => Ok (set_head (lg_seq l) lastHash (lg_needsNewline l) l)
          end
      end
  end.

Definition restoreChain (fs : files) (ft : faults) (l : Log) : result store_error Log :=
  match fs !! lg_path l with
  | None => seedFromRotatedSegments fs ft l
  | Some data =>
      if ft_read ft (lg_path l) then Err EReadLog
      else
        let '(lines, toolong) := scan data in
        if toolong then Err EScanLog
        else
          match last_record lines with
          | None => seedFromRotatedSegments fs ft l
          | Some lastLine =>
              let torn := negb (ft_tail ft) && bool_decide (last_char data ≠ Some newline) in
              match Unmarshal lastLine with
              | None => Err EParseLast
              | Some e => Ok (set_head (ae_Seq e) (line_hash lastLine) torn l)
              end
          end
  end.

Definition fresh_log (path signKey : string) : Log :=
  mkLog false path signKey None "" 0 AuditLogMaxSize false 0 0 false.

Definition Open (d : Disk) (ft : faults) (path signKey : string) : result store_error (Log * Disk) :=
  let! l := restoreChain (dk_files d) ft (fresh_log path signKey) in
  if ft_open ft then Err EOpenLog
  else Ok (set_open true l, mkDisk (create (dk_files d) path) (dk_synced d)).

(** ** Rotation *)

Definition content (fs : files) (p : string) : string := match fs !! p with Some s => s | None => "" end.

(** The file is at its limit. *)
Definition rotation_due (fs : files) (ft : faults) (l : Log) : bool :=
  (0 <? lg_maxFileSize l) && lg_open l && negb (ft_fstat ft) && (lg_maxFileSize l <=? slen (content fs (lg_path l))).

(** [os.Rename]: the target is replaced. *)
Definition rename (d : Disk) (p q : string) : Disk :=
  mkDisk (<[q := content (dk_files d) p]> (delete p (dk_files d)))
         (<[q := content (dk_synced d) p]> (delete p (dk_synced d))).

Definition fsync (d : Disk) (p : string) (upto : string) : Disk := mkDisk (dk_files d) (<[p := upto]> (dk_synced d)).

(** Run while no leader is flushing the file: with one, a due rotation waits. *)
Definition maybeRotate (l : Log) (d : Disk) (now : time) (ft : faults) : Log * Disk :=
  if negb (rotation_due (dk_files d) ft l) then (l, d)
  else if ft_presync ft then (l, d)
  else
    let p := lg_path l in
    let d := fsync d p (content (dk_files d) p) in
    let l := set_open false (set_sync (lg_writeCount l) (lg_writeCount l) (lg_syncing l) l) in
    let rotPath := rotatedSegmentPath (Stat (dk_files d) ft) p now in
    if ft_rename ft then (set_open (negb (ft_reopen ft)) l, d)
    else
      let d := rename d p rotPath in
      let l := set_head 0 (lg_prevHash l) false l in
      if ft_reopen ft then (l, d)
      else (set_open true l, mkDisk (create (dk_files d) p) (dk_synced d)).

Definition ensureOpen (l : Log) (d : Disk) (ft : faults) : result store_error (Log * Disk) :=
  if lg_open l then Ok (l, d)
  else if ft_open ft then Err EReopen
  else Ok (set_open true l, mkDisk (create (dk_files d) (lg_path l)) (dk_synced d)).

(** ** Appending *)

Definition redact_entry (r : option (string → string)) (e : Entry) : Entry :=
  match r with
  | None => e
  | Some f =>
      let upd := fun k s => match k with FCommand | FErr | FWarning | FAnomaly => f s | _ => s end in
      map_text upd e
  end.

(** The entry that will be numbered and signed. *)
Definition prepared (l : Log) (e : Entry) : Entry := fitEntry (redact_entry (lg_redactor l) e).

Definition entry_time (e : Entry) (now : time) : option time :=
  match ae_Time e with Some t => Some t | None => Some now end.

Definition next_seq (seq : Z) : Z := (seq + 1) mod 2 ^ 64.

(** [doAppend] up to the call of [syncTo]: the new write count. *)
Definition append_write (l : Log) (d : Disk) (e : Entry) (now : time) (ft : faults) :
    Log * Disk * result store_error Z :=
  let e := prepared l e in
  let '(l, d) := maybeRotate l d now ft in
  match ensureOpen l d ft with
  | Err err => (l, d, Err err)
  | Ok (l, d) =>
      let seq := next_seq (lg_seq l) in
      match seal_entry (lg_signKey l) (entry_time e now) seq (lg_prevHash l) e with
      | None => (l, d, Err EPayload)
      | Some e' =>
          match Marshal e' with
          | None => (l, d, Err ELine)
          | Some line =>
              let out := (if lg_needsNewline l then String newline "" else "") +:+ line +:+ String newline "" in
              let p := lg_path l in
              let old := content (dk_files d) p in
              match ft_write ft with
              | Some k => (l, mkDisk (<[p := old +:+ stake k out]> (dk_files d)) (dk_synced d), Err EWrite)
              | None =>
                  let n := lg_writeCount l + 1 in
                  (set_sync n (lg_syncedCount l) (lg_syncing l) (set_head seq (line_hash line) false l),
                   mkDisk (<[p := old +:+ out]> (dk_files d)) (dk_synced d), Ok n)
              end
          end
      end
  end.
End store.
