(* ===== verification/AuditRun.v ===== *)
(** * Runs of an audit log

    A run interleaves concurrent appends, group-commit flushes, rotations,
    system-call failures, crashes and restarts. In every state of a run the log
    on disk verifies across all its segments, and a record whose [Append] has
    returned is on stable storage. *)

From S2P Require Import Prelude GoStrings Encoding Crypto AuditEntry AuditCanonical AuditVerify AuditTime AuditStore.

(** ** Files of whole lines *)

Definition nl : string := String newline "".
Fixpoint text (lines : list string) : string :=
  match lines with [] => "" | l :: lines' => l +:+ nl +:+ text lines' end.

(** The last newline may be missing. *)
Definition holds (data : string) (lines : list string) : Prop :=
  data = text lines ∨ (lines ≠ [] ∧ data +:+ nl = text lines).

Definition plain_line (l : string) : Prop :=
  slen l < readerBufferSize ∧ ContainsByte l newline = false ∧ isBlankLine l = false ∧ drop_cr l = l.

Lemma plain_nonempty l : plain_line l → l ≠ "".
Proof. intros (_ & _ & H & _) ->. by vm_compute in H. Qed.

Lemma append_nl_inj a b : a +:+ nl = b +:+ nl → a = b.
Proof.
  revert b. induction a as [|c a IH]; intros [|d b] E; simpl in E; try done.
  - injection E as _ E. by destruct b.
  - injection E as _ E. by destruct a.
  - injection E as -> E. f_equal. by apply IH.
Qed.

Lemma holds_nil data : holds data [] → data = "".
Proof. by intros [H|[H _]]. Qed.

Lemma text_ends lines : lines ≠ [] → ∃ body, text lines = body +:+ nl.
Proof.
  induction lines as [|l lines IH]; [done|]. intros _. destruct lines as [|l' lines]; cbn [text].
  - exists l. by rewrite String_append_nil.
  - destruct IH as [body IH]; [done|]. exists (l +:+ nl +:+ body). cbn [text] in IH. rewrite IH. by rewrite !String_append_assoc.
Qed.

Lemma text_app a b : text (a ++ b) = text a +:+ text b.
Proof. induction a as [|l a IH]; [done|]. cbn [text app]. by rewrite IH, !String_append_assoc. Qed.

(** The next line goes on its own physical line. *)
Lemma holds_snoc data lines l (torn : bool) :
  holds data lines → (torn = true ↔ data ≠ text lines) →
  data +:+ (if torn then nl else "") +:+ l +:+ nl = text (lines ++ [l]).
Proof.
  intros H Ht. rewrite text_app. cbn [text]. rewrite String_append_nil. destruct torn.
  - destruct H as [H|[_ H]]; [by apply Ht in H|]. by rewrite <-H, !String_append_assoc.
  - assert (E : data = text lines) by (apply dec_stable; intros E; apply Ht in E; done). by rewrite E.
Qed.

Lemma scan_cons l rest :
  ContainsByte l newline = false →
  scan (l +:+ nl +:+ rest) =
    (if readerBufferSize <=? slen l then ([], true) else let '(lines, b) := scan rest in (drop_cr l :: lines, b)).
Proof.
  intros Hl. unfold scan. change (nl +:+ rest) with (String newline rest). rewrite Split_cons by done.
  cbn [scan_pieces]. rewrite bool_decide_eq_false_2; [done|]. by destruct rest as [|c rest]; simpl; [|destruct (ascii_eqb _ _), (Split rest newline)].
Qed.

Lemma scan_last l : plain_line l → scan l = ([l], false).
Proof.
  intros Hp. pose proof (plain_nonempty l Hp) as Hne. destruct Hp as (Hlen & Hnl & _ & Hcr).
  unfold scan. rewrite Split_absent by done. cbn [scan_pieces].
  rewrite (bool_decide_eq_false_2 (l = "")) by done. rewrite andb_false_r.
  by rewrite (proj2 (Z.leb_gt _ _)), Hcr.
Qed.

Lemma scan_holds data lines : holds data lines → Forall plain_line lines → scan data = (lines, false).
Proof.
  intros H Hp. revert data H. induction Hp as [|l lines Hl Hp IH]; intros data H; [by apply holds_nil in H as ->|].
  assert (Hcons : ∀ rest, scan rest = (lines, false) → scan (l +:+ nl +:+ rest) = (l :: lines, false)).
  { intros rest E. destruct Hl as (Hlen & Hnl & _ & Hcr). rewrite scan_cons, E, Hcr by done. by rewrite (proj2 (Z.leb_gt _ _)). }
  destruct H as [->|[_ H]]; [cbn [text]; apply Hcons, IH; by left|]. cbn [text] in H.
  destruct lines as [|l' lines].
  - cbn [text] in H. apply append_nl_inj in H as ->. by apply scan_last.
  - destruct (text_ends (l' :: lines)) as [body Hb]; [done|]. rewrite Hb, <-!String_append_assoc in H.
    apply append_nl_inj in H as ->. rewrite String_append_assoc. apply Hcons, IH. right. split; [done|]. by rewrite Hb.
Qed.

Lemma filter_plain lines : Forall plain_line lines → List.filter (fun l => negb (isBlankLine l)) lines = lines.
Proof. induction 1 as [|l lines (_ & _ & Hb & _) _ IH]; [done|]. cbn [List.filter]. by rewrite Hb, IH. Qed.

(** ** Chains *)

Section chains.
Context `{TJ : TimeJSON} `{ED : Ed25519} `{SH : Sha256} `{DE : EntryDecoder}.
Variable pub : string.

(** Records numbered from [k], the first naming [prev]. *)
Fixpoint chained (prev : string) (k : Z) (lines : list string) : Prop :=
  match lines with
  | [] => True
  | l :: lines' =>
      plain_line l ∧
      (∃ e, Unmarshal l = Some e ∧ VerifyEntry e pub = Ok () ∧ ae_Seq e = k ∧ ae_PrevHash e = prev) ∧
      chained (line_hash l) (next_seq k) lines'
  end.

Definition last_hash (prev : string) (lines : list string) : string :=
  match last lines with Some l => line_hash l | None => prev end.
Fixpoint seq_after (k : Z) (lines : list string) : Z :=
  match lines with [] => k | _ :: lines' => seq_after (next_seq k) lines' end.

Lemma last_hash_cons prev l lines : last_hash prev (l :: lines) = last_hash (line_hash l) lines.
Proof. unfold last_hash. rewrite last_cons. by destruct (last lines). Qed.

Lemma chained_plain prev k lines : chained prev k lines → Forall plain_line lines.
Proof. revert prev k. induction lines as [|l lines IH]; intros prev k; [constructor|]. intros (Hl & _ & H). constructor; eauto. Qed.

Lemma chained_app prev k a b :
  chained prev k (a ++ b) ↔ chained prev k a ∧ chained (last_hash prev a) (seq_after k a) b.
Proof.
  revert prev k. induction a as [|l a IH]; intros prev k; [cbn; tauto|].
  cbn [app chained seq_after]. rewrite last_hash_cons, IH. tauto.
Qed.

Lemma chained_last prev k a l e :
  chained prev k (a ++ [l]) → Unmarshal l = Some e → next_seq (ae_Seq e) = seq_after k (a ++ [l]).
Proof.
  revert prev k. induction a as [|x a IH]; intros prev k; cbn [app chained seq_after].
  - intros (_ & (e' & He' & _ & <- & _) & _) He. by assert (e' = e) as -> by congruence.
  - intros (_ & _ & H). by apply (IH _ _ H).
Qed.

Lemma seq_after_snoc k a l : seq_after k (a ++ [l]) = next_seq (seq_after k a).
Proof. revert k. induction a as [|x a IH]; intros k; [done|]. apply IH. Qed.
Lemma last_hash_snoc prev a l : last_hash prev (a ++ [l]) = line_hash l.
Proof. unfold last_hash. by rewrite last_snoc. Qed.

Lemma verify_chained prev k lines st :
  chained prev k lines → vs_first st = true ∨ (vs_prevHash st = prev ∧ next_seq (vs_prevSeq st) = k) →
  ∃ st', verify_lines (Some pub) st lines = Some st' ∧ vs_errs st' = vs_errs st ∧
    vs_total st' = vs_total st + Z.of_nat (length lines).
Proof.
  revert prev k st. induction lines as [|l lines IH]; intros prev k st; [intros _ _; exists st; simpl; split_and!; [done|done|lia]|].
  intros ((_ & _ & Hb & _) & (e & He & Hv & Hs & Hp) & Hrest) Hst. cbn [verify_lines]. unfold verify_line. rewrite Hb, He, Hv.
  assert (H1 : negb (vs_first st) && negb (ae_Seq e =? (vs_prevSeq st + 1) mod 2 ^ 64) = false).
  { destruct Hst as [->|[_ Hk]]; [done|]. unfold next_seq in Hk. rewrite Hs, Hk, Z.eqb_refl. by rewrite andb_false_r. }
  assert (H2 : negb (vs_first st) && bool_decide (ae_PrevHash e ≠ vs_prevHash st) = false).
  { destruct Hst as [->|[Hh _]]; [done|]. rewrite bool_decide_eq_false_2; [by rewrite andb_false_r|]. intros Hn. apply Hn. congruence. }
  rewrite H1, H2. cbn [is_ok negb count andb mbind option_bind].
  destruct (IH (line_hash l) (next_seq k) (mkVS (line_hash l) (ae_Seq e) false (vs_total st + 1) (vs_malformed st)
    (vs_errs st + 0 + 0 + 0) (vs_kept st ++ [e])) Hrest) as (st' & E & Herr & Htot).
  { right. cbn [vs_prevHash vs_prevSeq]. split; [done|congruence]. }
  exists st'. cbn [vs_errs vs_total] in *. split; [exact E|]. split; [lia|]. simpl. lia.
Qed.

Lemma Verify_chained data prev k lines :
  holds data lines → chained prev k lines → Verify data (Some pub) = Some (Z.of_nat (length lines), 0).
Proof.
  intros H Hc. unfold Verify, verify. rewrite (scan_holds data lines) by (eauto using chained_plain).
  destruct (verify_chained prev k lines verify_init Hc) as (st' & -> & He & Ht); [by left|].
  cbn [mbind option_bind vs_total vs_errs count]. rewrite He, Ht. simpl. done.
Qed.

Lemma bounds_loop_chained f last lines :
  Forall plain_line lines → bounds_loop (Some f) last lines = Ok (Some f, match list.last lines with Some l => line_hash l | None => last end).
Proof.
  intros H. revert last. induction H as [|l lines (_ & _ & Hb & _) _ IH]; intros la; [done|].
  cbn [bounds_loop]. rewrite Hb, IH, last_cons. by destruct (list.last lines).
Qed.

Lemma FileBounds_chained data prev k lines :
  holds data lines → chained prev k lines →
  FileBounds data = match lines with [] => Err ErrEmptySegment | _ => Ok (prev, last_hash prev lines) end.
Proof.
  intros H Hc. unfold FileBounds. rewrite (scan_holds data lines) by (eauto using chained_plain).
  destruct lines as [|l lines]; [done|]. destruct Hc as ((_ & _ & Hb & _) & (e & He & _ & _ & Hp) & Hrest).
  cbn [bounds_loop]. rewrite Hb, He, bounds_loop_chained by (eauto using chained_plain). cbn [rbind].
  rewrite last_hash_cons. unfold last_hash. by rewrite Hp.
Qed.
End chains.

(** ** Order of segments *)

Lemma str_ltb_asym a b : str_ltb a b = true → str_ltb b a = false.
Proof.
  revert b. induction a as [|c a IH]; intros [|d b]; cbn [str_ltb]; try done.
  rewrite orb_true_iff, andb_true_iff, Z.ltb_lt, Z.eqb_eq. intros [H|[H1 H2]].
  - rewrite (proj2 (Z.ltb_ge _ _)), (proj2 (Z.eqb_neq _ _)) by lia. done.
  - rewrite H1, Z.ltb_irrefl, (IH b H2). by rewrite andb_false_r.
Qed.
Lemma str_ltb_total a b : str_ltb a b = false → str_ltb b a = false → a = b.
Proof.
  revert b. induction a as [|c a IH]; intros [|d b]; cbn [str_ltb]; try done.
  rewrite !orb_false_iff, !Z.ltb_ge. intros [H1 H2] [H3 H4]. assert (E : byte_of c = byte_of d) by lia.
  rewrite E, Z.eqb_refl in H2, H4. apply byte_of_inj in E as ->. f_equal. by apply IH.
Qed.
Lemma str_ltb_trans a b c : str_ltb a b = true → str_ltb b c = true → str_ltb a c = true.
Proof.
  revert b c. induction a as [|x a IH]; intros [|y b] [|z c]; cbn [str_ltb]; try done.
  rewrite !orb_true_iff, !andb_true_iff, !Z.ltb_lt, !Z.eqb_eq. intros [?|[? ?]] [?|[? ?]]; [left; lia..|right].
  split; [lia|eauto].
Qed.

(** The key of a path and its order. *)
Definition key_lt (k k' : string * Z) : Prop := str_ltb k.1 k'.1 = true ∨ (k.1 = k'.1 ∧ k.2 < k'.2).
Lemma segment_before_key prefix p q :
  segment_before prefix p q = true ↔ key_lt (segmentOrder prefix p) (segmentOrder prefix q).
Proof.
  unfold segment_before, key_lt. destruct (segmentOrder prefix p) as [t n], (segmentOrder prefix q) as [t' n']. cbn [fst snd].
  case_bool_decide as E.
  - split; [by left|]. intros [?|[? _]]; done.
  - subst t'. rewrite Z.ltb_lt, str_ltb_irrefl. split; [by right|]. by intros [?|[_ ?]].
Qed.
Lemma key_lt_trans k1 k2 k3 : key_lt k1 k2 → key_lt k2 k3 → key_lt k1 k3.
Proof.
  unfold key_lt. intros [H|[E H]] [H'|[E' H']].
  - left. eauto using str_ltb_trans.
  - left. by rewrite <-E'.
  - left. by rewrite E.
  - right. split; [congruence|lia].
Qed.
Lemma key_lt_asym k1 k2 : key_lt k1 k2 → ¬ key_lt k2 k1.
Proof.
  intros H H'. pose proof (key_lt_trans _ _ _ H H') as [E|[_ E]]; [by rewrite str_ltb_irrefl in E|lia].
Qed.
Lemma key_total k1 k2 : key_lt k1 k2 ∨ k1 = k2 ∨ key_lt k2 k1.
Proof.
  unfold key_lt. destruct k1 as [a n], k2 as [b m]. cbn [fst snd].
  destruct (str_ltb a b) eqn:E1; [by left; left|]. destruct (str_ltb b a) eqn:E2; [by right; right; left|].
  rewrite (str_ltb_total a b E1 E2). destruct (Z.lt_trichotomy n m) as [?|[->|?]]; auto.
Qed.

Lemma seg_le_key prefix p q : seg_le prefix p q ↔ ¬ key_lt (segmentOrder prefix q) (segmentOrder prefix p).
Proof. unfold seg_le. rewrite <-segment_before_key. by destruct (segment_before prefix q p). Qed.

#[global] Instance seg_le_trans prefix : Transitive (seg_le prefix).
Proof.
  intros p q r. rewrite !seg_le_key. intros H1 H2 H3.
  destruct (key_total (segmentOrder prefix p) (segmentOrder prefix q)) as [H|[H|H]]; [|by rewrite H in H3|done].
  by apply H2, (key_lt_trans _ _ _ H3).
Qed.
#[global] Instance seg_le_total prefix : Total (seg_le prefix).
Proof.
  intros p q. rewrite !seg_le_key. destruct (key_total (segmentOrder prefix p) (segmentOrder prefix q)) as [H|[H|H]].
  - left. by apply key_lt_asym.
  - left. rewrite H. intros Hk. by apply (key_lt_asym _ _ Hk).
  - right. by apply key_lt_asym.
Qed.

(** ** Segments of a log *)

Record seg := mkSeg { sg_time : time; sg_n : Z; sg_lines : list string }.
Definition sg_name (path : string) (s : seg) : string := segment_name path (sg_time s) (sg_n s).
Definition later (s s' : seg) : Prop :=
  Unix (sg_time s) < Unix (sg_time s') ∨ (Unix (sg_time s) = Unix (sg_time s') ∧ sg_n s < sg_n s').
Definition seg_ok (s : seg) : Prop := stampable (sg_time s) ∧ 0 ≤ sg_n s ≤ maxSegmentCollisions.

Lemma sg_key path s : seg_ok s → segmentOrder (seg_prefix path) (sg_name path s) = (Format (sg_time s), sg_n s).
Proof. intros [Ht Hn]. apply segmentOrder_name; [done|]. unfold maxSegmentCollisions in Hn. lia. Qed.

Lemma later_key path s s' :
  seg_ok s → seg_ok s' → later s s' →
  key_lt (segmentOrder (seg_prefix path) (sg_name path s)) (segmentOrder (seg_prefix path) (sg_name path s')).
Proof.
  intros Hs Hs' H. rewrite !sg_key by done. destruct Hs as [Ht _], Hs' as [Ht' _]. unfold key_lt. cbn [fst snd].
  destruct H as [H|[H Hn]]; [left; by apply Format_lt|right; split; [by apply Format_Unix|done]].
Qed.

Lemma name_Unix path t n t' n' :
  stampable t → stampable t' → 0 ≤ n < 2 ^ 63 → 0 ≤ n' < 2 ^ 63 →
  segment_name path t n = segment_name path t' n' → Unix t = Unix t' ∧ n = n'.
Proof.
  intros Ht Ht' Hn Hn' E. apply (f_equal (segmentOrder (path +:+ "."))) in E. rewrite !segmentOrder_name in E by done.
  injection E as E ->. split; [|done]. destruct (Z.lt_trichotomy (Unix t) (Unix t')) as [H|[H|H]]; [exfalso|done|exfalso].
  - pose proof (Format_lt _ _ Ht Ht' H) as Hl. by rewrite E, str_ltb_irrefl in Hl.
  - pose proof (Format_lt _ _ Ht' Ht H) as Hl. by rewrite E, str_ltb_irrefl in Hl.
Qed.

Lemma is_segment_name path s : seg_ok s → is_segment path (sg_name path s) = true.
Proof.
  intros [Ht Hn]. unfold is_segment, sg_name. rewrite segment_name_suffix. unfold seg_prefix.
  rewrite prefix_refl_app, TrimPrefix_app. apply isRotatedSegment_name; [done|]. unfold maxSegmentCollisions in Hn. lia.
Qed.

Lemma path_not_segment path : is_segment path path = false.
Proof.
  unfold is_segment, seg_prefix. destruct (HasPrefix path (path +:+ ".")) eqn:E; [|done]. exfalso.
  apply prefix_spec in E as [t E]. apply (f_equal String.length) in E. rewrite !String_length_app in E. simpl in E. lia.
Qed.

Lemma sg_name_path path s : seg_ok s → sg_name path s ≠ path.
Proof. intros Hs E. pose proof (is_segment_name path s Hs) as H. by rewrite E, path_not_segment in H. Qed.

(** [segs] are all the rotated segments on disk, in the order of rotation. *)
Record catalogue (fs : gmap string string) (path : string) (segs : list seg) : Prop := {
  cat_ok : Forall seg_ok segs;
  cat_sorted : StronglySorted later segs;
  cat_dense : ∀ s m, s ∈ segs → 0 ≤ m < sg_n s →
    ∃ s', s' ∈ segs ∧ Unix (sg_time s') = Unix (sg_time s) ∧ sg_n s' = m;
  cat_holds : ∀ s, s ∈ segs → ∃ data, fs !! sg_name path s = Some data ∧ holds data (sg_lines s);
  cat_all : ∀ p, is_Some (fs !! p) → is_segment path p = true → ∃ s, s ∈ segs ∧ p = sg_name path s;
}.

Lemma cat_names_sorted path segs :
  Forall seg_ok segs → StronglySorted later segs → StronglySorted (seg_le (seg_prefix path)) (map (sg_name path) segs).
Proof.
  intros Hok H. induction H as [|s segs Hs IH Hall]; [constructor|]. apply Forall_cons in Hok as [Hs0 Hok].
  cbn [map]. constructor; [by apply IH|]. apply Forall_map. rewrite Forall_forall in Hok, Hall |- *. intros x Hx.
  apply seg_le_key, key_lt_asym, later_key; auto.
Qed.

Lemma cat_names_nodup path segs :
  Forall seg_ok segs → StronglySorted later segs → NoDup (map (sg_name path) segs).
Proof.
  intros Hok H. induction H as [|s segs Hs IH Hall]; [constructor|]. apply Forall_cons in Hok as [Hs0 Hok].
  cbn [map]. constructor; [|by apply IH]. intros (x & E & Hx)%list_elem_of_fmap. rewrite Forall_forall in Hok, Hall.
  pose proof (later_key path s x Hs0 (Hok _ Hx) (Hall _ Hx)) as Hk. rewrite E in Hk. by apply (key_lt_asym _ _ Hk).
Qed.

Lemma discover_catalogue fs ft path segs :
  catalogue fs path segs → ft_readdir ft = false →
  discoverSegments fs ft path = Ok (map (sg_name path) segs ++ (if Stat fs ft path then [path] else [])).
Proof.
  intros [Hok Hsort _ Hholds Hall] Hft. unfold discoverSegments. rewrite Hft. do 2 f_equal.
  assert (Hin : ∀ p, p ∈ List.filter (is_segment path) (map fst (map_to_list fs)) ↔ p ∈ map (sg_name path) segs).
  { intros p. rewrite list_elem_of_In, filter_In, <-list_elem_of_In. split.
    - intros [Hp Hs]. apply list_elem_of_fmap in Hp as ([k v] & -> & Hkv). apply elem_of_map_to_list in Hkv.
      destruct (Hall k) as (s & Hs' & E); [by eexists|done|]. apply list_elem_of_fmap. eauto.
    - intros (s & -> & Hs)%list_elem_of_fmap. destruct (Hholds s Hs) as (data & E & _).
      split; [|apply is_segment_name; by eapply (proj1 (Forall_forall _ _) Hok)].
      apply list_elem_of_fmap. exists (sg_name path s, data). split; [done|]. by apply elem_of_map_to_list. }
  eapply (StronglySorted_unique_strong (seg_le (seg_prefix path))).
  - intros p q Hp Hq. rewrite merge_sort_Permutation, Hin in Hp. apply list_elem_of_fmap in Hp as (s & -> & Hs).
    apply list_elem_of_fmap in Hq as (s' & -> & Hs'). rewrite Forall_forall in Hok. rewrite !seg_le_key. intros H1 H2.
    destruct (key_total (segmentOrder (seg_prefix path) (sg_name path s)) (segmentOrder (seg_prefix path) (sg_name path s'))) as [?|[E|?]]; [done| |done].
    rewrite !sg_key in E by auto. injection E as E1 E2. unfold sg_name, segment_name. by rewrite E1, E2.
  - apply StronglySorted_merge_sort; apply _.
  - by apply cat_names_sorted.
  - rewrite merge_sort_Permutation. apply NoDup_Permutation; [|by apply cat_names_nodup|exact Hin].
    apply NoDup_ListNoDup, List.NoDup_filter, NoDup_ListNoDup, NoDup_fst_map_to_list.
Qed.

(** ** Lines the log writes *)

Definition not_nl (c : ascii) : bool := negb (ascii_eqb newline c).
Lemma not_nl_absent s : forall_char not_nl s = true → ContainsByte s newline = false.
Proof. intros H. unfold ContainsByte. rewrite exists_char_false. apply negb_false_iff. exact H. Qed.

Lemma esc_ascii_not_nl c : forall_char not_nl (esc_ascii c) = true.
Proof. destruct c as [[] [] [] [] [] [] [] []]; reflexivity. Qed.
Lemma escape_not_nl s : forall_char not_nl (escape s) = true.
Proof.
  unfold escape. pose proof (runes_wf s) as H. induction H as [|r l Hr _ IH]; [done|].
  cbn [concat_map foldr]. fold (concat_map esc_rune l). rewrite forall_char_app, IH, andb_true_r.
  destruct r as [c|t|c]; cbn [esc_rune]; [apply esc_ascii_not_nl| |done].
  unfold line_sep. repeat case_bool_decide; [done|done|]. eapply forall_char_impl; [|exact (wf_multi_high t Hr)].
  intros c Hc. unbool. unfold not_nl. destruct (ascii_eqb newline c) eqn:E; [|done]. apply ascii_eqb_eq in E as <-. by vm_compute in Hc.
Qed.

Lemma Join_forall p l sep :
  forall_char p sep = true → Forall (fun s => forall_char p s = true) l → forall_char p (Join l sep) = true.
Proof.
  intros Hs H. induction H as [|s l Hx Hl IH]; [done|]. destruct l as [|s' l]; [done|].
  change (Join (s :: s' :: l) sep) with (s +:+ sep +:+ Join (s' :: l) sep). by rewrite !forall_char_app, Hx, Hs, IH.
Qed.

Lemma FormatInt_not_nl z : forall_char not_nl (FormatInt z) = true.
Proof. eapply forall_char_impl; [|apply FormatInt_chars]. intros [[] [] [] [] [] [] [] []]; done. Qed.

Definition jval_not_nl (j : jval) : Prop := forall_char not_nl (jtext j) = true.
Lemma JStr_not_nl s : jval_not_nl (JStr s).
Proof. unfold jval_not_nl. cbn [jtext]. unfold json_string. by rewrite !forall_char_app, escape_not_nl. Qed.
Lemma JRaw_not_nl z : jval_not_nl (JRaw (FormatInt z)).
Proof. apply FormatInt_not_nl. Qed.
Lemma omitted_not_nl v j : omitted v = Some j → jval_not_nl j.
Proof. unfold omitted. case_bool_decide; [done|]. intros E. injection E as <-. apply JStr_not_nl. Qed.
Lemma flag_not_nl b j : flag b = Some j → jval_not_nl j.
Proof. destruct b; [|done]. intros E. by injection E as <-. Qed.

Definition field_not_nl (f : string * option jval) : Prop :=
  forall_char not_nl f.1 = true ∧ ∀ j, f.2 = Some j → jval_not_nl j.
Lemma member_not_nl f s : field_not_nl f → member f = Some s → forall_char not_nl s = true.
Proof.
  destruct f as [n [j|]]; [|done]. intros [Hn Hj] E. unfold member in E. cbn [fst snd] in E, Hn. apply (inj Some) in E as <-. unfold key.
  by rewrite !forall_char_app, Hn, (Hj j eq_refl).
Qed.

Lemma fields_not_nl tm e : forall_char not_nl tm = true → Forall field_not_nl (fields_of tm e).
Proof.
  intros Ht. unfold fields_of.
  repeat (apply List.Forall_cons; [split; [reflexivity|]; cbn [snd]; intros j E;
    first [by apply omitted_not_nl in E|by apply flag_not_nl in E|injection E as <-; first [apply JStr_not_nl|apply JRaw_not_nl|exact Ht]]|]).
  constructor.
Qed.

Lemma drop_cr_brace s : drop_cr (s +:+ "}") = s +:+ "}".
Proof. induction s as [|c s IH]; [done|]. cbn [String.append drop_cr]. rewrite IH. by destruct s. Qed.

Lemma braces_line j :
  forall_char not_nl j = true →
  ContainsByte ("{" +:+ j +:+ "}") newline = false ∧ isBlankLine ("{" +:+ j +:+ "}") = false ∧
  drop_cr ("{" +:+ j +:+ "}") = "{" +:+ j +:+ "}".
Proof.
  intros H. split; [|split].
  - apply not_nl_absent. by rewrite !forall_char_app, H.
  - unfold isBlankLine. apply bool_decide_eq_false_2. generalize (j +:+ "}"). intros r. change ("{" +:+ r) with (String "{" r).
    unfold TrimSpace. cbn [TrimLeftSpace]. rewrite (space_len_plain "{" r eq_refl). cbn [TrimRightSpace].
    unfold all_space. cbn [all_space_aux]. by rewrite (space_len_plain "{" r eq_refl).
  - rewrite <-String_append_assoc. apply drop_cr_brace.
Qed.

Lemma members_not_nl tm e :
  forall_char not_nl tm = true → forall_char not_nl (Join (omap id (members tm e)) ",") = true.
Proof.
  intros Ht. rewrite members_fields. pose proof (fields_not_nl tm e Ht) as Hall. revert Hall.
  generalize (fields_of tm e). intros fs Hall. apply Join_forall; [done|]. apply Forall_forall. intros s Hs.
  apply list_elem_of_omap in Hs as (o & Ho & Es). destruct o as [m|]; [|done]. apply (inj Some) in Es as <-.
  apply list_elem_of_fmap in Ho as (f & Ef & Hf). symmetry in Ef. eapply member_not_nl; [|exact Ef].
  by apply (proj1 (Forall_forall _ _) Hall).
Qed.

Section lines.
Context `{TJ : TimeJSON}.

Definition time_text_line : Prop := ∀ t s, time_MarshalJSON t = Some s → forall_char not_nl s = true.

Lemma Marshal_line e line :
  time_text_line → Marshal e = Some line →
  ContainsByte line newline = false ∧ isBlankLine line = false ∧ drop_cr line = line.
Proof.
  intros Ht. unfold Marshal. destruct (time_MarshalJSON (ae_Time e)) as [tm|] eqn:Etm; [|done].
  intros E. apply (inj Some) in E as <-. apply braces_line, members_not_nl, (Ht _ _ Etm).
Qed.
End lines.

(** ** Verifying all segments *)

Section state.
Context `{TJ : TimeJSON} `{ED : Ed25519} `{SH : Sha256} `{DE : EntryDecoder}.
Variables pub signKey path : string.

Fixpoint seg_chain (prev : string) (segs : list seg) : Prop :=
  match segs with
  | [] => True
  | s :: segs' => sg_lines s ≠ [] ∧ chained pub prev 1 (sg_lines s) ∧ seg_chain (last_hash prev (sg_lines s)) segs'
  end.
Fixpoint segs_hash (prev : string) (segs : list seg) : string :=
  match segs with [] => prev | s :: segs' => segs_hash (last_hash prev (sg_lines s)) segs' end.
Fixpoint segs_count (segs : list seg) : Z :=
  match segs with [] => 0 | s :: segs' => Z.of_nat (length (sg_lines s)) + segs_count segs' end.

Lemma seg_chain_snoc prev segs s :
  seg_chain prev (segs ++ [s]) ↔ seg_chain prev segs ∧ sg_lines s ≠ [] ∧ chained pub (segs_hash prev segs) 1 (sg_lines s).
Proof. revert prev. induction segs as [|x segs IH]; intros prev; cbn [app seg_chain segs_hash]; [tauto|]. rewrite IH. tauto. Qed.
Lemma segs_hash_snoc prev segs s : segs_hash prev (segs ++ [s]) = last_hash (segs_hash prev segs) (sg_lines s).
Proof. revert prev. induction segs as [|x segs IH]; intros prev; [done|]. apply IH. Qed.

Lemma segments_loop_chain fs ft first prev total errs segs rest :
  (∀ p, ft_read ft p = false) → (first = true → prev = "") → seg_chain prev segs →
  (∀ s, s ∈ segs → ∃ data, fs !! sg_name path s = Some data ∧ holds data (sg_lines s)) →
  segments_loop fs ft path (Some pub) first prev total errs (map (sg_name path) segs ++ rest) =
  segments_loop fs ft path (Some pub) (first && bool_decide (segs = [])) (segs_hash prev segs) (total + segs_count segs) errs rest.
Proof.
  intros Hft. revert first prev total. induction segs as [|s segs IH]; intros first prev total Hfirst Hc Hf.
  - cbn [map app segs_hash segs_count]. rewrite bool_decide_eq_true_2, andb_true_r, Z.add_0_r by done. done.
  - destruct Hc as (Hne & Hc & Hrest). destruct (Hf s) as (data & Hd & Hh); [by left|].
    cbn [map app segments_loop]. unfold read_file. rewrite Hft, Hd. rewrite (Verify_chained pub data prev 1 (sg_lines s)) by done.
    cbn [mbind option_bind]. rewrite (FileBounds_chained pub data prev 1 (sg_lines s)) by done.
    destruct (sg_lines s) as [|l0 ls] eqn:El; [done|].
    rewrite (bool_decide_eq_false_2 (prev ≠ _)); [|intros Hn; apply Hn; destruct first; [by apply Hfirst|done]].
    cbn [count]. rewrite !Z.add_0_r. rewrite IH; [|done|done|intros x Hx; apply Hf; by right].
    cbn [segs_hash segs_count]. rewrite El. rewrite (bool_decide_eq_false_2 (s :: segs = [])) by done.
    rewrite andb_false_l, andb_false_r. f_equal. lia.
Qed.

(** ** The state of a log *)

Record log_inv (l : Log) (d : Disk) (segs : list seg) (act : list string) : Prop := {
  li_path : lg_path l = path;
  li_key : lg_signKey l = signKey;
  li_cat : catalogue (dk_files d) path segs;
  li_segs : seg_chain "" segs;
  li_act : chained pub (segs_hash "" segs) 1 act;
  li_file : holds (content (dk_files d) path) act;
  li_exists : is_Some (dk_files d !! path) ∨ (lg_open l = false ∧ act = [] ∧ segs ≠ []);
  li_head : lg_prevHash l = last_hash (segs_hash "" segs) act;
  li_seq : next_seq (lg_seq l) = seq_after 1 act;
  li_torn : lg_needsNewline l = true ↔ content (dk_files d) path ≠ text act;
}.

Lemma VerifySegments_ok l d segs act :
  log_inv l d segs act →
  VerifySegments (dk_files d) no_faults path (Some pub) = Some (segs_count segs + Z.of_nat (length act), 0).
Proof.
  intros [_ _ Hcat Hsegs Hact Hfile Hex _ _ _]. unfold VerifySegments. rewrite (discover_catalogue _ _ _ _ Hcat) by done.
  assert (Hloop : ∀ rest, segments_loop (dk_files d) no_faults path (Some pub) true "" 0 0 (map (sg_name path) segs ++ rest) =
    segments_loop (dk_files d) no_faults path (Some pub) (bool_decide (segs = [])) (segs_hash "" segs) (segs_count segs) 0 rest).
  { intros rest. rewrite segments_loop_chain; [done|done|done|done|apply Hcat]. }
  unfold Stat. cbn [no_faults ft_stat negb]. rewrite andb_true_r. destruct (dk_files d !! path) as [data|] eqn:Hd.
  - rewrite bool_decide_eq_true_2 by done. unfold content in Hfile. rewrite Hd in Hfile.
    destruct (map (sg_name path) segs ++ [path]) as [|x xs] eqn:E; [by destruct segs|]. rewrite <-E, Hloop.
    cbn [segments_loop]. unfold read_file. cbn [no_faults ft_read]. rewrite Hd, (Verify_chained pub data _ 1 act Hfile Hact).
    cbn [mbind option_bind]. rewrite (FileBounds_chained pub data _ 1 act Hfile Hact). destruct act as [|a act].
    + rewrite bool_decide_eq_true_2 by done. simpl. f_equal.
    + rewrite (bool_decide_eq_false_2 (segs_hash "" segs ≠ _)); [by rewrite Z.add_0_l|].
      intros Hn. apply Hn. case_bool_decide; [by subst|done].
  - destruct Hex as [[? ?]|(_ & -> & Hne)]; [done|]. rewrite (bool_decide_eq_false_2 (is_Some _)) by (intros [? ?]; done).
    destruct (map (sg_name path) segs ++ []) as [|x xs] eqn:E; [by destruct segs|]. rewrite <-E, Hloop. simpl. by rewrite Z.add_0_r.
Qed.

(** ** Rotation keeps the catalogue *)

Lemma catalogue_active fs segs data : catalogue fs path segs → catalogue (<[path := data]> fs) path segs.
Proof.
  intros [Hok Hs Hd Hh Ha]. split; try done.
  - intros s Hs'. rewrite lookup_insert_ne; [by apply Hh|]. intros E. apply (sg_name_path path s); [|done].
    by apply (proj1 (Forall_forall _ _) Hok).
  - intros p [x Hx] Hp. apply Ha; [|done]. rewrite lookup_insert_ne in Hx; [by eexists|]. intros <-. by rewrite path_not_segment in Hp.
Qed.

Lemma free_name_spec stat t n fuel :
  (∃ m, n ≤ m < n + Z.of_nat fuel ∧ stat (segment_name path t m) = false) →
  ∃ k, n ≤ k < n + Z.of_nat fuel ∧ free_name stat path t n fuel = segment_name path t k ∧
    stat (segment_name path t k) = false ∧ ∀ m, n ≤ m < k → stat (segment_name path t m) = true.
Proof.
  revert n. induction fuel as [|fuel IH]; intros n (m & Hm & Hf); [lia|]. cbn [free_name].
  destruct (stat (segment_name path t n)) eqn:E; [|exists n; split_and!; [lia|lia|done|done|lia]].
  assert (m ≠ n) by congruence. destruct (IH (n + 1)) as (k & Hk & E1 & E2 & Hall); [exists m; split; [lia|done]|].
  exists k. split; [lia|]. split; [done|]. split; [done|]. intros x Hx. destruct (decide (x = n)) as [->|]; [done|]. apply Hall. lia.
Qed.

(** The clock is not behind any segment on disk, and a name is free. *)
Definition rotation_ok (fs : gmap string string) (ft : faults) (now : time) : Prop :=
  stampable now ∧ (∀ p, ft_stat ft p = false) ∧
  (∃ m, 0 ≤ m ≤ maxSegmentCollisions ∧ fs !! segment_name path now m = None) ∧
  ∀ p, is_Some (fs !! p) → is_segment path p = true → str_ltb (Format now) (segmentOrder (seg_prefix path) p).1 = false.

Lemma rotation_target fs ft now segs act :
  catalogue fs path segs → rotation_ok fs ft now →
  ∃ n, rotatedSegmentPath (Stat fs ft) path now = segment_name path now n ∧
    fs !! segment_name path now n = None ∧ seg_ok (mkSeg now n act) ∧
    (∀ s, s ∈ segs → later s (mkSeg now n act)) ∧
    ∀ m, 0 ≤ m < n → ∃ s', s' ∈ segs ∧ Unix (sg_time s') = Unix now ∧ sg_n s' = m.
Proof.
  intros [Hok Hsort Hdense Hholds Hall] (Hst & Hstat & (m0 & Hm0 & Hfree) & Hclock).
  assert (Hs : ∀ n, Stat fs ft (segment_name path now n) = bool_decide (is_Some (fs !! segment_name path now n))).
  { intros n. unfold Stat. by rewrite Hstat, andb_true_r. }
  destruct (free_name_spec (Stat fs ft) now 0 (S (Z.to_nat maxSegmentCollisions))) as (n & Hn & E & Hnone & Htaken).
  { exists m0. split; [lia|]. rewrite Hs. apply bool_decide_eq_false_2. rewrite Hfree. by intros [? ?]. }
  assert (Hmax : maxSegmentCollisions = 10000) by done.
  exists n. rewrite Hs in Hnone. apply bool_decide_eq_false, eq_None_not_Some in Hnone.
  assert (Hex : ∀ m, 0 ≤ m < n → ∃ s', s' ∈ segs ∧ Unix (sg_time s') = Unix now ∧ sg_n s' = m).
  { intros m Hm. specialize (Htaken m Hm). rewrite Hs in Htaken. apply bool_decide_eq_true in Htaken.
    destruct (Hall _ Htaken) as (s & Hin & Es). { apply (is_segment_name path (mkSeg now m [])). split; simpl; [done|lia]. }
    exists s. split; [done|]. pose proof (proj1 (Forall_forall _ _) Hok s Hin) as [Hst' Hn'].
    apply name_Unix in Es; [|done|done|lia|lia]. destruct Es as [-> ->]. done. }
  split_and!; [exact E|done|split; simpl; [done|lia]| |done].
  intros s Hin. unfold later. cbn [sg_time sg_n]. pose proof (proj1 (Forall_forall _ _) Hok s Hin) as Hso.
  pose proof Hso as [Hst' Hn']. destruct (Hholds s Hin) as (data & Hdata & _).
  assert (Hle : Unix (sg_time s) ≤ Unix now).
  { apply Z.nlt_ge. intros Hlt. pose proof (Hclock (sg_name path s) ltac:(by eexists) (is_segment_name path s Hso)) as Hc.
    rewrite sg_key in Hc by done. cbn [fst] in Hc. by rewrite Format_lt in Hc. }
  destruct (decide (Unix (sg_time s) = Unix now)) as [Eu|]; [right|left; lia]. split; [done|]. apply Z.nle_gt. intros Hge.
  assert (Hsame : ∃ s', s' ∈ segs ∧ Unix (sg_time s') = Unix now ∧ sg_n s' = n).
  { destruct (decide (sg_n s = n)) as [En|]; [by exists s|]. destruct (Hdense s n Hin) as (s' & ? & ? & ?); [lia|].
    exists s'. split_and!; [done|congruence|done]. }
  destruct Hsame as (s' & Hin' & Eu' & En'). destruct (Hholds s' Hin') as (data' & Hdata' & _).
  assert (Ename : sg_name path s' = segment_name path now n).
  { unfold sg_name, segment_name. by rewrite En', (Format_Unix _ _ Eu'). }
  rewrite Ename in Hdata'. congruence.
Qed.

Lemma catalogue_rotate fs ft now segs act :
  catalogue fs path segs → rotation_ok fs ft now → holds (content fs path) act →
  ∃ n, rotatedSegmentPath (Stat fs ft) path now = segment_name path now n ∧ fs !! segment_name path now n = None ∧
    segment_name path now n ≠ path ∧
    catalogue (<[segment_name path now n := content fs path]> (delete path fs)) path (segs ++ [mkSeg now n act]).
Proof.
  intros Hcat Hr Hact. destruct (rotation_target fs ft now segs act Hcat Hr) as (n & E & Hnone & Hok' & Hlater & Htaken).
  exists n. split; [exact E|]. split; [exact Hnone|]. set (s0 := mkSeg now n act). change (segment_name path now n) with (sg_name path s0) in *.
  pose proof (sg_name_path path s0 Hok') as Hne. split; [done|]. destruct Hcat as [Hok Hsort Hdense Hholds Hall]. split.
  - apply Forall_app. split; [done|]. by constructor.
  - clear -Hsort Hlater. induction Hsort as [|s segs Hs IH Hf]; [repeat constructor|]. cbn [app]. constructor.
    + apply IH. intros x Hx. apply Hlater. by right.
    + apply Forall_app. split; [done|]. constructor; [apply Hlater; by left|constructor].
  - intros s m [Hin|Hin%list_elem_of_singleton]%elem_of_app Hm.
    + destruct (Hdense s m Hin Hm) as (s' & ? & ?). exists s'. split; [|done]. apply elem_of_app. by left.
    + subst s. destruct (Htaken m) as (s' & ? & ?); [exact Hm|]. exists s'. split; [|done]. apply elem_of_app. by left.
  - intros s [Hin|Hin%list_elem_of_singleton]%elem_of_app.
    + destruct (Hholds s Hin) as (data & Hd & Hh). exists data. split; [|done].
      rewrite lookup_insert_ne by (intros Ex; rewrite <-Ex in Hd; congruence).
      rewrite lookup_delete_ne; [done|]. intros Ex. apply (sg_name_path path s); [|done]. by apply (proj1 (Forall_forall _ _) Hok).
    + subst s. eexists. split; [apply lookup_insert_eq|done].
  - intros p [x Hx] Hp. destruct (decide (p = sg_name path s0)) as [->|Hnp].
    + exists s0. split; [|done]. apply elem_of_app. right. by apply list_elem_of_singleton.
    + rewrite lookup_insert_ne in Hx by done. destruct (decide (p = path)) as [->|Hpp]; [by rewrite lookup_delete_eq in Hx|].
      rewrite lookup_delete_ne in Hx by done. destruct (Hall p) as (s & ? & ?); [by eexists|done|]. exists s. split; [|done]. apply elem_of_app. by left.
Qed.

(** ** Operations keep the chain *)

Definition all_lines (segs : list seg) (act : list string) : list string := flat_map sg_lines segs ++ act.

Lemma all_lines_rotated segs act now n : all_lines (segs ++ [mkSeg now n act]) [] = all_lines segs act.
Proof. unfold all_lines. rewrite flat_map_app. cbn [flat_map sg_lines]. by rewrite !app_nil_r. Qed.

Lemma content_insert (fs : gmap string string) p x : content (<[p := x]> fs) p = x.
Proof. unfold content. by rewrite lookup_insert_eq. Qed.
Lemma content_create (fs : gmap string string) p : content (create fs p) p = content fs p.
Proof. unfold create, content. destruct (fs !! p) eqn:E; by rewrite ?E, ?lookup_insert_eq. Qed.
Lemma create_exists (fs : gmap string string) p : is_Some (create fs p !! p).
Proof. unfold create. destruct (fs !! p) eqn:E; [by rewrite E|by rewrite lookup_insert_eq]. Qed.
Lemma catalogue_create fs segs : catalogue fs path segs → catalogue (create fs path) path segs.
Proof. intros H. unfold create. destruct (fs !! path); [done|by apply catalogue_active]. Qed.

(** Opening the active file. *)
Lemma log_inv_open l d segs act :
  log_inv l d segs act → log_inv (set_open true l) (mkDisk (create (dk_files d) path) (dk_synced d)) segs act.
Proof.
  intros [? ? Hcat ? ? ? ? ? ? ?]. split; cbn [dk_files set_open lg_path lg_signKey lg_prevHash lg_seq lg_needsNewline]; rewrite ?content_create; try done.
  - by apply catalogue_create.
  - left. apply create_exists.
Qed.

(** Flags and counters do not matter. *)
Lemma log_inv_ext l l' d d' segs act :
  log_inv l d segs act → dk_files d' = dk_files d → is_Some (dk_files d !! path) ∨ lg_open l' = false →
  lg_path l' = lg_path l → lg_signKey l' = lg_signKey l → lg_prevHash l' = lg_prevHash l → lg_seq l' = lg_seq l →
  lg_needsNewline l' = lg_needsNewline l → log_inv l' d' segs act.
Proof.
  intros [? ? ? ? ? ? Hex ? ? ?] Hd Ho ? ? E1 E2 E3. split; rewrite ?Hd, ?E1, ?E2, ?E3; try done; try congruence.
  destruct Ho as [Ho|Ho]; [by left|]. destruct Hex as [Hex|(_ & ? & ?)]; [by left|by right].
Qed.

Lemma maybeRotate_inv l d now ft l' d' segs act :
  log_inv l d segs act → (rotation_due (dk_files d) ft l = true → rotation_ok (dk_files d) ft now) →
  maybeRotate l d now ft = (l', d') →
  ∃ segs' act', log_inv l' d' segs' act' ∧ all_lines segs' act' = all_lines segs act.
Proof.
  intros Hinv Hrot. unfold maybeRotate. destruct (rotation_due (dk_files d) ft l) eqn:Hdue; cbn [negb];
    [|intros [= <- <-]; by exists segs, act].
  destruct (ft_presync ft); [intros [= <- <-]; by exists segs, act|]. cbn [fsync dk_files].
  specialize (Hrot eq_refl). pose proof Hinv as [Hp Hk Hcat Hs Ha Hf Hex Hh Hq Ht]. rewrite Hp.
  destruct (catalogue_rotate (dk_files d) ft now segs act Hcat Hrot Hf) as (n & Erot & Hfresh & Hne & Hcat'). rewrite Erot.
  unfold rotation_due in Hdue. rewrite Hp in Hdue. apply andb_true_iff in Hdue as [[[Hm Hopen]%andb_true_iff _]%andb_true_iff Hsz].
  assert (Hsome : is_Some (dk_files d !! path)) by (destruct Hex as [?|[? _]]; [done|congruence]).
  assert (Hact : act ≠ []).
  { intros ->. apply holds_nil in Hf. rewrite Hf in Hsz. unbool. change (slen "") with 0 in Hsz. lia. }
  destruct (ft_rename ft).
  { intros [= <- <-]. exists segs, act. split; [|done]. eapply log_inv_ext; [exact Hinv|done|by left|done..]. }
  set (d1 := rename _ _ _). set (l1 := set_head _ _ _ _).
  assert (H1 : log_inv l1 d1 (segs ++ [mkSeg now n act]) []).
  { assert (Hgone : dk_files d1 !! path = None).
    { unfold d1, rename, fsync. cbn [dk_files]. rewrite lookup_insert_ne by done. apply lookup_delete_eq. }
    split; cbn [l1 set_head set_open set_sync lg_path lg_signKey lg_prevHash lg_seq lg_needsNewline lg_open]; try done.
    - apply seg_chain_snoc. cbn [sg_lines]. done.
    - left. unfold content. by rewrite Hgone.
    - right. split_and!; [done|done|]. by destruct segs.
    - rewrite segs_hash_snoc. cbn [sg_lines]. by rewrite Hh.
    - split; [done|]. unfold content. by rewrite Hgone. }
  assert (Hall : all_lines (segs ++ [mkSeg now n act]) [] = all_lines segs act) by apply all_lines_rotated.
  destruct (ft_reopen ft); intros [= <- <-]; (exists (segs ++ [mkSeg now n act]), []); (split; [|exact Hall]); [exact H1|].
  apply log_inv_open in H1. exact H1.
Qed.

Lemma ensureOpen_inv l d ft l' d' segs act :
  log_inv l d segs act → ensureOpen l d ft = Ok (l', d') →
  log_inv l' d' segs act ∧ is_Some (dk_files d' !! path).
Proof.
  intros Hinv. unfold ensureOpen. destruct (lg_open l) eqn:Ho.
  - intros [= <- <-]. split; [done|]. destruct (li_exists _ _ _ _ Hinv) as [?|[? _]]; [done|congruence].
  - destruct (ft_open ft); [done|]. intros [= <- <-]. pose proof (li_path _ _ _ _ Hinv) as ->.
    split; [by apply log_inv_open|]. apply create_exists.
Qed.

(** What is needed of the primitives: the key pair signs and checks, sizes are
    those of Ed25519 and SHA-256, and a timestamp is a short text on one line. *)
Record setting : Prop := {
  hs_sign : ∀ m, ed_check pub m (ed_sign signKey m) = true;
  hs_pub : String.length pub = PublicKeySize;
  hs_siglen : ∀ m, String.length (ed_sign signKey m) = 64%nat;
  hs_digest : ∀ s, String.length (Sum256 s) = 32%nat;
  hs_time : time_text_ok;
  hs_line : time_text_line;
}.

(** The record an append will sign, and that its line decodes to it. *)
Definition next_record (l : Log) (d : Disk) (e : Entry) (now : time) (ft : faults) : option Entry :=
  let l1 := (maybeRotate l d now ft).1 in
  seal_entry (lg_signKey l1) (entry_time (prepared l e) now) (next_seq (lg_seq l1)) (lg_prevHash l1) (prepared l e).
Definition reads_back (o : option Entry) : Prop :=
  ∀ e line, o = Some e → Marshal e = Some line → Unmarshal line = Some e.

Lemma redact_shape r e : entry_shape e → entry_shape (redact_entry r e).
Proof. intros [? ? ? ? ?]. destruct r; [|done]. by split. Qed.

Lemma line_hash_ok s : setting → slen (line_hash s) ≤ 64 ∧ forall_char plain_json (line_hash s) = true.
Proof.
  intros Hs. unfold line_hash. destruct (hex_EncodeToString_spec (Sum256 s)) as [Hl Hc]. split.
  - unfold slen. rewrite Hl, (hs_digest Hs). done.
  - eapply forall_char_impl; [|exact Hc]. intros [[] [] [] [] [] [] [] []]; done.
Qed.
Lemma last_hash_ok prev lines :
  setting → slen prev ≤ 64 ∧ forall_char plain_json prev = true →
  slen (last_hash prev lines) ≤ 64 ∧ forall_char plain_json (last_hash prev lines) = true.
Proof. intros Hs Hp. unfold last_hash. destruct (last lines); [by apply line_hash_ok|done]. Qed.
Lemma segs_hash_ok prev segs :
  setting → slen prev ≤ 64 ∧ forall_char plain_json prev = true →
  slen (segs_hash prev segs) ≤ 64 ∧ forall_char plain_json (segs_hash prev segs) = true.
Proof. intros Hs. revert prev. induction segs as [|s segs IH]; intros prev Hp; [done|]. by apply IH, last_hash_ok. Qed.

Lemma next_seq_range k : 0 ≤ next_seq k < 2 ^ 64.
Proof. apply Z.mod_pos_bound. lia. Qed.

Lemma fit_loop_time n e : ae_Time (fit_loop n e) = ae_Time e.
Proof.
  revert e. induction n as [|n IH]; intros e; cbn [fit_loop]; [done|]. destruct (Marshal e); [|done]. destruct (_ <=? _); [done|].
  destruct (match longestTrimmable e free_fields with Some _ => _ | None => _ end); [|done]. by rewrite IH.
Qed.

(** A record as the log writes it extends a chain. *)
Lemma sealed_chained e tm seq prev e' line :
  setting → entry_shape e → tm = ae_Time (fitEntry e) ∨ ae_Time (fitEntry e) = None → 0 ≤ seq < 2 ^ 64 →
  slen prev ≤ 64 ∧ forall_char plain_json prev = true →
  seal_entry signKey tm seq prev (fitEntry e) = Some e' → Marshal e' = Some line → Unmarshal line = Some e' →
  chained pub prev seq [line].
Proof.
  intros Hset Hshape Htm Hseq [Hp1 Hp2] Hseal Hline Hdec. cbn [chained]. split_and!; [| |done].
  - unfold plain_line. split; [|by apply (Marshal_line e' line (hs_line Hset))].
    eapply (sealed_line_short signKey e tm); [apply Hset|done| |done|done|done|apply Hset|exact Hseal|exact Hline].
    assert (Et : ae_Time (fitEntry e) = ae_Time e) by (unfold fitEntry; apply fit_loop_time). by rewrite <-Et.
  - exists e'. split; [done|]. unfold seal_entry in Hseal.
    destruct (Marshal (set_chain tm seq prev "" (fitEntry e))) as [m|] eqn:Em; [|done]. injection Hseal as <-.
    split; [|done]. unfold VerifyEntry. cbn [ae_Sig set_chain]. rewrite Std_roundtrip.
    match goal with |- context [Marshal ?x] => change (Marshal x) with (Marshal (set_chain tm seq prev "" (fitEntry e))) end.
    rewrite Em. unfold ed25519_Verify. by rewrite (hs_pub Hset), Nat.eqb_refl, (hs_sign Hset).
Qed.

Lemma append_write_inv l d e now ft l' d' r segs act :
  setting → log_inv l d segs act → (rotation_due (dk_files d) ft l = true → rotation_ok (dk_files d) ft now) →
  entry_shape e → reads_back (next_record l d e now ft) → ft_write ft = None ∨ ft_write ft = Some O →
  append_write l d e now ft = (l', d', r) →
  ∃ segs' act', log_inv l' d' segs' act' ∧
    match r with
    | Ok _ => ∃ line, all_lines segs' act' = all_lines segs act ++ [line]
    | Err _ => all_lines segs' act' = all_lines segs act
    end.
Proof.
  intros Hset Hinv Hrot Hshape Hread Hw. unfold append_write.
  unfold next_record in Hread. destruct (maybeRotate l d now ft) as [l1 d1] eqn:Hmr. cbn [fst] in Hread.
  destruct (maybeRotate_inv _ _ _ _ _ _ _ _ Hinv Hrot Hmr) as (segs1 & act1 & Hinv1 & Hall).
  destruct (ensureOpen l1 d1 ft) as [[l2 d2]|err] eqn:Heo; [|intros [= <- <- <-]; by exists segs1, act1].
  destruct (ensureOpen_inv _ _ _ _ _ _ _ Hinv1 Heo) as [Hinv2 Hfile].
  assert (Hsame : lg_signKey l2 = lg_signKey l1 ∧ lg_seq l2 = lg_seq l1 ∧ lg_prevHash l2 = lg_prevHash l1).
  { revert Heo. unfold ensureOpen. destruct (lg_open l1); [by intros [= <- <-]|]. destruct (ft_open ft); [done|]. by intros [= <- <-]. }
  destruct Hsame as (Ek & Es & Ep). rewrite <-Ek, <-Es, <-Ep in Hread. clear Ek Es Ep.
  destruct (seal_entry _ _ _ _ _) as [e'|] eqn:Hseal; [|intros [= <- <- <-]; by exists segs1, act1].
  destruct (Marshal e') as [line|] eqn:Hline; [|intros [= <- <- <-]; by exists segs1, act1].
  specialize (Hread e' line eq_refl Hline). pose proof Hinv2 as [Hp Hk Hcat Hs Ha Hf Hex Hh Hq Ht]. rewrite Hp.
  destruct Hw as [Hw|Hw]; rewrite Hw; intros [= <- <- <-].
  - exists segs1, (act1 ++ [line]). split; [|exists line; unfold all_lines in *; by rewrite app_assoc, Hall].
    assert (Hc : chained pub (lg_prevHash l2) (next_seq (lg_seq l2)) [line]).
    { rewrite Hk in Hseal. eapply (sealed_chained (redact_entry (lg_redactor l) e)); [done|by apply redact_shape| |apply next_seq_range| |exact Hseal|done|done].
      - unfold prepared, entry_time. destruct (ae_Time (fitEntry _)); [by left|by right].
      - rewrite Hh. apply last_hash_ok, segs_hash_ok; [done..|]. split; [vm_compute; discriminate|done]. }
    split; cbn [dk_files set_sync set_head lg_path lg_signKey lg_prevHash lg_seq lg_needsNewline lg_open]; rewrite ?content_insert; try done.
    + by apply catalogue_active.
    + apply chained_app. split; [done|]. by rewrite <-Hh, <-Hq.
    + left. by apply holds_snoc.
    + left. by rewrite lookup_insert_eq.
    + by rewrite last_hash_snoc.
    + by rewrite seq_after_snoc, Hq.
    + split; [done|]. intros Hn. exfalso. by apply Hn, holds_snoc.
  - exists segs1, act1. split; [|done]. destruct Hfile as [data Hdata].
    eapply log_inv_ext; [exact Hinv2| |left; by eexists|done..].
    cbn [dk_files]. rewrite String_append_nil. apply insert_id. unfold content. by rewrite Hdata.
Qed.

(** ** Restarting *)

Lemma filter_names segs (b : bool) :
  Forall seg_ok segs →
  List.filter (fun s => negb (bool_decide (s = path))) (map (sg_name path) segs ++ (if b then [path] else [])) =
  map (sg_name path) segs.
Proof.
  intros Hok. rewrite List.filter_app. assert (E : List.filter (fun s => negb (bool_decide (s = path))) (if b then [path] else []) = []).
  { destruct b; [|done]. cbn [List.filter]. by rewrite bool_decide_eq_true_2. }
  rewrite E, app_nil_r. induction Hok as [|s segs Hs _ IH]; [done|]. cbn [map List.filter].
  rewrite bool_decide_eq_false_2 by (by apply sg_name_path). cbn [negb]. by rewrite IH.
Qed.

Lemma seed_ok fs segs :
  catalogue fs path segs → seg_chain "" segs →
  seedFromRotatedSegments fs no_faults (fresh_log path signKey) =
    Ok (set_head 0 (segs_hash "" segs) false (fresh_log path signKey)).
Proof.
  intros Hcat Hc. unfold seedFromRotatedSegments. cbn [fresh_log lg_path].
  rewrite (discover_catalogue _ _ _ _ Hcat) by done. cbn [rbind]. rewrite filter_names by apply Hcat.
  destruct (last segs) as [s|] eqn:El.
  - apply last_Some in El as [init ->]. rewrite List.map_app. cbn [map]. rewrite last_snoc.
    apply seg_chain_snoc in Hc as (_ & Hne & Hc). rewrite segs_hash_snoc.
    destruct (cat_holds _ _ _ Hcat s) as (data & Hd & Hh); [apply elem_of_app; right; by apply list_elem_of_singleton|].
    unfold read_file. cbn [no_faults ft_read]. rewrite Hd, (FileBounds_chained pub data _ 1 _ Hh Hc).
    destruct (sg_lines s); done.
  - apply last_None in El as ->. done.
Qed.

Lemma last_char_app s c t : last_char (s +:+ String c t) = last_char (String c t).
Proof. induction s as [|x s IH]; [done|]. cbn [String.append last_char]. destruct s; [done|exact IH]. Qed.
Lemma last_char_absent s : ContainsByte s newline = false → last_char s ≠ Some newline.
Proof.
  unfold ContainsByte. induction s as [|c s IH]; [done|]. cbn [exists_char]. intros [Hc Hs]%orb_false_iff.
  destruct s as [|d s]; cbn [last_char]; [|by apply IH]. intros [= ->]. by rewrite ascii_eqb_refl in Hc.
Qed.

Lemma torn_spec data act :
  holds data act → Forall plain_line act → act ≠ [] → (last_char data ≠ Some newline ↔ data ≠ text act).
Proof.
  intros Hh Hp Hne. destruct (last act) as [l|] eqn:El; [|by apply last_None in El].
  apply last_Some in El as [init ->]. apply Forall_app in Hp as [_ [Hl _]%Forall_cons].
  assert (Et : text (init ++ [l]) = (text init +:+ l) +:+ nl).
  { rewrite text_app. cbn [text]. by rewrite String_append_nil, String_append_assoc. }
  destruct Hh as [->|[_ Hh]].
  - rewrite Et. split; [|done]. intros H. exfalso. apply H. exact (last_char_app (text init +:+ l) newline "").
  - rewrite Et in Hh. apply append_nl_inj in Hh as ->. split; intros _.
    + rewrite Et. intros E. apply (f_equal String.length) in E. rewrite !String_length_app in E. simpl in E. lia.
    + pose proof (plain_nonempty l Hl) as Hn. destruct Hl as (_ & Hnl & _). destruct l as [|c l]; [done|].
      rewrite last_char_app. by apply last_char_absent.
Qed.

(** A crash cuts the active file at a line boundary, before or after the
    newline, or leaves it whole. *)
Definition crash_cut (data data' : string) : Prop :=
  data' = data ∨ ∃ lines rest, data = text lines +:+ rest ∧ Forall (fun l => ContainsByte l newline = false) lines ∧ holds data' lines.

Lemma text_prefix lines rest act :
  Forall (fun l => ContainsByte l newline = false) lines → Forall plain_line act →
  text act = text lines +:+ rest → ∃ act2, act = lines ++ act2.
Proof.
  intros Hl. revert act. induction Hl as [|l lines Hl _ IH]; intros act Ha E; [by exists act|].
  cbn [text] in E. rewrite !String_append_assoc in E. destruct act as [|a act]; [by destruct l|]. cbn [text] in E.
  apply Forall_cons in Ha as [(_ & Ha & _) Hp]. change (nl +:+ ?x) with (String newline x) in E.
  apply (split_at_unique newline) in E as [-> E]; [|done..]. destruct (IH act Hp E) as [act2 ->]. by exists act2.
Qed.

Lemma crash_cut_holds data data' act :
  holds data act → Forall plain_line act → crash_cut data data' → ∃ act1 act2, act = act1 ++ act2 ∧ holds data' act1.
Proof.
  intros Hh Hp [->|(lines & rest & E & Hl & Hh')]; [exists act, []; by rewrite app_nil_r|].
  assert (Ht : ∃ rest', text act = text lines +:+ rest').
  { destruct Hh as [->|[_ Hh]]; [by exists rest|]. exists (rest +:+ nl). by rewrite <-Hh, E, String_append_assoc. }
  destruct Ht as [rest' Ht]. destruct (text_prefix lines rest' act Hl Hp Ht) as [act2 ->]. by exists lines, act2.
Qed.

Lemma Open_inv l d segs act fs' d' :
  log_inv l d segs act →
  match dk_files d !! path with
  | None => fs' = dk_files d
  | Some data => ∃ data', crash_cut data data' ∧ fs' = <[path := data']> (dk_files d)
  end → dk_files d' = fs' →
  ∃ l' act1 act2, Open d' no_faults path signKey = Ok (l', mkDisk (create fs' path) (dk_synced d')) ∧
    log_inv l' (mkDisk (create fs' path) (dk_synced d')) segs act1 ∧ act = act1 ++ act2 ∧
    lg_writeCount l' = 0 ∧ lg_syncedCount l' = 0 ∧ lg_syncing l' = false ∧ lg_open l' = true ∧
    holds (content fs' path) act1.
Proof.
  intros [Hp Hk Hcat Hs Ha Hf Hex Hh Hq Ht] Hcut Hd'. unfold Open. rewrite Hd'.
  assert (Hfs : ∃ act1 act2, act = act1 ++ act2 ∧ holds (content fs' path) act1 ∧ catalogue fs' path segs ∧
            (fs' !! path = None → act1 = [])).
  { unfold content in Hf. destruct (dk_files d !! path) as [data|] eqn:Ed.
    - destruct Hcut as (data' & Hc & ->). destruct (crash_cut_holds _ _ _ Hf (chained_plain _ _ _ _ Ha) Hc) as (a1 & a2 & -> & Hh1).
      exists a1, a2. rewrite content_insert. split_and!; [done|done|by apply catalogue_active|by rewrite lookup_insert_eq].
    - subst fs'. destruct Hex as [[? ?]|(_ & -> & _)]; [done|]. exists [], []. unfold content. rewrite Ed. by split_and!. }
  destruct Hfs as (act1 & act2 & -> & Hf1 & Hcat1 & Hnone). apply chained_app in Ha as [Ha1 _].
  pose proof (chained_plain _ _ _ _ Ha1) as Hp1.
  assert (Hseed : act1 = [] → ∃ l', restoreChain fs' no_faults (fresh_log path signKey) = Ok l' ∧
    l' = set_head 0 (segs_hash "" segs) false (fresh_log path signKey)).
  { intros ->. exists (set_head 0 (segs_hash "" segs) false (fresh_log path signKey)). split; [|done]. unfold restoreChain.
    cbn [fresh_log lg_path no_faults ft_read]. unfold content in Hf1. destruct (fs' !! path) as [data|]; [|by apply seed_ok].
    apply holds_nil in Hf1 as ->. change (scan "") with ([] : list string, false). by apply seed_ok. }
  assert (Hres : ∃ l', restoreChain fs' no_faults (fresh_log path signKey) = Ok l' ∧
    ∃ seq torn, l' = set_head seq (last_hash (segs_hash "" segs) act1) torn (fresh_log path signKey) ∧
      next_seq seq = seq_after 1 act1 ∧ (torn = true ↔ content fs' path ≠ text act1)).
  { destruct (last act1) as [lastLine|] eqn:El.
    - unfold restoreChain. cbn [fresh_log lg_path no_faults ft_read]. unfold content in *.
      destruct (fs' !! path) as [data|] eqn:Ed; [|specialize (Hnone eq_refl); by subst act1].
      rewrite (scan_holds data act1) by done. unfold last_record. rewrite filter_plain, El by done.
      apply last_Some in El as [init ->]. pose proof Ha1 as Ha1'. apply chained_app in Ha1' as [_ (_ & (e & He & _) & _)]. rewrite He.
      eexists. split; [done|]. eexists _, _. rewrite last_hash_snoc. split; [done|]. split; [by eapply chained_last|].
      cbn [no_faults ft_tail negb andb]. rewrite bool_decide_eq_true. apply torn_spec; [done|done|by destruct init].
    - apply last_None in El as ->. destruct (Hseed eq_refl) as (l' & E & ->). eexists. split; [exact E|].
      exists 0, false. split; [done|]. split; [done|]. apply holds_nil in Hf1. rewrite Hf1. done. }
  destruct Hres as (l' & -> & seq & torn & -> & Hseq & Htorn). cbn [rbind no_faults ft_open].
  exists (set_open true (set_head seq (last_hash (segs_hash "" segs) act1) torn (fresh_log path signKey))), act1, act2.
  split; [done|]. split; [|done]. split; cbn [dk_files]; rewrite ?content_create; try done.
  - by apply catalogue_create.
  - left. apply create_exists.
Qed.

(** ** Stable storage *)

Definition extends (c data : string) : Prop := ∃ x, data = c +:+ x.
Definition has_line (c line : string) : Prop := ∃ a b, c = a +:+ line +:+ nl +:+ b.
(** The bytes of a record have been flushed. *)
Definition durable (d : Disk) (line : string) : Prop := ∃ p c, dk_synced d !! p = Some c ∧ has_line c line.

Lemma has_line_extends c data line : has_line c line → extends c data → has_line data line.
Proof. intros (a & b & ->) [x ->]. exists a, (b +:+ x). by rewrite !String_append_assoc. Qed.
Lemma extends_refl c : extends c c.
Proof. exists "". by rewrite String_append_nil. Qed.
Lemma extends_trans a b c : extends a b → extends b c → extends a c.
Proof. intros [x ->] [y ->]. exists (x +:+ y). by rewrite String_append_assoc. Qed.
Lemma extends_empty c : extends "" c.
Proof. by exists c. Qed.

(** What was flushed is still in the files. *)
Definition synced_ok (d : Disk) : Prop :=
  ∀ p c, dk_synced d !! p = Some c → ∃ data, dk_files d !! p = Some data ∧ extends c data.

(** The lines of this process, by write count: up to [k] they are durable, the
    others are in the active file. *)
Definition lines_ok (d : Disk) (lines : list string) (k : Z) : Prop :=
  ∀ i line, lines !! i = Some line →
    if decide (Z.of_nat i < k) then durable d line else has_line (content (dk_files d) path) line.

Lemma durable_mono d d' line :
  (∀ p c, dk_synced d !! p = Some c → ∃ p' c', dk_synced d' !! p' = Some c' ∧ extends c c') → durable d line → durable d' line.
Proof.
  intros H (p & c & Hp & Hl). destruct (H p c Hp) as (p' & c' & Hp' & He). exists p', c'. split; [done|].
  by eapply has_line_extends.
Qed.

(** Flushing the active file makes durable what was in it. *)
Lemma fsync_synced d upto :
  synced_ok d → extends (content (dk_synced d) path) upto → extends upto (content (dk_files d) path) →
  is_Some (dk_files d !! path) →
  synced_ok (fsync d path upto) ∧ (∀ line, durable d line → durable (fsync d path upto) line) ∧
  ∀ line, has_line upto line → durable (fsync d path upto) line.
Proof.
  intros Hs He1 He2 [data Hdata]. unfold fsync. split; [|split].
  - intros p c. cbn [dk_synced dk_files]. destruct (decide (p = path)) as [->|Hn].
    + rewrite lookup_insert_eq. intros [= <-]. exists data. split; [done|]. unfold content in He2. by rewrite Hdata in He2.
    + rewrite lookup_insert_ne by done. apply Hs.
  - intros line. apply durable_mono. intros p c Hp. cbn [dk_synced]. destruct (decide (p = path)) as [->|Hn].
    + exists path, upto. rewrite lookup_insert_eq. split; [done|]. unfold content in He1. by rewrite Hp in He1.
    + exists p, c. rewrite lookup_insert_ne by done. split; [done|]. apply extends_refl.
  - intros line Hl. exists path, upto. cbn [dk_synced]. by rewrite lookup_insert_eq.
Qed.

Lemma rename_synced d q :
  synced_ok d → dk_files d !! q = None → q ≠ path → is_Some (dk_files d !! path) →
  synced_ok (rename d path q) ∧ ∀ line, durable d line → durable (rename d path q) line.
Proof.
  intros Hs Hq Hne [data Hdata]. unfold rename. split.
  - intros p c. cbn [dk_synced dk_files]. destruct (decide (p = q)) as [->|Hn].
    + rewrite !lookup_insert_eq. intros [= <-]. exists data. unfold content. rewrite Hdata. split; [done|].
      destruct (dk_synced d !! path) as [c|] eqn:Ec; [|apply extends_empty].
      destruct (Hs path c Ec) as (data' & Hd' & He). by assert (data' = data) as -> by congruence.
    + rewrite !lookup_insert_ne by done. destruct (decide (p = path)) as [->|Hp]; [by rewrite lookup_delete_eq|].
      rewrite !lookup_delete_ne by done. apply Hs.
  - intros line. apply durable_mono. intros p c Hp. cbn [dk_synced]. destruct (decide (p = path)) as [->|Hn].
    + exists q, c. rewrite lookup_insert_eq. unfold content. rewrite Hp. split; [done|]. apply extends_refl.
    + exists p, c. rewrite lookup_insert_ne, lookup_delete_ne; [split; [done|apply extends_refl]|done|].
      intros ->. destruct (Hs p c Hp) as (? & ? & _). congruence.
Qed.

Lemma create_synced d : synced_ok d → synced_ok (mkDisk (create (dk_files d) path) (dk_synced d)).
Proof.
  intros Hs p c Hp. cbn [dk_synced dk_files] in *. destruct (Hs p c Hp) as (data & Hd & He). exists data. split; [|done].
  unfold create. destruct (dk_files d !! path) eqn:E; [done|]. rewrite lookup_insert_ne; [done|]. intros <-. congruence.
Qed.

(** Counters and flushed bytes of a process. *)
Record sync_inv (l : Log) (d : Disk) (lead : option (Z * Z * string)) (wait : list Z) (lines : list string) : Prop := {
  si_synced : synced_ok d;
  si_lines : lines_ok d lines (lg_syncedCount l);
  si_count : lg_writeCount l = Z.of_nat (length lines) ∧ 0 ≤ lg_syncedCount l ≤ lg_writeCount l;
  si_open : lg_open l = false → lg_syncedCount l = lg_writeCount l;
  si_file : lg_open l = true → is_Some (dk_files d !! path);
  si_wait : ∀ n, n ∈ wait → 1 ≤ n ≤ lg_writeCount l;
  si_lead : match lead with
            | None => lg_syncing l = false
            | Some (n, target, c) =>
                lg_syncing l = true ∧ lg_open l = true ∧ target ≤ lg_writeCount l ∧
                extends (content (dk_synced d) path) c ∧ extends c (content (dk_files d) path) ∧
                ∀ i line, lines !! i = Some line → lg_syncedCount l ≤ Z.of_nat i < target → has_line c line
            end;
}.

Lemma content_synced d : synced_ok d → extends (content (dk_synced d) path) (content (dk_files d) path).
Proof.
  intros Hs. unfold content. destruct (dk_synced d !! path) as [c|] eqn:E; [|apply extends_empty].
  by destruct (Hs path c E) as (data & -> & He).
Qed.

(** After a flush of the whole active file every line is durable. *)
Lemma lines_flushed d d' lines k :
  lines_ok d lines k → (∀ line, durable d line → durable d' line) →
  (∀ line, has_line (content (dk_files d) path) line → durable d' line) → lines_ok d' lines (Z.of_nat (length lines)).
Proof.
  intros Hl H1 H2 i line Hi. rewrite decide_True by (apply lookup_lt_Some in Hi; lia).
  specialize (Hl i line Hi). case_decide; auto.
Qed.

Lemma maybeRotate_sync l d now ft l' d' lead wait lines segs act :
  sync_inv l d lead wait lines → log_inv l d segs act →
  (rotation_due (dk_files d) ft l = true → lead = None ∧ rotation_ok (dk_files d) ft now) →
  maybeRotate l d now ft = (l', d') → sync_inv l' d' lead wait lines ∧ ∀ line, durable d line → durable d' line.
Proof.
  intros Hsync Hinv Hrot. unfold maybeRotate. destruct (rotation_due (dk_files d) ft l) eqn:Hdue; cbn [negb];
    [|by intros [= <- <-]].
  destruct (ft_presync ft); [by intros [= <- <-]|]. destruct (Hrot eq_refl) as [-> Hok].
  pose proof Hinv as [Hp _ Hcat _ _ Hf _ _ _ _]. rewrite Hp.
  destruct (catalogue_rotate (dk_files d) ft now segs act Hcat Hok Hf) as (n & Erot & Hfresh & Hne & _).
  destruct Hsync as [Hs Hl [Hc1 Hc2] Ho Hfile Hw Hlead].
  unfold rotation_due in Hdue. apply andb_true_iff in Hdue as [[[_ Hopen]%andb_true_iff _]%andb_true_iff _]. specialize (Hfile Hopen).
  destruct (fsync_synced d (content (dk_files d) path) Hs (content_synced d Hs) (extends_refl _) Hfile) as (Hs1 & Hd1 & Hl1).
  set (d1 := fsync d path (content (dk_files d) path)) in *. change (dk_files d1) with (dk_files d). rewrite Erot.
  pose proof (lines_flushed d d1 lines _ Hl Hd1 Hl1) as Hall. rewrite <-Hc1 in Hall.
  destruct (rename_synced d1 (segment_name path now n) Hs1 Hfresh Hne Hfile) as [Hs2 Hd2].
  assert (Hdone : ∀ d2 b, synced_ok d2 → (∀ line, durable d1 line → durable d2 line) → (b = true → is_Some (dk_files d2 !! path)) →
    ∀ l2, lg_open l2 = b → lg_writeCount l2 = lg_writeCount l → lg_syncedCount l2 = lg_writeCount l → lg_syncing l2 = lg_syncing l →
    sync_inv l2 d2 None wait lines ∧ ∀ line, durable d line → durable d2 line).
  { intros d2 b Hs' Hd' Hb l2 E1 E2 E3 E4. split; [|auto]. split; rewrite ?E1, ?E2, ?E3, ?E4; try done; [|lia].
    intros i line Hi. specialize (Hall i line Hi). apply lookup_lt_Some in Hi. rewrite decide_True in Hall |- * by lia. auto. }
  destruct (ft_rename ft).
  { intros [= <- <-]. eapply (Hdone d1); [done|done| |reflexivity..]. by intros _. }
  destruct (ft_reopen ft); intros [= <- <-].
  - eapply (Hdone (rename d1 path (segment_name path now n))); [done|done| |reflexivity..]. done.
  - eapply Hdone; [exact (create_synced _ Hs2)|exact Hd2|intros _; apply create_exists|reflexivity..].
Qed.

Lemma ensureOpen_sync l d ft l' d' lead wait lines :
  lg_path l = path → sync_inv l d lead wait lines → ensureOpen l d ft = Ok (l', d') →
  sync_inv l' d' lead wait lines ∧ lg_open l' = true ∧ dk_synced d' = dk_synced d.
Proof.
  intros Hp Hsync. unfold ensureOpen. destruct (lg_open l) eqn:Hopen; [by intros [= <- <-]|].
  destruct (ft_open ft); [done|]. rewrite Hp. intros [= <- <-]. split; [|done]. destruct Hsync as [Hs Hl Hc Ho Hfile Hw Hlead].
  split; cbn [set_open lg_open lg_writeCount lg_syncedCount lg_syncing]; try done.
  - by apply create_synced.
  - intros i line Hi. specialize (Hl i line Hi). cbn [dk_files]. rewrite content_create. exact Hl.
  - intros _. apply create_exists.
  - destruct lead as [[[n target] c]|]; [|done]. destruct Hlead as (_ & Ho' & _). congruence.
Qed.

(** A write of one line at the end of the active file. *)
Lemma write_sync l d lead wait lines pre line l' :
  sync_inv l d lead wait lines → lg_open l = true → lg_open l' = true → lg_writeCount l' = lg_writeCount l + 1 →
  lg_syncedCount l' = lg_syncedCount l → lg_syncing l' = lg_syncing l →
  sync_inv l' (mkDisk (<[path := content (dk_files d) path +:+ pre +:+ line +:+ nl]> (dk_files d)) (dk_synced d)) lead
    (lg_writeCount l' :: wait) (lines ++ [line]).
Proof.
  intros [Hs Hl [Hc1 Hc2] Ho Hfile Hw Hlead] Hopen Hopen' E1 E2 E3.
  assert (Hext : extends (content (dk_files d) path) (content (dk_files d) path +:+ pre +:+ line +:+ nl)) by (eexists; done).
  split; cbn [dk_files dk_synced]; rewrite ?content_insert, ?E1, ?E2, ?E3, ?Hopen'; try done.
  - intros p c Hp. destruct (Hs p c Hp) as (data & Hd & He). destruct (decide (p = path)) as [->|Hn].
    + cbn [dk_files]. rewrite lookup_insert_eq. eexists. split; [done|]. eapply extends_trans; [|exact Hext]. unfold content. by rewrite Hd.
    + cbn [dk_files]. rewrite lookup_insert_ne by done. by exists data.
  - intros i x Hi. cbn [dk_files]. rewrite content_insert. rewrite lookup_app in Hi. destruct (lines !! i) as [y|] eqn:Ei.
    + injection Hi as <-. specialize (Hl i y Ei). case_decide; [done|]. by eapply has_line_extends.
    + apply lookup_ge_None in Ei. rewrite decide_False by lia.
      assert (x = line) as -> by (destruct (i - length lines)%nat as [|k]; [by injection Hi|done]).
      exists (content (dk_files d) path +:+ pre), "". by rewrite !String_append_nil, !String_append_assoc.
  - rewrite length_app. simpl. lia.
  - intros _. by rewrite lookup_insert_eq.
  - intros n [->|Hn]%elem_of_cons; [lia|]. specialize (Hw n Hn). lia.
  - destruct lead as [[[n target] c]|]; [|done]. destruct Hlead as (? & ? & Ht & He1 & He2 & Hlines). split_and!; try done; [lia|by eapply extends_trans|].
    intros i x Hi Hrange. apply (Hlines i); [|done]. rewrite lookup_app in Hi. destruct (lines !! i) eqn:Ei; [done|].
    apply lookup_ge_None in Ei. lia.
Qed.

(** The line an append writes. *)
Definition written_line (l : Log) (d : Disk) (e : Entry) (now : time) (ft : faults) : option string :=
  e' ← next_record l d e now ft; Marshal e'.

Lemma append_write_sync l d e now ft l' d' r lead wait lines segs act :
  sync_inv l d lead wait lines → log_inv l d segs act →
  (rotation_due (dk_files d) ft l = true → lead = None ∧ rotation_ok (dk_files d) ft now) →
  ft_write ft = None ∨ ft_write ft = Some O → append_write l d e now ft = (l', d', r) →
  (∀ line, durable d line → durable d' line) ∧
  match r with
  | Ok n => ∃ line, written_line l d e now ft = Some line ∧ sync_inv l' d' lead (n :: wait) (lines ++ [line])
  | Err _ => sync_inv l' d' lead wait lines
  end.
Proof.
  intros Hsync Hinv Hrot Hw. unfold append_write, written_line, next_record.
  destruct (maybeRotate l d now ft) as [l1 d1] eqn:Hmr. cbn [fst].
  destruct (maybeRotate_sync _ _ _ _ _ _ _ _ _ _ _ Hsync Hinv Hrot Hmr) as [Hsync1 Hmono].
  destruct (maybeRotate_inv _ _ _ _ _ _ _ _ Hinv (fun H => proj2 (Hrot H)) Hmr) as (segs1 & act1 & Hinv1 & _).
  destruct (ensureOpen l1 d1 ft) as [[l2 d2]|err] eqn:Heo; [|by intros [= <- <- <-]].
  destruct (ensureOpen_sync _ _ _ _ _ _ _ _ (li_path _ _ _ _ Hinv1) Hsync1 Heo) as (Hsync2 & Hopen & Esync).
  assert (Hmono2 : ∀ line, durable d line → durable d2 line).
  { intros line Hl. apply Hmono in Hl. unfold durable. by rewrite Esync. }
  destruct (ensureOpen_inv _ _ _ _ _ _ _ Hinv1 Heo) as [Hinv2 [data Hdata]].
  assert (Hsame : lg_signKey l2 = lg_signKey l1 ∧ lg_seq l2 = lg_seq l1 ∧ lg_prevHash l2 = lg_prevHash l1).
  { revert Heo. unfold ensureOpen. destruct (lg_open l1); [by intros [= <- <-]|]. destruct (ft_open ft); [done|]. by intros [= <- <-]. }
  destruct Hsame as (-> & -> & ->).
  destruct (seal_entry _ _ _ _ _) as [e'|] eqn:Hseal; [|by intros [= <- <- <-]].
  destruct (Marshal e') as [line|] eqn:Hline; [|by intros [= <- <- <-]]. rewrite (li_path _ _ _ _ Hinv2).
  destruct Hw as [Hw|Hw]; rewrite Hw; intros [= <- <- <-].
  - split; [exact Hmono2|]. exists line. split; [exact Hline|]. by eapply (write_sync l2 d2).
  - assert (Esame : <[path := content (dk_files d2) path +:+ ""]> (dk_files d2) = dk_files d2).
    { rewrite String_append_nil. apply insert_id. unfold content. by rewrite Hdata. }
    rewrite Esame. split; [exact Hmono2|]. by destruct d2.
Qed.

(** ** Runs *)

Record run := mkRun {
  rn_log : Log;
  rn_disk : Disk;
  rn_lead : option (Z * Z * string);
  rn_wait : list Z;
  rn_lines : list string;
  rn_acked : list string;
}.

Definition remove_one (n : Z) (l : list Z) : list Z := List.filter (fun x => negb (x =? n)) l.

(** [syncTo] for write number [n], one locked region at a time: a waiter whose
    write is not durable becomes the leader and flushes with the lock released; the
    end of the flush; a waiter that sees its write covered returns [nil]. *)
Inductive run_step : run → run → Prop :=
| step_append s e now ft l' d' r :
    (rotation_due (dk_files (rn_disk s)) ft (rn_log s) = true →
       rn_lead s = None ∧ rotation_ok (dk_files (rn_disk s)) ft now) →
    entry_shape e → reads_back (next_record (rn_log s) (rn_disk s) e now ft) →
    ft_write ft = None ∨ ft_write ft = Some O →
    append_write (rn_log s) (rn_disk s) e now ft = (l', d', r) →
    run_step s
      (mkRun l' d' (rn_lead s) (match r with Ok n => n :: rn_wait s | Err _ => rn_wait s end)
         (match r with
          | Ok _ => rn_lines s ++ option_list (written_line (rn_log s) (rn_disk s) e now ft)
          | Err _ => rn_lines s
          end) (rn_acked s))
| step_lead s n :
    n ∈ rn_wait s → lg_syncedCount (rn_log s) < n → lg_syncing (rn_log s) = false →
    run_step s
      (mkRun (set_sync (lg_writeCount (rn_log s)) (lg_syncedCount (rn_log s)) true (rn_log s)) (rn_disk s)
         (Some (n, lg_writeCount (rn_log s), content (dk_files (rn_disk s)) path))
         (rn_wait s) (rn_lines s) (rn_acked s))
| step_synced s n target c :
    rn_lead s = Some (n, target, c) →
    run_step s
      (mkRun (set_sync (lg_writeCount (rn_log s)) (Z.max target (lg_syncedCount (rn_log s))) false (rn_log s))
         (fsync (rn_disk s) path c) None (rn_wait s) (rn_lines s) (rn_acked s))
| step_sync_failed s n target c :
    rn_lead s = Some (n, target, c) →
    run_step s
      (mkRun (set_sync (lg_writeCount (rn_log s)) (lg_syncedCount (rn_log s)) false (rn_log s))
         (rn_disk s) None (remove_one n (rn_wait s)) (rn_lines s) (rn_acked s))
| step_return s n line :
    n ∈ rn_wait s → n ≤ lg_syncedCount (rn_log s) → rn_lines s !! Z.to_nat (n - 1) = Some line →
    run_step s
      (mkRun (rn_log s) (rn_disk s) (rn_lead s) (remove_one n (rn_wait s)) (rn_lines s) (rn_acked s ++ [line]))
| step_restart s fs' l' d' :
    match dk_files (rn_disk s) !! path with
    | None => fs' = dk_files (rn_disk s)
    | Some data => ∃ data', crash_cut data data' ∧ extends (content (dk_synced (rn_disk s)) path) data' ∧
                     fs' = <[path := data']> (dk_files (rn_disk s))
    end →
    Open (mkDisk fs' (dk_synced (rn_disk s))) no_faults path signKey = Ok (l', d') →
    run_step s (mkRun l' d' None [] [] (rn_acked s)).

(** A first start on a disk without the log. *)
Definition first_start (fs : gmap string string) (s : run) : Prop :=
  fs !! path = None ∧ (∀ p, is_segment path p = true → fs !! p = None) ∧
  ∃ l d, Open (mkDisk fs ∅) no_faults path signKey = Ok (l, d) ∧ s = mkRun l d None [] [] [].

Definition run_inv (s : run) : Prop :=
  (∃ segs act, log_inv (rn_log s) (rn_disk s) segs act) ∧
  sync_inv (rn_log s) (rn_disk s) (rn_lead s) (rn_wait s) (rn_lines s) ∧
  ∀ line, line ∈ rn_acked s → durable (rn_disk s) line.

Lemma remove_one_elem n m l : m ∈ remove_one n l → m ∈ l.
Proof. unfold remove_one. rewrite list_elem_of_In, filter_In, <-list_elem_of_In. tauto. Qed.

Lemma append_step_inv s e now ft l' d' r :
  setting → run_inv s →
  (rotation_due (dk_files (rn_disk s)) ft (rn_log s) = true → rn_lead s = None ∧ rotation_ok (dk_files (rn_disk s)) ft now) →
  entry_shape e → reads_back (next_record (rn_log s) (rn_disk s) e now ft) →
  ft_write ft = None ∨ ft_write ft = Some O → append_write (rn_log s) (rn_disk s) e now ft = (l', d', r) →
  run_inv (mkRun l' d' (rn_lead s) (match r with Ok n => n :: rn_wait s | Err _ => rn_wait s end)
    (match r with Ok _ => rn_lines s ++ option_list (written_line (rn_log s) (rn_disk s) e now ft) | Err _ => rn_lines s end) (rn_acked s)).
Proof.
  intros Hset ((segs & act & Hinv) & Hsync & Hack) Hrot Hshape Hread Hw Hap.
  destruct (append_write_inv _ _ _ _ _ _ _ _ _ _ Hset Hinv (fun H => proj2 (Hrot H)) Hshape Hread Hw Hap) as (segs' & act' & Hinv' & _).
  destruct (append_write_sync _ _ _ _ _ _ _ _ _ _ _ _ _ Hsync Hinv Hrot Hw Hap) as [Hmono Hs].
  split; [by exists segs', act'|]. cbn [rn_log rn_disk rn_lead rn_wait rn_lines rn_acked]. split; [|auto].
  destruct r as [n|err]; [|done]. destruct Hs as (line & -> & Hs). exact Hs.
Qed.

Lemma restart_step_inv s fs' l' d' :
  run_inv s →
  match dk_files (rn_disk s) !! path with
  | None => fs' = dk_files (rn_disk s)
  | Some data => ∃ data', crash_cut data data' ∧ extends (content (dk_synced (rn_disk s)) path) data' ∧
                   fs' = <[path := data']> (dk_files (rn_disk s))
  end →
  Open (mkDisk fs' (dk_synced (rn_disk s))) no_faults path signKey = Ok (l', d') →
  run_inv (mkRun l' d' None [] [] (rn_acked s)).
Proof.
  intros ((segs & act & Hinv) & Hsync & Hack) Hcut Hopen.
  destruct (Open_inv _ _ _ _ fs' (mkDisk fs' (dk_synced (rn_disk s))) Hinv) as (l2 & a1 & a2 & Eo & Hinv' & _ & Ew & Es & Ey & Eop & _).
  { destruct (dk_files (rn_disk s) !! path) as [data|]; [|done]. destruct Hcut as (data' & ? & _ & ?). eauto. }
  { done. }
  cbn [dk_synced] in Eo, Hinv'. assert (l' = l2 ∧ d' = mkDisk (create fs' path) (dk_synced (rn_disk s))) as [-> ->] by (split; congruence).
  split; [by exists segs, a1|]. cbn [rn_log rn_disk rn_lead rn_wait rn_lines rn_acked]. split; [|exact Hack].
  assert (Hs' : synced_ok (mkDisk fs' (dk_synced (rn_disk s)))).
  { pose proof (si_synced _ _ _ _ _ Hsync) as Hs. intros p c Hp. cbn [dk_synced dk_files] in *. destruct (Hs p c Hp) as (data0 & Hd0 & He0).
    destruct (dk_files (rn_disk s) !! path) as [data|] eqn:Ed; [|subst fs'; eauto]. destruct Hcut as (data' & _ & He & ->).
    destruct (decide (p = path)) as [->|Hn]; [|rewrite lookup_insert_ne by done; eauto].
    rewrite lookup_insert_eq. eexists. split; [done|]. unfold content in He. by rewrite Hp in He. }
  split; rewrite ?Ew, ?Es, ?Eop; cbn [dk_files]; try done.
  - exact (create_synced _ Hs').
  - intros _. apply create_exists.
  - by intros n ?%elem_of_nil.
Qed.

Lemma run_step_inv s s' : setting → run_inv s → run_step s s' → run_inv s'.
Proof.
  intros Hset Hrun Hstep. destruct Hstep as [s e now ft l' d' r|s n Hn Hlt Hno|s n target c Hl|s n target c Hl|s n line Hn Hle Hline|].
  - by apply append_step_inv.
  - destruct Hrun as ((segs & act & Hinv) & [Hs Hlines Hc Ho Hf Hw Hlead] & Hack). split; [|split; [|exact Hack]].
    + exists segs, act. eapply log_inv_ext; [exact Hinv|done| |done..]. cbn [rn_log set_sync lg_open].
      destruct (lg_open (rn_log s)); [left; by apply Hf|by right].
    + split; cbn [rn_log rn_disk rn_lead rn_wait rn_lines set_sync lg_open lg_writeCount lg_syncedCount lg_syncing]; try done.
      assert (Hopen : lg_open (rn_log s) = true).
      { apply not_false_is_true. intros E. specialize (Ho E). specialize (Hw n Hn). lia. }
      split_and!; [done|done|lia|by apply content_synced|apply extends_refl|].
      intros i line Hi Hr. specialize (Hlines i line Hi). by rewrite decide_False in Hlines by lia.
  - destruct Hrun as ((segs & act & Hinv) & [Hs Hlines Hc Ho Hf Hw Hlead] & Hack). rewrite Hl in Hlead.
    destruct Hlead as (_ & Hopen & Ht & He1 & He2 & Hcov).
    destruct (fsync_synced _ c Hs He1 He2 (Hf Hopen)) as (Hs1 & Hd1 & Hl1). split; [|split].
    + exists segs, act. eapply log_inv_ext; [exact Hinv|done|left; by apply Hf|done..].
    + split; cbn [rn_log rn_disk rn_lead rn_wait rn_lines set_sync lg_open lg_writeCount lg_syncedCount lg_syncing]; try done.
      * intros i line Hi. specialize (Hlines i line Hi). destruct (decide (Z.of_nat i < lg_syncedCount (rn_log s))) as [Hi1|Hi1].
        -- rewrite decide_True by lia. auto.
        -- case_decide; [|exact Hlines]. apply Hl1, (Hcov i line Hi). lia.
      * lia.
      * intros E. congruence.
    + intros line Hin. apply Hd1. by apply Hack.
  - destruct Hrun as ((segs & act & Hinv) & [Hs Hlines Hc Ho Hf Hw Hlead] & Hack). rewrite Hl in Hlead. split; [|split; [|exact Hack]].
    + exists segs, act. eapply log_inv_ext; [exact Hinv|done|left; by apply Hf, Hlead|done..].
    + split; cbn [rn_log rn_disk rn_lead rn_wait rn_lines set_sync lg_open lg_writeCount lg_syncedCount lg_syncing]; try done.
      intros m Hm%remove_one_elem. by apply Hw.
  - destruct Hrun as (Hinv & [Hs Hlines Hc Ho Hf Hw Hlead] & Hack). split; [exact Hinv|]. split.
    + split; try done. intros m Hm%remove_one_elem. by apply Hw.
    + intros x [Hx|Hx%list_elem_of_singleton]%elem_of_app; [by apply Hack|]. subst x. specialize (Hw n Hn).
      specialize (Hlines _ _ Hline). by rewrite decide_True in Hlines by lia.
  - by eapply restart_step_inv.
Qed.

Lemma first_start_inv fs s : first_start fs s → run_inv s.
Proof.
  intros (Hp & Hseg & l & d & Hopen & ->).
  assert (Hcat : catalogue fs path []).
  { split; try done; [constructor|by intros s m ?%elem_of_nil|by intros s ?%elem_of_nil|]. intros p [x Hx] Hs. by rewrite Hseg in Hx. }
  unfold Open, restoreChain in Hopen. cbn [dk_files fresh_log lg_path dk_synced] in Hopen. rewrite Hp in Hopen.
  rewrite (seed_ok fs [] Hcat I) in Hopen. cbn [rbind no_faults ft_open] in Hopen. injection Hopen as <- <-.
  split; [|split; [|by intros line ?%elem_of_nil]].
  - exists [], []. split; cbn [rn_log rn_disk dk_files]; rewrite ?content_create; unfold content; rewrite ?Hp; try done.
    + by apply catalogue_create.
    + by left.
    + left. apply create_exists.
  - split; cbn [rn_log rn_disk rn_lead rn_wait rn_lines]; try done; [intros _; apply create_exists|by intros n ?%elem_of_nil].
Qed.

Lemma run_reachable fs s s' : setting → first_start fs s → rtc run_step s s' → run_inv s'.
Proof. intros Hset H Hr. apply first_start_inv in H. induction Hr as [|x y z Hs _ IH]; [done|]. apply IH. by eapply run_step_inv. Qed.


(** [C25] An acknowledged record is on stable storage: whatever the interleaving of
    writers, flushes, failed flushes, rotations, crashes and restarts, once
    [Append] has returned success the bytes of its line, newline included, are part
    of the flushed contents of some segment, in every later state; and no flush is
    ever attempted without an open file. *)
Theorem append_durable fs s s' :
  setting → first_start fs s → rtc run_step s s' →
  (∀ line, line ∈ rn_acked s' → durable (rn_disk s') line) ∧
  ∀ n, n ∈ rn_wait s' → lg_syncedCount (rn_log s') < n → lg_open (rn_log s') = true.
Proof.
  intros Hset Hs Hr. destruct (run_reachable _ _ _ Hset Hs Hr) as (_ & [_ _ _ Ho _ Hw _] & Hack). split; [exact Hack|].
  intros n Hn Hlt. apply not_false_is_true. intros E. specialize (Ho E). specialize (Hw n Hn). lia.
Qed.
End state.

(** ** Short writes *)

Definition short_write (k : nat) : faults :=
  mkFaults false (fun _ => false) false (fun _ => false) false false false false false (Some k).

Lemma stake_forall p k s : forall_char p s = true → forall_char p (stake k s) = true.
Proof.
  revert s. induction k as [|k IH]; intros [|c s]; cbn [stake forall_char]; try done. intros [Hc Hs]%andb_true_iff. by rewrite Hc, IH.
Qed.
Lemma stake_app k s t : (k ≤ String.length s)%nat → stake k (s +:+ t) = stake k s.
Proof.
  revert s. induction k as [|k IH]; intros [|c s] H; cbn [stake String.append]; try done; [simpl in H; lia|].
  f_equal. apply IH. simpl in H. lia.
Qed.

Section short.
Context `{TJ : TimeJSON} `{ED : Ed25519} `{SH : Sha256} `{DE : EntryDecoder}.

Lemma verify_lines_app pub st a b :
  verify_lines pub st (a ++ b) = st' ← verify_lines pub st a; verify_lines pub st' b.
Proof. revert st. induction a as [|l a IH]; intros st; [done|]. cbn [app verify_lines]. destruct (verify_line pub st l); [apply IH|done]. Qed.

Lemma verify_lines_unsigned st lines : ∃ st', verify_lines None st lines = Some st'.
Proof.
  revert st. induction lines as [|l lines IH]; intros st; [by eexists|]. cbn [verify_lines]. unfold verify_line.
  destruct (isBlankLine l); [apply IH|]. destruct (Unmarshal l); apply IH.
Qed.

(** One glued line is reported, and is fatal at the next start. *)
Lemma glued_tail lines glued data path key fs synced :
  Forall plain_line lines → plain_line glued → Unmarshal glued = None → data = text (lines ++ [glued]) → fs !! path = Some data →
  (∃ total errs, Verify data None = Some (total, errs) ∧ 0 < errs) ∧
  Open (mkDisk fs synced) no_faults path key = Err EParseLast.
Proof.
  intros Hl Hg Hu -> Hfs. assert (Hs : scan (text (lines ++ [glued])) = (lines ++ [glued], false)).
  { apply scan_holds; [by left|]. apply Forall_app. split; [done|by constructor]. }
  pose proof Hg as (_ & _ & Hb & _). split.
  - unfold Verify, verify. rewrite Hs, verify_lines_app. destruct (verify_lines_unsigned verify_init lines) as [st Hst].
    rewrite Hst. cbn [mbind option_bind verify_lines]. unfold verify_line. rewrite Hb, Hu. cbn [mbind option_bind vs_total vs_errs count].
    eexists _, _. split; [done|]. apply verify_lines_errs in Hst. change (vs_errs verify_init) with 0 in Hst. lia.
  - unfold Open, restoreChain. cbn [dk_files fresh_log lg_path no_faults ft_read]. rewrite Hfs, Hs. unfold last_record.
    rewrite List.filter_app, filter_plain by done. cbn [List.filter]. rewrite Hb. cbn [negb]. rewrite last_snoc, Hu. done.
Qed.

Lemma glued_plain e line k :
  time_text_line → Marshal e = Some line → (0 < k ≤ String.length line)%nat → slen line + slen line < readerBufferSize →
  plain_line (stake k line +:+ line).
Proof.
  intros Ht Hm Hk Hlen. unfold Marshal in Hm. destruct (time_MarshalJSON (ae_Time e)) as [tm|] eqn:Etm; [|done].
  apply (inj Some) in Hm. pose proof (members_not_nl tm e (Ht _ _ Etm)) as Hj. revert Hm Hj.
  generalize (Join (omap id (members tm e)) ","). intros j <- Hj. destruct k as [|k]; [lia|].
  set (m := stake k (j +:+ "}") +:+ "{" +:+ j).
  assert (E : stake (S k) ("{" +:+ j +:+ "}") +:+ "{" +:+ j +:+ "}" = "{" +:+ m +:+ "}").
  { unfold m. change (stake (S k) ("{" +:+ j +:+ "}")) with (String "{" (stake k (j +:+ "}"))). cbn [String.append]. by rewrite !String_append_assoc. }
  split.
  - assert (Hst : ∀ n s, (String.length (stake n s) ≤ String.length s)%nat).
    { intros n. induction n as [|n IH]; intros [|c s]; simpl; try lia. specialize (IH s). lia. }
    specialize (Hst (S k) ("{" +:+ j +:+ "}")). unfold slen in *. rewrite String_length_app. lia.
  - rewrite E. apply braces_line. unfold m. rewrite !forall_char_app, Hj, stake_forall by (by rewrite forall_char_app, Hj). done.
Qed.

Lemma append_unrotated l d e now ft line data :
  lg_maxFileSize l ≤ 0 → lg_open l = true → lg_needsNewline l = false → written_line l d e now no_faults = Some line →
  dk_files d !! lg_path l = Some data →
  append_write l d e now ft =
    match ft_write ft with
    | Some k => (l, mkDisk (<[lg_path l := data +:+ stake k (line +:+ nl)]> (dk_files d)) (dk_synced d), Err EWrite)
    | None => (set_sync (lg_writeCount l + 1) (lg_syncedCount l) (lg_syncing l)
                 (set_head (next_seq (lg_seq l)) (line_hash line) false l),
               mkDisk (<[lg_path l := data +:+ line +:+ nl]> (dk_files d)) (dk_synced d), Ok (lg_writeCount l + 1))
    end.
Proof.
  intros Hm Ho Hn Hw Hd. assert (Hr : ∀ ft, maybeRotate l d now ft = (l, d)).
  { intros ft'. unfold maybeRotate, rotation_due. by rewrite (proj2 (Z.ltb_ge 0 _)). }
  unfold written_line, next_record in Hw. rewrite Hr in Hw. cbn [fst] in Hw. apply bind_Some in Hw as (e' & Hs & Hl).
  unfold append_write. rewrite Hr. unfold ensureOpen. rewrite Ho, Hs, Hl, Hn. unfold content. rewrite Hd. done.
Qed.

(** A short write corrupts the log for good: when a write of a record fails
    after some of its bytes reached the file (a full disk), the log keeps running
    and the next record is put on the same physical line. That append is
    acknowledged, but its record is unreadable, verification reports the log as
    broken, and the service refuses to start on it. *)
Theorem short_write_breaks_chain l d e now line lines k key :
  time_text_line → lg_maxFileSize l ≤ 0 → lg_open l = true → lg_needsNewline l = false →
  dk_files d !! lg_path l = Some (text lines) → Forall plain_line lines →
  written_line l d e now no_faults = Some line → (0 < k ≤ String.length line)%nat →
  slen line + slen line < readerBufferSize → Unmarshal (stake k line +:+ line) = None →
  ∃ d1 l2 d2 data, append_write l d e now (short_write k) = (l, d1, Err EWrite) ∧
    append_write l d1 e now no_faults = (l2, d2, Ok (lg_writeCount l + 1)) ∧
    dk_files d2 !! lg_path l = Some data ∧
    (∃ total errs, Verify data None = Some (total, errs) ∧ 0 < errs) ∧
    Open d2 no_faults (lg_path l) key = Err EParseLast.
Proof.
  intros Ht Hm Ho Hn Hd Hl Hw Hk Hlen Hu.
  rewrite (append_unrotated l d e now (short_write k) line (text lines)) by done. cbn [short_write ft_write].
  rewrite stake_app by lia. set (d1 := mkDisk _ _).
  assert (Hw1 : written_line l d1 e now no_faults = Some line).
  { rewrite <-Hw. unfold written_line, next_record. assert (Hr : ∀ x, maybeRotate l x now no_faults = (l, x)).
    { intros x. unfold maybeRotate, rotation_due. by rewrite (proj2 (Z.ltb_ge 0 _)). } by rewrite !Hr. }
  assert (Hd1 : dk_files d1 !! lg_path l = Some (text lines +:+ stake k line)) by (unfold d1; cbn [dk_files]; by rewrite lookup_insert_eq).
  eexists d1, _, _, _. split; [done|]. rewrite (append_unrotated l d1 e now no_faults line _ Hm Ho Hn Hw1 Hd1). cbn [no_faults ft_write].
  split; [done|]. cbn [dk_files]. rewrite lookup_insert_eq. split; [done|].
  assert (Hmar : ∃ e', Marshal e' = Some line) by (apply bind_Some in Hw as (e' & _ & ?); eauto). destruct Hmar as [e' Hmar].
  eapply (glued_tail lines (stake k line +:+ line)); [done|by eapply glued_plain|done| |by rewrite lookup_insert_eq].
  rewrite text_app. cbn [text]. by rewrite String_append_nil, !String_append_assoc.
Qed.
End short.

Section readable.
Context `{TJ : TimeJSON} `{ED : Ed25519} `{SH : Sha256}.

Lemma maybeRotate_head l d now ft : lg_prevHash (maybeRotate l d now ft).1 = lg_prevHash l ∧ lg_signKey (maybeRotate l d now ft).1 = lg_signKey l.
Proof. unfold maybeRotate. repeat case_match; done. Qed.

(** [C39] Every audit line stays readable: whatever text a request puts in any
    field of a record, after redaction (which may lengthen it), trimming, JSON
    escaping, numbering and signing, the line that is written is a single line,
    strictly shorter than the buffer of every reader, so no input can make the
    log unreadable at the next start. *)
Theorem audit_line_readable l d e now ft line :
  time_text_ok → time_text_line → entry_shape e → (∀ m, String.length (ed_sign (lg_signKey l) m) = 64%nat) →
  slen (lg_prevHash l) ≤ 64 → forall_char plain_json (lg_prevHash l) = true →
  written_line l d e now ft = Some line →
  slen line < readerBufferSize ∧ ContainsByte line newline = false ∧ isBlankLine line = false.
Proof.
  intros Ht Htl He Hsig Hp1 Hp2 Hw. unfold written_line, next_record in Hw. apply bind_Some in Hw as (e' & Hseal & Hm).
  destruct (maybeRotate_head l d now ft) as [E1 E2]. rewrite E1, E2 in Hseal.
  destruct (Marshal_line e' line Htl Hm) as (H1 & H2 & _). split; [|done].
  eapply (sealed_line_short (lg_signKey l) (redact_entry (lg_redactor l) e)); [done|by apply redact_shape| |apply next_seq_range|done|done|done|exact Hseal|exact Hm].
  unfold prepared, entry_time. assert (Et : ae_Time (fitEntry (redact_entry (lg_redactor l) e)) = ae_Time (redact_entry (lg_redactor l) e)) by apply fit_loop_time.
  rewrite Et. destruct (ae_Time (redact_entry (lg_redactor l) e)); [by left|by right].
Qed.
End readable.

(** ** A concrete run *)

Definition const_hash : Sha256 := {| Sum256 _ := sample_pub |}.
#[local] Existing Instances sample_time sized_ed25519 const_hash.
Definition run_path : string := "/var/log/audit.log".
Definition run_event : Entry := sample_entry "web1" "".
Definition run_log0 : Log := set_open true (fresh_log run_path "k").
Definition run_disk0 : Disk := mkDisk {[ run_path := "" ]} ∅.
Definition run_line : string :=
  match written_line run_log0 run_disk0 run_event 0 no_faults with Some s => s | None => "" end.
Definition run_record : Entry :=
  match next_record run_log0 run_disk0 run_event 0 no_faults with Some e => e | None => run_event end.
Definition run_decoder : EntryDecoder := {| Unmarshal s := if bool_decide (s = run_line) then Some run_record else None |}.

#[local] Existing Instance run_decoder.

Lemma run_setting : setting sample_pub "k".
Proof.
  split; try done; [exact sample_time_ok|]. intros t s E. apply (inj Some) in E as <-. reflexivity.
Qed.

Lemma reads_back_intro o e line : o = Some e → Marshal e = Some line → Unmarshal line = Some e → reads_back o.
Proof. intros -> Hm Hu e' line' E Hm'. injection E as <-. assert (line' = line) as -> by congruence. done. Qed.

Definition run_0 : run := mkRun run_log0 run_disk0 None [] [] [].
Definition run_append : Log * Disk * result store_error Z :=
  append_write run_log0 run_disk0 run_event 0 no_faults.
Definition run_1 : run := mkRun run_append.1.1 run_append.1.2 None [1] [run_line] [].
Definition run_2 : run :=
  mkRun (set_sync 1 0 true (rn_log run_1)) (rn_disk run_1) (Some (1, 1, content (dk_files (rn_disk run_1)) run_path)) [1] [run_line] [].
Definition run_3 : run :=
  mkRun (set_sync 1 1 false (rn_log run_2)) (fsync (rn_disk run_2) run_path (content (dk_files (rn_disk run_1)) run_path)) None [1] [run_line] [].
Definition run_4 : run := mkRun (rn_log run_3) (rn_disk run_3) None [] [run_line] [run_line].

Lemma run_shape : entry_shape run_event.
Proof. split; [vm_compute; split; [discriminate|reflexivity]..|vm_compute; discriminate|done]. Qed.

Lemma run_first : first_start "k" run_path ∅ run_0.
Proof.
  split; [done|]. split; [done|]. eexists _, _. split; [|reflexivity]. vm_compute. reflexivity.
Qed.

Lemma run_steps : rtc (run_step "k" run_path) run_0 run_4.
Proof.
  apply rtc_l with run_1.
  { assert (Hap : append_write (rn_log run_0) (rn_disk run_0) run_event 0 no_faults = (run_append.1.1, run_append.1.2, Ok 1)) by (vm_compute; reflexivity).
    refine (step_append "k" run_path run_0 run_event 0 no_faults _ _ (Ok 1) _ run_shape _ _ Hap).
    - intros H. exfalso. revert H. vm_compute. discriminate.
    - apply (reads_back_intro _ run_record run_line); vm_compute; reflexivity.
    - by left. }
  apply rtc_l with run_2; [apply (step_lead _ _ run_1 1); [by left|vm_compute; reflexivity|vm_compute; reflexivity]|].
  apply rtc_l with run_3; [by apply (step_synced _ _ run_2 1 1)|].
  apply rtc_once. apply (step_return _ _ run_3 1 run_line); [by left|vm_compute; discriminate|reflexivity].
Qed.


Lemma append_durable_witness :
  (∀ line, line ∈ rn_acked run_4 → durable (rn_disk run_4) line) ∧
  ∀ n, n ∈ rn_wait run_4 → lg_syncedCount (rn_log run_4) < n → lg_open (rn_log run_4) = true.
Proof. exact (append_durable sample_pub "k" run_path ∅ run_0 run_4 run_setting run_first run_steps). Defined.

Lemma audit_line_readable_witness :
  written_line run_log0 run_disk0 run_event 0 no_faults = Some run_line ∧
  slen run_line < readerBufferSize ∧ ContainsByte run_line newline = false ∧ isBlankLine run_line = false.
Proof.
  split; [vm_compute; reflexivity|].
  apply (audit_line_readable run_log0 run_disk0 run_event 0 no_faults run_line sample_time_ok (hs_line _ _ run_setting) run_shape (hs_siglen _ _ run_setting)).
  - vm_compute. discriminate.
  - reflexivity.
  - vm_compute. reflexivity.
Defined.

Definition run_unlimited : Log := mkLog true run_path "k" None "" 0 0 false 0 0 false.

Lemma short_write_breaks_chain_witness :
  written_line run_unlimited run_disk0 run_event 0 no_faults = Some run_line ∧
  ∃ d1 l2 d2 data, append_write run_unlimited run_disk0 run_event 0 (short_write 10) = (run_unlimited, d1, Err EWrite) ∧
    append_write run_unlimited d1 run_event 0 no_faults = (l2, d2, Ok (lg_writeCount run_unlimited + 1)) ∧
    dk_files d2 !! run_path = Some data ∧
    (∃ total errs, Verify data None = Some (total, errs) ∧ 0 < errs) ∧
    Open d2 no_faults run_path "k" = Err EParseLast.
Proof.
  split; [vm_compute; reflexivity|].
  apply (short_write_breaks_chain run_unlimited run_disk0 run_event 0 run_line [] 10 "k" (hs_line _ _ run_setting)).
  - vm_compute. discriminate.
  - reflexivity.
  - reflexivity.
  - vm_compute. reflexivity.
  - constructor.
  - vm_compute. reflexivity.
  - split; [lia|]. apply Nat.leb_le. vm_compute. reflexivity.
  - vm_compute. reflexivity.
  - vm_compute. reflexivity.
Defined.
