(* ===== verification/AuditRepair.v ===== *)
(** * Operator recovery of an audit log

    [cmdAuditVerify] and [cmdAuditRepair] of [cmd/broker-ctl/main.go] over the
    functions of [internal/audit]. A command ends with an exit status and the
    files it leaves. *)

From S2P Require Import Prelude GoStrings Encoding Crypto AuditEntry AuditCanonical AuditVerify AuditTime AuditStore AuditRun.

Inductive repair_result :=
| RNoLog | RMiddle | RNothing (records : Z) | RNoKey | RShortKey | RBadPrefix | RPanic | RDryRun (records lastSeq : Z)
| RQuarantineFailed | RTruncateFailed | RRepaired (lastSeq : Z).

(** What [os.ReadFile] gives for the key, when one is named; which writes fail. *)
Record repair_flags := mkRepairFlags {
  rf_key : option (option string);
  rf_apply : bool;
  rf_now : time;
  rf_write_fails : bool;
  rf_truncate_fails : bool;
}.

Section repair.
Context `{TJ : TimeJSON} `{ED : Ed25519} `{SH : Sha256} `{DE : EntryDecoder}.

Definition quarantine_name (logPath : string) (now : time) : string := logPath +:+ ".corrupt-" +:+ Format now.

(** The public key derived from a seed file. *)
Definition seed_public (seed : string) : option string :=
  if (String.length seed <? SeedSize)%nat then None else Some (ed_public (ed_fromSeed (stake SeedSize seed))).

Definition cmdAuditRepair (fs : gmap string string) (logPath : string) (fl : repair_flags) :
    gmap string string * repair_result :=
  match fs !! logPath with
  | None => (fs, RNoLog)
  | Some data =>
      let '(cleanEnd, lastGoodSeq, goodCount, corruptTail, middle) := TrailingCorruption data in
      if (middle : bool) then (fs, RMiddle)
      else if bool_decide (corruptTail = "") then (fs, RNothing goodCount)
      else
        let finish :=
          if negb (rf_apply fl) then (fs, RDryRun goodCount lastGoodSeq)
          else if rf_write_fails fl then (fs, RQuarantineFailed)
          else
            let fs := <[quarantine_name logPath (rf_now fl) := corruptTail]> fs in
            if rf_truncate_fails fl then (fs, RTruncateFailed)
            else (<[logPath := stake (Z.to_nat cleanEnd) data]> fs, RRepaired lastGoodSeq) in
        match rf_key fl with
        | None => finish
        | Some None => (fs, RNoKey)
        | Some (Some seed) =>
            match seed_public seed with
            | None => (fs, RShortKey)
            | Some pub =>
                match Verify (stake (Z.to_nat cleanEnd) data) (Some pub) with
                | None => (fs, RPanic)
                | Some (_, errs) => if 0 <? errs then (fs, RBadPrefix) else finish
                end
            end
        end
  end.

(** Exit status of [audit verify]: [None] is a panic. *)
Definition cmdAuditVerify (fs : gmap string string) (ft : faults) (logPath : string) (key : option (option string)) (all : bool) :
    option bool :=
  match key with
  | Some None => Some false
  | _ =>
      match (match key with Some (Some seed) => seed_public seed | _ => None end), key with
      | None, Some (Some _) => Some false
      | pub, _ =>
          if all then '(_, errs) ← VerifySegments fs ft logPath pub; Some (errs =? 0)
          else match read_file fs ft logPath with
               | None => Some false
               | Some data => '(_, errs) ← Verify data pub; Some (errs =? 0)
               end
      end
  end.

(** ** A torn tail *)

Lemma drop_trim l : drop_cr l = l → trim_cr l = l.
Proof.
  induction l as [|c l IH]; [done|]. destruct l as [|d l].
  - cbn [drop_cr trim_cr]. destruct (ascii_eqb c carriage); [done|done].
  - change (drop_cr (String c (String d l))) with (String c (drop_cr (String d l))). intros E. injection E as E.
    specialize (IH E). change (trim_cr (String c (String d l))) with
      (match trim_cr (String d l) with "" => if ascii_eqb c carriage then "" else String c "" | t => String c t end). by rewrite IH.
Qed.

Lemma slen_text_cons l lines : slen (text (l :: lines)) = slen l + 1 + slen (text lines).
Proof. cbn [text]. unfold slen. rewrite !String_length_app. change (String.length nl) with 1%nat. lia. Qed.

Lemma Split_text lines s :
  Forall (fun l => ContainsByte l newline = false) lines → Split (text lines +:+ s) newline = lines ++ Split s newline.
Proof.
  induction 1 as [|l lines Hl _ IH]; [done|]. cbn [text]. rewrite !String_append_assoc.
  change (nl +:+ ?x) with (String newline x). rewrite Split_cons by done. by rewrite IH.
Qed.

Lemma tail_loop_lines st lines rest :
  ts_sawBad st = false → ts_offset st = ts_cleanEnd st → ts_middle st = false → rest ≠ [] →
  Forall (fun l => plain_line l ∧ is_Some (Unmarshal l)) lines →
  ∃ st', tail_loop st (lines ++ rest) = tail_loop st' rest ∧ ts_sawBad st' = false ∧ ts_middle st' = false ∧
    ts_offset st' = ts_cleanEnd st' ∧ ts_cleanEnd st' = ts_cleanEnd st + slen (text lines) ∧
    ts_goodCount st' = ts_goodCount st + Z.of_nat (length lines) ∧
    ts_lastGoodSeq st' = match last lines with
                         | Some l => match Unmarshal l with Some e => ae_Seq e | None => 0 end
                         | None => ts_lastGoodSeq st
                         end.
Proof.
  intros Hbad Hoff Hmid Hrest Hall. revert st Hbad Hoff Hmid.
  induction Hall as [|l lines [(_ & _ & Hb & Hcr) [e He]] _ IH]; intros st Hbad Hoff Hmid.
  { exists st. cbn [app text last length]. change (slen "") with 0. split_and!; try done; lia. }
  cbn [app]. assert (Hne : lines ++ rest ≠ []) by (by destruct lines).
  assert (E : tail_loop st (l :: lines ++ rest) = tail_loop (tail_line st l (slen l + 1)) (lines ++ rest)) by (by destruct (lines ++ rest)).
  rewrite E. unfold tail_line. rewrite Hb, (drop_trim l Hcr), He, Hbad.
  destruct (IH (mkTS (ts_offset st + (slen l + 1)) (ae_Seq e) (ts_goodCount st + 1) (ts_offset st + (slen l + 1)) false (ts_middle st)))
    as (st' & E' & H1 & H2 & H3 & H4 & H5 & H6); [done|done|done|]. exists st'. cbn [ts_cleanEnd ts_goodCount ts_lastGoodSeq] in *.
  rewrite slen_text_cons. split_and!; [exact E'|done|done|done|lia|simpl length; lia|].
  rewrite H6, last_cons. destruct (last lines); [done|]. by rewrite He.
Qed.

Lemma sdrop_slen a b : sdrop (Z.to_nat (slen a)) (a +:+ b) = b.
Proof. unfold slen. rewrite Nat2Z.id. apply sdrop_app. Qed.
Lemma stake_slen a b : stake (Z.to_nat (slen a)) (a +:+ b) = a.
Proof. unfold slen. rewrite Nat2Z.id. induction a as [|c a IH]; [by destruct b|]. cbn [String.length stake String.append]. by rewrite IH. Qed.

(** A log whose last record was cut inside: whole lines and a tail that does not
    parse. *)
Lemma TrailingCorruption_torn lines torn :
  Forall (fun l => plain_line l ∧ is_Some (Unmarshal l)) lines →
  ContainsByte torn newline = false → isBlankLine torn = false → Unmarshal (trim_cr torn) = None →
  ∃ seq, TrailingCorruption (text lines +:+ torn) = (slen (text lines), seq, Z.of_nat (length lines), torn, false).
Proof.
  intros Hall Hn Hb Hu. unfold TrailingCorruption. rewrite Split_text, (Split_absent torn) by (done || (eapply Forall_impl; [exact Hall|]; intros l [(_ & ? & _) _]; done)).
  destruct (tail_loop_lines (mkTS 0 0 0 0 false false) lines [torn]) as (st' & -> & H1 & H2 & H3 & H4 & H5 & _); [done..|].
  assert (Hne : torn ≠ "") by (intros ->; by vm_compute in Hb). cbn [tail_loop]. rewrite (bool_decide_eq_false_2 (torn = "")) by done.
  unfold tail_line. rewrite Hb, Hu. cbn [ts_cleanEnd ts_lastGoodSeq ts_goodCount ts_sawBad ts_middle]. rewrite H2. cbn [andb negb].
  eexists. rewrite H4, H5. cbn [ts_cleanEnd ts_goodCount]. rewrite !Z.add_0_l, sdrop_slen. done.
Qed.

(** ** Recovery *)

Lemma quarantine_not_segment logPath now : is_segment logPath (quarantine_name logPath now) = false.
Proof.
  unfold is_segment, quarantine_name, seg_prefix. change (logPath +:+ ".corrupt-" +:+ Format now) with (logPath +:+ "." +:+ ("corrupt-" +:+ Format now)).
  rewrite <-String_append_assoc, prefix_refl_app, TrimPrefix_app. unfold isRotatedSegment.
  assert (E : ∃ b a f, Cut ("corrupt-" +:+ Format now) "."%char = (String "c" b, a, f)).
  { cbn [String.append Cut]. change (ascii_eqb "c" ".") with false. destruct (Cut _ _) as [[b a] f]. eauto. }
  destruct E as (b & a & f & ->). destruct f; [|done]. change (Parse (String "c" b)) with false. by rewrite andb_false_r.
Qed.

Variables pub signKey path : string.

Lemma quarantine_path now : quarantine_name path now ≠ path.
Proof. intros E. apply (f_equal String.length) in E. unfold quarantine_name in E. rewrite !String_length_app in E. simpl in E. lia. Qed.

(** A file that is no part of the log does not matter. *)
Lemma log_inv_other l d segs act p x :
  p ≠ path → is_segment path p = false → log_inv pub signKey path l d segs act →
  log_inv pub signKey path l (mkDisk (<[p := x]> (dk_files d)) (dk_synced d)) segs act.
Proof.
  intros Hp Hs [? ? [Hok Hsort Hdense Hholds Hall] ? ? ? ? ? ? ?].
  assert (Hc : content (<[p := x]> (dk_files d)) path = content (dk_files d) path) by (unfold content; by rewrite lookup_insert_ne).
  split; cbn [dk_files]; rewrite ?Hc, ?lookup_insert_ne by done; try done. split; try done.
  - intros s Hin. rewrite lookup_insert_ne; [by apply Hholds|]. intros ->. rewrite is_segment_name in Hs; [done|].
    by apply (proj1 (Forall_forall _ _) Hok).
  - intros q [y Hy] Hq. apply Hall; [|done]. rewrite lookup_insert_ne in Hy; [by eexists|]. intros <-. congruence.
Qed.

Lemma chained_readable prev k lines : chained pub prev k lines → Forall (fun l => plain_line l ∧ is_Some (Unmarshal l)) lines.
Proof.
  revert prev k. induction lines as [|l lines IH]; intros prev k; [constructor|]. intros (Hp & (e & He & _) & Hr).
  constructor; [split; [done|by eexists]|by eapply IH].
Qed.

End repair.

(** The run of [AuditRun] with the end of its record cut off. *)
#[local] Existing Instances sample_time sized_ed25519 const_hash run_decoder.
Definition torn_record : string := stake 20 run_line.
Definition demo_flags : repair_flags := mkRepairFlags None true 0 false false.

Lemma no_lines (x : string) : x = text [] +:+ x.
Proof. done. Qed.

