(* ===== verification/Behavior.v ===== *)
(** * Behaviour guardrails

    [internal/control/behavior.go]: the per-subject baseline of hosts and
    commands, the request rate window, and the bounds on what is kept. The clock
    is an argument of each call; the order in which eviction visits the table is
    unspecified. *)

From S2P Require Import Prelude GoStrings Encoding.

Definition BehaviorOff : string := "off".
Definition BehaviorObserve : string := "observe".
Definition BehaviorEnforce : string := "enforce".

Definition defaultMaxSubjects : Z := 4096.
Definition defaultSubjectTTL : duration := 24 * Hour.
Definition defaultMaxDistinctHosts : Z := 1024.

Record BehaviorConfig := mkBehaviorConfig {
  bc_Mode : string;
  bc_RateLimitPerMin : Z;
  bc_MaxSubjects : Z;
  bc_SubjectTTLMinutes : Z;
  bc_MaxDistinctPerSubject : Z;
}.

Record subjectState := mkSubject {
  su_events : list time;
  su_hosts : gset string;
  su_cmds : gset string;
  su_lastSeen : time;
}.

Record BehaviorTracker := mkTracker {
  bt_cfg : BehaviorConfig;
  bt_subjects : gmap string subjectState;
  bt_maxSubjects : Z;
  bt_subjectTTL : duration;
  bt_maxDistinct : Z;
}.

Definition with_subjects (m : gmap string subjectState) (t : BehaviorTracker) : BehaviorTracker :=
  mkTracker (bt_cfg t) m (bt_maxSubjects t) (bt_subjectTTL t) (bt_maxDistinct t).

(** An unset bound takes its default. *)
Definition or_default (v d : Z) : Z := if v <=? 0 then d else v.

Definition NewBehaviorTracker (cfg : BehaviorConfig) : BehaviorTracker :=
  mkTracker cfg ∅ (or_default (bc_MaxSubjects cfg) defaultMaxSubjects)
    (or_default (wrap64 (bc_SubjectTTLMinutes cfg * Minute)) defaultSubjectTTL)
    (or_default (bc_MaxDistinctPerSubject cfg) defaultMaxDistinctHosts).

Definition Enabled (t : BehaviorTracker) : bool :=
  bool_decide (bc_Mode (bt_cfg t) = BehaviorObserve) || bool_decide (bc_Mode (bt_cfg t) = BehaviorEnforce).
Definition Enforcing (t : BehaviorTracker) : bool := bool_decide (bc_Mode (bt_cfg t) = BehaviorEnforce).

Definition firstToken (command : string) : string :=
  match Fields command with [] => "" | f :: _ => f end.

Inductive anomaly :=
| ARateExceeded
| ANewHost (host : string)
| ANewCommand (fp : string).
#[global] Instance anomaly_eq_dec : EqDecision anomaly.
Proof. solve_decision. Defined.

Definition card (s : gset string) : Z := Z.of_nat (size s).

Definition learnLocked (t : BehaviorTracker) (st : subjectState) (host fp : string) : subjectState :=
  mkSubject (su_events st)
    (if card (su_hosts st) <? bt_maxDistinct t then {[host]} ∪ su_hosts st else su_hosts st)
    (if bool_decide (fp ≠ "") && (card (su_cmds st) <? bt_maxDistinct t) then {[fp]} ∪ su_cmds st else su_cmds st)
    (su_lastSeen st).

(** One entry of the eviction loop: the table, and the oldest entry so far with
    the empty key for none. *)
Definition evict_entry (cutoff : time) (acc : gmap string subjectState * string * time)
    (kv : string * subjectState) : gmap string subjectState * string * time :=
  let '(m, oldestKey, oldestSeen) := acc in
  let '(k, st) := kv in
  if su_lastSeen st <? cutoff then (delete k m, oldestKey, oldestSeen)
  else if bool_decide (oldestKey = "") || (su_lastSeen st <? oldestSeen) then (m, k, su_lastSeen st)
  else acc.

Definition table_size (m : gmap string subjectState) : Z := Z.of_nat (size m).

Section tracker.
Context (iter : range_order subjectState).

Definition evictLocked (t : BehaviorTracker) (now : time) : BehaviorTracker :=
  if table_size (bt_subjects t) <? bt_maxSubjects t then t
  else
    let '(m, oldestKey, _) :=
      fold_left (evict_entry (now - bt_subjectTTL t)) (iter (bt_subjects t)) (bt_subjects t, "", 0) in
    with_subjects
      (if (bt_maxSubjects t <=? table_size m) && bool_decide (oldestKey ≠ "") then delete oldestKey m else m) t.

Definition new_subject : subjectState := mkSubject [] ∅ ∅ 0.

(** The entry of the subject, made room for when it is new. *)
Definition touch (t : BehaviorTracker) (now : time) (subject : string) : BehaviorTracker * subjectState * bool :=
  match bt_subjects t !! subject with
  | Some st => (t, mkSubject (su_events st) (su_hosts st) (su_cmds st) now, true)
  | None => (evictLocked t now, mkSubject [] ∅ ∅ now, false)
  end.

Definition rate_window (now : time) (events : list time) : list time :=
  List.filter (fun e => now - Minute <? e) events ++ [now].
Definition limited (t : BehaviorTracker) : bool := 0 <? bc_RateLimitPerMin (bt_cfg t).
Definition counted (t : BehaviorTracker) (now : time) (st : subjectState) : subjectState :=
  if limited t then mkSubject (rate_window now (su_events st)) (su_hosts st) (su_cmds st) (su_lastSeen st) else st.

Definition novel (t : BehaviorTracker) (st : subjectState) (host fp : string) : list anomaly :=
  (if bool_decide (host ∉ su_hosts st) && negb (bt_maxDistinct t <=? card (su_hosts st)) then [ANewHost host] else [])
  ++ (if bool_decide (fp ≠ "") && bool_decide (fp ∉ su_cmds st) && negb (bt_maxDistinct t <=? card (su_cmds st))
      then [ANewCommand fp] else []).

Definition Check (t : BehaviorTracker) (now : time) (subject host command : string) :
    BehaviorTracker * (list anomaly * bool) :=
  if negb (Enabled t) then (t, ([], false))
  else
    let '(t, st, seen) := touch t now subject in
    let st := counted t now st in
    let exceeded := limited t && (bc_RateLimitPerMin (bt_cfg t) <? Z.of_nat (length (su_events st))) in
    let fp := firstToken command in
    let anomalies := (if exceeded then [ARateExceeded] else []) ++ (if (seen : bool) then novel t st host fp else []) in
    let st := if negb (Enforcing t) || bool_decide (anomalies = []) then learnLocked t st host fp else st in
    (with_subjects (<[subject := st]> (bt_subjects t)) t, (anomalies, exceeded)).

Definition Learn (t : BehaviorTracker) (now : time) (subject host command : string) : BehaviorTracker :=
  if negb (Enabled t) then t
  else
    let '(t, st, _) := touch t now subject in
    with_subjects (<[subject := learnLocked t st host (firstToken command)]> (bt_subjects t)) t.
End tracker.

(** ** Runs *)

Inductive bop :=
| BCheck (now : time) (subject host command : string)
| BLearn (now : time) (subject host command : string).
Definition op_time (o : bop) : time := match o with BCheck n _ _ _ | BLearn n _ _ _ => n end.
Definition op_subject (o : bop) : string := match o with BCheck _ s _ _ | BLearn _ s _ _ => s end.

Section runs.
Context (iter : range_order subjectState) `{!RangeOrder iter}.

Definition bstep (t : BehaviorTracker) (o : bop) : BehaviorTracker :=
  match o with BCheck n s h c => (Check iter t n s h c).1 | BLearn n s h c => Learn iter t n s h c end.
Definition brun (t : BehaviorTracker) (ops : list bop) : BehaviorTracker := fold_left bstep ops t.

(** ** Bounds *)

Record bounded (t : BehaviorTracker) : Prop := {
  bd_positive : 0 < bt_maxSubjects t ∧ 0 < bt_maxDistinct t;
  bd_table : table_size (bt_subjects t) ≤ bt_maxSubjects t;
  bd_named : bt_subjects t !! "" = None;
  bd_sets : ∀ s st, bt_subjects t !! s = Some st →
    card (su_hosts st) ≤ bt_maxDistinct t ∧ card (su_cmds st) ≤ bt_maxDistinct t;
}.

Lemma card_add x s : card ({[x]} ∪ s) ≤ card s + 1.
Proof.
  unfold card. destruct (decide (x ∈ s)) as [H|H].
  - assert (E : {[x]} ∪ s = s) by set_solver. rewrite E. lia.
  - rewrite size_union by set_solver. rewrite size_singleton. lia.
Qed.

Lemma counted_sets t now st : su_hosts (counted t now st) = su_hosts st ∧ su_cmds (counted t now st) = su_cmds st.
Proof. unfold counted. by destruct (limited t). Qed.

Lemma learnLocked_bounded t st h fp :
  card (su_hosts st) ≤ bt_maxDistinct t → card (su_cmds st) ≤ bt_maxDistinct t →
  card (su_hosts (learnLocked t st h fp)) ≤ bt_maxDistinct t ∧ card (su_cmds (learnLocked t st h fp)) ≤ bt_maxDistinct t.
Proof.
  intros H1 H2. unfold learnLocked. cbn [su_hosts su_cmds]. split.
  - destruct (_ <? _) eqn:E; [|done]. unbool. pose proof (card_add h (su_hosts st)). lia.
  - destruct (_ && _) eqn:E; [|done]. unbool. pose proof (card_add fp (su_cmds st)). lia.
Qed.

(** The eviction loop only removes entries, and remembers one that is left. *)
Lemma evict_loop l cutoff m0 m k seen m' k' seen' :
  NoDup l.*1 → (∀ x, x ∈ l.*1 → x ≠ "") → m ⊆ m0 → (∀ x st, (x, st) ∈ l → m !! x = Some st) →
  (k = "" ∨ is_Some (m !! k) ∧ k ∉ l.*1) →
  fold_left (evict_entry cutoff) l (m, k, seen) = (m', k', seen') →
  m' ⊆ m ∧ (k' = "" ∨ is_Some (m' !! k')) ∧ (k' = "" → k = "" ∧ ∀ x, x ∈ l.*1 → m' !! x = None).
Proof.
  revert m k seen. induction l as [|[x st] l IH]; intros m k seen; cbn [fold_left].
  { intros _ _ _ _ Hk [= <- <- <-]. split; [done|]. split; [destruct Hk as [?|[? _]]; auto|]. intros ->. split; [done|]. by intros x ?%elem_of_nil. }
  cbn [list_fmap fmap fst]. intros [Hx Hnd]%NoDup_cons Hne Hsub Hin Hk. cbn [evict_entry].
  assert (Hne' : ∀ y, y ∈ l.*1 → y ≠ "") by (intros y Hy; apply Hne; by right).
  assert (Hmx : m !! x = Some st) by (apply Hin; by left).
  destruct (su_lastSeen st <? cutoff).
  - intros E. destruct (IH (delete x m) k seen) as (H1 & H2 & H3); try done.
    + etransitivity; [apply delete_subseteq|done].
    + intros y sy Hy. rewrite lookup_delete_ne; [apply Hin; by right|]. intros <-. apply Hx. apply list_elem_of_fmap. by exists (x, sy).
    + destruct Hk as [?|[Hk Hkl]]; [by left|right]. rewrite not_elem_of_cons in Hkl. destruct Hkl as [Hkx Hkl].
      rewrite lookup_delete_ne by done. done.
    + split; [etransitivity; [exact H1|apply delete_subseteq]|]. split; [done|]. intros ->. destruct (H3 eq_refl) as [-> Hl].
      split; [done|]. intros y [->|Hy]%elem_of_cons; [|by apply Hl].
      destruct (m' !! x) eqn:Em; [|done]. eapply lookup_weaken in Em; [|exact H1]. by rewrite lookup_delete_eq in Em.
  - destruct (bool_decide (k = "") || (su_lastSeen st <? seen)) eqn:Ek; intros E.
    + destruct (IH m x (su_lastSeen st)) as (H1 & H2 & H3); try done.
      * intros y sy Hy. apply Hin. by right.
      * right. rewrite Hmx. done.
      * split; [done|]. split; [done|]. intros ->. destruct (H3 eq_refl) as [-> _]. exfalso. by apply (Hne ""); [left|].
    + apply orb_false_iff in Ek as [Ek _]. apply bool_decide_eq_false in Ek. destruct Hk as [?|[Hk Hkl]]; [done|].
      rewrite not_elem_of_cons in Hkl. destruct Hkl as [_ Hkl].
      destruct (IH m k seen) as (H1 & H2 & H3); try done; [intros y sy Hy; apply Hin; by right|by right|].
      split; [done|]. split; [done|]. intros ->. by destruct (H3 eq_refl).
Qed.

Lemma size_delete (m : gmap string subjectState) k st : m !! k = Some st → table_size (delete k m) = table_size m - 1.
Proof. intros H. unfold table_size. rewrite map_size_delete_Some by (by eexists). pose proof (map_size_ne_0_lookup_2 m k ltac:(by eexists)). lia. Qed.

Definition same_limits (t t' : BehaviorTracker) : Prop :=
  bt_cfg t' = bt_cfg t ∧ bt_maxSubjects t' = bt_maxSubjects t ∧ bt_subjectTTL t' = bt_subjectTTL t ∧ bt_maxDistinct t' = bt_maxDistinct t.

(** Eviction makes room for one more subject and changes no entry it keeps. *)
Lemma evictLocked_room t now :
  bounded t →
  same_limits t (evictLocked iter t now) ∧ bt_subjects (evictLocked iter t now) ⊆ bt_subjects t ∧
  table_size (bt_subjects (evictLocked iter t now)) < bt_maxSubjects t.
Proof.
  intros [[Hpos _] Htab Hnamed _]. unfold evictLocked. destruct (_ <? _) eqn:Hlt; [unbool; done|]. apply Z.ltb_ge in Hlt.
  destruct (fold_left _ _ _) as [[m k] seen] eqn:E. split; [done|]. cbn [with_subjects bt_subjects].
  apply (evict_loop _ _ (bt_subjects t)) in E as (Hsub & Hk & Hempty).
  - assert (Hsize : table_size m ≤ table_size (bt_subjects t)) by (apply Nat2Z.inj_le, map_subseteq_size, Hsub).
    destruct (bt_maxSubjects t <=? table_size m) eqn:Hfull; cbn [andb]; [|unbool; done]. apply Z.leb_le in Hfull.
    case_bool_decide as Hne.
    + destruct Hk as [?|[st Hst]]; [done|]. split; [etransitivity; [apply delete_subseteq|done]|]. rewrite (size_delete m k st Hst). lia.
    + exfalso. destruct (Hempty Hne) as [_ Hall]. assert (m = ∅) as ->; [|unfold table_size in Hfull; rewrite map_size_empty in Hfull; lia].
      apply map_empty. intros x. destruct (m !! x) as [st|] eqn:Ex; [|done]. exfalso. eapply lookup_weaken in Ex as Ex'; [|exact Hsub].
      rewrite (Hall x) in Ex; [done|]. apply list_elem_of_fmap. exists (x, st). split; [done|]. by apply range_elem.
  - rewrite (range_perm (bt_subjects t)). apply NoDup_fst_map_to_list.
  - intros x Hx ->. apply list_elem_of_fmap in Hx as ([y st] & Ey & Hkv). cbn [fst] in Ey. subst y.
    apply (range_elem iter) in Hkv. congruence.
  - done.
  - intros x st Hx. by apply (range_elem iter).
  - by left.
Qed.

(** The entry an operation works on, and the table it is put back in. *)
Lemma touch_spec t now s t1 st seen :
  bounded t → s ≠ "" → touch iter t now s = (t1, st, seen) →
  same_limits t t1 ∧ bt_subjects t1 ⊆ bt_subjects t ∧ bounded t1 ∧
  card (su_hosts st) ≤ bt_maxDistinct t ∧ card (su_cmds st) ≤ bt_maxDistinct t ∧
  (∀ st', table_size (<[s := st']> (bt_subjects t1)) ≤ bt_maxSubjects t).
Proof.
  intros Hb Hs. unfold touch. destruct (bt_subjects t !! s) as [st0|] eqn:E; intros [= <- <- <-].
  - destruct (bd_sets t Hb s st0 E) as [? ?]. split_and!; try done. intros st'.
    unfold table_size. rewrite map_size_insert_Some by (by eexists). apply Hb.
  - destruct (evictLocked_room t now Hb) as (Hl & Hsub & Hroom). destruct Hl as (E1 & E2 & E3 & E4). destruct Hb as [Hp Ht Hn Hsets].
    split_and!; try done; try lia.
    + split; rewrite ?E2, ?E4; [done|lia| |].
      * destruct (bt_subjects (evictLocked iter t now) !! "") eqn:Ex; [|done]. eapply lookup_weaken in Ex; [|exact Hsub]. congruence.
      * intros x sx Hx. apply (Hsets x). by eapply lookup_weaken.
    + unfold card. cbn [su_hosts]. rewrite size_empty. lia.
    + unfold card. cbn [su_cmds]. rewrite size_empty. lia.
    + intros st'. assert (table_size (<[s := st']> (bt_subjects (evictLocked iter t now))) ≤ table_size (bt_subjects (evictLocked iter t now)) + 1); [|lia].
      unfold table_size. destruct (bt_subjects (evictLocked iter t now) !! s) eqn:Ex.
      * rewrite map_size_insert_Some by (by eexists). lia.
      * rewrite map_size_insert_None by done. lia.
Qed.

Lemma put_bounded t t1 s st :
  same_limits t t1 → bounded t1 → s ≠ "" → (∀ st', table_size (<[s := st']> (bt_subjects t1)) ≤ bt_maxSubjects t) →
  card (su_hosts st) ≤ bt_maxDistinct t → card (su_cmds st) ≤ bt_maxDistinct t →
  bounded (with_subjects (<[s := st]> (bt_subjects t1)) t1).
Proof.
  intros (_ & E2 & _ & E4) [Hp Ht Hn Hsets] Hs Hroom H1 H2. split; cbn [with_subjects bt_maxSubjects bt_maxDistinct bt_subjects].
  - done.
  - rewrite E2. apply Hroom.
  - by rewrite lookup_insert_ne.
  - intros x sx Hx. rewrite E4. destruct (decide (x = s)) as [->|Hn']; [rewrite lookup_insert_eq in Hx; injection Hx as <-; done|].
    rewrite lookup_insert_ne in Hx by done. rewrite <-E4. by apply (Hsets x).
Qed.

Lemma limits_trans t1 t2 t3 : same_limits t1 t2 → same_limits t2 t3 → same_limits t1 t3.
Proof. unfold same_limits. intros (-> & -> & -> & ->) H. exact H. Qed.

Lemma bstep_bounded t o : bounded t → op_subject o ≠ "" → bounded (bstep t o) ∧ same_limits t (bstep t o).
Proof.
  intros Hb Hs. destruct o as [now s h c|now s h c]; cbn [op_subject bstep] in *; unfold Check, Learn; destruct (negb (Enabled t)); try (split; [done|done]).
  - destruct (touch iter t now s) as [[t1 st] seen] eqn:E. destruct (touch_spec _ _ _ _ _ _ Hb Hs E) as (Hl & _ & Hb1 & H1 & H2 & Hroom).
    pose proof Hl as (_ & _ & _ & E4). cbn [fst]. split; [|exact Hl]. destruct (counted_sets t1 now st) as [Eh Ec].
    eapply put_bounded; try done.
    + destruct (_ || _); [|by rewrite Eh]. rewrite <-E4. apply learnLocked_bounded; rewrite ?Eh, ?Ec, ?E4; done.
    + destruct (_ || _); [|by rewrite Ec]. rewrite <-E4. apply learnLocked_bounded; rewrite ?Eh, ?Ec, ?E4; done.
  - destruct (touch iter t now s) as [[t1 st] seen] eqn:E. destruct (touch_spec _ _ _ _ _ _ Hb Hs E) as (Hl & _ & Hb1 & H1 & H2 & Hroom).
    pose proof Hl as (_ & _ & _ & E4). split; [|exact Hl]. eapply put_bounded; try done; rewrite <-E4; apply learnLocked_bounded; by rewrite E4.
Qed.

Lemma or_default_pos v d : 0 < d → 0 < or_default v d.
Proof. intros H. unfold or_default. destruct (_ <=? _) eqn:E; unbool; lia. Qed.

Lemma new_bounded cfg : bounded (NewBehaviorTracker cfg).
Proof.
  split; cbn [NewBehaviorTracker bt_subjects bt_maxSubjects bt_maxDistinct]; try done.
  - split; apply or_default_pos; done.
  - unfold table_size. rewrite map_size_empty. pose proof (or_default_pos (bc_MaxSubjects cfg) defaultMaxSubjects ltac:(done)). lia.
Qed.

Lemma brun_bounded t ops : bounded t → (∀ o, o ∈ ops → op_subject o ≠ "") → bounded (brun t ops).
Proof.
  unfold brun. revert t. induction ops as [|o ops IH]; intros t Hb Hall; [done|]. cbn [fold_left].
  apply IH; [|intros x Hx; apply Hall; by right]. apply bstep_bounded; [done|]. apply Hall. by left.
Qed.

(** The tracker's tables stay bounded: whatever requests and approvals
    arrive, from however many distinct subjects, the number of tracked subjects
    never exceeds its limit and no subject keeps more distinct hosts or commands
    than its limit, both limits being positive. *)
Theorem tracker_bounded cfg ops :
  (∀ o, o ∈ ops → op_subject o ≠ "") → bounded (brun (NewBehaviorTracker cfg) ops).
Proof. apply brun_bounded, new_bounded. Qed.

(** ** The rate limit *)

Definition check_time (s : string) (o : bop) : list time :=
  match o with BCheck n s' _ _ => if bool_decide (s' = s) then [n] else [] | BLearn _ _ _ _ => [] end.
Definition check_times (s : string) (ops : list bop) : list time := flat_map (check_time s) ops.
Definition names (ops : list bop) : gset string := list_to_set (map op_subject ops).

(** The requests of the minute before the last one. *)
Definition recent (times : list time) : list time :=
  match last times with None => [] | Some l => List.filter (fun e => l - Minute <? e) times end.

Lemma rate_window_recent now times :
  (∀ x, x ∈ times → x ≤ now) → rate_window now (recent times) = recent (times ++ [now]).
Proof.
  intros Hle. unfold recent. rewrite last_snoc. unfold rate_window. rewrite List.filter_app. f_equal.
  - destruct (last times) as [l|] eqn:El; [|apply last_None in El as ->; done].
    assert (Hl : l ≤ now) by (apply Hle; by apply last_Some_elem_of). clear El Hle.
    induction times as [|x times IH]; [done|]. cbn [List.filter]. destruct (l - Minute <? x) eqn:E1; cbn [List.filter].
    + destruct (now - Minute <? x); by rewrite IH.
    + rewrite IH. assert ((now - Minute <? x) = false) as -> by (apply Z.ltb_ge; apply Z.ltb_ge in E1; lia). done.
  - cbn [List.filter]. assert ((now - Minute <? now) = true) as -> by (apply Z.ltb_lt; unfold Minute, Second; lia). done.
Qed.

(** The state after a prefix [P] of a run, when nobody was evicted. *)
Record rate_inv (t0 t : BehaviorTracker) (P : list bop) : Prop := {
  ri_limits : same_limits t0 t;
  ri_dom : dom (bt_subjects t) ⊆ names P;
  ri_events : ∀ s, match bt_subjects t !! s with
                   | Some st => su_events st = recent (check_times s P)
                   | None => check_times s P = []
                   end;
}.

Lemma table_names m P : dom m ⊆ names P → table_size m ≤ Z.of_nat (size (names P)).
Proof. intros H. unfold table_size. rewrite <-size_dom. apply Nat2Z.inj_le. by apply subseteq_size. Qed.

Lemma names_snoc P o : names (P ++ [o]) = names P ∪ {[op_subject o]}.
Proof. unfold names. rewrite List.map_app, list_to_set_app_L. cbn. set_solver. Qed.
Lemma check_times_snoc s P o : check_times s (P ++ [o]) = check_times s P ++ check_time s o.
Proof. unfold check_times. rewrite flat_map_app. cbn. by rewrite app_nil_r. Qed.

Lemma touch_room t0 t P o now :
  rate_inv t0 t P → Z.of_nat (size (names (P ++ [o]))) ≤ bt_maxSubjects t0 →
  ∃ st seen, touch iter t now (op_subject o) = (t, st, seen) ∧ su_events st = recent (check_times (op_subject o) P).
Proof.
  intros [(_ & E2 & _) Hdom Hev] Hroom. unfold touch. specialize (Hev (op_subject o)). set (s := op_subject o) in *.
  destruct (bt_subjects t !! s) as [st|] eqn:E; [by eexists _, _|].
  assert (Hs : evictLocked iter t now = t).
  { unfold evictLocked. assert ((table_size (bt_subjects t) <? bt_maxSubjects t) = true) as ->; [|done]. apply Z.ltb_lt. rewrite E2.
    assert (Hin : dom (bt_subjects t) ⊆ names (P ++ [o]) ∖ {[s]}).
    { rewrite names_snoc. apply not_elem_of_dom in E. set_solver. }
    assert (Hsz : (size (dom (bt_subjects t)) ≤ size (names (P ++ [o]) ∖ {[s]}))%nat) by (by apply subseteq_size).
    rewrite size_difference in Hsz by (rewrite names_snoc; set_solver). rewrite size_singleton, size_dom in Hsz.
    assert (size (names (P ++ [o])) ≠ 0%nat) by (rewrite names_snoc; apply size_non_empty_iff; set_solver).
    unfold table_size. lia. }
  rewrite Hs. eexists _, _. split; [done|]. cbn [su_events]. by rewrite Hev.
Qed.

Lemma rate_step t0 t P o :
  Enabled t0 = true → limited t0 = true → rate_inv t0 t P → Z.of_nat (size (names (P ++ [o]))) ≤ bt_maxSubjects t0 →
  (∀ s x, x ∈ check_times s P → x ≤ op_time o) →
  rate_inv t0 (bstep t o) (P ++ [o]) ∧
  ∀ n s h c, o = BCheck n s h c →
    (Check iter t n s h c).2.2 = (bc_RateLimitPerMin (bt_cfg t0) <? Z.of_nat (length (recent (check_times s P ++ [n])))).
Proof.
  intros Hen Hlim Hinv Hroom Htime. pose proof Hinv as [Hl Hdom Hev]. pose proof Hl as (E1 & _).
  assert (Hen' : Enabled t = true) by (unfold Enabled in *; by rewrite E1).
  assert (Hlim' : limited t = true) by (unfold limited in *; by rewrite E1).
  destruct (touch_room t0 t P o (op_time o) Hinv Hroom) as (st & seen & Et & Est).
  assert (Hput : ∀ st', su_events st' = recent (check_times (op_subject o) (P ++ [o])) →
    rate_inv t0 (with_subjects (<[op_subject o := st']> (bt_subjects t)) t) (P ++ [o])).
  { intros st' Hst'. split; cbn [with_subjects bt_subjects].
    - exact Hl.
    - rewrite dom_insert, names_snoc. set_solver.
    - intros s. destruct (decide (s = op_subject o)) as [->|Hn]; [by rewrite lookup_insert_eq|]. rewrite lookup_insert_ne by done.
      specialize (Hev s). rewrite check_times_snoc. assert (check_time s o = []) as ->; [|by rewrite app_nil_r].
      destruct o; cbn [check_time op_subject] in *; [|done]. by rewrite bool_decide_eq_false_2. }
  destruct o as [n s h c|n s h c]; cbn [op_subject op_time bstep] in *.
  - assert (Hw : rate_window n (su_events st) = recent (check_times s P ++ [n])).
    { rewrite Est. apply rate_window_recent. intros x Hx. by apply (Htime s). }
    assert (Hct : check_times s (P ++ [BCheck n s h c]) = check_times s P ++ [n]).
    { rewrite check_times_snoc. cbn [check_time]. by rewrite bool_decide_eq_true_2. }
    assert (Hcounted : su_events (counted t n st) = recent (check_times s P ++ [n])) by (unfold counted; by rewrite Hlim').
    unfold Check. rewrite Hen'. cbn [negb]. rewrite Et. cbn [fst snd]. split.
    + apply Hput. rewrite Hct, <-Hcounted. by destruct (negb (Enforcing t) || _).
    + intros n' s' h' c' [= <- <- <- <-]. rewrite Et. cbn [snd]. rewrite Hlim', Hcounted, E1. done.
  - split; [|done]. unfold Learn. rewrite Hen'. cbn [negb]. rewrite Et. apply Hput.
    rewrite check_times_snoc. cbn [check_time]. rewrite app_nil_r. by rewrite <-Est.
Qed.

(** Requests of [s] in [(lo, hi]] that were not over the limit. *)
Fixpoint passes (t : BehaviorTracker) (ops : list bop) (s : string) (lo hi : time) : Z :=
  match ops with
  | [] => 0
  | o :: ops' =>
      match o with
      | BCheck n s' h c =>
          if bool_decide (s' = s) && (lo <? n) && (n <=? hi) && negb (Check iter t n s' h c).2.2 then 1 else 0
      | BLearn _ _ _ _ => 0
      end + passes (bstep t o) ops' s lo hi
  end.

Lemma brun_snoc t P o : brun t (P ++ [o]) = bstep (brun t P) o.
Proof. unfold brun. by rewrite fold_left_app. Qed.
Lemma passes_snoc t P o s lo hi : passes t (P ++ [o]) s lo hi = passes t P s lo hi + passes (brun t P) [o] s lo hi.
Proof. revert t. induction P as [|x P IH]; intros t; [done|]. cbn [app passes]. rewrite IH. cbn [passes]. unfold brun. cbn [fold_left]. lia. Qed.

Definition since (lo : time) (times : list time) : Z := Z.of_nat (length (List.filter (fun e => lo <? e) times)).

Lemma passes_since t P s lo hi : passes t P s lo hi ≤ since lo (check_times s P).
Proof.
  revert t. induction P as [|o P IH]; intros t; [done|]. cbn [passes]. specialize (IH (bstep t o)). unfold since, check_times in *. cbn [flat_map].
  rewrite List.filter_app, length_app. destruct o as [n s' h c|]; cbn [check_time]; [|cbn [List.filter length Nat.add]; lia].
  case_bool_decide; cbn [andb List.filter]; [|cbn [List.filter length Nat.add]; lia]. destruct (lo <? n); cbn [andb length]; [|lia].
  destruct (_ && _); lia.
Qed.

Lemma since_mono lo lo' times : lo' ≤ lo → since lo times ≤ since lo' times.
Proof.
  intros H. unfold since. induction times as [|x times IH]; [done|]. cbn [List.filter].
  destruct (lo <? x) eqn:E1, (lo' <? x) eqn:E2; cbn [length]; unbool; lia.
Qed.

(** Times do not go back. *)
Definition in_order (ops : list bop) : Prop := StronglySorted (fun o o' => op_time o ≤ op_time o') ops.

Lemma check_times_op s P x : x ∈ check_times s P → ∃ o, o ∈ P ∧ op_time o = x.
Proof.
  unfold check_times. intros (o & Ho & Hx)%list_elem_of_In%in_flat_map. exists o. split; [by apply list_elem_of_In|].
  destruct o as [n s' h c|]; cbn [check_time] in Hx; [|done]. case_bool_decide; [|done]. by destruct Hx as [->|[]].
Qed.

Lemma in_order_snoc P o : in_order (P ++ [o]) → in_order P ∧ ∀ p, p ∈ P → op_time p ≤ op_time o.
Proof.
  unfold in_order. induction P as [|p P IH]; [split; [constructor|by intros p ?%elem_of_nil]|]. cbn [app]. inversion 1 as [|? ? Hs Hf]; subst.
  destruct (IH Hs) as [H1 H2]. apply Forall_app in Hf as [Hf1 [Hf2 _]%Forall_cons]. split; [by constructor|].
  intros q [->|Hq]%elem_of_cons; auto.
Qed.

Lemma new_rate_inv cfg : rate_inv (NewBehaviorTracker cfg) (NewBehaviorTracker cfg) [].
Proof. by split. Qed.

Lemma run_rate_inv cfg ops :
  Enabled (NewBehaviorTracker cfg) = true → 0 < bc_RateLimitPerMin cfg → in_order ops →
  Z.of_nat (size (names ops)) ≤ bt_maxSubjects (NewBehaviorTracker cfg) →
  rate_inv (NewBehaviorTracker cfg) (brun (NewBehaviorTracker cfg) ops) ops.
Proof.
  intros Hen Hl. induction ops as [|o P IH] using rev_ind; intros Ho Hn; [apply new_rate_inv|].
  apply in_order_snoc in Ho as [HoP Hle]. rewrite brun_snoc. apply rate_step; [done|by apply Z.ltb_lt| |done|].
  - apply IH; [done|]. etransitivity; [|exact Hn]. apply Nat2Z.inj_le, subseteq_size. rewrite names_snoc. set_solver.
  - intros s x (p & Hp & <-)%check_times_op. by apply Hle.
Qed.

(** The rate limit holds over every minute, not only over clock minutes: as
    long as no subject was evicted, among the requests a subject makes in any
    interval of one minute at most the configured number are let through, whatever
    mix of refused and admitted requests came before. *)
Theorem rate_limit_enforced cfg ops s hi :
  Enabled (NewBehaviorTracker cfg) = true → 0 < bc_RateLimitPerMin cfg → in_order ops →
  Z.of_nat (size (names ops)) ≤ bt_maxSubjects (NewBehaviorTracker cfg) →
  passes (NewBehaviorTracker cfg) ops s (hi - Minute) hi ≤ bc_RateLimitPerMin cfg.
Proof.
  intros Hen Hl. induction ops as [|o P IH] using rev_ind; intros Ho Hn; [cbn; lia|].
  pose proof (in_order_snoc _ _ Ho) as [HoP Hle].
  assert (HnP : Z.of_nat (size (names P)) ≤ bt_maxSubjects (NewBehaviorTracker cfg)).
  { etransitivity; [|exact Hn]. apply Nat2Z.inj_le, subseteq_size. rewrite names_snoc. set_solver. }
  specialize (IH HoP HnP). rewrite passes_snoc. destruct o as [n s' h c|]; cbn [passes]; [|lia].
  destruct (bool_decide (s' = s) && (hi - Minute <? n) && (n <=? hi) && negb _) eqn:E; [|lia].
  apply andb_true_iff in E as [[[Es E1]%andb_true_iff E2]%andb_true_iff E3]. apply bool_decide_eq_true in Es as ->. unbool.
  destruct (rate_step _ _ P (BCheck n s h c) Hen (proj2 (Z.ltb_lt _ _) Hl) (run_rate_inv cfg P Hen Hl HoP HnP) Hn) as [_ Hex].
  { intros s0 x (p & Hp & <-)%check_times_op. by apply Hle. }
  rewrite (Hex n s h c eq_refl) in E3. cbn [bt_cfg NewBehaviorTracker] in E3. unbool.
  unfold recent in E3. rewrite last_snoc, List.filter_app, length_app in E3. cbn [List.filter] in E3.
  rewrite (proj2 (Z.ltb_lt (n - Minute) n)) in E3 by (unfold Minute, Second; lia). cbn [length] in E3.
  pose proof (passes_since (NewBehaviorTracker cfg) P s (hi - Minute) hi) as Hp.
  pose proof (since_mono (hi - Minute) (n - Minute) (check_times s P) ltac:(lia)) as Hm. unfold since in Hp, Hm. lia.
Qed.

(** ** Unapproved anomalies *)

Definition unknown (t : BehaviorTracker) (s h fp : string) : Prop :=
  ∃ st, bt_subjects t !! s = Some st ∧ (h ∉ su_hosts st) ∧ (fp ∉ su_cmds st).

(** [o] tells the tracker that [h] or [fp] is now normal for [s]. *)
Definition approves (s h fp : string) (o : bop) : Prop :=
  match o with BLearn _ s' h' c => s' = s ∧ (h' = h ∨ firstToken c = fp) | BCheck _ _ _ _ => False end.

Lemma learnLocked_other t st h' fp' h fp :
  h' ≠ h → fp' ≠ fp → h ∉ su_hosts st → fp ∉ su_cmds st →
  (h ∉ su_hosts (learnLocked t st h' fp')) ∧ fp ∉ su_cmds (learnLocked t st h' fp').
Proof. intros Hh Hf H1 H2. unfold learnLocked. cbn [su_hosts su_cmds]. split; repeat case_match; set_solver. Qed.

(** A request without anomaly from a known subject teaches nothing. *)
Lemma learnLocked_known t st h fp : novel t st h fp = [] → su_hosts (learnLocked t st h fp) = su_hosts st ∧ su_cmds (learnLocked t st h fp) = su_cmds st.
Proof.
  unfold novel, learnLocked. cbn [su_hosts su_cmds]. intros [H1 H2]%app_eq_nil. split.
  - destruct (decide (h ∈ su_hosts st)) as [Hin|Hin]; [clear H1 H2; destruct (_ <? _); set_solver|]. rewrite bool_decide_eq_true_2 in H1 by done.
    destruct (card (su_hosts st) <? bt_maxDistinct t) eqn:E; [|done]. apply Z.ltb_lt in E. by rewrite (proj2 (Z.leb_gt _ _) E) in H1.
  - destruct (decide (fp ∈ su_cmds st)) as [Hin|Hin]; [clear H1 H2; destruct (_ && _); set_solver|]. rewrite (bool_decide_eq_true_2 (fp ∉ _)) in H2 by done.
    destruct (card (su_cmds st) <? bt_maxDistinct t) eqn:E; [|by rewrite andb_false_r]. apply Z.ltb_lt in E. rewrite (proj2 (Z.leb_gt _ _) E) in H2.
    by destruct (bool_decide (fp ≠ "")).
Qed.

(** Operations on other subjects keep the entry or evict it. *)
Lemma touch_other t now s s' t1 st seen :
  bounded t → s' ≠ "" → s' ≠ s → touch iter t now s' = (t1, st, seen) → is_Some (bt_subjects t1 !! s) → bt_subjects t1 !! s = bt_subjects t !! s.
Proof.
  intros Hb Hs' Hne E [st1 H1]. destruct (touch_spec _ _ _ _ _ _ Hb Hs' E) as (_ & Hsub & _). rewrite H1.
  symmetry. by eapply lookup_weaken.
Qed.

Lemma unknown_step t o s h fp :
  bounded t → Enforcing t = true → op_subject o ≠ "" → ¬ approves s h fp o → is_Some (bt_subjects (bstep t o) !! s) →
  unknown t s h fp → unknown (bstep t o) s h fp.
Proof.
  intros Hb Henf Hne Hap Htr (st & Hst & Hh & Hf).
  assert (Hen : Enabled t = true) by (unfold Enabled, Enforcing in *; rewrite Henf; by rewrite orb_true_r).
  destruct (decide (op_subject o = s)) as [Hs|Hs].
  - destruct o as [n s' h' c|n s' h' c]; cbn [op_subject bstep] in *; subst s'; unfold unknown.
    + unfold Check. rewrite Hen. cbn [negb]. unfold touch. rewrite Hst. cbn [fst with_subjects bt_subjects].
      rewrite lookup_insert_eq. eexists. split; [done|]. set (st1 := mkSubject _ _ _ n).
      destruct (counted_sets t n st1) as [Eh Ec]. rewrite Henf. cbn [negb orb]. case_bool_decide as Ea; [|rewrite Eh, Ec; done].
      apply app_eq_nil in Ea as [_ Ea]. destruct (learnLocked_known _ _ _ _ Ea) as [-> ->]. rewrite Eh, Ec. done.
    + unfold Learn. rewrite Hen. cbn [negb]. unfold touch. rewrite Hst. cbn [with_subjects bt_subjects].
      rewrite lookup_insert_eq. eexists. split; [done|]. cbn [approves] in Hap. apply learnLocked_other; cbn [su_hosts su_cmds]; try done; intros E; apply Hap; auto.
  - exists st. split; [|done]. rewrite <-Hst. destruct o as [n s' h' c|n s' h' c]; cbn [op_subject bstep] in *; unfold Check, Learn in *; rewrite Hen in *; cbn [negb] in *;
      destruct (touch iter t n s') as [[t1 st1] seen] eqn:Et; cbn [fst with_subjects bt_subjects] in *; rewrite lookup_insert_ne in * by done; by eapply touch_other.
Qed.

Lemma novel_unknown t st h fp :
  h ∉ su_hosts st → fp ∉ su_cmds st → fp ≠ "" →
  (card (su_hosts st) < bt_maxDistinct t → ANewHost h ∈ novel t st h fp) ∧
  (card (su_cmds st) < bt_maxDistinct t → ANewCommand fp ∈ novel t st h fp).
Proof.
  intros Hh Hf Hne. unfold novel. rewrite (bool_decide_eq_true_2 (h ∉ _)), (bool_decide_eq_true_2 (fp ≠ "")), (bool_decide_eq_true_2 (fp ∉ _)) by done.
  cbn [andb]. split; intros Hlt; rewrite (proj2 (Z.leb_gt _ _) Hlt); cbn [negb]; apply elem_of_app; [left|right]; by apply list_elem_of_singleton.
Qed.

(** An unapproved anomaly stays an anomaly: in enforce mode, however often a
    subject retries a host and a command outside its baseline, and whatever other
    subjects do, every retry is reported again, until an approval teaches the
    tracker that host or command, the subject is forgotten, or its tables are
    full. *)
Theorem unapproved_stays_anomalous t ops s h c n :
  bounded t → Enforcing t = true → unknown t s h (firstToken c) → firstToken c ≠ "" →
  (∀ o, o ∈ ops → op_subject o ≠ "" ∧ ¬ approves s h (firstToken c) o) →
  (∀ P R, ops = P ++ R → is_Some (bt_subjects (brun t P) !! s)) →
  ∃ st, bt_subjects (brun t ops) !! s = Some st ∧
    (card (su_hosts st) < bt_maxDistinct t → ANewHost h ∈ (Check iter (brun t ops) n s h c).2.1) ∧
    (card (su_cmds st) < bt_maxDistinct t → ANewCommand (firstToken c) ∈ (Check iter (brun t ops) n s h c).2.1).
Proof.
  intros Hb Henf Hun Hfp Hops Htr.
  assert (H : unknown (brun t ops) s h (firstToken c) ∧ same_limits t (brun t ops)).
  { revert t Hb Henf Hun Htr. induction ops as [|o ops IH]; intros t Hb Henf Hun Htr; [done|].
    destruct (Hops o ltac:(by left)) as [Hne Hap]. destruct (bstep_bounded t o Hb Hne) as [Hb1 Hl1]. pose proof Hl1 as (E1 & _).
    assert (H1 : unknown (bstep t o) s h (firstToken c)).
    { apply unknown_step; try done. apply (Htr [o] ops). done. }
    destruct (IH ltac:(intros; apply Hops; by right) (bstep t o)) as [H2 H3]; try done.
    - unfold Enforcing in *. by rewrite E1.
    - intros P R ->. apply (Htr (o :: P) R). done.
    - split; [exact H2|]. by eapply limits_trans. }
  destruct H as [(st & Hst & Hh & Hf) (E1 & _ & _ & E4)]. exists st. split; [done|].
  assert (Hen : Enabled (brun t ops) = true) by (unfold Enabled, Enforcing in *; rewrite E1, Henf; by rewrite orb_true_r).
  unfold Check. rewrite Hen. cbn [negb]. unfold touch. rewrite Hst. cbn [snd fst].
  set (st1 := counted (brun t ops) n (mkSubject (su_events st) (su_hosts st) (su_cmds st) n)).
  destruct (counted_sets (brun t ops) n (mkSubject (su_events st) (su_hosts st) (su_cmds st) n)) as [Eh Ec]. fold st1 in Eh, Ec. cbn [su_hosts su_cmds] in Eh, Ec.
  destruct (novel_unknown (brun t ops) st1 h (firstToken c)) as [N1 N2]; [by rewrite Eh|by rewrite Ec|done|]. rewrite Eh, Ec, E4 in *.
  split; intros Hlt; apply elem_of_app; right; auto.
Qed.
End runs.

(** ** Concrete runs *)

Definition demo_cfg : BehaviorConfig := mkBehaviorConfig "enforce" 2 2 0 0.
Definition demo_ops : list bop :=
  [BCheck 0 "a" "web1" "ls -l"; BCheck 1 "a" "db1" "ls"; BLearn 2 "b" "web1" "ls"; BCheck 3 "a" "db1" "rm -rf /tmp/x"].
Abbreviation demo_iter := (@map_to_list string subjectState (gmap string subjectState) _).
Definition demo_tracker : BehaviorTracker := brun demo_iter (NewBehaviorTracker demo_cfg) demo_ops.

Example demo_outcome :
  (Check demo_iter demo_tracker 4 "a" "db1" "rm x").2 = ([ARateExceeded; ANewHost "db1"; ANewCommand "rm"], true).
Proof. vm_compute. reflexivity. Qed.

Lemma demo_subjects o : o ∈ demo_ops → op_subject o ≠ "".
Proof. unfold demo_ops. intros H. repeat (apply elem_of_cons in H as [->|H]; [done|]). by apply elem_of_nil in H. Qed.
Lemma demo_order : in_order demo_ops.
Proof. repeat constructor; vm_compute; discriminate. Qed.

Lemma tracker_bounded_witness : table_size (bt_subjects demo_tracker) = 2 ∧ bounded demo_tracker.
Proof. split; [vm_compute; reflexivity|]. exact (tracker_bounded demo_iter demo_cfg demo_ops demo_subjects). Defined.

Lemma rate_limit_enforced_witness :
  passes demo_iter (NewBehaviorTracker demo_cfg) demo_ops "a" (3 - Minute) 3 = 2 ∧
  passes demo_iter (NewBehaviorTracker demo_cfg) demo_ops "a" (3 - Minute) 3 ≤ bc_RateLimitPerMin demo_cfg.
Proof.
  split; [vm_compute; reflexivity|].
  apply (rate_limit_enforced demo_iter demo_cfg demo_ops "a" 3); [reflexivity|reflexivity|exact demo_order|vm_compute; discriminate].
Defined.

Lemma singleton_prefix {A : Type} (x : A) P R : [x] = P ++ R → P = [] ∨ P = [x].
Proof. destruct P as [|a [|b P]]; intros E; simplify_list_eq; auto. Qed.

Lemma unapproved_stays_anomalous_witness :
  ∃ st, bt_subjects (brun demo_iter demo_tracker [BCheck 5 "a" "db1" "rm x"]) !! "a" = Some st ∧
    (card (su_hosts st) < bt_maxDistinct demo_tracker →
       ANewHost "db1" ∈ (Check demo_iter (brun demo_iter demo_tracker [BCheck 5 "a" "db1" "rm x"]) 6 "a" "db1" "rm x").2.1) ∧
    (card (su_cmds st) < bt_maxDistinct demo_tracker →
       ANewCommand (firstToken "rm x") ∈ (Check demo_iter (brun demo_iter demo_tracker [BCheck 5 "a" "db1" "rm x"]) 6 "a" "db1" "rm x").2.1).
Proof.
  apply (unapproved_stays_anomalous demo_iter demo_tracker [BCheck 5 "a" "db1" "rm x"] "a" "db1" "rm x" 6).
  - apply (brun_bounded demo_iter); [apply new_bounded|exact demo_subjects].
  - vm_compute. reflexivity.
  - eexists. split; [vm_compute; reflexivity|]. split; apply (bool_decide_unpack _); vm_compute; exact I.
  - vm_compute. discriminate.
  - intros o Ho%list_elem_of_singleton. subst o. split; [done|]. intros [].
  - intros P R [->| ->]%singleton_prefix; eexists; vm_compute; reflexivity.
Defined.
