(* ===== verification/RateLimit.v ===== *)
(** * Per-caller rate limiting of the signer

    [internal/signer/ratelimit.go]: token buckets by caller name, refilled
    continuously, in a table of bounded size. Tokens are [float64]: binary64
    arithmetic of [SpecFloat]. *)

From Stdlib Require Import Floats.SpecFloat.
From S2P Require Import Prelude GoStrings.

(** ** binary64 *)

Definition float64 (z : Z) : spec_float := binary_normalize 53 1024 z 0 false.
Definition fadd := SFadd 53 1024.
Definition fsub := SFsub 53 1024.
Definition fmul := SFmul 53 1024.
Definition fdiv := SFdiv 53 1024.
Definition flt (x y : spec_float) : bool := SFltb x y.

(** [time.Duration.Seconds]. *)
Definition Seconds (d : duration) : spec_float :=
  fadd (float64 (Z.quot d Second)) (fdiv (float64 (Z.rem d Second)) (float64 Second)).

(** ** Buckets *)

Definition maxRateLimitKeys : Z := 4096.

Record rateBucket := mkBucket { rb_tokens : spec_float; rb_last : time }.
Abbreviation buckets := (gmap string rateBucket) (only parsing).
Definition bucket_count (m : buckets) : Z := Z.of_nat (size m).

Definition NewRateLimiter : gmap string rateBucket := ∅.

Definition prune (now : time) (m : buckets) : gmap string rateBucket :=
  filter (fun kv => ¬ Is_true (Minute <? now - rb_last kv.2)) m.

Section limiter.
Context (iter : range_order rateBucket).

Definition oldest_step (acc : option (string * time)) (kv : string * rateBucket) : option (string * time) :=
  match acc with
  | None => Some (kv.1, rb_last kv.2)
  | Some (_, oldest) => if rb_last kv.2 <? oldest then Some (kv.1, rb_last kv.2) else acc
  end.

Definition evictOldest (m : buckets) : gmap string rateBucket :=
  match fold_left oldest_step (iter m) None with Some (k, _) => delete k m | None => m end.

(** The table with room for a new key. *)
Definition make_room (now : time) (m : buckets) : gmap string rateBucket :=
  if bucket_count m <? maxRateLimitKeys then m
  else let m := prune now m in if bucket_count m <? maxRateLimitKeys then m else evictOldest m.

Definition refill (perMin : Z) (now : time) (b : rateBucket) : spec_float :=
  let capacity := float64 perMin in
  let tokens := fadd (rb_tokens b) (fdiv (fmul (Seconds (now - rb_last b)) capacity) (float64 60)) in
  if flt capacity tokens then capacity else tokens.

Definition Allow (m : buckets) (now : time) (key : string) (perMin : Z) : gmap string rateBucket * bool :=
  if perMin <=? 0 then (m, true)
  else
    let '(m, b) := match m !! key with
                   | Some b => (m, b)
                   | None => (make_room now m, mkBucket (float64 perMin) now)
                   end in
    let tokens := refill perMin now b in
    if flt tokens (float64 1) then (<[key := mkBucket tokens now]> m, false)
    else (<[key := mkBucket (fsub tokens (float64 1)) now]> m, true).
End limiter.

Definition RetryAfter (perMin : Z) : Z :=
  if perMin <=? 0 then 0
  else
    let secs := Z.quot 60 perMin in
    let secs := if Z.rem 60 perMin =? 0 then secs else secs + 1 in
    if secs <? 1 then 1 else secs.

(** ** The hint of a refusal *)

(** The hint is the least whole number of seconds in which a token arrives. *)
Lemma RetryAfter_least perMin :
  0 < perMin → 60 ≤ RetryAfter perMin * perMin ∧ 1 ≤ RetryAfter perMin ∧ ∀ k, 60 ≤ k * perMin → RetryAfter perMin ≤ k.
Proof.
  intros H. unfold RetryAfter. rewrite (proj2 (Z.leb_gt perMin 0)) by lia. pose proof (Z.quot_rem 60 perMin ltac:(lia)) as Hq.
  pose proof (Z.rem_bound_pos 60 perMin ltac:(lia) ltac:(lia)) as Hr. set (q := Z.quot 60 perMin) in *. set (r := Z.rem 60 perMin) in *.
  destruct (r =? 0) eqn:Er; [apply Z.eqb_eq in Er|apply Z.eqb_neq in Er].
  - assert (1 ≤ q) by nia. rewrite (proj2 (Z.ltb_ge q 1)) by lia. split; [nia|]. split; [lia|]. intros k Hk. nia.
  - assert (0 ≤ q) by nia. rewrite (proj2 (Z.ltb_ge (q + 1) 1)) by lia. split; [nia|]. split; [lia|]. intros k Hk. nia.
Qed.

(** ** The table *)

Section table.
Context (iter : range_order rateBucket) `{!RangeOrder iter}.

Lemma oldest_some (l : list (string * rateBucket)) acc :
  (∀ k o, acc = Some (k, o) → ∃ b, (k, b) ∈ l) → ∀ l', (∀ kv, kv ∈ l' → kv ∈ l) →
  (acc ≠ None ∨ l' ≠ []) → ∃ k o b, fold_left oldest_step l' acc = Some (k, o) ∧ (k, b) ∈ l.
Proof.
  intros Hacc l'. revert acc Hacc. induction l' as [|kv l' IH]; intros acc Hacc Hin Hne; cbn [fold_left].
  - destruct acc as [[k o]|]; [|by destruct Hne]. destruct (Hacc k o eq_refl) as [b Hb]. by exists k, o, b.
  - apply IH.
    + intros k o E. destruct acc as [[k0 o0]|]; cbn [oldest_step] in E.
      * destruct (_ <? _); [|by apply (Hacc k o)]. injection E as <- <-. exists kv.2. rewrite <-surjective_pairing. apply Hin. by left.
      * injection E as <- <-. exists kv.2. rewrite <-surjective_pairing. apply Hin. by left.
    + intros x Hx. apply Hin. by right.
    + left. destruct acc as [[k0 o0]|]; cbn [oldest_step]; [|done]. by destruct (_ <? _).
Qed.

Lemma evictOldest_smaller m : m ≠ ∅ → bucket_count (evictOldest iter m) = bucket_count m - 1.
Proof.
  intros Hm. unfold evictOldest.
  destruct (oldest_some (iter m) None ltac:(done) (iter m) ltac:(done)) as (k & o & b & -> & Hb).
  { right. intros E. apply Hm, map_empty. intros x. destruct (m !! x) as [bx|] eqn:Ex; [|done].
    apply (range_elem iter) in Ex. rewrite E in Ex. by apply elem_of_nil in Ex. }
  apply (range_elem iter) in Hb. unfold bucket_count. rewrite map_size_delete_Some by (by eexists).
  pose proof (map_size_ne_0_lookup_2 m k ltac:(by eexists)). lia.
Qed.

Lemma make_room_below now m : bucket_count m ≤ maxRateLimitKeys → bucket_count (make_room iter now m) < maxRateLimitKeys.
Proof.
  intros H. unfold make_room. destruct (bucket_count m <? _) eqn:E; [unbool; done|].
  assert (Hp : bucket_count (prune now m) ≤ bucket_count m) by (apply Nat2Z.inj_le, map_subseteq_size, map_filter_subseteq).
  destruct (bucket_count (prune now m) <? _) eqn:E2; [unbool; done|]. unbool. rewrite evictOldest_smaller; [lia|].
  intros E0. rewrite E0 in E2. unfold bucket_count in E2. rewrite map_size_empty in E2. done.
Qed.

(** The limiter's table never holds more than its bound of buckets, whatever
    names, limits and times the requests come with. *)
Theorem limiter_bounded m now key perMin :
  bucket_count m ≤ maxRateLimitKeys → bucket_count (Allow iter m now key perMin).1 ≤ maxRateLimitKeys.
Proof.
  intros H. unfold Allow. destruct (perMin <=? 0); [done|]. destruct (m !! key) as [b|] eqn:E.
  - destruct (flt _ _); cbn [fst]; unfold bucket_count in *; by rewrite map_size_insert_Some by (by eexists).
  - pose proof (make_room_below now m H) as Hr. destruct (flt _ _); cbn [fst]; unfold bucket_count in *;
      (destruct (make_room iter now m !! key) eqn:E2; [rewrite map_size_insert_Some by (by eexists); lia|rewrite map_size_insert_None by done; lia]).
Qed.

(** ** Bursts *)

(** How many of [n] requests at one instant are admitted. *)
Fixpoint admitted (m : gmap string rateBucket) (now : time) (key : string) (perMin : Z) (n : nat) : Z :=
  match n with
  | O => 0
  | S n' => let '(m', ok) := Allow iter m now key perMin in (if ok then 1 else 0) + admitted m' now key perMin n'
  end.
End table.

#[global] Instance spec_float_eq_dec : EqDecision spec_float.
Proof. solve_decision. Defined.

(** Exactness of binary64 on small numbers, by evaluation. *)
Definition burst_limit : nat := 100.
Definition exact_at (cap k : nat) : bool :=
  let c := float64 (Z.of_nat cap) in
  let x := float64 (Z.of_nat k) in
  let r := fadd x (fdiv (fmul (Seconds 0) c) (float64 60)) in
  bool_decide (r = x) && negb (flt c x) && Bool.eqb (flt x (float64 1)) (k =? 0)%nat
  && bool_decide ((k = 0)%nat ∨ fsub x (float64 1) = float64 (Z.of_nat (k - 1))).

Lemma exact_checked : forallb (fun cap => forallb (exact_at cap) (seq 0 (S cap))) (seq 1 burst_limit) = true.
Proof. vm_compute. reflexivity. Qed.

Section bursts.
Context (iter : range_order rateBucket) `{!RangeOrder iter}.

Lemma Allow_exact m now key cap k :
  (1 ≤ cap ≤ burst_limit)%nat → (k ≤ cap)%nat → m !! key = Some (mkBucket (float64 (Z.of_nat k)) now) →
  Allow iter m now key (Z.of_nat cap) =
    (<[key := mkBucket (float64 (Z.of_nat (k - 1))) now]> m, negb (k =? 0)%nat).
Proof.
  intros Hcap Hk Hm. pose proof exact_checked as Hc. rewrite forallb_forall in Hc.
  specialize (Hc cap ltac:(apply in_seq; lia)). rewrite forallb_forall in Hc. specialize (Hc k ltac:(apply in_seq; lia)).
  unfold exact_at in Hc. repeat (apply andb_true_iff in Hc as [Hc ?]). unbool. apply eqb_prop in H0.
  unfold Allow. rewrite (proj2 (Z.leb_gt _ 0)) by lia. rewrite Hm. unfold refill. cbn [rb_tokens rb_last]. rewrite Z.sub_diag, Hc, H1, H0.
  destruct (k =? 0)%nat eqn:E.
  - apply Nat.eqb_eq in E as ->. done.
  - apply Nat.eqb_neq in E. destruct H as [?|H]; [done|]. by rewrite H.
Qed.

Lemma admitted_exact m now key cap k n :
  (1 ≤ cap ≤ burst_limit)%nat → (k ≤ cap)%nat → m !! key = Some (mkBucket (float64 (Z.of_nat k)) now) →
  admitted iter m now key (Z.of_nat cap) n = Z.of_nat (Nat.min n k).
Proof.
  intros Hcap. revert m k. induction n as [|n IH]; intros m k Hk Hm; [done|]. cbn [admitted].
  rewrite (Allow_exact m now key cap k) by done. rewrite (IH _ (k - 1)%nat); [|lia|by rewrite lookup_insert_eq].
  destruct (k =? 0)%nat eqn:E; [apply Nat.eqb_eq in E as ->|apply Nat.eqb_neq in E]; cbn [negb]; lia.
Qed.

(** A burst is cut at the limit: of any number of simultaneous requests by a
    caller the limiter does not know, exactly as many as the limit per minute are
    admitted, in binary64 arithmetic, for every limit up to one hundred. *)
Theorem burst_exact m now key perMin n :
  1 ≤ perMin ≤ Z.of_nat burst_limit → m !! key = None →
  admitted iter m now key perMin n = Z.min (Z.of_nat n) perMin.
Proof.
  intros Hp Hm. destruct n as [|n]; [simpl; lia|]. replace perMin with (Z.of_nat (Z.to_nat perMin)) by lia. set (cap := Z.to_nat perMin).
  assert (Hcap : (1 ≤ cap ≤ burst_limit)%nat) by lia. cbn [admitted].
  assert (E : Allow iter m now key (Z.of_nat cap) =
    Allow iter (<[key := mkBucket (float64 (Z.of_nat cap)) now]> (make_room iter now m)) now key (Z.of_nat cap)).
  { unfold Allow. rewrite (proj2 (Z.leb_gt _ 0)) by lia. rewrite Hm, lookup_insert_eq. destruct (flt _ _); by rewrite insert_insert_eq. }
  rewrite E, (Allow_exact _ now key cap cap) by (lia || by rewrite lookup_insert_eq).
  rewrite (admitted_exact _ now key cap (cap - 1)); [|done|lia|by rewrite lookup_insert_eq].
  assert (cap ≠ 0%nat) by lia. rewrite (proj2 (Nat.eqb_neq cap 0)) by done. cbn [negb]. lia.
Qed.
End bursts.

Abbreviation plain_iter := (@map_to_list string rateBucket (gmap string rateBucket) _).

Lemma limiter_bounded_witness :
  bucket_count (Allow plain_iter NewRateLimiter 0 "broker" 60).1 = 1 ∧
  bucket_count (Allow plain_iter NewRateLimiter 0 "broker" 60).1 ≤ maxRateLimitKeys.
Proof. split; [vm_compute; reflexivity|]. apply (limiter_bounded plain_iter NewRateLimiter 0 "broker" 60). vm_compute. discriminate. Defined.

Lemma burst_exact_witness :
  admitted plain_iter NewRateLimiter 0 "broker" 7 10 = 7 ∧
  admitted plain_iter NewRateLimiter 0 "broker" 7 10 = Z.min (Z.of_nat 10) 7.
Proof. split; [vm_compute; reflexivity|]. apply (burst_exact plain_iter NewRateLimiter 0 "broker" 7 10); [vm_compute; split; discriminate|reflexivity]. Defined.
