(* ===== verification/Sessions.v ===== *)
(** * The broker's session manager

    [internal/broker/session.go]: the live SSH sessions of a broker, their
    limits, the checkout of a session by its owner, the reaper, the kill switch
    and the shutdown. Each operation runs under the manager's mutex and is one
    function of the manager's state. The sessions are shared objects: the table
    maps an id to a pointer, and a thread that checked a session out keeps the
    pointer after the table has lost it. *)

From S2P Require Import Prelude GoStrings.

Definition maxSessionsGlobal : Z := 200.
Definition maxSessionsPerCaller : Z := 20.
Definition shellExecTimeout : duration := 120 * Second.
Definition MaxPTYCommandBytes : Z := 4000.

(** Connections, shells and session objects are identities. *)
Abbreviation conn := nat (only parsing).
Abbreviation ptr := nat (only parsing).

(** [certNotAfter] is [None] for the zero time; [ls_closed] is the state of
    [closeOnce]; [ls_recorder] tells whether a recorder is attached. *)
Record liveSession := mkSession {
  ls_id : string;
  ls_caller : string;
  ls_context : string;
  ls_host : string;
  ls_serial : Z;
  ls_mode : string;
  ls_conn : conn;
  ls_shell : option nat;
  ls_created : time;
  ls_lastUsed : time;
  ls_certNotAfter : option time;
  ls_busy : Z;
  ls_elevationPrefix : string;
  ls_elevLabel : string;
  ls_sudo : bool;
  ls_sudoUser : string;
  ls_pty : bool;
  ls_connectivitySig : string;
  ls_recorder : bool;
  ls_closed : bool;
}.

(** The three fields that change once a session is published. *)
Definition set_use (used : time) (busy : Z) (closed : bool) (s : liveSession) : liveSession :=
  mkSession (ls_id s) (ls_caller s) (ls_context s) (ls_host s) (ls_serial s) (ls_mode s) (ls_conn s)
    (ls_shell s) (ls_created s) used (ls_certNotAfter s) busy (ls_elevationPrefix s) (ls_elevLabel s)
    (ls_sudo s) (ls_sudoUser s) (ls_pty s) (ls_connectivitySig s) (ls_recorder s) closed.

Inductive reap_reason := reapReasonCertExpired | reapReasonIdle | reapReasonLifetime.

Record sessionManager := mkManager {
  sm_sessions : gmap string ptr;
  sm_heap : gmap ptr liveSession;
  sm_next : ptr;
  sm_idleTTL : duration;
  sm_maxLife : duration;
  sm_stopped : bool;
}.

Definition newSessionManager (idle maxLife : duration) : sessionManager :=
  mkManager ∅ ∅ 0%nat idle maxLife false.

Definition with_table (t : gmap string ptr) (m : sessionManager) : sessionManager :=
  mkManager t (sm_heap m) (sm_next m) (sm_idleTTL m) (sm_maxLife m) (sm_stopped m).
Definition with_object (p : ptr) (s : liveSession) (m : sessionManager) : sessionManager :=
  mkManager (sm_sessions m) (<[p := s]> (sm_heap m)) (sm_next m) (sm_idleTTL m) (sm_maxLife m) (sm_stopped m).

Definition object (m : sessionManager) (p : ptr) : option liveSession := sm_heap m !! p.
(** The live session of an id. *)
Definition session (m : sessionManager) (id : string) : option liveSession :=
  p ← sm_sessions m !! id; object m p.

Definition count (m : sessionManager) : Z := Z.of_nat (size (sm_sessions m)).

(** [for _, existing := range m.sessions { if existing.caller == s.caller { callerCount++ } }] *)
Definition owned_by (m : sessionManager) (caller : string) (kv : string * ptr) : bool :=
  match object m kv.2 with Some s => bool_decide (ls_caller s = caller) | None => false end.
Definition caller_count (m : sessionManager) (caller : string) : Z :=
  Z.of_nat (length (filter (fun kv => Is_true (owned_by m caller kv)) (map_to_list (sm_sessions m)))).

Inductive add_error := EGlobalLimit | ECallerLimit.

(** [add] publishes the object; the answer is its pointer. *)
Definition add (m : sessionManager) (s : liveSession) : sessionManager * result add_error ptr :=
  if maxSessionsGlobal <=? count m then (m, Err EGlobalLimit)
  else if maxSessionsPerCaller <=? caller_count m (ls_caller s) then (m, Err ECallerLimit)
  else
    let p := sm_next m in
    (mkManager (<[ls_id s := p]> (sm_sessions m)) (<[p := s]> (sm_heap m)) (S p)
       (sm_idleTTL m) (sm_maxLife m) (sm_stopped m), Ok p).

Definition remove (m : sessionManager) (id : string) : sessionManager :=
  with_table (delete id (sm_sessions m)) m.

(** [!t.IsZero() && now.After(t)] *)
Definition expired (now : time) (s : liveSession) : bool :=
  match ls_certNotAfter s with Some t => t <? now | None => false end.

Inductive checkout :=
| NotFound
| NotOwned (p : ptr) (s : liveSession)
| Owned (p : ptr) (s : liveSession).

(** The clock is read twice: for the expiry check and for [lastUsed]. *)
Definition checkoutOwned (m : sessionManager) (now now' : time) (id caller : string) : sessionManager * checkout :=
  match sm_sessions m !! id with
  | None => (m, NotFound)
  | Some p =>
      match object m p with
      | None => (m, NotFound)
      | Some s =>
          if bool_decide (ls_caller s ≠ caller) then (m, NotOwned p s)
          else if expired now s then (m, NotFound)
          else let s' := set_use now' (ls_busy s + 1) (ls_closed s) s in (with_object p s' m, Owned p s')
      end
  end.

Definition checkin (m : sessionManager) (now : time) (p : ptr) : sessionManager :=
  match object m p with
  | None => m
  | Some s => with_object p (set_use now (if 0 <? ls_busy s then ls_busy s - 1 else ls_busy s) (ls_closed s) s) m
  end.

Definition removeOwned (m : sessionManager) (id caller : string) : sessionManager * checkout :=
  match sm_sessions m !! id with
  | None => (m, NotFound)
  | Some p =>
      match object m p with
      | None => (m, NotFound)
      | Some s =>
          if bool_decide (ls_caller s ≠ caller) then (m, NotOwned p s)
          else (with_table (delete id (sm_sessions m)) m, Owned p s)
      end
  end.

(** Why the reaper takes a session at [now]; [None] spares it. *)
Definition reap_due (m : sessionManager) (now : time) (s : liveSession) : option reap_reason :=
  let certExpired := expired now s in
  if negb certExpired && (0 <? ls_busy s) then None
  else if certExpired then Some reapReasonCertExpired
  else if sm_idleTTL m <? now - ls_lastUsed s then Some reapReasonIdle
  else if sm_maxLife m <? now - ls_created s then Some reapReasonLifetime
  else None.

(** The sweep over the table: the entries for which [take] answers leave it and
    are collected in the order of the iteration. *)
Definition sweep_step {A} (m : sessionManager) (take : liveSession → option A)
    (acc : gmap string ptr * list (ptr * liveSession * A)) (kv : string * ptr) :
    gmap string ptr * list (ptr * liveSession * A) :=
  match object m kv.2 with
  | Some s => match take s with
              | Some a => (delete kv.1 acc.1, acc.2 ++ [(kv.2, s, a)])
              | None => acc
              end
  | None => acc
  end.
Definition sweep {A} (iter : range_order ptr) (m : sessionManager) (take : liveSession → option A) :
    sessionManager * list (ptr * liveSession * A) :=
  let '(t, victims) := fold_left (sweep_step m take) (iter (sm_sessions m)) (sm_sessions m, []) in
  (with_table t m, victims).

Definition reapExpired (iter : range_order ptr) (m : sessionManager) (now : time) :
    sessionManager * list (ptr * liveSession * reap_reason) :=
  sweep iter m (reap_due m now).

Definition killMatching (iter : range_order ptr) (m : sessionManager) (pred : liveSession → bool) :
    sessionManager * list (ptr * liveSession * unit) :=
  sweep iter m (fun s => if pred s then Some () else None).

(** [closeAll]: empty on every call after the first. *)
Definition closeAll (iter : range_order ptr) (m : sessionManager) :
    sessionManager * list (ptr * liveSession * unit) :=
  if sm_stopped m then (m, [])
  else
    let '(m', victims) := sweep iter m (fun _ => Some ()) in
    (mkManager (sm_sessions m') (sm_heap m') (sm_next m') (sm_idleTTL m') (sm_maxLife m') true, victims).

(** [s.closeOnce.Do]: whether this call is the one that tears the session down. *)
Definition close_once (m : sessionManager) (p : ptr) : sessionManager * bool :=
  match object m p with
  | None => (m, false)
  | Some s => (with_object p (set_use (ls_lastUsed s) (ls_busy s) true s) m, negb (ls_closed s))
  end.

(** ** The manager as a state machine *)

Inductive sm_op :=
| OpAdd (s : liveSession)
| OpRemove (id : string)
| OpCheckout (now now' : time) (id caller : string)
| OpCheckin (now : time) (p : ptr)
| OpRemoveOwned (id caller : string)
| OpReap (now : time)
| OpKill (pred : liveSession → bool)
| OpCloseAll
| OpCloseOnce (p : ptr).

Section machine.
Context (iter : range_order ptr) `{!RangeOrder iter}.
Implicit Types (m : sessionManager) (s : liveSession) (id c : string) (p : ptr).

Definition sm_step (m : sessionManager) (o : sm_op) : sessionManager :=
  match o with
  | OpAdd s => (add m s).1
  | OpRemove id => remove m id
  | OpCheckout now now' id c => (checkoutOwned m now now' id c).1
  | OpCheckin now p => checkin m now p
  | OpRemoveOwned id c => (removeOwned m id c).1
  | OpReap now => (reapExpired iter m now).1
  | OpKill pred => (killMatching iter m pred).1
  | OpCloseAll => (closeAll iter m).1
  | OpCloseOnce p => (close_once m p).1
  end.
Definition sm_run (m : sessionManager) (ops : list sm_op) : sessionManager := fold_left sm_step ops m.

Record sm_ok (m : sessionManager) : Prop := {
  ok_table : ∀ id p, sm_sessions m !! id = Some p → ∃ s, sm_heap m !! p = Some s ∧ ls_id s = id;
  ok_fresh : ∀ p s, sm_heap m !! p = Some s → (p < sm_next m)%nat;
  ok_global : count m ≤ maxSessionsGlobal;
  ok_caller : ∀ c, caller_count m c ≤ maxSessionsPerCaller;
}.

(** What never changes of a published object. *)
Definition same_session (s s' : liveSession) : Prop :=
  ∃ used busy closed, s' = set_use used busy closed s.

Lemma same_session_refl s : same_session s s.
Proof. exists (ls_lastUsed s), (ls_busy s), (ls_closed s). by destruct s. Qed.
Lemma same_session_trans s1 s2 s3 : same_session s1 s2 → same_session s2 s3 → same_session s1 s3.
Proof. intros (?&?&?&->) (u&b&k&->). by exists u, b, k. Qed.

(** *** Counting *)

Definition owned_list (m : sessionManager) (c : string) : list (string * ptr) :=
  filter (fun kv => Is_true (owned_by m c kv)) (map_to_list (sm_sessions m)).

Lemma owned_list_elem m c id p :
  (id, p) ∈ owned_list m c ↔ sm_sessions m !! id = Some p ∧ ∃ s, object m p = Some s ∧ ls_caller s = c.
Proof.
  unfold owned_list. rewrite list_elem_of_filter, elem_of_map_to_list. unfold owned_by; simpl.
  split; intros [H1 H2]; split; try done.
  - destruct (object m p) as [s|]; [|done]. exists s. split; [done|]. by apply bool_decide_unpack in H1.
  - destruct H2 as (s & -> & ->). by apply bool_decide_pack.
Qed.

Lemma caller_count_le m m' c l :
  (∀ id p, (id, p) ∈ owned_list m' c → (id, p) ∈ l) → caller_count m' c ≤ Z.of_nat (length l).
Proof.
  intros Hsub. apply inj_le, submseteq_length, NoDup_submseteq.
  - apply NoDup_filter, NoDup_map_to_list.
  - intros [id p]. apply Hsub.
Qed.

(** Fewer entries over the same owners. *)
Lemma ok_shrink m m' :
  sm_ok m → sm_sessions m' ⊆ sm_sessions m → sm_next m' = sm_next m →
  (∀ p s, sm_heap m !! p = Some s → ∃ s', sm_heap m' !! p = Some s' ∧ same_session s s') →
  dom (sm_heap m') ⊆ dom (sm_heap m) → sm_ok m'.
Proof.
  intros [Ht Hf Hg Hc] Hsub Hn Hh Hd.
  assert (Hback : ∀ p s', sm_heap m' !! p = Some s' → ∃ s, sm_heap m !! p = Some s ∧ same_session s s').
  { intros p s' Hp. assert (p ∈ dom (sm_heap m)) as [s Hs]%elem_of_dom by (apply Hd, elem_of_dom; by exists s').
    destruct (Hh _ _ Hs) as (s2 & Hp2 & ?). exists s. split; [done|]. by simplify_eq. }
  split.
  - intros id p Hp. destruct (Ht id p) as (s & Hs & <-); [by eapply lookup_weaken|].
    destruct (Hh _ _ Hs) as (s' & ? & (?&?&?&->)). by eexists.
  - intros p s' Hp. rewrite Hn. destruct (Hback _ _ Hp) as (s & ? & _). eauto.
  - etrans; [|exact Hg]. unfold count. rewrite <-!size_dom. apply inj_le, subseteq_size, subseteq_dom, Hsub.
  - intros c. etrans; [apply (caller_count_le m _ _ (owned_list m c))|exact (Hc c)]. intros id p.
    rewrite !owned_list_elem. intros (Hid & s' & Hs' & <-). split; [by eapply lookup_weaken|].
    destruct (Hback _ _ Hs') as (s & ? & (?&?&?&->)). by exists s.
Qed.

Lemma with_table_ok m t : sm_ok m → t ⊆ sm_sessions m → sm_ok (with_table t m).
Proof.
  intros Hok Hsub. apply (ok_shrink m); try done. intros p s ?. exists s. split; [done|apply same_session_refl].
Qed.

Lemma with_object_ok m p s s' : sm_ok m → object m p = Some s → same_session s s' → sm_ok (with_object p s' m).
Proof.
  intros Hok Hp Hs. apply (ok_shrink m); try done; simpl.
  - intros q t Hq. destruct (decide (q = p)) as [->|].
    + rewrite lookup_insert_eq. exists s'. split; [done|]. unfold object in Hp. by simplify_eq.
    + rewrite lookup_insert_ne by done. exists t. split; [done|apply same_session_refl].
  - rewrite dom_insert_lookup_L; [done|]. by exists s.
Qed.

Lemma sweep_table {A} m (take : liveSession → option A) t vs l :
  (fold_left (sweep_step m take) l (t, vs)).1 ⊆ t.
Proof.
  revert t vs. induction l as [|kv l IH]; intros t vs; simpl; [done|].
  unfold sweep_step at 2; simpl. destruct (object m kv.2); [|apply IH]. destruct (take l0); [|apply IH].
  etrans; [apply IH|]. apply delete_subseteq.
Qed.

Lemma sweep_ok {A} m (take : liveSession → option A) : sm_ok m → sm_ok (sweep iter m take).1.
Proof.
  intros Hok. unfold sweep. destruct (fold_left _ _ _) as [t vs] eqn:E. apply with_table_ok; [done|].
  pose proof (sweep_table m take (sm_sessions m) [] (iter (sm_sessions m))) as H. by rewrite E in H.
Qed.

Lemma add_ok m s : sm_ok m → sm_ok (add m s).1.
Proof.
  intros Hok. pose proof Hok as [Ht Hf Hg Hc]. unfold add.
  destruct (maxSessionsGlobal <=? count m) eqn:E1; [done|].
  destruct (maxSessionsPerCaller <=? caller_count m (ls_caller s)) eqn:E2; [done|]. unbool.
  assert (Hnew : ∀ p t, sm_heap m !! p = Some t → p ≠ sm_next m) by (intros p t Hp%Hf; lia).
  simpl. split; simpl.
  - intros id p. destruct (decide (id = ls_id s)) as [->|].
    + rewrite lookup_insert_eq. intros [= <-]. rewrite lookup_insert_eq. eauto.
    + rewrite lookup_insert_ne by done. intros (t & Hp & <-)%Ht. rewrite lookup_insert_ne by (intros <-; by eapply Hnew).
      eauto.
  - intros p t. rewrite lookup_insert_Some. intros [[<- _]|[_ ?%Hf]]; lia.
  - unfold count in *; simpl. rewrite map_size_insert. destruct (sm_sessions m !! ls_id s); unfold id; lia.
  - intros c. destruct (decide (c = ls_caller s)) as [->|Hne].
    + etrans; [apply (caller_count_le m _ _ ((ls_id s, sm_next m) :: owned_list m (ls_caller s)))|].
      * intros id p. rewrite owned_list_elem; simpl. intros (Hid & t & Hp & Hcal). apply elem_of_cons.
        apply lookup_insert_Some in Hid as [[<- <-]|[? Hid]]; [by left|right].
        rewrite owned_list_elem. split; [done|]. exists t. split; [|done]. unfold object in *; simpl in *.
        destruct (Ht _ _ Hid) as (t' & Hp' & _). rewrite lookup_insert_ne in Hp by (intros <-; by eapply Hnew). done.
      * simpl. unfold caller_count in E2. fold (owned_list m (ls_caller s)) in E2. lia.
    + etrans; [apply (caller_count_le m _ _ (owned_list m c))|exact (Hc c)].
      intros id p. rewrite !owned_list_elem; simpl. unfold object; simpl. intros (Hid & t & Hp & Hcal).
      apply lookup_insert_Some in Hid as [[<- <-]|[? Hid]]; [rewrite lookup_insert_eq in Hp; congruence|].
      split; [done|]. destruct (Ht _ _ Hid) as (t' & Hp' & _).
      rewrite lookup_insert_ne in Hp by (intros <-; by eapply Hnew). eauto.
Qed.

Lemma set_use_same s u b k : same_session s (set_use u b k s).
Proof. by exists u, b, k. Qed.

Lemma sm_step_ok m o : sm_ok m → sm_ok (sm_step m o).
Proof.
  intros Hok. destruct o; simpl.
  - by apply add_ok.
  - apply with_table_ok; [done|apply delete_subseteq].
  - unfold checkoutOwned. destruct (sm_sessions m !! id) as [p|]; [|done].
    destruct (object m p) eqn:?; [|done]. case_bool_decide; [done|]. destruct (expired _ _); [done|]. eapply with_object_ok; eauto using set_use_same.
  - unfold checkin. destruct (object m p) eqn:?; [|done]. eapply with_object_ok; eauto using set_use_same.
  - unfold removeOwned. destruct (sm_sessions m !! id) as [p|]; [|done].
    destruct (object m p); [|done]. case_bool_decide; [done|]. apply with_table_ok; [done|apply delete_subseteq].
  - by apply sweep_ok.
  - by apply sweep_ok.
  - unfold closeAll. destruct (sm_stopped m); [done|].
    pose proof (sweep_ok m (fun _ => Some ()) Hok) as H. destruct (sweep _ _ _) as [m' vs]. by destruct H; split.
  - unfold close_once. destruct (object m p) eqn:?; [|done]. eapply with_object_ok; eauto using set_use_same.
Qed.

Lemma sm_run_ok m ops : sm_ok m → sm_ok (sm_run m ops).
Proof. revert m. induction ops as [|o ops IH]; intros m Hok; simpl; [done|]. by apply IH, sm_step_ok. Qed.

Lemma new_ok idle maxLife : sm_ok (newSessionManager idle maxLife).
Proof. by split. Qed.

(** The session limits hold in every interleaving of the manager's
    operations: never more than 200 live sessions, never more than 20 of one
    caller, each filed under its own id; and a session is admitted exactly when
    both limits leave room. *)
Theorem sessions_bounded idle maxLife ops s :
  let m := sm_run (newSessionManager idle maxLife) ops in
  count m ≤ maxSessionsGlobal ∧ (∀ c, caller_count m c ≤ maxSessionsPerCaller) ∧
  (∀ id t, session m id = Some t → ls_id t = id) ∧
  (is_ok (add m s).2 = true ↔ count m < maxSessionsGlobal ∧ caller_count m (ls_caller s) < maxSessionsPerCaller).
Proof.
  intros m. destruct (sm_run_ok _ ops (new_ok idle maxLife)) as [Ht Hf Hg Hc]. fold m in Ht, Hf, Hg, Hc.
  split_and!; try done.
  - unfold session, object. intros id t (p & Hp & Hs)%bind_Some. destruct (Ht _ _ Hp) as (? & ? & ?). by simplify_eq.
  - unfold add. destruct (maxSessionsGlobal <=? _) eqn:E1; simpl; unbool; [split; [done|lia]|].
    destruct (maxSessionsPerCaller <=? _) eqn:E2; simpl; unbool; [split; [done|lia]|]. done.
Qed.

(** ** The sweeps *)

(** What a sweep takes of one entry. *)
Definition picked {A} (m : sessionManager) (take : liveSession → option A) (kv : string * ptr) :
    option (ptr * liveSession * A) :=
  s ← object m kv.2; a ← take s; Some (kv.2, s, a).

Lemma picked_Some {A} m (take : liveSession → option A) id p p' s a :
  picked m take (id, p) = Some (p', s, a) ↔ p' = p ∧ object m p = Some s ∧ take s = Some a.
Proof.
  unfold picked; simpl. destruct (object m p) as [t|]; simpl; [|naive_solver].
  destruct (take t) eqn:?; simpl; naive_solver.
Qed.

Definition drop_picked {A} (m : sessionManager) (take : liveSession → option A) (t : gmap string ptr)
    (kv : string * ptr) : gmap string ptr :=
  if is_Some_dec (picked m take kv) then delete kv.1 t else t.

Lemma sweep_step_eq {A} m (take : liveSession → option A) t vs kv :
  sweep_step m take (t, vs) kv = (drop_picked m take t kv, vs ++ option_list (picked m take kv)).
Proof.
  unfold sweep_step, drop_picked, picked; simpl.
  destruct (object m kv.2) as [s|]; simpl; [|by rewrite app_nil_r].
  destruct (take s) as [a|]; simpl; [done|by rewrite app_nil_r].
Qed.

Lemma sweep_fold {A} m (take : liveSession → option A) l t vs :
  fold_left (sweep_step m take) l (t, vs) =
  (fold_left (drop_picked m take) l t, vs ++ omap (picked m take) l).
Proof.
  revert t vs. induction l as [|kv l IH]; intros t vs; simpl; [by rewrite app_nil_r|].
  rewrite sweep_step_eq, IH, <-app_assoc. by destruct (picked m take kv).
Qed.

Lemma sweep_left {A} m (take : liveSession → option A) l t id p :
  fold_left (drop_picked m take) l t !! id = Some p ↔
  t !! id = Some p ∧ ∀ q, (id, q) ∈ l → picked m take (id, q) = None.
Proof.
  revert t. induction l as [|[k q] l IH]; intros t; simpl.
  { split; [intros ?; split; [done|]; by intros ? ?%not_elem_of_nil|by intros [? _]]. }
  rewrite IH. clear IH. setoid_rewrite elem_of_cons. unfold drop_picked.
  destruct (picked m take (k, q)) eqn:E; simpl.
  - rewrite lookup_delete_Some. split; [intros [[Hne ?] H2]; split; [done|]; intros q' [?|?]; [congruence|auto]|].
    intros [? H2]. split; [split; [|done]|auto]. intros ->. specialize (H2 q). rewrite E in H2. by specialize (H2 (or_introl eq_refl)).
  - split; [intros [? H2]; split; [done|]; intros q' [?|?]; [congruence|auto]|].
    intros [? H2]. split; [done|]. auto.
Qed.

(** A sweep takes exactly the live sessions it selects. *)
Lemma sweep_spec {A} m (take : liveSession → option A) : sm_ok m →
  (∀ id s, session (sweep iter m take).1 id = Some s ↔ session m id = Some s ∧ take s = None) ∧
  (∀ p s a, (p, s, a) ∈ (sweep iter m take).2 ↔
     ∃ id, sm_sessions m !! id = Some p ∧ object m p = Some s ∧ take s = Some a).
Proof.
  intros Hok. unfold sweep. rewrite sweep_fold. simpl. split.
  - intros id s. unfold session; simpl. rewrite !bind_Some. split.
    + intros (p & [Hp H]%sweep_left & Hs). unfold object in *; simpl in *.
      split; [by exists p|]. destruct (take s) as [a|] eqn:E; [|done].
      specialize (H p (proj2 (range_elem iter _ _ _) Hp)). unfold picked, object in H; simpl in H.
      rewrite Hs in H; simpl in H. by rewrite E in H.
    + intros [(p & Hp & Hs) Hn]. exists p. split; [|done]. apply sweep_left. split; [done|].
      intros q Hq%(range_elem iter). simplify_eq. unfold picked, object in *; simpl. rewrite Hs; simpl. by rewrite Hn.
  - intros p s a. rewrite list_elem_of_omap. split.
    + intros ([id q] & Hq%(range_elem iter) & (-> & ? & ?)%picked_Some). by exists id.
    + intros (id & Hp & ? & ?). exists (id, p). split; [by apply (range_elem iter)|]. by apply picked_Some.
Qed.

(** A session never outlives its certificate. Whatever the manager went
    through: a checkout answers with a session only to its owner and only while
    the certificate is valid, and counts the command; after a pass of the
    reaper the live sessions are exactly those it had no reason to take, so none
    has an expired certificate; and a session with a command in flight is taken
    for no other reason. *)
Theorem session_within_certificate idle maxLife ops now :
  let m := sm_run (newSessionManager idle maxLife) ops in
  let '(m', victims) := reapExpired iter m now in
  (∀ now' id c p s m'', checkoutOwned m now now' id c = (m'', Owned p s) →
     ls_caller s = c ∧ ls_id s = id ∧ (∀ t, ls_certNotAfter s = Some t → now ≤ t) ∧
     ∃ s0, session m id = Some s0 ∧ ls_busy s = ls_busy s0 + 1 ∧ session m'' id = Some s) ∧
  (∀ id s, session m' id = Some s ↔ session m id = Some s ∧ reap_due m now s = None) ∧
  (∀ id s t, session m' id = Some s → ls_certNotAfter s = Some t → now ≤ t) ∧
  (∀ p s r, (p, s, r) ∈ victims → 0 < ls_busy s → r = reapReasonCertExpired ∧ expired now s = true).
Proof.
  intros m. pose proof (sm_run_ok _ ops (new_ok idle maxLife)) as Hok. fold m in Hok.
  destruct (sweep_spec m (reap_due m now) Hok) as [H1 H2].
  change (sweep iter m (reap_due m now)) with (reapExpired iter m now) in *.
  destruct (reapExpired iter m now) as [m' victims]; simpl in *. split_and!.
  - intros now' id c p s m''. unfold checkoutOwned, session. destruct (sm_sessions m !! id) as [q|] eqn:Hq; [|done].
    destruct (object m q) as [s0|] eqn:Hs0; [|done]. case_bool_decide as Hc; [done|].
    destruct (expired now s0) eqn:He; [done|]. intros [= <- <- <-]. simpl. rewrite Hq; simpl.
    destruct (ok_table m Hok _ _ Hq) as (s1 & Hs1 & Hid). unfold object in *. rewrite Hs0 in Hs1. injection Hs1 as <-.
    split_and!; [done|done| |exists s0; split_and!; [done..|apply lookup_insert_eq]].
    unfold expired in He. intros t Ht. rewrite Ht in He. unbool. lia.
  - done.
  - intros id s t [_ Hd]%H1 Ht. unfold reap_due, expired in Hd. rewrite Ht in Hd.
    destruct (t <? now) eqn:E; simpl in Hd; [done|]. unbool. lia.
  - intros p s r (id & _ & _ & Hd)%H2 Hb. unfold reap_due in Hd. apply Z.ltb_lt in Hb. rewrite Hb in Hd.
    destruct (expired now s); simpl in Hd; [by simplify_eq|done].
Qed.

(** ** Isolation between callers *)

(** The operations a caller other than the owner of the session [p], filed under
    [id], can cause: every operation that is not the reaper, the kill switch or
    the shutdown. A new session has an id of its own (96 random bits), a
    rollback removes the session it just added, and a checkin or a teardown
    works on a pointer obtained by a checkout. *)
Definition foreign (id owner : string) (p : ptr) (o : sm_op) : Prop :=
  match o with
  | OpAdd s => ls_id s ≠ id
  | OpRemove id' => id' ≠ id
  | OpCheckout _ _ _ c | OpRemoveOwned _ c => c ≠ owner
  | OpCheckin _ q | OpCloseOnce q => q ≠ p
  | OpReap _ | OpKill _ | OpCloseAll => False
  end.

Lemma foreign_step m o id owner p s :
  sm_ok m → sm_sessions m !! id = Some p → object m p = Some s → ls_caller s = owner → foreign id owner p o →
  sm_sessions (sm_step m o) !! id = Some p ∧ object (sm_step m o) p = Some s ∧
  sm_idleTTL (sm_step m o) = sm_idleTTL m ∧ sm_maxLife (sm_step m o) = sm_maxLife m.
Proof.
  unfold object. intros Hok Hid Hs Ho Hf. destruct o as [t|id'|n n' id' c|n q|id' c|n|pr| |q]; simpl in *; try done.
  - unfold add. destruct (_ <=? _); [done|]. destruct (_ <=? _); [done|]. simpl.
    rewrite lookup_insert_ne by done. pose proof (ok_fresh m Hok _ _ Hs).
    by rewrite lookup_insert_ne by lia.
  - by rewrite lookup_delete_ne.
  - unfold checkoutOwned, object. destruct (sm_sessions m !! id') as [q|] eqn:Hq; [|done].
    destruct (sm_heap m !! q) as [t|] eqn:Ht; [|done]. case_bool_decide as Hc; [done|].
    destruct (expired n t); [done|]. simpl. rewrite lookup_insert_ne; [done|]. intros ->.
    congruence.
  - unfold checkin, object. destruct (sm_heap m !! q); [|done]. simpl. by rewrite lookup_insert_ne.
  - unfold removeOwned, object. destruct (sm_sessions m !! id') as [q|] eqn:Hq; [|done].
    destruct (sm_heap m !! q) as [t|] eqn:Ht; [|done]. case_bool_decide as Hc; [done|].
    simpl. rewrite lookup_delete_ne; [done|]. intros ->. congruence.
  - unfold close_once, object. destruct (sm_heap m !! q); [|done]. simpl. by rewrite lookup_insert_ne.
Qed.

Lemma foreign_run m ops id owner p s :
  sm_ok m → sm_sessions m !! id = Some p → object m p = Some s → ls_caller s = owner →
  Forall (foreign id owner p) ops →
  let m' := sm_run m ops in
  sm_ok m' ∧ sm_sessions m' !! id = Some p ∧ object m' p = Some s ∧
  sm_idleTTL m' = sm_idleTTL m ∧ sm_maxLife m' = sm_maxLife m.
Proof.
  revert m. induction ops as [|o ops IH]; intros m Hok Hid Hs Ho Hf; simpl; [done|].
  apply Forall_cons in Hf as [Hf Hfs]. destruct (foreign_step m o id owner p s) as (H1 & H2 & H3 & H4); try done.
  destruct (IH (sm_step m o)) as (K1 & K2 & K3 & K4 & K5); try done; [by apply sm_step_ok|].
  split_and!; try done; congruence.
Qed.

(** Callers cannot touch each other's sessions: after any sequence of
    operations other callers cause, the session is still filed under its id,
    unchanged in every field, so that the reaper decides about it at any time
    exactly as it would have before; and every attempt to check it out or to
    close it was refused. *)
Theorem session_isolation idle maxLife ops0 ops id p s now :
  let m := sm_run (newSessionManager idle maxLife) ops0 in
  sm_sessions m !! id = Some p → object m p = Some s → Forall (foreign id (ls_caller s) p) ops →
  let m' := sm_run m ops in
  session m' id = Some s ∧ reap_due m' now s = reap_due m now s ∧
  (∀ c now', c ≠ ls_caller s →
     checkoutOwned m' now now' id c = (m', NotOwned p s) ∧ removeOwned m' id c = (m', NotOwned p s)).
Proof.
  intros m Hid Hs Hf m'. pose proof (sm_run_ok _ ops0 (new_ok idle maxLife)) as Hok. fold m in Hok.
  destruct (foreign_run m ops id (ls_caller s) p s Hok Hid Hs eq_refl Hf) as (_ & K2 & K3 & K4 & K5).
  fold m' in K2, K3, K4, K5. split_and!.
  - unfold session. by rewrite K2.
  - unfold reap_due. by rewrite K4, K5.
  - intros c now' Hc. unfold checkoutOwned, removeOwned. rewrite K2, K3.
    by rewrite bool_decide_eq_true_2 by congruence.
Qed.
End machine.

(** ** Examples *)

Definition demo_session (id caller : string) (serial : Z) : liveSession :=
  mkSession id caller "" "web1" serial "exec" 1%nat None 0 0 (Some (900 * Second)) 0 "" "" false "" false "sig" false false.
Definition demo_iter : range_order ptr := map_to_list.
Definition demo_life : list sm_op :=
  [OpAdd (demo_session "a1" "alice" 7); OpAdd (demo_session "b1" "bob" 8); OpCheckout (5 * Second) (5 * Second) "a1" "alice"].
Definition demo_manager : sessionManager := sm_run demo_iter (newSessionManager (300 * Second) (1800 * Second)) demo_life.

(** At 400 s the idle session is reaped and the busy one spared; past its
    certificate the busy one goes too. *)
Example demo_reaped :
  map (fun v => (ls_id v.1.2, v.2)) (reapExpired demo_iter demo_manager (400 * Second)).2 = [("b1", reapReasonIdle)] ∧
  map (fun v => v.2) (reapExpired demo_iter demo_manager (901 * Second)).2 = [reapReasonCertExpired; reapReasonCertExpired].
Proof. split; vm_compute; reflexivity. Qed.

Lemma session_within_certificate_witness :
  let '(m', victims) := reapExpired demo_iter demo_manager (400 * Second) in
  ∀ p s r, (p, s, r) ∈ victims → 0 < ls_busy s → r = reapReasonCertExpired ∧ expired (400 * Second) s = true.
Proof.
  pose proof (session_within_certificate demo_iter (300 * Second) (1800 * Second) demo_life (400 * Second)) as H.
  cbv zeta in H. fold demo_manager in H. destruct (reapExpired demo_iter demo_manager (400 * Second)). by destruct H as (_ & _ & _ & H).
Defined.

Definition intruder : list sm_op :=
  [OpCheckout (6 * Second) (6 * Second) "a1" "bob"; OpRemoveOwned "a1" "bob"; OpAdd (demo_session "b2" "bob" 9);
   OpCheckin (7 * Second) 1%nat].

Lemma session_isolation_witness :
  ∃ s, sm_sessions demo_manager !! "a1" = Some 0%nat ∧ object demo_manager 0%nat = Some s ∧
    Forall (foreign "a1" (ls_caller s) 0%nat) intruder ∧ session (sm_run demo_iter demo_manager intruder) "a1" = Some s.
Proof.
  eexists. split; [vm_compute; reflexivity|]. split; [vm_compute; reflexivity|].
  assert (Hf : Forall (foreign "a1" "alice" 0%nat) intruder) by (unfold intruder; rewrite !Forall_cons, Forall_nil; simpl; split_and!; done).
  split; [exact Hf|].
  eapply (session_isolation demo_iter (300 * Second) (1800 * Second) demo_life intruder "a1" 0%nat _ 0);
    [vm_compute; reflexivity|vm_compute; reflexivity|exact Hf].
Defined.
