(* ===== verification/Revocation.v ===== *)
(** * The kill switch in the broker

    [internal/broker/engine.go]: the freeze set polled from the signer becomes
    a predicate on live sessions, and the sessions it selects are killed. *)

From S2P Require Import Prelude GoStrings Freeze Sessions.

(** ** Serials *)

(** The value of a run of decimal digits, read from the left. *)
Fixpoint decimal (acc : Z) (s : string) : option Z :=
  match s with
  | "" => Some acc
  | String c s' => if is_digit c then decimal (10 * acc + (byte_of c - 48)) s' else None
  end.

(** [strconv.ParseUint(s, 10, 64)]; no value is its error. *)
Definition ParseUint (s : string) : option Z :=
  if bool_decide (s = "") then None
  else n ← decimal 0 s; if n <? 2 ^ 64 then Some n else None.

(** [strings.TrimLeft(s, "0")] *)
Fixpoint TrimLeft0 (s : string) : string :=
  match s with
  | String c s' => if ascii_eqb c "0"%char then TrimLeft0 s' else s
  | "" => ""
  end.

Definition parseFrozenSerial (v : string) : option Z :=
  let digits := TrimPrefix v "+" in
  if bool_decide (digits = "") then None
  else
    let digits := TrimLeft0 digits in
    if bool_decide (digits = "") then Some 0 else ParseUint digits.

(** ** The predicate *)

(** What the loop over the freeze set collects. *)
Record revoked := mkRevoked {
  rv_endUsers : gset string;
  rv_sessionIDs : gset string;
  rv_serials : gset Z;
  rv_broker : bool;
}.
Definition no_revoked : revoked := mkRevoked ∅ ∅ ∅ false.

Definition revoke_step (own : string) (r : revoked) (f : FrozenEntry) : revoked :=
  let k := fs_Kind (fe_Subject f) in
  let v := fs_Value (fe_Subject f) in
  if bool_decide (k = FreezeCaller) then
    mkRevoked (rv_endUsers r) (rv_sessionIDs r) (rv_serials r) (rv_broker r || bool_decide (v = own))
  else if bool_decide (k = FreezeEndUser) then
    mkRevoked ({[v]} ∪ rv_endUsers r) (rv_sessionIDs r) (rv_serials r) (rv_broker r)
  else if bool_decide (k = FreezeSessionID) then
    mkRevoked (rv_endUsers r) ({[v]} ∪ rv_sessionIDs r) (rv_serials r) (rv_broker r)
  else if bool_decide (k = FreezeSerial) then
    match parseFrozenSerial v with
    | Some n => mkRevoked (rv_endUsers r) (rv_sessionIDs r) ({[n]} ∪ rv_serials r) (rv_broker r)
    | None => r
    end
  else r.

Definition selects (r : revoked) (s : liveSession) : bool :=
  rv_broker r || bool_decide (ls_caller s ∈ rv_endUsers r) || bool_decide (ls_id s ∈ rv_sessionIDs r)
  || bool_decide (ls_serial s ∈ rv_serials r).

(** [None] is the nil predicate: nothing in the set can match a session. *)
Definition revocationPredicate (frozen : list FrozenEntry) (own : string) : option (liveSession → bool) :=
  let r := fold_left (revoke_step own) frozen no_revoked in
  if negb (rv_broker r) && bool_decide (rv_endUsers r = ∅) && bool_decide (rv_sessionIDs r = ∅)
     && bool_decide (rv_serials r = ∅)
  then None else Some (selects r).

(** The table part of [enforceRevocations]; the victims are then closed and
    audited. *)
Definition enforce_table (iter : range_order ptr) (m : sessionManager) (frozen : list FrozenEntry) (own : string) :
    sessionManager * list (ptr * liveSession * unit) :=
  match revocationPredicate frozen own with
  | None => (m, [])
  | Some pred => killMatching iter m pred
  end.

(** ** What a freeze means for a session *)

(** A decimal numeral, possibly with a plus sign and leading zeros. *)
Definition serial_text (v : string) (n : Z) : Prop :=
  ∃ d, (v = d ∨ v = "+" +:+ d) ∧ d ≠ "" ∧ decimal 0 d = Some n.

(** The session is in the scope of the freeze. *)
Definition frozen_by (own : string) (s : liveSession) (f : FrozenEntry) : Prop :=
  let v := fs_Value (fe_Subject f) in
  (fs_Kind (fe_Subject f) = FreezeCaller ∧ v = own) ∨
  (fs_Kind (fe_Subject f) = FreezeEndUser ∧ v = ls_caller s) ∨
  (fs_Kind (fe_Subject f) = FreezeSessionID ∧ v = ls_id s) ∨
  (fs_Kind (fe_Subject f) = FreezeSerial ∧ serial_text v (ls_serial s)).

Lemma decimal_zeros s : decimal 0 (TrimLeft0 s) = decimal 0 s.
Proof.
  induction s as [|c s IH]; simpl; [done|]. unfold ascii_eqb. case_bool_decide as E; [|done].
  subst c. by rewrite IH.
Qed.

Lemma decimal_plus s acc : decimal acc (String "+"%char s) = None.
Proof. done. Qed.

Lemma TrimPrefix_plus v : TrimPrefix v "+" = match v with String c s => if ascii_eqb c "+"%char then s else v | "" => "" end.
Proof.
  unfold TrimPrefix, HasPrefix, ascii_eqb. destruct v as [|c s]; [done|].
  destruct (decide (c = "+"%char)) as [->|]; [by destruct s|]. rewrite bool_decide_eq_false_2 by done.
  cbn [String.prefix]. by destruct (ascii_dec "+" c); [congruence|].
Qed.

Lemma parseFrozenSerial_spec v n : n < 2 ^ 64 → parseFrozenSerial v = Some n ↔ serial_text v n.
Proof.
  intros Hn. unfold parseFrozenSerial. rewrite TrimPrefix_plus.
  set (d := match v with String c s => _ | "" => "" end).
  assert (Hd : ∀ d', (v = d' ∨ v = "+" +:+ d') → decimal 0 d' ≠ None → d' = d).
  { subst d. intros d' [->| ->]; [|done]. destruct d' as [|c s]; [done|]. unfold ascii_eqb.
    case_bool_decide as E; [|done]. subst c. by intros []. }
  assert (Hv : v = d ∨ v = "+" +:+ d).
  { subst d. destruct v as [|c s]; [by left|]. unfold ascii_eqb. case_bool_decide as E; [subst c; by right|by left]. }
  case_bool_decide as E1.
  { split; [done|]. intros (d' & Hd' & Hne & Hdec). rewrite (Hd d') in Hne; [done|done|congruence]. }
  assert (Hval : (if bool_decide (TrimLeft0 d = "") then Some 0 else ParseUint (TrimLeft0 d)) = Some n ↔ decimal 0 d = Some n).
  { rewrite <-(decimal_zeros d). case_bool_decide as E2; [by rewrite E2|].
    unfold ParseUint. rewrite bool_decide_eq_false_2 by done.
    destruct (decimal 0 (TrimLeft0 d)) as [k|]; simpl; [|done].
    destruct (k <? 2 ^ 64) eqn:E3; [done|]. unbool. split; [done|]. intros [= ->]. lia. }
  rewrite Hval. split; [intros ?; by exists d|]. intros (d' & Hd' & _ & Hdec). by rewrite <-(Hd d'), Hdec by congruence.
Qed.

(** The collected sets say exactly which sessions a freeze covers. *)
Lemma revoke_fold own frozen s r : 0 ≤ ls_serial s < 2 ^ 64 →
  selects (fold_left (revoke_step own) frozen r) s = true ↔
  selects r s = true ∨ ∃ f, f ∈ frozen ∧ frozen_by own s f.
Proof.
  intros Hs. revert r. induction frozen as [|f frozen IH]; intros r; simpl.
  { split; [by left|]. intros [?|(? & ?%not_elem_of_nil & _)]; done. }
  rewrite IH. clear IH. setoid_rewrite elem_of_cons.
  assert (Hstep : selects (revoke_step own r f) s = true ↔ selects r s = true ∨ frozen_by own s f).
  { unfold revoke_step, frozen_by, selects. destruct f as [[k v] ? ? ?]; simpl.
    pose proof (parseFrozenSerial_spec v (ls_serial s)) as Hp.
    repeat (case_bool_decide; [subst k|]); try destruct (parseFrozenSerial v) as [n|] eqn:?;
      simpl; rewrite ?orb_true_iff, ?bool_decide_eq_true; simpl; rewrite ?elem_of_union, ?elem_of_singleton;
      try naive_solver lia. }
  rewrite Hstep. naive_solver.
Qed.

Lemma revocationPredicate_selects frozen own :
  let r := fold_left (revoke_step own) frozen no_revoked in
  revocationPredicate frozen own = Some (selects r) ∨
  (revocationPredicate frozen own = None ∧ ∀ s, selects r s = false).
Proof.
  simpl. unfold revocationPredicate. set (r := fold_left _ _ _).
  destruct (negb (rv_broker r) && _ && _ && _) eqn:E; [right|by left].
  split; [done|]. intros s. unfold selects. unbool.
  repeat match goal with H : _ = _ |- _ => rewrite H; clear H end. done.
Qed.

Section enforcement.
Context (iter : range_order ptr) `{!RangeOrder iter}.

Lemma enforce_spec m frozen own : sm_ok m →
  (∀ id s, session m id = Some s → 0 ≤ ls_serial s < 2 ^ 64) →
  (∀ id s, session (enforce_table iter m frozen own).1 id = Some s ↔
     session m id = Some s ∧ ∀ f, f ∈ frozen → ¬ frozen_by own s f) ∧
  (∀ p s, (p, s, ()) ∈ (enforce_table iter m frozen own).2 ↔
     ∃ id f, sm_sessions m !! id = Some p ∧ object m p = Some s ∧ f ∈ frozen ∧ frozen_by own s f).
Proof.
  intros Hok Hu. set (r := fold_left (revoke_step own) frozen no_revoked).
  assert (Hsel : ∀ id s, session m id = Some s → selects r s = true ↔ ∃ f, f ∈ frozen ∧ frozen_by own s f).
  { intros id s Hs. unfold r. rewrite revoke_fold by eauto. split; [|by right]. by intros [?|?]. }
  unfold enforce_table. destruct (revocationPredicate_selects frozen own) as [Hp|[Hp Hnone]]; rewrite Hp; fold r.
  - unfold killMatching. destruct (sweep_spec iter m (fun s => if selects r s then Some () else None) Hok) as [H1 H2].
    split.
    + intros id s. rewrite H1. split; intros [Hs Ht]; (split; [done|]).
      * intros f Hf Hb. destruct (selects r s) eqn:E; [done|].
        assert (selects r s = true) by (apply (Hsel id s Hs); eauto). congruence.
      * destruct (selects r s) eqn:E; [|done]. apply (Hsel id s Hs) in E as (f & ? & ?). naive_solver.
    + intros p s. rewrite H2. split.
      * intros (id & Hid & Ho & Ht). destruct (selects r s) eqn:E; [|done].
        apply (Hsel id s) in E as (f & ? & ?); [by exists id, f|]. unfold session. by rewrite Hid.
      * intros (id & f & Hid & Ho & ? & ?). exists id. split_and!; try done.
        assert (selects r s = true) as ->; [|done]. apply (Hsel id s); [|eauto]. unfold session. by rewrite Hid.
  - fold r in Hnone. split; simpl.
    + intros id s. split; [|by intros [? _]]. intros Hs. split; [done|]. intros f Hf Hb.
      assert (selects r s = true) by (apply (Hsel id s Hs); eauto). by rewrite Hnone in *.
    + intros p s. split; [by intros ?%not_elem_of_nil|]. intros (id & f & Hid & Ho & ? & ?).
      assert (selects r s = true) by (apply (Hsel id s); [unfold session; by rewrite Hid|eauto]).
      by rewrite Hnone in *.
Qed.

(** [C26] The kill switch is exact. Whatever happened to the manager before, one
    pass over a fetched freeze set removes exactly the live sessions the set
    covers (this broker's identity, the session's user, its id, or its serial in
    any decimal spelling), busy or not, hands exactly those to the teardown, and
    leaves every other session as it was; a second pass with the same set finds
    nothing. Certificate serials are unsigned 64-bit numbers. *)
Theorem frozen_sessions_killed idle maxLife ops frozen own :
  let m := sm_run iter (newSessionManager idle maxLife) ops in
  (∀ id s, session m id = Some s → 0 ≤ ls_serial s < 2 ^ 64) →
  let '(m', victims) := enforce_table iter m frozen own in
  (∀ id s, session m' id = Some s ↔ session m id = Some s ∧ ∀ f, f ∈ frozen → ¬ frozen_by own s f) ∧
  (∀ p s, (p, s, ()) ∈ victims ↔
     ∃ id f, sm_sessions m !! id = Some p ∧ object m p = Some s ∧ f ∈ frozen ∧ frozen_by own s f) ∧
  (enforce_table iter m' frozen own).2 = [].
Proof.
  intros m Hu. pose proof (sm_run_ok iter _ ops (new_ok idle maxLife)) as Hok. fold m in Hok.
  destruct (enforce_spec m frozen own Hok Hu) as [H1 H2].
  assert (Hok' : sm_ok (enforce_table iter m frozen own).1).
  { unfold enforce_table. destruct (revocationPredicate _ _); [by apply sweep_ok|done]. }
  destruct (enforce_table iter m frozen own) as [m' victims]; simpl in *. split_and!; [done..|].
  assert (Hu' : ∀ id s, session m' id = Some s → 0 ≤ ls_serial s < 2 ^ 64) by (intros id s [? _]%H1; eauto).
  destruct (enforce_spec m' frozen own Hok' Hu') as [_ K2].
  destruct (enforce_table iter m' frozen own).2 as [|[[p s] []] l]; [done|]. exfalso.
  destruct (proj1 (K2 p s)) as (id & f & Hid & Ho & Hf & Hb); [by left|].
  assert (session m' id = Some s) as [_ Hn]%H1 by (unfold session; by rewrite Hid). by apply (Hn f).
Qed.
End enforcement.

(** A session frozen under a non-canonical spelling of its serial. *)
Definition demo_frozen : list FrozenEntry :=
  [mkFrozenEntry (mkFreezeSubject FreezeSerial "+007") "leak" "op" 0;
   mkFrozenEntry (mkFreezeSubject FreezeSerial "0x8") "typo" "op" 0].

Lemma demo_serials id s : session demo_manager id = Some s → 0 ≤ ls_serial s < 2 ^ 64.
Proof.
  unfold session. intros (p & Hp & Ho)%bind_Some.
  assert (Hall : map_Forall (fun _ s => 0 ≤ ls_serial s < 2 ^ 64) (sm_heap demo_manager)).
  { apply (bool_decide_unpack _). vm_compute. done. }
  by eapply (Hall p).
Qed.

Lemma frozen_sessions_killed_witness :
  session demo_manager "a1" ≠ None ∧ session (enforce_table demo_iter demo_manager demo_frozen "broker1").1 "a1" = None ∧
  session (enforce_table demo_iter demo_manager demo_frozen "broker1").1 "b1" ≠ None ∧
  (enforce_table demo_iter (enforce_table demo_iter demo_manager demo_frozen "broker1").1 demo_frozen "broker1").2 = [].
Proof.
  split; [vm_compute; discriminate|]. split; [vm_compute; reflexivity|]. split; [vm_compute; discriminate|].
  pose proof (frozen_sessions_killed demo_iter (300 * Second) (1800 * Second) demo_life demo_frozen "broker1" demo_serials) as H.
  cbv zeta in H. fold demo_manager in H. destruct (enforce_table demo_iter demo_manager demo_frozen "broker1") as [m' v].
  by destruct H as (_ & _ & H).
Defined.
