(* ===== verification/Prog.v ===== *)
(** * Programs over calls

    Code that is sequential over calls which leave it (a signer, a network, a
    log, state that other requests share behind a mutex) is a [prog]: a tree of
    calls whose answers are arbitrary up to what the callee guarantees
    ([answers]). What it can do is the set of its traces, complete or cut at any
    call, so a statement about every trace covers every answer of the
    environment and every interleaving with other requests at the calls. The
    broker engine, the signing service and the control plane each bring their own
    calls, as an instance of [Effects]. *)

From S2P Require Import Prelude GoStrings.

Inductive prog {E : Type → Type} (A : Type) : Type :=
| Ret (a : A)
| Do {X : Type} (c : E X) (k : X → prog A).
Arguments prog : clear implicits.
Arguments Ret {E A} a.
Arguments Do {E A X} c k.

Fixpoint pbind {E : Type → Type} {A B : Type} (p : prog E A) (k : A → prog E B) : prog E B :=
  match p with Ret a => k a | Do c f => Do c (fun x => pbind (f x) k) end.

Notation "x <- p ;; k" := (pbind p (fun x => k)) (at level 20, p at level 99, k at level 200, right associativity) : go_scope.
Notation "p ;;; k" := (pbind p (fun _ => k)) (at level 21, k at level 200, right associativity) : go_scope.
Definition call_ {E : Type → Type} {X : Type} (c : E X) : prog E X := Do c Ret.

(** The observation a call leaves with its answer, and the answers it may have
    in an environment. *)
Class Effects (E : Type → Type) (Obs Env : Type) : Type := {
  observe : ∀ {X : Type}, E X → X → Obs;
  answers : Env → ∀ {X : Type}, E X → X → Prop;
}.

(** [behaves p t o]: [t] is a trace of [p], complete with result [a] when [o] is
    [Some a], cut before its next call when [o] is [None]. *)
Fixpoint behaves `{EF : Effects E Obs Env} (env : Env) {A : Type} (p : prog E A) (t : list Obs) (o : option A) : Prop :=
  match p with
  | Ret a => t = [] ∧ o = Some a
  | Do c k => (t = [] ∧ o = None) ∨
              ∃ x t', answers env c x ∧ t = observe c x :: t' ∧ behaves env (k x) t' o
  end.

(** ** A program logic over histories

    [safe env P h p Q]: continuing the history [h], every call of [p] satisfies
    [P] (of the history before it), and a result satisfies [Q]. *)
Fixpoint safe `{EF : Effects E Obs Env} (env : Env) (P : list Obs → Obs → Prop) {A : Type} (h : list Obs) (p : prog E A)
    (Q : list Obs → A → Prop) : Prop :=
  match p with
  | Ret a => Q h a
  | Do c k => ∀ x, answers env c x → P h (observe c x) ∧ safe env P (h ++ [observe c x]) (k x) Q
  end.

Section logic.
Context `{EF : Effects E Obs Env} (env : Env) (P : list Obs → Obs → Prop).

Lemma safe_bind {A B : Type} (p : prog E A) (k : A → prog E B) h Q :
  safe env P h (pbind p k) Q ↔ safe env P h p (fun h' a => safe env P h' (k a) Q).
Proof.
  revert h. induction p as [a|X c f IH]; intros h; simpl; [done|].
  split; intros H x Hx; pose proof (H x Hx) as [H1 H2]; (split; [done|]); by apply IH.
Qed.

Lemma safe_call {X A : Type} (c : E X) (k : X → prog E A) h Q :
  (∀ x, answers env c x → P h (observe c x) ∧ safe env P (h ++ [observe c x]) (k x) Q) →
  safe env P h (pbind (call_ c) k) Q.
Proof. done. Qed.

Lemma safe_mono {A : Type} (p : prog E A) h (Q Q' : list Obs → A → Prop) :
  (∀ t a, Q (h ++ t) a → Q' (h ++ t) a) → safe env P h p Q → safe env P h p Q'.
Proof.
  revert h. induction p as [a|X c f IH]; intros h HQ; simpl.
  { specialize (HQ [] a). by rewrite app_nil_r in HQ. }
  intros H x Hx. pose proof (H x Hx) as [H1 H2]. split; [done|]. eapply IH; [|exact H2].
  intros t a. rewrite <-app_assoc. apply HQ.
Qed.

Lemma safe_sound {A : Type} (p : prog E A) h Q t o :
  safe env P h p Q → behaves env p t o →
  (∀ t1 ob t2, t = t1 ++ ob :: t2 → P (h ++ t1) ob) ∧ (∀ a, o = Some a → Q (h ++ t) a).
Proof.
  revert h t. induction p as [a|X c f IH]; intros h t; simpl.
  { intros HQ [-> ->]. split; [by intros [|??] ?? ?|]. intros ? [= <-]. by rewrite app_nil_r. }
  intros Hs [[-> ->]|(x & t' & Hx & -> & Hb)]; [split; [by intros [|??] ?? ?|done]|].
  pose proof (Hs x Hx) as [H1 H2]. destruct (IH x _ _ H2 Hb) as [K1 K2]. split.
  - intros [|ob1 t1] ob t2; simpl; intros [= <- Ht]; [by rewrite app_nil_r|].
    specialize (K1 t1 ob t2 Ht). by rewrite <-app_assoc in K1.
  - intros a Ha. specialize (K2 a Ha). by rewrite <-app_assoc in K2.
Qed.
End logic.

(** Programs that only make calls of some kind. *)
Fixpoint only {E : Type → Type} {A : Type} (S : ∀ X, E X → Prop) (p : prog E A) : Prop :=
  match p with Ret _ => True | Do c k => S _ c ∧ ∀ x, only S (k x) end.

Lemma only_bind {E : Type → Type} {A B : Type} (S : ∀ X, E X → Prop) (p : prog E A) (k : A → prog E B) :
  only S p → (∀ a, only S (k a)) → only S (pbind p k).
Proof.
  intros Hp Hk. induction p as [a|X c f IH]; simpl in *; [done|]. destruct Hp as [? Hp]. split; [done|]. intros x. auto.
Qed.

Lemma safe_only `{EF : Effects E Obs Env} env (P : list Obs → Obs → Prop) {A : Type} (S : ∀ X, E X → Prop) (p : prog E A) h (Q : list Obs → A → Prop) :
  (∀ h' X (c : E X) x, S _ c → P h' (observe c x)) → only S p → (∀ t a, Q (h ++ t) a) → safe env P h p Q.
Proof.
  intros HP. revert h. induction p as [a|X c f IH]; intros h Ho HQ; simpl in *.
  { specialize (HQ [] a). by rewrite app_nil_r in HQ. }
  destruct Ho as [Hc Hf]. intros x Hx. split; [by apply HP|]. apply IH; [done|].
  intros t a. rewrite <-app_assoc. apply HQ.
Qed.

(** Histories only grow. *)
Lemma safe_grows `{EF : Effects E Obs Env} env P {A : Type} (p : prog E A) h Q :
  safe env P h p Q → safe env P h p (fun h' a => Q h' a ∧ h `prefix_of` h').
Proof.
  intros H. eapply safe_mono; [|exact H]. intros t a HQ. split; [done|]. by exists t.
Qed.

(** ** Complete traces *)

Lemma behaves_bind `{EF : Effects E Obs Env} {A B : Type} env (p : prog E A) (k : A → prog E B) t b :
  behaves env (pbind p k) t (Some b) → ∃ t1 t2 a, t = t1 ++ t2 ∧ behaves env p t1 (Some a) ∧ behaves env (k a) t2 (Some b).
Proof.
  revert t. induction p as [a|X c f IH]; intros t; simpl; [intros; by exists [], t, a|].
  intros [[_ ?]|(x & t' & Hx & -> & Hb)]; [done|]. destruct (IH x _ Hb) as (t1 & t2 & a & -> & H1 & H2).
  exists (observe c x :: t1), t2, a. split_and!; [done| |done]. right. by exists x, t1.
Qed.

Lemma behaves_call `{EF : Effects E Obs Env} {X B : Type} env (c : E X) (k : X → prog E B) t b :
  behaves env (pbind (call_ c) k) t (Some b) → ∃ x t', answers env c x ∧ t = observe c x :: t' ∧ behaves env (k x) t' (Some b).
Proof. intros [[_ ?]|H]; [done|exact H]. Qed.

Lemma behaves_Ret `{EF : Effects E Obs Env} {A : Type} env (a : A) t o : behaves env (Ret a) t o → t = [] ∧ o = Some a.
Proof. done. Qed.

Lemma behaves_only `{EF : Effects E Obs Env} {A : Type} env (S : ∀ X, E X → Prop) (p : prog E A) t o ob :
  only S p → behaves env p t o → ob ∈ t → ∃ X (c : E X) x, S X c ∧ ob = observe c x.
Proof.
  revert t. induction p as [a|X c f IH]; intros t; simpl; [intros _ [-> _] ?%not_elem_of_nil; done|].
  intros [Hc Hf] [[-> _]|(x & t' & Hx & -> & Hb)]; [by intros ?%not_elem_of_nil|].
  intros [->|Hin]%elem_of_cons; [by exists X, c, x|eauto].
Qed.

(** A program that only makes calls of a harmless kind, by its complete traces. *)
Lemma safe_intro `{EF : Effects E Obs Env} env (P : list Obs → Obs → Prop) {A : Type} (S : ∀ X, E X → Prop) (p : prog E A) h
    (Q : list Obs → A → Prop) :
  (∀ h' X (c : E X) x, S _ c → P h' (observe c x)) → only S p → (∀ t a, behaves env p t (Some a) → Q (h ++ t) a) → safe env P h p Q.
Proof.
  intros HP. revert h. induction p as [a|X c f IH]; intros h Ho HQ; simpl in *.
  { specialize (HQ [] a). rewrite app_nil_r in HQ. by apply HQ. }
  destruct Ho as [Hc Hf]. intros x Hx. split; [by apply HP|]. apply IH; [done|].
  intros t a Hb. rewrite <-app_assoc. apply HQ. right. by exists x, t.
Qed.

(** Every result of the program, whatever the answers. *)
Fixpoint always {E : Type → Type} {A : Type} (Q : A → Prop) (p : prog E A) : Prop :=
  match p with Ret a => Q a | Do c k => ∀ x, always Q (k x) end.

Lemma always_post {E : Type → Type} {A B : Type} (P : A → Prop) (Q : B → Prop) (p : prog E A) (k : A → prog E B) :
  always P p → (∀ a, P a → always Q (k a)) → always Q (pbind p k).
Proof. intros Hp Hk. induction p as [a|X c f IH]; simpl in *; [auto|]. intros x. auto. Qed.

Lemma always_True {E : Type → Type} {A : Type} (p : prog E A) : always (fun _ => True) p.
Proof. induction p; simpl; auto. Qed.

Lemma always_bind {E : Type → Type} {A B : Type} (Q : B → Prop) (p : prog E A) (k : A → prog E B) :
  (∀ a, always Q (k a)) → always Q (pbind p k).
Proof. intros Hk. apply (always_post (fun _ => True)); [apply always_True|auto]. Qed.

Lemma behaves_always `{EF : Effects E Obs Env} {A : Type} env (Q : A → Prop) (p : prog E A) t a :
  always Q p → behaves env p t (Some a) → Q a.
Proof.
  revert t. induction p as [b|X c f IH]; intros t Hp; simpl; [by intros [_ [= <-]]|].
  intros [[_ ?]|(x & t' & _ & _ & Hb)]; [done|]. by eapply (IH x t' (Hp x)).
Qed.

(** ** Running a program

    A handler answers the calls from a state of its own: the definitions run on
    concrete inputs, and a claim about results fixes the answers this way. *)
Definition handler (E : Type → Type) (S : Type) : Type := ∀ X : Type, E X → S → S * X.

Fixpoint run {E : Type → Type} {S A : Type} (h : handler E S) (p : prog E A) (s : S) : S * A :=
  match p with
  | Ret a => (s, a)
  | Do c k => let '(s', x) := h _ c s in run h (k x) s'
  end.

Lemma run_bind {E : Type → Type} {S A B : Type} (h : handler E S) (p : prog E A) (k : A → prog E B) s :
  run h (pbind p k) s = let '(s', a) := run h p s in run h (k a) s'.
Proof. revert s. induction p as [a|X c f IH]; intros s; simpl; [done|]. destruct (h X c s). apply IH. Qed.

(** As [run], with the trace. *)
Fixpoint traced `{EF : Effects E Obs Env} {S A : Type} (h : handler E S) (p : prog E A) (s : S) : S * list Obs * A :=
  match p with
  | Ret a => (s, [], a)
  | Do c k =>
      let '(s', x) := h _ c s in
      let '(s'', t, a) := traced h (k x) s' in (s'', observe c x :: t, a)
  end.

(** What a handler whose answers are possible ones does is a behaviour. *)
Lemma traced_behaves `{EF : Effects E Obs Env} {S A : Type} (env : Env) (h : handler E S) (p : prog E A) s :
  (∀ X (c : E X) s, answers env c (h X c s).2) →
  behaves env p (traced h p s).1.2 (Some (traced h p s).2).
Proof.
  intros Hh. revert s. induction p as [a|X c k IH]; intros s; simpl; [done|].
  specialize (Hh X c s). destruct (h X c s) as [s' x]. simpl in Hh. specialize (IH x s').
  destruct (traced h (k x) s') as [[s'' t] a]. right. by exists x, t.
Qed.
