(* ===== verification/Broker.v ===== *)
(** * The broker's effects

    The broker engine ([internal/broker]) is sequential code over calls that
    leave it: the signer, the signer's host list, SSH, the audit log, the
    clock, and the state it shares with the other requests (host cache, host-key
    cache, session table), each access to which runs under a mutex. A method of
    the engine is a [prog]: a tree of such calls, whose answers are arbitrary up
    to what the callee guarantees ([answers]). What a method can do is the set
    of its traces, complete or cut at any call, so a statement about every trace
    covers every answer of the environment and every interleaving with the other
    requests at the calls. *)

From S2P Require Import Prelude GoStrings CmdPolicy PolicySet K8sAction Intent Freeze CA HostPolicy Signer Sessions Prog.

(** ** Data *)

(** [signer.HostInfo] and [signer.ClusterInfo]: what the broker knows of a
    target. *)
Record HostInfo := mkHostInfo {
  hi_Addr : string;
  hi_User : string;
  hi_HostKey : string;
  hi_Jump : string;
  hi_AllowSudo : bool;
  hi_AllowPTY : bool;
  hi_AllowFileTransfer : bool;
  hi_Groups : list string;
}.

Record ClusterInfo := mkClusterInfo {
  ci_APIServer : string;
  ci_CACertPEM : string;
  ci_Groups : list string;
  ci_ExtraResources : list ResourceDef;
}.

Record Caller := mkCaller {
  who_ID : string;
  who_Groups : option (list string);
  who_RawToken : string;
  who_Context : string;
}.

Record ExecOptions := mkExecOptions {
  eo_Sudo : bool;
  eo_SudoUser : string;
  eo_PTY : bool;
  eo_DryRun : bool;
  eo_Approved : bool;
  eo_Stdin : string;
  eo_FileTransfer : bool;
}.

Definition elevationLabel (o : ExecOptions) : string :=
  if negb (eo_Sudo o) then "" else "sudo:" +:+ (if bool_decide (eo_SudoUser o = "") then "root" else eo_SudoUser o).

(** [sshrun.Result] and [sshrun.Hop]; keys are their wire forms. *)
Record ExecResult := mkExecResult { xr_Stdout : string; xr_Stderr : string; xr_ExitCode : Z }.

Record Hop := mkHop {
  hop_Addr : string;
  hop_User : string;
  hop_HostKey : string;
  hop_PrivateKey : string;
  hop_Certificate : Certificate;
}.

(** An error of the signer, by the classes the broker tells apart. *)
Inductive sgn_error := ErrSignerUnavailable | ErrRateLimited | ErrCASignFailed | ErrK8sMintFailed | SignDenied.

Inductive bad_request :=
| BadCommandRequired
| BadPTYLength (n : Z)
| BadControlByte (b : Z)
| BadPath
| BadContentSize (n max : Z)
| BadFileMode (mode : string)
| BadFileTooLarge (max : Z).

Inductive upstream :=
| UpSign (e : sgn_error)
| UpHostList
| UpConnect
| UpExec
| UpShell
| UpRecording.

Inductive engine_error :=
| ErrBadRequest (why : bad_request)
| ErrUnknownHost (host : string)
| EUnknownTarget (host : string)
| ErrUpstream (what : upstream)
| ErrRemoteCommand (code : Z) (stderr : string)
| ErrAuditUnavailable
| ErrApprovalRequired (host : string) (rule : matched_rule) (elevation : string) (pty : bool)
| ESignFailed (host : string) (e : sgn_error)
| EBastionCycle (host : string)
| EUnknownInChain (host : string)
| EChainFuel
| EHostKey (host : string)
| EKeygen
| EInvalidMode (mode : string)
| ESessionLimit (e : add_error)
| EUnknownSession (id : string)
| ENotSessionOwner (id : string)
| ECommandRequired
| ENewlines
| EConnectivityChanged (host : string)
| ESessionNotAllowed (rule : matched_rule) (why : reason)
| ESessionApproval (rule : matched_rule)
| EBastionNoDecision (host : string)
| EBastionNotAllowed (host : string) (why : reason)
| EBastionApproval (host : string)
| EUnknownCluster (name : string)
| EK8sAction (e : k8s_error)
| ENoManifest
| EK8sClient
| EK8sCall
| EUnsupportedVerb (verb : string).

(** The reason text of an audit record. *)
Inductive record_err := NoErr | ErrOf (e : engine_error) | ErrUnknownHostText | ErrFrozen | ErrShutdown | ErrReap (r : reap_reason).

(** [audit.Entry] as the engine fills it in; the texts of errors and policy
    rules stay values. *)
Record entry := mkRecord {
  en_Caller : string;
  en_EndUserContext : string;
  en_Host : string;
  en_User : string;
  en_Command : string;
  en_Serial : Z;
  en_SessionID : string;
  en_Outcome : string;
  en_ExitCode : Z;
  en_Elevation : string;
  en_PTY : bool;
  en_DryRun : bool;
  en_TargetType : string;
  en_PolicyRule : matched_rule;
  en_Warning : warning;
  en_ApprovedVia : string;
  en_BodySHA256 : string;
  en_Err : record_err;
}.

(** An entry with the fields every record has. *)
Definition basic_entry (c : Caller) (host command outcome : string) (err : record_err) : entry :=
  mkRecord (who_ID c) (who_Context c) host "" command 0 "" outcome 0 "" false false "" RuleNone None "" "" err.
Definition with_serial (serial : Z) (e : entry) : entry :=
  mkRecord (en_Caller e) (en_EndUserContext e) (en_Host e) (en_User e) (en_Command e) serial (en_SessionID e) (en_Outcome e)
    (en_ExitCode e) (en_Elevation e) (en_PTY e) (en_DryRun e) (en_TargetType e) (en_PolicyRule e) (en_Warning e)
    (en_ApprovedVia e) (en_BodySHA256 e) (en_Err e).
Definition with_session (id : string) (e : entry) : entry :=
  mkRecord (en_Caller e) (en_EndUserContext e) (en_Host e) (en_User e) (en_Command e) (en_Serial e) id (en_Outcome e)
    (en_ExitCode e) (en_Elevation e) (en_PTY e) (en_DryRun e) (en_TargetType e) (en_PolicyRule e) (en_Warning e)
    (en_ApprovedVia e) (en_BodySHA256 e) (en_Err e).
Definition with_user (u : string) (e : entry) : entry :=
  mkRecord (en_Caller e) (en_EndUserContext e) (en_Host e) u (en_Command e) (en_Serial e) (en_SessionID e) (en_Outcome e)
    (en_ExitCode e) (en_Elevation e) (en_PTY e) (en_DryRun e) (en_TargetType e) (en_PolicyRule e) (en_Warning e)
    (en_ApprovedVia e) (en_BodySHA256 e) (en_Err e).
Definition with_run (code : Z) (elev : string) (pty : bool) (rule : matched_rule) (w : warning) (via : string)
    (e : entry) : entry :=
  mkRecord (en_Caller e) (en_EndUserContext e) (en_Host e) (en_User e) (en_Command e) (en_Serial e) (en_SessionID e)
    (en_Outcome e) code elev pty (en_DryRun e) (en_TargetType e) rule w via (en_BodySHA256 e) (en_Err e).
Definition simulated (e : entry) : entry :=
  mkRecord (en_Caller e) (en_EndUserContext e) (en_Host e) (en_User e) (en_Command e) (en_Serial e) (en_SessionID e)
    (en_Outcome e) (en_ExitCode e) (en_Elevation e) (en_PTY e) true (en_TargetType e) (en_PolicyRule e) (en_Warning e)
    (en_ApprovedVia e) (en_BodySHA256 e) (en_Err e).
Definition for_cluster (sha : string) (e : entry) : entry :=
  mkRecord (en_Caller e) (en_EndUserContext e) (en_Host e) (en_User e) (en_Command e) (en_Serial e) (en_SessionID e)
    (en_Outcome e) (en_ExitCode e) (en_Elevation e) (en_PTY e) (en_DryRun e) TargetTypeK8s (en_PolicyRule e) (en_Warning e)
    (en_ApprovedVia e) sha (en_Err e).

(** ** Calls *)

(** A call and the type of its answer; [None], [false] and [Err] are failures. *)
Inductive call : Type → Type :=
| Now : call time
| CachedHost (name : string) : call (option HostInfo)
| LastHostRefresh : call (option time)
| FetchHosts : call (option (gmap string HostInfo))
| StoreHosts (hosts : gmap string HostInfo) (now : time) : call unit
| CachedCluster (name : string) : call (option ClusterInfo)
| HostKeyLoad (line : string) : call (option (option string))
| HostKeyParse (line : string) : call (option string)
| HostKeyStore (line : string) (key : option string) : call unit
| HostKeyPrune : call unit
| FetchRevocations : call (option (list FrozenEntry))
| SignIntentCall (i : Intent) : call (result sgn_error Issued)
| GenerateEphemeralKey : call (option (string * string))
| NewSessionID : call string
| Dial (hops : list Hop) : call (option conn)
| ExecOnce (c : conn) (command : string) (pty : bool) (stdin : string) : call (option ExecResult)
| OpenShell (c : conn) (shellCmd : string) (pty : bool) : call (option nat)
| ShellExec (sh : nat) (command : string) : call (option ExecResult)
| OpenRecording (s : liveSession) : call bool
| CloseRecorder (id : string) : call unit
| CloseConn (c : conn) : call unit
| CloseShell (sh : nat) : call unit
| SessionAdd (s : liveSession) : call (result add_error ptr)
| SessionRemove (id : string) : call unit
| SessionCheckout (now now' : time) (id caller : string) : call checkout
| SessionCheckin (now : time) (p : ptr) : call unit
| SessionRemoveOwned (id caller : string) : call checkout
| SessionReap (now : time) : call (list (ptr * liveSession * reap_reason))
| SessionKill (pred : liveSession → bool) : call (list (ptr * liveSession * unit))
| SessionCloseAll : call (list (ptr * liveSession * unit))
| SessionCloseOnce (p : ptr) : call bool
| K8sClient (apiServer caPEM token : string) : call bool
| K8sRequest (apiServer token : string) (def : ResourceDef) (a : K8sAction) (manifest : string) : call (option string)
| Append (e : entry) : call bool.

Abbreviation prog := (Prog.prog call) (only parsing).
Abbreviation call_ := (@Prog.call_ call _) (only parsing).

(** ** Traces *)

(** A call with its answer. The clock, the key generator and the like are
    silent. *)
Inductive obs :=
| OHost (name : string) (r : option HostInfo)
| OFetchHosts (r : option (gmap string HostInfo))
| OStoreHosts (hosts : gmap string HostInfo)
| OSign (i : Intent) (r : result sgn_error Issued)
| ODial (hops : list Hop) (r : option conn)
| OExec (c : conn) (command : string) (pty : bool) (stdin : string) (r : option ExecResult)
| OOpenShell (c : conn) (shellCmd : string) (pty : bool) (r : option nat)
| OShellExec (sh : nat) (command : string) (r : option ExecResult)
| OCloseConn (c : conn)
| OAdd (s : liveSession) (r : result add_error ptr)
| ORemove (id : string)
| OCheckout (now : time) (id caller : string) (r : checkout)
| OCheckin (p : ptr)
| ORemoveOwned (id caller : string) (r : checkout)
| OCloseOnce (p : ptr) (first : bool)
| OK8sRequest (apiServer token : string) (a : K8sAction) (manifest : string) (r : option string)
| OAppend (e : entry) (ok : bool)
| OSilent.

Definition call_observe {X : Type} (c : call X) : X → obs :=
  match c with
  | CachedHost n => OHost n
  | FetchHosts => OFetchHosts
  | StoreHosts h _ => fun _ => OStoreHosts h
  | SignIntentCall i => OSign i
  | Dial hops => ODial hops
  | ExecOnce c cmd pty stdin => OExec c cmd pty stdin
  | OpenShell c cmd pty => OOpenShell c cmd pty
  | ShellExec sh cmd => OShellExec sh cmd
  | CloseConn c => fun _ => OCloseConn c
  | SessionAdd s => OAdd s
  | SessionRemove id => fun _ => ORemove id
  | SessionCheckout now _ id c => OCheckout now id c
  | SessionCheckin _ p => fun _ => OCheckin p
  | SessionRemoveOwned id c => ORemoveOwned id c
  | SessionCloseOnce p => OCloseOnce p
  | K8sRequest api tok _ a m => OK8sRequest api tok a m
  | Append e => OAppend e
  | _ => fun _ => OSilent
  end.

(** What the other side of a call guarantees: [env_sgn] is what the signer may
    answer to an intent, [env_hostkey] is [ssh.ParseAuthorizedKey],
    [env_dialled] and [env_shell] tell how a connection and a shell came about,
    and [env_opened] holds of every session the requests publish. [sshrun.Dial]
    refuses an empty chain. *)
Record environment := mkEnv {
  env_sgn : Intent → result sgn_error Issued → Prop;
  env_hostkey : string → option string;
  env_dialled : conn → list Hop → Prop;
  env_shell : nat → conn → Prop;
  env_opened : liveSession → Prop;
}.

Definition manager_of (env : environment) (m : sessionManager) : Prop :=
  sm_ok m ∧ map_Forall (fun _ s => env_opened env s) (sm_heap m).

Definition call_answers (env : environment) {X : Type} (c : call X) : X → Prop :=
  match c with
  | SignIntentCall i => env_sgn env i
  | Dial hops => fun r => ∀ cn, r = Some cn → hops ≠ [] ∧ env_dialled env cn hops
  | OpenShell c _ _ => fun r => ∀ sh, r = Some sh → env_shell env sh c
  | HostKeyParse line => fun r => r = env_hostkey env line
  | HostKeyLoad line => fun r => r = None ∨ r = Some (env_hostkey env line)
  | SessionAdd s => fun r => ∃ m, manager_of env m ∧ r = (add m s).2
  | SessionCheckout now now' id c => fun r => ∃ m, manager_of env m ∧ r = (checkoutOwned m now now' id c).2
  | SessionRemoveOwned id c => fun r => ∃ m, manager_of env m ∧ r = (removeOwned m id c).2
  | _ => fun _ => True
  end.

#[export] Instance call_effects : Effects call obs environment := {| observe X := call_observe; answers env X := call_answers env |}.
Abbreviation handler := (Prog.handler call) (only parsing).
