(* ===== verification/Engine.v ===== *)
(** * The broker engine

    [internal/broker/engine.go]: host lookup and refresh, the route to a host
    through its bastions, the certificates of a connection, one-shot execution
    and its audit. *)

From S2P Require Import Prelude GoStrings CmdPolicy PolicySet Encoding K8sAction Intent Freeze CA HostPolicy Signer Sessions Revocation Prog Broker.

(** [p ;; k] that returns early on an error, [x, err := p; if err != nil { return err }]. *)
Definition ebind {A B : Type} (p : prog (result engine_error A)) (k : A → prog (result engine_error B)) :
    prog (result engine_error B) :=
  r <- p ;; match r with Ok a => k a | Err e => Ret (Err e) end.
Notation "x <~ p ;; k" := (ebind p (fun x => k)) (at level 20, p at level 99, k at level 200, right associativity) : go_scope.

(** ** Configuration *)

Record HostConfig := mkHostConfig {
  hc_Addr : string;
  hc_User : string;
  hc_Principal : string;
  hc_HostKey : string;
  hc_Jump : string;
  hc_SourceAddress : string;
  hc_AllowSudo : bool;
  hc_AllowedSudoUsers : list string;
  hc_AllowPTY : bool;
  hc_AllowFileTransfer : bool;
  hc_Groups : list string;
  hc_AllowAsBastion : bool;
  hc_CommandPolicy : CommandPolicy;
}.

(** The parts of [Engine] and its [Config] the methods read and no method
    changes; [e_remote] is [fetcher != nil]. *)
Record Engine := mkEngine {
  e_Hosts : gmap string HostConfig;
  e_SourceAddress : string;
  e_remote : bool;
  e_maxTTL : duration;
  e_auditFailClosed : bool;
  e_ownIdentity : string;
  e_SessionRecordingDir : string;
  e_SessionRecordingStrict : bool;
  e_FileTransferMaxBytes : Z;
}.

Definition localCaller : string := "local".
Definition hostRefreshCoalesce : duration := 3 * Second.
Definition approvalViaElicitation : string := "elicitation".

(** ** Hosts *)

Definition local_info (hc : HostConfig) : HostInfo :=
  mkHostInfo (hc_Addr hc) (hc_User hc) (hc_HostKey hc) (hc_Jump hc) (hc_AllowSudo hc) (hc_AllowPTY hc)
    (hc_AllowFileTransfer hc) (hc_Groups hc).

Definition hostInfo (e : Engine) (name : string) : prog (option HostInfo) :=
  if e_remote e then call_ (CachedHost name)
  else Ret (match e_Hosts e !! name with Some hc => Some (local_info hc) | None => None end).

Definition refreshHostsNow (e : Engine) : prog (result engine_error unit) :=
  if negb (e_remote e) then Ret (Ok ())
  else
    h <- call_ FetchHosts ;;
    match h with
    | None => Ret (Err (ErrUpstream UpHostList))
    | Some hosts =>
        now <- call_ Now ;;
        call_ (StoreHosts hosts now) ;;; call_ HostKeyPrune ;;; Ret (Ok ())
    end.

Definition refreshHostsForNewConnection (e : Engine) : prog (result engine_error unit) :=
  if negb (e_remote e) then Ret (Ok ())
  else
    last <- call_ LastHostRefresh ;;
    now <- call_ Now ;;
    let fresh := match last with Some t => now - t <? hostRefreshCoalesce | None => false end in
    if fresh then Ret (Ok ()) else refreshHostsNow e.

(** [resolveChain], with fuel for the loop: the bastions in dial order, the
    target last. *)
Fixpoint chain_loop (e : Engine) (fuel : nat) (cur : string) (seen : gset string) (chain : list string) :
    prog (result engine_error (list string)) :=
  if bool_decide (cur = "") then Ret (Ok chain)
  else match fuel with
  | O => Ret (Err EChainFuel)
  | S fuel' =>
      if bool_decide (cur ∈ seen) then Ret (Err (EBastionCycle cur))
      else
        hi <- hostInfo e cur ;;
        match hi with
        | None => Ret (Err (EUnknownInChain cur))
        | Some h => chain_loop e fuel' (hi_Jump h) ({[cur]} ∪ seen) (cur :: chain)
        end
  end.

Section engine.
(** Fuel for the walk along the [Jump] fields. *)
Context (fuel : nat) (e : Engine).

Definition resolveChain (host : string) : prog (result engine_error (list string)) := chain_loop e fuel host ∅ [].

(** [fmt.Fprintf(b, "%d:%s", len(s), s)] *)
Definition writeSignaturePart (s : string) : string := FormatInt (Z.of_nat (String.length s)) +:+ ":" +:+ s.
Definition hop_signature (name : string) (hi : HostInfo) : string :=
  writeSignaturePart name +:+ writeSignaturePart (hi_Addr hi) +:+ writeSignaturePart (hi_User hi) +:+
  writeSignaturePart (hi_HostKey hi) +:+ writeSignaturePart (hi_Jump hi) +:+ "|".

Fixpoint signature_loop (names : list string) (b : string) : prog (result engine_error string) :=
  match names with
  | [] => Ret (Ok b)
  | name :: rest =>
      hi <- hostInfo e name ;;
      match hi with
      | None => Ret (Err (EUnknownInChain name))
      | Some h => signature_loop rest (b +:+ hop_signature name h)
      end
  end.
Definition connectivitySignature (host : string) : prog (result engine_error string) :=
  chain <~ resolveChain host ;; signature_loop chain "".
Definition currentConnectivitySignature (host : string) : prog (result engine_error string) :=
  _ <~ refreshHostsNow e ;; connectivitySignature host.

(** ** Audit *)

(** [None] is a nil error. *)
Definition appendAudit (ent : entry) : prog (option engine_error) :=
  ok <- call_ (Append ent) ;;
  Ret (if negb ok && e_auditFailClosed e then Some ErrAuditUnavailable else None).

Definition auditE (ent : entry) : prog (option engine_error) :=
  hi <- hostInfo e (en_Host ent) ;;
  appendAudit (match hi with
               | Some h => if bool_decide (en_User ent = "") then with_user (hi_User h) ent else ent
               | None => ent
               end).

(** An audit whose error is ignored, then the early return. *)
Definition audit_fail {A : Type} (ent : entry) (err : engine_error) : prog (result engine_error A) :=
  auditE ent ;;; Ret (Err err).
(** The fail-closed gate: the result only if its record was written. *)
Definition audit_gate {A : Type} (ent : entry) (a : A) : prog (result engine_error A) :=
  r <- auditE ent ;; Ret (match r with Some err => Err err | None => Ok a end).

(** ** Signing a connection *)

Definition upstream_class (x : sgn_error) : bool :=
  match x with ErrSignerUnavailable | ErrK8sMintFailed | ErrCASignFailed => true | _ => false end.
Definition classifySignErr (err : engine_error) : engine_error :=
  match err with
  | ESignFailed _ x => if upstream_class x then ErrUpstream (UpSign x) else err
  | _ => err
  end.
Definition signFailureOutcome (err : engine_error) : string :=
  match err with
  | ErrApprovalRequired _ _ _ _ => "approval_required"
  | _ => match classifySignErr err with ErrUpstream _ => "error" | _ => "denied" end
  end.

Definition decisionRule (dec : option DecisionInfo) : matched_rule :=
  match dec with Some d => di_MatchedRule d | None => RuleNone end.
Definition decisionWarning (dec : option DecisionInfo) : warning :=
  match dec with Some d => di_Warning d | None => None end.
Definition approvalError (host : string) (d : option DecisionInfo) (opts : ExecOptions) : engine_error :=
  ErrApprovalRequired host (decisionRule d) (elevationLabel opts) (eo_PTY opts).

Definition ttlFor (ttlSeconds : Z) : duration :=
  let ttl := wrap64 (ttlSeconds * Second) in
  if (ttl <=? 0) || (e_maxTTL e <? ttl) then e_maxTTL e else ttl.

Definition parseHostKeyCached (line : string) : prog (option string) :=
  v <- call_ (HostKeyLoad line) ;;
  match v with
  | Some r => Ret r
  | None => r <- call_ (HostKeyParse line) ;; call_ (HostKeyStore line r) ;;; Ret r
  end.

Definition bastion_intent (c : Caller) (name purpose : string) (ttl : duration) (pub : string) : Intent :=
  mkIntent localCaller name "" None RoleBastion purpose "" "" ttl pub false "" false false false false false ""
    (who_ID c) (who_Groups c) (who_Context c) (who_RawToken c) 0 "" "".
Definition target_intent (c : Caller) (name purpose mode command : string) (ttl : duration) (opts : ExecOptions)
    (transfer : bool) (pub : string) : Intent :=
  mkIntent localCaller name "" None RoleTarget purpose mode command ttl pub (eo_Sudo opts) (eo_SudoUser opts)
    (eo_PTY opts) transfer false false (eo_Approved opts) "" (who_ID c) (who_Groups c) (who_Context c)
    (who_RawToken c) 0 "" "".

(** The body of the loop over the chain once the hop's host is known: a key
    pair, a certificate, the pinned host key. *)
Definition sign_hop (opts : ExecOptions) (name : string) (hi : HostInfo) (intent : string → Intent) :
    prog (result engine_error (Hop * Issued)) :=
  kp <- call_ GenerateEphemeralKey ;;
  match kp with
  | None => Ret (Err EKeygen)
  | Some (priv, pub) =>
      r <- call_ (SignIntentCall (intent pub)) ;;
      match r with
      | Err x => Ret (Err (ESignFailed name x))
      | Ok issued =>
          match is_Certificate issued with
          | None => Ret (Err (approvalError name (is_Decision issued) opts))
          | Some cert =>
              hk <- parseHostKeyCached (hi_HostKey hi) ;;
              match hk with
              | None => Ret (Err (EHostKey name))
              | Some k => Ret (Ok (mkHop (hi_Addr hi) (hi_User hi) k priv cert, issued))
              end
          end
      end
  end.

Section hops.
Context (c : Caller) (ttl : duration) (purpose command mode : string) (opts : ExecOptions).

(** What the loop of [buildHops] has gathered: the hops, then the serial and
    the decision of the target. *)
Fixpoint hops_loop (names : list string) (hops : list Hop) (serial : Z) (dec : option DecisionInfo) :
    prog (result engine_error (list Hop * Z * option DecisionInfo)) :=
  match names with
  | [] => Ret (Ok (hops, serial, dec))
  | name :: rest =>
      hi <- hostInfo e name ;;
      match hi with
      | None => Ret (Err (EUnknownInChain name))
      | Some h =>
          let isTarget := bool_decide (rest = []) in
          r <~ sign_hop opts name h
                  (if isTarget then target_intent c name purpose "" command ttl opts (eo_FileTransfer opts)
                   else bastion_intent c name purpose ttl) ;;
          if isTarget then hops_loop rest (hops ++ [r.1]) (is_Serial r.2) (is_Decision r.2)
          else hops_loop rest (hops ++ [r.1]) serial dec
      end
  end.
Definition buildHops (host : string) : prog (result engine_error (list Hop * Z * option DecisionInfo)) :=
  chain <~ resolveChain host ;; hops_loop chain [] 0 None.

(** [buildHopsWithPrefix]: sessions. *)
Record session_hops := mkSessionHops {
  sh_hops : list Hop;
  sh_serial : Z;
  sh_prefix : string;
  sh_sig : string;
  sh_notAfter : option time;
}.
Fixpoint session_hops_loop (names : list string) (acc : session_hops) : prog (result engine_error session_hops) :=
  match names with
  | [] => Ret (Ok acc)
  | name :: rest =>
      hi <- hostInfo e name ;;
      match hi with
      | None => Ret (Err (EUnknownInChain name))
      | Some h =>
          let sig := sh_sig acc +:+ hop_signature name h in
          let isTarget := bool_decide (rest = []) in
          r <~ sign_hop opts name h
                  (if isTarget
                   then target_intent c name purpose (if bool_decide (purpose = PurposeSession) then mode else "") "" ttl opts false
                   else bastion_intent c name purpose ttl) ;;
          let hops := sh_hops acc ++ [r.1] in
          if isTarget
          then session_hops_loop rest (mkSessionHops hops (is_Serial r.2) (is_ElevationPrefix r.2) sig
                 (Some (time_of_unix (wrap64 (cert_ValidBefore (hop_Certificate r.1))))))
          else session_hops_loop rest (mkSessionHops hops (sh_serial acc) (sh_prefix acc) sig (sh_notAfter acc))
      end
  end.
Definition buildHopsWithPrefix (host : string) : prog (result engine_error session_hops) :=
  chain <~ resolveChain host ;; session_hops_loop chain (mkSessionHops [] 0 "" "" None).
End hops.

(** ** One-shot execution *)

Record Result := mkResult {
  re_Stdout : string;
  re_Stderr : string;
  re_ExitCode : Z;
  re_Serial : Z;
  re_Warning : warning;
  re_DryRun : option DecisionInfo;
}.

Definition dryRun (c : Caller) (host command : string) (ttlSeconds : Z) (opts : ExecOptions) :
    prog (result engine_error Result) :=
  kp <- call_ GenerateEphemeralKey ;;
  match kp with
  | None => Ret (Err EKeygen)
  | Some (_, pub) =>
      let intent := mkIntent localCaller host "" None RoleTarget PurposeOneshot "" command (ttlFor ttlSeconds) pub
        (eo_Sudo opts) (eo_SudoUser opts) (eo_PTY opts) false true false false "" (who_ID c) (who_Groups c)
        (who_Context c) (who_RawToken c) 0 "" "" in
      r <- call_ (SignIntentCall intent) ;;
      match r with
      | Err x =>
          let err := ESignFailed host x in
          audit_fail (simulated (basic_entry c host command (signFailureOutcome err) (ErrOf err))) (classifySignErr err)
      | Ok issued =>
          let dec := is_Decision issued in
          let outcome := match dec with
                         | Some d => if negb (di_Allowed d) then "dry_run_denied" else "dry_run_allowed"
                         | None => "dry_run_allowed"
                         end in
          auditE (with_run 0 (elevationLabel opts) (eo_PTY opts) (decisionRule dec) (decisionWarning dec) ""
                    (simulated (basic_entry c host command outcome NoErr))) ;;;
          Ret (Ok (mkResult "" "" 0 0 None dec))
      end
  end.

(** [defer conn.Close()] *)
Definition with_conn {A : Type} (cn : conn) (p : prog A) : prog A := r <- p ;; call_ (CloseConn cn) ;;; Ret r.

Definition Execute (c : Caller) (host command : string) (ttlSeconds : Z) (opts : ExecOptions) :
    prog (result engine_error Result) :=
  r <- refreshHostsForNewConnection e ;;
  match r with
  | Err err => audit_fail (basic_entry c host command "error" (ErrOf err)) err
  | Ok _ =>
  hi <- hostInfo e host ;;
  match hi with
  | None => audit_fail (basic_entry c host command "denied" ErrUnknownHostText) (ErrUnknownHost host)
  | Some _ =>
  if bool_decide (command = "") then Ret (Err (ErrBadRequest BadCommandRequired))
  else if eo_DryRun opts then dryRun c host command ttlSeconds opts
  else
  b <- buildHops c (ttlFor ttlSeconds) PurposeOneshot command opts host ;;
  match b with
  | Err err => audit_fail (basic_entry c host command (signFailureOutcome err) (ErrOf err)) (classifySignErr err)
  | Ok (hops, serial, dec) =>
  cn <- call_ (Dial hops) ;;
  match cn with
  | None => audit_fail (with_serial serial (basic_entry c host command "error" (ErrOf (ErrUpstream UpConnect))))
              (ErrUpstream UpConnect)
  | Some cn =>
  with_conn cn (
    res <- call_ (ExecOnce cn command (eo_PTY opts) (eo_Stdin opts)) ;;
    match res with
    | None => audit_fail (with_serial serial (basic_entry c host command "error" (ErrOf (ErrUpstream UpExec))))
                (ErrUpstream UpExec)
    | Some res =>
        audit_gate
          (with_run (xr_ExitCode res) (elevationLabel opts) (eo_PTY opts) (decisionRule dec) (decisionWarning dec)
             (if eo_Approved opts then approvalViaElicitation else "")
             (with_serial serial (basic_entry c host command "executed" NoErr)))
          (mkResult (xr_Stdout res) (xr_Stderr res) (xr_ExitCode res) serial (decisionWarning dec) None)
    end)
  end end end end.

Definition AuditApprovalGranted (c : Caller) (host command : string) (rule : matched_rule) (opts : ExecOptions) :
    prog (option engine_error) :=
  auditE (with_run 0 (elevationLabel opts) (eo_PTY opts) rule None approvalViaElicitation
            (basic_entry c host command "approval_granted" NoErr)).
Definition AuditApprovalDeclined (c : Caller) (host command : string) (rule : matched_rule) (opts : ExecOptions) :
    prog unit :=
  auditE (with_run 0 (elevationLabel opts) (eo_PTY opts) rule None approvalViaElicitation
            (basic_entry c host command "approval_declined" NoErr)) ;;; Ret ().
End engine.
