(* ===== verification/Routes.v ===== *)
(** * Routes

    What [resolveChain] and [connectivitySignature] compute on a host view that
    does not change under them: the route to a host, found for every view, and
    a text that determines it. *)

From stdpp Require Import pretty.
From S2P Require Import Prelude GoStrings Encoding Sessions Prog Broker Engine.

(** ** The route to a host

    The hosts to dial, outermost bastion first: a host without a [Jump] is
    dialled directly, another one after the route to its bastion. *)
Inductive route (view : gmap string HostInfo) : string → list string → Prop :=
| route_direct h hi : view !! h = Some hi → hi_Jump hi = "" → h ≠ "" → route view h [h]
| route_via h hi chain : view !! h = Some hi → hi_Jump hi ≠ "" → h ≠ "" → route view (hi_Jump hi) chain →
    route view h (chain ++ [h]).

Lemma route_functional view h c1 c2 : route view h c1 → route view h c2 → c1 = c2.
Proof.
  intros H. revert c2. induction H; inversion 1; simplify_eq; try done. by erewrite IHroute.
Qed.

Lemma route_part view h c x : route view h c → x ∈ c → ∃ c1 c2, c = c1 ++ c2 ∧ route view x c1.
Proof.
  induction 1 as [h hi Hh Hj Hne|h hi c Hh Hj Hne Hr IH]; intros Hx.
  - apply list_elem_of_singleton in Hx as ->. exists [h], []. split; [done|]. by econstructor.
  - apply elem_of_app in Hx as [Hx|Hx].
    + destruct (IH Hx) as (c1 & c2 & -> & ?). exists c1, (c2 ++ [h]). by rewrite app_assoc.
    + apply list_elem_of_singleton in Hx as ->. exists (c ++ [h]), []. rewrite app_nil_r. split; [done|]. by econstructor.
Qed.

Lemma route_last view h c : route view h c → last c = Some h.
Proof. destruct 1; [done|apply last_snoc]. Qed.

(** A route never visits a host twice. *)
Lemma route_NoDup view h c : route view h c → NoDup c.
Proof.
  induction 1 as [h hi Hh Hj Hne|h hi c Hh Hj Hne Hr IH]; [apply NoDup_singleton|].
  apply NoDup_app. split_and!; [done| |apply NoDup_singleton].
  intros x Hx ->%list_elem_of_singleton. destruct (route_part _ _ _ _ Hr Hx) as (c1 & c2 & -> & H1).
  assert (Hv : route view h ((c1 ++ c2) ++ [h])) by by econstructor.
  pose proof (f_equal length (route_functional _ _ _ _ H1 Hv)) as Hlen. rewrite !length_app in Hlen. simpl in Hlen. lia.
Qed.

(** ** The walk *)

(** The hosts a method sees: the cache, or the configuration in local mode. *)
Definition seen_hosts (e : Engine) (cache : gmap string HostInfo) : gmap string HostInfo :=
  if e_remote e then cache else local_info <$> e_Hosts e.

(** The handler answers host lookups from [cache], which they leave as it is. *)
Definition stable {S : Type} (h : handler S) (cache : gmap string HostInfo) : Prop :=
  ∀ name s, h _ (CachedHost name) s = (s, cache !! name).

Lemma run_hostInfo {S : Type} (h : handler S) cache e name s :
  stable h cache → run h (hostInfo e name) s = (s, seen_hosts e cache !! name).
Proof.
  intros Hst. unfold hostInfo, seen_hosts. destruct (e_remote e); simpl; [by rewrite Hst|].
  rewrite lookup_fmap. by destruct (e_Hosts e !! name).
Qed.

(** The pure loop. *)
Fixpoint walk (view : gmap string HostInfo) (fuel : nat) (cur : string) (seen : gset string) (chain : list string) :
    result engine_error (list string) :=
  if bool_decide (cur = "") then Ok chain
  else match fuel with
  | O => Err EChainFuel
  | S fuel' =>
      if bool_decide (cur ∈ seen) then Err (EBastionCycle cur)
      else match view !! cur with
      | None => Err (EUnknownInChain cur)
      | Some h => walk view fuel' (hi_Jump h) ({[cur]} ∪ seen) (cur :: chain)
      end
  end.

Lemma run_chain {S : Type} (h : handler S) cache e fuel cur seen chain s :
  stable h cache → run h (chain_loop e fuel cur seen chain) s = (s, walk (seen_hosts e cache) fuel cur seen chain).
Proof.
  intros Hst. revert cur seen chain. induction fuel as [|fuel IH]; intros cur seen chain; simpl.
  { by case_bool_decide. }
  case_bool_decide; [done|]. case_bool_decide; [done|]. rewrite run_bind, (run_hostInfo h cache) by done.
  destruct (seen_hosts e cache !! cur); [apply IH|done].
Qed.

(** With more fuel than unseen hosts the walk ends, and it ends well exactly
    when the remaining hosts form a route of unseen hosts. *)
Lemma route_walk_spec view fuel cur seen chain :
  seen ⊆ dom view → (size view < fuel + size seen)%nat → cur ≠ "" →
  walk view fuel cur seen chain ≠ Err EChainFuel ∧
  (∀ r, walk view fuel cur seen chain = Ok r → ∃ c, r = c ++ chain ∧ route view cur c) ∧
  (∀ c, route view cur c → (∀ x, x ∈ c → x ∉ seen) → walk view fuel cur seen chain = Ok (c ++ chain)).
Proof.
  revert cur seen chain. induction fuel as [|fuel IH]; intros cur seen chain Hsub Hsz Hne.
  { exfalso. pose proof (subseteq_size seen (dom view) Hsub) as H. rewrite size_dom in H. lia. }
  simpl. rewrite bool_decide_eq_false_2 by done. case_bool_decide as Hseen.
  { split_and!; [done|done|]. intros c Hr Hd. exfalso. apply (Hd cur); [|done].
    destruct Hr; [by left|]. apply elem_of_app. right. by left. }
  destruct (view !! cur) as [hi|] eqn:Hv.
  2:{ split_and!; [done|done|]. intros c Hr. destruct Hr; congruence. }
  destruct (decide (hi_Jump hi = "")) as [Hj|Hj].
  { rewrite Hj. destruct fuel; simpl; (split_and!; [done| |]).
    all: try (intros r [= <-]; exists [cur]; split; [done|]; by econstructor).
    all: intros c Hr _; inversion Hr; simplify_eq; done. }
  assert (Hsub' : {[cur]} ∪ seen ⊆ dom view).
  { apply union_subseteq. split; [|done]. apply singleton_subseteq_l, elem_of_dom. by exists hi. }
  destruct (IH (hi_Jump hi) ({[cur]} ∪ seen) (cur :: chain)) as (H1 & H2 & H3); [done| |done|].
  { rewrite size_union, size_singleton by set_solver. lia. }
  split_and!; [done| |].
  - intros r Hr. destruct (H2 r Hr) as (c & -> & Hc). exists (c ++ [cur]). rewrite <-app_assoc. split; [done|].
    by apply (route_via _ _ hi).
  - intros c Hr Hd. inversion Hr as [?? Hh|? hi' c' Hh Hj' _ Hr']; subst; [congruence|]. assert (hi' = hi) as -> by congruence.
    rewrite (H3 c'); [by rewrite <-app_assoc|done|]. intros x Hx [->%elem_of_singleton|?]%elem_of_union.
    + pose proof (route_NoDup _ _ _ Hr) as (_ & Hn & _)%NoDup_app. apply (Hn cur); [done|by left].
    + apply (Hd x); [|done]. apply elem_of_app. by left.
Qed.

Lemma walk_errors view fuel cur seen chain x :
  walk view fuel cur seen chain = Err x → x = EChainFuel ∨ ∃ y, x = EBastionCycle y ∨ x = EUnknownInChain y.
Proof.
  revert cur seen chain. induction fuel as [|fuel IH]; intros cur seen chain; simpl.
  { case_bool_decide; [done|]. intros [= <-]. by left. }
  case_bool_decide; [done|]. case_bool_decide; [intros [= <-]; eauto|].
  destruct (view !! cur); [apply IH|]. intros [= <-]. eauto.
Qed.

(** Finding the route to a host always terminates, whatever the [Jump]
    fields say: on a host view that stays as it is during the call, fuel for one
    step more than there are hosts is enough, the answer is the route exactly
    when there is one, and a view with a bastion cycle or a dangling bastion on
    the way is reported as such. *)
Theorem resolveChain_terminates {S : Type} (h : handler S) cache e fuel host s :
  stable h cache → (size (seen_hosts e cache) < fuel)%nat → host ≠ "" →
  ∃ r, run h (resolveChain fuel e host) s = (s, r) ∧
  (∀ chain, r = Ok chain ↔ route (seen_hosts e cache) host chain) ∧
  ((∀ chain, ¬ route (seen_hosts e cache) host chain) →
     ∃ x, r = Err (EBastionCycle x) ∨ r = Err (EUnknownInChain x)).
Proof.
  intros Hst Hf Hne. unfold resolveChain. rewrite (run_chain h cache) by done. eexists. split; [done|].
  set (view := seen_hosts e cache) in *.
  destruct (route_walk_spec view fuel host ∅ []) as (H1 & H2 & H3); [apply empty_subseteq|rewrite size_empty; lia|done|].
  split.
  - intros chain. split.
    + intros Hr. destruct (H2 _ Hr) as (c & -> & Hc). by rewrite app_nil_r.
    + intros Hr. rewrite (H3 chain Hr); [by rewrite app_nil_r|]. intros x _. apply not_elem_of_empty.
  - intros Hno. destruct (walk view fuel host ∅ []) as [r|x] eqn:Hw.
    { destruct (H2 r eq_refl) as (c & _ & Hc). by destruct (Hno c). }
    pose proof (walk_errors view fuel host ∅ [] x Hw) as [->|[y [->| ->]]]; [done|exists y; auto..].
Qed.

(** ** The signature of a route *)

(** The physical fields of a hop: what a connection depends on. *)
Definition physical (kv : string * HostInfo) : string * string * string * string * string :=
  (kv.1, hi_Addr kv.2, hi_User kv.2, hi_HostKey kv.2, hi_Jump kv.2).

Fixpoint chain_signature (l : list (string * HostInfo)) : string :=
  match l with [] => "" | (n, h) :: l' => hop_signature n h +:+ chain_signature l' end.

Lemma colon_absent n : ContainsByte (FormatInt n) ":"%char = false.
Proof.
  unfold ContainsByte. pose proof (FormatInt_chars n) as H. induction (FormatInt n) as [|c s IH]; [done|].
  cbn [forall_char exists_char] in *. apply andb_true_iff in H as [Hc Hs]. rewrite (IH Hs), orb_false_r.
  apply not_true_is_false. intros <-%ascii_eqb_eq. by vm_compute in Hc.
Qed.

(** A part carries its length, so it is followed by exactly what comes next. *)
Lemma writeSignaturePart_inj s t r r' :
  writeSignaturePart s +:+ r = writeSignaturePart t +:+ r' → s = t ∧ r = r'.
Proof.
  unfold writeSignaturePart. rewrite !String_append_assoc. intros H.
  apply (f_equal (fun x => Cut x ":"%char)) in H. cbn [String.append] in H. rewrite !Cut_app in H by apply colon_absent.
  pose proof (f_equal (fun x => x.1.1) H) as Hn. pose proof (f_equal (fun x => x.1.2) H) as Hr. simpl in Hn, Hr.
  apply (inj pretty), Nat2Z.inj in Hn. by apply String_append_inj_len in Hr.
Qed.

Lemma hop_signature_inj n h n' h' r r' :
  hop_signature n h +:+ r = hop_signature n' h' +:+ r' → physical (n, h) = physical (n', h') ∧ r = r'.
Proof.
  unfold hop_signature, physical. cbn [fst snd]. rewrite !String_append_assoc.
  intros (-> & (-> & (-> & (-> & (-> & H)%writeSignaturePart_inj)%writeSignaturePart_inj)%writeSignaturePart_inj)%writeSignaturePart_inj)%writeSignaturePart_inj.
  apply String_append_inj_l in H. done.
Qed.

Lemma writeSignaturePart_nonempty s : writeSignaturePart s ≠ "".
Proof. unfold writeSignaturePart. by destruct (FormatInt _). Qed.

Lemma hop_signature_nonempty n h r : hop_signature n h +:+ r ≠ "".
Proof.
  unfold hop_signature. pose proof (writeSignaturePart_nonempty n). by destruct (writeSignaturePart n).
Qed.

Lemma signature_physical l l' : chain_signature l = chain_signature l' → map physical l = map physical l'.
Proof.
  revert l'. induction l as [|[n h] l IH]; intros [|[n' h'] l']; simpl; [done|..].
  - intros H. by destruct (hop_signature_nonempty n' h' (chain_signature l')).
  - intros H. by destruct (hop_signature_nonempty n h (chain_signature l)).
  - intros [-> ?]%hop_signature_inj. f_equal. auto.
Qed.

Lemma run_signature_loop {S : Type} (h : handler S) cache e names b s sig :
  stable h cache → run h (signature_loop e names b) s = (s, Ok sig) →
  ∃ l, l.*1 = names ∧ Forall (fun kv => seen_hosts e cache !! kv.1 = Some kv.2) l ∧ sig = b +:+ chain_signature l.
Proof.
  intros Hst. revert b. induction names as [|n names IH]; intros b; simpl.
  { intros [= <-]. exists []. rewrite String_append_nil. by repeat constructor. }
  rewrite run_bind, (run_hostInfo h cache) by done. destruct (seen_hosts e cache !! n) as [hi|] eqn:Hn; [|done].
  intros (l & <- & Hl & ->)%IH. exists ((n, hi) :: l). simpl. rewrite String_append_assoc. by repeat constructor.
Qed.

Lemma run_signature {S : Type} (h : handler S) cache e fuel host s sig :
  stable h cache → (size (seen_hosts e cache) < fuel)%nat → host ≠ "" →
  run h (connectivitySignature fuel e host) s = (s, Ok sig) →
  ∃ l, route (seen_hosts e cache) host l.*1 ∧ Forall (fun kv => seen_hosts e cache !! kv.1 = Some kv.2) l ∧ sig = chain_signature l.
Proof.
  intros Hst Hf Hne. unfold connectivitySignature, ebind, resolveChain.
  rewrite run_bind, (run_chain h cache) by done.
  destruct (route_walk_spec (seen_hosts e cache) fuel host ∅ []) as (_ & H2 & _); [apply empty_subseteq|rewrite size_empty; lia|done|].
  destruct (walk _ fuel host ∅ []) as [chain|]; [|done]. destruct (H2 chain eq_refl) as (c & -> & Hc). rewrite app_nil_r.
  intros (l & <- & Hl & ->)%(run_signature_loop h cache); [|done]. by exists l.
Qed.

(** A connectivity signature determines the route: if the signatures of two
    hosts, computed on two host views, are equal, then the hosts are the same
    and so are their routes, hop by hop: names, addresses, users, host keys and
    bastions, whatever bytes those hold. *)
Theorem connectivity_signature_injective {S : Type} (h h' : handler S) cache cache' e e' fuel host host' s sig :
  stable h cache → stable h' cache' → (size (seen_hosts e cache) < fuel)%nat → (size (seen_hosts e' cache') < fuel)%nat →
  host ≠ "" → host' ≠ "" →
  run h (connectivitySignature fuel e host) s = (s, Ok sig) → run h' (connectivitySignature fuel e' host') s = (s, Ok sig) →
  host = host' ∧ ∃ l l',
    route (seen_hosts e cache) host l.*1 ∧ Forall (fun kv => seen_hosts e cache !! kv.1 = Some kv.2) l ∧
    route (seen_hosts e' cache') host' l'.*1 ∧ Forall (fun kv => seen_hosts e' cache' !! kv.1 = Some kv.2) l' ∧
    map physical l = map physical l'.
Proof.
  intros Hst Hst' Hf Hf' Hne Hne' H1 H2.
  destruct (run_signature _ _ _ _ _ _ _ Hst Hf Hne H1) as (l & R1 & F1 & ->).
  destruct (run_signature _ _ _ _ _ _ _ Hst' Hf' Hne' H2) as (l' & R2 & F2 & Hsig).
  pose proof (signature_physical _ _ Hsig) as Hp. split; [|by exists l, l'].
  apply (f_equal (map (fun x => x.1.1.1.1))) in Hp. rewrite !map_map in Hp. simpl in Hp.
  apply route_last in R1, R2. change (map (fun x => x.1) l) with (l.*1) in Hp. change (map (fun x => x.1) l') with (l'.*1) in Hp.
  congruence.
Qed.

(** ** Examples *)

Definition demo_host (addr jump : string) : HostInfo := mkHostInfo addr "ops" "ssh-ed25519 AAAA" jump false false false [].
Definition demo_hosts : gmap string HostInfo :=
  {["web1" := demo_host "10.0.0.5:22" "jump2"; "jump2" := demo_host "10.0.0.2:22" "jump1";
    "jump1" := demo_host "198.51.100.1:22" ""; "loop" := demo_host "10.0.0.9:22" "loop"]}.
Definition remote_engine : Engine := mkEngine ∅ "" true (900 * Second) true "broker1" "" false 0.

(** Answers host lookups, and nothing else. *)
Definition cache_handler (cache : gmap string HostInfo) : handler unit := fun X c s =>
  match c in call X return unit * X with
  | CachedHost name => (s, cache !! name)
  | Now => (s, 0)
  | LastHostRefresh => (s, None)
  | FetchHosts => (s, None)
  | StoreHosts _ _ => (s, ())
  | CachedCluster _ => (s, None)
  | HostKeyLoad _ => (s, None)
  | HostKeyParse l => (s, Some l)
  | HostKeyStore _ _ => (s, ())
  | HostKeyPrune => (s, ())
  | FetchRevocations => (s, None)
  | SignIntentCall _ => (s, Err ErrSignerUnavailable)
  | GenerateEphemeralKey => (s, None)
  | NewSessionID => (s, "")
  | Dial _ => (s, None)
  | ExecOnce _ _ _ _ => (s, None)
  | OpenShell _ _ _ => (s, None)
  | ShellExec _ _ => (s, None)
  | OpenRecording _ => (s, false)
  | CloseRecorder _ | CloseConn _ | CloseShell _ => (s, ())
  | SessionAdd _ => (s, Err EGlobalLimit)
  | SessionRemove _ => (s, ())
  | SessionCheckout _ _ _ _ => (s, NotFound)
  | SessionCheckin _ _ => (s, ())
  | SessionRemoveOwned _ _ => (s, NotFound)
  | SessionReap _ => (s, [])
  | SessionKill _ => (s, [])
  | SessionCloseAll => (s, [])
  | SessionCloseOnce _ => (s, false)
  | K8sClient _ _ _ => (s, false)
  | K8sRequest _ _ _ _ _ => (s, None)
  | Append _ => (s, false)
  end.

Example demo_routes :
  (run (cache_handler demo_hosts) (resolveChain 5 remote_engine "web1") ()).2 = Ok ["jump1"; "jump2"; "web1"] ∧
  (run (cache_handler demo_hosts) (resolveChain 5 remote_engine "loop") ()).2 = Err (EBastionCycle "loop").
Proof. split; vm_compute; reflexivity. Qed.

Lemma resolveChain_terminates_witness :
  ∃ r, run (cache_handler demo_hosts) (resolveChain 5 remote_engine "web1") () = ((), r) ∧
    ∀ chain, r = Ok chain ↔ route demo_hosts "web1" chain.
Proof.
  destruct (resolveChain_terminates (cache_handler demo_hosts) demo_hosts remote_engine 5 "web1" ())
    as (r & Hr & Hc & _); [by intros name []|vm_compute; lia|discriminate|].
  exists r. split; [exact Hr|exact Hc].
Defined.

Lemma connectivity_signature_injective_witness :
  ∃ sig, run (cache_handler demo_hosts) (connectivitySignature 5 remote_engine "web1") () = ((), Ok sig) ∧ "web1" = "web1".
Proof.
  eexists. split; [vm_compute; reflexivity|].
  refine (proj1 (connectivity_signature_injective (cache_handler demo_hosts) (cache_handler demo_hosts) demo_hosts demo_hosts
    remote_engine remote_engine 5 "web1" "web1" () _ _ _ _ _ _ _ _ _));
    [by intros name []|by intros name []|vm_compute; lia|vm_compute; lia|discriminate|discriminate|vm_compute; reflexivity..].
Defined.
