(* ===== verification/EngineSessions.v ===== *)
(** * Sessions in the engine

    [internal/broker/session.go] and the kill-switch part of [engine.go]: the
    methods that open, use, close, reap and kill sessions. *)

From S2P Require Import Prelude GoStrings CmdPolicy PolicySet Encoding K8sAction Intent Freeze CA Elevate HostPolicy Signer Sessions Revocation Prog Broker Engine.

(** ** Teardown *)

(** The body of [closeOnce]: recorder, connection, shell. *)
Definition close_handles (s : liveSession) : prog unit :=
  (if ls_recorder s then call_ (CloseRecorder (ls_id s)) else Ret tt) ;;;
  call_ (CloseConn (ls_conn s)) ;;;
  match ls_shell s with Some sh => call_ (CloseShell sh) | None => Ret () end.

(** [s.close()] of a published session. *)
Definition close (p : ptr) (s : liveSession) : prog unit :=
  first <- call_ (SessionCloseOnce p) ;;
  if first then close_handles s else Ret ().

Fixpoint for_sessions {A : Type} (body : ptr → liveSession → A → prog unit) (l : list (ptr * liveSession * A)) : prog unit :=
  match l with
  | [] => Ret ()
  | (p, s, a) :: l' => body p s a ;;; for_sessions body l'
  end.

Section sessions.
Context `{SP : ShellParser} (fuel : nat) (e : Engine).

(** A record about a session written without a [Caller] at hand. *)
Definition session_entry (s : liveSession) (outcome : string) (err : record_err) : entry :=
  with_session (ls_id s) (with_serial (ls_serial s)
    (basic_entry (mkCaller (ls_caller s) None "" (ls_context s)) (ls_host s) "" outcome err)).

(** One tick of the reaper. *)
Definition reap (now : time) : prog unit :=
  victims <- call_ (SessionReap now) ;;
  for_sessions (fun p s r => close p s ;;; auditE e (session_entry s "session_close" (ErrReap r)) ;;; Ret ()) victims.

Definition enforceRevocations (frozen : list FrozenEntry) : prog unit :=
  match revocationPredicate frozen (e_ownIdentity e) with
  | None => Ret ()
  | Some pred =>
      victims <- call_ (SessionKill pred) ;;
      for_sessions (fun p s _ => close p s) victims ;;;
      for_sessions (fun _ s _ => auditE e (session_entry s "session_killed" ErrFrozen) ;;; Ret ()) victims
  end.
Definition pollRevocationsOnce : prog unit :=
  r <- call_ FetchRevocations ;;
  match r with
  | None => Ret ()
  | Some frozen => _ <- call_ Now ;; enforceRevocations frozen
  end.

(** The session part of [Close]. *)
Definition shutdown : prog unit :=
  victims <- call_ SessionCloseAll ;;
  for_sessions (fun p s _ => close p s) victims ;;;
  for_sessions (fun _ s _ => auditE e (session_entry s "session_close" ErrShutdown) ;;; Ret ()) victims.

(** ** Opening *)

Definition with_shell (sh : nat) (s : liveSession) : liveSession :=
  mkSession (ls_id s) (ls_caller s) (ls_context s) (ls_host s) (ls_serial s) (ls_mode s) (ls_conn s)
    (Some sh) (ls_created s) (ls_lastUsed s) (ls_certNotAfter s) (ls_busy s) "" (ls_elevLabel s)
    (ls_sudo s) (ls_sudoUser s) (ls_pty s) (ls_connectivitySig s) (ls_recorder s) (ls_closed s).
Definition with_recorder (s : liveSession) : liveSession :=
  mkSession (ls_id s) (ls_caller s) (ls_context s) (ls_host s) (ls_serial s) (ls_mode s) (ls_conn s)
    (ls_shell s) (ls_created s) (ls_lastUsed s) (ls_certNotAfter s) (ls_busy s) (ls_elevationPrefix s) (ls_elevLabel s)
    (ls_sudo s) (ls_sudoUser s) (ls_pty s) (ls_connectivitySig s) true (ls_closed s).

Definition shell_command (s : liveSession) : string :=
  if bool_decide (ls_elevationPrefix s ≠ "") then ls_elevationPrefix s +:+ " -- /bin/sh" else "/bin/sh".

(** [openShellForMode]: the session with its shell, whose process carries the
    elevation from now on. *)
Definition openShellForMode (s : liveSession) : prog (result engine_error liveSession) :=
  if bool_decide (ls_mode s = "shell") || bool_decide (ls_mode s = "pty") then
    r <- call_ (OpenShell (ls_conn s) (shell_command s) (bool_decide (ls_mode s = "pty"))) ;;
    match r with
    | None =>
        call_ (CloseConn (ls_conn s)) ;;;
        audit_fail e (with_session "" (session_entry s "error" (ErrOf (ErrUpstream UpShell)))) (ErrUpstream UpShell)
    | Some sh => Ret (Ok (with_shell sh s))
    end
  else Ret (Ok s).

Definition startSessionRecording (s : liveSession) : prog (result engine_error liveSession) :=
  if bool_decide (e_SessionRecordingDir e = "") || bool_decide (ls_shell s = None) then Ret (Ok s)
  else
    ok <- call_ (OpenRecording s) ;;
    if ok then Ret (Ok (with_recorder s))
    else if e_SessionRecordingStrict e then Ret (Err (ErrUpstream UpRecording))
    else Ret (Ok s).

Definition with_pty (opts : ExecOptions) : ExecOptions :=
  mkExecOptions (eo_Sudo opts) (eo_SudoUser opts) true (eo_DryRun opts) (eo_Approved opts) (eo_Stdin opts) (eo_FileTransfer opts).

(** [OpenSession]: the id and the serial of the session. *)
Definition OpenSession (c : Caller) (host mode0 : string) (ttlSeconds : Z) (opts0 : ExecOptions) :
    prog (result engine_error (string * Z)) :=
  r <- refreshHostsForNewConnection e ;;
  match r with
  | Err err => audit_fail e (basic_entry c host "" "error" (ErrOf err)) err
  | Ok _ =>
  hi <- hostInfo e host ;;
  match hi with
  | None => audit_fail e (basic_entry c host "" "denied" ErrUnknownHostText) (EUnknownTarget host)
  | Some _ =>
  let mode := if bool_decide (mode0 = "") then "exec" else mode0 in
  if bool_decide (mode ≠ "exec") && bool_decide (mode ≠ "shell") && bool_decide (mode ≠ "pty")
  then Ret (Err (EInvalidMode mode))
  else
  let opts := if bool_decide (mode = "pty") then with_pty opts0 else opts0 in
  b <- buildHopsWithPrefix fuel e c (ttlFor e ttlSeconds) PurposeSession mode opts host ;;
  match b with
  | Err err => audit_fail e (basic_entry c host "" (signFailureOutcome err) (ErrOf err)) (classifySignErr err)
  | Ok sh =>
  cn <- call_ (Dial (sh_hops sh)) ;;
  match cn with
  | None => audit_fail e (with_serial (sh_serial sh) (basic_entry c host "" "error" (ErrOf (ErrUpstream UpConnect))))
              (ErrUpstream UpConnect)
  | Some cn =>
  id <- call_ NewSessionID ;;
  created <- call_ Now ;;
  used <- call_ Now ;;
  let s0 := mkSession id (who_ID c) (who_Context c) host (sh_serial sh) mode cn None created used (sh_notAfter sh) 0
              (sh_prefix sh) (elevationLabel opts) (eo_Sudo opts) (eo_SudoUser opts) (eo_PTY opts) (sh_sig sh) false false in
  s1 <~ openShellForMode s0 ;;
  rec <- startSessionRecording s1 ;;
  match rec with
  | Err err =>
      close_handles s1 ;;;
      audit_fail e (with_serial (sh_serial sh) (basic_entry c host "" "error" (ErrOf err))) err
  | Ok s =>
  a <- call_ (SessionAdd s) ;;
  match a with
  | Err x =>
      close_handles s ;;;
      audit_fail e (with_serial (sh_serial sh) (basic_entry c host "" "denied" (ErrOf (ESessionLimit x)))) (ESessionLimit x)
  | Ok p =>
  r <- auditE e (with_run 0 (elevationLabel opts) (eo_PTY opts) RuleNone None ""
         (with_session (ls_id s) (with_serial (sh_serial sh) (basic_entry c host ("mode=" +:+ mode) "session_open" NoErr)))) ;;
  match r with
  | Some err => call_ (SessionRemove (ls_id s)) ;;; close p s ;;; Ret (Err err)
  | None => Ret (Ok (ls_id s, sh_serial sh))
  end end end end end end end.

(** ** Using *)

Definition preflight_bastion (c : Caller) (name pub : string) : Intent :=
  mkIntent localCaller name "" None RoleBastion PurposeSession "" "" (e_maxTTL e) pub false "" false false true true
    false "" (who_ID c) (who_Groups c) (who_Context c) (who_RawToken c) 0 "" "".

Fixpoint bastions_loop (c : Caller) (pub : string) (names : list string) : prog (result engine_error unit) :=
  match names with
  | [] => Ret (Ok ())
  | name :: rest =>
      r <- call_ (SignIntentCall (preflight_bastion c name pub)) ;;
      match r with
      | Err x => Ret (Err (classifySignErr (ESignFailed name x)))
      | Ok issued =>
          match is_Decision issued with
          | None => Ret (Err (EBastionNoDecision name))
          | Some dec =>
              if negb (di_Allowed dec) then Ret (Err (EBastionNotAllowed name (di_Reason dec)))
              else if di_RequireApproval dec then Ret (Err (EBastionApproval name))
              else bastions_loop c pub rest
          end
      end
  end.

Definition authorizeSessionBastions (c : Caller) (host : string) : prog (result engine_error unit) :=
  chain <~ resolveChain fuel e host ;;
  if (length chain <=? 1)%nat then Ret (Ok ())
  else
    kp <- call_ GenerateEphemeralKey ;;
    match kp with
    | None => Ret (Err EKeygen)
    | Some (_, pub) => bastions_loop c pub (removelast chain)
    end.

Definition session_mode (mode : string) : string :=
  if bool_decide (mode = "shell") then SessionModeShell
  else if bool_decide (mode = "pty") then SessionModePTY else SessionModeExec.

Definition preflight_command (c : Caller) (s : liveSession) (command pub : string) : Intent :=
  mkIntent localCaller (ls_host s) "" None RoleTarget PurposeSession (session_mode (ls_mode s)) command (e_maxTTL e) pub
    (ls_sudo s) (ls_sudoUser s) (ls_pty s) false true true false "" (who_ID c) (who_Groups c) (who_Context c)
    (who_RawToken c) 0 "" "".

(** What [authorizeSessionExec] returns on failure: the decision, if there was
    one, and the error. *)
Definition authorization : Type := result (option DecisionInfo * engine_error) (option DecisionInfo * string).

Definition connectivity_check (c : Caller) (s : liveSession) : prog (result engine_error unit) :=
  if bool_decide (ls_connectivitySig s ≠ "") then
    current <~ currentConnectivitySignature fuel e (ls_host s) ;;
    if bool_decide (current ≠ ls_connectivitySig s) then Ret (Err (EConnectivityChanged (ls_host s)))
    else authorizeSessionBastions c (ls_host s)
  else Ret (Ok ()).

Definition decide_command (host : string) (r : result sgn_error Issued) : authorization :=
  match r with
  | Err x => Err (None, classifySignErr (ESignFailed host x))
  | Ok issued =>
      match is_Decision issued with
      | None => Ok (None, is_Envelope issued)
      | Some dec =>
          if negb (di_Allowed dec) then Err (Some dec, ESessionNotAllowed (di_MatchedRule dec) (di_Reason dec))
          else if di_RequireApproval dec then Err (Some dec, ESessionApproval (di_MatchedRule dec))
          else Ok (Some dec, is_Envelope issued)
      end
  end.

Definition authorizeSessionExec (c : Caller) (s : liveSession) (command : string) : prog authorization :=
  pre <- connectivity_check c s ;;
  match pre with
  | Err err => Ret (Err (None, err))
  | Ok _ =>
      kp <- call_ GenerateEphemeralKey ;;
      match kp with
      | None => Ret (Err (None, EKeygen))
      | Some (_, pub) =>
          r <- call_ (SignIntentCall (preflight_command c s command pub)) ;;
          Ret (decide_command (ls_host s) r)
      end
  end.

Definition is_upstream (err : engine_error) : bool := match err with ErrUpstream _ => true | _ => false end.

(** First control byte of a command, [b < 0x20 || b == 0x7f]. *)
Definition is_control (b : ascii) : bool := (byte_of b <? 32) || (byte_of b =? 127).
Definition control_byte (command : string) : option ascii := list_find_first is_control (bytes command).

Definition effective_command (s : liveSession) (command envelope : string) : string :=
  if bool_decide (envelope ≠ "") then envelope
  else if bool_decide (ls_mode s = "exec") && bool_decide (ls_elevationPrefix s ≠ "")
  then BuildElevatedCommand (ls_elevationPrefix s) command
  else command.

(** The records of a session command. *)
Definition exec_entry (c : Caller) (s : liveSession) (sessionID command outcome : string) (err : record_err) : entry :=
  with_session sessionID (with_serial (ls_serial s) (basic_entry c (ls_host s) command outcome err)).
Definition exec_refused (c : Caller) (s : liveSession) (sessionID command outcome : string) (dec : option DecisionInfo)
    (err : engine_error) : entry :=
  with_run 0 (ls_elevLabel s) (ls_pty s) (decisionRule dec) (decisionWarning dec) ""
    (exec_entry c s sessionID command outcome (ErrOf err)).

(** What [SessionExec] does with a session it has checked out. A shell or pty
    session always has its shell (no session is published without it). *)
Definition session_command (c : Caller) (s : liveSession) (sessionID command : string) : prog (result engine_error Result) :=
  if bool_decide (command = "") then Ret (Err ECommandRequired)
  else if (bool_decide (ls_mode s = "shell") || bool_decide (ls_mode s = "pty")) && ContainsAny command (string_of_bytes [10; 13])
  then Ret (Err ENewlines)
  else if bool_decide (ls_mode s = "pty") && (MaxPTYCommandBytes <? Z.of_nat (String.length command)) then
    let err := ErrBadRequest (BadPTYLength (Z.of_nat (String.length command))) in
    audit_fail e (exec_refused c s sessionID command "session_exec_denied" None err) err
  else match (if bool_decide (ls_mode s = "pty") then control_byte command else None) with
  | Some b =>
      let err := ErrBadRequest (BadControlByte (byte_of b)) in
      audit_fail e (exec_refused c s sessionID command "session_exec_denied" None err) err
  | None =>
  auth <- authorizeSessionExec c s command ;;
  match auth with
  | Err (dec, err) =>
      audit_fail e (exec_refused c s sessionID command (if is_upstream err then "error" else "session_exec_denied") dec err) err
  | Ok (dec, envelope) =>
  res <- (if bool_decide (ls_mode s = "shell") || bool_decide (ls_mode s = "pty")
          then match ls_shell s with Some sh => call_ (ShellExec sh command) | None => Ret None end
          else call_ (ExecOnce (ls_conn s) (effective_command s command envelope) (ls_pty s) "")) ;;
  match res with
  | None => audit_fail e (exec_entry c s sessionID command "error" (ErrOf (ErrUpstream UpExec))) (ErrUpstream UpExec)
  | Some res =>
      audit_gate e
        (with_run (xr_ExitCode res) (ls_elevLabel s) (ls_pty s) (decisionRule dec) (decisionWarning dec) ""
           (exec_entry c s sessionID command "session_exec" NoErr))
        (mkResult (xr_Stdout res) (xr_Stderr res) (xr_ExitCode res) (ls_serial s) (decisionWarning dec) None)
  end end end.

Definition SessionExec (c : Caller) (sessionID command : string) : prog (result engine_error Result) :=
  now <- call_ Now ;;
  now' <- call_ Now ;;
  co <- call_ (SessionCheckout now now' sessionID (who_ID c)) ;;
  match co with
  | NotFound => Ret (Err (EUnknownSession sessionID))
  | NotOwned _ _ => Ret (Err (ENotSessionOwner sessionID))
  | Owned p s =>
      r <- session_command c s sessionID command ;;
      done <- call_ Now ;;
      call_ (SessionCheckin done p) ;;; Ret r
  end.

Definition CloseSession (c : Caller) (sessionID : string) : prog (result engine_error unit) :=
  co <- call_ (SessionRemoveOwned sessionID (who_ID c)) ;;
  match co with
  | NotFound => Ret (Err (EUnknownSession sessionID))
  | NotOwned _ _ => Ret (Err (ENotSessionOwner sessionID))
  | Owned p s =>
      close p s ;;;
      auditE e (exec_entry c s sessionID "" "session_close" NoErr) ;;; Ret (Ok ())
  end.
End sessions.
