(* ===== verification/EngineRun.v ===== *)
(** * What the engine does with a command

    Statements about every trace of the engine's methods: what is signed before
    a connection is made, what is authorised before a command is sent, what is
    recorded before a result is handed back. *)

From S2P Require Import Prelude GoStrings CmdPolicy PolicySet Encoding K8sAction Intent Freeze Grants CA Elevate HostPolicy Signer Sessions Revocation Prog Broker Engine Routes EngineSessions.

(** ** Quiet calls *)

(** Calls that send nothing to a target: host cache, keys, clock, signer,
    audit. *)
Inductive quiet : ∀ X, call X → Prop :=
| q_now : quiet _ Now
| q_host n : quiet _ (CachedHost n)
| q_cluster n : quiet _ (CachedCluster n)
| q_last : quiet _ LastHostRefresh
| q_fetch : quiet _ FetchHosts
| q_store h n : quiet _ (StoreHosts h n)
| q_kload l : quiet _ (HostKeyLoad l)
| q_kparse l : quiet _ (HostKeyParse l)
| q_kstore l k : quiet _ (HostKeyStore l k)
| q_kprune : quiet _ HostKeyPrune
| q_sign i : quiet _ (SignIntentCall i)
| q_gen : quiet _ GenerateEphemeralKey
| q_id : quiet _ NewSessionID
| q_append ent : quiet _ (Append ent).

Ltac quiet := repeat first
  [ exact I | apply only_bind; [|intros ?] | split; [constructor|intros ?] | intros ? | progress simpl
  | match goal with |- only _ (match ?x with _ => _ end) => destruct x end
  | match goal with |- only _ (if ?x then _ else _) => destruct x end ].

Section quiet_programs.
Context (fuel : nat) (e : Engine).

Lemma hostInfo_quiet n : only quiet (hostInfo e n).
Proof. unfold hostInfo. quiet. Qed.
Lemma refreshHostsNow_quiet : only quiet (refreshHostsNow e).
Proof. unfold refreshHostsNow. quiet. Qed.
Lemma refresh_quiet : only quiet (refreshHostsForNewConnection e).
Proof. unfold refreshHostsForNewConnection. quiet. apply refreshHostsNow_quiet. Qed.
Lemma auditE_quiet ent : only quiet (auditE e ent).
Proof. unfold auditE, appendAudit. apply only_bind; [apply hostInfo_quiet|intros hi]. quiet. Qed.
Lemma audit_fail_quiet {A : Type} ent err : only quiet (audit_fail e ent err : prog (result engine_error A)).
Proof. unfold audit_fail. apply only_bind; [apply auditE_quiet|]. quiet. Qed.
Lemma dryRun_quiet c host command ttl opts : only quiet (dryRun e c host command ttl opts).
Proof.
  unfold dryRun. quiet; apply hostInfo_quiet.
Qed.
End quiet_programs.

(** ** Hops *)

Section hop_facts.
Context (env : environment) (P : list obs → obs → Prop) (fuel : nat) (e : Engine).
Hypothesis Pquiet : ∀ h X (c : call X) x, quiet X c → P h (observe c x).

(** The engine has looked the host up. *)
Definition known (h : list obs) (name : string) (hi : HostInfo) : Prop :=
  if e_remote e then OHost name (Some hi) ∈ h else ∃ hc, e_Hosts e !! name = Some hc ∧ hi = local_info hc.

(** A hop to [name]: the address, the user and the pinned host key the engine
    knows for it, and a certificate the signer issued for the intent. *)
Definition hop_good (h : list obs) (intent : string → string → Intent) (name : string) (hi : HostInfo) (hop : Hop)
    (iss : Issued) : Prop :=
  ∃ pub, known h name hi ∧ hop_Addr hop = hi_Addr hi ∧ hop_User hop = hi_User hi ∧
    env_hostkey env (hi_HostKey hi) = Some (hop_HostKey hop) ∧
    OSign (intent name pub) (Ok iss) ∈ h ∧ env_sgn env (intent name pub) (Ok iss) ∧
    is_Certificate iss = Some (hop_Certificate hop).

Lemma known_app h t name hi : known h name hi → known (h ++ t) name hi.
Proof. unfold known. destruct (e_remote e); [|done]. rewrite elem_of_app. by left. Qed.

Lemma hop_good_app h t intent name hi hop iss : hop_good h intent name hi hop iss → hop_good (h ++ t) intent name hi hop iss.
Proof.
  intros (pub & ? & ? & ? & ? & ? & ? & ?). exists pub. split_and!; auto using known_app.
  rewrite elem_of_app. by left.
Qed.

Lemma safe_quiet {A : Type} (p : prog A) h (Q : list obs → A → Prop) :
  only quiet p → (∀ t a, Q (h ++ t) a) → safe env P h p Q.
Proof. intros. by eapply safe_only. Qed.

Lemma safe_qcall {X A : Type} (c : call X) (k : X → prog A) h Q :
  quiet X c → (∀ x, answers env c x → safe env P (h ++ [observe c x]) (k x) Q) →
  safe env P h (pbind (call_ c) k) Q.
Proof. intros Hq Hk. apply safe_call. intros x Hx. split; [by apply Pquiet|by apply Hk]. Qed.

Lemma hostInfo_safe name h (Q : list obs → option HostInfo → Prop) :
  (∀ t, Q (h ++ t) None) → (∀ t hi, known (h ++ t) name hi → Q (h ++ t) (Some hi)) → safe env P h (hostInfo e name) Q.
Proof.
  intros HN HS. unfold hostInfo. unfold known in HS. destruct (e_remote e).
  - simpl. intros x _. split; [apply (Pquiet h _ (CachedHost name) x); constructor|].
    destruct x as [hi|]; [|apply HN]. apply HS. rewrite elem_of_app. right. by left.
  - simpl. specialize (HN []). specialize (HS []). rewrite app_nil_r in *.
    destruct (e_Hosts e !! name) as [hc|]; [|done]. apply HS. by exists hc.
Qed.

Lemma parseHostKeyCached_safe line h (Q : list obs → option string → Prop) :
  (∀ t, Q (h ++ t) (env_hostkey env line)) → safe env P h (parseHostKeyCached line) Q.
Proof.
  intros HQ. unfold parseHostKeyCached. apply safe_qcall; [constructor|]. intros x [-> | ->]; [|apply HQ].
  apply safe_qcall; [constructor|]. intros y Hy. simpl in Hy. subst y. apply safe_qcall; [constructor|]. intros [] _.
  rewrite <-!app_assoc. apply HQ.
Qed.

Lemma sign_hop_safe opts name hi (intent : string → string → Intent) h (Q : list obs → result engine_error (Hop * Issued) → Prop) :
  known h name hi → (∀ t err, Q (h ++ t) (Err err)) →
  (∀ t hop iss, hop_good (h ++ t) intent name hi hop iss → Q (h ++ t) (Ok (hop, iss))) →
  safe env P h (sign_hop opts name hi (intent name)) Q.
Proof.
  intros Hk HE HQ. unfold sign_hop. apply safe_qcall; [constructor|].
  intros [[priv pub]|] _; [|apply HE]. apply safe_qcall; [constructor|].
  intros [iss|x] Hr; [|rewrite <-app_assoc; apply HE].
  destruct (is_Certificate iss) as [cert|] eqn:Hcert; [|rewrite <-app_assoc; apply HE].
  apply safe_bind, parseHostKeyCached_safe. intros t. rewrite <-!app_assoc.
  destruct (env_hostkey env (hi_HostKey hi)) as [k|] eqn:Hkey; [|apply HE]. simpl. apply HQ.
  exists pub. simpl. split_and!; auto using known_app. rewrite elem_of_app. right. right. by left.
Qed.

(** The walk along the bastions ends at the host it started from. *)
Lemma chain_loop_safe n cur seen chain h (Q : list obs → result engine_error (list string) → Prop) :
  (∀ t err, Q (h ++ t) (Err err)) →
  (∀ t pre, (cur = "" ∧ pre = []) ∨ last pre = Some cur → Q (h ++ t) (Ok (pre ++ chain))) →
  safe env P h (chain_loop e n cur seen chain) Q.
Proof.
  revert cur seen chain h. induction n as [|n IH]; intros cur seen chain h HE HQ; simpl; case_bool_decide as Hc.
  1,3: specialize (HQ [] []); rewrite app_nil_r in HQ; simpl in *; apply HQ; by left.
  { specialize (HE []). rewrite app_nil_r in HE. apply HE. }
  case_bool_decide; [specialize (HE []); rewrite app_nil_r in HE; apply HE|].
  apply safe_bind, hostInfo_safe; [intros t; simpl; apply HE|]. intros t hi Hk. apply IH.
  - intros t' err. rewrite <-app_assoc. apply HE.
  - intros t' pre Hpre. rewrite <-app_assoc. replace (pre ++ cur :: chain) with ((pre ++ [cur]) ++ chain) by by rewrite <-app_assoc.
    apply HQ. right. apply last_snoc.
Qed.

Lemma resolveChain_safe host h (Q : list obs → result engine_error (list string) → Prop) :
  (∀ t err, Q (h ++ t) (Err err)) →
  (∀ t chain, (host = "" ∧ chain = []) ∨ last chain = Some host → Q (h ++ t) (Ok chain)) →
  safe env P h (resolveChain fuel e host) Q.
Proof.
  intros HE HQ. apply chain_loop_safe; [done|]. intros t pre Hp. rewrite app_nil_r. by apply HQ.
Qed.

(** An audit in fail-closed mode succeeds only with its record written. *)
Lemma auditE_safe ent h (Q : list obs → option engine_error → Prop) :
  (∀ t err, Q (h ++ t) (Some err)) →
  (∀ t, (e_auditFailClosed e = true → ∃ u, OAppend (with_user u ent) true ∈ h ++ t) → Q (h ++ t) None) →
  safe env P h (auditE e ent) Q.
Proof.
  intros HE HQ. unfold auditE, appendAudit.
  assert (Hap : ∀ t u, safe env P (h ++ t) (pbind (call_ (Append (with_user u ent)))
     (fun ok => Ret (if negb ok && e_auditFailClosed e then Some ErrAuditUnavailable else None))) Q).
  { intros t u. apply safe_qcall; [constructor|]. intros ok _. simpl. rewrite <-app_assoc.
    destruct ok; simpl.
    - apply HQ. intros _. exists u. rewrite !elem_of_app. right. right. by left.
    - destruct (e_auditFailClosed e); [apply HE|]. by apply HQ. }
  apply safe_bind, hostInfo_safe; intros t; [|intros hi _].
  - specialize (Hap t (en_User ent)). by destruct ent.
  - case_bool_decide; [apply Hap|]. specialize (Hap t (en_User ent)). by destruct ent.
Qed.

(** The hops of a chain: bastions, then the target. *)
Definition bastions_good (h : list obs) (bi : string → string → Intent) : list string → list Hop → Prop :=
  Forall2 (fun n hop => ∃ hi iss, hop_good h bi n hi hop iss).
Definition hops_good (h : list obs) (bi ti : string → string → Intent) (chain : list string) (hops : list Hop) (iss : Issued) : Prop :=
  ∃ bs bhops tgt hi hop, chain = bs ++ [tgt] ∧ hops = bhops ++ [hop] ∧ bastions_good h bi bs bhops ∧ hop_good h ti tgt hi hop iss.

Lemma bastions_good_app h t bi bs hops : bastions_good h bi bs hops → bastions_good (h ++ t) bi bs hops.
Proof. intros H. eapply Forall2_impl; [exact H|]. intros n hop (hi & iss & ?). exists hi, iss. by apply hop_good_app. Qed.
Lemma hops_good_app h t bi ti chain hops iss : hops_good h bi ti chain hops iss → hops_good (h ++ t) bi ti chain hops iss.
Proof.
  intros (bs & bh & tg & hi & hp & ? & ? & ? & ?). exists bs, bh, tg, hi, hp. split_and!; auto using bastions_good_app, hop_good_app.
Qed.

Definition bastion_of (c : Caller) (ttl : duration) (purpose : string) : string → string → Intent :=
  fun name pub => bastion_intent c name purpose ttl pub.
Definition oneshot_of (c : Caller) (ttl : duration) (command : string) (opts : ExecOptions) : string → string → Intent :=
  fun name pub => target_intent c name PurposeOneshot "" command ttl opts (eo_FileTransfer opts) pub.
Definition session_of (c : Caller) (ttl : duration) (mode : string) (opts : ExecOptions) : string → string → Intent :=
  fun name pub => target_intent c name PurposeSession mode "" ttl opts false pub.

Lemma hops_loop_safe c ttl command opts names dn acc ser dec h
    (Q : list obs → result engine_error (list Hop * Z * option DecisionInfo) → Prop) :
  bastions_good h (bastion_of c ttl PurposeOneshot) dn acc →
  (∀ t err, Q (h ++ t) (Err err)) → (names = [] → Q h (Ok (acc, ser, dec))) →
  (∀ t hops iss, hops_good (h ++ t) (bastion_of c ttl PurposeOneshot) (oneshot_of c ttl command opts) (dn ++ names) hops iss →
     Q (h ++ t) (Ok (hops, is_Serial iss, is_Decision iss))) →
  safe env P h (hops_loop e c ttl PurposeOneshot command opts names acc ser dec) Q.
Proof.
  revert dn acc h. induction names as [|name rest IH]; intros dn acc h Hacc HE H0 HQ; [by apply H0|].
  cbn [hops_loop]. apply safe_bind, hostInfo_safe; [intros t; apply HE|]. intros t hi Hk.
  apply safe_bind. case_bool_decide as Hrest.
  - subst rest. apply (sign_hop_safe opts name hi (oneshot_of c ttl command opts)); [done|intros ??; simpl; rewrite <-app_assoc; apply HE|].
    intros t' hop iss Hg. simpl. rewrite <-app_assoc in *. apply HQ.
    exists dn, acc, name, hi, hop. split_and!; auto using bastions_good_app.
  - apply (sign_hop_safe opts name hi (bastion_of c ttl PurposeOneshot)); [done|intros ??; simpl; rewrite <-app_assoc; apply HE|].
    intros t' hop iss Hg. rewrite <-app_assoc in *. apply (IH (dn ++ [name])).
    + apply Forall2_app; [by apply bastions_good_app|]. constructor; [by exists hi, iss|constructor].
    + intros t'' err. rewrite <-app_assoc. apply HE.
    + done.
    + intros t'' hops iss'. rewrite <-!app_assoc. simpl. apply HQ.
Qed.

Lemma buildHops_safe c ttl command opts host h
    (Q : list obs → result engine_error (list Hop * Z * option DecisionInfo) → Prop) :
  (∀ t err, Q (h ++ t) (Err err)) → (∀ t ser dec, Q (h ++ t) (Ok ([], ser, dec))) →
  (∀ t chain hops iss, last chain = Some host →
     hops_good (h ++ t) (bastion_of c ttl PurposeOneshot) (oneshot_of c ttl command opts) chain hops iss →
     Q (h ++ t) (Ok (hops, is_Serial iss, is_Decision iss))) →
  safe env P h (buildHops fuel e c ttl PurposeOneshot command opts host) Q.
Proof.
  intros HE H0 HQ. unfold buildHops, ebind. apply safe_bind, resolveChain_safe; [intros t err; apply HE|].
  intros t chain Hchain. apply (hops_loop_safe c ttl command opts chain []).
  - constructor.
  - intros t' err. rewrite <-app_assoc. apply HE.
  - intros _. apply H0.
  - intros t' hops iss. rewrite <-app_assoc. simpl. intros Hg. destruct Hchain as [[_ ->]|Hlast]; [|by apply (HQ _ chain)].
    destruct Hg as ([|??] & ? & ? & ? & ? & ? & _); done.
Qed.
End hop_facts.

(** ** One-shot execution *)

Section execute.
Context (env : environment) (fuel : nat) (e : Engine) (c : Caller) (host command : string) (ttlSeconds : Z) (opts : ExecOptions).
Let ttl : duration := ttlFor e ttlSeconds.

(** Before a command goes out: the connection was dialled through hops signed
    for this caller, the last of which is the host with a certificate the
    signer issued for exactly this command. *)
Definition sent_signed (h : list obs) (ob : obs) : Prop :=
  match ob with
  | OExec cn cmd pty stdin _ =>
      cmd = command ∧ pty = eo_PTY opts ∧ stdin = eo_Stdin opts ∧ eo_DryRun opts = false ∧
      ∃ chain hops iss, ODial hops (Some cn) ∈ h ∧ last chain = Some host ∧
        hops_good env e h (bastion_of c ttl PurposeOneshot) (oneshot_of c ttl command opts) chain hops iss
  | OShellExec _ _ _ | OOpenShell _ _ _ _ | OAdd _ _ | OK8sRequest _ _ _ _ _ => False
  | _ => True
  end.

Lemma sent_signed_quiet h X (cl : call X) x : quiet X cl → sent_signed h (observe cl x).
Proof. by destruct 1. Qed.

Lemma Execute_signed h : safe env sent_signed h (Execute fuel e c host command ttlSeconds opts) (fun _ _ => True).
Proof.
  assert (HA : ∀ A (p : prog A) h', only quiet p → safe env sent_signed h' p (fun _ _ => True)).
  { intros A p h' Ho. apply (safe_quiet env sent_signed sent_signed_quiet); done. }
  unfold Execute. apply safe_bind. apply (safe_quiet env sent_signed sent_signed_quiet); [apply refresh_quiet|].
  intros t [|err]; [|apply HA, audit_fail_quiet].
  apply safe_bind, (safe_quiet env sent_signed sent_signed_quiet); [apply hostInfo_quiet|].
  intros t' [hi|]; [|apply HA, audit_fail_quiet].
  case_bool_decide; [done|]. destruct (eo_DryRun opts) eqn:Hdry; [apply HA, dryRun_quiet|].
  apply safe_bind, (buildHops_safe env sent_signed fuel e sent_signed_quiet).
  - intros t2 err. apply HA, audit_fail_quiet.
  - intros t2 ser dec. apply safe_call. intros [cn|] Hd; [by destruct (Hd cn eq_refl)|]. split; [done|]. apply HA, audit_fail_quiet.
  - intros t2 chain hops iss Hlast Hg. apply safe_call. intros [cn|] Hd; (split; [done|]); [|apply HA, audit_fail_quiet].
    unfold with_conn. apply safe_bind, safe_call. intros res _. split.
    + simpl. split_and!; try done. exists chain, hops, iss. split_and!; [|done|by apply hops_good_app].
      rewrite elem_of_app. right. by left.
    + assert (Hend : ∀ h' (r : result engine_error Result), safe env sent_signed h' (pbind (call_ (CloseConn cn)) (fun _ => Ret r)) (fun _ _ => True)) by done.
      destruct res as [res|].
      * apply (safe_quiet env sent_signed sent_signed_quiet); [|intros; apply Hend]. unfold audit_gate.
        apply only_bind; [apply auditE_quiet|done].
      * apply (safe_quiet env sent_signed sent_signed_quiet); [apply audit_fail_quiet|intros; apply Hend].
Qed.
End execute.
