(* ===== verification/EngineSessionRun.v ===== *)
(** * What the engine does with a session

    Statements about every trace of the methods that open and use sessions: how
    a session came about, and what holds whenever a command is sent over it. *)

From S2P Require Import Prelude GoStrings CmdPolicy PolicySet Encoding K8sAction Intent Freeze Grants CA Elevate HostPolicy Signer Sessions Revocation Prog Broker Engine Routes EngineSessions EngineRun.

(** ** Sessions that were opened *)

(** The hop was made from what the engine knew of the host. *)
Definition hop_of (hostkey : string → option string) (hop : Hop) (kv : string * HostInfo) : Prop :=
  hop_Addr hop = hi_Addr kv.2 ∧ hop_User hop = hi_User kv.2 ∧ hostkey (hi_HostKey kv.2) = Some (hop_HostKey hop).

(** How a published session came about: its connection was dialled through the
    hops of a route to its host, its signature is the signature of that route,
    its end is the end of the target's certificate, and a shell or pty session
    has a shell on that connection. *)
Record opened (hostkey : string → option string) (dialled : conn → list Hop → Prop) (shell : nat → conn → Prop)
    (s : liveSession) : Prop := {
  op_mode : ls_mode s = "exec" ∨ ls_mode s = "shell" ∨ ls_mode s = "pty";
  op_route : ∃ hops l hop, dialled (ls_conn s) hops ∧ Forall2 (hop_of hostkey) hops l ∧
    ls_connectivitySig s = chain_signature l ∧ last l.*1 = Some (ls_host s) ∧ last hops = Some hop ∧
    ls_certNotAfter s = Some (time_of_unix (wrap64 (cert_ValidBefore (hop_Certificate hop))));
  op_shell : ls_mode s ≠ "exec" → ∃ sh, ls_shell s = Some sh ∧ shell sh (ls_conn s);
}.

Lemma opened_same hostkey dialled shell s s' :
  same_session s s' → opened hostkey dialled shell s → opened hostkey dialled shell s'.
Proof. intros (?&?&?&->) [H1 H2 H3]. by split. Qed.

Lemma chain_signature_app l l' : chain_signature (l ++ l') = chain_signature l +:+ chain_signature l'.
Proof. induction l as [|[n h] l IH]; simpl; [done|]. by rewrite IH, String_append_assoc. Qed.

Lemma chain_signature_snoc l n h : chain_signature (l ++ [(n, h)]) = chain_signature l +:+ hop_signature n h.
Proof. rewrite chain_signature_app. simpl. by rewrite String_append_nil. Qed.

Section facts.
Context (env : environment) (P : list obs → obs → Prop) (fuel : nat) (e : Engine).
Hypothesis Pquiet : ∀ h X (c : call X) x, quiet X c → P h (observe c x).

(** ** Building the hops of a session *)

(** What the loop has made of the names behind it: the hosts looked up, the
    hops, all of them bastions. *)
Record gathered (h : list obs) (c : Caller) (ttl : duration) (dn : list string) (l : list (string * HostInfo)) (acc : session_hops) : Prop := {
  ga_names : l.*1 = dn;
  ga_known : Forall (fun kv => known e h kv.1 kv.2) l;
  ga_hops : Forall2 (hop_of (env_hostkey env)) (sh_hops acc) l;
  ga_sig : sh_sig acc = chain_signature l;
}.

(** The finished hops: the last one is the target's, signed for the session. *)
Record session_built (h : list obs) (c : Caller) (ttl : duration) (mode : string) (opts : ExecOptions) (chain : list string)
    (l : list (string * HostInfo)) (sh : session_hops) : Prop := {
  sb_gathered : gathered h c ttl chain l sh;
  sb_target : ∃ hop iss tgt pub, last (sh_hops sh) = Some hop ∧ last chain = Some tgt ∧
    OSign (session_of c ttl mode opts tgt pub) (Ok iss) ∈ h ∧ env_sgn env (session_of c ttl mode opts tgt pub) (Ok iss) ∧
    is_Certificate iss = Some (hop_Certificate hop) ∧ sh_serial sh = is_Serial iss ∧ sh_prefix sh = is_ElevationPrefix iss ∧
    sh_notAfter sh = Some (time_of_unix (wrap64 (cert_ValidBefore (hop_Certificate hop))));
}.

Lemma known_Forall_app h t (l : list (string * HostInfo)) :
  Forall (fun kv => known e h kv.1 kv.2) l → Forall (fun kv => known e (h ++ t) kv.1 kv.2) l.
Proof. intros H. eapply Forall_impl; [exact H|]. intros kv. apply known_app. Qed.

Lemma gathered_app h t c ttl dn l acc : gathered h c ttl dn l acc → gathered (h ++ t) c ttl dn l acc.
Proof. intros [H1 H2 H3 H4]. split; auto using known_Forall_app. Qed.

Lemma gathered_snoc h t c ttl dn l acc name hi hop intent iss sh :
  gathered h c ttl dn l acc → known e h name hi → hop_good env e (h ++ t) intent name hi hop iss →
  sh_hops sh = sh_hops acc ++ [hop] → sh_sig sh = sh_sig acc +:+ hop_signature name hi →
  gathered (h ++ t) c ttl (dn ++ [name]) (l ++ [(name, hi)]) sh.
Proof.
  intros [H1 H2 H3 H4] Hk Hg E1 E2. split.
  - by rewrite fmap_app, H1.
  - apply Forall_app. split; [by apply known_Forall_app|]. constructor; [by apply known_app|constructor].
  - rewrite E1. apply Forall2_app; [done|]. constructor; [|constructor]. by destruct Hg as (? & ? & ? & ? & ? & _).
  - by rewrite E2, H4, chain_signature_snoc.
Qed.

Lemma hop_good_of h intent name hi hop iss : hop_good env e h intent name hi hop iss → hop_of (env_hostkey env) hop (name, hi).
Proof. intros (pub & ? & ? & ? & ? & _). by split_and!. Qed.

Lemma session_hops_loop_safe c ttl mode opts names dn l acc h (Q : list obs → result engine_error session_hops → Prop) :
  gathered h c ttl dn l acc → (∀ t err, Q (h ++ t) (Err err)) → (names = [] → Q h (Ok acc)) →
  (∀ t l' sh, session_built (h ++ t) c ttl mode opts (dn ++ names) l' sh → Q (h ++ t) (Ok sh)) →
  safe env P h (session_hops_loop e c ttl PurposeSession mode opts names acc) Q.
Proof.
  revert dn l acc h. induction names as [|name rest IH]; intros dn l acc h Hacc HE H0 HQ; [by apply H0|].
  cbn [session_hops_loop]. apply safe_bind, (hostInfo_safe env P e Pquiet); [intros t; apply HE|]. intros t hi Hk.
  apply safe_bind. rewrite (bool_decide_eq_true_2 (PurposeSession = PurposeSession)) by done.
  apply (gathered_app _ t) in Hacc. case_bool_decide as Hrest.
  - subst rest. apply (sign_hop_safe env P e Pquiet opts name hi (session_of c ttl mode opts)); [done|intros ??; simpl; rewrite <-app_assoc; apply HE|].
    intros t' hop iss Hg. simpl. rewrite <-app_assoc in *. apply (HQ _ (l ++ [(name, hi)])). split.
    + rewrite app_assoc. by eapply gathered_snoc; [| |rewrite <-app_assoc| |].
    + destruct Hg as (pub & _ & _ & _ & _ & Hs & Hsgn & Hc). exists hop, iss, name, pub. simpl.
      rewrite !last_snoc. split_and!; done.
  - apply (sign_hop_safe env P e Pquiet opts name hi (bastion_of c ttl PurposeSession)); [done|intros ??; simpl; rewrite <-app_assoc; apply HE|].
    intros t' hop iss Hg. apply (IH (dn ++ [name]) (l ++ [(name, hi)])).
    + by eapply gathered_snoc.
    + intros t'' err. rewrite <-!app_assoc. apply HE.
    + done.
    + intros t'' l' sh. rewrite <-!app_assoc. simpl. apply HQ.
Qed.

Lemma buildHopsWithPrefix_safe c ttl mode opts host h (Q : list obs → result engine_error session_hops → Prop) :
  (∀ t err, Q (h ++ t) (Err err)) → (∀ t sh, sh_hops sh = [] → Q (h ++ t) (Ok sh)) →
  (∀ t chain l sh, last chain = Some host → session_built (h ++ t) c ttl mode opts chain l sh → Q (h ++ t) (Ok sh)) →
  safe env P h (buildHopsWithPrefix fuel e c ttl PurposeSession mode opts host) Q.
Proof.
  intros HE H0 HQ. unfold buildHopsWithPrefix, ebind. apply safe_bind, (resolveChain_safe env P fuel e Pquiet); [intros t err; apply HE|].
  intros t chain Hchain. apply (session_hops_loop_safe c ttl mode opts chain [] []).
  - split; try done; constructor.
  - intros t' err. rewrite <-app_assoc. apply HE.
  - intros _. by apply H0.
  - intros t' l sh Hb. rewrite <-app_assoc in *. simpl in Hb. destruct Hchain as [[_ ->]|Hlast]; [|by apply (HQ _ chain l)].
    destruct Hb as [_ (? & ? & ? & ? & _ & ? & _)]. done.
Qed.
End facts.

(** ** Opening a session *)

Section open.
Context (env : environment) (fuel : nat) (e : Engine) (c : Caller) (host mode0 : string) (ttlSeconds : Z) (opts0 : ExecOptions).
Let mode : string := if bool_decide (mode0 = "") then "exec" else mode0.
Let opts : ExecOptions := if bool_decide (mode = "pty") then with_pty opts0 else opts0.
Let ttl : duration := ttlFor e ttlSeconds.

(** What is published: a session of this caller on this host, opened over a
    connection dialled with the certificate the signer issued for it. *)
Definition published (h : list obs) (s : liveSession) : Prop :=
  opened (env_hostkey env) (env_dialled env) (env_shell env) s ∧
  ls_caller s = who_ID c ∧ ls_host s = host ∧ ls_mode s = mode ∧ ls_busy s = 0 ∧ ls_closed s = false ∧
  ls_sudo s = eo_Sudo opts ∧ ls_sudoUser s = eo_SudoUser opts ∧ ls_pty s = eo_PTY opts ∧
  ∃ hops hop iss pub, ODial hops (Some (ls_conn s)) ∈ h ∧ last hops = Some hop ∧
    OSign (session_of c ttl mode opts host pub) (Ok iss) ∈ h ∧ env_sgn env (session_of c ttl mode opts host pub) (Ok iss) ∧
    is_Certificate iss = Some (hop_Certificate hop) ∧ ls_serial s = is_Serial iss.

Definition opens (h : list obs) (ob : obs) : Prop :=
  match ob with
  | OAdd s _ => published h s
  | OExec _ _ _ _ _ | OShellExec _ _ _ | OK8sRequest _ _ _ _ _ => False
  | _ => True
  end.

Lemma opens_quiet h X (cl : call X) x : quiet X cl → opens h (observe cl x).
Proof. by destruct 1. Qed.

(** A successful open has published its session and, when the audit fails
    closed, recorded it. *)
Definition open_done (h : list obs) (r : result engine_error (string * Z)) : Prop :=
  ∀ id ser, r = Ok (id, ser) → ∃ s p, OAdd s (Ok p) ∈ h ∧ ls_id s = id ∧ ls_serial s = ser ∧
    (e_auditFailClosed e = true → ∃ ent, OAppend ent true ∈ h ∧ en_SessionID ent = id ∧ en_Outcome ent = "session_open" ∧
       en_Caller ent = who_ID c ∧ en_Host ent = host ∧ en_Serial ent = ser).

Lemma published_app h t s : published h s → published (h ++ t) s.
Proof.
  intros (H1 & H2 & H3 & H4 & H5 & H6 & H7 & H8 & H9 & hops & hop & iss & pub & K1 & K2 & K3 & K4 & K5 & K6).
  unfold published. split_and!; try done. exists hops, hop, iss, pub. rewrite !elem_of_app. split_and!; auto.
Qed.
Lemma published_recorder h s : published h s → published h (with_recorder s).
Proof. intros ([A1 A2 A3] & H). split; [by split|exact H]. Qed.

(** The session as it is built, before its shell. *)
Lemma published_new h hops_t chain l sh cn id created used :
  last chain = Some host → session_built env e h c ttl mode opts chain l sh →
  env_dialled env cn (sh_hops sh) → ODial (sh_hops sh) (Some cn) ∈ hops_t →
  mode = "exec" ∨ mode = "shell" ∨ mode = "pty" →
  let s := mkSession id (who_ID c) (who_Context c) host (sh_serial sh) mode cn None created used (sh_notAfter sh) 0
              (sh_prefix sh) (elevationLabel opts) (eo_Sudo opts) (eo_SudoUser opts) (eo_PTY opts) (sh_sig sh) false false in
  (mode = "exec" → published (h ++ hops_t) s) ∧
  (∀ shl, env_shell env shl cn → published (h ++ hops_t) (with_shell shl s)).
Proof.
  intros Hlast [[G1 G2 G3 G4] (hop & iss & tgt & pub & B1 & B2 & B3 & B4 & B5 & B6 & B7 & B8)] Hd Hin Hm s.
  assert (tgt = host) as -> by congruence.
  assert (Hroute : ∃ hops l hop, env_dialled env cn hops ∧ Forall2 (hop_of (env_hostkey env)) hops l ∧
    sh_sig sh = chain_signature l ∧ last l.*1 = Some host ∧ last hops = Some hop ∧
    sh_notAfter sh = Some (time_of_unix (wrap64 (cert_ValidBefore (hop_Certificate hop))))).
  { exists (sh_hops sh), l, hop. split_and!; try done. by rewrite G1. }
  assert (Hsig : ∃ hops hop iss pub, ODial hops (Some cn) ∈ h ++ hops_t ∧ last hops = Some hop ∧
    OSign (session_of c ttl mode opts host pub) (Ok iss) ∈ h ++ hops_t ∧ env_sgn env (session_of c ttl mode opts host pub) (Ok iss) ∧
    is_Certificate iss = Some (hop_Certificate hop) ∧ sh_serial sh = is_Serial iss).
  { exists (sh_hops sh), hop, iss, pub. rewrite !elem_of_app. split_and!; auto. }
  split; [intros Hexec|intros shl Hsh]; (split; [split; simpl; [done|done|]|by split_and!]).
  - by intros [].
  - intros _. by exists shl.
Qed.

(** Calls that neither publish a session nor send a command. *)
Inductive harmless : ∀ X, call X → Prop :=
| ha_quiet X cl : quiet X cl → harmless X cl
| ha_remove id : harmless _ (SessionRemove id)
| ha_once p : harmless _ (SessionCloseOnce p)
| ha_rec id : harmless _ (CloseRecorder id)
| ha_conn cn : harmless _ (CloseConn cn)
| ha_shell sh : harmless _ (CloseShell sh).

Lemma only_weaken {A : Type} (p : prog A) : only quiet p → only harmless p.
Proof. induction p as [a|X cl k IH]; simpl; [done|]. intros [? ?]. split; [by constructor|auto]. Qed.
Lemma close_handles_harmless s : only harmless (close_handles s).
Proof.
  unfold close_handles. apply only_bind; [destruct (ls_recorder s)|intros _; apply only_bind; [|intros _; destruct (ls_shell s)]];
    simpl; eauto using ha_rec, ha_conn, ha_shell.
Qed.
Lemma close_harmless p s : only harmless (close p s).
Proof.
  unfold close. apply only_bind; [simpl; eauto using ha_once|]. intros []; [apply close_handles_harmless|done].
Qed.

Lemma opens_harmless {A : Type} (p : prog A) h (Q : list obs → A → Prop) :
  only harmless p → (∀ t a, Q (h ++ t) a) → safe env opens h p Q.
Proof.
  intros. eapply safe_only; [|done|done]. intros h' X cl x Hh. revert x. destruct Hh; intros x; try done. by apply opens_quiet.
Qed.

Lemma open_failed_done h err : open_done h (Err err).
Proof. done. Qed.

(** From a session ready to be published to the answer. *)
Lemma publish_safe s h ent : published h s → ls_id s = en_SessionID ent → ls_serial s = en_Serial ent →
  en_Outcome ent = "session_open" → en_Caller ent = who_ID c → en_Host ent = host →
  safe env opens h
    (a <- call_ (SessionAdd s) ;;
     match a with
     | Err x => close_handles s ;;;
         audit_fail e (with_serial (en_Serial ent) (basic_entry c host "" "denied" (ErrOf (ESessionLimit x)))) (ESessionLimit x)
     | Ok p => r <- auditE e ent ;;
         match r with
         | Some err => call_ (SessionRemove (ls_id s)) ;;; close p s ;;; Ret (Err err)
         | None => Ret (Ok (ls_id s, en_Serial ent))
         end
     end) open_done.
Proof.
  intros Hp E1 E2 E3 E4 E5. apply safe_call. intros a _. split; [exact Hp|]. destruct a as [p|x].
  2:{ apply safe_bind, opens_harmless; [apply close_handles_harmless|]. intros t []. unfold audit_fail.
      apply safe_bind, opens_harmless; [apply only_weaken, auditE_quiet|done]. }
  apply safe_bind, (auditE_safe env opens e opens_quiet).
  - intros t err. apply safe_bind, opens_harmless; [simpl; eauto using ha_remove|]. intros t' [].
    apply safe_bind, opens_harmless; [apply close_harmless|done].
  - intros t Hrec. simpl. intros id ser [= <- <-]. exists s, p. rewrite !elem_of_app. split_and!; auto.
    + left. right. by left.
    + intros Hc. destruct (Hrec Hc) as [u Hu]. exists (with_user u ent). split_and!; auto.
Qed.

Lemma record_safe s h ent : published h s → ls_id s = en_SessionID ent → ls_serial s = en_Serial ent →
  en_Outcome ent = "session_open" → en_Caller ent = who_ID c → en_Host ent = host →
  safe env opens h
    (rec <- startSessionRecording e s ;;
     match rec with
     | Err err => close_handles s ;;; audit_fail e (with_serial (en_Serial ent) (basic_entry c host "" "error" (ErrOf err))) err
     | Ok s =>
         a <- call_ (SessionAdd s) ;;
         match a with
         | Err x => close_handles s ;;;
             audit_fail e (with_serial (en_Serial ent) (basic_entry c host "" "denied" (ErrOf (ESessionLimit x)))) (ESessionLimit x)
         | Ok p => r <- auditE e (with_session (ls_id s) ent) ;;
             match r with
             | Some err => call_ (SessionRemove (ls_id s)) ;;; close p s ;;; Ret (Err err)
             | None => Ret (Ok (ls_id s, en_Serial ent))
             end
         end
     end) open_done.
Proof.
  intros Hp E1 E2 E3 E4 E5.
  assert (Hpub : ∀ t s', published h s' → ls_id s' = en_SessionID ent → ls_serial s' = en_Serial ent → safe env opens (h ++ t)
    (a <- call_ (SessionAdd s') ;;
     match a with
     | Err x => close_handles s' ;;;
         audit_fail e (with_serial (en_Serial ent) (basic_entry c host "" "denied" (ErrOf (ESessionLimit x)))) (ESessionLimit x)
     | Ok p => r <- auditE e (with_session (ls_id s') ent) ;;
         match r with
         | Some err => call_ (SessionRemove (ls_id s')) ;;; close p s' ;;; Ret (Err err)
         | None => Ret (Ok (ls_id s', en_Serial ent))
         end
     end) open_done).
  { intros t s' Hp' F1 F2. apply (publish_safe s' (h ++ t) (with_session (ls_id s') ent)); try done. by apply published_app. }
  unfold startSessionRecording. destruct (_ || _); [specialize (Hpub [] s); rewrite app_nil_r in Hpub; by apply Hpub|].
  apply safe_bind, safe_call. intros ok _. split; [done|]. destruct ok; [|destruct (e_SessionRecordingStrict e)]; cbn [safe].
  - apply (Hpub _ (with_recorder s)); [by apply published_recorder|done..].
  - apply safe_bind, opens_harmless; [apply close_handles_harmless|]. intros t []. unfold audit_fail.
    apply safe_bind, opens_harmless; [apply only_weaken, auditE_quiet|done].
  - by apply Hpub.
Qed.

Lemma OpenSession_safe : safe env opens [] (OpenSession fuel e c host mode0 ttlSeconds opts0) open_done.
Proof.
  unfold OpenSession. assert (Hq : ∀ ent err h', safe env opens h' (audit_fail e ent err) open_done).
  { intros ent err h'. unfold audit_fail. apply safe_bind, opens_harmless; [apply only_weaken, auditE_quiet|done]. }
  apply safe_bind, opens_harmless; [apply only_weaken, refresh_quiet|]. intros t1 [|err]; [|apply Hq].
  apply safe_bind, opens_harmless; [apply only_weaken, hostInfo_quiet|]. intros t2 [hi|]; [|apply Hq].
  fold mode. destruct (_ && _) eqn:Em; [done|].
  assert (Hm : mode = "exec" ∨ mode = "shell" ∨ mode = "pty").
  { destruct (decide (mode = "exec")), (decide (mode = "shell")), (decide (mode = "pty")); auto.
    rewrite !bool_decide_eq_true_2 in Em by done. done. }
  fold opts. apply safe_bind, (buildHopsWithPrefix_safe env opens fuel e opens_quiet).
  { intros t3 err. apply Hq. }
  { intros t3 sh Hsh. apply safe_call. intros [cn|] Hd; [by destruct (Hd cn eq_refl)|]. split; [done|]. apply Hq. }
  intros t3 chain l sh Hlast Hsb. apply safe_call. intros [cn|] Hd; (split; [done|]); [|apply Hq].
  destruct (Hd cn eq_refl) as [_ Hdial].
  apply (safe_qcall env opens opens_quiet); [constructor|]; intros id _.
  apply (safe_qcall env opens opens_quiet); [constructor|]; intros created _.
  apply (safe_qcall env opens opens_quiet); [constructor|]; intros used _.
  set (s0 := mkSession _ _ _ _ _ _ _ _ _ _ _ _ _ _ _ _ _ _ _ _).
  set (h := [] ++ t1 ++ t2 ++ t3) in *. rewrite <-!app_assoc in *. fold h in Hsb. unfold ebind.
  rewrite (app_assoc t2), (app_assoc t1), (app_assoc []). fold h. set (ht := [observe (Dial _) _] ++ _).
  destruct (published_new h ht chain l sh cn id created used Hlast Hsb Hdial) as [Hexec Hshell]; [by left|done|].
  fold s0 in Hexec, Hshell.
  set (ent := with_run 0 (elevationLabel opts) (eo_PTY opts) RuleNone None ""
    (with_session id (with_serial (sh_serial sh) (basic_entry c host ("mode=" +:+ mode) "session_open" NoErr)))).
  apply safe_bind. unfold openShellForMode. change (ls_mode s0) with mode.
  destruct (bool_decide (mode = "shell") || bool_decide (mode = "pty")) eqn:Esh.
  - apply safe_call. intros [shl|] Hr; (split; [done|]).
    + apply (record_safe (with_shell shl s0) _ ent); try done. apply published_app, Hshell, Hr. done.
    + apply safe_bind, opens_harmless; [simpl; eauto using ha_conn|]. intros t4 []. unfold audit_fail.
      apply safe_bind, opens_harmless; [apply only_weaken, auditE_quiet|done].
  - apply (record_safe s0 _ ent); try done. apply Hexec. apply orb_false_iff in Esh as [??]. unbool. naive_solver.
Qed.

(** Every session the broker publishes was opened properly: whenever
    [OpenSession] files a session, in whatever interleaving, it is the caller's
    session on the requested host; its connection was dialled through the hops
    of a route to that host, with the addresses, users and pinned host keys the
    engine knew; the target hop carries the certificate the signer issued for
    exactly this caller, host, mode and elevation, and the session ends with
    that certificate; its signature is that of the route; a shell or pty session
    has its shell on that connection. No command is sent on the way. A
    successful open has published its session and, in fail-closed mode, its
    record is in the log. *)
Theorem session_opened_properly t o :
  behaves env (OpenSession fuel e c host mode0 ttlSeconds opts0) t o →
  (∀ t1 s r t2, t = t1 ++ OAdd s r :: t2 → published t1 s) ∧
  (∀ cn cmd pty stdin r, OExec cn cmd pty stdin r ∉ t) ∧ (∀ sh cmd r, OShellExec sh cmd r ∉ t) ∧
  (∀ r, o = Some r → open_done t r).
Proof.
  intros Hb. destruct (safe_sound env opens _ [] _ _ _ OpenSession_safe Hb) as [H1 H2]. split_and!.
  - intros t1 s r t2 Ht. exact (H1 _ _ _ Ht).
  - intros cn cmd pty stdin r (t1 & t2 & Ht)%list_elem_of_split. exact (H1 _ _ _ Ht).
  - intros sh cmd r (t1 & t2 & Ht)%list_elem_of_split. exact (H1 _ _ _ Ht).
  - exact H2.
Qed.
End open.

(** ** Using a session *)

Section exec.
Context `{SP : ShellParser} (env : environment) (fuel : nat) (e : Engine) (c : Caller) (sessionID command : string).

(** The session is the caller's and was checked out while its certificate was
    valid. *)
Definition checked_out (h : list obs) (s : liveSession) : Prop :=
  ls_caller s = who_ID c ∧ ls_id s = sessionID ∧
  (∃ now p, OCheckout now sessionID (who_ID c) (Owned p s) ∈ h ∧ ∀ t, ls_certNotAfter s = Some t → now ≤ t) ∧
  ∃ s0, env_opened env s0 ∧ same_session s0 s.

(** The signer has allowed the hop. *)
Definition bastion_allowed (h : list obs) (name : string) : Prop :=
  ∃ pub iss dec, OSign (preflight_bastion e c name pub) (Ok iss) ∈ h ∧ is_Decision iss = Some dec ∧
    di_Allowed dec = true ∧ di_RequireApproval dec = false.

(** The route to the host, looked up for this command, has the signature of the
    session, and every bastion on the way is allowed. *)
Definition route_checked (h : list obs) (s : liveSession) : Prop :=
  (e_remote e = true → ∃ hosts, OFetchHosts (Some hosts) ∈ h) ∧
  (∃ l, Forall (fun kv => known e h kv.1 kv.2) l ∧ chain_signature l = ls_connectivitySig s) ∧
  ∃ chain, ((ls_host s = "" ∧ chain = []) ∨ last chain = Some (ls_host s)) ∧ Forall (bastion_allowed h) (removelast chain).

(** The signer has allowed this command on this session. *)
Definition command_allowed (h : list obs) (s : liveSession) (dec : option DecisionInfo) (envelope : string) : Prop :=
  ∃ pub r, OSign (preflight_command e c s command pub) r ∈ h ∧ env_sgn env (preflight_command e c s command pub) r ∧
    decide_command (ls_host s) r = Ok (dec, envelope).

Definition authorised (h : list obs) (s : liveSession) (dec : option DecisionInfo) (envelope : string) : Prop :=
  checked_out h s ∧ (ls_connectivitySig s ≠ "" → route_checked h s) ∧ command_allowed h s dec envelope.

Definition is_shell_mode (s : liveSession) : Prop := ls_mode s = "shell" ∨ ls_mode s = "pty".

Definition sent_authorised (h : list obs) (ob : obs) : Prop :=
  match ob with
  | OExec cn wire pty stdin _ =>
      ∃ s dec envelope, authorised h s dec envelope ∧ ¬ is_shell_mode s ∧
        cn = ls_conn s ∧ wire = effective_command s command envelope ∧ pty = ls_pty s ∧ stdin = ""
  | OShellExec sh cmd _ =>
      ∃ s dec envelope, authorised h s dec envelope ∧ is_shell_mode s ∧ ls_shell s = Some sh ∧ cmd = command ∧
        ContainsAny command (string_of_bytes [10; 13]) = false ∧
        (ls_mode s = "pty" → Z.of_nat (String.length command) ≤ MaxPTYCommandBytes ∧ Forall (fun b => is_control b = false) (bytes command))
  | ODial _ _ | OOpenShell _ _ _ _ | OAdd _ _ | OK8sRequest _ _ _ _ _ => False
  | _ => True
  end.

Lemma sent_authorised_quiet h X (cl : call X) x : quiet X cl → sent_authorised h (observe cl x).
Proof. by destruct 1. Qed.
#[local] Abbreviation squiet := (safe_quiet env sent_authorised sent_authorised_quiet).
#[local] Abbreviation sqcall := (safe_qcall env sent_authorised sent_authorised_quiet).

Lemma elem_app (ob : obs) h t : ob ∈ h → ob ∈ h ++ t.
Proof. rewrite elem_of_app. by left. Qed.

Lemma checked_out_app h t s : checked_out h s → checked_out (h ++ t) s.
Proof. intros (H1 & H2 & (now & p & H3 & H4) & H5). split_and!; try done. exists now, p. eauto using elem_app. Qed.
Lemma bastion_allowed_app h t n : bastion_allowed h n → bastion_allowed (h ++ t) n.
Proof. intros (pub & iss & dec & H & H'). exists pub, iss, dec. eauto using elem_app. Qed.
Lemma route_checked_app h t s : route_checked h s → route_checked (h ++ t) s.
Proof.
  intros (H1 & (l & H2 & H3) & chain & H4 & H5). split_and!.
  - intros Hr. destruct (H1 Hr) as [hosts ?]. exists hosts. by apply elem_app.
  - exists l. split; [by apply known_Forall_app|done].
  - exists chain. split; [done|]. eapply Forall_impl; [exact H5|]. intros. by apply bastion_allowed_app.
Qed.

Lemma signature_loop_safe names b l h (Q : list obs → result engine_error string → Prop) :
  Forall (fun kv => known e h kv.1 kv.2) l → b = chain_signature l → (∀ t err, Q (h ++ t) (Err err)) →
  (∀ t l', Forall (fun kv => known e (h ++ t) kv.1 kv.2) l' → Q (h ++ t) (Ok (chain_signature l'))) →
  safe env sent_authorised h (signature_loop e names b) Q.
Proof.
  revert b l h. induction names as [|n names IH]; intros b l h Hl Hb HE HQ; cbn [signature_loop].
  { specialize (HQ [] l). rewrite app_nil_r in HQ. simpl. rewrite Hb. auto. }
  apply safe_bind, (hostInfo_safe env _ e sent_authorised_quiet); [intros; apply HE|]. intros t hi Hk.
  apply (IH _ (l ++ [(n, hi)])).
  - apply Forall_app. split; [by apply known_Forall_app|]. by repeat constructor.
  - by rewrite Hb, chain_signature_snoc.
  - intros t' err. rewrite <-app_assoc. apply HE.
  - intros t' l'. rewrite <-app_assoc. apply HQ.
Qed.

Lemma bastions_loop_safe pub names h (Q : list obs → result engine_error unit → Prop) :
  (∀ t err, Q (h ++ t) (Err err)) → (∀ t, Forall (bastion_allowed (h ++ t)) names → Q (h ++ t) (Ok ())) →
  safe env sent_authorised h (bastions_loop e c pub names) Q.
Proof.
  revert h. induction names as [|n names IH]; intros h HE HQ; cbn [bastions_loop].
  { specialize (HQ []). rewrite app_nil_r in HQ. by apply HQ. }
  apply sqcall; [constructor|]. intros [iss|x] _; [|apply HE].
  destruct (is_Decision iss) as [dec|] eqn:Hdec; [|apply HE].
  destruct (di_Allowed dec) eqn:Ha; [|apply HE]. simpl. destruct (di_RequireApproval dec) eqn:Hr; [apply HE|].
  apply IH; intros t; [intros err; rewrite <-app_assoc; apply HE|]. rewrite <-app_assoc. intros Hall. apply HQ. constructor; [|done].
  exists pub, iss, dec. split_and!; try done. rewrite elem_of_app. right. by left.
Qed.

Lemma bastions_safe host h (Q : list obs → result engine_error unit → Prop) :
  (∀ t err, Q (h ++ t) (Err err)) →
  (∀ t chain, ((host = "" ∧ chain = []) ∨ last chain = Some host) → Forall (bastion_allowed (h ++ t)) (removelast chain) → Q (h ++ t) (Ok ())) →
  safe env sent_authorised h (authorizeSessionBastions fuel e c host) Q.
Proof.
  intros HE HQ. unfold authorizeSessionBastions, ebind.
  apply safe_bind, (resolveChain_safe env _ fuel e sent_authorised_quiet); [intros; apply HE|]. intros t chain Hc.
  destruct (length chain <=? 1)%nat eqn:El.
  { apply Nat.leb_le in El. apply (HQ _ chain); [done|]. destruct chain as [|? [|??]]; simpl in *; try lia; constructor. }
  apply sqcall; [constructor|]. intros [[priv pub]|] _; [|rewrite <-app_assoc; apply HE].
  apply bastions_loop_safe; intros t'; [intros err; rewrite <-!app_assoc; apply HE|]. rewrite <-!app_assoc. by apply (HQ _ chain).
Qed.

Lemma connectivity_check_safe s h (Q : list obs → result engine_error unit → Prop) :
  (∀ t err, Q (h ++ t) (Err err)) →
  (∀ t, (ls_connectivitySig s ≠ "" → route_checked (h ++ t) s) → Q (h ++ t) (Ok ())) →
  safe env sent_authorised h (connectivity_check fuel e c s) Q.
Proof.
  intros HE HQ. unfold connectivity_check. case_bool_decide as Hsig.
  2:{ specialize (HQ []). rewrite app_nil_r in HQ. by apply HQ. }
  unfold currentConnectivitySignature, ebind. apply safe_bind, safe_bind.
  assert (Hfetch : ∀ Q', (∀ t err, Q' (h ++ t) (Err err)) →
    (∀ t, (e_remote e = true → ∃ hosts, OFetchHosts (Some hosts) ∈ h ++ t) → Q' (h ++ t) (Ok ())) →
    safe env sent_authorised h (refreshHostsNow e) Q').
  { intros Q' HE' HQ'. unfold refreshHostsNow. destruct (e_remote e); cbn [negb].
    2:{ specialize (HQ' []). rewrite app_nil_r in HQ'. by apply HQ'. }
    apply sqcall; [constructor|]. intros [hosts|] _; [|apply HE']. apply squiet; [quiet|].
    intros t [[]|err]; rewrite <-app_assoc; [|apply HE']. apply HQ'. intros _. exists hosts. rewrite elem_of_app. right. by left. }
  apply Hfetch; [intros; apply HE|]. intros t Hf. apply safe_bind.
  apply (resolveChain_safe env _ fuel e sent_authorised_quiet); [intros; rewrite <-app_assoc; apply HE|]. intros t' chain _.
  apply (signature_loop_safe chain "" []); [constructor|done|intros; rewrite <-!app_assoc; apply HE|].
  intros t2 l Hl. cbn [safe]. case_bool_decide as Heq; [simpl; rewrite <-!app_assoc; apply HE|].
  apply bastions_safe; [intros; rewrite <-!app_assoc; apply HE|]. intros t3 chain' Hc Hb. rewrite <-!app_assoc in *.
  apply HQ. intros _. split_and!.
  - intros Hr. destruct (Hf Hr) as [hosts Hh]. exists hosts. rewrite !elem_of_app in *. naive_solver.
  - exists l. split; [|done]. rewrite !app_assoc in *. by apply known_Forall_app.
  - by exists chain'.
Qed.

Lemma authorize_safe s h (Q : list obs → authorization → Prop) :
  checked_out h s → (∀ t err, Q (h ++ t) (Err err)) →
  (∀ t dec envelope, authorised (h ++ t) s dec envelope → Q (h ++ t) (Ok (dec, envelope))) →
  safe env sent_authorised h (authorizeSessionExec fuel e c s command) Q.
Proof.
  intros Hco HE HQ. unfold authorizeSessionExec. apply safe_bind, connectivity_check_safe; [intros; apply HE|].
  intros t Hroute. apply sqcall; [constructor|]. intros [[priv pub]|] _; [|rewrite <-app_assoc; apply HE].
  apply sqcall; [constructor|]. intros r Hr. cbn [safe]. rewrite <-!app_assoc.
  destruct (decide_command (ls_host s) r) as [[dec envelope]|err] eqn:Hd; [|apply HE]. apply HQ. split_and!.
  - by apply checked_out_app.
  - intros Hs. rewrite app_assoc. by apply route_checked_app, Hroute.
  - exists pub, r. split_and!; try done. rewrite !elem_of_app. right. right. right. by left.
Qed.

(** What is handed back was recorded, when the audit fails closed. *)
Definition exec_done (h : list obs) (r : result engine_error Result) : Prop :=
  ∀ res, r = Ok res → e_auditFailClosed e = true →
    ∃ ent, OAppend ent true ∈ h ∧ en_Outcome ent = "session_exec" ∧ en_SessionID ent = sessionID ∧ en_Command ent = command ∧
      en_Caller ent = who_ID c ∧ en_ExitCode ent = re_ExitCode res ∧ en_Serial ent = re_Serial res.

Lemma exec_done_app h t r : exec_done h r → exec_done (h ++ t) r.
Proof. intros H res Hr Hc. destruct (H res Hr Hc) as (ent & ? & ?). exists ent. eauto using elem_app. Qed.

Lemma refused_safe h ent err : safe env sent_authorised h (audit_fail e ent err) exec_done.
Proof. unfold audit_fail. apply safe_bind, squiet; [apply auditE_quiet|done]. Qed.

Lemma answer_safe s h res dec :
  safe env sent_authorised h
    (match res with
     | None => audit_fail e (exec_entry c s sessionID command "error" (ErrOf (ErrUpstream UpExec))) (ErrUpstream UpExec)
     | Some res =>
         audit_gate e
           (with_run (xr_ExitCode res) (ls_elevLabel s) (ls_pty s) (decisionRule dec) (decisionWarning dec) ""
              (exec_entry c s sessionID command "session_exec" NoErr))
           (mkResult (xr_Stdout res) (xr_Stderr res) (xr_ExitCode res) (ls_serial s) (decisionWarning dec) None)
     end) exec_done.
Proof.
  destruct res as [res|]; [|apply refused_safe].
  unfold audit_gate. apply safe_bind, (auditE_safe env _ e sent_authorised_quiet); [done|]. intros t Hrec. cbn [safe].
  intros r [= <-] Hc. destruct (Hrec Hc) as [u Hu]. eexists. split_and!; [exact Hu|done..].
Qed.

Lemma session_command_safe s h : checked_out h s →
  safe env sent_authorised h (session_command fuel e c s sessionID command) exec_done.
Proof.
  intros Hco. unfold session_command. case_bool_decide; [done|].
  destruct (_ && ContainsAny _ _) eqn:Enl; [done|]. destruct (_ && (_ <? _)) eqn:Elen; [apply refused_safe|].
  destruct (if bool_decide (ls_mode s = "pty") then control_byte command else None) eqn:Ectl; [apply refused_safe|].
  apply safe_bind, authorize_safe; [done|intros t [dec err]; apply refused_safe|]. intros t dec envelope Hauth.
  apply safe_bind. destruct (bool_decide (ls_mode s = "shell") || bool_decide (ls_mode s = "pty")) eqn:Em.
  - destruct (ls_shell s) as [sh|] eqn:Esh; [|apply answer_safe].
    apply safe_call. intros res _. split; [|apply answer_safe]. exists s, dec, envelope.
    apply orb_true_iff in Em. rewrite !bool_decide_eq_true in Em. simpl in Enl. split_and!; try done.
    intros Hpty. rewrite bool_decide_eq_true_2 in Elen, Ectl by done. simpl in Elen. unbool. split; [lia|].
    apply Forall_forall. intros b Hb. by apply (list_find_first_None _ _ Ectl).
  - apply safe_call. intros res _. split; [|apply answer_safe]. exists s, dec, envelope. unbool.
    split_and!; try done. by intros [?|?].
Qed.

Lemma checkout_answer now now' co p s :
  answers env (SessionCheckout now now' sessionID (who_ID c)) co → co = Owned p s →
  ls_caller s = who_ID c ∧ ls_id s = sessionID ∧ (∀ t, ls_certNotAfter s = Some t → now ≤ t) ∧
  ∃ s0, env_opened env s0 ∧ same_session s0 s.
Proof.
  intros (m & [Hok Hall] & ->) Hco. unfold checkoutOwned in Hco.
  destruct (sm_sessions m !! sessionID) as [q|] eqn:Hq; [|done].
  destruct (object m q) as [s0|] eqn:Hs0; [|done]. case_bool_decide as Hcal; [done|].
  destruct (expired now s0) eqn:Hex; [done|]. simpl in Hco. injection Hco as <- <-.
  destruct (ok_table m Hok _ _ Hq) as (s1 & Hs1 & Hid). unfold object in Hs0. rewrite Hs0 in Hs1. injection Hs1 as <-.
  simpl. split_and!; [done|done| |].
  - intros t Ht. unfold expired in Hex. rewrite Ht in Hex. unbool. lia.
  - exists s0. split; [by apply (Hall q)|]. by eexists _, _, _.
Qed.

Lemma SessionExec_safe : safe env sent_authorised [] (SessionExec fuel e c sessionID command) exec_done.
Proof.
  unfold SessionExec. do 2 (apply sqcall; [constructor|]; intros ? _). apply safe_call. intros co Hco. split; [done|].
  destruct co as [|p s|p s] eqn:Eco; [done|done|].
  destruct (checkout_answer _ _ _ p s Hco eq_refl) as (H1 & H2 & H3 & H4).
  apply safe_bind. eapply safe_mono; [|apply session_command_safe].
  - intros t r Hd. apply sqcall; [constructor|]. intros ? _. apply safe_call. intros [] _. split; [done|].
    cbn [safe]. by do 2 apply exec_done_app.
  - split_and!; try done. exists x, p. split; [|done]. rewrite elem_of_app. right. by left.
Qed.

(** The connection of the session goes where the route looked up now goes:
    hop by hop the same address, user and pinned host key. *)
Definition same_route (h : list obs) (s : liveSession) : Prop :=
  ∃ hops l, env_dialled env (ls_conn s) hops ∧ Forall (fun kv => known e h kv.1 kv.2) l ∧ last l.*1 = Some (ls_host s) ∧
    Forall2 (hop_of (env_hostkey env)) hops l.

Lemma physical_hops hops l l' :
  Forall2 (hop_of (env_hostkey env)) hops l → map physical l = map physical l' →
  Forall2 (hop_of (env_hostkey env)) hops l' ∧ l.*1 = l'.*1.
Proof.
  intros H. revert l'. induction H as [|hop [n h] hops l Hh Hl IH]; intros [|[n' h'] l']; simpl; try done.
  unfold physical at 1 3. simpl. intros [= -> E1 E2 E3 E4 E5]. destruct (IH l' E5) as [K1 K2]. split; [|cbn; f_equal; exact K2].
  constructor; [|done]. unfold hop_of in *. simpl in *. by rewrite <-E1, <-E2, <-E3.
Qed.

Lemma authorised_route h s dec envelope :
  (∀ s0, env_opened env s0 → opened (env_hostkey env) (env_dialled env) (env_shell env) s0) →
  authorised h s dec envelope → opened (env_hostkey env) (env_dialled env) (env_shell env) s ∧ same_route h s.
Proof.
  intros Hop ((_ & _ & _ & s0 & Hs0 & Hsame) & Hroute & _).
  pose proof (opened_same _ _ _ _ _ Hsame (Hop s0 Hs0)) as Hopen. split; [done|].
  destruct (op_route _ _ _ _ Hopen) as (hops & l & hop & D1 & D2 & D3 & D4 & _).
  destruct Hroute as (_ & (l' & K1 & K2) & _).
  { rewrite D3. destruct l as [|[n h'] l]; [done|]. apply hop_signature_nonempty. }
  rewrite D3 in K2. symmetry in K2. apply signature_physical in K2.
  destruct (physical_hops _ _ _ D2 K2) as [F1 F2]. exists hops, l'. split_and!; try done. by rewrite <-F2.
Qed.

(** A session runs only what the signer just allowed, over the route that
    holds now. Whenever [SessionExec] puts something on a session, in whatever
    interleaving with other requests, reloads and refreshes: the session is the
    caller's and was checked out before its certificate ended; the signer has
    answered, in this very call, that this command, with the session's mode and
    elevation, is allowed and needs no approval; the host list was fetched again
    and the route it gives is the one the connection was dialled through (same
    addresses, users and host keys), its bastions allowed again; what goes on
    the wire is that command (sealed or elevated as the signer said), in a shell
    without line breaks and in a pty without control bytes or truncation. A
    result is handed back, in fail-closed mode, only with its record in the
    log. *)
Theorem session_command_authorised t o :
  (∀ s0, env_opened env s0 → opened (env_hostkey env) (env_dialled env) (env_shell env) s0) →
  behaves env (SessionExec fuel e c sessionID command) t o →
  (∀ t1 cn wire pty stdin r t2, t = t1 ++ OExec cn wire pty stdin r :: t2 →
     ∃ s dec envelope, authorised t1 s dec envelope ∧ same_route t1 s ∧ ls_mode s = "exec" ∧
       cn = ls_conn s ∧ wire = effective_command s command envelope ∧ pty = ls_pty s ∧ stdin = "") ∧
  (∀ t1 sh cmd r t2, t = t1 ++ OShellExec sh cmd r :: t2 →
     ∃ s dec envelope, authorised t1 s dec envelope ∧ same_route t1 s ∧ is_shell_mode s ∧ ls_shell s = Some sh ∧
       env_shell env sh (ls_conn s) ∧ cmd = command ∧ ContainsAny command (string_of_bytes [10; 13]) = false ∧
       (ls_mode s = "pty" → Z.of_nat (String.length command) ≤ MaxPTYCommandBytes ∧
          Forall (fun b => is_control b = false) (bytes command))) ∧
  (∀ r, o = Some r → exec_done t r).
Proof.
  intros Hop Hb. destruct (safe_sound env sent_authorised _ [] _ _ _ SessionExec_safe Hb) as [H1 H2].
  split_and!; [..|exact H2].
  - intros t1 cn wire pty stdin r t2 Ht. destruct (H1 _ _ _ Ht) as (s & dec & envelope & Ha & Hm & Hrest).
    destruct (authorised_route _ _ _ _ Hop Ha) as [Hopen Hr]. exists s, dec, envelope. split_and!; try done; try apply Hrest.
    destruct (op_mode _ _ _ _ Hopen) as [?|[?|?]]; [done|by destruct Hm; left|by destruct Hm; right].
  - intros t1 sh cmd r t2 Ht. destruct (H1 _ _ _ Ht) as (s & dec & envelope & Ha & Hm & Hsh & Hrest).
    destruct (authorised_route _ _ _ _ Hop Ha) as [Hopen Hr]. exists s, dec, envelope. split_and!; try done; try apply Hrest.
    destruct (op_shell _ _ _ _ Hopen) as (sh' & E & ?); [by destruct Hm as [-> | ->]|congruence].
Qed.
End exec.
