(* ===== verification/EndToEnd.v ===== *)
(** * From the policy to the wire

    The engine over the signer of [Signer.v]: what the policy of a host says
    about every command the broker sends to it. *)

From S2P Require Import Prelude GoStrings CmdPolicy PolicySet Encoding K8sAction Intent Freeze Grants CA Elevate Crypto Sealed HostPolicy K8sPolicy Signer Sessions Revocation Prog Broker Engine Routes EngineSessions EngineRun EngineSessionRun.

Section end_to_end.
Context `{RE : RegexpEngine} `{SP : ShellParser} `{ED : Ed25519} `{EJ : EnvelopeJSON}.

(** The classes [classifySignErr] tells apart. *)
Definition sgn_class (x : sign_error) : sgn_error :=
  match x with
  | ECASign _ | ENoEnvelopeKey | EEnvelope _ => ErrCASignFailed
  | EResolveK8s EK8sMint => ErrK8sMintFailed
  | _ => SignDenied
  end.
Definition local_answer (r : option Issued * option sign_error) : result sgn_error Issued :=
  match r with
  | (_, Some x) => Err (sgn_class x)
  | (Some iss, None) => Ok iss
  | (None, None) => Err SignDenied
  end.
(** What the signer may answer: its clocks and its randomness are free. *)
Definition local_sgn (l : Local) (i : Intent) (r : result sgn_error Issued) : Prop :=
  ∃ senv, r = local_answer (SignIntent l senv i).

Lemma local_answer_Ok r iss : local_answer r = Ok iss → r = (Some iss, None).
Proof. destruct r as [[iss'|] [x|]]; simpl; naive_solver. Qed.

(** A one-shot certificate is pinned to the command it was issued for. *)
Lemma signed_command l senv i iss err cert hp :
  SignIntent l senv i = (Some iss, err) → is_Certificate iss = Some cert → l_policy l !! in_Host i = Some hp →
  is_oneshot_target i = true →
  ∃ elev, resolveElevation hp i = Ok elev ∧ cert_CriticalOptions cert !! "force-command" = Some (pinned_command i elev).
Proof.
  intros Hs Hc Hhp Ho. destruct (SignIntent_cert _ _ _ _ _ _ Hs Hc) as (_ & _ & _ & _ & d & hp' & Hres & _ & _ & Hb).
  apply resolve_inv in Hres as (hp2 & elev & cp & Hhp2 & Hr). simplify_eq.
  apply BuildAndSign_Ok in Hb as (_ & _ & _ & _ & _ & ->).
  destruct (rs_constraints _ _ _ _ _ _ _ _ Hr) as (fc & Hcon & H1 & _). exists elev. split; [by eapply rs_elev|].
  rewrite cert_of_force_command, Hcon. simpl. destruct (H1 Ho) as [-> Hne]. by rewrite bool_decide_eq_false_2.
Qed.

(** A one-shot certificate of an enforcing host: pinned, and past the policy. *)
Lemma oneshot_authorised l senv i iss cert hp :
  SignIntent l senv i = (Some iss, None) → is_Certificate iss = Some cert → l_policy l !! in_Host i = Some hp →
  is_oneshot_target i = true → in_Purpose i = PurposeOneshot → host_compiled hp → widen_only (l_grants l) →
  ps_Restricts (effectivePolicies hp) = true → Enforcement (effectivePolicies hp) = CmdPolicyEnforce →
  let v := spec_decide (widened hp i (l_grants l) (ck_grants (sg_clocks senv))) (in_Command i) in
  (∃ elev, resolveElevation hp i = Ok elev ∧ cert_CriticalOptions cert !! "force-command" = Some (pinned_command i elev)) ∧
  v ≠ VDeny ∧
  (v = VApproval → in_Approved i = true ∨
     ∃ gp, l_grants l = Some gp ∧ gp_WaiverMatches gp (in_Host i) i (ck_waiver (sg_clocks senv)) = true).
Proof.
  intros Hs Hcert Hhp Ho Hp Hcomp Hwo Hr He. split; [by eapply signed_command|].
  destruct (SignIntent_cert _ _ _ _ _ _ Hs Hcert) as (_ & _ & _ & _ & d & hp' & Hres & _ & Hap & _).
  destruct (resolve_enforced _ _ _ _ _ _ _ Hhp Hcomp Hwo Hr He Hres) as (_ & _ & Hcmd).
  destruct (Hcmd (or_introl Hp)) as [Hnd Hapr]. split; [exact Hnd|].
  intros Hv. destruct (Hapr Hv) as [Hreq|Hw]; [left|by right]. destruct Hap as [Hap|Hap]; [congruence|exact Hap].
Qed.

(** [C2] No one-shot command reaches a host against its policy. Over the modelled
    signer, whenever [Execute] sends a command on a connection to a host whose
    policy restricts and enforces, in whatever interleaving: it is the requested
    command; the connection was dialled with the host's certificate, whose
    force-command is that command, elevated as the host's elevation rules
    allow; and the policy (with the grants live when it was signed) does not
    deny the command, and demands an approval only if the request carries one
    or a live waiver matches it. *)
Theorem executed_needs_policy env l fuel e c host command ttlSeconds opts t o t1 cn cmd pty stdin r t2 hp :
  (∀ i x, env_sgn env i x → local_sgn l i x) →
  behaves env (Execute fuel e c host command ttlSeconds opts) t o → t = t1 ++ OExec cn cmd pty stdin r :: t2 →
  l_policy l !! host = Some hp → host_compiled hp → widen_only (l_grants l) →
  ps_Restricts (effectivePolicies hp) = true → Enforcement (effectivePolicies hp) = CmdPolicyEnforce →
  cmd = command ∧ eo_DryRun opts = false ∧
  ∃ hops hop pub senv elev, ODial hops (Some cn) ∈ t1 ∧ last hops = Some hop ∧
    let i := oneshot_of c (ttlFor e ttlSeconds) command opts host pub in
    let v := spec_decide (widened hp i (l_grants l) (ck_grants (sg_clocks senv))) command in
    resolveElevation hp i = Ok elev ∧
    cert_CriticalOptions (hop_Certificate hop) !! "force-command" = Some (pinned_command i elev) ∧
    v ≠ VDeny ∧
    (v = VApproval → eo_Approved opts = true ∨
       ∃ gp, l_grants l = Some gp ∧ gp_WaiverMatches gp host i (ck_waiver (sg_clocks senv)) = true).
Proof.
  intros Hsgn Hb Ht Hhp Hcomp Hwo Hr He.
  destruct (safe_sound env _ _ [] _ _ _ (Execute_signed env fuel e c host command ttlSeconds opts []) Hb) as [H1 _].
  destruct (H1 _ _ _ Ht) as (-> & _ & _ & Hdry & chain & hops & iss & Hd & Hlast & bs & bh & tgt & hi & hop & -> & -> & _ & Hg).
  rewrite last_snoc in Hlast. injection Hlast as ->. split_and!; [done..|].
  destruct Hg as (pub & _ & _ & _ & _ & _ & Hs & Hcert). apply Hsgn in Hs as (senv & Hs). symmetry in Hs. apply local_answer_Ok in Hs.
  set (i := oneshot_of c (ttlFor e ttlSeconds) command opts host pub) in *.
  assert (Hhp' : l_policy l !! in_Host i = Some hp) by exact Hhp.
  destruct (oneshot_authorised _ _ _ _ _ hp Hs Hcert Hhp' eq_refl eq_refl Hcomp Hwo Hr He) as ((elev & Hel & Hfc) & Hnd & Hapr).
  exists (bh ++ [hop]), hop, pub, senv, elev. rewrite last_snoc. split; [done|]. split; [done|]. cbv zeta.
  split_and!; [exact Hel|exact Hfc|exact Hnd|exact Hapr].
Qed.

(** What an allowing answer to a preflight says of the resolution. *)
Lemma preflight_resolved l senv i iss dec :
  in_DryRun i = true → in_TargetType i ≠ TargetTypeK8s → SignIntent l senv i = (Some iss, None) →
  is_Decision iss = Some dec → di_Allowed dec = true →
  ∃ d, resolve (l_policy l) i (l_defaultTTL l) (l_grants l) (sg_clocks senv) = (d, None) ∧ di_RequireApproval dec = dc_RequireApproval d.
Proof.
  intros Hdry Htt Hs Hdec Hal. unfold SignIntent in Hs. rewrite bool_decide_eq_false_2, Hdry in Hs by done.
  destruct (resolve _ _ _ _ _) as [d [x|]].
  { injection Hs as <-. simpl in Hdec. injection Hdec as <-. done. }
  destruct (sealedEnvelope l senv i d); [|done]. injection Hs as <-. simpl in Hdec. injection Hdec as <-. by exists d.
Qed.

Lemma preflight_decides l senv i iss : in_DryRun i = true → in_TargetType i ≠ TargetTypeK8s →
  SignIntent l senv i = (Some iss, None) → is_Decision iss ≠ None.
Proof.
  intros Hdry Htt Hs. unfold SignIntent in Hs. rewrite bool_decide_eq_false_2, Hdry in Hs by done.
  destruct (resolve _ _ _ _ _) as [d [x|]]; [by injection Hs as <-|].
  destruct (sealedEnvelope l senv i d); [|done]. by injection Hs as <-.
Qed.

(** [C3] No session command reaches a host against its policy. Over the modelled
    signer, whenever [SessionExec] sends something over a session to a host
    whose policy restricts and enforces: the session is in exec mode, and the
    policy at the time of the command (with the grants live then) does not deny
    the command, nor gate it unless a live waiver matches. *)
Theorem session_needs_policy env l fuel e c sessionID command t o t1 ob t2 :
  (∀ i x, env_sgn env i x → local_sgn l i x) →
  behaves env (SessionExec fuel e c sessionID command) t o → t = t1 ++ ob :: t2 →
  ((∃ cn wire pty stdin r, ob = OExec cn wire pty stdin r) ∨ ∃ sh cmd r, ob = OShellExec sh cmd r) →
  ∃ s senv pub, checked_out env c sessionID t1 s ∧
    let i := preflight_command e c s command pub in
    ∀ hp, l_policy l !! ls_host s = Some hp → host_compiled hp → widen_only (l_grants l) →
      ps_Restricts (effectivePolicies hp) = true → Enforcement (effectivePolicies hp) = CmdPolicyEnforce → command ≠ "" →
      let v := spec_decide (widened hp i (l_grants l) (ck_grants (sg_clocks senv))) command in
      session_mode (ls_mode s) = SessionModeExec ∧ v ≠ VDeny ∧
      (v = VApproval →
         ∃ gp, l_grants l = Some gp ∧ gp_WaiverMatches gp (ls_host s) i (ck_waiver (sg_clocks senv)) = true).
Proof.
  intros Hsgn Hb Ht Hob.
  destruct (safe_sound env _ _ [] _ _ _ (SessionExec_safe env fuel e c sessionID command) Hb) as [H1 _].
  specialize (H1 _ _ _ Ht).
  assert (∃ s dec envelope, authorised env e c sessionID command t1 s dec envelope) as (s & dec & envelope & Hco & _ & pub & r & _ & Hs & Hdec).
  { destruct Hob as [(cn & wire & pty & stdin & r & ->)|(sh & cmd & r & ->)]; destruct H1 as (s & dec & envelope & Ha & _); by exists s, dec, envelope. }
  clear H1. apply Hsgn in Hs as (senv & ->). unfold decide_command in Hdec.
  destruct (local_answer _) as [iss|x] eqn:Hans; [|done]. apply local_answer_Ok in Hans.
  exists s, senv, pub. split; [done|]. intros i hp Hhp Hcomp Hwo Hr He Hne.
  pose proof (preflight_decides l senv i iss eq_refl ltac:(done) Hans) as Hsome.
  destruct (is_Decision iss) as [di|] eqn:Hdi; [clear Hsome|done].
  destruct (di_Allowed di) eqn:Hal; [|done]. simpl in Hdec. destruct (di_RequireApproval di) eqn:Hra; [done|].
  destruct (preflight_resolved l senv i iss di eq_refl ltac:(done) Hans Hdi Hal) as (d & Hres & Hreq).
  destruct (resolve_enforced _ i _ _ _ _ _ Hhp Hcomp Hwo Hr He Hres) as (_ & Hmode & Hcmd).
  destruct (Hcmd (or_intror Hne)) as [Hnd Hapr]. split_and!; [by apply Hmode|done|].
  intros Hv. destruct (Hapr Hv) as [?|]; [congruence|done].
Qed.
End end_to_end.

(** ** A broker, its signer and a host *)

Definition broker_host : HostPolicy :=
  set_Policies [sample_allow]
    (mkHostPolicy "10.0.0.1:22" "deploy" "ssh-ed25519 AAAA" "" "host:web1" "10.0.0.0/8" (5 * Minute) 300
       false ["local"] true ["root"; "deploy"] false false ["web"] false sample_allow []).
Definition broker_signer : Local := NewLocalWithGrants "ca-default" ∅ {["web1" := broker_host]} Hour (Some web_provider).
Definition broker_info : HostInfo := mkHostInfo "10.0.0.1:22" "deploy" "ssh-ed25519 AAAA" "" true false false ["web"].
Definition alice : Caller := mkCaller "alice" (Some ["web"]) "" "".
Definition plain_opts : ExecOptions := mkExecOptions false "" false false false "" false.

Definition broker_session : liveSession :=
  mkSession "5e55" "alice" "" "web1" 7 "exec" 1%nat None Hour Hour (Some (time_of_unix 3900)) 0 "" "" false "" false
    (chain_signature [("web1", broker_info)]) false false.
Definition broker_manager : sessionManager :=
  sm_run demo_iter (newSessionManager (300 * Second) (1800 * Second)) [OpAdd broker_session].

Definition sign_now (i : Intent) : result sgn_error Issued :=
  local_answer (@SignIntent prefix_engine plain_parser toy_ed25519 (fixed_json sample_envelope) broker_signer sample_sign_env i).

(** Every call succeeds; the clock stands at one hour. *)
Definition broker_handler : handler unit := fun X c s =>
  match c in call X return unit * X with
  | CachedHost name => (s, if bool_decide (name = "web1") then Some broker_info else None)
  | Now => (s, Hour)
  | LastHostRefresh => (s, None)
  | FetchHosts => (s, Some {["web1" := broker_info]})
  | StoreHosts _ _ => (s, ())
  | CachedCluster _ => (s, None)
  | HostKeyLoad _ => (s, None)
  | HostKeyParse l => (s, Some l)
  | HostKeyStore _ _ => (s, ())
  | HostKeyPrune => (s, ())
  | FetchRevocations => (s, None)
  | SignIntentCall i => (s, sign_now i)
  | GenerateEphemeralKey => (s, Some ("priv", "key"))
  | NewSessionID => (s, "5e55")
  | Dial hops => (s, match hops with [] => None | _ => Some 1%nat end)
  | ExecOnce _ _ _ _ => (s, Some (mkExecResult "up 3 days" "" 0))
  | OpenShell _ _ _ => (s, Some 2%nat)
  | ShellExec _ _ => (s, Some (mkExecResult "" "" 0))
  | OpenRecording _ => (s, true)
  | CloseRecorder _ | CloseConn _ | CloseShell _ => (s, ())
  | SessionAdd x => (s, (add broker_manager x).2)
  | SessionRemove _ => (s, ())
  | SessionCheckout n n' id c => (s, (checkoutOwned broker_manager n n' id c).2)
  | SessionCheckin _ _ => (s, ())
  | SessionRemoveOwned id c => (s, (removeOwned broker_manager id c).2)
  | SessionReap _ => (s, [])
  | SessionKill _ => (s, [])
  | SessionCloseAll => (s, [])
  | SessionCloseOnce _ => (s, true)
  | K8sClient _ _ _ => (s, true)
  | K8sRequest _ _ _ _ _ => (s, Some "")
  | Append _ => (s, true)
  end.

Definition broker_env : environment :=
  mkEnv (@local_sgn prefix_engine plain_parser toy_ed25519 (fixed_json sample_envelope) broker_signer)
    (fun l => Some l) (fun _ _ => True) (fun _ _ => True)
    (opened (fun l => Some l) (fun _ _ => True) (fun _ _ => True)).

Lemma broker_session_opened : opened (fun l => Some l) (fun _ _ => True) (fun _ _ => True) broker_session.
Proof.
  split; [by left| |done].
  exists [mkHop "10.0.0.1:22" "deploy" "ssh-ed25519 AAAA" "priv" (mkCertificate "key" 7 "" [] 0 3900 ∅ ∅ "ca-default")],
    [("web1", broker_info)], (mkHop "10.0.0.1:22" "deploy" "ssh-ed25519 AAAA" "priv" (mkCertificate "key" 7 "" [] 0 3900 ∅ ∅ "ca-default")).
  split_and!; try done. by repeat constructor.
Qed.

Lemma broker_manager_of : manager_of broker_env broker_manager.
Proof.
  split; [apply sm_run_ok, new_ok|]. intros p s. unfold broker_manager, sm_run. cbn [fold_left sm_step].
  intros Hp. assert (s = broker_session) as ->; [|apply broker_session_opened].
  unfold add in Hp. change (maxSessionsGlobal <=? count (newSessionManager (300 * Second) (1800 * Second))) with false in Hp.
  change (maxSessionsPerCaller <=? caller_count (newSessionManager (300 * Second) (1800 * Second)) (ls_caller broker_session)) with false in Hp.
  simpl in Hp. by apply lookup_insert_Some in Hp as [[_ ?]|[_ ?]].
Qed.

Lemma broker_answers X (c : call X) s : answers broker_env c (broker_handler X c s).2.
Proof.
  destruct c; try exact I; simpl.
  - by left.
  - done.
  - by exists sample_sign_env.
  - by destruct hops.
  - done.
  - by exists broker_manager; split; [apply broker_manager_of|].
  - by exists broker_manager; split; [apply broker_manager_of|].
  - by exists broker_manager; split; [apply broker_manager_of|].
Qed.

Definition broker_engine : Engine := mkEngine ∅ "" true (900 * Second) true "broker1" "" false 0.
Definition execute_trace : list obs :=
  (traced broker_handler (Execute 2 broker_engine alice "web1" "uptime" 60 plain_opts) ()).1.2.
Definition is_exec (ob : obs) : bool := match ob with OExec _ _ _ _ _ => true | _ => false end.

Example execute_runs :
  (traced broker_handler (Execute 2 broker_engine alice "web1" "uptime" 60 plain_opts) ()).2
  = Ok (mkResult "up 3 days" "" 0 7 None None).
Proof. vm_compute. reflexivity. Qed.

Definition position (p : obs → bool) (t : list obs) : nat := length (take_while (fun ob => negb (p ob)) t).
Definition before (p : obs → bool) (t : list obs) : list obs := take (position p t) t.
Definition after (p : obs → bool) (t : list obs) : list obs := drop (S (position p t)) t.

Lemma broker_host_ok : @host_compiled prefix_engine broker_host.
Proof. constructor; [by apply (@ps_Validate_patterns prefix_engine)|done|vm_compute; congruence]. Qed.

Lemma executed_needs_policy_witness :
  execute_trace = before is_exec execute_trace ++ OExec 1 "uptime" false "" (Some (mkExecResult "up 3 days" "" 0)) :: after is_exec execute_trace ∧
  "uptime" = "uptime" ∧ eo_DryRun plain_opts = false.
Proof.
  assert (Ht : execute_trace = before is_exec execute_trace ++ OExec 1 "uptime" false "" (Some (mkExecResult "up 3 days" "" 0)) :: after is_exec execute_trace)
    by (vm_compute; reflexivity).
  split; [exact Ht|].
  destruct (@executed_needs_policy prefix_engine plain_parser toy_ed25519 (fixed_json sample_envelope) broker_env broker_signer
    2 broker_engine alice "web1" "uptime" 60 plain_opts execute_trace (Some (Ok (mkResult "up 3 days" "" 0 7 None None)))
    (before is_exec execute_trace) 1 "uptime" false "" (Some (mkExecResult "up 3 days" "" 0)) (after is_exec execute_trace) broker_host)
    as (H1 & H2 & _);
    [intros i x H; exact H| |exact Ht|reflexivity|apply broker_host_ok|apply web_provider_ok|reflexivity|reflexivity|exact (conj H1 H2)].
  rewrite <-execute_runs. apply traced_behaves, broker_answers.
Defined.

Definition session_trace : list obs :=
  (traced broker_handler (@SessionExec plain_parser 2 broker_engine alice "5e55" "uptime") ()).1.2.

Example session_runs :
  (traced broker_handler (@SessionExec plain_parser 2 broker_engine alice "5e55" "uptime") ()).2
  = Ok (mkResult "up 3 days" "" 0 7 None None).
Proof. vm_compute. reflexivity. Qed.

Lemma session_behaves :
  behaves broker_env (@SessionExec plain_parser 2 broker_engine alice "5e55" "uptime") session_trace (Some (Ok (mkResult "up 3 days" "" 0 7 None None))).
Proof. rewrite <-session_runs. apply traced_behaves, broker_answers. Qed.

Lemma session_sends :
  session_trace = before is_exec session_trace ++ OExec 1 "uptime" false "" (Some (mkExecResult "up 3 days" "" 0)) :: after is_exec session_trace.
Proof. vm_compute. reflexivity. Qed.

Lemma session_needs_policy_witness :
  ∃ s senv pub, checked_out broker_env alice "5e55" (before is_exec session_trace) s ∧
    (l_policy broker_signer !! ls_host s = Some broker_host →
     @spec_decide prefix_engine plain_parser (widened broker_host (preflight_command broker_engine alice s "uptime" pub) (l_grants broker_signer)
       (ck_grants (sg_clocks senv))) "uptime" ≠ VDeny).
Proof.
  destruct (@session_needs_policy prefix_engine plain_parser toy_ed25519 (fixed_json sample_envelope) broker_env broker_signer
    2 broker_engine alice "5e55" "uptime" session_trace _ _ _ _ (fun i x H => H) session_behaves session_sends)
    as (s & senv & pub & Hco & H); [left; by eexists _, _, _, _, _|].
  exists s, senv, pub. split; [exact Hco|]. intros Hhp.
  destruct (H broker_host Hhp) as (_ & Hv & _);
    [apply broker_host_ok|apply web_provider_ok|reflexivity|reflexivity|discriminate|exact Hv].
Defined.

Lemma session_command_authorised_witness :
  ∃ s dec envelope, @authorised broker_env broker_engine alice "5e55" "uptime" (before is_exec session_trace) s dec envelope ∧
    same_route broker_env broker_engine (before is_exec session_trace) s ∧ ls_mode s = "exec".
Proof.
  destruct (@session_command_authorised plain_parser broker_env 2 broker_engine alice "5e55" "uptime" session_trace _
    (fun s0 H => H) session_behaves) as (H & _ & _).
  destruct (H _ _ _ _ _ _ _ session_sends) as (s & dec & envelope & H1 & H2 & H3 & _).
  exists s, dec, envelope. exact (conj H1 (conj H2 H3)).
Defined.

Definition open_trace : list obs :=
  (traced broker_handler (OpenSession 2 broker_engine alice "web1" "" 60 plain_opts) ()).1.2.
Definition is_add (ob : obs) : bool := match ob with OAdd _ _ => true | _ => false end.

Example open_runs :
  (traced broker_handler (OpenSession 2 broker_engine alice "web1" "" 60 plain_opts) ()).2 = Ok ("5e55", 7).
Proof. vm_compute. reflexivity. Qed.

Lemma session_opened_properly_witness :
  open_done broker_engine alice "web1" open_trace (Ok ("5e55", 7)) ∧
  ∀ t1 s r t2, open_trace = t1 ++ OAdd s r :: t2 → published broker_env broker_engine alice "web1" "" 60 plain_opts t1 s.
Proof.
  destruct (session_opened_properly broker_env 2 broker_engine alice "web1" "" 60 plain_opts open_trace (Some (Ok ("5e55", 7))))
    as (H1 & _ & _ & H2); [|exact (conj (H2 _ eq_refl) H1)].
  rewrite <-open_runs. apply traced_behaves, broker_answers.
Defined.
