(* ===== verification/EngineFiles.v ===== *)
(** * File transfers, captured output and input limits

    [internal/broker/filetransfer.go], [internal/broker/input.go] and the output
    limiter of [internal/ssh/run.go]. *)

From S2P Require Import Prelude GoStrings CmdPolicy PolicySet Encoding K8sAction Intent Elevate Crypto HostPolicy Signer Sessions Prog Broker Engine.

(** ** Captured output *)

Definition MaxOutputBytes : Z := 10 * 1024 * 1024.

Definition newline : string := string_of_bytes [10].
(** [fmt.Sprintf("\n[output truncated: limit of %d bytes exceeded]\n", limit)] *)
Definition truncationMarker (limit : Z) : string :=
  newline +:+ "[output truncated: limit of " +:+ FormatInt limit +:+ " bytes exceeded]" +:+ newline.
Definition TruncationMarkerLen : Z := Z.of_nat (String.length (truncationMarker MaxOutputBytes)).

Record limitedWriter := mkLimitedWriter { lw_buf : string; lw_max : Z; lw_truncated : bool }.

(** [Write]: always reports the whole slice as written. *)
Definition lw_Write (w : limitedWriter) (p : string) : limitedWriter * Z :=
  let rem := lw_max w - slen (lw_buf w) in
  if rem <=? 0 then (mkLimitedWriter (lw_buf w) (lw_max w) (if 0 <? slen p then true else lw_truncated w), slen p)
  else if rem <? slen p then (mkLimitedWriter (lw_buf w +:+ stake (Z.to_nat rem) p) (lw_max w) true, slen p)
  else (mkLimitedWriter (lw_buf w +:+ p) (lw_max w) (lw_truncated w), slen p).

Definition lw_output (w : limitedWriter) : string :=
  if negb (lw_truncated w) then lw_buf w else lw_buf w +:+ truncationMarker (lw_max w).

(** What a command that writes [chunks] to a stream leaves in its [Result]. *)
Definition capture (max : Z) (chunks : list string) : string :=
  lw_output (fold_left (fun w p => (lw_Write w p).1) chunks (mkLimitedWriter "" max false)).

(** ** Input limits *)

Definition MaxInputLen : Z := 64 * 1024.
Definition IdentifierLimits : gmap string Z :=
  {["server" := 1024; "sudo_user" := 1024; "session_id" := 1024; "mode" := 64; "cluster" := 1024; "resource" := 1024;
    "group" := 1024; "namespace" := 1024; "name" := 1024; "container" := 1024; "path" := 4096]}.

Inductive input_error := EInputTooLong (name : string) (limit : Z) | EInputNull (name : string).

Definition NUL : ascii := "000"%char.
Definition check_field (kv : string * string) : result input_error unit :=
  let limit := match IdentifierLimits !! kv.1 with Some l => l | None => MaxInputLen end in
  if limit <? slen kv.2 then Err (EInputTooLong kv.1 limit)
  else if ContainsByte kv.2 NUL then Err (EInputNull kv.1) else Ok ().
Definition ValidateInput (iter : range_order string) (fields : gmap string string) : result input_error unit :=
  for_each check_field (iter fields).

(** ** Transfers *)

Definition DefaultFileTransferMaxBytes : Z := 512 * 1024.
Definition MaxFileTransferMaxBytes : Z := MaxOutputBytes - TruncationMarkerLen.

(** [validateFileTransferMaxBytes], at start-up. *)
Definition validateFileTransferMaxBytes (e : Engine) : bool := e_FileTransferMaxBytes e <=? MaxFileTransferMaxBytes.

Definition FileTransferMaxBytes (e : Engine) : Z :=
  if 0 <? e_FileTransferMaxBytes e then e_FileTransferMaxBytes e else DefaultFileTransferMaxBytes.

Record FileTransferResult := mkTransfer {
  ft_Content : string;
  ft_Size : Z;
  ft_SHA256 : string;
  ft_Serial : Z;
  ft_Warning : warning;
}.

(** [^[0-7]{3,4}$] *)
Definition modeRe (mode : string) : bool :=
  forall_char (in_range 48 55) mode && ((String.length mode =? 3)%nat || (String.length mode =? 4)%nat).

Definition validateTransferPath (path : string) : bool :=
  negb (bool_decide (path = "") || ContainsByte path NUL || ContainsAny path (string_of_bytes [10; 13]) || HasUnsafeTokenChar path).

Section transfers.
Context `{SH : Sha256} (fuel : nat) (e : Engine).

Definition transfer_command (path : string) (n : Z) (digest : string) : string :=
  "path=" +:+ path +:+ " bytes=" +:+ FormatInt n +:+ " sha256=" +:+ digest.
Definition hexsum (s : string) : string := hex_EncodeToString (Sum256 s).

Definition transfer_opts (content : string) : ExecOptions := mkExecOptions false "" false false false content true.

Definition PutFile (c : Caller) (host path content mode : string) (ttlSeconds : Z) :
    prog (result engine_error FileTransferResult) :=
  if negb (validateTransferPath path) then Ret (Err (ErrBadRequest BadPath))
  else if FileTransferMaxBytes e <? slen content
  then Ret (Err (ErrBadRequest (BadContentSize (slen content) (FileTransferMaxBytes e))))
  else
  let q := ShellQuote path in
  if bool_decide (mode ≠ "") && negb (modeRe mode) then Ret (Err (ErrBadRequest (BadFileMode mode)))
  else
  let command := if bool_decide (mode ≠ "") then "cat > " +:+ q +:+ " && chmod " +:+ mode +:+ " " +:+ q else "cat > " +:+ q in
  res <~ Execute fuel e c host command ttlSeconds (transfer_opts content) ;;
  if negb (re_ExitCode res =? 0) then Ret (Err (ErrRemoteCommand (re_ExitCode res) (TrimSpace (re_Stderr res))))
  else
  let digest := hexsum content in
  audit_gate e (with_serial (re_Serial res) (basic_entry c host (transfer_command path (slen content) digest) "file_put" NoErr))
    (mkTransfer "" (slen content) digest (re_Serial res) (re_Warning res)).

Definition get_max (maxBytes : Z) : Z :=
  let max := FileTransferMaxBytes e in if (0 <? maxBytes) && (maxBytes <? max) then maxBytes else max.
Definition get_command (path : string) (max : Z) : string := "head -c " +:+ FormatInt (max + 1) +:+ " < " +:+ ShellQuote path.

Definition GetFile (c : Caller) (host path : string) (maxBytes ttlSeconds : Z) : prog (result engine_error FileTransferResult) :=
  if negb (validateTransferPath path) then Ret (Err (ErrBadRequest BadPath))
  else
  let max := get_max maxBytes in
  res <~ Execute fuel e c host (get_command path max) ttlSeconds (transfer_opts "") ;;
  if negb (re_ExitCode res =? 0) then Ret (Err (ErrRemoteCommand (re_ExitCode res) (TrimSpace (re_Stderr res))))
  else
  let data := re_Stdout res in
  if max <? slen data then Ret (Err (ErrBadRequest (BadFileTooLarge max)))
  else
  let digest := hexsum data in
  audit_gate e (with_serial (re_Serial res) (basic_entry c host (transfer_command path (slen data) digest) "file_get" NoErr))
    (mkTransfer data (slen data) digest (re_Serial res) (re_Warning res)).
End transfers.

(** ** Facts *)

Lemma slen_take n s : Z.of_nat n ≤ slen s → slen (stake n s) = Z.of_nat n.
Proof.
  unfold slen. revert s. induction n as [|n IH]; intros [|c s]; simpl; try lia. intros H. specialize (IH s). lia.
Qed.

Definition concat_chunks (chunks : list string) : string := fold_right String.append "" chunks.

Lemma lw_writes w chunks : 0 ≤ lw_max w → slen (lw_buf w) ≤ lw_max w →
  (lw_truncated w = true → slen (lw_buf w) = lw_max w) →
  let w' := fold_left (fun w p => (lw_Write w p).1) chunks w in
  lw_max w' = lw_max w ∧ slen (lw_buf w') ≤ lw_max w ∧ (lw_truncated w' = true → slen (lw_buf w') = lw_max w) ∧
  (lw_truncated w' = false → lw_truncated w = false ∧ lw_buf w' = lw_buf w +:+ concat_chunks chunks).
Proof.
  revert w. induction chunks as [|p chunks IH]; intros w Hm Hb Ht; simpl.
  { split_and!; try done. by rewrite String_append_nil. }
  assert (Hw : let w1 := (lw_Write w p).1 in lw_max w1 = lw_max w ∧ slen (lw_buf w1) ≤ lw_max w ∧
    (lw_truncated w1 = true → slen (lw_buf w1) = lw_max w) ∧
    (lw_truncated w1 = false → lw_truncated w = false ∧ lw_buf w1 = lw_buf w +:+ p)).
  { unfold lw_Write. pose proof (slen_nonneg p). pose proof (slen_nonneg (lw_buf w)).
    destruct (_ <=? 0) eqn:E1; unbool; simpl.
    { destruct (0 <? slen p) eqn:E2; unbool; simpl; split_and!; try done; [lia|].
      intros. split; [done|]. destruct p; [by rewrite String_append_nil|]. unfold slen in E2. simpl in E2. lia. }
    destruct (_ <? slen p) eqn:E2; unbool; simpl; rewrite slen_app; split_and!; try done; try lia.
    - rewrite slen_take by lia. lia.
    - rewrite slen_take by lia. lia.
    - intros Htr. specialize (Ht Htr). lia. }
  destruct Hw as (W1 & W2 & W3 & W4). destruct (IH (lw_Write w p).1) as (K1 & K2 & K3 & K4); [by rewrite W1..|].
  rewrite W1 in *. split_and!; try done. intros Hf. destruct (K4 Hf) as [F1 F2]. destruct (W4 F1) as [F3 F4].
  split; [done|]. by rewrite F2, F4, String_append_assoc.
Qed.

(** A capture is the stream itself, or longer than the limit. *)
Lemma capture_spec max chunks : 0 ≤ max →
  capture max chunks = concat_chunks chunks ∨ slen (capture max chunks) = max + slen (truncationMarker max).
Proof.
  intros Hm. unfold capture, lw_output.
  destruct (lw_writes (mkLimitedWriter "" max false) chunks) as (K1 & K2 & K3 & K4); [done|simpl; unfold slen; simpl; lia|done|].
  set (w := fold_left _ _ _) in *. destruct (lw_truncated w) eqn:E; simpl in *.
  - right. by rewrite slen_app, K3, K1.
  - left. by destruct (K4 eq_refl) as [_ ->].
Qed.
