(* ===== verification/EngineK8s.v ===== *)
(** * Kubernetes actions in the engine

    [internal/broker/k8s.go]: an action is resolved against the cluster's
    resource table, authorised by the signer, run with the bound token and
    recorded. *)

From S2P Require Import Prelude GoStrings CmdPolicy PolicySet Encoding K8sAction Intent Crypto HostPolicy K8sPolicy Signer Sessions Prog Broker Engine EngineFiles.

Record K8sResult := mkK8sResult {
  kr_Output : string;
  kr_Serial : Z;
  kr_Warning : warning;
  kr_DryRun : option DecisionInfo;
}.

(** The conversion from the wire type copies every field, so the table is built
    from the cluster's list itself. *)
Definition resourceTable (ci : ClusterInfo) : result k8s_error (gmap string ResourceDef) := Resources (ci_ExtraResources ci).

Section k8s.
Context `{SH : Sha256} (e : Engine).

Definition clusterInfo (name : string) : prog (option ClusterInfo) := call_ (CachedCluster name).

Definition k8sPreflightDenied {A : Type} (c : Caller) (host : string) (err : engine_error) : prog (result engine_error A) :=
  audit_fail e (for_cluster "" (basic_entry c host "target=k8s" "denied" (ErrOf err))) err.

Definition k8s_entry (c : Caller) (host canonical : string) (serial : Z) (outcome : string) (dec : option DecisionInfo)
    (err : record_err) (manifest : string) : entry :=
  let ent := for_cluster (if bool_decide (manifest ≠ "") then hexsum manifest else "")
    (with_run 0 "" false (decisionRule dec) (decisionWarning dec) ""
       (with_serial serial (basic_entry c host ("target=k8s action=" +:+ canonical) outcome err))) in
  if HasPrefix outcome "dry_run_" then simulated ent else ent.

Definition auditK8s (c : Caller) (cluster canonical : string) (serial : Z) (outcome : string) (dec : option DecisionInfo)
    (err : record_err) (manifest : string) : prog (option engine_error) :=
  ci <- clusterInfo cluster ;;
  appendAudit e (k8s_entry c (match ci with Some x => ci_APIServer x | None => cluster end) canonical serial outcome dec err manifest).

(** [runK8sAction]: the request the verb stands for. *)
Definition runK8sAction (ci : ClusterInfo) (token : string) (def : ResourceDef) (a : K8sAction) (manifest : string) :
    prog (result engine_error string) :=
  if bool_decide (ka_Verb a = K8sVerbApply) && bool_decide (manifest = "") then Ret (Err ENoManifest)
  else if bool_decide (ka_Verb a ∈ [K8sVerbGet; K8sVerbList; K8sVerbLogs; K8sVerbDelete; K8sVerbApply]) then
    r <- call_ (K8sRequest (ci_APIServer ci) token def a (if bool_decide (ka_Verb a = K8sVerbApply) then manifest else "")) ;;
    Ret (match r with Some out => Ok out | None => Err EK8sCall end)
  else Ret (Err (EUnsupportedVerb (ka_Verb a))).

Definition k8s_intent_of (c : Caller) (cluster : string) (a : K8sAction) (dry : bool) : Intent :=
  mkIntent localCaller cluster TargetTypeK8s (Some a) RoleTarget PurposeOneshot "" (Canonical a) 0 "" false "" false false dry
    false false "" (who_ID c) (who_Groups c) (who_Context c) (who_RawToken c) 0 "" "".

(** The checks before the signer: the table entry and the normalised action. *)
Definition k8s_preflight (ci : ClusterInfo) (a : K8sAction) : result k8s_error (ResourceDef * K8sAction) :=
  let! _ := ka_Validate a in
  let! table := resourceTable ci in
  let! def := k8s_Resolve table (ka_Resource a) (ka_Group a) in
  Ok (def, normalize def a).

Definition K8sExecute (c : Caller) (cluster : string) (action : K8sAction) (manifest : string) (dry : bool) :
    prog (result engine_error K8sResult) :=
  ci <- clusterInfo cluster ;;
  match ci with
  | None => k8sPreflightDenied c cluster (EUnknownCluster cluster)
  | Some ci =>
  match k8s_preflight ci action with
  | Err x => k8sPreflightDenied c (ci_APIServer ci) (EK8sAction x)
  | Ok (def, a) =>
  if bool_decide (ka_Verb a = K8sVerbApply) && negb dry && all_space manifest
  then k8sPreflightDenied c (ci_APIServer ci) ENoManifest
  else
  r <- call_ (SignIntentCall (k8s_intent_of c cluster a dry)) ;;
  match r with
  | Err x =>
      let err := classifySignErr (ESignFailed cluster x) in
      auditK8s c cluster (Canonical a) 0 (match err with ErrUpstream _ => "error" | _ => "denied" end) None (ErrOf err) "" ;;;
      Ret (Err err)
  | Ok issued =>
  let dec := is_Decision issued in
  if dry then
    auditK8s c cluster (Canonical a) 0
      (match dec with Some d => if negb (di_Allowed d) then "dry_run_denied" else "dry_run_allowed" | None => "dry_run_allowed" end)
      dec NoErr "" ;;;
    Ret (Ok (mkK8sResult "" 0 None dec))
  else if bool_decide (is_K8sToken issued = "") then
    auditK8s c cluster (Canonical a) 0 "approval_required" dec NoErr "" ;;;
    Ret (Err (approvalError cluster dec (mkExecOptions false "" false false false "" false)))
  else
  ok <- call_ (K8sClient (ci_APIServer ci) (ci_CACertPEM ci) (is_K8sToken issued)) ;;
  if negb ok then
    auditK8s c cluster (Canonical a) (is_Serial issued) "error" dec (ErrOf EK8sClient) "" ;;; Ret (Err EK8sClient)
  else
  out <- runK8sAction ci (is_K8sToken issued) def a manifest ;;
  aerr <- auditK8s c cluster (Canonical a) (is_Serial issued) (match out with Ok _ => "executed" | Err _ => "error" end) dec
            (match out with Ok _ => NoErr | Err x => ErrOf x end) manifest ;;
  match aerr with
  | Some err => Ret (Err err)
  | None => Ret (match out with
                 | Ok o => Ok (mkK8sResult o (is_Serial issued) (decisionWarning dec) None)
                 | Err x => Err x
                 end)
  end end end end.
End k8s.
