(* ===== verification/EngineK8sRun.v ===== *)
(** * What the engine does with a Kubernetes action

    The broker and the signer agree on the action; a request reaches the cluster
    only with the token minted for exactly that action. *)

From S2P Require Import Prelude GoStrings CmdPolicy PolicySet Encoding K8sAction Intent Crypto HostPolicy K8sPolicy Signer Sessions Prog Broker Engine Routes EngineSessions EngineRun EngineFiles EngineK8s.

(** ** Agreement on the action *)

Lemma normalize_idem def a : normalize def (normalize def a) = normalize def a.
Proof. unfold normalize. simpl. by destruct (rd_Namespaced def). Qed.

(** Normalising against a table that was built keeps an action valid. *)
Lemma preflight_valid extra t def a : Resources extra = Ok t → k8s_Resolve t (ka_Resource a) (ka_Group a) = Ok def →
  ka_Validate a = Ok () → ka_Validate (normalize def a) = Ok ().
Proof.
  intros Ht Hres Hv. unfold k8s_Resolve in Hres. destruct (t !! ka_Resource a) as [def'|] eqn:Hl; [|done].
  destruct (_ || _) eqn:Eg; [|done]. injection Hres as ->. rewrite orb_true_iff, !bool_decide_eq_true in Eg.
  destruct (Resources_ok _ _ Ht _ _ Hl) as (Hr & _ & Hg).
  apply normalize_valid; [done|destruct Eg; auto|done| |done]. intros Hp. assert (Hpods : core_table !! "pods" = Some (mkResourceDef "pods" "" "v1" "Pod" true)) by (vm_compute; reflexivity).
  apply (add_extra_keeps _ _ _ _ _ Ht) in Hpods. rewrite <-Hr, Hp, Hpods in Hl. by injection Hl as <-.
Qed.

Lemma normalize_resolves t def a : k8s_Resolve t (ka_Resource a) (ka_Group a) = Ok def →
  k8s_Resolve t (ka_Resource (normalize def a)) (ka_Group (normalize def a)) = Ok def.
Proof.
  unfold k8s_Resolve. simpl. destruct (t !! ka_Resource a) as [def'|]; [|done]. destruct (_ || _); [|done].
  intros [= ->]. by rewrite (bool_decide_eq_true_2 (rd_Group def = rd_Group def)), orb_true_r.
Qed.

Lemma k8s_preflight_inv ci a def a' : k8s_preflight ci a = Ok (def, a') →
  ka_Validate a = Ok () ∧ a' = normalize def a ∧
  ∃ table, Resources (ci_ExtraResources ci) = Ok table ∧ k8s_Resolve table (ka_Resource a) (ka_Group a) = Ok def.
Proof.
  unfold k8s_preflight, resourceTable. intros ([] & Hv & (table & Ht & (def' & Hd & [= -> <-])%rbind_Ok)%rbind_Ok)%rbind_Ok.
  split_and!; [done..|]. by exists table.
Qed.

(** What is left of the signer's gates once the action is agreed: identity. *)
Definition identity_gates (cp : ClusterPolicy) (c : Caller) (a : K8sAction) : result k8s_sign_error (ClusterPolicy * K8sAction) :=
  guard! negb (HasUnsafeTokenChar localCaller || HasUnsafeTokenChar (who_ID c) || HasUnsafeTokenChar (who_Context c)) else EK8sUnsafeIdentity in
  guard! callerAllowed (cl_AllowedCallers cp) localCaller else EK8sCaller in
  guard! (match who_Groups c with None => true | Some gs => GroupsIntersect (cl_Groups cp) gs end) else EK8sGroups in
  Ok (cp, a).

(** The broker and the signer mean the same action. An action that passes
    the broker's checks against a cluster's resource table is, in the normal
    form the broker sends, accepted as such by a signer with the same table: its
    gates never answer with an invalid action, an unresolved resource or a
    command that does not match; they decide on identity alone, and the action
    they hand to the policy is the one the broker will run. *)
Theorem k8s_action_agreed ci action def a table ct cp c cluster dry :
  k8s_preflight ci action = Ok (def, a) → Resources (ci_ExtraResources ci) = Ok table →
  ct !! cluster = Some cp → cl_Resources cp = table →
  let i := k8s_intent_of c cluster a dry in
  k8s_gates ct i = identity_gates cp c a.
Proof.
  intros Hpre Htab Hcp Hres i. destruct (k8s_preflight_inv _ _ _ _ Hpre) as (Hv & -> & table' & Ht' & Hd).
  rewrite Htab in Ht'. injection Ht' as <-.
  unfold k8s_gates. cbn [in_Host in_K8s i k8s_intent_of]. rewrite Hcp. rewrite (preflight_valid _ _ _ _ Htab Hd Hv).
  cbn -[HasUnsafeTokenChar callerAllowed GroupsIntersect k8s_Resolve normalize Canonical].
  rewrite Hres, (normalize_resolves _ _ _ Hd). simpl rmap_err. cbn [rbind].
  rewrite normalize_idem, (bool_decide_eq_true_2 (Canonical _ = _)) by done.
  rewrite (bool_decide_eq_false_2 ("" ≠ "")) by auto. done.
Qed.

(** ** The token and the request *)

Section requests.
Context `{SH : Sha256} (env : environment) (e : Engine) (c : Caller) (cluster : string) (action : K8sAction) (manifest : string) (dry : bool).

(** A request carries the token the signer issued for the action it performs. *)
Definition request_signed (h : list obs) (ob : obs) : Prop :=
  match ob with
  | OK8sRequest api token a body _ =>
      dry = false ∧ ∃ ci def iss, k8s_preflight ci action = Ok (def, a) ∧ ci_APIServer ci = api ∧
        OSign (k8s_intent_of c cluster a false) (Ok iss) ∈ h ∧ env_sgn env (k8s_intent_of c cluster a false) (Ok iss) ∧
        is_K8sToken iss = token ∧ token ≠ "" ∧ (body = "" ∨ body = manifest ∧ ka_Verb a = K8sVerbApply)
  | OExec _ _ _ _ _ | OShellExec _ _ _ | ODial _ _ | OAdd _ _ => False
  | _ => True
  end.

Lemma request_signed_quiet h X (cl : call X) x : quiet X cl → request_signed h (observe cl x).
Proof. by destruct 1. Qed.
#[local] Abbreviation rquiet := (safe_quiet env request_signed request_signed_quiet).
#[local] Abbreviation rqcall := (safe_qcall env request_signed request_signed_quiet).

Lemma auditK8s_quiet canonical serial outcome dec err body : only quiet (auditK8s e c cluster canonical serial outcome dec err body).
Proof. unfold auditK8s, clusterInfo, appendAudit. quiet. Qed.

(** A result was recorded, when the audit fails closed. *)
Definition k8s_done (h : list obs) (r : result engine_error K8sResult) : Prop :=
  ∀ res, r = Ok res → dry = false → e_auditFailClosed e = true →
    ∃ ent a, OAppend ent true ∈ h ∧ en_Outcome ent = "executed" ∧ en_Caller ent = who_ID c ∧
      en_Command ent = "target=k8s action=" +:+ Canonical a ∧ en_Serial ent = kr_Serial res ∧
      (manifest ≠ "" → en_BodySHA256 ent = hexsum manifest).

Lemma denied_safe h host err : safe env request_signed h (k8sPreflightDenied e c host err) k8s_done.
Proof. unfold k8sPreflightDenied, audit_fail. apply safe_bind, rquiet; [apply auditE_quiet|done]. Qed.

Lemma audited_safe h p r : only quiet p → (∀ res, r = Ok res → dry = true) →
  safe env request_signed h (pbind p (fun _ : option engine_error => Ret r)) k8s_done.
Proof.
  intros Hq Hr. apply safe_bind, rquiet; [done|]. intros t x. simpl. intros res -> Hd. specialize (Hr res eq_refl). congruence.
Qed.

Lemma finish_safe h a iss dec (out : result engine_error string) :
  safe env request_signed h
    (aerr <- auditK8s e c cluster (Canonical a) (is_Serial iss) (match out with Ok _ => "executed" | Err _ => "error" end) dec
              (match out with Ok _ => NoErr | Err x => ErrOf x end) manifest ;;
     match aerr with
     | Some err => Ret (Err err)
     | None => Ret (match out with
                    | Ok o => Ok (mkK8sResult o (is_Serial iss) (decisionWarning dec) None)
                    | Err x => Err x
                    end)
     end) k8s_done.
Proof.
  apply safe_bind. unfold auditK8s, clusterInfo, appendAudit. apply rqcall; [constructor|]. intros ci _.
  apply rqcall; [constructor|]. intros ok _. cbn [safe]. destruct out as [o|x].
  2:{ by destruct (negb ok && e_auditFailClosed e). }
  destruct ok; simpl.
  - intros res [= <-] _ _. eexists _, a. split_and!; [rewrite !elem_of_app; right; by left|done..|].
    simpl. intros Hm. by rewrite bool_decide_eq_true_2.
  - destruct (e_auditFailClosed e) eqn:Ef; [done|]. intros res _ _ Hf. congruence.
Qed.

Lemma run_safe h ci def a iss dec :
  k8s_preflight ci action = Ok (def, a) → dry = false → is_K8sToken iss ≠ "" →
  OSign (k8s_intent_of c cluster a false) (Ok iss) ∈ h → env_sgn env (k8s_intent_of c cluster a false) (Ok iss) →
  safe env request_signed h
    (out <- runK8sAction ci (is_K8sToken iss) def a manifest ;;
     aerr <- auditK8s e c cluster (Canonical a) (is_Serial iss) (match out with Ok _ => "executed" | Err _ => "error" end) dec
              (match out with Ok _ => NoErr | Err x => ErrOf x end) manifest ;;
     match aerr with
     | Some err => Ret (Err err)
     | None => Ret (match out with
                    | Ok o => Ok (mkK8sResult o (is_Serial iss) (decisionWarning dec) None)
                    | Err x => Err x
                    end)
     end) k8s_done.
Proof.
  intros Hpre Hdry Htok Hin Hs. apply safe_bind. unfold runK8sAction. destruct (_ && _); [apply finish_safe|].
  case_bool_decide; [|apply finish_safe]. apply safe_call. intros r _. split; [|apply finish_safe].
  simpl. split; [done|]. exists ci, def, iss. split_and!; try done.
  case_bool_decide; [by right|by left].
Qed.

Lemma K8sExecute_safe : safe env request_signed [] (K8sExecute e c cluster action manifest dry) k8s_done.
Proof.
  unfold K8sExecute, clusterInfo. apply rqcall; [constructor|]. intros [ci|] _; [|apply denied_safe].
  destruct (k8s_preflight ci action) as [[def a]|x] eqn:Hpre; [|apply denied_safe].
  destruct (_ && all_space manifest); [apply denied_safe|].
  apply rqcall; [constructor|]. intros [iss|x] Hs; [|apply audited_safe; [apply auditK8s_quiet|done]].
  destruct dry eqn:Edry; [apply audited_safe; [apply auditK8s_quiet|done]|].
  case_bool_decide as Htok; [apply audited_safe; [apply auditK8s_quiet|done]|].
  apply safe_call. intros ok _. split; [done|]. destruct ok; [|apply audited_safe; [apply auditK8s_quiet|done]].
  apply run_safe; try done. rewrite !elem_of_app. left. right. by left.
Qed.

(** A request reaches a cluster only with the token for exactly that
    action. Whenever [K8sExecute] calls an API server, in whatever interleaving:
    it is not a dry run; the action is the normalised form of the requested one;
    the token is the one the signer returned for an intent with that very action
    and this caller; a manifest goes out only with an apply. In fail-closed mode
    a result is handed back only with its record, which carries the digest of
    the manifest, in the log. *)
Theorem k8s_request_signed t o :
  behaves env (K8sExecute e c cluster action manifest dry) t o →
  (∀ t1 api token a body r t2, t = t1 ++ OK8sRequest api token a body r :: t2 → request_signed t1 (OK8sRequest api token a body r)) ∧
  (∀ r, o = Some r → k8s_done t r).
Proof.
  intros Hb. destruct (safe_sound env _ _ [] _ _ _ K8sExecute_safe Hb) as [H1 H2]. split; [|exact H2].
  intros t1 api token a body r t2 Ht. exact (H1 _ _ _ Ht).
Qed.
End requests.

(** A cluster with the built-in resources, and a log read that names no group. *)
Definition agreed_cluster : ClusterPolicy := mkClusterPolicy "https://10.0.0.2:6443" "" "" 600 ["web"] ["local"] [] [] [] [] core_table "".
Definition agreed_action : K8sAction := mkK8sAction K8sVerbLogs "pods" "" "web" "web-0".

Lemma k8s_action_agreed_witness :
  k8s_gates {["prod" := agreed_cluster]} (k8s_intent_of (mkCaller "alice" (Some ["web"]) "" "") "prod" agreed_action false)
    = Ok (agreed_cluster, agreed_action).
Proof.
  refine (eq_trans (k8s_action_agreed (mkClusterInfo "https://10.0.0.2:6443" "" ["web"] []) agreed_action
    (mkResourceDef "pods" "" "v1" "Pod" true) agreed_action core_table {["prod" := agreed_cluster]} agreed_cluster
    (mkCaller "alice" (Some ["web"]) "" "") "prod" false _ _ _ _) _); vm_compute; reflexivity.
Defined.
