(* ===== verification/EngineRecords.v ===== *)
(** * Records and connections

    Over complete runs of the engine's methods: what is recorded, and what is
    torn down. *)

From S2P Require Import Prelude GoStrings CmdPolicy PolicySet Encoding K8sAction Intent Elevate Crypto HostPolicy K8sPolicy Signer Sessions Prog Broker Engine Routes EngineSessions EngineRun EngineSessionRun EngineFiles EngineK8s EngineK8sRun.

(** Observations that are neither a dial, nor a command, nor a publication. *)
Definition silent (ob : obs) : Prop :=
  match ob with
  | ODial _ _ | OExec _ _ _ _ _ | OShellExec _ _ _ | OAdd _ _ | OCloseConn _ | OCloseOnce _ _ => False
  | _ => True
  end.

Lemma quiet_silent {A : Type} env (p : prog A) t o : only quiet p → behaves env p t o → Forall silent t.
Proof.
  intros Hq Hb. apply Forall_forall. intros ob Hin. destruct (behaves_only _ _ _ _ _ _ Hq Hb Hin) as (X & c & x & Hc & ->).
  by destruct Hc.
Qed.

Section complete.
Context (env : environment) (fuel : nat) (e : Engine).

Lemma auditE_appends ent t r : behaves env (auditE e ent) t (Some r) →
  ∃ u ok, OAppend (with_user u ent) ok ∈ t ∧ (r = None → e_auditFailClosed e = true → ok = true).
Proof.
  unfold auditE, appendAudit. intros (t1 & t2 & hi & -> & _ & Hb)%behaves_bind.
  apply behaves_call in Hb as (ok & t' & _ & -> & [-> [= ->]]%behaves_Ret).
  assert (∃ u, observe (Append (match hi with
               | Some h => if bool_decide (en_User ent = "") then with_user (hi_User h) ent else ent
               | None => ent
               end)) ok = OAppend (with_user u ent) ok) as [u ->].
  { destruct hi as [h|]; [case_bool_decide|]; [by eexists|exists (en_User ent); by destruct ent..]. }
  exists u, ok. split; [rewrite elem_of_app; right; by left|]. intros H Hf. rewrite Hf in H. by destruct ok.
Qed.

Lemma audit_fail_appends {A : Type} ent err t (r : result engine_error A) :
  behaves env (audit_fail e ent err) t (Some r) → r = Err err ∧ ∃ u ok, OAppend (with_user u ent) ok ∈ t.
Proof.
  unfold audit_fail. intros (t1 & t2 & a & -> & Ha & [-> [= ->]]%behaves_Ret)%behaves_bind.
  destruct (auditE_appends _ _ _ Ha) as (u & ok & ? & _). split; [done|]. exists u, ok. rewrite elem_of_app. by left.
Qed.

Lemma audit_gate_appends {A : Type} ent (a : A) t r : behaves env (audit_gate e ent a) t (Some r) →
  ∃ u ok, OAppend (with_user u ent) ok ∈ t ∧ (∀ x, r = Ok x → x = a ∧ (e_auditFailClosed e = true → ok = true)).
Proof.
  unfold audit_gate. intros (t1 & t2 & x & -> & Ha & [-> [= ->]]%behaves_Ret)%behaves_bind.
  destruct (auditE_appends _ _ _ Ha) as (u & ok & ? & Hok). exists u, ok. split; [rewrite elem_of_app; by left|].
  intros y. destruct x; [done|]. intros [= <-]. auto.
Qed.

Lemma audit_gate_quiet {A : Type} ent (a : A) : only quiet (audit_gate e ent a).
Proof. unfold audit_gate. apply only_bind; [apply auditE_quiet|done]. Qed.

Lemma chain_loop_quiet n cur seen chain : only quiet (chain_loop e n cur seen chain).
Proof.
  revert cur seen chain. induction n as [|n IH]; intros cur seen chain; simpl; repeat case_bool_decide; try done.
  apply only_bind; [apply hostInfo_quiet|]. intros [hi|]; [apply IH|done].
Qed.
Lemma parse_quiet line : only quiet (parseHostKeyCached line).
Proof. unfold parseHostKeyCached. quiet. Qed.
Lemma sign_hop_quiet opts name hi intent : only quiet (sign_hop opts name hi intent).
Proof. unfold sign_hop. quiet. Qed.
Lemma hops_loop_quiet c ttl purpose command opts names hops serial dec :
  only quiet (hops_loop e c ttl purpose command opts names hops serial dec).
Proof.
  revert hops serial dec. induction names as [|n names IH]; intros hops serial dec; simpl; [done|].
  apply only_bind; [apply hostInfo_quiet|]. intros [hi|]; [|done]. unfold ebind.
  apply only_bind; [apply sign_hop_quiet|]. intros [r|x]; [|done]. destruct (bool_decide _); apply IH.
Qed.
Lemma buildHops_quiet c ttl purpose command opts host : only quiet (buildHops fuel e c ttl purpose command opts host).
Proof.
  unfold buildHops, ebind, resolveChain. apply only_bind; [apply chain_loop_quiet|]. intros [chain|x]; [apply hops_loop_quiet|done].
Qed.
Lemma session_hops_quiet c ttl purpose mode opts names acc : only quiet (session_hops_loop e c ttl purpose mode opts names acc).
Proof.
  revert acc. induction names as [|n names IH]; intros acc; simpl; [done|].
  apply only_bind; [apply hostInfo_quiet|]. intros [hi|]; [|done]. unfold ebind.
  apply only_bind; [apply sign_hop_quiet|]. intros [r|x]; [|done]. destruct (bool_decide _); apply IH.
Qed.
Lemma buildHopsWithPrefix_quiet c ttl purpose mode opts host : only quiet (buildHopsWithPrefix fuel e c ttl purpose mode opts host).
Proof.
  unfold buildHopsWithPrefix, ebind, resolveChain. apply only_bind; [apply chain_loop_quiet|].
  intros [chain|x]; [apply session_hops_quiet|done].
Qed.

(** ** One-shot commands *)

(** The record of a one-shot command. *)
Definition run_record (c : Caller) (host command : string) (xr : option ExecResult) (ent : entry) : Prop :=
  en_Caller ent = who_ID c ∧ en_Host ent = host ∧ en_Command ent = command ∧
  en_Outcome ent = (match xr with Some _ => "executed" | None => "error" end) ∧
  en_ExitCode ent = (match xr with Some x => xr_ExitCode x | None => 0 end).

(** How a call of [Execute] ends: without a connection, or with one that
    carried the command, was recorded and closed. *)
Inductive execute_ends (c : Caller) (host command : string) (opts : ExecOptions) : list obs → result engine_error Result → Prop :=
| ends_before t r : Forall silent t → (∀ res, r = Ok res → eo_DryRun opts = true) → execute_ends c host command opts t r
| ends_undialled t1 hops t2 x : Forall silent t1 → Forall silent t2 →
    execute_ends c host command opts (t1 ++ ODial hops None :: t2) (Err x)
| ends_run t1 hops cn xr t2 r ent ok :
    Forall silent t1 → Forall silent t2 → OAppend ent ok ∈ t2 → run_record c host command xr ent →
    (∀ res, r = Ok res → (e_auditFailClosed e = true → ok = true) ∧ en_Serial ent = re_Serial res ∧
       ∃ x, xr = Some x ∧ re_Stdout res = xr_Stdout x ∧ re_Stderr res = xr_Stderr x ∧ re_ExitCode res = xr_ExitCode x) →
    execute_ends c host command opts
      (t1 ++ ODial hops (Some cn) :: OExec cn command (eo_PTY opts) (eo_Stdin opts) xr :: t2 ++ [OCloseConn cn]) r.

Lemma execute_tail c host command opts serial dec cn t r :
  behaves env (with_conn cn (
    res <- call_ (ExecOnce cn command (eo_PTY opts) (eo_Stdin opts)) ;;
    match res with
    | None => audit_fail e (with_serial serial (basic_entry c host command "error" (ErrOf (ErrUpstream UpExec))))
                (ErrUpstream UpExec)
    | Some res =>
        audit_gate e
          (with_run (xr_ExitCode res) (elevationLabel opts) (eo_PTY opts) (decisionRule dec) (decisionWarning dec)
             (if eo_Approved opts then approvalViaElicitation else "")
             (with_serial serial (basic_entry c host command "executed" NoErr)))
          (mkResult (xr_Stdout res) (xr_Stderr res) (xr_ExitCode res) serial (decisionWarning dec) None)
    end)) t (Some r) →
  ∃ xr t2 ent ok, t = OExec cn command (eo_PTY opts) (eo_Stdin opts) xr :: t2 ++ [OCloseConn cn] ∧
    Forall silent t2 ∧ OAppend ent ok ∈ t2 ∧ run_record c host command xr ent ∧
    (∀ res, r = Ok res → (e_auditFailClosed e = true → ok = true) ∧ en_Serial ent = re_Serial res ∧
       ∃ x, xr = Some x ∧ re_Stdout res = xr_Stdout x ∧ re_Stderr res = xr_Stderr x ∧ re_ExitCode res = xr_ExitCode x).
Proof.
  unfold with_conn. intros (ta & tb & r' & -> & Ha & Hb)%behaves_bind.
  apply behaves_call in Hb as ([] & t' & _ & -> & [-> [= ->]]%behaves_Ret).
  apply behaves_call in Ha as (xr & t2 & _ & -> & Ha). exists xr, t2.
  destruct xr as [x|].
  - pose proof (quiet_silent _ _ _ _ (audit_gate_quiet _ _) Ha) as Hsil.
    apply audit_gate_appends in Ha as (u & ok & Hin & Hok). eexists _, ok. split_and!; [done|done|exact Hin|by split_and!|].
    intros res Hres. destruct (Hok _ Hres) as [-> ?]. split_and!; try done. by exists x.
  - pose proof (quiet_silent _ _ _ _ (audit_fail_quiet e _ _) Ha) as Hsil.
    apply audit_fail_appends in Ha as (-> & u & ok & Hin). eexists _, ok. split_and!; [done|done|exact Hin|by split_and!|done].
Qed.

Lemma Execute_ends c host command ttlSeconds opts t r :
  behaves env (Execute fuel e c host command ttlSeconds opts) t (Some r) → execute_ends c host command opts t r.
Proof.
  assert (Hfail : ∀ t0 t ent err, Forall silent t0 → behaves env (audit_fail e ent err) t (Some r) → Forall silent (t0 ++ t) ∧ r = Err err).
  { intros t0 t' ent err H0 Ht. split; [|by apply audit_fail_appends in Ht as [-> _]].
    apply Forall_app. split; [done|]. exact (quiet_silent _ _ _ _ (audit_fail_quiet e _ _) Ht). }
  unfold Execute. intros (t1 & t2 & r1 & -> & H1 & H)%behaves_bind.
  pose proof (quiet_silent _ _ _ _ (refresh_quiet e) H1) as S1. destruct r1 as [[]|err].
  2:{ destruct (Hfail t1 _ _ _ S1 H) as [? ->]. by constructor. }
  apply behaves_bind in H as (t3 & t4 & hi & -> & H3 & H). pose proof (quiet_silent _ _ _ _ (hostInfo_quiet e host) H3) as S3.
  assert (S13 : Forall silent (t1 ++ t3)) by by apply Forall_app. rewrite app_assoc.
  destruct hi as [hi|]. 2:{ destruct (Hfail (t1 ++ t3) _ _ _ S13 H) as [? ->]. by constructor. }
  case_bool_decide.
  { apply behaves_Ret in H as [-> [= ->]]. rewrite app_nil_r. by constructor. }
  destruct (eo_DryRun opts) eqn:Edry.
  { constructor; [|done]. apply Forall_app. split; [done|]. exact (quiet_silent _ _ _ _ (dryRun_quiet e _ _ _ _ _) H). }
  apply behaves_bind in H as (t5 & t6 & b & -> & H5 & H).
  pose proof (quiet_silent _ _ _ _ (buildHops_quiet _ _ _ _ _ _) H5) as S5. rewrite app_assoc.
  assert (S15 : Forall silent ((t1 ++ t3) ++ t5)) by by apply Forall_app.
  destruct b as [[[hops serial] dec]|err]. 2:{ destruct (Hfail ((t1 ++ t3) ++ t5) _ _ _ S15 H) as [? ->]. by constructor. }
  apply behaves_call in H as (cn & t7 & _ & -> & H). destruct cn as [cn|].
  - apply execute_tail in H as (xr & t8 & ent & ok & -> & ? & ? & ? & ?). by econstructor.
  - destruct (Hfail [] t7 _ _ (Forall_nil_2 _) H) as [? ->]. by constructor.
Qed.

(** ** Session commands *)

Lemma signature_loop_quiet names b : only quiet (signature_loop e names b).
Proof.
  revert b. induction names as [|n names IH]; intros b; simpl; [done|]. apply only_bind; [apply hostInfo_quiet|].
  intros [hi|]; [apply IH|done].
Qed.
Lemma bastions_loop_quiet c pub names : only quiet (bastions_loop e c pub names).
Proof.
  induction names as [|n names IH]; simpl; [done|]. split; [constructor|]. intros [iss|x]; [|done].
  destruct (is_Decision iss) as [dec|]; [|done]. destruct (di_Allowed dec); [|done]. by destruct (di_RequireApproval dec).
Qed.
Lemma connectivity_check_quiet c s : only quiet (connectivity_check fuel e c s).
Proof.
  unfold connectivity_check, currentConnectivitySignature, connectivitySignature, authorizeSessionBastions, ebind, resolveChain.
  case_bool_decide; [|done]. apply only_bind; [apply only_bind; [apply refreshHostsNow_quiet|]|].
  - intros [a|x]; [|done]. apply only_bind; [apply chain_loop_quiet|]. intros [chain|x]; [apply signature_loop_quiet|done].
  - intros [sig|x]; [|done]. case_bool_decide; [done|]. apply only_bind; [apply chain_loop_quiet|]. intros [chain|x]; [|done].
    destruct (_ <=? _)%nat; [done|]. quiet. apply bastions_loop_quiet.
Qed.
Lemma authorize_quiet c s command : only quiet (authorizeSessionExec fuel e c s command).
Proof.
  unfold authorizeSessionExec. apply only_bind; [apply connectivity_check_quiet|]. intros [[]|x]; [|done]. quiet.
Qed.

(** A command sent over a session, with the answer. *)
Inductive session_send : obs → option ExecResult → Prop :=
| send_exec cn wire pty stdin xr : session_send (OExec cn wire pty stdin xr) xr
| send_shell sh cmd xr : session_send (OShellExec sh cmd xr) xr.

Definition session_record (c : Caller) (id command : string) (xr : option ExecResult) (ent : entry) : Prop :=
  en_Caller ent = who_ID c ∧ en_SessionID ent = id ∧ en_Command ent = command ∧
  en_Outcome ent = (match xr with Some _ => "session_exec" | None => "error" end) ∧
  en_ExitCode ent = (match xr with Some x => xr_ExitCode x | None => 0 end).

Inductive session_ends (c : Caller) (id command : string) : list obs → result engine_error Result → Prop :=
| sends_nothing t x : Forall (fun ob => ∀ xr, ¬ session_send ob xr) t → session_ends c id command t (Err x)
| sends_one t1 ob xr t2 r ent ok :
    Forall (fun ob => ∀ xr, ¬ session_send ob xr) t1 → Forall (fun ob => ∀ xr, ¬ session_send ob xr) t2 →
    session_send ob xr → OAppend ent ok ∈ t2 → session_record c id command xr ent →
    (∀ res, r = Ok res → (e_auditFailClosed e = true → ok = true) ∧ en_Serial ent = re_Serial res ∧
       ∃ x, xr = Some x ∧ re_Stdout res = xr_Stdout x ∧ re_Stderr res = xr_Stderr x ∧ re_ExitCode res = xr_ExitCode x) →
    session_ends c id command (t1 ++ ob :: t2) r.

Lemma silent_sends t : Forall silent t → Forall (fun ob => ∀ xr, ¬ session_send ob xr) t.
Proof. intros H. eapply Forall_impl; [exact H|]. intros ob Hs xr. by destruct 1. Qed.

Context `{SP : ShellParser}.

(** From the answer of the host to the result. *)
Lemma session_answer c s id command dec xr t r :
  behaves env (match xr with
    | None => audit_fail e (exec_entry c s id command "error" (ErrOf (ErrUpstream UpExec))) (ErrUpstream UpExec)
    | Some res =>
        audit_gate e
          (with_run (xr_ExitCode res) (ls_elevLabel s) (ls_pty s) (decisionRule dec) (decisionWarning dec) ""
             (exec_entry c s id command "session_exec" NoErr))
          (mkResult (xr_Stdout res) (xr_Stderr res) (xr_ExitCode res) (ls_serial s) (decisionWarning dec) None)
    end) t (Some r) →
  Forall silent t ∧ ∃ ent ok, OAppend ent ok ∈ t ∧ session_record c id command xr ent ∧
    (∀ res, r = Ok res → (e_auditFailClosed e = true → ok = true) ∧ en_Serial ent = re_Serial res ∧
       ∃ x, xr = Some x ∧ re_Stdout res = xr_Stdout x ∧ re_Stderr res = xr_Stderr x ∧ re_ExitCode res = xr_ExitCode x).
Proof.
  intros H. destruct xr as [x|].
  - split; [exact (quiet_silent _ _ _ _ (audit_gate_quiet _ _) H)|].
    apply audit_gate_appends in H as (u & ok & Hin & Hok). eexists _, ok. split_and!; [exact Hin|by split_and!|].
    intros res Hres. destruct (Hok _ Hres) as [-> ?]. split_and!; try done. by exists x.
  - split; [exact (quiet_silent _ _ _ _ (audit_fail_quiet e _ _) H)|].
    apply audit_fail_appends in H as (-> & u & ok & Hin). eexists _, ok. split_and!; [exact Hin|by split_and!|done].
Qed.

Lemma session_command_ends c s id command t r : (ls_mode s = "shell" ∨ ls_mode s = "pty" → ls_shell s ≠ None) →
  behaves env (session_command fuel e c s id command) t (Some r) → session_ends c id command t r.
Proof.
  intros Hshell.
  assert (Hfail : ∀ t0 t ent err, Forall silent t0 → behaves env (audit_fail e ent err) t (Some r) → session_ends c id command (t0 ++ t) r).
  { intros t0 t' ent err H0 Ht. pose proof (quiet_silent _ _ _ _ (audit_fail_quiet e _ _) Ht) as Hq.
    apply audit_fail_appends in Ht as [-> _]. constructor. apply silent_sends, Forall_app. done. }
  unfold session_command. case_bool_decide as Hempty; [intros [-> [= ->]]%behaves_Ret; by constructor|].
  destruct (_ && ContainsAny _ _); [intros [-> [= ->]]%behaves_Ret; by constructor|].
  destruct (_ && (_ <? _)); [intros H; by apply (Hfail [] t _ _ (Forall_nil_2 _) H)|].
  destruct (if bool_decide (ls_mode s = "pty") then _ else None); [intros H; by apply (Hfail [] t _ _ (Forall_nil_2 _) H)|].
  intros (t1 & t2 & auth & -> & Ha & H)%behaves_bind. pose proof (quiet_silent _ _ _ _ (authorize_quiet c s command) Ha) as Sa.
  destruct auth as [[dec envelope]|[dec err]]; [|by eapply Hfail].
  apply behaves_bind in H as (t3 & t4 & xr & -> & Hx & H).
  assert (∃ ob, t3 = [ob] ∧ session_send ob xr) as (ob & -> & Hob).
  { destruct (bool_decide (ls_mode s = "shell") || bool_decide (ls_mode s = "pty")) eqn:Em.
    - rewrite orb_true_iff, !bool_decide_eq_true in Em. destruct (ls_shell s) as [sh|]; [|by destruct (Hshell Em)].
      destruct Hx as [[_ ?]|(x & t' & _ & -> & [-> [= ->]])]; [done|]. eexists. split; [done|constructor].
    - destruct Hx as [[_ ?]|(x & t' & _ & -> & [-> [= ->]])]; [done|]. eexists. split; [done|constructor]. }
  apply session_answer in H as (S4 & ent & ok & Hin & Hrec & Hres). simpl.
  by apply (sends_one _ _ _ _ _ xr _ _ ent ok); [apply silent_sends|apply silent_sends|..].
Qed.
End complete.

(** ** Splitting a trace *)

Lemma unique_split {A : Type} (P : A → Prop) (a b t1 t2 : list A) x y :
  Forall (fun z => ¬ P z) a → Forall (fun z => ¬ P z) b → P y → a ++ x :: b = t1 ++ y :: t2 → a = t1 ∧ x = y ∧ b = t2.
Proof.
  intros Ha Hb Hy. revert t1. induction Ha as [|z a Hz Ha IH]; intros [|z' t1]; simpl; intros [= ? E]; subst; try done.
  - rewrite Forall_app, Forall_cons in Hb. by destruct Hb as (_ & ? & _).
  - destruct (IH t1 E) as (-> & -> & ->). done.
Qed.

Definition is_command (ob : obs) : Prop := match ob with OExec _ _ _ _ _ | OShellExec _ _ _ => True | _ => False end.
Lemma silent_no_command t : Forall silent t → Forall (fun ob => ¬ is_command ob) t.
Proof. intros H. eapply Forall_impl; [exact H|]. intros [] Hs Hc; done. Qed.

Lemma session_send_command ob xr : session_send ob xr → is_command ob.
Proof. by destruct 1. Qed.

Section statements.
Context `{SP : ShellParser} `{SH : Sha256} (env : environment) (fuel : nat) (e : Engine) (c : Caller).

(** A result agrees with the answer of the host and its record. *)
Definition result_agrees (xr : option ExecResult) (ent : entry) (ok : bool) (res : Result) : Prop :=
  (e_auditFailClosed e = true → ok = true) ∧ en_Serial ent = re_Serial res ∧
  ∃ x, xr = Some x ∧ re_Stdout res = xr_Stdout x ∧ re_Stderr res = xr_Stderr x ∧ re_ExitCode res = xr_ExitCode x.

Lemma SessionExec_inv id command t r : behaves env (SessionExec fuel e c id command) t (Some r) →
  (Forall (fun ob => ¬ is_command ob) t ∧ ∃ x, r = Err x) ∨
  ∃ now now' p s t1 t2, answers env (SessionCheckout now now' id (who_ID c)) (Owned p s) ∧
    behaves env (session_command fuel e c s id command) t2 (Some r) ∧ t = t1 ++ t2 ++ [OSilent; OCheckin p] ∧
    Forall (fun ob => ¬ is_command ob) t1.
Proof.
  unfold SessionExec. intros (now & t1 & _ & -> & H)%behaves_call. apply behaves_call in H as (now' & t2 & _ & -> & H).
  apply behaves_call in H as (co & t3 & Hco & -> & H). destruct co as [|p s|p s].
  - left. apply behaves_Ret in H as [-> [= ->]]. split; [|by eexists]. repeat constructor; by intros [].
  - left. apply behaves_Ret in H as [-> [= ->]]. split; [|by eexists]. repeat constructor; by intros [].
  - right. apply behaves_bind in H as (t4 & t5 & r' & -> & H4 & H). apply behaves_call in H as (d & t6 & _ & -> & H).
    apply behaves_call in H as ([] & t7 & _ & -> & [-> [= ->]]%behaves_Ret).
    exists now, now', p, s, [OSilent; OSilent; OCheckout now id (who_ID c) (Owned p s)], t4. split_and!; try done.
    repeat constructor; by intros [].
Qed.

Lemma execute_recorded host command ttlSeconds opts t r t1 cn wire pty stdin xr t2 :
  behaves env (Execute fuel e c host command ttlSeconds opts) t (Some r) → t = t1 ++ OExec cn wire pty stdin xr :: t2 →
  Forall (fun ob => ¬ is_command ob) (t1 ++ t2) ∧ last t2 = Some (OCloseConn cn) ∧
  ∃ ent ok, OAppend ent ok ∈ t2 ∧ run_record c host command xr ent ∧ (∀ res, r = Ok res → result_agrees xr ent ok res).
Proof.
  intros Hb Ht. apply Execute_ends in Hb.
  destruct Hb as [t r Hs _|ta hops tb x Ha Hb|ta hops cn' xr' tb r ent ok Ha Hb Hin Hrec Hres].
  + rewrite Ht, Forall_app, Forall_cons in Hs. by destruct Hs as (_ & ? & _).
  + assert (OExec cn wire pty stdin xr ∈ ta ++ ODial hops None :: tb) as [H|[H|H]%elem_of_cons]%elem_of_app
      by (rewrite Ht; apply elem_of_app; right; by left); [|done|].
    * by apply (proj1 (Forall_forall _ _) Ha) in H.
    * by apply (proj1 (Forall_forall _ _) Hb) in H.
  + replace (ta ++ ODial hops (Some cn') :: OExec cn' command (eo_PTY opts) (eo_Stdin opts) xr' :: tb ++ [OCloseConn cn'])
      with ((ta ++ [ODial hops (Some cn')]) ++ OExec cn' command (eo_PTY opts) (eo_Stdin opts) xr' :: tb ++ [OCloseConn cn'])
      in Ht by by rewrite <-app_assoc.
    assert (Na : Forall (fun ob => ¬ is_command ob) (ta ++ [ODial hops (Some cn')])).
    { apply Forall_app. split; [by apply silent_no_command|]. repeat constructor. by intros []. }
    assert (Nb : Forall (fun ob => ¬ is_command ob) (tb ++ [OCloseConn cn'])).
    { apply Forall_app. split; [by apply silent_no_command|]. repeat constructor. by intros []. }
    apply (unique_split is_command) in Ht as (<- & [= <- <- <- <- <-] & <-); [|done..].
    split; [by apply Forall_app|]. rewrite last_snoc. split; [done|]. exists ent, ok. rewrite elem_of_app. auto.
Qed.

Lemma session_recorded id command t r t1 ob xr t2 :
  (∀ s0, env_opened env s0 → opened (env_hostkey env) (env_dialled env) (env_shell env) s0) →
  behaves env (SessionExec fuel e c id command) t (Some r) → t = t1 ++ ob :: t2 → session_send ob xr →
  Forall (fun ob => ¬ is_command ob) (t1 ++ t2) ∧
  ∃ ent ok, OAppend ent ok ∈ t2 ∧ session_record c id command xr ent ∧ (∀ res, r = Ok res → result_agrees xr ent ok res).
Proof.
  intros Hop Hb Ht Hsend. pose proof (session_send_command _ _ Hsend) as Hcmd.
  apply SessionExec_inv in Hb as [[Hn _]|(now & now' & p & s & ta & tb & Hco & Hb & -> & Hta)].
  { rewrite Ht, Forall_app, Forall_cons in Hn. by destruct Hn as (_ & ? & _). }
  destruct (checkout_answer env c id _ _ _ p s Hco eq_refl) as (_ & _ & _ & s0 & Hs0 & Hsame).
  pose proof (opened_same _ _ _ _ _ Hsame (Hop s0 Hs0)) as Hopen.
  apply session_command_ends in Hb.
  2:{ intros Hm. destruct (op_shell _ _ _ _ Hopen) as (sh & -> & _); [|done]. intros E. rewrite E in Hm. by destruct Hm. }
  assert (Hsplit : ∀ t', Forall (fun ob => ∀ xr, ¬ session_send ob xr) t' → Forall (fun ob => ¬ is_command ob) t').
  { intros t' H. eapply Forall_impl; [exact H|]. intros o Ho Hc. destruct o; try done; by eapply Ho; constructor. }
  assert (Hend : Forall (fun ob => ¬ is_command ob) [OSilent; OCheckin p]) by (repeat constructor; by intros []).
  destruct Hb as [tb x Hq|t3 ob' xr' t4 r ent ok H3 H4 Hs' Hin Hrec Hres].
  { assert (Hall : Forall (fun ob => ¬ is_command ob) (ta ++ tb ++ [OSilent; OCheckin p])) by (rewrite !Forall_app; auto).
    rewrite Ht, Forall_app, Forall_cons in Hall. by destruct Hall as (_ & ? & _). }
  replace (ta ++ (t3 ++ ob' :: t4) ++ [OSilent; OCheckin p]) with ((ta ++ t3) ++ ob' :: t4 ++ [OSilent; OCheckin p])
    in Ht by by rewrite <-!app_assoc.
  assert (Na : Forall (fun ob => ¬ is_command ob) (ta ++ t3)) by (rewrite Forall_app; auto).
  assert (Nb : Forall (fun ob => ¬ is_command ob) (t4 ++ [OSilent; OCheckin p])) by (rewrite Forall_app; auto).
  apply (unique_split is_command) in Ht as (<- & -> & <-); [|done..].
  assert (xr' = xr) as -> by (destruct Hsend; by inversion Hs').
  split; [by apply Forall_app|]. exists ent, ok. rewrite elem_of_app. auto.
Qed.

(** Every command the broker sends is recorded, whatever becomes of it. In
    every complete run of [Execute] or [SessionExec] in which a command went to
    a host, a record of that command is appended after the answer: with the
    caller, the host or session, the requested command, the outcome (executed,
    or error when the answer failed) and the exit code. A result that is handed
    back is the host's answer, under the recorded serial, and in fail-closed
    mode its record was written. One command at most is sent; [Execute] closes
    its connection last. *)
Theorem commands_recorded :
  (∀ s0, env_opened env s0 → opened (env_hostkey env) (env_dialled env) (env_shell env) s0) →
  (∀ host command ttlSeconds opts t r, behaves env (Execute fuel e c host command ttlSeconds opts) t (Some r) →
     ∀ t1 cn wire pty stdin xr t2, t = t1 ++ OExec cn wire pty stdin xr :: t2 →
       Forall (fun ob => ¬ is_command ob) (t1 ++ t2) ∧ last t2 = Some (OCloseConn cn) ∧
       ∃ ent ok, OAppend ent ok ∈ t2 ∧ run_record c host command xr ent ∧ (∀ res, r = Ok res → result_agrees xr ent ok res)) ∧
  (∀ id command t r, behaves env (SessionExec fuel e c id command) t (Some r) →
     ∀ t1 ob xr t2, t = t1 ++ ob :: t2 → session_send ob xr →
       Forall (fun ob => ¬ is_command ob) (t1 ++ t2) ∧
       ∃ ent ok, OAppend ent ok ∈ t2 ∧ session_record c id command xr ent ∧ (∀ res, r = Ok res → result_agrees xr ent ok res)).
Proof.
  intros Hop. split; intros; [by eapply execute_recorded|by eapply session_recorded].
Qed.
End statements.
