(* ===== verification/EngineFilesRun.v ===== *)
(** * Files, results and their records

    What a file transfer moves, and that no result leaves the broker in
    fail-closed mode without its record. *)

From S2P Require Import Prelude GoStrings CmdPolicy PolicySet Encoding K8sAction Intent Freeze Grants CA Elevate Crypto Sealed HostPolicy K8sPolicy Signer Sessions Revocation Prog Broker Engine Routes EngineSessions EngineRun EngineSessionRun EndToEnd EngineFiles EngineK8s EngineK8sRun EngineRecords.

Section transfers.
Context `{SP : ShellParser} `{SH : Sha256} (env : environment) (fuel : nat) (e : Engine) (c : Caller).

(** A one-shot command that came back. *)
Lemma Execute_Ok host command ttlSeconds opts t res : eo_DryRun opts = false →
  behaves env (Execute fuel e c host command ttlSeconds opts) t (Some (Ok res)) →
  ∃ cn x ent ok, OExec cn command (eo_PTY opts) (eo_Stdin opts) (Some x) ∈ t ∧ OAppend ent ok ∈ t ∧
    run_record c host command (Some x) ent ∧ result_agrees e (Some x) ent ok res.
Proof.
  intros Hdry Hb. apply Execute_ends in Hb. inversion Hb as [? ? _ Hd|?|t1 hops cn xr t2 r ent ok _ _ Hin Hrec Hres]; subst.
  { specialize (Hd res eq_refl). congruence. }
  destruct (Hres res eq_refl) as (Hok & Hser & x & -> & Hx). exists cn, x, ent, ok.
  split_and!; [|rewrite elem_of_app; right; do 2 right; rewrite elem_of_app; by left|done|].
  - rewrite elem_of_app. right. right. by left.
  - split_and!; [done..|]. by exists x.
Qed.

Lemma PutFile_inv host path content mode ttlSeconds t ft :
  behaves env (PutFile fuel e c host path content mode ttlSeconds) t (Some (Ok ft)) →
  validateTransferPath path = true ∧ slen content ≤ FileTransferMaxBytes e ∧ (mode ≠ "" → modeRe mode = true) ∧
  ∃ t1 t2 res, t = t1 ++ t2 ∧
    behaves env (Execute fuel e c host
      (if bool_decide (mode ≠ "") then "cat > " +:+ ShellQuote path +:+ " && chmod " +:+ mode +:+ " " +:+ ShellQuote path
       else "cat > " +:+ ShellQuote path) ttlSeconds (transfer_opts content)) t1 (Some (Ok res)) ∧
    re_ExitCode res = 0 ∧
    behaves env (audit_gate e
      (with_serial (re_Serial res) (basic_entry c host (transfer_command path (slen content) (hexsum content)) "file_put" NoErr))
      (mkTransfer "" (slen content) (hexsum content) (re_Serial res) (re_Warning res))) t2 (Some (Ok ft)).
Proof.
  unfold PutFile. destruct (validateTransferPath path); cbn [negb]; [|by intros [_ ?]%behaves_Ret].
  destruct (_ <? slen content) eqn:El; [by intros [_ ?]%behaves_Ret|]. unbool.
  destruct (bool_decide (mode ≠ "") && negb (modeRe mode)) eqn:Em; [by intros [_ ?]%behaves_Ret|].
  unfold ebind. intros (t1 & t2 & [res|x] & -> & H1 & H2)%behaves_bind; [|by apply behaves_Ret in H2 as [_ ?]].
  destruct (re_ExitCode res =? 0) eqn:Ex; cbn [negb] in H2; [|by apply behaves_Ret in H2 as [_ ?]].
  apply Z.eqb_eq in Ex. split_and!; [done|lia| |by exists t1, t2, res].
  intros Hm. rewrite bool_decide_eq_true_2 in Em by done. by destruct (modeRe mode).
Qed.

Lemma GetFile_inv host path maxBytes ttlSeconds t ft :
  behaves env (GetFile fuel e c host path maxBytes ttlSeconds) t (Some (Ok ft)) →
  validateTransferPath path = true ∧
  ∃ t1 t2 res, t = t1 ++ t2 ∧
    behaves env (Execute fuel e c host (get_command path (get_max e maxBytes)) ttlSeconds (transfer_opts "")) t1 (Some (Ok res)) ∧
    re_ExitCode res = 0 ∧ slen (re_Stdout res) ≤ get_max e maxBytes ∧
    behaves env (audit_gate e
      (with_serial (re_Serial res)
         (basic_entry c host (transfer_command path (slen (re_Stdout res)) (hexsum (re_Stdout res))) "file_get" NoErr))
      (mkTransfer (re_Stdout res) (slen (re_Stdout res)) (hexsum (re_Stdout res)) (re_Serial res) (re_Warning res))) t2 (Some (Ok ft)).
Proof.
  unfold GetFile. destruct (validateTransferPath path); cbn [negb]; [|by intros [_ ?]%behaves_Ret]. unfold ebind.
  intros (t1 & t2 & [res|x] & -> & H1 & H2)%behaves_bind; [|by apply behaves_Ret in H2 as [_ ?]].
  destruct (re_ExitCode res =? 0) eqn:Ex; cbn [negb] in H2; [|by apply behaves_Ret in H2 as [_ ?]].
  destruct (_ <? slen (re_Stdout res)) eqn:El; [by apply behaves_Ret in H2 as [_ ?]|]. unbool.
  split; [done|]. exists t1, t2, res. split_and!; try done; lia.
Qed.

Lemma gate_Ok {A : Type} ent (a b : A) t : behaves env (audit_gate e ent a) t (Some (Ok b)) →
  b = a ∧ ∃ u ok, OAppend (with_user u ent) ok ∈ t ∧ (e_auditFailClosed e = true → ok = true).
Proof.
  intros (u & ok & Hin & Hok)%audit_gate_appends. destruct (Hok b eq_refl) as [-> ?]. split; [done|]. by exists u, ok.
Qed.

(** The limit of a read stays below what the capture holds. *)
Lemma get_max_bound maxBytes : validateFileTransferMaxBytes e = true → 0 < get_max e maxBytes < MaxOutputBytes.
Proof.
  unfold validateFileTransferMaxBytes, get_max. intros Hv. apply Z.leb_le in Hv.
  assert (Hm : MaxFileTransferMaxBytes < MaxOutputBytes) by (apply Z.ltb_lt; vm_compute; done).
  assert (Hd : 0 < DefaultFileTransferMaxBytes < MaxOutputBytes) by (split; apply Z.ltb_lt; vm_compute; done).
  assert (Hf : 0 < FileTransferMaxBytes e < MaxOutputBytes).
  { unfold FileTransferMaxBytes. destruct (0 <? e_FileTransferMaxBytes e) eqn:E; [apply Z.ltb_lt in E; lia|done]. }
  destruct (_ && _) eqn:E; [|done]. apply andb_true_iff in E as [E1%Z.ltb_lt E2%Z.ltb_lt]. lia.
Qed.

Lemma stake_whole n s : (String.length (stake n s) < n)%nat → stake n s = s.
Proof.
  revert s. induction n as [|n IH]; intros [|a s]; simpl; [lia|lia|done|]. intros H. f_equal. apply IH. lia.
Qed.

(** A stream that passed the size check was not cut, neither by the capture
    nor by the remote [head]. *)
Lemma transfer_whole max chunks file : 0 < max < MaxOutputBytes →
  slen (capture MaxOutputBytes chunks) ≤ max → concat_chunks chunks = stake (Z.to_nat (max + 1)) file →
  capture MaxOutputBytes chunks = file.
Proof.
  intros Hm Hle Hc. destruct (capture_spec MaxOutputBytes chunks) as [E|E]; [lia| |].
  - rewrite E in *. rewrite Hc in *. apply stake_whole. unfold slen in Hle. lia.
  - pose proof (slen_nonneg (truncationMarker MaxOutputBytes)). lia.
Qed.

(** The answer is what [head -c n] prints of the file, captured from whatever
    chunks it came in. *)
Definition prints_head (n : Z) (file : string) (x : ExecResult) : Prop :=
  ∃ chunks, xr_Stdout x = capture MaxOutputBytes chunks ∧ concat_chunks chunks = stake (Z.to_nat n) file.

(** A file transfer moves the whole file or fails. Under a configuration
    that passed the start-up check: a put that succeeds has run a single
    [cat >] on the quoted path, with exactly the given content on its standard
    input (within the limit), which exited zero; a get that succeeds has run
    [head -c limit+1] on the quoted path, which exited zero, and if that printed
    the first [limit+1] bytes of a file, in whatever chunks, the content handed
    back is that whole file: neither the limit nor the truncation of captured
    output ever passes off a part as the file. Sizes and digests are those of
    the content. *)
Theorem file_transfers_exact :
  validateFileTransferMaxBytes e = true →
  (∀ host path content mode ttlSeconds t ft, behaves env (PutFile fuel e c host path content mode ttlSeconds) t (Some (Ok ft)) →
     ft_Size ft = slen content ∧ ft_SHA256 ft = hexsum content ∧ slen content ≤ FileTransferMaxBytes e ∧
     ∃ cn x, xr_ExitCode x = 0 ∧
       OExec cn (if bool_decide (mode ≠ "") then "cat > " +:+ ShellQuote path +:+ " && chmod " +:+ mode +:+ " " +:+ ShellQuote path
                 else "cat > " +:+ ShellQuote path) false content (Some x) ∈ t) ∧
  (∀ host path maxBytes ttlSeconds t ft, behaves env (GetFile fuel e c host path maxBytes ttlSeconds) t (Some (Ok ft)) →
     let max := get_max e maxBytes in
     ft_Size ft = slen (ft_Content ft) ∧ ft_SHA256 ft = hexsum (ft_Content ft) ∧ ft_Size ft ≤ max ∧
     ∃ cn x, xr_ExitCode x = 0 ∧ OExec cn ("head -c " +:+ FormatInt (max + 1) +:+ " < " +:+ ShellQuote path) false "" (Some x) ∈ t ∧
       ∀ file, prints_head (max + 1) file x → ft_Content ft = file).
Proof.
  intros Hv. split.
  - intros host path content mode ttl t ft (_ & Hlen & _ & t1 & t2 & res & -> & H1 & Hx & H2)%PutFile_inv.
    apply gate_Ok in H2 as [-> _]. split_and!; try done.
    apply Execute_Ok in H1 as (cn & x & ent & ok & Hin & _ & _ & _ & _ & x' & [= <-] & _ & _ & Hc); [|done].
    exists cn, x. split; [congruence|]. rewrite elem_of_app. by left.
  - intros host path maxBytes ttl t ft (_ & t1 & t2 & res & -> & H1 & Hx & Hle & H2)%GetFile_inv max.
    apply gate_Ok in H2 as [-> _]. split_and!; try done.
    apply Execute_Ok in H1 as (cn & x & ent & ok & Hin & _ & _ & _ & _ & x' & [= <-] & Hout & _ & Hc); [|done].
    exists cn, x. split; [congruence|]. split; [rewrite elem_of_app; by left|]. intros file (chunks & Hcap & Hchunks).
    simpl. rewrite Hout, Hcap in *. by apply (transfer_whole max); [apply get_max_bound|..].
Qed.

(** A record of this caller is in the log. *)
Definition logged (t : list obs) (P : entry → Prop) : Prop := ∃ ent, OAppend ent true ∈ t ∧ en_Caller ent = who_ID c ∧ P ent.

Lemma logged_app t t' P : logged t P → logged (t ++ t') P.
Proof. intros (ent & H & H'). exists ent. rewrite elem_of_app. by split; [left|]. Qed.

Lemma execute_logged host command ttlSeconds opts t res :
  e_auditFailClosed e = true → eo_DryRun opts = false →
  behaves env (Execute fuel e c host command ttlSeconds opts) t (Some (Ok res)) →
  logged t (fun ent => en_Outcome ent = "executed" ∧ en_Host ent = host ∧ en_Command ent = command ∧
    en_ExitCode ent = re_ExitCode res ∧ en_Serial ent = re_Serial res).
Proof.
  intros Hc Hdry Hb. destruct (Execute_Ok _ _ _ _ _ _ Hdry Hb)
    as (cn & x & ent & ok & _ & Hin & (R1 & R2 & R3 & R4 & R5) & Hok & Hser & x' & [= <-] & _ & _ & Hcode).
  rewrite (Hok Hc) in Hin. exists ent. split_and!; try done. by rewrite R5.
Qed.

Lemma gate_logged {A : Type} ent (a b : A) t : e_auditFailClosed e = true → en_Caller ent = who_ID c →
  behaves env (audit_gate e ent a) t (Some (Ok b)) → b = a ∧ logged t (fun ent' => ∃ u, ent' = with_user u ent).
Proof.
  intros Hc Hw (-> & u & ok & Hin & Hok)%gate_Ok. split; [done|]. rewrite (Hok Hc) in Hin.
  exists (with_user u ent). split_and!; [done|done|by exists u].
Qed.

(** [C18] In fail-closed mode nothing is handed back without its record. In
    every complete run, in whatever interleaving: the result of a command, the
    id of an opened session, the result of a session command, a transferred
    file and the output of a Kubernetes action leave the broker only when a
    record of the caller's operation, with the outcome and the serial of the
    certificate or token used, was written to the audit log. *)
Theorem no_result_without_record :
  e_auditFailClosed e = true →
  (∀ host command ttlSeconds opts t res, eo_DryRun opts = false →
     behaves env (Execute fuel e c host command ttlSeconds opts) t (Some (Ok res)) →
     logged t (fun ent => en_Outcome ent = "executed" ∧ en_Host ent = host ∧ en_Command ent = command ∧
       en_ExitCode ent = re_ExitCode res ∧ en_Serial ent = re_Serial res)) ∧
  (∀ host mode ttlSeconds opts t id ser, behaves env (OpenSession fuel e c host mode ttlSeconds opts) t (Some (Ok (id, ser))) →
     logged t (fun ent => en_Outcome ent = "session_open" ∧ en_SessionID ent = id ∧ en_Host ent = host ∧ en_Serial ent = ser)) ∧
  (∀ id command t res, behaves env (SessionExec fuel e c id command) t (Some (Ok res)) →
     logged t (fun ent => en_Outcome ent = "session_exec" ∧ en_SessionID ent = id ∧ en_Command ent = command ∧
       en_ExitCode ent = re_ExitCode res ∧ en_Serial ent = re_Serial res)) ∧
  (∀ host path content mode ttlSeconds t ft, behaves env (PutFile fuel e c host path content mode ttlSeconds) t (Some (Ok ft)) →
     logged t (fun ent => en_Outcome ent = "executed" ∧ en_Host ent = host ∧ en_Serial ent = ft_Serial ft) ∧
     logged t (fun ent => en_Outcome ent = "file_put" ∧ en_Host ent = host ∧ en_Serial ent = ft_Serial ft ∧
       en_Command ent = transfer_command path (ft_Size ft) (ft_SHA256 ft))) ∧
  (∀ host path maxBytes ttlSeconds t ft, behaves env (GetFile fuel e c host path maxBytes ttlSeconds) t (Some (Ok ft)) →
     logged t (fun ent => en_Outcome ent = "executed" ∧ en_Host ent = host ∧ en_Serial ent = ft_Serial ft) ∧
     logged t (fun ent => en_Outcome ent = "file_get" ∧ en_Host ent = host ∧ en_Serial ent = ft_Serial ft ∧
       en_Command ent = transfer_command path (ft_Size ft) (ft_SHA256 ft))) ∧
  (∀ cluster action manifest t res, behaves env (K8sExecute e c cluster action manifest false) t (Some (Ok res)) →
     logged t (fun ent => en_Outcome ent = "executed" ∧ (∃ a, en_Command ent = "target=k8s action=" +:+ Canonical a) ∧
       en_Serial ent = kr_Serial res ∧ (manifest ≠ "" → en_BodySHA256 ent = hexsum manifest))).
Proof.
  intros Hc. split_and!.
  - intros. by eapply execute_logged.
  - intros host mode ttl opts t id ser Hb.
    destruct (safe_sound env _ _ [] _ _ _ (OpenSession_safe env fuel e c host mode ttl opts) Hb) as [_ H].
    destruct (H _ eq_refl id ser eq_refl) as (s & p & _ & _ & _ & Hrec). destruct (Hrec Hc) as (ent & Hin & ? & ? & ? & ? & ?).
    by exists ent.
  - intros id command t res Hb.
    destruct (safe_sound env _ _ [] _ _ _ (SessionExec_safe env fuel e c id command) Hb) as [_ H].
    destruct (H _ eq_refl res eq_refl Hc) as (ent & Hin & ? & ? & ? & ? & ? & ?). by exists ent.
  - intros host path content mode ttl t ft (_ & _ & _ & t1 & t2 & res & -> & H1 & _ & H2)%PutFile_inv.
    apply gate_logged in H2 as [-> (ent & Hin & Hw & u & ->)]; [|done..]. split.
    + apply logged_app. apply execute_logged in H1 as (ent & ? & ? & ? & ? & _ & _ & ?); [|done..]. by exists ent.
    + eexists. rewrite elem_of_app. split_and!; [right; exact Hin|done..].
  - intros host path maxBytes ttl t ft (_ & t1 & t2 & res & -> & H1 & _ & _ & H2)%GetFile_inv.
    apply gate_logged in H2 as [-> (ent & Hin & Hw & u & ->)]; [|done..]. split.
    + apply logged_app. apply execute_logged in H1 as (ent & ? & ? & ? & ? & _ & _ & ?); [|done..]. by exists ent.
    + eexists. rewrite elem_of_app. split_and!; [right; exact Hin|done..].
  - intros cluster action manifest t res Hb.
    destruct (safe_sound env _ _ [] _ _ _ (K8sExecute_safe env e c cluster action manifest false) Hb) as [_ H].
    destruct (H _ eq_refl res eq_refl eq_refl Hc) as (ent & a & Hin & ? & ? & ? & ? & ?). exists ent. split_and!; eauto.
Qed.
End transfers.

(** ** Runs *)

(** A signer that signs everything, a host that prints a line, a cluster. *)
Definition any_cert : Certificate := mkCertificate "key" 9 "" [] 0 3900 ∅ ∅ "ca".
Definition any_issued : Issued := mkIssued (Some any_cert) 9 "token" Hour None "" None "".
Definition any_cluster : ClusterInfo := mkClusterInfo "https://10.0.0.2:6443" "" ["web"] [].

Definition any_handler : handler unit := fun X c s =>
  match c in call X return unit * X with
  | SignIntentCall _ => (s, Ok any_issued)
  | CachedCluster _ => (s, Some any_cluster)
  | ExecOnce _ _ _ _ => (s, Some (mkExecResult (capture MaxOutputBytes ["a line"; newline]) "" 0))
  | c' => broker_handler _ c' s
  end.
Definition any_env : environment :=
  mkEnv (fun _ _ => True) (fun l => Some l) (fun _ _ => True) (fun _ _ => True)
    (opened (fun l => Some l) (fun _ _ => True) (fun _ _ => True)).

Lemma any_answers X (c : call X) s : answers any_env c (any_handler X c s).2.
Proof.
  destruct c; try exact I; try exact (broker_answers _ (HostKeyLoad _) s); try exact (broker_answers _ (HostKeyParse _) s);
    try exact (broker_answers _ (Dial _) s); try exact (broker_answers _ (OpenShell _ _ _) s); simpl;
    exists broker_manager; split; [exact broker_manager_of|reflexivity|exact broker_manager_of|reflexivity|exact broker_manager_of|reflexivity].
Qed.

Definition any_run {A : Type} (p : prog A) : list obs * A := let '(_, t, a) := traced any_handler p () in (t, a).
Lemma any_run_behaves {A : Type} (p : prog A) : behaves any_env p (any_run p).1 (Some (any_run p).2).
Proof.
  unfold any_run. pose proof (traced_behaves any_env any_handler p () any_answers) as H.
  by destruct (traced any_handler p ()) as [[? t] a].
Qed.

#[local] Abbreviation sha := (Build_Sha256 (fun s => s)).
Definition get_run : list obs * result engine_error FileTransferResult :=
  any_run (@GetFile sha 2 broker_engine alice "web1" "/etc/motd" 4096 60).
Definition motd : string := "a line" +:+ newline.

Example get_runs : get_run.2 = Ok (mkTransfer motd 7 (hex_EncodeToString motd) 9 None).
Proof. vm_compute. reflexivity. Qed.

Lemma file_transfers_exact_witness :
  ∃ cn x, xr_ExitCode x = 0 ∧
    OExec cn ("head -c " +:+ FormatInt (get_max broker_engine 4096 + 1) +:+ " < " +:+ ShellQuote "/etc/motd") false "" (Some x) ∈ get_run.1 ∧
    ∀ file, prints_head (get_max broker_engine 4096 + 1) file x → motd = file.
Proof.
  destruct (@file_transfers_exact sha any_env 2 broker_engine alice ltac:(vm_compute; reflexivity)) as [_ H].
  refine (proj2 (proj2 (proj2 (H "web1" "/etc/motd" 4096 60 get_run.1 (mkTransfer motd 7 (hex_EncodeToString motd) 9 None) _)))).
  rewrite <-get_runs. apply any_run_behaves.
Defined.

Definition pods_action : K8sAction := mkK8sAction K8sVerbList "pods" "" "web" "".
Definition pods_run : list obs * result engine_error K8sResult :=
  any_run (@K8sExecute sha broker_engine alice "prod" pods_action "" false).

Example pods_runs : pods_run.2 = Ok (mkK8sResult "" 9 None None).
Proof. vm_compute. reflexivity. Qed.

Lemma no_result_without_record_witness :
  @logged alice get_run.1 (fun ent => en_Outcome ent = "file_get" ∧ en_Host ent = "web1" ∧ en_Serial ent = 9 ∧
    en_Command ent = transfer_command "/etc/motd" 7 (hex_EncodeToString motd)) ∧
  @logged alice pods_run.1 (fun ent => en_Outcome ent = "executed" ∧
    (∃ a, en_Command ent = "target=k8s action=" +:+ Canonical a) ∧ en_Serial ent = 9 ∧ ("" ≠ "" → en_BodySHA256 ent = @hexsum sha "")).
Proof.
  destruct (@no_result_without_record plain_parser sha any_env 2 broker_engine alice eq_refl) as (_ & _ & _ & _ & H & K).
  split.
  - refine (proj2 (H "web1" "/etc/motd" 4096 60 get_run.1 (mkTransfer motd 7 (hex_EncodeToString motd) 9 None) _)).
    rewrite <-get_runs. apply any_run_behaves.
  - refine (K "prod" pods_action "" pods_run.1 (mkK8sResult "" 9 None None) _). rewrite <-pods_runs. apply any_run_behaves.
Defined.

Definition is_request (ob : obs) : bool := match ob with OK8sRequest _ _ _ _ _ => true | _ => false end.
Lemma k8s_request_signed_witness :
  ∃ ci def iss, k8s_preflight ci pods_action = Ok (def, pods_action) ∧ ci_APIServer ci = "https://10.0.0.2:6443" ∧
    OSign (k8s_intent_of alice "prod" pods_action false) (Ok iss) ∈ before is_request pods_run.1 ∧ is_K8sToken iss = "token".
Proof.
  destruct (@k8s_request_signed sha any_env broker_engine alice "prod" pods_action "" false pods_run.1 (Some pods_run.2)
    (any_run_behaves _)) as [H _].
  destruct (H (before is_request pods_run.1) "https://10.0.0.2:6443" "token" pods_action "" (Some "") (after is_request pods_run.1))
    as (_ & ci & def & iss & H1 & H2 & H3 & _ & H4 & _); [vm_compute; reflexivity|].
  exists ci, def, iss. exact (conj H1 (conj H2 (conj H3 H4))).
Defined.

Lemma commands_recorded_witness :
  (∃ ent ok, OAppend ent ok ∈ after is_exec execute_trace ∧
     run_record alice "web1" "uptime" (Some (mkExecResult "up 3 days" "" 0)) ent) ∧
  (∃ ent ok, OAppend ent ok ∈ after is_exec session_trace ∧
     session_record alice "5e55" "uptime" (Some (mkExecResult "up 3 days" "" 0)) ent).
Proof.
  destruct (@commands_recorded plain_parser broker_env 2 broker_engine alice (fun s0 H => H)) as [H K]. split.
  - destruct (H "web1" "uptime" 60 plain_opts execute_trace (Ok (mkResult "up 3 days" "" 0 7 None None)))
      with (t1 := before is_exec execute_trace) (cn := 1%nat) (wire := "uptime") (pty := false) (stdin := "")
           (xr := Some (mkExecResult "up 3 days" "" 0)) (t2 := after is_exec execute_trace)
      as (_ & _ & ent & ok & H1 & H2 & _); [|vm_compute; reflexivity|exists ent, ok; exact (conj H1 H2)].
    rewrite <-execute_runs. apply traced_behaves, broker_answers.
  - destruct (K "5e55" "uptime" session_trace _ session_behaves _ _ (Some (mkExecResult "up 3 days" "" 0)) _ session_sends)
      as (_ & ent & ok & H1 & H2 & _); [constructor|exists ent, ok; exact (conj H1 H2)].
Defined.
