(* ===== verification/OAuth.v ===== *)
(** * End-user tokens

    [internal/oauth/verifier.go]: what the broker's HTTP front end and the signer
    derive from a bearer token. Issuer discovery, the key set and the signature,
    issuer, audience and expiry checks belong to [go-oidc], a parameter here; the
    checks this package adds on the claims are all below, with the bucket that
    bounds key-set refreshes. *)

From Stdlib Require Import Floats.SpecFloat.
From S2P Require Import Prelude GoStrings Encoding RateLimit.

(** ** Claims *)

(** A JSON value as [encoding/json] decodes it into [any]. *)
Inductive json_any :=
| JString (s : string)
| JNumber (f : spec_float)
| JArray (l : list json_any)
| JOther.
Abbreviation claims := (gmap string json_any) (only parsing).

(** [oidc.IDToken]: its expiry and its claims, [None] when they do not decode. *)
Record IDToken := mkIDToken { idt_Expiry : time; idt_Claims : option (gmap string json_any) }.

Definition as_string (j : option json_any) : option string :=
  match j with Some (JString s) => Some s | _ => None end.

Definition stringClaim (c : claims) (name : string) : string := default "" (as_string (c !! name)).

(** [None] is the nil slice. *)
Definition stringSliceClaim (c : claims) (name : string) : option (list string) :=
  match c !! name with
  | Some (JArray l) => Some (omap (fun j => as_string (Some j)) l)
  | Some (JString s) => if bool_decide (s = "") then None else Some [s]
  | _ => None
  end.

Definition scopesFromClaims (c : claims) : list string :=
  match as_string (c !! "scope") with
  | Some s => if bool_decide (s ≠ "") then Fields s else default [] (stringSliceClaim c "scp")
  | None => default [] (stringSliceClaim c "scp")
  end.

(** ** Numbers and times *)

(** [int64(f)]: truncation, and [oor] where the result does not fit, which Go
    leaves to the implementation. *)
Definition float_trunc (f : spec_float) : Z :=
  match f with
  | S754_finite s m e =>
      let a := if 0 <=? e then Z.pos m * 2 ^ e else Z.pos m / 2 ^ (- e) in if s then - a else a
  | _ => 0
  end.
Definition int64_of (oor : Z) (f : spec_float) : Z :=
  let z := float_trunc f in if (- 2 ^ 63 <=? z) && (z <? 2 ^ 63) then z else oor.

(** [time.Unix(sec, 0)]: seconds are stored from year 1, in 64 bits. *)
Definition unixToInternal : Z := 62135596800.
Definition time_Unix (sec : Z) : time := (wrap64 (sec + unixToInternal) - unixToInternal) * Second.

(** [t.Sub(u)] saturates. *)
Definition time_Sub (t u : time) : duration := Z.max (- 2 ^ 63) (Z.min (2 ^ 63 - 1) (t - u)).

(** ** The verifier *)

Record oauth_config := mkOAuthConfig {
  oc_Issuer : string;
  oc_Audience : string;
  oc_RequiredScopes : list string;
  oc_UserClaim : string;
  oc_GroupsClaim : string;
  oc_ContextClaim : string;
  oc_MaxTokenAge : duration;
  oc_ClockSkew : duration;
}.

#[global] Instance oauth_config_eq_dec : EqDecision oauth_config.
Proof. solve_decision. Defined.

Record Verifier := mkVerifier {
  vf_audience : string;
  vf_userClaim : string;
  vf_groupsClaim : string;
  vf_contextClaim : string;
  vf_maxTokenAge : duration;
  vf_clockSkew : duration;
  vf_requiredScopes : list string;
}.

Inductive oauth_error :=
| EIssuerRequired
| EAudienceRequired
| EDiscovery
| EInvalidToken
| EUnreadableClaims
| EUserClaimAbsent (claim : string)
| ENotValidYet (notBefore : time)
| EIatAbsent
| EIssuedInFuture (issuedAt : time)
| ETooOld (age : duration)
| EGroupsClaimAbsent (claim : string)
| EMissingScope (scope : string).

Definition defaultClockSkew : duration := Minute.

(** [discovered]: the issuer's discovery document was read. *)
Definition NewVerifier (discovered : bool) (cfg : oauth_config) : result oauth_error Verifier :=
  guard! bool_decide (oc_Issuer cfg ≠ "") else EIssuerRequired in
  guard! bool_decide (oc_Audience cfg ≠ "") else EAudienceRequired in
  guard! discovered else EDiscovery in
  let userClaim := if bool_decide (oc_UserClaim cfg = "") then "sub" else oc_UserClaim cfg in
  let skew := if oc_ClockSkew cfg =? 0 then defaultClockSkew else oc_ClockSkew cfg in
  let skew := if skew <? 0 then 0 else skew in
  Ok (mkVerifier (oc_Audience cfg) userClaim (oc_GroupsClaim cfg) (oc_ContextClaim cfg) (oc_MaxTokenAge cfg)
        skew (oc_RequiredScopes cfg)).

(** [auth.TokenInfo]; its [Extra] map has the three keys the package stores:
    groups, raw token and context. *)
Record TokenInfo := mkTokenInfo {
  ti_Scopes : list string;
  ti_Expiration : time;
  ti_UserID : string;
  ti_groups : option (list string);
  ti_raw_token : string;
  ti_context : option string;
}.

Record EndUserIdentity := mkEndUserIdentity {
  eu_UserID : string;
  eu_Groups : option (list string);
  eu_Context : string;
}.

Section verifier.
(** [oidc.IDTokenVerifier.Verify] for an audience, and Go's out-of-range
    conversion. *)
Context (oidc_Verify : string → string → option IDToken) (oor : Z).

Definition check_nbf (v : Verifier) (now : time) (c : claims) : result oauth_error unit :=
  match c !! "nbf" with
  | Some (JNumber f) =>
      let notBefore := time_Unix (int64_of oor f) in
      guard! negb (now + vf_clockSkew v <? notBefore) else ENotValidYet notBefore in Ok tt
  | _ => Ok tt
  end.

Definition check_age (v : Verifier) (now : time) (c : claims) : result oauth_error unit :=
  if vf_maxTokenAge v <=? 0 then Ok tt
  else match c !! "iat" with
  | Some (JNumber f) =>
      let issuedAt := time_Unix (int64_of oor f) in
      guard! negb (now + vf_clockSkew v <? issuedAt) else EIssuedInFuture issuedAt in
      let age := time_Sub now issuedAt in
      guard! negb (wrap64 (vf_maxTokenAge v + vf_clockSkew v) <? age) else ETooOld age in Ok tt
  | _ => Err EIatAbsent
  end.

Definition derive_groups (v : Verifier) (c : claims) : result oauth_error (option (list string)) :=
  if bool_decide (vf_groupsClaim v = "") then Ok None
  else match stringSliceClaim c (vf_groupsClaim v) with
       | None => Err (EGroupsClaimAbsent (vf_groupsClaim v))
       | Some gs => Ok (Some gs)
       end.

Definition derive_context (v : Verifier) (c : claims) : option string :=
  if bool_decide (vf_contextClaim v = "") then None
  else let x := stringClaim c (vf_contextClaim v) in if bool_decide (x = "") then None else Some x.

Definition Verify (v : Verifier) (now : time) (token : string) : result oauth_error TokenInfo :=
  match oidc_Verify (vf_audience v) token with
  | None => Err EInvalidToken
  | Some tok =>
      match idt_Claims tok with
      | None => Err EUnreadableClaims
      | Some c =>
          let user := stringClaim c (vf_userClaim v) in
          guard! bool_decide (user ≠ "") else EUserClaimAbsent (vf_userClaim v) in
          let! _ := check_nbf v now c in
          let! _ := check_age v now c in
          let! groups := derive_groups v c in
          Ok (mkTokenInfo (scopesFromClaims c) (idt_Expiry tok) user groups token (derive_context v c))
      end
  end.

Definition VerifyEndUser (v : Verifier) (now : time) (token : string) : result oauth_error EndUserIdentity :=
  let! ti := Verify v now token in
  let! _ := for_each (fun want => guard! bool_decide (want ∈ ti_Scopes ti) else EMissingScope want in Ok tt)
              (vf_requiredScopes v) in
  Ok (mkEndUserIdentity (ti_UserID ti) (ti_groups ti) (default "" (ti_context ti))).
End verifier.

(** ** The key-set refresh bucket *)

Definition jwksRefreshInterval : duration := 10 * Second.
Definition jwksRefreshBurst : Z := 5.

Record jwksThrottle := mkThrottle { jt_tokens : spec_float; jt_last : time }.

Definition newJWKSThrottle (now : time) : jwksThrottle := mkThrottle (float64 jwksRefreshBurst) now.

Definition jwks_allow (now : time) (t : jwksThrottle) : bool * jwksThrottle :=
  let tokens := fadd (jt_tokens t) (fdiv (Seconds (time_Sub now (jt_last t))) (Seconds jwksRefreshInterval)) in
  let tokens := if flt (float64 jwksRefreshBurst) tokens then float64 jwksRefreshBurst else tokens in
  if flt tokens (float64 1) then (false, mkThrottle tokens now)
  else (true, mkThrottle (fsub tokens (float64 1)) now).

(** [RoundTrip]: [next] is the request on the network, [None] a refusal without
    one. *)
Definition RoundTrip {A : Type} (next : unit → A) (now : time) (t : jwksThrottle) : option A * jwksThrottle :=
  let '(ok, t) := jwks_allow now t in ((if ok then Some (next tt) else None), t).

(** ** What an identity proves *)

(** The claims of a token that may act as an end user at [now]. *)
Record good_claims (oor : Z) (v : Verifier) (now : time) (c : claims) (scopes : list string) (id : EndUserIdentity) : Prop := {
  gc_user : eu_UserID id ≠ "" ∧ c !! vf_userClaim v = Some (JString (eu_UserID id));
  gc_nbf : ∀ f, c !! "nbf" = Some (JNumber f) → time_Unix (int64_of oor f) ≤ now + vf_clockSkew v;
  gc_age : 0 < vf_maxTokenAge v → ∃ f, c !! "iat" = Some (JNumber f) ∧
    time_Unix (int64_of oor f) ≤ now + vf_clockSkew v ∧
    time_Sub now (time_Unix (int64_of oor f)) ≤ wrap64 (vf_maxTokenAge v + vf_clockSkew v);
  gc_groups : eu_Groups id = if bool_decide (vf_groupsClaim v = "") then None else stringSliceClaim c (vf_groupsClaim v);
  gc_groups_nil : eu_Groups id = None ↔ vf_groupsClaim v = "";
  gc_context : eu_Context id = if bool_decide (vf_contextClaim v = "") then "" else stringClaim c (vf_contextClaim v);
  gc_scopes : Forall (.∈ scopes) (vf_requiredScopes v);
}.

Section proofs.
Context (oidc_Verify : string → string → option IDToken) (oor : Z).

Lemma stringClaim_Some (c : claims) name : stringClaim c name ≠ "" → c !! name = Some (JString (stringClaim c name)).
Proof. unfold stringClaim, as_string. by destruct (c !! name) as [[]|]. Qed.

Lemma check_nbf_Ok v now c : check_nbf oor v now c = Ok tt ↔
  ∀ f, c !! "nbf" = Some (JNumber f) → time_Unix (int64_of oor f) ≤ now + vf_clockSkew v.
Proof.
  unfold check_nbf. destruct (c !! "nbf") as [[| f | |]|]; try by (split; [intros _ ? [=]|]). cbv zeta.
  destruct (Z.ltb_spec (now + vf_clockSkew v) (time_Unix (int64_of oor f))); simpl; split; try done.
  - intros H'. specialize (H' f eq_refl). lia.
  - intros _ g [= <-]. lia.
Qed.

Lemma check_age_Ok v now c : check_age oor v now c = Ok tt ↔ (0 < vf_maxTokenAge v →
  ∃ f, c !! "iat" = Some (JNumber f) ∧ time_Unix (int64_of oor f) ≤ now + vf_clockSkew v ∧
    time_Sub now (time_Unix (int64_of oor f)) ≤ wrap64 (vf_maxTokenAge v + vf_clockSkew v)).
Proof.
  unfold check_age. destruct (Z.leb_spec (vf_maxTokenAge v) 0); [split; [lia|done]|].
  destruct (c !! "iat") as [[| f | |]|]; try by (split; [|intros (?&[=]&_)]). cbv zeta.
  destruct (Z.ltb_spec (now + vf_clockSkew v) (time_Unix (int64_of oor f))); simpl;
    [by (split; [|intros (?&[= <-]&?&_); [lia|lia]])|].
  destruct (Z.ltb_spec (wrap64 (vf_maxTokenAge v + vf_clockSkew v)) (time_Sub now (time_Unix (int64_of oor f)))); simpl.
  - split; [done|]. intros (?&[= <-]&_&?); lia.
  - split; [|done]. intros _ _. by exists f.
Qed.

Lemma derive_groups_Ok v c gs : derive_groups v c = Ok gs ↔
  gs = (if bool_decide (vf_groupsClaim v = "") then None else stringSliceClaim c (vf_groupsClaim v)) ∧
  (gs = None ↔ vf_groupsClaim v = "").
Proof.
  unfold derive_groups. case_bool_decide; [naive_solver|].
  destruct (stringSliceClaim c (vf_groupsClaim v)); naive_solver.
Qed.

Lemma derive_context_default v c :
  default "" (derive_context v c) = if bool_decide (vf_contextClaim v = "") then "" else stringClaim c (vf_contextClaim v).
Proof. unfold derive_context. repeat case_bool_decide; simpl; congruence. Qed.

(** [C30] An end user's identity is derived exactly from the tokens that deserve
    it: [VerifyEndUser] answers an identity if and only if the OIDC library
    accepts the token for the configured audience, its claims decode, the user
    claim is the non-empty identity, [nbf] and (with an age limit) a numeric
    [iat] are within the clock skew and the limit, every required scope is
    granted, and groups and context are those of the configured claims; the
    groups are nil only when no groups claim is configured, so a token without
    the claim is never read as unrestricted. *)
Theorem VerifyEndUser_exact v now token id :
  VerifyEndUser oidc_Verify oor v now token = Ok id ↔
  ∃ tok c, oidc_Verify (vf_audience v) token = Some tok ∧ idt_Claims tok = Some c ∧
    good_claims oor v now c (scopesFromClaims c) id.
Proof.
  unfold VerifyEndUser, Verify.
  destruct (oidc_Verify (vf_audience v) token) as [tok|]; [|naive_solver].
  destruct (idt_Claims tok) as [c|] eqn:Hc; [|naive_solver]. split.
  - intros (ti & Hti & H)%rbind_Ok. case_bool_decide as Hu; [|done].
    apply rbind_Ok in Hti as ([] & Hn & Hti). apply rbind_Ok in Hti as ([] & Ha & Hti).
    apply rbind_Ok in Hti as (gs & Hg & [= <-]). apply rbind_Ok in H as ([] & Hs & [= <-]).
    apply derive_groups_Ok in Hg as [Hg Hnil]. exists tok, c. split_and!; [done..|].
    split; simpl; [split; [done|by apply stringClaim_Some]|by apply check_nbf_Ok|by apply check_age_Ok|done..| |].
    + apply derive_context_default.
    + apply for_each_Ok in Hs. eapply Forall_impl; [exact Hs|]. intros w Hw; cbn beta in Hw |- *. cbn [ti_Scopes] in Hw. by case_bool_decide.
  - intros (? & ? & [= <-] & Hc' & [[Hu Hu'] Hn Ha Hg Hg' Hx Hs]). rewrite Hc in Hc'. injection Hc' as <-.
    assert (stringClaim c (vf_userClaim v) = eu_UserID id) as Huc by (unfold stringClaim; by rewrite Hu').
    assert (derive_groups v c = Ok (eu_Groups id)) as Hgs by (by apply derive_groups_Ok).
    rewrite Huc, bool_decide_eq_true_2 by done. apply check_nbf_Ok in Hn. apply check_age_Ok in Ha.
    rewrite Hn, Ha, Hgs. simpl.
    assert (for_each (fun want => guard! bool_decide (want ∈ scopesFromClaims c) else EMissingScope want in Ok tt)
              (vf_requiredScopes v) = Ok tt) as ->; [|simpl; rewrite derive_context_default, <-Hx; by destruct id].
    apply for_each_Ok. eapply Forall_impl; [exact Hs|]. intros w Hw. simpl. by rewrite bool_decide_eq_true_2.
Qed.
End proofs.
