(* ===== verification/ServiceConfig.v ===== *)
(** * The signing service's configuration

    [cmd/signer]: the hot-reloadable state is compiled from one configuration
    ([buildState], with the CA keys of [internal/ca/loader.go] and the sealed-exec
    envelope key), and the policy API edits the file by a JSON patch
    ([editAllow]). The JSON library, the key files and vaults, and the OIDC
    discovery are parameters. *)

From Stdlib Require Import Floats.SpecFloat.
From S2P Require Import Prelude GoStrings CmdPolicy PolicySet K8sAction Intent Freeze Grants CA Encoding Elevate Crypto Sealed HostPolicy K8sPolicy Signer RateLimit OAuth.

(** ** CA keys *)

Record CAKeyConfig := mkCAKeyConfig {
  ck_Type : string;
  ck_Path : string;
  ck_Socket : string;
  ck_PublicKeyPath : string;
  ck_VaultURL : string;
  ck_KeyName : string;
  ck_KeyVersion : string;
}.

Inductive load_error :=
| EUnknownKeyType (t : string)
| ENoDefaultCA
| EPathRequired
| EReadKey
| EVaultURLRequired
| EKeyNameRequired
| EVault
| ENoSocket
| EPublicKeyPathRequired
| EAgent
| EGroupCA (group : string) (e : load_error).

(** The back ends: a PEM file, an Azure vault, an ssh-agent holding the pinned
    key; and the environment's agent socket. *)
Record key_backends := mkKeyBackends {
  kb_pem : string → option string;
  kb_akv : CAKeyConfig → option string;
  kb_agent : string → string → option string;
  kb_SSH_AUTH_SOCK : string;
}.

Definition loadCAFromFile (b : key_backends) (path : string) : result load_error string :=
  guard! bool_decide (path ≠ "") else EPathRequired in
  match kb_pem b path with Some k => Ok k | None => Err EReadKey end.

Definition loadCAFromAKV (b : key_backends) (cfg : CAKeyConfig) : result load_error string :=
  guard! bool_decide (ck_VaultURL cfg ≠ "") else EVaultURLRequired in
  guard! bool_decide (ck_KeyName cfg ≠ "") else EKeyNameRequired in
  match kb_akv b cfg with Some k => Ok k | None => Err EVault end.

Definition loadCAFromAgent (b : key_backends) (cfg : CAKeyConfig) : result load_error string :=
  let socket := if bool_decide (ck_Socket cfg = "") then kb_SSH_AUTH_SOCK b else ck_Socket cfg in
  guard! bool_decide (socket ≠ "") else ENoSocket in
  guard! bool_decide (ck_PublicKeyPath cfg ≠ "") else EPublicKeyPathRequired in
  match kb_agent b socket (ck_PublicKeyPath cfg) with Some k => Ok k | None => Err EAgent end.

Definition LoadCA (b : key_backends) (cfg : CAKeyConfig) : result load_error string :=
  if bool_decide (ck_Type cfg = "pem") then loadCAFromFile b (ck_Path cfg)
  else if bool_decide (ck_Type cfg = "akv") then loadCAFromAKV b cfg
  else if bool_decide (ck_Type cfg = "agent") then loadCAFromAgent b cfg
  else Err (EUnknownKeyType (ck_Type cfg)).

Definition pem_key (path : string) : CAKeyConfig := mkCAKeyConfig "pem" path "" "" "" "" "".

(** The group keys; a nil map and an empty one are not told apart by the
    signer. *)
Definition LoadGroupCAs (b : key_backends) (iter : range_order CAKeyConfig) (caKey : string)
    (caKeys : gmap string CAKeyConfig) : result load_error (string * gmap string string) :=
  let! def :=
    match caKeys !! "_default" with
    | Some def => LoadCA b def
    | None => if bool_decide (caKey ≠ "") then LoadCA b (pem_key caKey) else Err ENoDefaultCA
    end in
  let! out := map_each (fun kv => let! k := rmap_err (EGroupCA kv.1) (LoadCA b kv.2) in Ok (kv.1, k))
                (List.filter (fun kv => negb (bool_decide (kv.1 = "_default"))) (iter caKeys)) in
  Ok (def, list_to_map out).

(** ** The configuration *)

(** The fields the hot-reloadable state is built from. *)
Record Config := mkConfig {
  cf_CAKey : string;
  cf_CAKeys : gmap string CAKeyConfig;
  cf_MaxTTLSeconds : Z;
  cf_SignRateLimitPerMin : Z;
  cf_ReloadCallers : list string;
  cf_TrustedForwarders : list string;
  cf_Hosts : PolicyTable;
  cf_Callers : CallerTable;
  cf_CommandPolicies : gmap string CommandPolicy;
  cf_GroupCommandPolicies : gmap string (list string);
  cf_Clusters : ClusterTable;
  cf_EnvelopeKey : string;
  cf_EndUserOIDC : option oauth_config;
}.

Inductive config_error :=
| EMaxTTLAboveCap (n : Z)
| EInvalidHosts (e : signer_error)
| ELoadCA (e : load_error)
| ESealedName (host : string)
| ESealedNoKey
| EReadEnvelopeKey
| EEnvelopeSeed (e : sealed_error)
| EInvalidClusters (e : cluster_error)
| EOIDC (e : oauth_error).

(** What building the state reads from outside: key back ends, files, the
    cluster files, the minter, and the orders of the ranges over maps. *)
Record build_env := mkBuildEnv {
  be_keys : key_backends;
  be_readFile : string → option string;
  be_cluster : cluster_env;
  be_minter : ClusterTable → TokenMinter;
  be_iterK : range_order CAKeyConfig;
  be_iterL : range_order CommandPolicy;
  be_iterG : range_order (list string);
  be_iterH : range_order HostPolicy;
  be_iterC : range_order ClusterPolicy;
}.

(** The orders list every entry. *)
Record build_env_ok (e : build_env) : Prop := {
  bo_K : RangeOrder (be_iterK e);
  bo_L : RangeOrder (be_iterL e);
  bo_G : RangeOrder (be_iterG e);
  bo_H : RangeOrder (be_iterH e);
  bo_C : RangeOrder (be_iterC e);
}.

(** [sealedHostNames], in any order: the message sorts them. *)
Definition sealedHostNames (hosts : PolicyTable) : list string :=
  map fst (map_to_list (filter (fun kv => Is_true (hp_SealedExec kv.2)) hosts)).

(** [reloadSet]. *)
Definition reloadSet (cns : list string) : gset string := list_to_set (List.filter (fun cn => bool_decide (cn ≠ "")) cns).

Section build.
Context `{RE : RegexpEngine} `{SP : ShellParser} `{ED : Ed25519}.

Definition attachEnvelopeKey (e : build_env) (cfg : Config) (local : Local) : result config_error Local :=
  let sealedHosts := sealedHostNames (cf_Hosts cfg) in
  let! _ := for_each (fun h => guard! ValidHostName h else ESealedName h in Ok tt) sealedHosts in
  if bool_decide (cf_EnvelopeKey cfg = "") then
    if bool_decide (sealedHosts = []) then Ok local else Err ESealedNoKey
  else match be_readFile e (cf_EnvelopeKey cfg) with
  | None => Err EReadEnvelopeKey
  | Some seed => let! key := rmap_err EEnvelopeSeed (KeyFromSeed seed) in Ok (WithEnvelopeKey key local)
  end.

Definition default_ttl (cfg : Config) : duration :=
  let ttl := wrap64 (cf_MaxTTLSeconds cfg * Second) in if ttl <=? 0 then 5 * Minute else ttl.

(** The grants are the shared store: the signer reads it at each call, so the
    built [Local] names it without holding a copy ([None] here, see [sem]). *)
Definition buildState (e : build_env) (cfg : Config) : result config_error Local :=
  guard! negb (900 <? cf_MaxTTLSeconds cfg) else EMaxTTLAboveCap (cf_MaxTTLSeconds cfg) in
  let! compiled := rmap_err EInvalidHosts
    (CompileHostPolicies (be_iterL e) (be_iterG e) (be_iterH e) (cf_Hosts cfg) (cf_CommandPolicies cfg)
       (cf_GroupCommandPolicies cfg)) in
  let! cas := rmap_err ELoadCA (LoadGroupCAs (be_keys e) (be_iterK e) (cf_CAKey cfg) (cf_CAKeys cfg)) in
  let! local := attachEnvelopeKey e cfg (NewLocalWithGrants cas.1 cas.2 compiled (default_ttl cfg) None) in
  if bool_decide (cf_Clusters cfg = ∅) then Ok local
  else
    let! clusters := rmap_err EInvalidClusters
      (CompileClusterPolicies (be_cluster e) (be_iterC e) (cf_Clusters cfg) (cf_Hosts cfg)) in
    Ok (WithK8s clusters (be_minter e clusters) local).
End build.

(** [buildEndUserVerifier]; [discovered] is the issuer's answer. *)
Definition buildEndUserVerifier (discovered : bool) (cfg : option oauth_config) : result config_error (option Verifier) :=
  match cfg with
  | None => Ok None
  | Some c => let! v := rmap_err EOIDC (NewVerifier discovered c) in Ok (Some v)
  end.

(** ** Editing the file *)

(** What [encoding/json] shows of a host object in the file: whether it has a
    command policy, the policy's mode and allowlist, and whether the allowlist is
    present. *)
Record host_view := mkHostView { hv_hasCP : bool; hv_Mode : string; hv_Allow : list string; hv_allowExists : bool }.

Inductive patch_value := PVNone | PVString (s : string) | PVStrings (l : list string) | PVPolicy (mode : string) (allow : list string).
Record patch_op := mkPatchOp { po_Op : string; po_Path : string; po_Value : patch_value }.

Inductive edit_error := EConfigText | EHostNotFound | ENoChange | EPatch.

(** The configuration text: what its host objects show ([None] when the text or
    the host does not parse), the format-preserving patch, and [parseConfig]. *)
Class ConfigText : Type := {
  cfg_view : string → option (gmap string (option host_view));
  cfg_Patch : string → list patch_op → option string;
  cfg_parse : string → option Config;
}.

Definition jsonPtrEscape (s : string) : string := ReplaceByte (ReplaceByte s "~"%char "~0") "/"%char "~1".

(** [slices.Index]. *)
Fixpoint index_of (x : string) (l : list string) : option nat :=
  match l with
  | [] => None
  | y :: l' => if bool_decide (y = x) then Some 0%nat else S <$> index_of x l'
  end.

Definition edit_ops (v : host_view) (host pattern : string) (add : bool) : result edit_error (list patch_op) :=
  let base := "/hosts/" +:+ jsonPtrEscape host +:+ "/command_policy" in
  if add then
    if bool_decide (pattern ∈ hv_Allow v) then Err ENoChange
    else
      let setMode := bool_decide (hv_Mode v = "") || bool_decide (hv_Mode v = CmdPolicyOff) in
      let mode := if setMode then [mkPatchOp "add" (base +:+ "/mode") (PVString CmdPolicyAllowlist)] else [] in
      if negb (hv_hasCP v) then Ok [mkPatchOp "add" base (PVPolicy CmdPolicyAllowlist [pattern])]
      else if negb (hv_allowExists v) then Ok (mkPatchOp "add" (base +:+ "/allow") (PVStrings [pattern]) :: mode)
      else Ok (mkPatchOp "add" (base +:+ "/allow/-") (PVString pattern) :: mode)
  else match index_of pattern (hv_Allow v) with
  | None => Err ENoChange
  | Some i => Ok [mkPatchOp "remove" (base +:+ "/allow/" +:+ FormatInt (Z.of_nat i)) PVNone]
  end.

Definition editAllow `{ConfigText} (orig host pattern : string) (add : bool) : result edit_error string :=
  match cfg_view orig with
  | None => Err EConfigText
  | Some hosts =>
      match hosts !! host with
      | None => Err EHostNotFound
      | Some None => Err EConfigText
      | Some (Some v) =>
          let! ops := edit_ops v host pattern add in
          match cfg_Patch orig ops with Some t => Ok t | None => Err EPatch end
      end
  end.

Definition policyErrStatus (e : edit_error) : Z :=
  match e with EHostNotFound => 404 | ENoChange => 409 | EConfigText | EPatch => 500 end.
