(* ===== verification/Threads.v ===== *)
(** * Concurrent programs around one mutex

    A pool of programs over calls that act on a shared state: a step lets one
    thread make its next call, starts a thread, or is a change from outside. The
    state has one mutex, and a proof about the pool treats each thread alone:
    outside the mutex its calls stay within a relation every critical section
    tolerates, inside it the invariant may be broken and must hold again at the
    unlock. *)

From stdpp Require Import relations.
From S2P Require Import Prelude GoStrings Prog.

Section pool.
Context {E : Type → Type} {St : Type}.
(** What a thread's call does, the holder of the mutex, the changes from outside
    and the programs that may be started. *)
Context (sem : nat → ∀ X : Type, E X → St → X → St → Prop) (owner : St → option nat) (ext : St → St → Prop).

Inductive pool_step {A : Type} (starts : prog E A → Prop) : St * list (prog E A) → St * list (prog E A) → Prop :=
| step_call t X (c : E X) k s x s' pool :
    pool !! t = Some (Do c k) → sem t X c s x s' → pool_step starts (s, pool) (s', <[t := k x]> pool)
| step_start p s pool : starts p → pool_step starts (s, pool) (s, pool ++ [p])
| step_ext s s' pool : ext s s' → pool_step starts (s, pool) (s', pool).

Definition pool_reach {A : Type} (starts : prog E A → Prop) (s0 s : St) (pool : list (prog E A)) : Prop :=
  rtc (pool_step starts) (s0, []) (s, pool).

(** A property of every state: each call of each thread keeps it, given the
    answers the thread had before. *)
Fixpoint preserves {A : Type} (P : St → Prop) (p : prog E A) : Prop :=
  match p with
  | Ret _ => True
  | Do c k => ∀ t s x s', P s → sem t _ c s x s' → P s' ∧ preserves P (k x)
  end.

Lemma preserves_bind {A B : Type} (P : St → Prop) (p : prog E A) (k : A → prog E B) :
  preserves P p → (∀ a, preserves P (k a)) → preserves P (pbind p k).
Proof.
  intros Hp Hk. induction p as [a|X c f IH]; simpl in *; [auto|]. intros t s x s' H1 H2. destruct (Hp t s x s' H1 H2). auto.
Qed.

Lemma preserves_only {A : Type} (P : St → Prop) (p : prog E A) :
  only (fun X c => ∀ t s x s', P s → sem t X c s x s' → P s') p → preserves P p.
Proof. induction p as [a|X c f IH]; simpl; [done|]. intros [Hc Hf] t s x s' H1 H2. split; [by eapply Hc|auto]. Qed.

Lemma pool_preserves {A : Type} (P : St → Prop) (starts : prog E A → Prop) s0 s pool :
  (∀ p, starts p → preserves P p) → (∀ s s', ext s s' → P s → P s') → P s0 → pool_reach starts s0 s pool → P s.
Proof.
  intros Hst Hext H0 Hr. cut (P (s, pool).1 ∧ Forall (preserves P) (s, pool).2); [by intros [? _]|]. unfold pool_reach in Hr.
  assert (P (s0, @nil (prog E A)).1 ∧ Forall (preserves P) (s0, @nil (prog E A)).2) as Hc by done. clear H0. revert Hc.
  generalize dependent (s0, @nil (prog E A)). intros c0 Hr. induction Hr as [|c c' c'' Hs Hr IH]; [done|].
  intros [HP HF]. apply IH. destruct Hs as [t X c k s1 x s1' pl Ht Hsem|p s1 pl Hp|s1 s1' pl He]; simpl in *.
  - pose proof (Forall_lookup_1 _ _ _ _ HF Ht) as Hd. destruct (Hd t s1 x s1' HP Hsem) as [? ?]. split; [done|]. by apply Forall_insert.
  - split; [done|]. apply Forall_app. split; [done|]. apply Forall_singleton. by apply Hst.
  - split; [by eapply Hext|done].
Qed.

(** ** A thread alone

    [Rel] is what other threads may do while the mutex is held, [Inv] what holds
    when it is free. *)
Context (Rel : St → St → Prop) (Inv : St → Prop).

(** The thread's view: [None] outside the mutex, [Some s0] inside it with the
    state after its last call. *)
Definition view_entry (t : nat) (m : option St) (s : St) : Prop :=
  match m with
  | None => owner s ≠ Some t ∧ (owner s = None → Inv s)
  | Some s0 => owner s = Some t ∧ Rel s0 s
  end.
Definition view_exit (t : nat) (m : option St) (s s' : St) : Prop :=
  match m with
  | None => (owner s' = owner s ∧ Rel s s') ∨ (owner s = None ∧ owner s' = Some t)
  | Some _ => owner s' = Some t ∨ (owner s' = None ∧ Inv s')
  end.
Definition view_next (t : nat) (s' : St) : option St := if decide (owner s' = Some t) then Some s' else None.

Fixpoint wp {A : Type} (t : nat) (m : option St) (p : prog E A) (Q : option St → A → Prop) : Prop :=
  match p with
  | Ret a => Q m a
  | Do c k => ∀ s x s', view_entry t m s → sem t _ c s x s' → view_exit t m s s' ∧ wp t (view_next t s') (k x) Q
  end.

Lemma wp_bind {A B : Type} t m (p : prog E A) (k : A → prog E B) Q :
  wp t m (pbind p k) Q ↔ wp t m p (fun m' a => wp t m' (k a) Q).
Proof.
  revert m. induction p as [a|X c f IH]; intros m; simpl; [done|].
  split; intros H s x s' H1 H2; (split; [by apply (H s x s')|]); apply IH; by apply (H s x s').
Qed.

Lemma wp_mono {A : Type} t m (p : prog E A) (Q Q' : option St → A → Prop) :
  (∀ m a, Q m a → Q' m a) → wp t m p Q → wp t m p Q'.
Proof.
  intros HQ. revert m. induction p as [a|X c f IH]; intros m; simpl; [apply HQ|].
  intros H s x s' H1 H2. destruct (H s x s' H1 H2). split; [done|]. by apply IH.
Qed.

(** A program whose calls all stay within [Rel], made outside the mutex. *)
Definition harmless (t : nat) (X : Type) (c : E X) : Prop := ∀ s x s', sem t X c s x s' → owner s' = owner s ∧ Rel s s'.

Lemma wp_harmless {A : Type} t (p : prog E A) : only (harmless t) p → wp t None p (fun m _ => m = None).
Proof.
  induction p as [a|X c f IH]; simpl; [done|]. intros [Hc Hf] s x s' [He _] Hs. destruct (Hc s x s' Hs) as [Ho HR].
  split; [by left|]. unfold view_next. rewrite Ho. destruct (decide _); [done|]. by apply IH.
Qed.

(** ** The pool *)

Context `{!PreOrder Rel} (Rel_owner : ∀ s s', Rel s s' → owner s' = owner s).
Context (Inv_stable : ∀ s s', Rel s s' → Inv s → Inv s') (ext_rel : ∀ s s', ext s s' → Rel s s').

Definition thread_ok {A : Type} (s : St) (t : nat) (p : prog E A) : Prop :=
  ∃ m, view_entry t m s ∧ wp t m p (fun m _ => m = None).
Definition pool_ok {A : Type} (c : St * list (prog E A)) : Prop :=
  (owner c.1 = None → Inv c.1) ∧ (∀ t, owner c.1 = Some t → (t < length c.2)%nat) ∧
  ∀ t p, c.2 !! t = Some p → thread_ok c.1 t p.

Lemma view_Rel t m s s' : Rel s s' → view_entry t m s → view_entry t m s'.
Proof.
  intros HR. pose proof (Rel_owner _ _ HR) as Ho. destruct m as [s0|]; simpl; rewrite Ho.
  - intros [? ?]. split; [done|]. by etrans.
  - intros [? H]. split; [done|]. eauto.
Qed.

(** A step of thread [t] keeps every other thread's view. *)
Lemma view_other t u m m' s s' : t ≠ u → view_entry t m s → view_exit t m s s' → view_entry u m' s → view_entry u m' s'.
Proof.
  intros Htu He Hx Hu. destruct m as [s0|]; simpl in He, Hx.
  - destruct He as [Ho HR], m' as [s1|]; simpl in Hu |- *; [destruct Hu; congruence|].
    destruct Hx as [Hx|[Hx ?]]; rewrite Hx; split; congruence || done.
  - destruct Hx as [[Ho HR]|[Ho Ho']]; [by eapply view_Rel|].
    destruct m' as [s1|]; simpl in Hu |- *; [destruct Hu; congruence|]. rewrite Ho'. split; [congruence|done].
Qed.

Lemma view_self t m s s' : view_entry t m s → view_exit t m s s' → view_entry t (view_next t s') s' ∧
  (owner s' = None → Inv s') ∧ (∀ u, owner s' = Some u → u = t ∨ owner s = Some u).
Proof.
  intros He Hx. unfold view_next. destruct m as [s0|]; simpl in He, Hx.
  - destruct (decide (owner s' = Some t)) as [Ho|Ho]; simpl; [|destruct Hx as [?|[Ho' ?]]; [done|]].
    + split_and!; [done|reflexivity|congruence|]. intros u. rewrite Ho. intros [= ->]. by left.
    + split_and!; [congruence|done|done|congruence].
  - destruct He as [He HI]. destruct Hx as [[Ho HR]|[Ho Ho']].
    + rewrite decide_False by congruence. simpl. rewrite Ho. split_and!; [done|eauto|eauto|by right].
    + rewrite decide_True by done. simpl. rewrite Ho'. split_and!; [done|reflexivity|done|]. intros u [= ->]. by left.
Qed.

Lemma pool_step_ok {A : Type} (starts : prog E A → Prop) c c' :
  (∀ t p, starts p → wp t None p (fun m _ => m = None)) → pool_ok c → pool_step starts c c' → pool_ok c'.
Proof.
  intros Hst (HI & Ho & Hp) Hs. destruct Hs as [t X c k s x s' pool Ht Hsem|p s pool Hp0|s s' pool Hext]; simpl in *.
  - destruct (Hp t _ Ht) as (m & Hv & Hwp). destruct (Hwp s x s' Hv Hsem) as [Hx Hk].
    destruct (view_self t m s s' Hv Hx) as (Hv' & HI' & Hown). split_and!; simpl; [done| |].
    + intros u Hu. rewrite length_insert. destruct (Hown u Hu) as [->|?]; [by apply lookup_lt_Some in Ht|eauto].
    + intros u q Hq. destruct (decide (u = t)) as [->|Hne].
      * rewrite list_lookup_insert in Hq. rewrite decide_True in Hq by (split; [done|by apply lookup_lt_Some in Ht]).
        injection Hq as <-. by exists (view_next t s').
      * rewrite list_lookup_insert_ne in Hq by done. destruct (Hp u q Hq) as (m' & Hv1 & Hw1).
        exists m'. split; [|done]. by apply (view_other t u m m' s s').
  - split_and!; simpl; [done| |].
    + intros u Hu. rewrite length_app. specialize (Ho u Hu). lia.
    + intros u q [Hq|[? Hq]]%lookup_app_Some; [by apply Hp|]. apply list_lookup_singleton_Some in Hq as [Hu <-].
      exists None. split; [|by apply Hst]. split; [|done]. intros Hu'. specialize (Ho u Hu'). lia.
  - pose proof (ext_rel _ _ Hext) as HR. pose proof (Rel_owner _ _ HR) as Ho'. split_and!; simpl; rewrite ?Ho'; [eauto|done|].
    intros u q Hq. destruct (Hp u q Hq) as (m & Hv & Hw). exists m. split; [|done]. by eapply view_Rel.
Qed.

Theorem pool_invariant {A : Type} (starts : prog E A → Prop) s0 s pool :
  (∀ t p, starts p → wp t None p (fun m _ => m = None)) → owner s0 = None → Inv s0 →
  pool_reach starts s0 s pool → owner s = None → Inv s.
Proof.
  intros Hst Ho HI Hr. cut (pool_ok (s, pool)); [intros [H _]; exact H|]. unfold pool_reach in Hr.
  assert (pool_ok (A := A) (s0, [])) as H0.
  { split_and!; simpl; [done|by rewrite Ho|]. intros t p Hp. by rewrite lookup_nil in Hp. }
  revert H0. generalize dependent (s0, @nil (prog E A)). intros c0 Hr H0.
  induction Hr as [|? ? ? Hs Hr IH]; [done|]. apply IH. by eapply pool_step_ok.
Qed.
End pool.

Lemma only_mono {E : Type → Type} {A : Type} (S S' : ∀ X, E X → Prop) (p : prog E A) :
  (∀ X c, S X c → S' X c) → only S p → only S' p.
Proof. intros HS. induction p as [a|X c f IH]; simpl; [done|]. intros [? ?]. auto. Qed.

(** ** Threads that know something

    Without a mutex: every step of a thread [t] keeps the invariant and stays
    within its guarantee [G t], and between its steps a thread relies on facts
    that the guarantees of the others do not disturb. *)
Section rely_guarantee.
Context {E : Type → Type} {St : Type}.
Context (sem : nat → ∀ X : Type, E X → St → X → St → Prop) (ext : St → St → Prop).
Context (G : nat → St → St → Prop) (Inv : St → Prop).

Definition stable (t : nat) (K : St → Prop) : Prop := ∀ u s s', u ≠ t → G u s s' → K s → K s'.

(** [rely t K p Q]: from a state where [K] holds; the postcondition speaks of the
    result and of what the thread then knows. *)
Fixpoint rely {A : Type} (t : nat) (K : St → Prop) (p : prog E A) (Q : A → (St → Prop) → Prop) : Prop :=
  match p with
  | Ret a => Q a K
  | Do c k => ∀ s x s', Inv s → K s → sem t _ c s x s' →
      G t s s' ∧ Inv s' ∧ ∃ K', K' s' ∧ stable t K' ∧ rely t K' (k x) Q
  end.

Lemma rely_bind {A B : Type} t K (p : prog E A) (k : A → prog E B) Q :
  rely t K p (fun a K' => rely t K' (k a) Q) → rely t K (pbind p k) Q.
Proof.
  revert K. induction p as [a|X c f IH]; intros K; simpl; [done|].
  intros H s x s' H1 H2 H3. destruct (H s x s' H1 H2 H3) as (? & ? & K' & ? & ? & ?). eauto 8.
Qed.

Lemma rely_mono {A : Type} t K (p : prog E A) (Q Q' : A → (St → Prop) → Prop) :
  (∀ a K', Q a K' → Q' a K') → rely t K p Q → rely t K p Q'.
Proof.
  intros HQ. revert K. induction p as [a|X c f IH]; intros K; simpl; [apply HQ|].
  intros H s x s' H1 H2 H3. destruct (H s x s' H1 H2 H3) as (? & ? & K' & ? & ? & ?). eauto 8.
Qed.

(** One call, with the fact chosen by its answer. *)
Lemma rely_call {X A : Type} t K (c : E X) (k : X → prog E A) Q (K' : X → St → Prop) :
  (∀ s x s', Inv s → K s → sem t _ c s x s' → G t s s' ∧ Inv s' ∧ K' x s') →
  (∀ x, stable t (K' x)) → (∀ x, rely t (K' x) (k x) Q) → rely t K (pbind (call_ c) k) Q.
Proof. intros Hc Hs Hk s x s' H1 H2 H3. destruct (Hc s x s' H1 H2 H3) as (? & ? & ?). eauto 8. Qed.

(** A call no thread notices. *)
Definition calm_call (X : Type) (c : E X) : Prop := ∀ t s x s', Inv s → sem t X c s x s' → Inv s' ∧ ∀ u, G u s s'.

Lemma rely_calm {A : Type} t K (p : prog E A) Q : only calm_call p → stable t K → (∀ a, Q a K) → rely t K p Q.
Proof.
  intros Ho HK HQ. induction p as [a|X c f IH]; simpl in *; [done|]. destruct Ho as [Hc Hf].
  intros s x s' H1 H2 H3. destruct (Hc t s x s' H1 H3) as [? Hg]. split_and!; [done..|]. exists K.
  split_and!; [by apply (HK (S t) s); [lia| |]|done|auto].
Qed.

(** A calm step, by inspection of the program. *)
Lemma rely_calm_bind {A B : Type} t K (p : prog E A) (k : A → prog E B) Q :
  only calm_call p → stable t K → (∀ a, rely t K (k a) Q) → rely t K (pbind p k) Q.
Proof. intros. apply rely_bind, rely_calm; done. Qed.

Definition knowing {A : Type} (s : St) (t : nat) (p : prog E A) : Prop :=
  ∃ K, K s ∧ stable t K ∧ rely t K p (fun _ _ => True).

Lemma rely_step {A : Type} (starts : prog E A → Prop) c c' :
  (∀ t p, starts p → rely t (fun _ => True) p (fun _ _ => True)) →
  (∀ s s', ext s s' → Inv s → Inv s' ∧ ∀ u, G u s s') →
  (Inv c.1 ∧ ∀ t p, c.2 !! t = Some p → knowing c.1 t p) → pool_step sem ext starts c c' →
  Inv c'.1 ∧ ∀ t p, c'.2 !! t = Some p → knowing c'.1 t p.
Proof.
  intros Hst Hext [HI Hp] Hs. destruct Hs as [t X c k s x s' pool Ht Hsem|p s pool Hp0|s s' pool He]; simpl in *.
  - destruct (Hp t _ Ht) as (K & HK & HKs & Hr). destruct (Hr s x s' HI HK Hsem) as (HG & HI' & K' & HK' & HKs' & Hr').
    split; [done|]. intros u q Hq. destruct (decide (u = t)) as [->|Hne].
    + rewrite list_lookup_insert in Hq. rewrite decide_True in Hq by (split; [done|by apply lookup_lt_Some in Ht]).
      injection Hq as <-. by exists K'.
    + rewrite list_lookup_insert_ne in Hq by done. destruct (Hp u q Hq) as (K1 & H1 & H2 & H3).
      exists K1. split_and!; [|done..]. by apply (H2 t s).
  - split; [done|]. intros u q [Hq|[? Hq]]%lookup_app_Some; [by apply Hp|].
    apply list_lookup_singleton_Some in Hq as [_ <-]. exists (fun _ => True). split_and!; [done..|by apply Hst].
  - destruct (Hext s s' He HI) as [HI' HG]. split; [done|]. intros u q Hq. destruct (Hp u q Hq) as (K & H1 & H2 & H3).
    exists K. split_and!; [|done..]. apply (H2 (S u) s); [lia|auto|done].
Qed.

Theorem rely_invariant {A : Type} (starts : prog E A → Prop) s0 s pool :
  (∀ t p, starts p → rely t (fun _ => True) p (fun _ _ => True)) →
  (∀ s s', ext s s' → Inv s → Inv s' ∧ ∀ u, G u s s') → Inv s0 → pool_reach sem ext starts s0 s pool → Inv s.
Proof.
  intros Hst Hext H0 Hr. cut (Inv (s, pool).1 ∧ ∀ t p, (s, pool).2 !! t = Some p → knowing (s, pool).1 t p); [by intros [? _]|].
  unfold pool_reach in Hr.
  assert (Inv (s0, @nil (prog E A)).1 ∧ ∀ t p, (s0, @nil (prog E A)).2 !! t = Some p → knowing (s0, @nil (prog E A)).1 t p) as Hc
    by (split; [done|]; intros t p Hp; simpl in Hp; by rewrite lookup_nil in Hp).
  clear H0. revert Hc. generalize dependent (s0, @nil (prog E A)). intros c0 Hr.
  induction Hr as [|? ? ? Hs Hr IH]; [done|]. intros Hc. apply IH. by eapply rely_step.
Qed.
End rely_guarantee.

(** ** Running a pool

    A function that answers calls runs programs one after the other; what it does
    is one of the behaviours of each, and one of the runs of the pool. *)
Section running.
Context `{EF : Effects E Obs Env} {St : Type} (exec : nat → ∀ X : Type, E X → St → option (X * St)).

(** A program run alone to its end, through calls [ok] admits. *)
Fixpoint exec_run {A : Type} (ok : ∀ X, E X → bool) (t : nat) (q : prog E A) (s : St) : option (A * St * list Obs) :=
  match q with
  | Ret a => Some (a, s, [])
  | Do c k =>
      if ok _ c then
        match exec t _ c s with
        | Some (x, s') => match exec_run ok t (k x) s' with Some (a, s'', tr) => Some (a, s'', observe c x :: tr) | None => None end
        | None => None
        end
      else None
  end.

Lemma exec_run_behaves {A : Type} (env : Env) (I : St → Prop) ok t (q : prog E A) s a s' tr :
  (∀ X (c : E X) s x s', ok X c = true → I s → exec t X c s = Some (x, s') → answers env c x ∧ I s') →
  I s → exec_run ok t q s = Some (a, s', tr) → behaves env q tr (Some a).
Proof.
  intros HI. revert s tr. induction q as [b|X c k IH]; intros s tr Hs; simpl.
  { by intros [= <- <- <-]. }
  destruct (ok X c) eqn:Hok; [|done]. destruct (exec t X c s) as [[x s1]|] eqn:He; [|done].
  destruct (exec_run ok t (k x) s1) as [[[a' s2] tr']|] eqn:Hr; [|done]. intros [= <- <- <-].
  destruct (HI X c s x s1 Hok Hs He) as [? ?]. right. exists x, tr'. split_and!; [done|done|]. by apply (IH x s1).
Qed.

Context (sem : nat → ∀ X : Type, E X → St → X → St → Prop) (ext : St → St → Prop).
Context (exec_sem : ∀ t X c s x s', exec t X c s = Some (x, s') → sem t X c s x s').

Lemma exec_run_reach {A : Type} (starts : prog E A → Prop) ok q s a s' tr pool :
  exec_run ok (length pool) q s = Some (a, s', tr) →
  rtc (pool_step sem ext starts) (s, pool ++ [q]) (s', pool ++ [Ret a]).
Proof.
  revert s tr. induction q as [b|X c k IH]; intros s tr; simpl.
  { by intros [= <- <- _]. }
  destruct (ok X c); [|done]. destruct (exec (length pool) X c s) as [[x s1]|] eqn:He; [|done].
  destruct (exec_run ok (length pool) (k x) s1) as [[[a' s2] tr']|] eqn:Hr; [|done]. intros [= <- <- _].
  eapply rtc_l; [|by eapply IH]. apply exec_sem in He.
  replace (pool ++ [k x]) with (<[length pool := k x]> (pool ++ [Do c k])) by (by rewrite insert_app_r_alt, Nat.sub_diag).
  eapply step_call; [|done]. by rewrite lookup_app_r, Nat.sub_diag.
Qed.

(** Programs run one after the other, with their results. *)
Fixpoint exec_all {A : Type} (n : nat) (qs : list (prog E A)) (s : St) : option (list A * St) :=
  match qs with
  | [] => Some ([], s)
  | q :: qs' =>
      match exec_run (fun _ _ => true) n q s with
      | Some (a, s', _) => match exec_all (S n) qs' s' with Some (l, s'') => Some (a :: l, s'') | None => None end
      | None => None
      end
  end.

Lemma exec_all_reach {A : Type} (starts : prog E A → Prop) qs s s' l pool : Forall starts qs →
  exec_all (length pool) qs s = Some (l, s') → rtc (pool_step sem ext starts) (s, pool) (s', pool ++ map Ret l).
Proof.
  intros Hst. revert s l pool. induction qs as [|q qs IH]; intros s l pool; simpl.
  { intros [= <- <-]. by rewrite app_nil_r. }
  apply Forall_cons in Hst as [Hq Hqs]. destruct (exec_run _ _ q s) as [[[a s1] tr]|] eqn:Hr; [|done].
  destruct (exec_all _ qs s1) as [[l' s2]|] eqn:Ha; [|done]. intros [= <- <-].
  eapply rtc_l; [by apply step_start|]. etrans; [by eapply exec_run_reach|].
  specialize (IH Hqs s1 l' (pool ++ [Ret a])). rewrite length_app, Nat.add_1_r in IH. specialize (IH Ha).
  by rewrite <-app_assoc in IH.
Qed.
End running.
