(* ===== verification/Service.v ===== *)
(** * The signing service

    [cmd/signer]: the HTTP handlers in front of the local signer. A handler is a
    program over the calls below: the hot-reloadable fields behind [server.mu],
    the freeze and grant stores behind their own mutexes, the mutex [writeMu]
    that serialises mutations, the rate limiter, the OIDC verifier, the local
    signer and the audit log. [sem] says what a call does to the state of the
    running service; handlers of concurrent requests interleave at the calls. *)

From S2P Require Import Prelude GoStrings CmdPolicy PolicySet K8sAction Intent Freeze Grants CA Encoding Elevate Crypto Sealed HostPolicy K8sPolicy Signer RateLimit Approval OAuth ServiceConfig Prog.

(** ** The mTLS peer *)

(** [internal/auth/mtls.go]: the leaf certificate of a verified chain. *)
Inductive ext_key_usage := ExtKeyUsageClientAuth | ExtKeyUsageAny | ExtKeyUsageOther.

Record peer_cert := mkPeerCert { pc_CommonName : string; pc_ExtKeyUsage : list ext_key_usage }.

Definition hasClientAuthEKU (c : peer_cert) : bool :=
  match pc_ExtKeyUsage c with
  | [] => true
  | us => existsb (fun u => match u with ExtKeyUsageOther => false | _ => true end) us
  end.

(** [unicode.IsControl] of some rune of the string: U+0000-1F, U+007F, and
    U+0080-9F, which UTF-8 writes as the byte C2 and one of 80-9F. *)
Fixpoint has_control_rune (s : string) : bool :=
  match s with
  | "" => false
  | String a s' =>
      (byte_of a <? 32) || (byte_of a =? 127)
      || match s' with String b _ => (byte_of a =? 194) && in_range 128 159 b | "" => false end
      || has_control_rune s'
  end.

(** [None] for the peer certificates is a request without TLS. *)
Definition CallerCN (peers : option (list peer_cert)) : option string :=
  match peers with
  | Some (c :: _) =>
      if negb (hasClientAuthEKU c) then None
      else if bool_decide (pc_CommonName c = "") then None
      else if has_control_rune (pc_CommonName c) then None
      else Some (pc_CommonName c)
  | _ => None
  end.

(** ** Requests and responses *)

(** An HTTP request: its method, peer, decoded body ([None] when it does not
    decode within the body limit), the on-behalf-of header and the path values. *)
Record http_request (B : Type) := mkHTTPRequest {
  rq_Method : string;
  rq_peers : option (list peer_cert);
  rq_body : option B;
  rq_OnBehalfOf : string;
  rq_host : string;
  rq_id : string;
}.
Arguments mkHTTPRequest {B}.
Arguments rq_Method {B}.
Arguments rq_peers {B}.
Arguments rq_body {B}.
Arguments rq_OnBehalfOf {B}.
Arguments rq_host {B}.
Arguments rq_id {B}.

(** [freezeRequest] and [grantReq]. *)
Record freezeRequest := mkFreezeRequest { fq_Kind : string; fq_Value : string; fq_Reason : string; fq_AllowVolatile : bool }.
Record grantReq := mkGrantReq { gq_Allow : list string; gq_TTLSeconds : Z; gq_Caller : string; gq_EndUser : string }.

(** [signer.WireResponse], [WireHostInfo] and [WireClusterInfo]; a certificate is
    its authorized-key line, kept as the certificate. *)
Record WireResponse := mkWireResponse {
  ws_Certificate : option Certificate;
  ws_Serial : Z;
  ws_K8sToken : string;
  ws_K8sTokenExpiry : time;
  ws_ElevationPrefix : string;
  ws_Decision : option DecisionInfo;
  ws_Envelope : string;
}.

Record WireHostInfo := mkWireHostInfo {
  wh_Addr : string;
  wh_User : string;
  wh_HostKey : string;
  wh_Jump : string;
  wh_AllowSudo : bool;
  wh_AllowPTY : bool;
  wh_AllowFileTransfer : bool;
  wh_Groups : list string;
}.

Record WireClusterInfo := mkWireClusterInfo {
  wk_APIServer : string;
  wk_CACertPEM : string;
  wk_Groups : list string;
  wk_ExtraResources : list ResourceDef;
}.

Inductive http_response :=
| HError (code : Z)
| HRetryAfter (secs : Z)
| HSign (r : WireResponse)
| HHosts (hosts : gmap string WireHostInfo)
| HClusters (clusters : gmap string WireClusterInfo)
| HFrozen (newly : bool) (revoked : nat)
| HUnfrozen (was : bool)
| HRevocations (l : list FrozenEntry)
| HGrantCreated (id host : string) (expires : time)
| HGrants (l : list Grant)
| HGrantRevoked (id : string)
| HReloaded (hosts : nat)
| HPolicyChanged (host : string) (hosts : nat)
| HPolicy (hosts : PolicyTable).

Definition wire_decision (d : option DecisionInfo) (envelope : string) : WireResponse :=
  mkWireResponse None 0 "" 0 "" d envelope.

(** ** Audit records of the service *)

(** The texts of errors and rules stay values. *)
Inductive end_user_error :=
| ENoIssuer
| ENoBearer
| EVerification (e : oauth_error)
| EUnsafeDerived
| EGroupsNotVerifiable.

Inductive k8s_shape_error := EShapeSudo | EShapePTY | EShapeFileTransfer | EShapeSession | EShapeRole.

Inductive service_err :=
| NoSErr
| SText (s : string)
| SEndUser (e : end_user_error)
| SFrozenSubject (subj : FreezeSubject)
| SOutsideGroup (host caller : string)
| SNoCluster (name : string)
| SShape (e : k8s_shape_error)
| SSign (e : sign_error)
| SGrant (e : grant_error)
| SConfig.

Inductive rule_text := NoRule | RuleOf (r : matched_rule) | RuleAllow (patterns : string) | RuleWaive (pattern : string).

Record srecord := mkSRecord {
  sr_Caller : string;
  sr_EndUserContext : string;
  sr_Host : string;
  sr_User : string;
  sr_Principal : string;
  sr_Command : string;
  sr_Serial : Z;
  sr_Outcome : string;
  sr_TargetType : string;
  sr_PolicyRule : rule_text;
  sr_Warning : warning;
  sr_ApprovalID : string;
  sr_ApprovedBy : string;
  sr_Err : service_err;
}.

(** A record with the fields the short entries set. *)
Definition short_record (caller host command outcome : string) (err : service_err) : srecord :=
  mkSRecord caller "" host "" "" command 0 outcome "" NoRule None "" "" err.

(** ** Calls *)

(** The fields [reload] replaces. *)
Record server_state := mkServerState {
  sv_local : Local;
  sv_hosts : PolicyTable;
  sv_callers : CallerTable;
  sv_reloadCN : gset string;
  sv_forwarders : gset string;
  sv_signRateMin : Z;
  sv_endUserVerifier : option Verifier;
  sv_endUserOIDCCfg : option oauth_config;
}.

(** What is fixed after start-up. *)
Record server_params := mkServerParams { sp_auditFailClosed : bool; sp_maxGrantTTL : duration }.

Inductive scall : Type → Type :=
| SState : scall server_state
| SRateAllow (cn : string) (limit : Z) : scall bool
| SClock : scall time
| SVerify (v : Verifier) (token : string) : scall (result oauth_error EndUserIdentity)
| SFrozen (caller endUser : string) : scall (option FreezeSubject)
| SSignIntent (l : Local) (i : Intent) : scall (option Issued * option sign_error)
| SAppend (e : srecord) : scall bool
| SLock : scall unit
| SUnlock : scall unit
| SVolatile : scall bool
| SFreezeAdd (subj : FreezeSubject) (reason by_ : string) (now : time) : scall (bool * option freeze_error)
| SFreezeRemove (subj : FreezeSubject) : scall (bool * option freeze_error)
| SFreezeList : scall (list FrozenEntry)
| SRevokeSubject (kind value : string) : scall (result grant_error nat)
| SGrantAdd (g : Grant) : scall (result grant_error string)
| SSupersede (g : Grant) : scall nat
| SGrantRevoke (id : string) : scall (result grant_error bool)
| SGrantList (now : time) : scall (list Grant)
| SPurge (now : time) : scall nat
| SReadConfig : scall (option string)
| SBuildState (cfg : Config) : scall (result config_error Local)
| SBuildVerifier (cfg : option oauth_config) : scall (result config_error (option Verifier))
| SWriteConfig (text : string) : scall bool
| SSwap (st : server_state) : scall unit.

Abbreviation sprog := (Prog.prog scall) (only parsing).
Abbreviation scall_ := (@Prog.call_ scall _) (only parsing).

(** ** Shared helpers *)

Definition resolveCaller (mtlsCN onBehalfOf : string) (forwarders : gset string) : option string :=
  if bool_decide (onBehalfOf = "") then Some mtlsCN
  else if bool_decide (mtlsCN ∈ forwarders) then Some onBehalfOf
  else None.

Definition frozenSubject (peerCN resolved endUser : string) : sprog (option FreezeSubject) :=
  f <- scall_ (SFrozen resolved endUser) ;;
  match f with
  | Some subj => Ret (Some subj)
  | None => if bool_decide (peerCN ≠ resolved) then scall_ (SFrozen peerCN "") else Ret None
  end.

(** [appendAudit]: [true] is a nil error. *)
Definition appendAudit (p : server_params) (e : srecord) : sprog bool :=
  ok <- scall_ (SAppend e) ;;
  Ret (ok || negb (sp_auditFailClosed p)).

(** The pattern [if aerr != nil { writeAuditUnavailable(w); return }]. *)
Definition audited (p : server_params) (e : srecord) (k : http_response) : sprog http_response :=
  ok <- appendAudit p e ;;
  Ret (if ok then k else HError 500).

Definition safeAuditHost (host : string) : string :=
  if bool_decide (host = "") || HasUnsafeTokenChar host then "(invalid-host)" else host.

(** Over budget: [None] is an admitted denial. *)
Definition admitDenial (caller : string) : sprog (option http_response) :=
  st <- scall_ SState ;;
  let limit := sv_signRateMin st in
  if limit <=? 0 then Ret None
  else ok <- scall_ (SRateAllow caller limit) ;;
       Ret (if ok then None else Some (HRetryAfter (RetryAfter limit))).

(** ** End-user identity *)

Definition set_end_user (u : string) (gs : option (list string)) (ctx : string) (r : WireRequest) : WireRequest :=
  mkWireRequest (wr_Host r) (wr_Role r) (wr_Purpose r) (wr_SessionMode r) (wr_Command r) (wr_TTLSeconds r)
    (wr_PublicKey r) (wr_TargetType r) (wr_K8sVerb r) (wr_K8sResource r) (wr_K8sGroup r) (wr_K8sNamespace r)
    (wr_K8sName r) (wr_Sudo r) (wr_SudoUser r) (wr_PTY r) (wr_FileTransfer r) (wr_DryRun r) (wr_Preflight r)
    (wr_OnBehalfOf r) (wr_Approved r) u gs ctx (wr_BearerToken r)
    (wr_LearnTTLSeconds r) (wr_LearnApprover r) (wr_LearnApprovalID r).

(** The checks on the derived values, in order. *)
Definition accept_identity (ident : EndUserIdentity) (req : WireRequest) : result end_user_error WireRequest :=
  guard! negb (HasUnsafeTokenChar (eu_UserID ident)) else EUnsafeDerived in
  guard! negb (existsb HasUnsafeTokenChar (default [] (eu_Groups ident))) else EUnsafeDerived in
  guard! negb (HasUnsafeTokenChar (eu_Context ident)) else EUnsafeDerived in
  guard! negb (bool_decide (eu_Groups ident = None) && negb (bool_decide (wr_EndUserGroups req = None)))
    else EGroupsNotVerifiable in
  Ok (set_end_user (eu_UserID ident) (eu_Groups ident) (eu_Context ident) req).

Definition rederiveEndUser (callers : CallerTable) (caller : string) (req : WireRequest) :
    sprog (result end_user_error WireRequest) :=
  if negb (MayRequireVerifiedEndUser callers caller) then Ret (Ok req)
  else
    st <- scall_ SState ;;
    match sv_endUserVerifier st with
    | None => Ret (Err ENoIssuer)
    | Some v =>
        if bool_decide (wr_BearerToken req = "") then Ret (Err ENoBearer)
        else
          r <- scall_ (SVerify v (wr_BearerToken req)) ;;
          Ret (match r with Err e => Err (EVerification e) | Ok ident => accept_identity ident req end)
    end.

(** ** The sign endpoint *)

Definition maxIdentifierLen : Z := 1024.

Definition sign_fields (req : WireRequest) : list string :=
  [wr_EndUser req; wr_Role req; wr_Purpose req; wr_SessionMode req; wr_SudoUser req; wr_K8sVerb req; wr_K8sResource req;
   wr_K8sGroup req; wr_K8sNamespace req; wr_K8sName req; wr_EndUserContext req; wr_Host req].
Definition bad_field (v : string) : bool := HasUnsafeTokenChar v || (maxIdentifierLen <? slen v).

(** A request that passed the gates both targets share: the identities, the
    request with its end user re-derived, the snapshot and the approval flags. *)
Record admitted := mkAdmitted {
  ad_peer : string;
  ad_caller : string;
  ad_req : WireRequest;
  ad_state : server_state;
  ad_isForwarder : bool;
  ad_selfApproves : bool;
}.
Definition ad_approved (a : admitted) : bool := wr_Approved (ad_req a) && (ad_isForwarder a || ad_selfApproves a).

(** [auditEmission]'s record. *)
Definition emission_command (req : WireRequest) : string :=
  "role=" +:+ wr_Role req +:+ " purpose=" +:+ wr_Purpose req
  +:+ (if bool_decide (wr_SessionMode req = "") then "" else " session_mode=" +:+ wr_SessionMode req)
  +:+ (if bool_decide (wr_EndUser req = "") then "" else " user=" +:+ wr_EndUser req)
  +:+ (if bool_decide (wr_EndUserContext req = "") then "" else " ctx=" +:+ wr_EndUserContext req)
  +:+ (if wr_Sudo req then " elev=sudo:" +:+ (if bool_decide (wr_SudoUser req = "") then "root" else wr_SudoUser req) else "")
  +:+ (if wr_PTY req then " pty=1" else "")
  +:+ (if wr_FileTransfer req then " ft=1" else "").

Definition decision_rule (d : option DecisionInfo) : rule_text :=
  match d with Some di => RuleOf (di_MatchedRule di) | None => NoRule end.
Definition decision_warning (d : option DecisionInfo) : warning :=
  match d with Some di => di_Warning di | None => None end.

Definition emission_record (caller : string) (req : WireRequest) (hosts : PolicyTable) (serial : Z) (outcome : string)
    (dec : option DecisionInfo) (err : service_err) : srecord :=
  let '(host, user, principal) :=
    match hosts !! wr_Host req with
    | Some hp => (hp_Addr hp, hp_User hp, hp_Principal hp)
    | None => (safeAuditHost (wr_Host req), "", "")
    end in
  mkSRecord caller (wr_EndUserContext req) host user principal (emission_command req) serial outcome ""
    (decision_rule dec) (decision_warning dec) "" "" err.

Definition auditEmission (p : server_params) (caller : string) (req : WireRequest) (hosts : PolicyTable) (serial : Z)
    (outcome : string) (dec : option DecisionInfo) (err : service_err) : sprog bool :=
  appendAudit p (emission_record caller req hosts serial outcome dec err).

Definition dry_run_outcome (d : option DecisionInfo) : string :=
  match d with Some di => if di_Allowed di then "dry_run_allowed" else "dry_run_denied" | None => "dry_run_allowed" end.

(** The flag tells whether a credential was issued and recorded. *)
Definition respondSignResult (p : server_params) (caller : string) (req : WireRequest) (hosts : PolicyTable)
    (issued : Issued) : sprog (bool * http_response) :=
  if wr_DryRun req then
    ok <- auditEmission p caller req hosts 0 (dry_run_outcome (is_Decision issued)) (is_Decision issued) NoSErr ;;
    Ret (false, if ok then HSign (wire_decision (is_Decision issued) (is_Envelope issued)) else HError 500)
  else match is_Certificate issued with
  | None =>
      ok <- auditEmission p caller req hosts 0 "approval-required" (is_Decision issued) NoSErr ;;
      Ret (false, if ok then HSign (wire_decision (is_Decision issued) "") else HError 500)
  | Some cert =>
      ok <- auditEmission p caller req hosts (is_Serial issued) "issued" (is_Decision issued) NoSErr ;;
      Ret (if ok
           then (true, HSign (mkWireResponse (Some cert) (is_Serial issued) "" 0 (is_ElevationPrefix issued)
                                (is_Decision issued) ""))
           else (false, HError 500))
  end.

(** ** Approve-and-learn *)

Definition waiver_skipped (caller : string) (req : WireRequest) (err : service_err) : srecord :=
  mkSRecord caller "" (wr_Host req) "" "" "approval-waiver" 0 "approval-waiver-skipped" "" NoRule None
    (wr_LearnApprovalID req) (wr_LearnApprover req) err.

Definition waiver_pattern (command : string) : string := "^" +:+ QuoteMeta command +:+ "$".

Definition waiver_ttl (p : server_params) (req : WireRequest) : duration :=
  let ttl := wrap64 (wr_LearnTTLSeconds req * Second) in
  if (0 <? sp_maxGrantTTL p) && (sp_maxGrantTTL p <? ttl) then sp_maxGrantTTL p else ttl.

Definition learned_waiver (p : server_params) (caller : string) (req : WireRequest) (now : time) : Grant :=
  mkGrant "" (wr_Host req) [] [waiver_pattern (wr_Command req)] caller (wr_EndUser req) (wr_Sudo req) (wr_SudoUser req)
    (wr_LearnApprover req) (wr_LearnApprovalID req) now (now + waiver_ttl p req) [].

Definition learn_section (p : server_params) (caller : string) (req : WireRequest) : sprog unit :=
  f <- scall_ (SFrozen caller (wr_EndUser req)) ;;
  match f with
  | Some subj => appendAudit p (waiver_skipped caller req (SFrozenSubject subj)) ;;; Ret tt
  | None =>
      now <- scall_ SClock ;;
      let g := learned_waiver p caller req now in
      scall_ (SSupersede g) ;;;
      r <- scall_ (SGrantAdd g) ;;
      let rule := RuleWaive (waiver_pattern (wr_Command req)) in
      appendAudit p
        match r with
        | Ok id => mkSRecord caller "" (wr_Host req) "" "" ("approval-waiver " +:+ id) 0 "approval-waiver-created" "" rule
                     None (wr_LearnApprovalID req) (wr_LearnApprover req) NoSErr
        | Err e => mkSRecord caller "" (wr_Host req) "" "" "approval-waiver" 0 "approval-waiver-failed" "" rule
                     None (wr_LearnApprovalID req) (wr_LearnApprover req) (SGrant e)
        end ;;;
      Ret tt
  end.

Definition with_writeMu {A : Type} (body : sprog A) : sprog A :=
  scall_ SLock ;;;
  a <- body ;;
  scall_ SUnlock ;;;
  Ret a.

Definition maybeLearnWaiver (p : server_params) (caller : string) (req : WireRequest) (issued : Issued) : sprog unit :=
  if (wr_LearnTTLSeconds req <=? 0) || wr_DryRun req
     || (bool_decide (is_Certificate issued = None) && bool_decide (is_K8sToken issued = ""))
  then Ret tt
  else if negb (match is_Decision issued with Some di => di_RequireApproval di | None => false end)
  then appendAudit p (waiver_skipped caller req (SText "command is not require_approval; nothing to waive")) ;;; Ret tt
  else with_writeMu (learn_section p caller req).

(** ** SSH and Kubernetes signing *)

Definition ssh_intent (pub : string) (a : admitted) : Intent :=
  let req := ad_req a in
  mkIntent (ad_caller a) (wr_Host req) "" None (wr_Role req) (wr_Purpose req) (wr_SessionMode req) (wr_Command req)
    (wrap64 (wr_TTLSeconds req * Second)) pub (wr_Sudo req) (wr_SudoUser req) (wr_PTY req) (wr_FileTransfer req)
    (wr_DryRun req) (wr_Preflight req) (ad_approved a) "" (wr_EndUser req) (wr_EndUserGroups req)
    (wr_EndUserContext req) "" 0 "" "".

(** The group gate: [true] when the target is outside the caller's groups. *)
Definition outside (set : option (gset string)) (name : string) : bool :=
  match set with Some s => negb (bool_decide (name ∈ s)) | None => false end.

Definition is_ca_error (e : sign_error) : bool := match e with ECASign _ | ENoEnvelopeKey | EEnvelope _ => true | _ => false end.

(** The state-changing follow-ups of an issued credential. *)
Definition self_approved (a : admitted) (issued : Issued) : bool :=
  ad_selfApproves a && negb (ad_isForwarder a) && wr_Approved (ad_req a)
  && match is_Decision issued with Some di => di_RequireApproval di | None => false end.

Section ssh.
(** [signer.ParsePublicKey], from the SSH library. *)
Context (ParsePublicKey : string → option string) (p : server_params).

Definition sign_ssh (a : admitted) : sprog http_response :=
  let req := ad_req a in
  let caller := ad_caller a in
  let hosts := sv_hosts (ad_state a) in
  match ParsePublicKey (wr_PublicKey req) with
  | None => Ret (HError 400)
  | Some pub =>
      if outside (HostSetForCaller caller hosts (sv_callers (ad_state a))) (wr_Host req)
      then ok <- auditEmission p caller req hosts 0 "denied" None (SOutsideGroup (wr_Host req) caller) ;;
           Ret (HError (if ok : bool then 403 else 500))
      else
        r <- scall_ (SSignIntent (sv_local (ad_state a)) (ssh_intent pub a)) ;;
        match r with
        | (_, Some e) =>
            if is_ca_error e
            then ok <- auditEmission p caller req hosts 0 "error" None (SSign e) ;; Ret (HError (if ok : bool then 502 else 500))
            else ok <- auditEmission p caller req hosts 0 "denied" None (SSign e) ;; Ret (HError (if ok : bool then 403 else 500))
        | (None, None) => Ret (HError 500)
        | (Some issued, None) =>
            res <- respondSignResult p caller req hosts issued ;;
            if negb res.1 then Ret res.2
            else
              (if self_approved a issued
               then appendAudit p (short_record caller (wr_Host req) "" "self_approved" NoSErr) ;;; Ret tt else Ret tt) ;;;
              (if ad_isForwarder a && (0 <? wr_LearnTTLSeconds req) then maybeLearnWaiver p caller req issued else Ret tt) ;;;
              Ret res.2
        end
  end.
End ssh.

Definition k8sWireShapeError (req : WireRequest) : option k8s_shape_error :=
  if wr_Sudo req || bool_decide (wr_SudoUser req ≠ "") then Some EShapeSudo
  else if wr_PTY req then Some EShapePTY
  else if wr_FileTransfer req then Some EShapeFileTransfer
  else if bool_decide (wr_Purpose req ≠ PurposeOneshot) || bool_decide (wr_SessionMode req ≠ "") then Some EShapeSession
  else if bool_decide (wr_Role req ≠ RoleTarget) then Some EShapeRole
  else None.

Definition wire_action (req : WireRequest) : K8sAction :=
  mkK8sAction (wr_K8sVerb req) (wr_K8sResource req) (wr_K8sGroup req) (wr_K8sNamespace req) (wr_K8sName req).

Definition wire_k8s_intent (a : admitted) : Intent :=
  let req := ad_req a in
  mkIntent (ad_caller a) (wr_Host req) TargetTypeK8s (Some (wire_action req)) RoleTarget PurposeOneshot "" (wr_Command req)
    0 "" false "" false false (wr_DryRun req) (wr_Preflight req) (ad_approved a) "" (wr_EndUser req)
    (wr_EndUserGroups req) (wr_EndUserContext req) "" 0 "" "".

Definition k8s_record (caller : string) (req : WireRequest) (clusters : ClusterTable) (action : option K8sAction) (serial : Z)
    (outcome : string) (dec : option DecisionInfo) (err : service_err) : srecord :=
  let host := match clusters !! wr_Host req with Some cp => cl_APIServer cp | None => safeAuditHost (wr_Host req) end in
  let a := default (wire_action req) action in
  let dash (s : string) := if bool_decide (s = "") then "-" else s in
  let cmd := "target=k8s verb=" +:+ ka_Verb a +:+ " resource="
    +:+ (if bool_decide (ka_Group a = "") then ka_Resource a else ka_Resource a +:+ "." +:+ ka_Group a)
    +:+ " ns=" +:+ dash (ka_Namespace a) +:+ " name=" +:+ dash (ka_Name a)
    +:+ (if bool_decide (wr_EndUser req = "") then "" else " user=" +:+ wr_EndUser req)
    +:+ (if bool_decide (wr_EndUserContext req = "") then "" else " ctx=" +:+ wr_EndUserContext req) in
  mkSRecord caller (wr_EndUserContext req) host "" "" cmd serial outcome TargetTypeK8s
    (decision_rule dec) (decision_warning dec) "" "" err.

(** The cluster table is read again, as it may have been reloaded since. *)
Definition auditK8s (p : server_params) (caller : string) (req : WireRequest) (action : option K8sAction) (serial : Z)
    (outcome : string) (dec : option DecisionInfo) (err : service_err) : sprog bool :=
  st <- scall_ SState ;;
  appendAudit p (k8s_record caller req (l_clusters (sv_local st)) action serial outcome dec err).

Definition respondSignK8s (p : server_params) (caller : string) (req : WireRequest) (issued : Issued) :
    sprog (bool * http_response) :=
  if wr_DryRun req then
    ok <- auditK8s p caller req (is_K8sAction issued) 0 (dry_run_outcome (is_Decision issued)) (is_Decision issued) NoSErr ;;
    Ret (false, if ok then HSign (wire_decision (is_Decision issued) "") else HError 500)
  else if bool_decide (is_K8sToken issued = "") then
    ok <- auditK8s p caller req (is_K8sAction issued) 0 "approval-required" (is_Decision issued) NoSErr ;;
    Ret (false, if ok then HSign (wire_decision (is_Decision issued) "") else HError 500)
  else
    ok <- auditK8s p caller req (is_K8sAction issued) (is_Serial issued) "issued" (is_Decision issued) NoSErr ;;
    Ret (if ok
         then (true, HSign (mkWireResponse None (is_Serial issued) (is_K8sToken issued) (is_K8sTokenExpiry issued) ""
                              (is_Decision issued) ""))
         else (false, HError 500)).

(** A mint failure, no minter and no binding: infrastructure, not policy. *)
Definition is_mint_error (e : sign_error) : bool :=
  match e with EResolveK8s (EK8sMint | ErrK8sNoMinter | ErrK8sNoBinding) => true | _ => false end.

Definition handleSignK8s (p : server_params) (a : admitted) : sprog http_response :=
  let req := ad_req a in
  let caller := ad_caller a in
  let clusters := l_clusters (sv_local (ad_state a)) in
  let refuse (action : option K8sAction) (dec : option DecisionInfo) (outcome : string) (err : service_err) (code : Z) :=
    ok <- auditK8s p caller req action 0 outcome dec err ;; Ret (HError (if ok : bool then code else 500)) in
  match k8sWireShapeError req with
  | Some e => refuse None None "denied" (SShape e) 400
  | None =>
  if outside (ClusterSetForCaller caller clusters (sv_callers (ad_state a))) (wr_Host req)
  then refuse None None "denied" (SOutsideGroup (wr_Host req) caller) 403
  else if bool_decide (clusters !! wr_Host req = None) then refuse None None "denied" (SNoCluster (wr_Host req)) 403
  else
    r <- scall_ (SSignIntent (sv_local (ad_state a)) (wire_k8s_intent a)) ;;
    match r with
    | (issued, Some e) =>
        if is_mint_error e then refuse None None "error" (SSign e) 502
        else refuse (issued ≫= is_K8sAction) (issued ≫= is_Decision) "denied" (SSign e) 403
    | (None, None) => Ret (HError 500)
    | (Some issued, None) =>
        res <- respondSignK8s p caller req issued ;;
        if negb res.1 then Ret res.2
        else
          (if ad_isForwarder a && (0 <? wr_LearnTTLSeconds req) then maybeLearnWaiver p caller req issued else Ret tt) ;;;
          Ret res.2
    end
  end.

(** The gates before the split by target; [Err] is the response of a refusal. *)
Definition sign_gates (p : server_params) (r : http_request WireRequest) : sprog (result http_response admitted) :=
  if bool_decide (rq_Method r ≠ "POST") then Ret (Err (HError 405))
  else match CallerCN (rq_peers r) with
  | None => Ret (Err (HError 401))
  | Some peerCN =>
  st0 <- scall_ SState ;;
  let limit := sv_signRateMin st0 in
  within <- (if 0 <? limit then scall_ (SRateAllow peerCN limit) else Ret true) ;;
  if negb within then Ret (Err (HRetryAfter (RetryAfter limit)))
  else match rq_body r with
  | None => Ret (Err (HError 400))
  | Some req =>
  if existsb bad_field (sign_fields req) then Ret (Err (HError 400))
  else
  st <- scall_ SState ;;
  let isForwarder := bool_decide (peerCN ∈ sv_forwarders st) in
  let selfApproves := MaySelfApprove (sv_callers st) peerCN in
  match resolveCaller peerCN (wr_OnBehalfOf req) (sv_forwarders st) with
  | None => Ret (Err (HError 403))
  | Some caller =>
  if HasUnsafeTokenChar caller then Ret (Err (HError 400))
  else
  rd <- rederiveEndUser (sv_callers st) caller req ;;
  match rd with
  | Err e => resp <- audited p (short_record caller (wr_Host req) "" "end_user_unverified" (SEndUser e)) (HError 403) ;; Ret (Err resp)
  | Ok req =>
  f <- frozenSubject peerCN caller (wr_EndUser req) ;;
  match f with
  | Some subj => resp <- audited p (short_record caller (wr_Host req) "" "frozen_denied" (SFrozenSubject subj)) (HError 403) ;; Ret (Err resp)
  | None => Ret (Ok (mkAdmitted peerCN caller req st isForwarder selfApproves))
  end end end end end.

Definition handleSign (ParsePublicKey : string → option string) (p : server_params) (r : http_request WireRequest) :
    sprog http_response :=
  g <- sign_gates p r ;;
  match g with
  | Err resp => Ret resp
  | Ok a => if bool_decide (wr_TargetType (ad_req a) = TargetTypeK8s) then handleSignK8s p a else sign_ssh ParsePublicKey p a
  end.

(** ** Connectivity *)

Definition wire_host (hp : HostPolicy) : WireHostInfo :=
  mkWireHostInfo (hp_Addr hp) (hp_User hp) (hp_HostKey hp) (hp_Jump hp) (hp_AllowSudo hp) (hp_AllowPTY hp)
    (hp_AllowFileTransfer hp) (hp_Groups hp).
Definition in_set (set : option (gset string)) (name : string) : bool := negb (outside set name).

(** The table, then the two filters that delete from it. *)
Definition visible_hosts (st : server_state) (caller : string) : gmap string WireHostInfo :=
  let hosts := sv_hosts st in
  let result := wire_host <$> hosts in
  let result := filter (fun kv => Is_true (in_set (HostSetForCaller caller hosts (sv_callers st)) kv.1)) result in
  filter (fun kv => Is_true (match hosts !! kv.1 with Some hp => AllowsCaller hp caller | None => true end)) result.

Definition handleHosts (p : server_params) (r : http_request unit) : sprog http_response :=
  if bool_decide (rq_Method r ≠ "GET") then Ret (HError 405)
  else match CallerCN (rq_peers r) with
  | None => Ret (HError 401)
  | Some peerCN =>
      st <- scall_ SState ;;
      match resolveCaller peerCN (rq_OnBehalfOf r) (sv_forwarders st) with
      | None => Ret (HError 403)
      | Some caller =>
          f <- frozenSubject peerCN caller "" ;;
          match f with
          | Some subj =>
              appendAudit p (short_record caller "" "" "frozen_denied" (SFrozenSubject subj)) ;;; Ret (HError 403)
          | None => Ret (HHosts (visible_hosts st caller))
          end
      end
  end.

Definition wire_cluster (cp : ClusterPolicy) : WireClusterInfo :=
  mkWireClusterInfo (cl_APIServer cp) (cl_CAPEM cp) (cl_Groups cp) (cl_ExtraResources cp).

Definition visible_clusters (st : server_state) (caller : string) : gmap string WireClusterInfo :=
  let clusters := l_clusters (sv_local st) in
  let result := wire_cluster <$> filter (fun kv => Is_true (cl_AllowsCaller kv.2 caller)) clusters in
  filter (fun kv => Is_true (in_set (ClusterSetForCaller caller clusters (sv_callers st)) kv.1)) result.

Definition handleClusters (r : http_request unit) : sprog http_response :=
  match CallerCN (rq_peers r) with
  | None => Ret (HError 401)
  | Some peerCN =>
      st <- scall_ SState ;;
      match resolveCaller peerCN (rq_OnBehalfOf r) (sv_forwarders st) with
      | None => Ret (HError 403)
      | Some caller =>
          f <- frozenSubject peerCN caller "" ;;
          match f with
          | Some _ => Ret (HError 403)
          | None => Ret (HClusters (visible_clusters st caller))
          end
      end
  end.

(** ** The kill switch *)

Definition requireReloadCN {B : Type} (r : http_request B) : sprog (result http_response string) :=
  match CallerCN (rq_peers r) with
  | None => Ret (Err (HError 401))
  | Some caller =>
      st <- scall_ SState ;;
      Ret (if bool_decide (caller ∈ sv_reloadCN st) then Ok caller else Err (HError 403))
  end.

Definition decodeFreezeSubject (r : http_request freezeRequest) : option (FreezeSubject * string * bool) :=
  match rq_body r with
  | None => None
  | Some q =>
      if negb (ValidFreezeKind (fq_Kind q)) then None
      else if bool_decide (fq_Value q = "") || HasUnsafeTokenChar (fq_Value q) || HasUnsafeTokenChar (fq_Reason q) then None
      else Some (mkFreezeSubject (fq_Kind q) (fq_Value q), fq_Reason q, fq_AllowVolatile q)
  end.

(** [strconv.ParseUint] in base 10 for 64 bits: digits only, no sign and no
    underscore. *)
Fixpoint digits_value (acc : Z) (s : string) : option Z :=
  match s with
  | "" => Some acc
  | String c s' => if is_digit c then digits_value (10 * acc + (byte_of c - 48)) s' else None
  end.
Definition ParseUint64 (s : string) : option Z :=
  if bool_decide (s = "") then None
  else match digits_value 0 s with Some n => if n <? 2 ^ 64 then Some n else None | None => None end.
Definition canonicalFreezeSerial (v : string) : option string := FormatInt <$> ParseUint64 v.

Definition canonical_subject (subj : FreezeSubject) : option FreezeSubject :=
  if bool_decide (fs_Kind subj = FreezeSerial) then mkFreezeSubject (fs_Kind subj) <$> canonicalFreezeSerial (fs_Value subj)
  else Some subj.

Definition freeze_record (caller outcome : string) (subj : FreezeSubject) (reason : string) (grantsRevoked : nat)
    (err : service_err) : srecord :=
  short_record caller ""
    (outcome +:+ " kind=" +:+ fs_Kind subj +:+ " value=" +:+ fs_Value subj
     +:+ (if bool_decide (outcome = "frozen") then " grants_revoked=" +:+ FormatInt (Z.of_nat grantsRevoked) else "")
     +:+ (if bool_decide (reason = "") then "" else " reason=" +:+ reason))
    outcome err.

(** Best effort: the action has already applied. *)
Definition auditFreeze (p : server_params) (caller outcome : string) (subj : FreezeSubject) (reason : string)
    (grantsRevoked : nat) (err : service_err) : sprog unit :=
  appendAudit p (freeze_record caller outcome subj reason grantsRevoked err) ;;; Ret tt.

Definition not_durable (e : freeze_error) : bool := match e with ErrFreezeNotDurable => true | _ => false end.

Definition freeze_section (p : server_params) (caller : string) (subj : FreezeSubject) (reason : string) : sprog http_response :=
  now <- scall_ SClock ;;
  r <- scall_ (SFreezeAdd subj reason caller now) ;;
  let '(newly, err) := r in
  if match err with Some e => negb (not_durable e) | None => false end then Ret (HError 500)
  else
    g <- scall_ (SRevokeSubject (fs_Kind subj) (fs_Value subj)) ;;
    let revoked := match g with Ok n => n | Err _ => 0%nat end in
    auditFreeze p caller "frozen" subj reason revoked (match g with Ok _ => NoSErr | Err e => SGrant e end) ;;;
    Ret (if bool_decide (is_Some err) then HError 500
         else match g with Err _ => HError 500 | Ok n => HFrozen newly n end).

Definition handleFreeze (p : server_params) (r : http_request freezeRequest) : sprog http_response :=
  a <- requireReloadCN r ;;
  match a with
  | Err resp => Ret resp
  | Ok caller =>
  match decodeFreezeSubject r with
  | None => Ret (HError 400)
  | Some (subj, reason, allowVolatile) =>
  match canonical_subject subj with
  | None => Ret (HError 400)
  | Some subj =>
      v <- scall_ SVolatile ;;
      if v && negb allowVolatile then Ret (HError 409) else with_writeMu (freeze_section p caller subj reason)
  end end end.

(** [raw] is the spelling of the request, [subj] the canonical one. *)
Definition unfreeze_section (p : server_params) (caller : string) (raw subj : FreezeSubject) : sprog http_response :=
  r <- scall_ (SFreezeRemove subj) ;;
  r' <- (if bool_decide (r.2 = None) && negb r.1 && bool_decide (raw ≠ subj)
         then x <- scall_ (SFreezeRemove raw) ;; Ret (x, if x.1 : bool then raw else subj)
         else Ret (r, subj)) ;;
  let '((existed, err), subj) := r' in
  if bool_decide (is_Some err) then Ret (HError 500)
  else
    g <- scall_ (SRevokeSubject (fs_Kind subj) (fs_Value subj)) ;;
    match g with
    | Err _ => Ret (HError 500)
    | Ok _ => auditFreeze p caller "unfrozen" subj "" 0 NoSErr ;;; Ret (HUnfrozen existed)
    end.

Definition handleUnfreeze (p : server_params) (r : http_request freezeRequest) : sprog http_response :=
  a <- requireReloadCN r ;;
  match a with
  | Err resp => Ret resp
  | Ok caller =>
  match decodeFreezeSubject r with
  | None => Ret (HError 400)
  | Some (raw, _, _) => with_writeMu (unfreeze_section p caller raw (default raw (canonical_subject raw)))
  end end.

Definition redacted_entry (e : FrozenEntry) : FrozenEntry := mkFrozenEntry (fe_Subject e) "" "" (fe_FrozenAt e).

Definition handleRevocations (r : http_request unit) : sprog http_response :=
  match CallerCN (rq_peers r) with
  | None => Ret (HError 401)
  | Some caller =>
      entries <- scall_ SFreezeList ;;
      st <- scall_ SState ;;
      Ret (HRevocations (if bool_decide (caller ∈ sv_reloadCN st) then entries else map redacted_entry entries))
  end.

(** ** Runtime grants *)

Definition policyAdmin {B : Type} (r : http_request B) : sprog (option (string * bool)) :=
  match CallerCN (rq_peers r) with
  | None => Ret None
  | Some caller => st <- scall_ SState ;; Ret (Some (caller, bool_decide (caller ∈ sv_reloadCN st)))
  end.

Definition grant_record (caller host id : string) (allow : list string) (outcome : string) (err : service_err) : srecord :=
  mkSRecord caller "" (safeAuditHost host) "" "" ("grant " +:+ id) 0 outcome ""
    (if bool_decide (allow = []) then NoRule else RuleAllow (Join allow ",")) None "" "" err.
Definition auditGrant (p : server_params) (caller host id : string) (allow : list string) (outcome : string)
    (err : service_err) : sprog unit :=
  appendAudit p (grant_record caller host id allow outcome err) ;;; Ret tt.

Definition requested_grant (caller host : string) (req : grantReq) (now : time) : Grant :=
  mkGrant "" host (gq_Allow req) [] (gq_Caller req) (gq_EndUser req) false "" caller "" now
    (now + wrap64 (gq_TTLSeconds req * Second)) [].

Definition grant_section (p : server_params) (caller host : string) (req : grantReq) : sprog http_response :=
  f <- scall_ (SFrozen (gq_Caller req) (gq_EndUser req)) ;;
  match f with
  | Some subj => auditGrant p caller host "" (gq_Allow req) "grant-denied" (SFrozenSubject subj) ;;; Ret (HError 409)
  | None =>
      now <- scall_ SClock ;;
      r <- scall_ (SGrantAdd (requested_grant caller host req now)) ;;
      match r with
      | Err e => auditGrant p caller host "" (gq_Allow req) "grant-failed" (SGrant e) ;;; Ret (HError 400)
      | Ok id =>
          auditGrant p caller host id (gq_Allow req) "grant-created" NoSErr ;;;
          Ret (HGrantCreated id host (now + wrap64 (gq_TTLSeconds req * Second)))
      end
  end.

(** A refused non-admin: counted against its budget, then audited. *)
Definition deny_admin (p : server_params) (caller : string) (e : srecord) : sprog http_response :=
  over <- admitDenial caller ;;
  match over with
  | Some resp => Ret resp
  | None => appendAudit p e ;;; Ret (HError 403)
  end.

Definition handleGrantCreate (p : server_params) (r : http_request grantReq) : sprog http_response :=
  a <- policyAdmin r ;;
  let host := rq_host r in
  match a with
  | None => Ret (HError 401)
  | Some (caller, false) => deny_admin p caller (grant_record caller host "" [] "grant-denied" (SText "caller not authorised"))
  | Some (caller, true) =>
  match rq_body r with
  | None => Ret (HError 400)
  | Some req =>
  if bool_decide (gq_Allow req = []) || (gq_TTLSeconds req <=? 0) then Ret (HError 400)
  else if (0 <? sp_maxGrantTTL p) && (sp_maxGrantTTL p <? wrap64 (gq_TTLSeconds req * Second))
  then auditGrant p caller host "" (gq_Allow req) "grant-failed" (SText "ttl_seconds exceeds max_grant_ttl_seconds") ;;;
       Ret (HError 400)
  else
    st <- scall_ SState ;;
    let '(exists_, allowlist) := HostAllowlistActive (sv_local st) host in
    if negb exists_ then auditGrant p caller host "" (gq_Allow req) "grant-failed" (SText "unknown host") ;;; Ret (HError 404)
    else if negb allowlist
    then auditGrant p caller host "" (gq_Allow req) "grant-failed" (SText "host is not allowlist-active") ;;; Ret (HError 409)
    else with_writeMu (grant_section p caller host req)
  end end.

Definition handleGrantList (r : http_request unit) : sprog http_response :=
  a <- policyAdmin r ;;
  match a with
  | None => Ret (HError 401)
  | Some (_, false) => Ret (HError 403)
  | Some (_, true) => now <- scall_ SClock ;; l <- scall_ (SGrantList now) ;; Ret (HGrants l)
  end.

Definition handleGrantRevoke (p : server_params) (r : http_request unit) : sprog http_response :=
  a <- policyAdmin r ;;
  let id := rq_id r in
  match a with
  | None => Ret (HError 401)
  | Some (caller, authz) =>
      if HasUnsafeTokenChar id then Ret (HError 400)
      else if negb authz then deny_admin p caller (grant_record caller "" id [] "grant-denied" (SText "caller not authorised"))
      else
        r <- scall_ (SGrantRevoke id) ;;
        match r with
        | Err e => auditGrant p caller "" id [] "grant-failed" (SGrant e) ;;; Ret (HError 500)
        | Ok false => auditGrant p caller "" id [] "grant-failed" (SText "unknown grant") ;;; Ret (HError 404)
        | Ok true => auditGrant p caller "" id [] "grant-revoked" NoSErr ;;; Ret (HGrantRevoked id)
        end
  end.

(** The goroutine that drops expired grants, one tick. *)
Definition purge_tick : sprog unit := now <- scall_ SClock ;; scall_ (SPurge now) ;;; Ret tt.

(** ** Reload and policy mutation *)

(** The result of [endUserVerifierFor]: the current verifier when the block is
    unchanged. *)
Definition endUserVerifierFor (cfg : Config) : sprog (result config_error (option Verifier)) :=
  st <- scall_ SState ;;
  if bool_decide (cf_EndUserOIDC cfg = sv_endUserOIDCCfg st) then Ret (Ok (sv_endUserVerifier st))
  else scall_ (SBuildVerifier (cf_EndUserOIDC cfg)).

Definition swapped (cfg : Config) (local : Local) (v : option Verifier) : server_state :=
  mkServerState local (cf_Hosts cfg) (cf_Callers cfg) (reloadSet (cf_ReloadCallers cfg))
    (reloadSet (cf_TrustedForwarders cfg)) (cf_SignRateLimitPerMin cfg) v (cf_EndUserOIDC cfg).
Definition swapState (cfg : Config) (local : Local) (v : option Verifier) : sprog unit :=
  scall_ (SSwap (swapped cfg local v)).

Section config.
Context `{RE : RegexpEngine} `{CT : ConfigText} (p : server_params).

(** [None] is an error. *)
Definition reload_section : sprog (option nat) :=
  b <- scall_ SReadConfig ;;
  match b ≫= cfg_parse with
  | None => Ret None
  | Some cfg =>
      l <- scall_ (SBuildState cfg) ;;
      match l with
      | Err _ => Ret None
      | Ok local =>
          v <- endUserVerifierFor cfg ;;
          match v with
          | Err _ => Ret None
          | Ok v => swapState cfg local v ;;; Ret (Some (size (cf_Hosts cfg)))
          end
      end
  end.
Definition reload : sprog (option nat) := with_writeMu reload_section.

Definition auditReload (caller : string) (hosts : nat) (outcome : string) (err : service_err) : sprog unit :=
  appendAudit p (short_record caller "" ("reload hosts=" +:+ FormatInt (Z.of_nat hosts)) outcome err) ;;; Ret tt.

Definition handleReload (r : http_request unit) : sprog http_response :=
  if bool_decide (rq_Method r ≠ "POST") then Ret (HError 405)
  else match CallerCN (rq_peers r) with
  | None => Ret (HError 401)
  | Some caller =>
      st <- scall_ SState ;;
      if negb (bool_decide (caller ∈ sv_reloadCN st))
      then deny_admin p caller (short_record caller "" "reload hosts=0" "reload-denied" (SText "caller not authorised"))
      else
        n <- reload ;;
        match n with
        | None => auditReload caller 0 "reload-failed" SConfig ;;; Ret (HError 500)
        | Some n => auditReload caller n "reloaded" NoSErr ;;; Ret (HReloaded n)
        end
  end.

(** One change of the configuration file noticed by [watchConfig], or a SIGHUP. *)
Definition local_reload (who : string) : sprog unit :=
  n <- reload ;;
  match n with
  | None => auditReload who 0 "reload-failed" SConfig
  | Some n => auditReload who n "reloaded" NoSErr
  end.

(** The status of a failure is that of [policyErrStatus]. *)
Definition mutateAllow_section (host pattern : string) (add : bool) : sprog (result Z nat) :=
  b <- scall_ SReadConfig ;;
  match b with
  | None => Ret (Err 500)
  | Some orig =>
  match editAllow orig host pattern add with
  | Err e => Ret (Err (policyErrStatus e))
  | Ok newBytes =>
  match cfg_parse newBytes with
  | None => Ret (Err 500)
  | Some cfg =>
  l <- scall_ (SBuildState cfg) ;;
  match l with
  | Err _ => Ret (Err 500)
  | Ok local =>
  v <- endUserVerifierFor cfg ;;
  match v with
  | Err _ => Ret (Err 500)
  | Ok v =>
      ok <- scall_ (SWriteConfig newBytes) ;;
      if ok : bool then swapState cfg local v ;;; Ret (Ok (size (cf_Hosts cfg))) else Ret (Err 500)
  end end end end end.
Definition mutateAllow (host pattern : string) (add : bool) : sprog (result Z nat) :=
  with_writeMu (mutateAllow_section host pattern add).

Definition policy_record (caller host pattern : string) (add : bool) (outcome : string) (err : service_err) : srecord :=
  mkSRecord caller "" (safeAuditHost host) "" "" (if add then "policy-allow-add" else "policy-allow-remove") 0 outcome ""
    (if bool_decide (pattern = "") then NoRule else RuleAllow pattern) None "" "" err.
Definition auditPolicy (caller host pattern : string) (add : bool) (outcome : string) (err : service_err) : sprog unit :=
  appendAudit p (policy_record caller host pattern add outcome err) ;;; Ret tt.

Definition handlePolicyAllow (r : http_request string) : sprog http_response :=
  let add := bool_decide (rq_Method r = "POST") in
  if negb add && bool_decide (rq_Method r ≠ "DELETE") then Ret (HError 405)
  else match CallerCN (rq_peers r) with
  | None => Ret (HError 401)
  | Some caller =>
  st <- scall_ SState ;;
  if negb (bool_decide (caller ∈ sv_reloadCN st))
  then deny_admin p caller (policy_record caller "" "" add "policy-denied" (SText "caller not authorised"))
  else
  let host := rq_host r in
  match rq_body r with
  | None => Ret (HError 400)
  | Some pattern =>
  if bool_decide (pattern = "") then Ret (HError 400)
  else match regexp_Compile pattern with
  | None => auditPolicy caller host pattern add "policy-failed" (SText "invalid regex") ;;; Ret (HError 400)
  | Some _ =>
  n <- mutateAllow host pattern add ;;
  match n with
  | Err code => auditPolicy caller host pattern add "policy-failed" SConfig ;;; Ret (HError code)
  | Ok n => auditPolicy caller host pattern add "policy-changed" NoSErr ;;; Ret (HPolicyChanged host n)
  end end end end.

Definition auditPolicyRead (caller : string) (hosts : nat) (outcome : string) (err : service_err) : sprog unit :=
  appendAudit p (short_record caller "" ("policy-hosts-read hosts=" +:+ FormatInt (Z.of_nat hosts)) outcome err) ;;; Ret tt.

Definition handlePolicyHostsRead (r : http_request unit) : sprog http_response :=
  a <- policyAdmin r ;;
  match a with
  | None => Ret (HError 401)
  | Some (caller, false) =>
      deny_admin p caller (short_record caller "" "policy-hosts-read hosts=0" "policy-read-denied" (SText "caller not authorised"))
  | Some (caller, true) =>
      st <- scall_ SState ;;
      auditPolicyRead caller (size (sv_hosts st)) "policy-read" NoSErr ;;;
      Ret (HPolicy (sv_hosts st))
  end.
End config.

(** ** The running service *)

(** The state handlers share. [s_file] is the configuration file; [s_unswept]
    records the subjects whose last grant revocation the database refused. *)
Record svc := mkSvc {
  s_state : server_state;
  s_freezes : FreezeStore;
  s_grants : GrantStore;
  s_rate : gmap string rateBucket;
  s_log : list srecord;
  s_writeMu : option nat;
  s_file : option string;
  s_unswept : gset FreezeSubject;
}.
Definition set_state (x : server_state) (s : svc) : svc :=
  mkSvc x (s_freezes s) (s_grants s) (s_rate s) (s_log s) (s_writeMu s) (s_file s) (s_unswept s).
Definition set_freezes (x : FreezeStore) (s : svc) : svc :=
  mkSvc (s_state s) x (s_grants s) (s_rate s) (s_log s) (s_writeMu s) (s_file s) (s_unswept s).
Definition set_grants (x : GrantStore) (s : svc) : svc :=
  mkSvc (s_state s) (s_freezes s) x (s_rate s) (s_log s) (s_writeMu s) (s_file s) (s_unswept s).
Definition set_rate (x : gmap string rateBucket) (s : svc) : svc :=
  mkSvc (s_state s) (s_freezes s) (s_grants s) x (s_log s) (s_writeMu s) (s_file s) (s_unswept s).
Definition set_log (x : list srecord) (s : svc) : svc :=
  mkSvc (s_state s) (s_freezes s) (s_grants s) (s_rate s) x (s_writeMu s) (s_file s) (s_unswept s).
Definition set_mu (x : option nat) (s : svc) : svc :=
  mkSvc (s_state s) (s_freezes s) (s_grants s) (s_rate s) (s_log s) x (s_file s) (s_unswept s).
Definition set_file (x : option string) (s : svc) : svc :=
  mkSvc (s_state s) (s_freezes s) (s_grants s) (s_rate s) (s_log s) (s_writeMu s) x (s_unswept s).
Definition set_unswept (x : gset FreezeSubject) (s : svc) : svc :=
  mkSvc (s_state s) (s_freezes s) (s_grants s) (s_rate s) (s_log s) (s_writeMu s) (s_file s) x.

(** The signer with the current grants: [Local] holds the shared store. *)
Definition with_grants (gp : GrantProvider) (l : Local) : Local :=
  mkLocal (l_defaultCA l) (l_groupCAs l) (l_policy l) (l_defaultTTL l) (Some gp) (l_clusters l) (l_minter l) (l_envelopeKey l).

Section semantics.
Context `{RE : RegexpEngine} `{SP : ShellParser} `{ED : Ed25519} `{EJ : EnvelopeJSON} `{JS : JSONStrings}.
Context (oidc_Verify : string → string → option IDToken) (oor : Z).

(** A revocation leaves its subject swept or, when the database refuses it,
    unswept. *)
Definition sweep_mark (kind value : string) (r : result grant_error nat) (s : svc) : gset FreezeSubject :=
  let subj := mkFreezeSubject kind value in
  match r with Ok _ => s_unswept s ∖ {[subj]} | Err _ => {[subj]} ∪ s_unswept s end.

(** [sem t c s x s']: thread [t] makes the call [c] in state [s], with answer [x]
    and next state [s']. A failed append may have left its record; the file can
    be missing or unreadable. *)
Definition sem (t : nat) {X : Type} (c : scall X) : svc → X → svc → Prop :=
  match c with
  | SState => fun s x s' => x = s_state s ∧ s' = s
  | SRateAllow cn limit => fun s x s' =>
      ∃ (iter : range_order rateBucket) now m, RangeOrder iter ∧ Allow iter (s_rate s) now cn limit = (m, x) ∧ s' = set_rate m s
  | SClock => fun s _ s' => s' = s
  | SVerify v token => fun s x s' => s' = s ∧ ∃ now, x = VerifyEndUser oidc_Verify oor v now token
  | SFrozen c u => fun s x s' => x = Frozen (Some (s_freezes s)) c u ∧ s' = s
  | SSignIntent l i => fun s x s' => s' = s ∧
      ∃ (iter : range_order Grant) env, RangeOrder iter ∧ x = SignIntent (with_grants (provider_of iter (s_grants s)) l) env i
  | SAppend e => fun s x s' =>
      if x then s' = set_log (s_log s ++ [e]) s else s' = s ∨ s' = set_log (s_log s ++ [e]) s
  | SLock => fun s _ s' => s_writeMu s = None ∧ s' = set_mu (Some t) s
  | SUnlock => fun s _ s' => s_writeMu s = Some t ∧ s' = set_mu None s
  | SVolatile => fun s x s' => x = Volatile (s_freezes s) ∧ s' = s
  | SFreezeAdd subj reason by_ now => fun s x s' => ∃ dbok ckptok f,
      fz_Add dbok ckptok (s_freezes s) subj reason by_ now = (x, f) ∧ s' = set_freezes f s
  | SFreezeRemove subj => fun s x s' => ∃ dbok ckptok f,
      fz_Remove dbok ckptok (s_freezes s) subj = (x, f) ∧ s' = set_freezes f s
  | SFreezeList => fun s x s' => x ≡ₚ fz_List (Some (s_freezes s)) ∧ s' = s
  | SRevokeSubject kind value => fun s x s' => ∃ txok g,
      RevokeForSubject txok (s_grants s) kind value = (x, g) ∧
      s' = set_unswept (sweep_mark kind value x s) (set_grants g s)
  | SGrantAdd g => fun s x s' => ∃ id dbok gs,
      gs_Add id dbok (s_grants s) g = (x, gs) ∧ s' = set_grants gs s
  | SSupersede g => fun s x s' => ∃ delok gs, SupersedeWaiver delok (s_grants s) g = (x, gs) ∧ s' = set_grants gs s
  | SGrantRevoke id => fun s x s' => ∃ dbok gs, gs_Revoke dbok (s_grants s) id = (x, gs) ∧ s' = set_grants gs s
  | SGrantList now => fun s x s' => ∃ (iter : range_order Grant) gs, RangeOrder iter ∧
      gs_List iter now (s_grants s) = (x, gs) ∧ s' = set_grants gs s
  | SPurge now => fun s x s' => ∃ delok gs, Purge delok now (s_grants s) = (x, gs) ∧ s' = set_grants gs s
  | SReadConfig => fun s x s' => s' = s ∧ (x = None ∨ x = s_file s)
  | SBuildState cfg => fun s x s' => s' = s ∧ ∃ env, build_env_ok env ∧ x = buildState env cfg
  | SBuildVerifier cfg => fun s x s' => s' = s ∧ ∃ discovered, x = buildEndUserVerifier discovered cfg
  | SWriteConfig text => fun s x s' => if x then s' = set_file (Some text) s else s' = s
  | SSwap st => fun s _ s' => s' = set_state st s
  end.
End semantics.
