(* ===== verification/ServiceInv.v ===== *)
(** * The kill switch and runtime grants under concurrency

    Freezes, unfreezes, grant creation, approve-and-learn, reloads and policy
    edits of the signing service run concurrently with signing and with the purge
    of expired grants. The mutations hold [writeMu]; grant revocation, listing
    and purging do not, and only remove grants. Whatever the interleaving, while
    no mutation is in progress a frozen subject has no grant or waiver scoped to
    it, except one whose removal the database refused (which the freeze's response
    reports). *)

From S2P Require Import Prelude GoStrings CmdPolicy PolicySet K8sAction Intent Freeze Grants CA Encoding Elevate Crypto Sealed HostPolicy K8sPolicy Signer RateLimit Approval OAuth ServiceConfig Prog Threads Service.

(** ** The stores *)

Section stores.
Context `{RE : RegexpEngine} `{JS : JSONStrings}.

Lemma gs_Add_grants id d s g k g' :
  gs_grants (gs_Add id d s g).2 !! k = Some g' →
  gs_grants s !! k = Some g' ∨ (g_Caller g' = g_Caller g ∧ g_EndUser g' = g_EndUser g).
Proof.
  unfold gs_Add. destruct (_ && _); [by left|]. destruct (for_each validateAllow _); [|by left].
  unfold compileWaivers. destruct (map_each compileWaiver _) as [res|]; simpl; [|by left].
  assert (∀ db, gs_grants (mkGrantStore (<[id := set_ID id (set_waiverRE res (set_SudoUser
      (canonicalGrantSudoUser (g_Sudo g) (g_SudoUser g)) g))]> (gs_grants s)) db) !! k = Some g' →
    gs_grants s !! k = Some g' ∨ (g_Caller g' = g_Caller g ∧ g_EndUser g' = g_EndUser g)) as H.
  { intros db. simpl. intros [[_ <-]|[_ ?]]%lookup_insert_Some; [by right|by left]. }
  destruct (gs_db s) as [tbl|]; [|by apply H]. destruct (insertDB _ _ _) as [tbl'|]; [by apply H|by left].
Qed.

Lemma RevokeForSubject_shrinks tx s kind value r s' :
  RevokeForSubject tx s kind value = (r, s') → gs_grants s' ⊆ gs_grants s.
Proof. intros H. pose proof (run_grant_op_shrinks s (GRevokeForSubject tx kind value)) as Hs. simpl in Hs. rewrite H in Hs. by apply Hs. Qed.

Lemma fz_Add_frozen d c s subj r b n x f :
  fz_Add d c s subj r b n = (x, f) →
  dom (frozen f) ⊆ {[subj]} ∪ dom (frozen s) ∧ (∀ e, x.2 = Some e → not_durable e = false → f = s).
Proof.
  unfold fz_Add. destruct (negb _); [intros [= <- <-]; split; [set_solver|done]|].
  case_bool_decide; [intros [= <- <-]; split; [set_solver|done]|].
  destruct (fz_db s) as [db|]; [|intros [= <- <-]; split; [set_solver|done]].
  destruct (negb d); [intros [= <- <-]; split; [set_solver|done]|].
  destruct (freezeCheckpoint _ _); intros [= <- <-]; (split; simpl; [set_solver|by intros ? [= <-]]).
Qed.

Lemma fz_Remove_frozen d c s subj x f : fz_Remove d c s subj = (x, f) → dom (frozen f) ⊆ dom (frozen s).
Proof.
  unfold fz_Remove. destruct (frozen s !! subj); [|by intros [= <- <-]].
  destruct (fz_db s) as [db|]; [|intros [= <- <-]; simpl; set_solver]. destruct (negb d); [by intros [= <- <-]|].
  destruct (freezeCheckpoint _ _); intros [= <- <-]; simpl; set_solver.
Qed.

Lemma Frozen_None s c u subj : Frozen (Some s) c u = None → subj ∈ dom (frozen s) → fs_Value subj ≠ "" →
  (fs_Kind subj = FreezeCaller → fs_Value subj ≠ c) ∧ (fs_Kind subj = FreezeEndUser → fs_Value subj ≠ u).
Proof.
  unfold Frozen. intros Hf [e He]%elem_of_dom Hv. destruct subj as [k v]; simpl in *. split; intros -> ->.
  - by rewrite (bool_decide_eq_true_2 (c ≠ "")), (bool_decide_eq_true_2 (is_Some (frozen s !! mkFreezeSubject FreezeCaller c))) in Hf by eauto.
  - destruct (bool_decide (c ≠ "") && _); [done|].
    by rewrite (bool_decide_eq_true_2 (u ≠ "")), (bool_decide_eq_true_2 (is_Some (frozen s !! mkFreezeSubject FreezeEndUser u))) in Hf by eauto.
Qed.
End stores.

(** ** The invariant *)

Definition ungranted (grants : gmap string Grant) (subj : FreezeSubject) : Prop :=
  map_Forall (fun _ g => scoped_to (fs_Kind subj) (fs_Value subj) g = false) grants.

(** Every frozen subject outside [except] has no grant, unless its last
    revocation failed. *)
Definition frozen_ungranted_but (except : FreezeSubject → Prop) (s : svc) : Prop :=
  ∀ subj, subj ∈ dom (frozen (s_freezes s)) → fs_Value subj ≠ "" → subj ∉ s_unswept s → ¬ except subj →
    ungranted (gs_grants (s_grants s)) subj.
Definition frozen_ungranted (s : svc) : Prop := frozen_ungranted_but (fun _ => False) s.

(** What happens outside [writeMu]: the freezes stay, grants are only removed. *)
Record keeps (s s' : svc) : Prop := {
  kp_mu : s_writeMu s' = s_writeMu s;
  kp_freezes : s_freezes s' = s_freezes s;
  kp_grants : gs_grants (s_grants s') ⊆ gs_grants (s_grants s);
  kp_unswept : s_unswept s' = s_unswept s;
}.

#[export] Instance keeps_preorder : PreOrder keeps.
Proof.
  split; [by intros s; split|]. intros s1 s2 s3 [? ? ? ?] [? ? ? ?]. split; [congruence|congruence|by etrans|congruence].
Qed.

Lemma ungranted_sub m m' subj : m' ⊆ m → ungranted m subj → ungranted m' subj.
Proof. apply map_Forall_sub. Qed.

Lemma but_stable except s s' : keeps s s' → frozen_ungranted_but except s → frozen_ungranted_but except s'.
Proof.
  intros [_ Hf Hg Hu] H subj Hs Hv Hn He. rewrite Hf in Hs. rewrite Hu in Hn. eapply ungranted_sub; [exact Hg|]. by apply H.
Qed.

(** ** Threads of the service *)

(** Walks a program: every call is of the kind, or a named program of the hint
    database is. *)
Create HintDb calm.
Ltac only_calm := repeat first
  [ exact I
  | solve [eauto 1 with calm]
  | match goal with
    | |- only _ (pbind _ _) => apply only_bind; [|intros ?]
    | |- only _ (Prog.call_ _) => split; [exact I|by intros]
    | |- only _ (match ?x with _ => _ end) => destruct x
    | |- only _ (let x := _ in _) => cbv zeta
    end ].

Section service.
Context `{RE : RegexpEngine} `{SP : ShellParser} `{ED : Ed25519} `{EJ : EnvelopeJSON} `{JS : JSONStrings} `{CT : ConfigText}.
Context (oidc_Verify : string → string → option IDToken) (oor : Z) (ParsePublicKey : string → option string) (p : server_params).

Definition svc_sem (t : nat) (X : Type) (c : scall X) : svc → X → svc → Prop := sem oidc_Verify oor t c.

(** Someone edits or removes the configuration file. *)
Definition file_edited (s s' : svc) : Prop := ∃ f, s' = set_file f s.

(** What the service runs: its handlers, the purge of expired grants, and
    reloads by signal or by the file watcher. *)
Inductive service_thread : sprog (option http_response) → Prop :=
| run_sign r : service_thread (x <- handleSign ParsePublicKey p r ;; Ret (Some x))
| run_hosts r : service_thread (x <- handleHosts p r ;; Ret (Some x))
| run_clusters r : service_thread (x <- handleClusters r ;; Ret (Some x))
| run_freeze r : service_thread (x <- handleFreeze p r ;; Ret (Some x))
| run_unfreeze r : service_thread (x <- handleUnfreeze p r ;; Ret (Some x))
| run_revocations r : service_thread (x <- handleRevocations r ;; Ret (Some x))
| run_grant_create r : service_thread (x <- handleGrantCreate p r ;; Ret (Some x))
| run_grant_list r : service_thread (x <- handleGrantList r ;; Ret (Some x))
| run_grant_revoke r : service_thread (x <- handleGrantRevoke p r ;; Ret (Some x))
| run_reload r : service_thread (x <- handleReload p r ;; Ret (Some x))
| run_policy_allow r : service_thread (x <- handlePolicyAllow p r ;; Ret (Some x))
| run_policy_read r : service_thread (x <- handlePolicyHostsRead p r ;; Ret (Some x))
| run_purge : service_thread (purge_tick ;;; Ret None)
| run_local_reload who : service_thread (local_reload p who ;;; Ret None).

#[local] Abbreviation twp := (Threads.wp svc_sem s_writeMu keeps frozen_ungranted) (only parsing).
Definition released {A : Type} (m : option svc) (_ : A) : Prop := m = None.

(** Calls that change neither the freezes nor the mutex, and at most remove
    grants. *)
Definition calm (X : Type) (c : scall X) : Prop :=
  match c with
  | SLock | SUnlock | SFreezeAdd _ _ _ _ | SFreezeRemove _ | SRevokeSubject _ _ | SGrantAdd _ => False
  | _ => True
  end.

Lemma keeps_grants g s : gs_grants g ⊆ gs_grants (s_grants s) → keeps s (set_grants g s).
Proof. by split. Qed.

Lemma calm_keeps t X (c : scall X) s x s' : calm X c → svc_sem t X c s x s' → keeps s s'.
Proof.
  pose proof (fun op => run_grant_op_shrinks (s_grants s) op) as Hsh. unfold svc_sem.
  destruct c as [| | | | | |e| | | | | | | | |g|id|now|now| | | | |]; simpl; try done; intros _ Hs;
    repeat match goal with H : ∃ _, _ |- _ => destruct H | H : _ ∧ _ |- _ => destruct H end; simplify_eq/=; try done.
  - destruct x; [by subst|]. destruct Hs; by subst.
  - apply keeps_grants. injection H as _ <-. apply map_filter_subseteq.
  - apply keeps_grants. pose proof (Hsh (GRevoke x0 id)) as Hk. unfold run_grant_op in Hk. rewrite H in Hk. by apply Hk.
  - apply keeps_grants. injection H0 as _ <-. apply map_filter_subseteq.
  - apply keeps_grants. injection H as _ <-. apply map_filter_subseteq.
  - destruct x; by subst.
Qed.

Lemma calm_harmless t X (c : scall X) : calm X c → harmless svc_sem s_writeMu keeps t X c.
Proof. intros Hc s x s' Hs. pose proof (calm_keeps t X c s x s' Hc Hs) as Hk. split; [apply Hk|done]. Qed.

(** ** Outside the mutex *)

Lemma twp_calm {A : Type} t (q : sprog A) : only calm q → twp t None q released.
Proof.
  intros H. apply wp_harmless. induction q as [a|X c f IH]; simpl in *; [done|]. destruct H. split; [by apply calm_harmless|auto].
Qed.

Lemma twp_seq {A B : Type} t (q : sprog A) (k : A → sprog B) :
  twp t None q released → (∀ a, twp t None (k a) released) → twp t None (pbind q k) released.
Proof. intros Hq Hk. apply wp_bind. eapply wp_mono; [|exact Hq]. by intros m a ->. Qed.

(** ** Inside the mutex

    A call made while the stable assertion [I] holds. *)
Definition stable (I : svc → Prop) : Prop := ∀ s s', keeps s s' → I s → I s'.
Definition within {A : Type} (t : nat) (I : svc → Prop) (q : sprog A) (J : A → svc → Prop) : Prop :=
  ∀ s0, s_writeMu s0 = Some t → I s0 →
    twp t (Some s0) q (fun m a => ∃ s1, m = Some s1 ∧ s_writeMu s1 = Some t ∧ J a s1).

Lemma within_Ret {A : Type} t (I : svc → Prop) (a : A) (J : A → svc → Prop) :
  (∀ s, I s → J a s) → within t I (Ret a) J.
Proof. intros H s0 Ho HI. simpl. eauto. Qed.

Lemma within_bind {A B : Type} t I (q : sprog A) (k : A → sprog B) J K :
  within t I q J → (∀ a, within t (J a) (k a) K) → within t I (pbind q k) K.
Proof.
  intros Hq Hk s0 Ho HI. apply wp_bind. eapply wp_mono; [|by apply Hq]. intros m a (s1 & -> & Ho1 & HJ). by apply Hk.
Qed.

Lemma within_call {X : Type} t I (c : scall X) (J : X → svc → Prop) : stable I →
  (∀ s x s', s_writeMu s = Some t → I s → svc_sem t X c s x s' → s_writeMu s' = Some t ∧ J x s') →
  within t I (scall_ c) J.
Proof.
  intros HI H s0 Ho H0. simpl. intros s x s' [Ho' HR] Hs. destruct (H s x s' Ho' (HI _ _ HR H0) Hs) as [H1 H2].
  split; [by left|]. unfold view_next. rewrite decide_True by done. eauto.
Qed.

Lemma within_calm {A : Type} t I (q : sprog A) : stable I → only calm q → within t I q (fun _ => I).
Proof.
  intros HI. induction q as [a|X c f IH]; simpl; [by intros _; apply within_Ret|]. intros [Hc Hf] s0 Ho H0.
  change (twp t (Some s0) (pbind (scall_ c) f) (fun m a => ∃ s1, m = Some s1 ∧ s_writeMu s1 = Some t ∧ I s1)).
  revert s0 Ho H0. apply (within_bind t I (scall_ c) f (fun _ => I)); [|intros a; by apply IH].
  apply within_call; [done|]. intros s x s' Ho Hs Hsem. pose proof (calm_keeps t X c s x s' Hc Hsem) as Hk.
  split; [by rewrite (kp_mu _ _ Hk)|eauto].
Qed.

Lemma frozen_ungranted_stable except : stable (frozen_ungranted_but except).
Proof. intros s s'. apply but_stable. Qed.

Lemma twp_locked {A : Type} t (q : sprog A) :
  within t frozen_ungranted q (fun _ => frozen_ungranted) → twp t None (with_writeMu q) released.
Proof.
  intros Hq. unfold with_writeMu. apply wp_bind. simpl. intros s x s' [He HI] [Ho ->].
  split; [by right|]. unfold view_next. simpl. rewrite decide_True by done. apply wp_bind.
  eapply wp_mono; [|apply Hq; [done|]].
  - intros m a (s1 & -> & Ho1 & H1). simpl. intros s2 y s2' [Ho2 HR] [_ ->]. split.
    + right. split; [done|]. exact (frozen_ungranted_stable _ s1 s2 HR H1).
    + unfold view_next. by rewrite decide_False.
  - intros subj Hs Hv Hn Hx. by apply (HI Ho).
Qed.

(** ** The critical sections *)

Lemma only_calm_append e : only calm (appendAudit p e).
Proof. unfold appendAudit. only_calm. Qed.
#[local] Hint Resolve only_calm_append : calm.

Lemma within_Append {A : Type} t I e (a : A) : stable I → within t I (appendAudit p e ;;; Ret a) (fun _ => I).
Proof. intros HI. apply within_calm; [done|only_calm]. Qed.

(** A grant for subjects that are not frozen keeps the invariant. *)
Lemma within_GrantAdd t g :
  within t (fun s => frozen_ungranted s ∧ Frozen (Some (s_freezes s)) (g_Caller g) (g_EndUser g) = None)
    (scall_ (SGrantAdd g)) (fun _ => frozen_ungranted).
Proof.
  apply within_call.
  { intros s s' Hk [HI Hf]. split; [by eapply frozen_ungranted_stable|]. by rewrite (kp_freezes _ _ Hk). }
  intros s x s' Ho [HI Hf] (id & d & gs & Hadd & ->). split; [done|]. intros subj Hs Hv Hn _ k g' Hg'. simpl in *.
  pose proof (gs_Add_grants id d (s_grants s) g k g') as Hc. rewrite Hadd in Hc. destruct (Hc Hg') as [Hold|[Hc1 Hc2]].
  { by apply (HI subj Hs Hv Hn (fun x => x) k). }
  destruct (Frozen_None _ _ _ _ Hf Hs Hv) as [H1 H2]. unfold scoped_to. rewrite Hc1, Hc2.
  repeat case_bool_decide; naive_solver.
Qed.

Lemma within_Frozen t c u :
  within t frozen_ungranted (scall_ (SFrozen c u))
    (fun x s => frozen_ungranted s ∧ Frozen (Some (s_freezes s)) c u = x).
Proof. apply within_call; [apply frozen_ungranted_stable|]. by intros s x s' Ho HI [-> ->]. Qed.

Lemma not_frozen_stable c u x : stable (fun s => frozen_ungranted s ∧ Frozen (Some (s_freezes s)) c u = x).
Proof. intros s s' Hk [HI Hf]. split; [by eapply frozen_ungranted_stable|]. by rewrite (kp_freezes _ _ Hk). Qed.

Lemma learn_section_ok t caller req : within t frozen_ungranted (learn_section p caller req) (fun _ => frozen_ungranted).
Proof.
  eapply within_bind; [apply within_Frozen|]. intros [subj|].
  - eapply within_bind; [apply within_calm; [apply not_frozen_stable|apply only_calm_append]|]. intros ?. apply within_Ret. by intros s [HI _].
  - eapply within_bind; [apply within_calm; [apply not_frozen_stable|done]|]. intros now.
    eapply within_bind; [apply within_calm; [apply not_frozen_stable|done]|]. intros ?.
    eapply within_bind; [apply (within_GrantAdd t (learned_waiver p caller req now))|]. intros r. cbv zeta. apply within_Append, frozen_ungranted_stable.
Qed.

Lemma grant_section_ok t caller host req :
  within t frozen_ungranted (grant_section p caller host req) (fun _ => frozen_ungranted).
Proof.
  eapply within_bind; [apply within_Frozen|]. intros [subj|].
  - eapply within_bind; [apply within_calm; [apply not_frozen_stable|done]|]. intros ?. apply within_Ret. by intros s [HI _].
  - eapply within_bind; [apply within_calm; [apply not_frozen_stable|done]|]. intros now.
    eapply within_bind; [apply (within_GrantAdd t (requested_grant caller host req now))|].
    intros [id|e]; apply within_calm; [apply frozen_ungranted_stable|done|apply frozen_ungranted_stable|done].
Qed.

(** A revocation restores the invariant for its subject, or marks it. *)
Lemma within_Revoke t subj :
  within t (frozen_ungranted_but (fun s => s = subj)) (scall_ (SRevokeSubject (fs_Kind subj) (fs_Value subj))) (fun _ => frozen_ungranted).
Proof.
  apply within_call; [apply frozen_ungranted_stable|]. intros s x s' Ho HI (tx & g & Hr & ->). split; [done|].
  intros subj' Hs Hv Hn _. simpl in *. destruct (decide (subj' = subj)) as [->|Hne].
  - destruct x as [n|e]; [|unfold sweep_mark in Hn; destruct subj; set_solver].
    intros k g' Hg'. destruct subj as [kind value]; simpl in *.
    destruct (decide (kind = FreezeCaller ∨ kind = FreezeEndUser)) as [Hk|Hk].
    + by eapply RevokeForSubject_kept.
    + unfold scoped_to. by rewrite (bool_decide_eq_false_2 (kind = FreezeCaller)), (bool_decide_eq_false_2 (kind = FreezeEndUser)) by naive_solver.
  - eapply ungranted_sub; [by eapply RevokeForSubject_shrinks|]. apply HI; try done.
    destruct x; unfold sweep_mark in Hn; destruct subj, subj'; set_solver.
Qed.

Lemma freeze_section_ok t caller subj reason :
  within t frozen_ungranted (freeze_section p caller subj reason) (fun _ => frozen_ungranted).
Proof.
  eapply within_bind; [by apply within_calm; [apply frozen_ungranted_stable|]|]. intros now.
  eapply (within_bind t _ _ _ (fun x s => frozen_ungranted_but (fun u => u = subj) s ∧
    (∀ e, x.2 = Some e → not_durable e = false → frozen_ungranted s))).
  - apply within_call; [apply frozen_ungranted_stable|]. intros s x s' Ho HI (d & c & f & Hadd & ->). split; [done|].
    destruct (fz_Add_frozen _ _ _ _ _ _ _ _ _ Hadd) as [Hdom Herr]. split.
    + intros subj' Hs Hv Hn Hne. simpl in *. apply (HI subj'); [set_solver|done|done|by intros []].
    + intros e He Hd. by rewrite (Herr e He Hd).
  - intros [newly err]. destruct (match err with Some e => negb (not_durable e) | None => false end) eqn:Hd.
    + apply within_Ret. intros s [_ H]. destruct err as [e|]; [|done]. apply (H e); [done|]. by destruct (not_durable e).
    + eapply within_bind.
      { intros s0 Ho [H0 _]. by apply (within_Revoke t subj). }
      intros g. cbv zeta. by apply within_calm; [apply frozen_ungranted_stable|].
Qed.

Lemma within_Remove t subj : within t frozen_ungranted (scall_ (SFreezeRemove subj)) (fun _ => frozen_ungranted).
Proof.
  apply within_call; [apply frozen_ungranted_stable|]. intros s x s' Ho HI (d & c & f & Hr & ->). split; [done|].
  intros subj' Hs Hv Hn Hx. simpl in *. pose proof (fz_Remove_frozen _ _ _ _ _ _ Hr). apply (HI subj'); [set_solver|done|done|by intros []].
Qed.

Lemma unfreeze_section_ok t caller raw subj :
  within t frozen_ungranted (unfreeze_section p caller raw subj) (fun _ => frozen_ungranted).
Proof.
  eapply within_bind; [apply within_Remove|]. intros r.
  eapply (within_bind t _ _ _ (fun _ => frozen_ungranted)).
  { case_match; [|by apply within_Ret]. eapply within_bind; [apply within_Remove|]. intros x. by apply within_Ret. }
  intros [[existed err] subj']. case_bool_decide; [by apply within_Ret|].
  eapply within_bind.
  { intros s0 Ho H0. apply (within_Revoke t subj'); [done|]. intros u Hu Hv Hn _. apply (H0 u); [done..|by intros []]. }
  intros [n|e]; by apply within_calm; [apply frozen_ungranted_stable|].
Qed.

Lemma only_calm_verifier cfg : only calm (endUserVerifierFor cfg).
Proof. unfold endUserVerifierFor. only_calm. Qed.
#[local] Hint Resolve only_calm_verifier : calm.

Lemma reload_ok t : twp t None reload released.
Proof. apply twp_locked, within_calm; [apply frozen_ungranted_stable|]. unfold reload_section, swapState. only_calm. Qed.

Lemma mutate_ok t host pattern add : twp t None (mutateAllow host pattern add) released.
Proof. apply twp_locked, within_calm; [apply frozen_ungranted_stable|]. unfold mutateAllow_section, swapState. only_calm. Qed.

(** ** Every thread of the service *)

Lemma twp_append t e : twp t None (appendAudit p e) released.
Proof. apply twp_calm, only_calm_append. Qed.

Lemma learn_ok t caller req issued : twp t None (maybeLearnWaiver p caller req issued) released.
Proof.
  unfold maybeLearnWaiver. destruct (_ || _ || _); [by apply twp_calm|]. destruct (negb _); [apply twp_calm; only_calm|].
  apply twp_locked, learn_section_ok.
Qed.

Lemma only_calm_frozen peer c u : only calm (frozenSubject peer c u).
Proof. unfold frozenSubject. only_calm. Qed.
Lemma only_calm_rederive callers c req : only calm (rederiveEndUser callers c req).
Proof. unfold rederiveEndUser. only_calm. Qed.
Lemma only_calm_auditK8s c req a n o d e : only calm (auditK8s p c req a n o d e).
Proof. unfold auditK8s. only_calm. Qed.
Lemma only_calm_admit c : only calm (admitDenial c).
Proof. unfold admitDenial. only_calm. Qed.
#[local] Hint Resolve only_calm_frozen only_calm_rederive only_calm_auditK8s only_calm_admit : calm.

Lemma sign_gates_calm r : only calm (sign_gates p r).
Proof. unfold sign_gates, audited. only_calm. Qed.
Lemma deny_admin_calm c e : only calm (deny_admin p c e).
Proof. unfold deny_admin. only_calm. Qed.
Lemma policyAdmin_calm {B : Type} (r : http_request B) : only calm (policyAdmin r).
Proof. unfold policyAdmin. only_calm. Qed.
Lemma requireReloadCN_calm {B : Type} (r : http_request B) : only calm (requireReloadCN r).
Proof. unfold requireReloadCN. only_calm. Qed.
Lemma auditGrant_calm c h id a o e : only calm (auditGrant p c h id a o e).
Proof. unfold auditGrant. only_calm. Qed.
Lemma respond_calm c req hosts issued : only calm (respondSignResult p c req hosts issued).
Proof. unfold respondSignResult, auditEmission. only_calm. Qed.
Lemma respondK8s_calm c req issued : only calm (respondSignK8s p c req issued).
Proof. unfold respondSignK8s. only_calm. Qed.
#[local] Hint Resolve sign_gates_calm deny_admin_calm policyAdmin_calm requireReloadCN_calm auditGrant_calm
  respond_calm respondK8s_calm : calm.

#[local] Hint Resolve learn_ok reload_ok mutate_ok learn_section_ok grant_section_ok freeze_section_ok unfreeze_section_ok : calm.
Ltac outside_mutex := repeat first
  [ solve [apply twp_calm; only_calm]
  | solve [eauto 1 with calm]
  | apply twp_locked
  | match goal with
    | |- twp _ None (pbind _ _) _ => apply twp_seq; [|intros ?]
    | |- twp _ None (match ?x with _ => _ end) _ => destruct x
    | |- twp _ None (let x := _ in _) _ => cbv zeta
    end ].

Lemma service_thread_ok t q : service_thread q → twp t None q released.
Proof.
  intros Hq. destruct Hq; apply twp_seq; try (intros; by apply twp_calm).
  - unfold handleSign, sign_ssh, handleSignK8s, auditEmission. outside_mutex.
  - unfold handleHosts. outside_mutex.
  - unfold handleClusters. outside_mutex.
  - unfold handleFreeze. outside_mutex.
  - unfold handleUnfreeze. outside_mutex.
  - unfold handleRevocations. outside_mutex.
  - unfold handleGrantCreate. outside_mutex.
  - unfold handleGrantList. outside_mutex.
  - unfold handleGrantRevoke. outside_mutex.
  - unfold handleReload, auditReload. outside_mutex.
  - unfold handlePolicyAllow, auditPolicy. outside_mutex.
  - unfold handlePolicyHostsRead, auditPolicyRead. outside_mutex.
  - unfold local_reload, auditReload. outside_mutex.
Qed.

(** [C13] Freezing a subject revokes its runtime grants and waivers for good,
    under every interleaving of the service: in every state reachable by any
    number of concurrent requests (sign, freeze, unfreeze, grant, revoke, reload,
    policy edits), purge ticks, signal reloads and edits of the file, while no
    mutation holds the mutex no grant or waiver in the store is scoped to a frozen
    caller or end user, except one whose removal the state database refused.
    Neither a grant created nor a waiver learned concurrently with the freeze
    survives it, so nothing reactivates when the subject is unfrozen. *)
Theorem frozen_subjects_hold_no_grants s0 s pool :
  s_writeMu s0 = None → frozen_ungranted s0 →
  pool_reach svc_sem file_edited service_thread s0 s pool → s_writeMu s = None →
  ∀ subj id g, subj ∈ dom (frozen (s_freezes s)) → fs_Value subj ≠ "" → subj ∉ s_unswept s →
    gs_grants (s_grants s) !! id = Some g → scoped_to (fs_Kind subj) (fs_Value subj) g = false.
Proof.
  intros Ho HI Hr Ho' subj id g Hs Hv Hn Hg.
  assert (frozen_ungranted s) as Hinv.
  { eapply (pool_invariant svc_sem s_writeMu file_edited keeps frozen_ungranted); [| | | |exact Ho|exact HI|exact Hr|exact Ho'].
    - by intros ? ? [].
    - apply frozen_ungranted_stable.
    - by intros ? ? [f ->].
    - intros t q. apply service_thread_ok. }
  by apply (Hinv subj Hs Hv Hn (fun x => x) id g Hg).
Qed.
End service.
