(* ===== verification/ServiceSign.v ===== *)
(** * What the sign endpoint issues

    Every complete behaviour of [handleSign], whatever the other requests do at
    the calls: which gates a response with a credential passed, what was signed,
    what is in the audit log, and which waiver was learned. *)

From S2P Require Import Prelude GoStrings CmdPolicy PolicySet K8sAction Intent Freeze Grants CA Encoding Elevate Crypto Sealed HostPolicy K8sPolicy Signer RateLimit Approval OAuth ServiceConfig Prog Threads Service.

(** A call with its answer. *)
Inductive sobs := | SObs {X : Type} (c : scall X) (x : X).

(** The credential of a response. *)
Definition credential (r : http_response) : bool :=
  match r with HSign w => bool_decide (is_Some (ws_Certificate w)) || bool_decide (ws_K8sToken w ≠ "") | _ => false end.

Section sign.
Context `{RE : RegexpEngine} `{SP : ShellParser} `{ED : Ed25519} `{EJ : EnvelopeJSON} `{JS : JSONStrings}.
Context (oidc_Verify : string → string → option IDToken) (oor : Z).

(** An answer is what the call gives some thread in one of the states the
    environment names: the states other requests may bring the service to between
    two calls. *)
#[export] Instance service_effects : Effects scall sobs (svc → Prop) := {|
  observe X c x := SObs c x;
  answers I X c x := ∃ t s s', I s ∧ sem oidc_Verify oor t c s x s';
|}.
Context (I : svc → Prop).

(** ** The gates *)

(** The end user of the request that goes on: the asserted one, or for a gated
    caller the one a verified token names. *)
Definition end_user_settled (t : list sobs) (callers : CallerTable) (caller : string) (body req : WireRequest) : Prop :=
  if MayRequireVerifiedEndUser callers caller then
    ∃ st v ident, SObs SState st ∈ t ∧ sv_endUserVerifier st = Some v ∧
      SObs (SVerify v (wr_BearerToken body)) (Ok ident) ∈ t ∧ accept_identity ident body = Ok req
  else req = body.

(** The freeze store answered that neither identity is frozen, in one of the
    states. *)
Definition seen_unfrozen (t : list sobs) (caller endUser : string) : Prop :=
  SObs (SFrozen caller endUser) None ∈ t ∧ ∃ s, I s ∧ Frozen (Some (s_freezes s)) caller endUser = None.

Record gated (t : list sobs) (r : http_request WireRequest) (body : WireRequest) (a : admitted) : Prop := {
  gd_method : rq_Method r = "POST";
  gd_peer : CallerCN (rq_peers r) = Some (ad_peer a);
  gd_body : rq_body r = Some body;
  gd_fields : existsb bad_field (sign_fields body) = false;
  gd_rate : ∃ st, SObs SState st ∈ t ∧ (0 < sv_signRateMin st → SObs (SRateAllow (ad_peer a) (sv_signRateMin st)) true ∈ t);
  gd_state : SObs SState (ad_state a) ∈ t;
  gd_live : ∃ s, I s ∧ s_state s = ad_state a;
  gd_forwarder : ad_isForwarder a = bool_decide (ad_peer a ∈ sv_forwarders (ad_state a));
  gd_self : ad_selfApproves a = MaySelfApprove (sv_callers (ad_state a)) (ad_peer a);
  gd_caller : resolveCaller (ad_peer a) (wr_OnBehalfOf body) (sv_forwarders (ad_state a)) = Some (ad_caller a);
  gd_safe : HasUnsafeTokenChar (ad_caller a) = false;
  gd_user : end_user_settled t (sv_callers (ad_state a)) (ad_caller a) body (ad_req a);
  gd_unfrozen : seen_unfrozen t (ad_caller a) (wr_EndUser (ad_req a));
  gd_peer_unfrozen : ad_peer a ≠ ad_caller a → seen_unfrozen t (ad_peer a) "";
}.

Lemma end_user_settled_mono t t' callers caller body req :
  (∀ o, o ∈ t → o ∈ t') → end_user_settled t callers caller body req → end_user_settled t' callers caller body req.
Proof.
  unfold end_user_settled. intros Hs. destruct (MayRequireVerifiedEndUser _ _); [|done].
  intros (st & v & ident & H1 & H2 & H3 & H4). exists st, v, ident. auto.
Qed.

Lemma seen_unfrozen_mono t t' c u : (∀ o, o ∈ t → o ∈ t') → seen_unfrozen t c u → seen_unfrozen t' c u.
Proof. intros Hs [? ?]. split; auto. Qed.

Lemma gated_mono t t' r body a : (∀ o, o ∈ t → o ∈ t') → gated t r body a → gated t' r body a.
Proof.
  intros Hs [H1 H2 H3 H4 (st & H5 & H5') H6 H6' H7 H8 H9 H10 H11 H12 H13]. split; auto.
  - exists st. split; [auto|]. intros. apply Hs, H5'. done.
  - by eapply end_user_settled_mono.
  - by eapply seen_unfrozen_mono.
  - intros. eapply seen_unfrozen_mono; eauto.
Qed.

Lemma rederive_Ok t callers caller body req :
  behaves I (rederiveEndUser callers caller body) t (Some (Ok req)) → end_user_settled t callers caller body req.
Proof.
  unfold rederiveEndUser, end_user_settled. destruct (MayRequireVerifiedEndUser callers caller); cbn [negb].
  2:{ intros [_ Hr]%behaves_Ret. by simplify_eq. }
  intros (st & t1 & _ & -> & Hb)%behaves_call. destruct (sv_endUserVerifier st) as [v|] eqn:Hv; [|by apply behaves_Ret in Hb as [_ [=]]].
  case_bool_decide; [by apply behaves_Ret in Hb as [_ [=]]|].
  apply behaves_call in Hb as (x & t2 & _ & -> & [-> Hr]%behaves_Ret). destruct x as [ident|e]; [|done].
  exists st, v, ident. split_and!; [set_solver|done|set_solver|congruence].
Qed.

Lemma frozenSubject_None t peer caller u :
  behaves I (frozenSubject peer caller u) t (Some None) →
  seen_unfrozen t caller u ∧ (peer ≠ caller → seen_unfrozen t peer "").
Proof.
  unfold frozenSubject. intros (x & t1 & (t0 & s & s' & HI & Hx & _) & -> & Hb)%behaves_call.
  destruct x as [subj|]; [by apply behaves_Ret in Hb as [_ [=]]|].
  split; [split; [set_solver|by exists s]|]. intros Hne. rewrite bool_decide_eq_true_2 in Hb by done.
  destruct Hb as [[_ ?]|(y & t2 & (t3 & s2 & s2' & HI2 & Hy & _) & -> & [-> [= <-]])]; [done|]. split; [set_solver|by exists s2].
Qed.

Context (p : server_params).

Lemma sign_gates_Ok t r a : behaves I (sign_gates p r) t (Some (Ok a)) → ∃ body, gated t r body a.
Proof.
  unfold sign_gates. case_bool_decide as Hm; [by intros [_ [=]]%behaves_Ret|].
  destruct (CallerCN (rq_peers r)) as [peer|] eqn:Hp; [|by intros [_ [=]]%behaves_Ret].
  intros (st0 & t0 & _ & -> & Hb)%behaves_call.
  apply behaves_bind in Hb as (t1 & t2 & within & -> & Hrate & Hb).
  destruct within; cbn [negb] in Hb; [|by apply behaves_Ret in Hb as [_ [=]]].
  destruct (rq_body r) as [body|] eqn:Hbody; [|by apply behaves_Ret in Hb as [_ [=]]].
  destruct (existsb bad_field (sign_fields body)) eqn:Hf; [by apply behaves_Ret in Hb as [_ [=]]|].
  apply behaves_call in Hb as (st & t3 & (t' & s & s' & HI & Hst & _) & -> & Hb).
  destruct (resolveCaller peer (wr_OnBehalfOf body) (sv_forwarders st)) as [caller|] eqn:Hc; [|by apply behaves_Ret in Hb as [_ [=]]].
  destruct (HasUnsafeTokenChar caller) eqn:Hsafe; [by apply behaves_Ret in Hb as [_ [=]]|].
  apply behaves_bind in Hb as (t4 & t5 & rd & -> & Hrd & Hb).
  destruct rd as [req|e]; [|apply behaves_bind in Hb as (? & ? & ? & -> & _ & [_ [=]]%behaves_Ret)].
  apply rederive_Ok in Hrd. apply behaves_bind in Hb as (t6 & t7 & f & -> & Hfz & Hb).
  destruct f as [subj|]; [apply behaves_bind in Hb as (? & ? & ? & -> & _ & [_ [=]]%behaves_Ret)|].
  apply frozenSubject_None in Hfz as [Hfz1 Hfz2]. apply behaves_Ret in Hb as [-> Ha]. injection Ha as ->.
  exists body. split; simpl; auto.
  - exists st0. split; [set_solver|]. intros Hpos. apply Z.ltb_lt in Hpos. rewrite Hpos in Hrate.
    destruct Hrate as [[_ ?]|(y & t8 & _ & -> & [-> [= <-]])]; [done|]. set_solver.
  - set_solver.
  - by exists s.
  - eapply end_user_settled_mono; [|exact Hrd]. set_solver.
  - eapply seen_unfrozen_mono; [|exact Hfz1]. set_solver.
  - intros Hne. eapply seen_unfrozen_mono; [|exact (Hfz2 Hne)]. set_solver.
Qed.

(** ** What is signed and recorded *)

Definition is_k8s (a : admitted) : bool := bool_decide (wr_TargetType (ad_req a) = TargetTypeK8s).

Context (ParsePublicKey : string → option string).

(** The intent of an admitted request. *)
Definition signed_intent (a : admitted) : option Intent :=
  if is_k8s a then Some (wire_k8s_intent a)
  else (fun pub => ssh_intent pub a) <$> ParsePublicKey (wr_PublicKey (ad_req a)).

(** The caller's groups cover the target. *)
Definition in_groups (a : admitted) : Prop :=
  let st := ad_state a in
  if is_k8s a then outside (ClusterSetForCaller (ad_caller a) (l_clusters (sv_local st)) (sv_callers st)) (wr_Host (ad_req a)) = false
  else outside (HostSetForCaller (ad_caller a) (sv_hosts st) (sv_callers st)) (wr_Host (ad_req a)) = false.

(** The response carries the credential the signer issued. *)
Definition carries (resp : http_response) (issued : Issued) : Prop :=
  ∃ w, resp = HSign w ∧ ws_Serial w = is_Serial issued ∧ ws_Decision w = is_Decision issued ∧
    ((ws_Certificate w = is_Certificate issued ∧ is_Some (ws_Certificate w) ∧ ws_K8sToken w = "" ∧
      ws_ElevationPrefix w = is_ElevationPrefix issued) ∨
     (ws_Certificate w = None ∧ ws_K8sToken w = is_K8sToken issued ∧ ws_K8sToken w ≠ "" ∧ ws_K8sTokenExpiry w = is_K8sTokenExpiry issued)).

(** The "issued" record of an admitted request. *)
Definition issued_record (a : admitted) (issued : Issued) (e : srecord) : Prop :=
  if is_k8s a then
    ∃ clusters, e = k8s_record (ad_caller a) (ad_req a) clusters (is_K8sAction issued) (is_Serial issued) "issued" (is_Decision issued) NoSErr
  else e = emission_record (ad_caller a) (ad_req a) (sv_hosts (ad_state a)) (is_Serial issued) "issued" (is_Decision issued) NoSErr.

Definition recorded (t : list sobs) (a : admitted) (issued : Issued) : Prop :=
  sp_auditFailClosed p = true → ∃ e, SObs (SAppend e) true ∈ t ∧ issued_record a issued e.

Lemma appendAudit_true t e : behaves I (appendAudit p e) t (Some true) → sp_auditFailClosed p = true → SObs (SAppend e) true ∈ t.
Proof.
  unfold appendAudit. intros (ok & t1 & _ & -> & [-> Hr]%behaves_Ret)%behaves_call Hc. rewrite Hc, orb_false_r in Hr.
  injection Hr as <-. set_solver.
Qed.

Lemma respond_credential t a issued b resp :
  is_k8s a = false →
  behaves I (respondSignResult p (ad_caller a) (ad_req a) (sv_hosts (ad_state a)) issued) t (Some (b, resp)) → credential resp = true →
  b = true ∧ wr_DryRun (ad_req a) = false ∧ carries resp issued ∧ recorded t a issued.
Proof.
  intros Hk. unfold respondSignResult, auditEmission. destruct (wr_DryRun (ad_req a)).
  { intros (t1 & t2 & ok & -> & _ & [-> Hr]%behaves_Ret)%behaves_bind. injection Hr as -> ->. by destruct ok. }
  destruct (is_Certificate issued) as [cert|] eqn:Hcert.
  2:{ intros (t1 & t2 & ok & -> & _ & [-> Hr]%behaves_Ret)%behaves_bind. injection Hr as -> ->. by destruct ok. }
  intros (t1 & t2 & ok & -> & Ha & [-> Hr]%behaves_Ret)%behaves_bind. injection Hr as Hr. destruct ok; injection Hr as -> ->; [|done].
  intros _. rewrite app_nil_r. split_and!; [done|done| |].
  - eexists. split_and!; [reflexivity|done|done|]. left. rewrite Hcert. split_and!; [done|by eexists|done|done].
  - intros Hc. eexists. split; [by eapply appendAudit_true|]. unfold issued_record. by rewrite Hk.
Qed.

Lemma respondK8s_credential t a issued b resp :
  is_k8s a = true → behaves I (respondSignK8s p (ad_caller a) (ad_req a) issued) t (Some (b, resp)) → credential resp = true →
  b = true ∧ wr_DryRun (ad_req a) = false ∧ carries resp issued ∧ recorded t a issued.
Proof.
  intros Hk. unfold respondSignK8s, auditK8s. destruct (wr_DryRun (ad_req a)).
  { intros (t1 & t2 & ok & -> & _ & [-> Hr]%behaves_Ret)%behaves_bind. injection Hr as -> ->. by destruct ok. }
  case_bool_decide as Htok.
  { intros (t1 & t2 & ok & -> & _ & [-> Hr]%behaves_Ret)%behaves_bind. injection Hr as -> ->. by destruct ok. }
  intros (t1 & t2 & ok & -> & Ha & [-> Hr]%behaves_Ret)%behaves_bind. injection Hr as Hr. destruct ok; injection Hr as -> ->; [|done].
  intros _. rewrite app_nil_r. apply behaves_call in Ha as (st & t3 & _ & -> & Ha). split_and!; [done|done| |].
  - eexists. split_and!; [reflexivity|done|done|]. by right.
  - intros Hc. eexists. split; [apply elem_of_cons; right; by eapply appendAudit_true|]. unfold issued_record. rewrite Hk. by eexists.
Qed.

(** What a credential's request went through. *)
Record issuance (t : list sobs) (a : admitted) (resp : http_response) (i : Intent) (issued : Issued) : Prop := {
  iss_intent : signed_intent a = Some i;
  iss_groups : in_groups a;
  iss_signed : SObs (SSignIntent (sv_local (ad_state a)) i) (Some issued, None) ∈ t;
  iss_answer : ∃ s iter env, I s ∧ RangeOrder iter ∧
    SignIntent (with_grants (provider_of iter (s_grants s)) (sv_local (ad_state a))) env i = (Some issued, None);
  iss_live : wr_DryRun (ad_req a) = false;
  iss_carries : carries resp issued;
  iss_recorded : recorded t a issued;
}.

Lemma signed_answer l i iss : answers I (SSignIntent l i) (iss, None) →
  ∃ s iter env, I s ∧ RangeOrder iter ∧ SignIntent (with_grants (provider_of iter (s_grants s)) l) env i = (iss, None).
Proof. intros (t & s & s' & HI & -> & iter & env & Hiter & Hx). exists s, iter, env. done. Qed.

Lemma sign_ssh_credential t a resp :
  is_k8s a = false → behaves I (sign_ssh ParsePublicKey p a) t (Some resp) → credential resp = true → ∃ i issued, issuance t a resp i issued.
Proof.
  intros Hk. unfold sign_ssh, auditEmission. destruct (ParsePublicKey _) as [pub|] eqn:Hpub; [|by intros [_ [= ->]]%behaves_Ret].
  destruct (outside _ _) eqn:Ho.
  { intros (t1 & t2 & ok & -> & _ & [-> [= ->]]%behaves_Ret)%behaves_bind. done. }
  intros (x & t1 & Hans & -> & Hb)%behaves_call Hcred. destruct x as [iss [e|]].
  { destruct iss, (is_ca_error e); apply behaves_bind in Hb as (? & ? & ? & -> & _ & [-> [= ->]]%behaves_Ret); done. }
  destruct iss as [issued|]; [|by apply behaves_Ret in Hb as [_ [= ->]]].
  apply behaves_bind in Hb as (t2 & t3 & [b resp'] & -> & Hr & Hb). cbn [fst snd] in Hb.
  assert (resp' = resp) as ->.
  { destruct b; cbn [negb] in Hb; [|by apply behaves_Ret in Hb as [_ [=]]].
    apply behaves_bind in Hb as (? & ? & ? & -> & _ & Hb). by apply behaves_bind in Hb as (? & ? & ? & -> & _ & [_ [=]]%behaves_Ret). }
  destruct (respond_credential _ _ _ _ _ Hk Hr Hcred) as (-> & Hd & Hc & Hrec).
  exists (ssh_intent pub a), issued. split; auto.
  - unfold signed_intent. by rewrite Hk, Hpub.
  - unfold in_groups. by rewrite Hk.
  - set_solver.
  - by apply signed_answer in Hans.
  - intros Hfc. destruct (Hrec Hfc) as (e & He & Hi). exists e. split; [set_solver|done].
Qed.

Lemma sign_k8s_credential t a resp :
  is_k8s a = true → behaves I (handleSignK8s p a) t (Some resp) → credential resp = true → ∃ i issued, issuance t a resp i issued.
Proof.
  intros Hk. unfold handleSignK8s.
  assert (∀ t act dec outc err code, behaves I (ok <- auditK8s p (ad_caller a) (ad_req a) act 0 outc dec err ;;
    Ret (HError (if ok : bool then code else 500))) t (Some resp) → credential resp = true → False) as Hrefuse.
  { intros t' act dec outc err code (? & ? & ? & -> & _ & [-> [= ->]]%behaves_Ret)%behaves_bind. done. }
  destruct (k8sWireShapeError (ad_req a)); [intros Hb Hcred; destruct (Hrefuse _ _ _ _ _ _ Hb Hcred)|].
  destruct (outside _ _) eqn:Ho; [intros Hb Hcred; destruct (Hrefuse _ _ _ _ _ _ Hb Hcred)|]. case_bool_decide; [intros Hb Hcred; destruct (Hrefuse _ _ _ _ _ _ Hb Hcred)|].
  intros (x & t1 & Hans & -> & Hb)%behaves_call Hcred. destruct x as [iss [e|]].
  { destruct iss, (is_mint_error e); destruct (Hrefuse _ _ _ _ _ _ Hb Hcred). }
  destruct iss as [issued|]; [|by apply behaves_Ret in Hb as [_ [= ->]]].
  apply behaves_bind in Hb as (t2 & t3 & [b resp'] & -> & Hr & Hb). cbn [fst snd] in Hb.
  assert (resp' = resp) as ->.
  { destruct b; cbn [negb] in Hb; [|by apply behaves_Ret in Hb as [_ [=]]].
    by apply behaves_bind in Hb as (? & ? & ? & -> & _ & [_ [=]]%behaves_Ret). }
  destruct (respondK8s_credential _ _ _ _ _ Hk Hr Hcred) as (-> & Hd & Hc & Hrec).
  exists (wire_k8s_intent a), issued. split; auto.
  - unfold signed_intent. by rewrite Hk.
  - unfold in_groups. by rewrite Hk.
  - set_solver.
  - by apply signed_answer in Hans.
  - intros Hfc. destruct (Hrec Hfc) as (e & He & Hi). exists e. split; [set_solver|done].
Qed.

Lemma issuance_mono t t' a resp i issued : (∀ o, o ∈ t → o ∈ t') → issuance t a resp i issued → issuance t' a resp i issued.
Proof. intros Hs [H1 H2 H3 H3' H4 H5 H6]. split; auto. intros Hc. destruct (H6 Hc) as (e & He & Hi). exists e. auto. Qed.

(** No refusal of a gate carries a credential. *)
Lemma audited_refusal e code : always (fun resp => credential resp = false) (audited p e (HError code)).
Proof. unfold audited. apply always_bind. by intros []. Qed.

Lemma sign_gates_Err r : always (fun g => match g with Err resp => credential resp = false | Ok _ => True end) (sign_gates p r).
Proof.
  unfold sign_gates.
  repeat first [done | match goal with
    | |- always _ (pbind (audited _ _ _) _) => eapply always_post; [apply audited_refusal|intros ??]
    | |- always _ (pbind _ _) => apply always_bind; intros ?
    | |- always _ (match ?x with _ => _ end) => destruct x
    | |- always _ (let x := _ in _) => cbv zeta
    end ].
Qed.

Lemma handleSign_credential t r resp :
  behaves I (handleSign ParsePublicKey p r) t (Some resp) → credential resp = true →
  ∃ body a i issued, gated t r body a ∧ issuance t a resp i issued.
Proof.
  unfold handleSign. intros (t1 & t2 & g & -> & Hg & Hb)%behaves_bind Hc.
  destruct g as [a|e].
  - apply sign_gates_Ok in Hg as (body & Hg).
    assert (∃ i issued, issuance t2 a resp i issued) as (i & issued & Hi).
    { destruct (is_k8s a) eqn:Hk; unfold is_k8s in Hk; rewrite Hk in Hb; [by eapply sign_k8s_credential|by eapply sign_ssh_credential]. }
    exists body, a, i, issued. split; [eapply gated_mono; [|exact Hg]|eapply issuance_mono; [|exact Hi]]; set_solver.
  - apply behaves_Ret in Hb as [-> [= ->]]. apply (behaves_always I _ _ _ _ (sign_gates_Err r)) in Hg. congruence.
Qed.

(** ** The theorems *)

Lemma settled_approved t callers caller body req :
  end_user_settled t callers caller body req → wr_Approved req = wr_Approved body.
Proof.
  unfold end_user_settled. destruct (MayRequireVerifiedEndUser _ _); [|by intros ->].
  intros (st & v & ident & _ & _ & _ & Ha). unfold accept_identity in Ha.
  repeat (destruct (negb _) in Ha; [|done]). by injection Ha as <-.
Qed.

Lemma signed_intent_fields a i : signed_intent a = Some i →
  in_Caller i = ad_caller a ∧ in_Host i = wr_Host (ad_req a) ∧ in_Command i = wr_Command (ad_req a) ∧
  in_Approved i = ad_approved a ∧ in_EndUser i = wr_EndUser (ad_req a) ∧ in_EndUserGroups i = wr_EndUserGroups (ad_req a) ∧
  in_DryRun i = wr_DryRun (ad_req a).
Proof.
  unfold signed_intent. destruct (is_k8s a); [by intros [= <-]|].
  destruct (ParsePublicKey _); simpl; [by intros [= <-]|done].
Qed.

(** [C8] The sign endpoint issues nothing that did not pass its gates: a response
    with a certificate or token means the peer presented a client certificate,
    stayed within its rate, and sent token-safe identifiers; it acted for another
    caller only as a trusted forwarder; a caller that must prove its end user
    forwarded a token from which the end user and its groups were derived; the
    freeze store had neither the resolved caller, nor the end user, nor the raw
    peer; the target is within the caller's groups; the credential is the one the
    signer issued for exactly this request's intent, which counts as approved only
    for a trusted forwarder or a caller allowed to approve itself; and, when the
    log fails closed, the "issued" record with its serial is in the audit log. *)
Theorem credential_gated t r resp :
  behaves I (handleSign ParsePublicKey p r) t (Some resp) → credential resp = true →
  ∃ body a i issued, gated t r body a ∧ issuance t a resp i issued ∧ in_Caller i = ad_caller a ∧
    (wr_OnBehalfOf body ≠ "" → ad_peer a ∈ sv_forwarders (ad_state a)) ∧
    (in_Approved i = true → wr_Approved body = true ∧
       (ad_peer a ∈ sv_forwarders (ad_state a) ∨ MaySelfApprove (sv_callers (ad_state a)) (ad_peer a) = true)).
Proof.
  intros Hb Hc. destruct (handleSign_credential t r resp Hb Hc) as (body & a & i & issued & Hg & Hi).
  exists body, a, i, issued. destruct (signed_intent_fields a i (iss_intent _ _ _ _ _ Hi)) as (Hcl & _ & _ & Hap & _).
  split_and!; [done|done|done| |].
  - pose proof (gd_caller _ _ _ _ Hg) as Hr. unfold resolveCaller in Hr. intros Hob. rewrite bool_decide_eq_false_2 in Hr by done.
    by case_bool_decide.
  - rewrite Hap. unfold ad_approved. rewrite (gd_forwarder _ _ _ _ Hg), (gd_self _ _ _ _ Hg).
    intros [Ha Hf]%andb_true_iff. rewrite (settled_approved _ _ _ _ _ (gd_user _ _ _ _ Hg)) in Ha. split; [done|].
    apply orb_true_iff in Hf as [Hf%bool_decide_eq_true|Hf]; auto.
Qed.

(** The kill switch holds at the sign endpoint: while a caller name is
    frozen, whatever else happens in the service, no request whose peer is that
    name, or that acts on its behalf, gets a credential. *)
Theorem frozen_never_signed t r resp v :
  (∀ s, I s → is_Some (frozen (s_freezes s) !! mkFreezeSubject FreezeCaller v)) → v ≠ "" →
  behaves I (handleSign ParsePublicKey p r) t (Some resp) →
  (CallerCN (rq_peers r) = Some v ∨ ∃ body, rq_body r = Some body ∧ wr_OnBehalfOf body = v) → credential resp = false.
Proof.
  intros Hfr Hv Hb Hwho. destruct (credential resp) eqn:Hc; [exfalso|done].
  destruct (handleSign_credential t r resp Hb Hc) as (body & a & i & issued & Hg & _).
  assert (∀ u, ¬ seen_unfrozen t v u) as Hno.
  { intros u [_ (s & HI & Hs)]. unfold Frozen in Hs. rewrite (bool_decide_eq_true_2 (v ≠ "")) in Hs by done.
    rewrite (bool_decide_eq_true_2 (is_Some (frozen (s_freezes s) !! mkFreezeSubject FreezeCaller v))) in Hs by (by apply Hfr). done. }
  pose proof (gd_unfrozen _ _ _ _ Hg) as H1. pose proof (gd_peer_unfrozen _ _ _ _ Hg) as H2. destruct Hwho as [Hp|(body' & Hb' & Hob)].
  - rewrite (gd_peer _ _ _ _ Hg) in Hp. injection Hp as Hp. destruct (decide (ad_peer a = ad_caller a)) as [He|He].
    + apply (Hno (wr_EndUser (ad_req a))). by rewrite <-Hp, He.
    + apply (Hno ""). rewrite <-Hp. by apply H2.
  - rewrite (gd_body _ _ _ _ Hg) in Hb'. injection Hb' as ->. pose proof (gd_caller _ _ _ _ Hg) as Hr. unfold resolveCaller in Hr.
    rewrite Hob, bool_decide_eq_false_2 in Hr by done. case_bool_decide; [|done]. injection Hr as Hr.
    apply (Hno (wr_EndUser (ad_req a))). by rewrite Hr.
Qed.
End sign.
