(* ===== verification/ServicePolicy.v ===== *)
(** * The service and the policy

    The running state of the service is always the compilation of one
    configuration, and its grant store well formed, however reloads, policy edits
    and grants interleave; hence what the sign endpoint issues obeys the host's
    policy, and what the host list shows is what the caller may be signed for. *)

From S2P Require Import Prelude GoStrings CmdPolicy PolicySet K8sAction Intent Freeze Grants CA Encoding Elevate Crypto Sealed HostPolicy K8sPolicy Signer RateLimit Approval OAuth ServiceConfig Prog Threads Service ServiceInv ServiceSign.

(** ** What a build establishes *)

(** The compiled table is the raw one with composed policies; every host is
    compiled; a sealed host has a shell-safe name and a key to seal with; the
    default lifetime is positive. *)
Record state_sound `{RegexpEngine} (st : server_state) : Prop := {
  ss_host : ∀ host hp, l_policy (sv_local st) !! host = Some hp → host_compiled hp ∧
    ∃ hp0 ps, sv_hosts st !! host = Some hp0 ∧ hp = set_Policies ps hp0;
  ss_sealed : ∀ host hp, sv_hosts st !! host = Some hp → hp_SealedExec hp = true →
    ValidHostName host = true ∧ is_Some (l_envelopeKey (sv_local st));
  ss_ttl : 0 < l_defaultTTL (sv_local st);
}.

Section build.
Context `{RE : RegexpEngine} `{SP : ShellParser} `{ED : Ed25519}.

Lemma sealedHostNames_elem (hosts : PolicyTable) host hp :
  hosts !! host = Some hp → hp_SealedExec hp = true → host ∈ sealedHostNames hosts.
Proof.
  intros Hh Hs. unfold sealedHostNames. apply list_elem_of_fmap. exists (host, hp). split; [done|].
  apply elem_of_map_to_list, map_lookup_filter_Some. split; [done|]. simpl. by rewrite Hs.
Qed.

Lemma attach_Ok e cfg l l' : attachEnvelopeKey e cfg l = Ok l' →
  l_policy l' = l_policy l ∧ l_defaultTTL l' = l_defaultTTL l ∧
  ∀ host hp, cf_Hosts cfg !! host = Some hp → hp_SealedExec hp = true → ValidHostName host = true ∧ is_Some (l_envelopeKey l').
Proof.
  unfold attachEnvelopeKey. intros ([] & Hv & H)%rbind_Ok. apply for_each_Ok in Hv. rewrite Forall_forall in Hv.
  assert (∀ host hp, cf_Hosts cfg !! host = Some hp → hp_SealedExec hp = true → ValidHostName host = true) as Hn.
  { intros host hp Hh Hs. specialize (Hv host (sealedHostNames_elem _ _ _ Hh Hs)). cbn beta in Hv. by destruct (ValidHostName host). }
  case_bool_decide.
  - case_bool_decide as He; [|done]. injection H as <-. split_and!; [done|done|]. intros host hp Hh Hs.
    pose proof (sealedHostNames_elem _ _ _ Hh Hs) as Hin. rewrite He in Hin. by apply not_elem_of_nil in Hin.
  - destruct (be_readFile e _) as [seed|]; [|done]. apply rbind_Ok in H as (key & _ & [= <-]). split_and!; [done|done|].
    intros host hp Hh Hs. split; [eauto|]. by eexists.
Qed.

Lemma default_ttl_pos cfg : 0 < default_ttl cfg.
Proof. unfold default_ttl. cbv zeta. by destruct (Z.leb_spec (wrap64 (cf_MaxTTLSeconds cfg * Second)) 0). Qed.

Lemma buildState_sound e cfg l v : build_env_ok e → buildState e cfg = Ok l → state_sound (swapped cfg l v).
Proof.
  intros [_ HL _ HH _]. unfold buildState. destruct (negb _); [|done].
  intros (compiled & Hc & (cas & _ & (l1 & Ha & H)%rbind_Ok)%rbind_Ok)%rbind_Ok.
  apply attach_Ok in Ha as (Hp & Ht & Hs).
  assert (l_policy l = compiled ∧ l_defaultTTL l = default_ttl cfg ∧ l_envelopeKey l = l_envelopeKey l1) as (Hp' & Ht' & He).
  { case_bool_decide; [by injection H as <-|]. by apply rbind_Ok in H as (clusters & _ & [= <-]). }
  split; simpl.
  - intros host hp Hh. rewrite Hp' in Hh. destruct (CompileHostPolicies _ _ _ _ _ _) as [c'|] eqn:Hcc; [|done].
    simpl in Hc. injection Hc as ->. destruct (CompileHostPolicies_host _ _ _ _ _ _ _ _ _ Hcc Hh) as (Hcomp & hp0 & Hh0 & -> & _).
    eauto 10.
  - rewrite He. exact Hs.
  - rewrite Ht'. apply default_ttl_pos.
Qed.
End build.

(** ** The invariant of the running service *)

Section service.
Context `{RE : RegexpEngine} `{SP : ShellParser} `{ED : Ed25519} `{EJ : EnvelopeJSON} `{JS : JSONStrings} `{CT : ConfigText}.
Context (oidc_Verify : string → string → option IDToken) (oor : Z) (ParsePublicKey : string → option string) (p : server_params).

Definition service_sound (s : svc) : Prop := state_sound (s_state s) ∧ store_wf (s_grants s).

#[local] Abbreviation ssem := (svc_sem oidc_Verify oor) (only parsing).

(** Every call but the swap keeps it. *)
Definition not_swap (X : Type) (c : scall X) : Prop := match c with SSwap _ => False | _ => True end.

Lemma not_swap_keeps t X (c : scall X) s x s' : not_swap X c → service_sound s → ssem t X c s x s' → service_sound s'.
Proof.
  unfold svc_sem, service_sound. intros Hc [Hst Hwf]. pose proof (fun op => run_grant_op_wf (s_grants s) op Hwf) as Hop.
  destruct c as [| | | | | |e| | | | | |  |kind value|g|g|id|now|now| | | | |]; simpl; try done; intros Hs;
    repeat match goal with H : ∃ _, _ |- _ => destruct H | H : _ ∧ _ |- _ => destruct H end; simplify_eq/=; try done.
  - destruct x; [by subst|]. destruct Hs; by subst.
  - split; [done|]. pose proof (Hop (GRevokeForSubject x0 kind value)) as Hk. unfold run_grant_op in Hk. by rewrite H in Hk.
  - split; [done|]. pose proof (Hop (GAdd x0 x1 g)) as Hk. unfold run_grant_op in Hk. by rewrite H in Hk.
  - split; [done|]. pose proof (Hop (GSupersede x0 g)) as Hk. unfold run_grant_op in Hk. by rewrite H in Hk.
  - split; [done|]. pose proof (Hop (GRevoke x0 id)) as Hk. unfold run_grant_op in Hk. by rewrite H in Hk.
  - split; [done|]. eapply map_Forall_sub; [|exact Hwf]. injection H0 as _ <-. apply map_filter_subseteq.
  - split; [done|]. eapply map_Forall_sub; [|exact Hwf]. injection H as _ <-. apply map_filter_subseteq.
  - destruct x; by subst.
Qed.

#[local] Abbreviation keeps_sound := (preserves ssem service_sound) (only parsing).

(** Walks a program call by call; a swap is left to the caller. *)
Lemma keeps_call X (c : scall X) : not_swap X c → keeps_sound (scall_ c).
Proof. intros Hc t s x s' H1 H2. split; [by eapply not_swap_keeps|done]. Qed.

(** Walks a program call by call. *)
Ltac walk := repeat first
  [ exact I
  | match goal with
    | |- keeps_sound (pbind _ _) => apply preserves_bind; [|intros ?]
    | |- keeps_sound (Prog.call_ _) => apply keeps_call; exact I
    | |- keeps_sound (match ?x with _ => _ end) => destruct x
    | |- keeps_sound (let x := _ in _) => cbv zeta
    end ].

Lemma keeps_verifier cfg : keeps_sound (endUserVerifierFor cfg).
Proof. unfold endUserVerifierFor. walk. Qed.

(** A swap installs what a build returned. *)
Lemma keeps_build {A : Type} cfg (k : result config_error Local → sprog A) :
  (∀ l, (∃ e, build_env_ok e ∧ buildState e cfg = Ok l) → keeps_sound (k (Ok l))) → (∀ e, keeps_sound (k (Err e))) →
  keeps_sound (pbind (scall_ (SBuildState cfg)) k).
Proof.
  intros H1 H2 t s x s' HP (-> & e & He & Hx). split; [done|]. destruct x as [l|err]; [|apply H2]. apply H1. eauto.
Qed.

Lemma keeps_swap cfg l v : (∃ e, build_env_ok e ∧ buildState e cfg = Ok l) → keeps_sound (swapState cfg l v).
Proof.
  intros (e & He & Hb) t s x s' [_ Hwf] ->. split; [|done]. split; [|done]. simpl. by eapply buildState_sound.
Qed.

Lemma keeps_locked {A : Type} (q : sprog A) : keeps_sound q → keeps_sound (with_writeMu q).
Proof. intros Hq. unfold with_writeMu. repeat (apply preserves_bind; [|intros ?]); [by apply keeps_call|done|by apply keeps_call|done]. Qed.

Lemma keeps_reload : keeps_sound reload.
Proof.
  apply keeps_locked. unfold reload_section. apply preserves_bind; [by apply keeps_call|]. intros b.
  destruct (b ≫= cfg_parse) as [cfg|]; [|done]. apply keeps_build; [|done]. intros l Hl.
  apply preserves_bind; [apply keeps_verifier|]. intros [v|e]; [|done]. apply preserves_bind; [by apply keeps_swap|done].
Qed.

Lemma keeps_mutate host pattern add : keeps_sound (mutateAllow host pattern add).
Proof.
  apply keeps_locked. unfold mutateAllow_section. apply preserves_bind; [by apply keeps_call|]. intros [orig|]; [|done].
  destruct (editAllow _ _ _ _) as [nb|]; [|done]. destruct (cfg_parse nb) as [cfg|]; [|done].
  apply keeps_build; [|done]. intros l Hl. apply preserves_bind; [apply keeps_verifier|]. intros [v|e]; [|done].
  apply preserves_bind; [by apply keeps_call|]. intros [|]; [|done]. apply preserves_bind; [by apply keeps_swap|done].
Qed.

Ltac unfold_service := unfold handleSign, sign_gates, sign_ssh, handleSignK8s, respondSignResult, respondSignK8s, auditEmission,
  auditK8s, maybeLearnWaiver, learn_section, handleHosts, handleClusters, handleFreeze, freeze_section, handleUnfreeze,
  unfreeze_section, auditFreeze, requireReloadCN, handleRevocations, handleGrantCreate, grant_section, policyAdmin, auditGrant,
  deny_admin, admitDenial, handleGrantList, handleGrantRevoke, purge_tick, handleReload, auditReload, handlePolicyAllow, auditPolicy,
  handlePolicyHostsRead, auditPolicyRead, local_reload, rederiveEndUser, frozenSubject, audited, appendAudit.

Lemma service_thread_sound q : service_thread ParsePublicKey p q → keeps_sound q.
Proof.
  pose proof keeps_reload. pose proof keeps_mutate.
  intros Hq. destruct Hq; apply preserves_bind; try done; unfold_service;
    repeat first [done | apply keeps_locked | progress walk | match goal with H : ∀ _, _ |- _ => apply H end
                 | progress unfold_service].
Qed.


(** ** Credentials and the policy *)

Context (I : svc → Prop) (Hsound : ∀ s, I s → service_sound s).
#[local] Instance sign_effects : Effects scall sobs (svc → Prop) := service_effects oidc_Verify oor.

(** A certificate of the endpoint comes from a resolved intent. *)
Lemma certificate_resolved t r w cert :
  behaves I (handleSign ParsePublicKey p r) t (Some (HSign w)) → ws_Certificate w = Some cert →
  ∃ body a i issued s iter env d hp,
    gated I t r body a ∧ issuance I p ParsePublicKey t a (HSign w) i issued ∧ I s ∧ RangeOrder iter ∧
    let gp := Some (provider_of iter (s_grants s)) in
    resolve (l_policy (sv_local (ad_state a))) i (l_defaultTTL (sv_local (ad_state a))) gp (sg_clocks env) = (d, None) ∧
    l_policy (sv_local (ad_state a)) !! in_Host i = Some hp ∧ (dc_RequireApproval d = false ∨ in_Approved i = true).
Proof.
  intros Hb Hc. assert (credential (HSign w) = true) as Hcred by (simpl; by rewrite Hc).
  destruct (handleSign_credential oidc_Verify oor I p ParsePublicKey t r _ Hb Hcred) as (body & a & i & issued & Hg & Hi).
  destruct (iss_answer _ _ _ _ _ _ _ _ Hi) as (s & iter & env & HI & Hit & Hs).
  destruct (iss_carries _ _ _ _ _ _ _ _ Hi) as (w' & [= <-] & _ & _ & [(Hcert & _)|(Hno & _)]); [|congruence].
  rewrite Hc in Hcert. symmetry in Hcert. destruct (SignIntent_cert _ _ _ _ _ _ Hs Hcert) as (_ & _ & _ & _ & d & hp & Hres & Hhp & Hap & _).
  by exists body, a, i, issued, s, iter, env, d, hp.
Qed.

(** The service certifies no command its host's policy forbids: a certificate
    the sign endpoint returns for a host whose compiled policy restricts and
    enforces was resolved against that policy with the grants live in the store,
    which does not deny the command, and demands an approval only if the request
    came approved from a trusted forwarder or a caller allowed to approve itself,
    or a live waiver matches; and the host list would have shown the host to this
    caller in the state the request was decided in. *)
Theorem service_signs_policy t r w cert :
  behaves I (handleSign ParsePublicKey p r) t (Some (HSign w)) → ws_Certificate w = Some cert →
  ∃ body a i hp s iter env, gated I t r body a ∧ signed_intent ParsePublicKey a = Some i ∧ I s ∧ RangeOrder iter ∧
    l_policy (sv_local (ad_state a)) !! in_Host i = Some hp ∧
    visible_hosts (ad_state a) (ad_caller a) !! in_Host i = Some (wire_host hp) ∧
    let gp := provider_of iter (s_grants s) in
    let v := spec_decide (widened hp i (Some gp) (ck_grants (sg_clocks env))) (in_Command i) in
    (ps_Restricts (effectivePolicies hp) = true → Enforcement (effectivePolicies hp) = CmdPolicyEnforce →
     in_Purpose i = PurposeOneshot ∨ in_Command i ≠ "" →
     v ≠ VDeny ∧
     (v = VApproval → ad_approved a = true ∨ gp_WaiverMatches gp (in_Host i) i (ck_waiver (sg_clocks env)) = true)).
Proof.
  intros Hb Hc. destruct (certificate_resolved t r w cert Hb Hc) as (body & a & i & issued & s & iter & env & d & hp & Hg & Hi & HI & Hit & H).
  cbv zeta in H. destruct H as (Hres & Hhp & Hap).
  exists body, a, i, hp, s, iter, env. pose proof (iss_intent _ _ _ _ _ _ _ _ Hi) as Hint.
  destruct (signed_intent_fields _ a i Hint) as (Hcl & Hho & _ & Hapr & _).
  destruct (gd_live _ _ _ _ _ Hg) as (s1 & HI1 & Hst1). destruct (Hsound s1 HI1) as [Hst _]. rewrite Hst1 in Hst.
  destruct (ss_host _ Hst _ _ Hhp) as (Hcomp & hp0 & ps & Hh0 & Heq). destruct (Hsound s HI) as [_ Hwf].
  split_and!; try done.
  - destruct (resolve_inv _ _ _ _ _ _ Hres) as (hp' & elev & cp & Hhp' & Hrs). rewrite Hhp in Hhp'. injection Hhp' as <-.
    pose proof (au_caller _ _ (rs_auth _ _ _ _ _ _ _ _ Hrs)) as Hcaller.
    pose proof (iss_groups _ _ _ _ _ _ _ _ Hi) as Hgr. unfold in_groups in Hgr.
    assert (is_k8s a = false) as Hk.
    { destruct (iss_carries _ _ _ _ _ _ _ _ Hi) as (w' & [= <-] & _ & _ & [(Hcert & _)|(Hno & _)]); [|congruence].
      destruct (iss_answer _ _ _ _ _ _ _ _ Hi) as (s2 & iter2 & env2 & _ & _ & Hs). rewrite Hc in Hcert. symmetry in Hcert.
      destruct (SignIntent_cert _ _ _ _ _ _ Hs Hcert) as (_ & Htt & _). unfold signed_intent in Hint. destruct (is_k8s a); [|done].
      by injection Hint as <-. }
    rewrite Hk in Hgr. unfold visible_hosts. apply map_lookup_filter_Some. rewrite Hho in *. split.
    + apply map_lookup_filter_Some. rewrite lookup_fmap, Hh0. simpl. split; [by subst hp|]. unfold in_set. by rewrite Hgr.
    + simpl. rewrite Hh0. rewrite Heq in Hcaller. simpl in Hcaller. rewrite Hcl in Hcaller. unfold AllowsCaller.
      by rewrite (proj2 (callerAllowed_spec _ _) Hcaller).
  - intros gp v Hr He Hcmd. assert (widen_only (Some (provider_of iter (s_grants s)))) as Hwo by (by apply provider_of_widen_only).
    destruct (resolve_enforced _ _ _ _ _ _ _ Hhp Hcomp Hwo Hr He Hres) as (_ & _ & H).
    destruct (H Hcmd) as [Hnd Hv]. split; [done|]. intros Hva. destruct (Hv Hva) as [Hreq|(gp' & [= <-] & Hw)]; [left|by right].
    rewrite <-Hapr. destruct Hap as [Hap|?]; [congruence|done].
Qed.

End service.

(** ** The host list *)

Section hosts.
Context `{RE : RegexpEngine} `{SP : ShellParser} `{ED : Ed25519} `{EJ : EnvelopeJSON} `{JS : JSONStrings}.
Context (oidc_Verify : string → string → option IDToken) (oor : Z) (p : server_params) (I : svc → Prop).
#[local] Instance hosts_effects : Effects scall sobs (svc → Prop) := service_effects oidc_Verify oor.

Lemma visible_hosts_spec st caller host w :
  visible_hosts st caller !! host = Some w ↔
  ∃ hp, sv_hosts st !! host = Some hp ∧ w = wire_host hp ∧
    outside (HostSetForCaller caller (sv_hosts st) (sv_callers st)) host = false ∧ AllowsCaller hp caller = true.
Proof.
  unfold visible_hosts. rewrite !map_lookup_filter_Some, lookup_fmap. simpl. unfold in_set.
  rewrite !Is_true_true, negb_true_iff. destruct (sv_hosts st !! host) as [hp|]; simpl.
  - split; [intros [[[= <-] ?] ?]; by exists hp|]. by intros (hp' & [= <-] & -> & ? & ?).
  - split; [by intros [[? _] _]|by intros (? & ? & _)].
Qed.

Lemma outside_spec (set : option (gset string)) host : outside set host = false ↔ ∀ s, set = Some s → host ∈ s.
Proof.
  unfold outside. destruct set as [s|]; [|split; [by intros _ ? [=]|done]].
  rewrite negb_false_iff, bool_decide_eq_true. split; [by intros ? ? [= <-]|auto].
Qed.

(** The host list shows a broker exactly the hosts whose gates it passes: the
    answer of the endpoint to an authenticated, unfrozen peer (acting for another
    caller only as a trusted forwarder) has a host if and only if it is configured,
    within the caller's groups and open to the caller, with its connectivity and
    nothing of its policy. *)
Theorem hosts_listed_exactly t r m :
  behaves I (handleHosts p r) t (Some (HHosts m)) →
  ∃ peer caller st, CallerCN (rq_peers r) = Some peer ∧ SObs SState st ∈ t ∧
    resolveCaller peer (rq_OnBehalfOf r) (sv_forwarders st) = Some caller ∧
    seen_unfrozen I t caller "" ∧ (peer ≠ caller → seen_unfrozen I t peer "") ∧
    ∀ host w, m !! host = Some w ↔
      ∃ hp, sv_hosts st !! host = Some hp ∧ w = wire_host hp ∧
        (∀ set, HostSetForCaller caller (sv_hosts st) (sv_callers st) = Some set → host ∈ set) ∧
        (hp_AllowedCallers hp = [] ∨ caller ∈ hp_AllowedCallers hp).
Proof.
  unfold handleHosts. case_bool_decide; [by intros [_ [=]]%behaves_Ret|].
  destruct (CallerCN (rq_peers r)) as [peer|]; [|by intros [_ [=]]%behaves_Ret].
  intros (st & t1 & _ & -> & Hb)%behaves_call. destruct (resolveCaller _ _ _) as [caller|] eqn:Hc; [|by apply behaves_Ret in Hb as [_ [=]]].
  apply behaves_bind in Hb as (t2 & t3 & f & -> & Hf & Hb).
  destruct f as [subj|]; [by apply behaves_bind in Hb as (? & ? & ? & -> & _ & [_ [=]]%behaves_Ret)|].
  apply frozenSubject_None in Hf as [Hf1 Hf2]. apply behaves_Ret in Hb as [-> [= ->]].
  exists peer, caller, st. split_and!; [done|set_solver|done| | |].
  - eapply seen_unfrozen_mono; [|exact Hf1]. set_solver.
  - intros Hne. eapply seen_unfrozen_mono; [|exact (Hf2 Hne)]. set_solver.
  - intros host w. rewrite visible_hosts_spec. setoid_rewrite outside_spec. by setoid_rewrite <-callerAllowed_spec.
Qed.
End hosts.
