(* ===== verification/ServiceLearn.v ===== *)
(** * Approve-and-learn

    The waiver the sign endpoint mints after an approved request: for whom, when,
    and what it waives. *)

From S2P Require Import Prelude GoStrings CmdPolicy PolicySet K8sAction Intent Freeze Grants CA Encoding Elevate Crypto Sealed HostPolicy K8sPolicy Signer RateLimit Approval OAuth ServiceConfig Prog Threads Service ServiceInv ServiceSign.

(** The grant a call adds. *)
Definition added (ob : sobs) : option Grant :=
  match ob with SObs (SGrantAdd g) _ => Some g | _ => None end.

(** [QuoteMeta] between anchors, when it compiles, matches its text and nothing
    else. *)
Definition quotes_exactly `{RegexpEngine} : Prop :=
  ∀ command m, regexp_Compile (waiver_pattern command) = Some m → ∀ s, m s = bool_decide (s = command).

Section learn.
Context `{RE : RegexpEngine} `{SP : ShellParser} `{ED : Ed25519} `{EJ : EnvelopeJSON} `{JS : JSONStrings}.
Context (oidc_Verify : string → string → option IDToken) (oor : Z) (I : svc → Prop) (p : server_params) (ParsePublicKey : string → option string).
#[local] Instance learn_effects : Effects scall sobs (svc → Prop) := service_effects oidc_Verify oor.

(** What precedes a learned waiver. *)
Record learned (h : list sobs) (r : http_request WireRequest) (g : Grant) : Prop := mkLearned {
  ln_gated : ∃ body a i issued now, gated I h r body a ∧ ad_peer a ∈ sv_forwarders (ad_state a) ∧
    signed_intent ParsePublicKey a = Some i ∧ SObs (SSignIntent (sv_local (ad_state a)) i) (Some issued, None) ∈ h ∧
    (is_Some (is_Certificate issued) ∨ is_K8sToken issued ≠ "") ∧
    (∃ di, is_Decision issued = Some di ∧ di_RequireApproval di = true) ∧ wr_DryRun (ad_req a) = false ∧
    recorded p h a issued ∧ seen_unfrozen I h (ad_caller a) (wr_EndUser (ad_req a)) ∧
    g = learned_waiver p (ad_caller a) (ad_req a) now;
}.

Definition adds_learned (r : http_request WireRequest) (h : list sobs) (ob : sobs) : Prop :=
  ∀ g, added ob = Some g → learned h r g.

(** Calls that add no grant. *)
Definition no_add (X : Type) (c : scall X) : Prop := match c with SGrantAdd _ => False | _ => True end.

Lemma no_add_ok r h X (c : scall X) x : no_add X c → adds_learned r h (observe c x).
Proof. intros Hc g. simpl. by destruct c. Qed.

Lemma calm_no_add {A : Type} (q : sprog A) : only calm q → only no_add q.
Proof. induction q as [a|X c f IH]; simpl; [done|]. intros [Hc Hf]. split; [by destruct c|auto]. Qed.

(** A stage that adds nothing, by its complete traces. *)
Lemma stage {A : Type} r (q : sprog A) h Q : only calm q → (∀ t a, behaves I q t (Some a) → Q (h ++ t) a) →
  safe I (adds_learned r) h q Q.
Proof. intros Hq. apply (safe_intro _ _ no_add); [by intros; apply no_add_ok|by apply calm_no_add]. Qed.

(** The waiver section, after the request was issued in [h]. *)
Lemma learn_section_safe r h body a i issued :
  gated I h r body a → ad_peer a ∈ sv_forwarders (ad_state a) → signed_intent ParsePublicKey a = Some i →
  SObs (SSignIntent (sv_local (ad_state a)) i) (Some issued, None) ∈ h → wr_DryRun (ad_req a) = false → recorded p h a issued →
  safe I (adds_learned r) h (maybeLearnWaiver p (ad_caller a) (ad_req a) issued) (fun _ _ => True).
Proof.
  intros Hg Hf Hi Hs Hd Hr. unfold maybeLearnWaiver.
  destruct ((wr_LearnTTLSeconds (ad_req a) <=? 0) || _ || _) eqn:Hno; [done|]. apply orb_false_iff in Hno as [_ Hcred].
  destruct (is_Decision issued) as [di|] eqn:Hdec; [|by apply stage].
  destruct (di_RequireApproval di) eqn:Hra; [|by apply stage]. cbn [negb].
  apply safe_call. intros [] _. split; [by apply no_add_ok|]. apply safe_bind, safe_call. intros f (t' & s & s' & HI & Hfz & _).
  split; [by apply no_add_ok|]. destruct f as [subj|].
  { apply stage; [apply only_bind; [apply only_calm_append|done]|]. intros. apply safe_call. by intros [] _. }
  apply safe_call. intros now _. split; [by apply no_add_ok|]. cbv zeta. apply safe_call. intros n _. split; [by apply no_add_ok|].
  apply safe_call. intros res _. split.
  - intros g [= <-]. split. exists body, a, i, issued, now. split_and!; try done.
    + eapply gated_mono; [|exact Hg]. set_solver.
    + set_solver.
    + apply andb_false_iff in Hcred as [Hc%bool_decide_eq_false|Hc%bool_decide_eq_false]; [left|by right].
      by destruct (is_Certificate issued).
    + by exists di.
    + intros Hfc. destruct (Hr Hfc) as (e & He & Hie). exists e. split; [set_solver|done].
    + split; [set_solver|by exists s].
  - apply stage; [apply only_bind; [apply only_calm_append|done]|]. intros. apply safe_call. by intros [] _.
Qed.

(** The tail of both branches: follow-ups of a response. *)
Lemma followups_safe r h body a i issued (res : bool * http_response) (marker : sprog unit) :
  gated I h r body a → signed_intent ParsePublicKey a = Some i →
  SObs (SSignIntent (sv_local (ad_state a)) i) (Some issued, None) ∈ h →
  (res.1 = true → wr_DryRun (ad_req a) = false ∧ recorded p h a issued) → only calm marker →
  safe I (adds_learned r) h
    (if negb res.1 then Ret res.2
     else marker ;;;
          (if ad_isForwarder a && (0 <? wr_LearnTTLSeconds (ad_req a)) then maybeLearnWaiver p (ad_caller a) (ad_req a) issued else Ret tt) ;;;
          Ret res.2) (fun _ _ => True).
Proof.
  intros Hg Hi Hs Hres Hm. destruct (res.1); [|done]. destruct (Hres eq_refl) as [Hd Hr]. cbn [negb].
  apply safe_bind, stage; [done|]. intros t [] _. apply safe_bind.
  destruct (ad_isForwarder a && _) eqn:Hf; [|done]. apply andb_true_iff in Hf as [Hf _].
  eapply safe_mono; [|eapply (learn_section_safe r (h ++ t) body a i issued)]; [done| | |done| |done|].
  - eapply gated_mono; [|exact Hg]. set_solver.
  - rewrite (gd_forwarder _ _ _ _ _ Hg) in Hf. by apply bool_decide_eq_true in Hf.
  - set_solver.
  - intros Hfc. destruct (Hr Hfc) as (e & He & Hie). exists e. split; [set_solver|done].
Qed.

(** What a response with the issued flag went through. *)
Lemma respond_true t a issued res : is_k8s a = false →
  behaves I (respondSignResult p (ad_caller a) (ad_req a) (sv_hosts (ad_state a)) issued) t (Some res) → res.1 = true →
  wr_DryRun (ad_req a) = false ∧ recorded p t a issued.
Proof.
  intros Hk Hb Ht. destruct res as [b resp]. simpl in Ht. subst b.
  destruct (respond_credential oidc_Verify oor I p t a issued true resp Hk Hb) as (_ & ? & _ & ?); [|done].
  revert Hb. unfold respondSignResult. destruct (wr_DryRun (ad_req a)).
  { by intros (? & ? & ok & -> & _ & [_ [=]]%behaves_Ret)%behaves_bind. }
  destruct (is_Certificate issued).
  - intros (? & ? & ok & -> & _ & [_ Hr]%behaves_Ret)%behaves_bind. injection Hr as Hr. destruct ok; [|done]. by injection Hr as ->.
  - by intros (? & ? & ok & -> & _ & [_ [=]]%behaves_Ret)%behaves_bind.
Qed.

Lemma respondK8s_true t a issued res : is_k8s a = true →
  behaves I (respondSignK8s p (ad_caller a) (ad_req a) issued) t (Some res) → res.1 = true →
  wr_DryRun (ad_req a) = false ∧ recorded p t a issued.
Proof.
  intros Hk Hb Ht. destruct res as [b resp]. simpl in Ht. subst b.
  destruct (respondK8s_credential oidc_Verify oor I p t a issued true resp Hk Hb) as (_ & ? & _ & ?); [|done].
  revert Hb. unfold respondSignK8s. destruct (wr_DryRun (ad_req a)).
  { by intros (? & ? & ok & -> & _ & [_ [=]]%behaves_Ret)%behaves_bind. }
  case_bool_decide as Htok; [by intros (? & ? & ok & -> & _ & [_ [=]]%behaves_Ret)%behaves_bind|].
  intros (? & ? & ok & -> & _ & [_ Hr]%behaves_Ret)%behaves_bind. injection Hr as Hr. destruct ok; [|done]. injection Hr as ->.
  simpl. by rewrite (bool_decide_eq_true_2 (is_K8sToken issued ≠ "")).
Qed.

Lemma recorded_later h t a issued : recorded p t a issued → recorded p (h ++ t) a issued.
Proof. intros Hr Hfc. destruct (Hr Hfc) as (e & He & Hi). exists e. split; [set_solver|done]. Qed.

Lemma sign_branch_safe r h body a (q : sprog http_response) :
  gated I h r body a → q = (if is_k8s a then handleSignK8s p a else sign_ssh ParsePublicKey p a) →
  safe I (adds_learned r) h q (fun _ _ => True).
Proof.
  intros Hg ->. destruct (is_k8s a) eqn:Hk.
  - unfold handleSignK8s.
    assert (∀ h act dec outc err code, safe I (adds_learned r) h (ok <- auditK8s p (ad_caller a) (ad_req a) act 0 outc dec err ;;
      Ret (HError (if ok : bool then code else 500))) (fun _ _ => True)) as Hrefuse.
    { intros. apply stage; [|done]. apply only_bind; [apply only_calm_auditK8s|done]. }
    destruct (k8sWireShapeError (ad_req a)); [apply Hrefuse|]. destruct (outside _ _); [apply Hrefuse|]. case_bool_decide; [apply Hrefuse|].
    apply safe_call. intros [iss [e|]] _; (split; [by apply no_add_ok|]).
    { destruct iss, (is_mint_error e); apply Hrefuse. }
    destruct iss as [issued|]; [|done]. apply safe_bind, stage; [apply respondK8s_calm|]. intros t res Hb.
    eapply safe_mono; [|apply (followups_safe r _ body a (wire_k8s_intent a) issued res (Ret tt))]; try done.
    + eapply gated_mono; [|exact Hg]. set_solver.
    + unfold signed_intent. by rewrite Hk.
    + set_solver.
    + intros Ht. destruct (respondK8s_true _ _ _ _ Hk Hb Ht). split; [done|by apply recorded_later].
  - unfold sign_ssh, auditEmission. destruct (ParsePublicKey _) as [pub|] eqn:Hpub; [|done].
    destruct (outside _ _); [by apply stage|].
    apply safe_call. intros [iss [e|]] _; (split; [by apply no_add_ok|]).
    { destruct iss, (is_ca_error e); by apply stage. }
    destruct iss as [issued|]; [|done]. apply safe_bind, stage; [apply respond_calm|]. intros t res Hb.
    eapply safe_mono; [|eapply (followups_safe r _ body a (ssh_intent pub a) issued res)]; try done.
    + eapply gated_mono; [|exact Hg]. set_solver.
    + unfold signed_intent. by rewrite Hk, Hpub.
    + set_solver.
    + intros Ht. destruct (respond_true _ _ _ _ Hk Hb Ht). split; [done|by apply recorded_later].
    + by destruct (self_approved a issued).
Qed.

Lemma handleSign_adds r : safe I (adds_learned r) [] (handleSign ParsePublicKey p r) (fun _ _ => True).
Proof.
  unfold handleSign. apply safe_bind, stage; [apply sign_gates_calm|]. intros t g Hg. destruct g as [a|resp]; [|done].
  apply sign_gates_Ok in Hg as (body & Hg). by eapply sign_branch_safe.
Qed.

(** ** What it waives *)

Lemma gs_Add_stored id d s g id' s' g' : gs_Add id d s g = (Ok id', s') → gs_grants s' !! id' = Some g' →
  ∃ res, map_each compileWaiver (g_WaiveApproval g) = Ok res ∧
    g' = set_ID id' (set_waiverRE res (set_SudoUser (canonicalGrantSudoUser (g_Sudo g) (g_SudoUser g)) g)).
Proof.
  unfold gs_Add. destruct (_ && _); [done|]. destruct (for_each validateAllow _); [|done].
  unfold compileWaivers. destruct (map_each compileWaiver _) as [res|] eqn:Hres; simpl; [|done].
  assert (∀ db, ((Ok id : result grant_error string), mkGrantStore (<[id := set_ID id (set_waiverRE res (set_SudoUser
      (canonicalGrantSudoUser (g_Sudo g) (g_SudoUser g)) g))]> (gs_grants s)) db) = (Ok id', s') → gs_grants s' !! id' = Some g' →
    ∃ res0, Ok res = (Ok res0 : result grant_error _) ∧ g' = set_ID id' (set_waiverRE res0 (set_SudoUser (canonicalGrantSudoUser (g_Sudo g) (g_SudoUser g)) g))) as H.
  { intros db Heq Hl. injection Heq as <- <-. simpl in Hl. rewrite lookup_insert_eq in Hl. injection Hl as <-. by exists res. }
  destruct (gs_db s) as [tbl|]; [|by apply H]. destruct (insertDB _ _ _) as [tbl'|]; [by apply H|done].
Qed.

Lemma waiver_exact id d s caller req now id' s' g' :
  quotes_exactly → caller ≠ "" → gs_Add id d s (learned_waiver p caller req now) = (Ok id', s') → gs_grants s' !! id' = Some g' →
  g_Allow g' = [] ∧ g_ExpiresAt g' = now + waiver_ttl p req ∧
  ∀ host i, waiverApplies g' host i = true →
    host = wr_Host req ∧ in_Command i = wr_Command req ∧ in_Caller i = caller ∧
    (wr_EndUser req = "" ∨ in_EndUser i = wr_EndUser req) ∧ in_Sudo i = wr_Sudo req ∧
    canonicalGrantSudoUser (in_Sudo i) (in_SudoUser i) = canonicalGrantSudoUser (wr_Sudo req) (wr_SudoUser req).
Proof.
  intros Hq Hc Hadd Hg. destruct (gs_Add_stored _ _ _ _ _ _ _ Hadd Hg) as (res & Hres & ->). simpl in Hres.
  unfold compileWaiver in Hres. destruct (regexp_Compile (waiver_pattern (wr_Command req))) as [m|] eqn:Hm; [|done].
  simpl in Hres. injection Hres as <-. split_and!; [done|done|]. intros host i. unfold waiverApplies, g_matches. simpl.
  destruct (negb _ || negb _ || _) eqn:Hb; [done|]. rewrite orb_false_r, (Hq _ _ Hm). intros Hcmd%bool_decide_eq_true.
  rewrite !orb_false_iff, !negb_false_iff, !andb_true_iff, !orb_true_iff, !bool_decide_eq_true in Hb.
  destruct Hb as [[[[Hh Hcl] Hu] Hsu] Hsud]. apply bool_decide_eq_false, dec_stable in Hsud. apply Bool.eqb_prop in Hsu.
  split_and!; [done|done|naive_solver|naive_solver|done|]. rewrite <-Hsud, Hsu. unfold canonicalGrantSudoUser.
  destruct (in_Sudo i); [|done]. simpl. by repeat case_bool_decide.
Qed.

End learn.
