(* ===== verification/ServiceRun.v ===== *)
(** * Running the service

    The semantics of the service's calls as a function (fixed clock, identifiers
    and orders; every database call succeeds), proved to be one of its behaviours,
    and a small deployment on which the theorems about the service are applied. *)

From stdpp Require Import relations.
From S2P Require Import Prelude GoStrings CmdPolicy PolicySet K8sAction Intent Freeze Grants CA Encoding Elevate Crypto Sealed HostPolicy K8sPolicy Signer RateLimit Approval OAuth ServiceConfig Prog Threads Service ServiceInv ServiceSign ServicePolicy ServiceLearn.

(** ** An executable semantics *)

Section exec.
Context `{RE : RegexpEngine} `{SP : ShellParser} `{ED : Ed25519} `{EJ : EnvelopeJSON} `{JS : JSONStrings}.
Context (oidc_Verify : string → string → option IDToken) (oor : Z) (env : sign_env) (now : time).

(** [None] when the call blocks, or reads what the deployment does not have. *)
Definition exec (t : nat) (X : Type) (c : scall X) (s : svc) : option (X * svc) :=
  match c in scall X return option (X * svc) with
  | SState => Some (s_state s, s)
  | SRateAllow cn limit => let r := Allow map_to_list (s_rate s) now cn limit in Some (r.2, set_rate r.1 s)
  | SClock => Some (now, s)
  | SVerify v token => Some (VerifyEndUser oidc_Verify oor v now token, s)
  | SFrozen c u => Some (Frozen (Some (s_freezes s)) c u, s)
  | SSignIntent l i => Some (SignIntent (with_grants (provider_of map_to_list (s_grants s)) l) env i, s)
  | SAppend e => Some (true, set_log (s_log s ++ [e]) s)
  | SLock => if bool_decide (s_writeMu s = None) then Some (tt, set_mu (Some t) s) else None
  | SUnlock => if bool_decide (s_writeMu s = Some t) then Some (tt, set_mu None s) else None
  | SVolatile => Some (Volatile (s_freezes s), s)
  | SFreezeAdd subj reason by_ n => let r := fz_Add true true (s_freezes s) subj reason by_ n in Some (r.1, set_freezes r.2 s)
  | SFreezeRemove subj => let r := fz_Remove true true (s_freezes s) subj in Some (r.1, set_freezes r.2 s)
  | SFreezeList => Some (fz_List (Some (s_freezes s)), s)
  | SRevokeSubject kind value =>
      let r := RevokeForSubject true (s_grants s) kind value in
      Some (r.1, set_unswept (sweep_mark kind value r.1 s) (set_grants r.2 s))
  | SGrantAdd g => let r := gs_Add (FormatInt (Z.of_nat (length (s_log s)))) true (s_grants s) g in Some (r.1, set_grants r.2 s)
  | SSupersede g => let r := SupersedeWaiver (fun _ => true) (s_grants s) g in Some (r.1, set_grants r.2 s)
  | SGrantRevoke id => let r := gs_Revoke true (s_grants s) id in Some (r.1, set_grants r.2 s)
  | SGrantList n => let r := gs_List map_to_list n (s_grants s) in Some (r.1, set_grants r.2 s)
  | SPurge n => let r := Purge true n (s_grants s) in Some (r.1, set_grants r.2 s)
  | SReadConfig => Some (s_file s, s)
  | SBuildVerifier cfg => Some (buildEndUserVerifier false cfg, s)
  | SWriteConfig text => Some (true, set_file (Some text) s)
  | SBuildState _ | SSwap _ => None
  end.

Lemma exec_sem t X (c : scall X) s x s' : exec t X c s = Some (x, s') → svc_sem oidc_Verify oor t X c s x s'.
Proof.
  destruct c; cbn [exec]; intros H; try done; try (case_bool_decide; [|done]); simplify_eq; unfold svc_sem; cbn [sem]; try done;
    try match goal with |- context [?f.1] => destruct f eqn:?; simpl end.
  - eexists map_to_list, now, _. split_and!; [apply _|done|done].
  - by eauto.
  - split; [done|]. exists map_to_list, env. split; [apply _|done].
  - by eexists true, true, _.
  - by eexists true, true, _.
  - by eexists true, _.
  - by eexists _, true, _.
  - by eexists _, _.
  - by eexists true, _.
  - eexists map_to_list, _. split_and!; [apply _|done|done].
  - by eexists true, _.
  - split; [done|]. by right.
  - by eauto.
Qed.

End exec.

(** ** A deployment *)

(** An anchored, quoted text, without its anchors and quotes. *)
Fixpoint unquote (s : string) : option string :=
  match s with
  | "" => None
  | String c s' =>
      if bool_decide (c = "$"%char ∧ s' = "") then Some ""
      else if ascii_eqb c "\"%char then match s' with String d s'' => String d <$> unquote s'' | "" => None end
      else String c <$> unquote s'
  end.

(** Anchored quoted texts match exactly; the rest are prefixes, as in
    [prefix_engine]. *)
Definition anchored_engine : RegexpEngine := fun pat =>
  match pat with
  | String c rest => if ascii_eqb c "^"%char then (fun text s => bool_decide (s = text)) <$> unquote rest else prefix_engine pat
  | "" => prefix_engine pat
  end.

Lemma unquote_QuoteMeta s : unquote (QuoteMeta s +:+ "$") = Some s.
Proof.
  induction s as [|c s IH]; [done|]. cbn [QuoteMeta]. destruct (is_meta c) eqn:Hm.
  - simpl. by rewrite IH.
  - simpl. assert (c ≠ "$"%char ∧ c ≠ "\"%char) as [H1 H2] by (split; intros ->; done).
    rewrite bool_decide_eq_false_2 by naive_solver. unfold ascii_eqb. rewrite bool_decide_eq_false_2 by done. by rewrite IH.
Qed.

Lemma anchored_quotes : @quotes_exactly anchored_engine.
Proof.
  intros command m. unfold waiver_pattern. cbn. unfold regexp_Compile, anchored_engine. simpl.
  rewrite unquote_QuoteMeta. by intros [= <-].
Qed.

#[local] Existing Instances anchored_engine plain_parser toy_ed25519 singleton_json.
#[local] Instance sample_codec : EnvelopeJSON := fixed_json sample_envelope.
(** No configuration is readable. *)
#[local] Instance no_config : ConfigText := {| cfg_view _ := None; cfg_Patch _ _ := None; cfg_parse _ := None |}.

Definition svc_host : HostPolicy :=
  mkHostPolicy "10.0.0.1:22" "deploy" "ssh-ed25519 AAAA" "" "host:web1" "10.0.0.0/8" (5 * Minute) 300
    false ["agent"] true ["root"; "deploy"] false false ["web"] false sample_allow [].
Definition svc_config : Config :=
  mkConfig "ca.pem" ∅ 300 60 ["admin"] ["cp"] {["web1" := svc_host]} {["agent" := mkCallerPolicy ["web"] false false]} ∅ ∅ ∅ "" None.
Definition svc_build : build_env :=
  mkBuildEnv (mkKeyBackends Some (fun _ => None) (fun _ _ => None) "") (fun _ => None)
    (mkClusterEnv (fun _ => false) (fun _ => None) (fun _ => None) (fun _ => false)) (fun _ => sample_minter)
    map_to_list map_to_list map_to_list map_to_list map_to_list.
Definition svc_local : Local :=
  match buildState svc_build svc_config with Ok l => l | Err _ => NewLocal "" ∅ 0 end.
Definition svc_start : svc :=
  mkSvc (swapped svc_config svc_local None) empty_db_store empty_store ∅ [] None None ∅.

Lemma svc_local_built : buildState svc_build svc_config = Ok svc_local.
Proof. vm_compute. reflexivity. Qed.

Lemma svc_start_sound : service_sound svc_start.
Proof.
  split; [|apply map_Forall_empty]. simpl. eapply (buildState_sound svc_build); [|apply svc_local_built].
  split; simpl; apply _.
Qed.

Definition peer (cn : string) : option (list peer_cert) := Some [mkPeerCert cn [ExtKeyUsageClientAuth]].
Definition closed_params : server_params := mkServerParams true Hour.
Definition line_key (line : string) : option string := if bool_decide (line = "") then None else Some line.

(** The control plane forwards an approved command of the agent, asking to learn
    it. *)
Definition approved_stop : WireRequest :=
  mkWireRequest "web1" RoleTarget PurposeOneshot "" "systemctl stop nginx" 60 "key" "" "" "" "" "" "" false "" false false
    false false "agent" true "alice" (Some ["web"]) "" "" 600 "bob" "ap1".
Definition stop_request : http_request WireRequest := mkHTTPRequest "POST" (peer "cp") (Some approved_stop) "" "" "".
Definition freeze_agent : http_request freezeRequest :=
  mkHTTPRequest "POST" (peer "admin") (Some (mkFreezeRequest FreezeCaller "agent" "incident-7" false)) "" "" "".
Definition grant_all : http_request grantReq :=
  mkHTTPRequest "POST" (peer "admin") (Some (mkGrantReq ["df"] 60 "" "")) "" "web1" "".

Definition no_oidc : string → string → option IDToken := fun _ _ => None.
#[local] Instance sample_effects : Effects scall sobs (svc → Prop) := service_effects no_oidc 0.
Definition svc_exec : nat → ∀ X, scall X → svc → option (X * svc) := exec no_oidc 0 sample_sign_env Hour.
Lemma svc_exec_sem t X (c : scall X) s x s' : svc_exec t X c s = Some (x, s') → svc_sem no_oidc 0 t X c s x s'.
Proof. apply exec_sem. Qed.
Definition sign_program : sprog http_response := handleSign line_key closed_params stop_request.
Definition day : list (sprog (option http_response)) :=
  [x <- handleGrantCreate closed_params grant_all ;; Ret (Some x);
   x <- sign_program ;; Ret (Some x);
   x <- handleFreeze closed_params freeze_agent ;; Ret (Some x)].
Definition day_end : option (list (option http_response) * svc) := exec_all svc_exec 0 day svc_start.
Definition after_day : svc := match day_end with Some (_, s) => s | None => svc_start end.

(** The grant stays, the learned waiver went with the freeze. *)
Example day_results :
  match day_end with
  | Some ([Some (HGrantCreated _ _ _); Some r; Some (HFrozen true 1)], s) => credential r = true ∧ size (gs_grants (s_grants s)) = 1%nat
  | _ => False
  end.
Proof. vm_compute. done. Qed.

(** ** The theorems on it *)

Lemma svc_start_ungranted : frozen_ungranted svc_start.
Proof. intros subj Hs. by apply elem_of_dom in Hs as [? Hs]. Qed.

Lemma day_reach_of l s : day_end = Some (l, s) →
  pool_reach (svc_sem no_oidc 0) file_edited (service_thread line_key closed_params) svc_start s (map Ret l).
Proof.
  intros Hd. apply (exec_all_reach svc_exec _ _ svc_exec_sem _ day svc_start s l []); [|exact Hd].
  unfold day, sign_program. repeat constructor.
Qed.

Lemma day_ends : is_Some day_end.
Proof. vm_compute. eauto. Qed.

Lemma day_reach : ∃ l, pool_reach (svc_sem no_oidc 0) file_edited (service_thread line_key closed_params) svc_start after_day (map Ret l).
Proof.
  pose proof day_reach_of as H. pose proof day_ends as [x Hx]. unfold after_day. rewrite Hx in *. destruct x as [l s].
  exists l. by apply H.
Qed.

Lemma frozen_subjects_hold_no_grants_witness :
  s_writeMu after_day = None ∧
  ∀ id g, gs_grants (s_grants after_day) !! id = Some g → scoped_to FreezeCaller "agent" g = false.
Proof.
  split; [vm_compute; reflexivity|]. destruct day_reach as [l Hl]. intros id g Hg.
  refine (frozen_subjects_hold_no_grants no_oidc 0 line_key closed_params svc_start after_day (map Ret l) _ svc_start_ungranted Hl _
    (mkFreezeSubject FreezeCaller "agent") id g _ _ _ Hg); [reflexivity|vm_compute; reflexivity| |discriminate|].
  - apply elem_of_dom. vm_compute. eauto.
  - vm_compute. discriminate.
Defined.


(** The calls of one signing run. *)
Definition not_swap_call (X : Type) (c : scall X) : bool := match c with SSwap _ => false | _ => true end.
Definition sign_run : option (http_response * svc * list sobs) :=
  exec_run svc_exec not_swap_call 0 sign_program svc_start.
Definition sign_trace : list sobs := match sign_run with Some (_, _, t) => t | None => [] end.
Definition sign_response : http_response := match sign_run with Some (r, _, _) => r | None => HError 0 end.
Definition sign_answer : WireResponse := match sign_response with HSign w => w | _ => wire_decision None "" end.

Lemma sign_run_eq : sign_run = Some (HSign sign_answer, match sign_run with Some (_, s, _) => s | None => svc_start end, sign_trace).
Proof. vm_compute. reflexivity. Qed.

Lemma sign_behaves : @behaves _ _ _ (service_effects no_oidc 0) service_sound _ sign_program sign_trace (Some (HSign sign_answer)).
Proof.
  eapply exec_run_behaves; [|apply svc_start_sound|apply sign_run_eq]. intros X c s x s' Hc Hs He.
  apply svc_exec_sem in He. split; [by exists 0%nat, s, s'|]. eapply not_swap_keeps; [|exact Hs|exact He]. by destruct c.
Qed.

Lemma credential_gated_witness : ∃ a, ad_caller a = "agent" ∧ ad_peer a ∈ sv_forwarders (ad_state a).
Proof.
  destruct (credential_gated no_oidc 0 service_sound closed_params line_key sign_trace stop_request (HSign sign_answer))
    as (body & a & i & issued & Hg & _ & _ & Hob & _); [exact sign_behaves|vm_compute; reflexivity|].
  pose proof (gd_body _ _ _ _ _ Hg) as Hb. injection Hb as <-.
  exists a. assert (ad_peer a ∈ sv_forwarders (ad_state a)) as Hf by (by apply Hob). split; [|done].
  pose proof (gd_caller _ _ _ _ _ Hg) as Hc. unfold resolveCaller in Hc. simpl in Hc. rewrite bool_decide_eq_true_2 in Hc by done.
  by injection Hc.
Defined.

Lemma service_signs_policy_witness : ∃ cert, ws_Certificate sign_answer = Some cert ∧ ∃ (a : admitted) (i : Intent), signed_intent line_key a = Some i.
Proof.
  assert (is_Some (ws_Certificate sign_answer)) as [cert Hc] by (vm_compute; eauto).
  exists cert. split; [done|].
  destruct (service_signs_policy no_oidc 0 line_key closed_params service_sound (fun s H => H) sign_trace stop_request sign_answer cert)
    as (body & a & i & hp & s & iter & env & _ & Hi & _); [exact sign_behaves|exact Hc|]. by exists a, i.
Defined.

Definition is_grant_add (ob : sobs) : bool := bool_decide (is_Some (added ob)).
Definition learn_position : nat := length (take_while (fun ob => negb (is_grant_add ob)) sign_trace).


(** The agent is frozen: the same request is refused, in every interleaving that
    keeps it frozen. *)
Definition agent_frozen (s : svc) : Prop := is_Some (frozen (s_freezes s) !! mkFreezeSubject FreezeCaller "agent").
Definition calm_call (X : Type) (c : scall X) : bool :=
  match c with
  | SLock | SUnlock | SFreezeAdd _ _ _ _ | SFreezeRemove _ | SRevokeSubject _ _ | SGrantAdd _ => false
  | _ => true
  end.
Definition frozen_svc : svc := set_freezes (fz_Add true true empty_db_store (mkFreezeSubject FreezeCaller "agent") "" "admin" 0).2 svc_start.
Definition refused_run : option (http_response * svc * list sobs) :=
  exec_run svc_exec calm_call 0 sign_program frozen_svc.

Lemma calm_keeps_frozen X (c : scall X) s x s' : calm_call X c = true → agent_frozen s → sem no_oidc 0 0 c s x s' → agent_frozen s'.
Proof.
  intros Hc Hs Hsem. unfold agent_frozen. rewrite (kp_freezes s s'); [done|].
  eapply (calm_keeps no_oidc 0 0 X c); [by destruct c|exact Hsem].
Qed.

Lemma frozen_never_signed_witness : ∃ resp, (fun x => x.1.1) <$> refused_run = Some resp ∧ credential resp = false.
Proof.
  assert (is_Some refused_run) as [[[resp s] t] Hr] by (vm_compute; eauto).
  exists resp. rewrite Hr. split; [reflexivity|].
  refine (frozen_never_signed no_oidc 0 agent_frozen closed_params line_key t stop_request resp "agent" (fun _ H => H) _ _ _).
  - discriminate.
  - eapply (exec_run_behaves _ _ agent_frozen); [| |exact Hr]; [|vm_compute; eauto].
    intros X c s0 x s' Hc Hs He. apply svc_exec_sem in He. split; [by exists 0%nat, s0, s'|]. by eapply calm_keeps_frozen.
  - right. exists approved_stop. split; reflexivity.
Defined.

Definition hosts_request : http_request unit := mkHTTPRequest "GET" (peer "cp") None "agent" "" "".
Definition hosts_run : option (http_response * svc * list sobs) :=
  exec_run svc_exec (fun _ _ => true) 0 (handleHosts closed_params hosts_request) svc_start.

Lemma hosts_listed_exactly_witness :
  ∃ s t, hosts_run = Some (HHosts {["web1" := wire_host svc_host]}, s, t) ∧
  ∃ (caller : string) (st : server_state), resolveCaller "cp" "agent" (sv_forwarders st) = Some caller.
Proof.
  assert (∃ s t, hosts_run = Some (HHosts {["web1" := wire_host svc_host]}, s, t)) as (s & t & Hr).
  { eexists _, _. vm_compute. reflexivity. }
  exists s, t. split; [done|].
  destruct (hosts_listed_exactly no_oidc 0 closed_params (fun _ => True) t hosts_request {["web1" := wire_host svc_host]})
    as (peer & caller & st & Hp & _ & Hc & _).
  { eapply (exec_run_behaves _ _ (fun _ => True)); [|exact I|exact Hr]. intros X c s0 x s' _ _ He. apply svc_exec_sem in He.
    split; [|exact I]. exists 0%nat, s0, s'. split; [exact I|exact He]. }
  exists caller, st. injection Hp as <-. exact Hc.
Defined.
