(* ===== verification/Remote.v ===== *)
(** * The signing client

    [internal/signer/remote.go]: the client of the wire protocol, which brokers
    use towards a signer or a control plane and the control plane towards the
    signer. HTTP is a call: its answer is whether the request could be built and
    sent and, if so, the status, the header and what the body decodes to. *)

From S2P Require Import Prelude GoStrings CmdPolicy PolicySet K8sAction Intent Freeze Grants CA Encoding Elevate Crypto Sealed HostPolicy K8sPolicy Signer RateLimit Approval Broker OAuth ServiceConfig Prog Service.

(** [WireResponse] as the client decodes it: the certificate is text, [""] when
    absent. *)
Record wire_reply := mkWireReply {
  wy_Certificate : string;
  wy_Serial : Z;
  wy_K8sToken : string;
  wy_K8sTokenExpiry : time;
  wy_ElevationPrefix : string;
  wy_Decision : option DecisionInfo;
  wy_Envelope : string;
}.

(** A reply: [rp_approval] and [rp_body] are [None] when the body does not decode
    to the [202] and to the response structure. *)
Record reply := mkReply {
  rp_Status : Z;
  rp_RetryAfter : string;
  rp_read : bool;
  rp_approval : option string;
  rp_body : option wire_reply;
}.

(** A GET whose body is the map [B]. *)
Record get_reply (B : Type) := mkGetReply { gr_Status : Z; gr_read : bool; gr_body : option B }.
Arguments mkGetReply {B}.
Arguments gr_Status {B}.
Arguments gr_read {B}.
Arguments gr_body {B}.

Inductive sent (R : Type) := NotBuilt | NotSent | Replied (r : R).
Arguments NotBuilt {R}.
Arguments NotSent {R}.
Arguments Replied {R}.

Inductive remote_error :=
| RBuild
| RUnavailable (code : option Z)
| RRead
| RInvalid202
| RRateLimited (retryAfter : string)
| RRejected (code : Z)
| RInvalidResponse
| RParseCertificate
| RNoWait (id : string)
| RContextDone
| RDeadline (id : string)
| RQuery
| RNotGranted (code : Z)
| RPollFuel.

(** [errors.Is] for the two sentinels. *)
Definition is_unavailable (e : remote_error) : bool := match e with RUnavailable _ => true | _ => false end.
Definition is_rate_limited (e : remote_error) : bool := match e with RRateLimited _ => true | _ => false end.

(** [RTick start interval k] waits for the [k]-th tick of a ticker started at or
    after [start] and answers the clock; [None] is a done context. *)
Inductive rcall : Type → Type :=
| RPost (wr : WireRequest) : rcall (sent reply)
| RPoll (id : string) : rcall (sent reply)
| RClock : rcall time
| RTick (start : time) (interval : duration) (k : nat) : rcall (option time)
| RGetHosts (onBehalfOf : string) : rcall (sent (get_reply (gmap string WireHostInfo)))
| RGetClusters (onBehalfOf : string) : rcall (sent (get_reply (gmap string WireClusterInfo)))
| RGetRevocations : rcall (sent (get_reply (list FrozenEntry))).

Abbreviation rprog := (Prog.prog rcall) (only parsing).
Abbreviation rcall_ := (@Prog.call_ rcall _) (only parsing).

(** [Remote], less its transport. *)
Record Remote := mkRemote { rm_approvalWait : duration; rm_pollInterval : duration }.

Definition defaultPollInterval : duration := 2 * Second.
Definition maxTransientPolls : Z := 10.
Definition poll_interval (r : Remote) : duration :=
  if rm_pollInterval r <=? 0 then defaultPollInterval else rm_pollInterval r.

Section client.
(** [ssh.MarshalAuthorizedKey] on a key and [ParseCertificate]; a nil key is
    [""]. *)
Context (MarshalAuthorizedKey : string → string) (ParseCertificate : string → option Certificate).

Definition wire_of_intent (i : Intent) : WireRequest :=
  let k8s := if bool_decide (in_TargetType i = TargetTypeK8s) then in_K8s i else None in
  let field (f : K8sAction → string) := match k8s with Some a => f a | None => "" end in
  mkWireRequest (in_Host i) (in_Role i) (in_Purpose i) (in_SessionMode i) (in_Command i) (Z.quot (in_RequestedTTL i) Second)
    (match k8s with
     | Some _ => ""
     | None => if bool_decide (in_PublicKey i = "") then "" else MarshalAuthorizedKey (in_PublicKey i)
     end)
    (match k8s with Some _ => TargetTypeK8s | None => "" end)
    (field ka_Verb) (field ka_Resource) (field ka_Group) (field ka_Namespace) (field ka_Name)
    (in_Sudo i) (in_SudoUser i) (in_PTY i) (in_FileTransfer i) (in_DryRun i) (in_Preflight i) (in_OnBehalfOf i)
    (in_Approved i) (in_EndUser i) (in_EndUserGroups i) (in_EndUserContext i) (in_RawToken i)
    (in_LearnTTLSeconds i) (in_LearnApprover i) (in_LearnApprovalID i).

(** The results the client builds. *)
Definition issued_decision (w : wire_reply) (envelope : string) : Issued :=
  mkIssued None 0 "" 0 None "" (wy_Decision w) envelope.
Definition issued_token (w : wire_reply) : Issued :=
  mkIssued None (wy_Serial w) (wy_K8sToken w) (wy_K8sTokenExpiry w) None "" (wy_Decision w) "".
Definition issued_cert (w : wire_reply) : result remote_error Issued :=
  match ParseCertificate (wy_Certificate w) with
  | None => Err RParseCertificate
  | Some cert => Ok (mkIssued (Some cert) (wy_Serial w) "" 0 None (wy_ElevationPrefix w) (wy_Decision w) "")
  end.

Definition issuedFromWire (i : Intent) (w : wire_reply) : result remote_error Issued :=
  if bool_decide (in_TargetType i = TargetTypeK8s) then
    Ok (if in_DryRun i || bool_decide (wy_K8sToken w = "") then issued_decision w "" else issued_token w)
  else if in_DryRun i || bool_decide (wy_Certificate w = "") then Ok (issued_decision w (wy_Envelope w))
  else issued_cert w.

(** The result of a granted poll, by what the response carries. *)
Definition issued_poll (w : wire_reply) : result remote_error Issued :=
  if negb (bool_decide (wy_K8sToken w = "")) then Ok (issued_token w)
  else if bool_decide (wy_Certificate w = "") then Ok (issued_decision w (wy_Envelope w))
  else issued_cert w.

Definition transient_status (code : Z) : bool := (code =? 502) || (code =? 503) || (code =? 429).

(** The loop: [k] is the next tick, [transient] counts the consecutive
    transient answers. *)
Fixpoint poll_loop (fuel : nat) (id : string) (start deadline : time) (interval : duration) (k : nat) (transient : Z) :
    rprog (result remote_error Issued) :=
  match fuel with
  | O => Ret (Err RPollFuel)
  | S fuel =>
      tick <- rcall_ (RTick start interval k) ;;
      match tick with
      | None => Ret (Err RContextDone)
      | Some now =>
          if deadline <? now then Ret (Err (RDeadline id))
          else
            r <- rcall_ (RPoll id) ;;
            match r with
            | NotBuilt => Ret (Err RBuild)
            | NotSent => Ret (Err RQuery)
            | Replied r =>
                if rp_Status r =? 202 then poll_loop fuel id start deadline interval (S k) 0
                else if transient_status (rp_Status r) then
                  let transient := transient + 1 in
                  if maxTransientPolls <? transient then Ret (Err (RNotGranted (rp_Status r)))
                  else poll_loop fuel id start deadline interval (S k) transient
                else if rp_Status r =? 200 then
                  Ret (match rp_body r with None => Err RInvalidResponse | Some w => issued_poll w end)
                else Ret (Err (RNotGranted (rp_Status r)))
            end
      end
  end.

(** As many ticks as fit into the wait, and one more. *)
Definition poll_fuel (rm : Remote) : nat := S (Z.to_nat (rm_approvalWait rm / poll_interval rm)).

Definition pollApproval (rm : Remote) (id : string) : rprog (result remote_error Issued) :=
  if rm_approvalWait rm <=? 0 then Ret (Err (RNoWait id))
  else
    now <- rcall_ RClock ;;
    poll_loop (poll_fuel rm) id now (now + rm_approvalWait rm) (poll_interval rm) 1 0.

Definition remote_SignIntent (rm : Remote) (i : Intent) : rprog (result remote_error Issued) :=
  s <- rcall_ (RPost (wire_of_intent i)) ;;
  match s with
  | NotBuilt => Ret (Err RBuild)
  | NotSent => Ret (Err (RUnavailable None))
  | Replied r =>
      if negb (rp_read r) then Ret (Err RRead)
      else if rp_Status r =? 202 then
        match rp_approval r with
        | None => Ret (Err RInvalid202)
        | Some id => if bool_decide (id = "") then Ret (Err RInvalid202) else pollApproval rm id
        end
      else if negb (rp_Status r =? 200) then
        Ret (Err (if 500 <=? rp_Status r then RUnavailable (Some (rp_Status r))
                  else if rp_Status r =? 429 then RRateLimited (rp_RetryAfter r)
                  else RRejected (rp_Status r)))
      else Ret (match rp_body r with None => Err RInvalidResponse | Some w => issuedFromWire i w end)
  end.

(** ** Listings *)

Definition host_info (h : WireHostInfo) : HostInfo :=
  mkHostInfo (wh_Addr h) (wh_User h) (wh_HostKey h) (wh_Jump h) (wh_AllowSudo h) (wh_AllowPTY h) (wh_AllowFileTransfer h)
    (wh_Groups h).
Definition cluster_info (c : WireClusterInfo) : ClusterInfo :=
  mkClusterInfo (wk_APIServer c) (wk_CACertPEM c) (wk_Groups c) (wk_ExtraResources c).

(** The checks the three GETs share. *)
Definition get_result {B : Type} (s : sent (get_reply B)) : result remote_error B :=
  match s with
  | NotBuilt => Err RBuild
  | NotSent => Err RQuery
  | Replied r =>
      if negb (gr_read r) then Err RRead
      else if negb (gr_Status r =? 200) then Err (RRejected (gr_Status r))
      else match gr_body r with None => Err RInvalidResponse | Some b => Ok b end
  end.
Definition map_ok {E A B : Type} (f : A → B) (r : result E A) : result E B :=
  match r with Err e => Err e | Ok a => Ok (f a) end.

Definition FetchHosts (onBehalfOf : string) : rprog (result remote_error (gmap string HostInfo)) :=
  s <- rcall_ (RGetHosts onBehalfOf) ;; Ret (map_ok (fmap host_info) (get_result s)).
Definition FetchClusters (onBehalfOf : string) : rprog (result remote_error (gmap string ClusterInfo)) :=
  s <- rcall_ (RGetClusters onBehalfOf) ;; Ret (map_ok (fmap cluster_info) (get_result s)).
Definition FetchRevocations : rprog (result remote_error (list FrozenEntry)) :=
  s <- rcall_ RGetRevocations ;; Ret (get_result s).
End client.
