(* ===== verification/ControlPlane.v ===== *)
(** * The control plane

    [cmd/control-plane]: the service between brokers and the signer, which
    applies the behaviour guardrails, parks requests that need a human in the
    approval registry and forwards an approved one with [approved=true]. A
    handler is a program over calls to the registry, the behaviour tracker, the
    signing client, the notifier and the audit log; [cp_sem] says what a call
    does to the state the handlers share. *)

From S2P Require Import Prelude GoStrings CmdPolicy PolicySet K8sAction Intent Freeze Grants CA Encoding Elevate Crypto Sealed HostPolicy K8sPolicy Signer RateLimit Approval Behavior Broker OAuth ServiceConfig Prog Service Remote.

(** ** Data *)

(** [audit.Entry], with the fields this service sets. *)
Inductive cp_err := NoCErr | CRemote (e : remote_error) | CText (s : string).

Record crecord := mkCRecord {
  cr_Caller : string;
  cr_Host : string;
  cr_Command : string;
  cr_TargetType : string;
  cr_Serial : Z;
  cr_Outcome : string;
  cr_DryRun : bool;
  cr_ApprovalID : string;
  cr_ApprovedBy : string;
  cr_PolicyRule : rule_text;
  cr_Warning : warning;
  cr_Anomaly : list anomaly;
  cr_Err : cp_err;
}.

(** The sets of [server]; [cs_Behavior] is the configuration of its tracker. *)
Record cp_params := mkCPParams {
  cs_approveCN : gset string;
  cs_signCN : gset string;
  cs_forwarders : gset string;
  cs_auditFailClosed : bool;
  cs_redactor : option (string → string);
  cs_Behavior : BehaviorConfig;
}.

(** The body of a decision. *)
Record decideReq := mkDecideReq { db_Approve : bool; db_Learn : bool; db_TTLSeconds : Z }.

Inductive cp_response :=
| CError (code : Z)
| CRetryAfter (v : string)
| CSigned (w : WireResponse)
| CApprovalPending (id : string)
| CWaiting (status : string)
| CHosts (hosts : gmap string WireHostInfo)
| CClusters (clusters : gmap string WireClusterInfo)
| CApprovals (l : list Approval)
| CApproval (a : Approval)
| CDetailPage (a : Approval) (pending : bool).

Inductive ccall : Type → Type :=
| CCheck (subject host command : string) : ccall (list anomaly * bool)
| CLearn (subject host command : string) : ccall unit
| CSign (i : Intent) : ccall (result remote_error Issued)
| CFetchHosts (onBehalfOf : string) : ccall (result remote_error (gmap string HostInfo))
| CFetchClusters (onBehalfOf : string) : ccall (result remote_error (gmap string ClusterInfo))
| CAppend (e : crecord) : ccall bool
| CNotify (a : Approval) : ccall bool
| CNewID : ccall bool
| CPurge : ccall unit
| CInsert (req : WireRequest) (caller : string) (rule : matched_rule) (stripped : bool) : ccall (result approval_error Approval)
| CGet (id : string) : ccall (option Approval)
| CDecide (id : string) (approve : bool) (by_ : string) (learnTTL : duration) : ccall (result approval_error Approval)
| CBegin (id : string) : ccall (bool * bool)
| CFinish (id : string) (success : bool) : ccall unit
| CRequest (id : string) : ccall (option WireRequest)
| CReport (id : string) : ccall bool
| CList : ccall (list Approval).

Abbreviation cprog := (Prog.prog ccall) (only parsing).
Abbreviation ccall_ := (@Prog.call_ ccall _) (only parsing).

(** ** Roles *)

Definition cnSet (cns : list string) : gset string := list_to_set (List.filter (fun cn => negb (bool_decide (cn = ""))) cns).

Definition isSignCaller (p : cp_params) (cn : string) : bool :=
  if bool_decide (cs_signCN p ≠ ∅) then bool_decide (cn ∈ cs_signCN p) else negb (bool_decide (cn ∈ cs_approveCN p)).

Definition signCaller {B : Type} (p : cp_params) (r : http_request B) : result cp_response string :=
  match CallerCN (rq_peers r) with
  | None => Err (CError 401)
  | Some cn => if isSignCaller p cn then Ok cn else Err (CError 403)
  end.

Definition approver {B : Type} (p : cp_params) (r : http_request B) : option string :=
  match CallerCN (rq_peers r) with
  | None => None
  | Some cn => if bool_decide (cn ∈ cs_approveCN p) then Some cn else None
  end.

(** ** Audit *)

Definition auditE (e : crecord) : cprog unit := ccall_ (CAppend e) ;;; Ret tt.

(** [None] lets the request go on. *)
Definition auditGate (p : cp_params) (e : crecord) : cprog (option cp_response) :=
  ok <- ccall_ (CAppend e) ;;
  Ret (if negb ok && cs_auditFailClosed p then Some (CError 503) else None).

Definition targetType (t : string) : string := if bool_decide (t = TargetTypeK8s) then TargetTypeK8s else "".

(** An entry about a request, and one about an approval. *)
Definition req_entry (brokerCN : string) (req : WireRequest) (outcome : string) (dryRun : bool) (anomalies : list anomaly)
    (err : cp_err) : crecord :=
  mkCRecord brokerCN (wr_Host req) (wr_Command req) (targetType (wr_TargetType req)) 0 outcome dryRun "" "" NoRule None anomalies err.
Definition ap_entry (a : Approval) (tt_ : string) (serial : Z) (outcome by_ : string) (err : cp_err) : crecord :=
  mkCRecord (ap_Caller a) (ap_Host a) (ap_Command a) tt_ serial outcome false (ap_ID a) by_ NoRule None [] err.

(** ** Intents *)

Definition guardrailSubject (p : cp_params) (brokerCN endUser : string) : string :=
  if bool_decide (brokerCN ∈ cs_forwarders p) && negb (bool_decide (endUser = "")) then brokerCN +:+ ":" +:+ endUser else brokerCN.

Definition set_dry_run (i : Intent) : Intent :=
  mkIntent (in_Caller i) (in_Host i) (in_TargetType i) (in_K8s i) (in_Role i) (in_Purpose i) (in_SessionMode i) (in_Command i)
    (in_RequestedTTL i) (in_PublicKey i) (in_Sudo i) (in_SudoUser i) (in_PTY i) (in_FileTransfer i) true (in_Preflight i)
    (in_Approved i) (in_OnBehalfOf i) (in_EndUser i) (in_EndUserGroups i) (in_EndUserContext i) (in_RawToken i)
    (in_LearnTTLSeconds i) (in_LearnApprover i) (in_LearnApprovalID i).
Definition set_learn (ttl : Z) (approver id : string) (i : Intent) : Intent :=
  mkIntent (in_Caller i) (in_Host i) (in_TargetType i) (in_K8s i) (in_Role i) (in_Purpose i) (in_SessionMode i) (in_Command i)
    (in_RequestedTTL i) (in_PublicKey i) (in_Sudo i) (in_SudoUser i) (in_PTY i) (in_FileTransfer i) (in_DryRun i) (in_Preflight i)
    (in_Approved i) (in_OnBehalfOf i) (in_EndUser i) (in_EndUserGroups i) (in_EndUserContext i) (in_RawToken i)
    ttl approver id.

(** The learn intent of an approval. *)
Definition with_learn (a : Approval) (i : Intent) : Intent :=
  if 0 <? ap_LearnTTL a then set_learn (Z.quot (ap_LearnTTL a) Second) (ap_DecidedBy a) (ap_ID a) i else i.

(** [signer.WireRequest{}]. *)
Definition zero_request : WireRequest :=
  mkWireRequest "" "" "" "" "" 0 "" "" "" "" "" "" "" false "" false false false false "" false "" None "" "" 0 "" "".

Definition relaySignerRateLimit (e : remote_error) : option cp_response :=
  match e with RRateLimited v => Some (CRetryAfter v) | _ => None end.

Definition rule_of (d : option DecisionInfo) : rule_text := match d with Some di => RuleOf (di_MatchedRule di) | None => NoRule end.
Definition warning_of (d : option DecisionInfo) : warning := match d with Some di => di_Warning di | None => None end.

(** The untrusted end user is dropped. *)
Definition strip_end_user (req : WireRequest) : WireRequest :=
  mkWireRequest (wr_Host req) (wr_Role req) (wr_Purpose req) (wr_SessionMode req) (wr_Command req) (wr_TTLSeconds req)
    (wr_PublicKey req) (wr_TargetType req) (wr_K8sVerb req) (wr_K8sResource req) (wr_K8sGroup req) (wr_K8sNamespace req)
    (wr_K8sName req) (wr_Sudo req) (wr_SudoUser req) (wr_PTY req) (wr_FileTransfer req) (wr_DryRun req) (wr_Preflight req)
    (wr_OnBehalfOf req) (wr_Approved req) "" (wr_EndUserGroups req) "" (wr_BearerToken req)
    (wr_LearnTTLSeconds req) (wr_LearnApprover req) (wr_LearnApprovalID req).

(** [Registry.CreateWith]: the draw of the id, then its two critical sections. *)
Definition registry_CreateWith (req : WireRequest) (caller : string) (rule : matched_rule) (stripped : bool) :
    cprog (result approval_error Approval) :=
  ok <- ccall_ CNewID ;;
  if negb ok then Ret (Err ENewID)
  else ccall_ CPurge ;;; ccall_ (CInsert req caller rule stripped).

Definition requireApproval (p : cp_params) (brokerCN : string) (req : WireRequest) (rule : matched_rule)
    (anomalies : list anomaly) : cprog cp_response :=
  let trusted := bool_decide (brokerCN ∈ cs_forwarders p) in
  let stripped := negb trusted && negb (bool_decide (wr_EndUser req = "")) in
  let req := if trusted then req else strip_end_user req in
  r <- registry_CreateWith req brokerCN rule stripped ;;
  match r with
  | Err _ => Ret (CError 500)
  | Ok a =>
      ccall_ (CNotify (WithRedactedCommand (cs_redactor p) a)) ;;;
      auditE (mkCRecord brokerCN (wr_Host req) (wr_Command req) (targetType (wr_TargetType req)) 0 "approval-required" false
                (ap_ID a) "" (RuleOf rule) None anomalies NoCErr) ;;;
      Ret (CApprovalPending (ap_ID a))
  end.

Section handlers.
(** [signer.ParsePublicKey] and [sort.Slice], which leaves the order of ties open. *)
Context (ParsePublicKey : string → option string).
Context (sort_Slice : (Approval → Approval → bool) → list Approval → list Approval).
Context (p : cp_params).

Definition intentFrom (req : WireRequest) (onBehalfOf : string) (approved : bool) : option Intent :=
  let mk (target : string) (k8s : option K8sAction) (pub : string) :=
    mkIntent "" (wr_Host req) target k8s (wr_Role req) (wr_Purpose req) (wr_SessionMode req) (wr_Command req)
      (wrap64 (wr_TTLSeconds req * Second)) pub (wr_Sudo req) (wr_SudoUser req) (wr_PTY req) (wr_FileTransfer req)
      (wr_DryRun req) (wr_Preflight req) approved onBehalfOf (wr_EndUser req) (wr_EndUserGroups req) (wr_EndUserContext req)
      (wr_BearerToken req) 0 "" "" in
  if bool_decide (wr_TargetType req = TargetTypeK8s) then Some (mk TargetTypeK8s (Some (wire_action req)) "")
  else match ParsePublicKey (wr_PublicKey req) with None => None | Some pub => Some (mk "" None pub) end.

(** ** Signing *)

Definition dryRunSignError (brokerCN : string) (req : WireRequest) (e : remote_error) : cprog cp_response :=
  if is_unavailable e
  then auditE (req_entry brokerCN req "error" true [] (CRemote e)) ;;; Ret (CError 502)
  else auditE (req_entry brokerCN req "denied" true [] (CRemote e)) ;;; Ret (CError 403).

(** The two dry-run branches of [handleSign], which are alike. *)
Definition dry_run_forward (brokerCN : string) (req : WireRequest) : cprog cp_response :=
  match intentFrom req brokerCN false with
  | None => Ret (CError 400)
  | Some i =>
      r <- ccall_ (CSign i) ;;
      match r with
      | Err e => match relaySignerRateLimit e with Some resp => Ret resp | None => dryRunSignError brokerCN req e end
      | Ok issued => Ret (CSigned (wire_decision (is_Decision issued) (is_Envelope issued)))
      end
  end.

Definition forwardSignResult (brokerCN : string) (req : WireRequest) (issued : Issued) : cprog cp_response :=
  let entry (t : string) :=
    mkCRecord brokerCN (wr_Host req) (wr_Command req) t (is_Serial issued) "forwarded" false "" ""
      (rule_of (is_Decision issued)) (warning_of (is_Decision issued)) [] NoCErr in
  match is_Certificate issued with
  | Some cert =>
      auditE (entry (targetType (wr_TargetType req))) ;;;
      Ret (CSigned (mkWireResponse (Some cert) (is_Serial issued) "" 0 (is_ElevationPrefix issued) (is_Decision issued) ""))
  | None =>
      if negb (bool_decide (is_K8sToken issued = "")) then
        auditE (entry TargetTypeK8s) ;;;
        Ret (CSigned (mkWireResponse None (is_Serial issued) (is_K8sToken issued) (is_K8sTokenExpiry issued) ""
                        (is_Decision issued) ""))
      else match is_Decision issued with
      | Some di => if di_RequireApproval di then requireApproval p brokerCN req (di_MatchedRule di) [] else Ret (CError 502)
      | None => Ret (CError 502)
      end
  end.

(** [None] lets the request proceed. *)
Definition checkBehaviorGuardrails (brokerCN : string) (req : WireRequest) : cprog (option cp_response) :=
  c <- ccall_ (CCheck (guardrailSubject p brokerCN (wr_EndUser req)) (wr_Host req) (wr_Command req)) ;;
  let '(anomalies, exceeded) := c in
  if negb (Enforcing (NewBehaviorTracker (cs_Behavior p))) then
    if negb (bool_decide (anomalies = [])) || exceeded
    then auditE (req_entry brokerCN req "anomaly" false anomalies NoCErr) ;;; Ret None
    else Ret None
  else if (exceeded : bool) then
    auditE (req_entry brokerCN req "rate-limited" false [ARateExceeded] NoCErr) ;;; Ret (Some (CError 429))
  else if bool_decide (anomalies = []) then Ret None
  else match intentFrom req brokerCN false with
  | None => Ret (Some (CError 400))
  | Some din =>
      r <- ccall_ (CSign (set_dry_run din)) ;;
      match r with
      | Err e =>
          match relaySignerRateLimit e with
          | Some resp => Ret (Some resp)
          | None =>
              if is_unavailable e
              then auditE (req_entry brokerCN req "error" false anomalies (CRemote e)) ;;; Ret (Some (CError 502))
              else auditE (req_entry brokerCN req "denied" false anomalies (CRemote e)) ;;; Ret (Some (CError 403))
          end
      | Ok d =>
          if match is_Decision d with Some di => di_Allowed di | None => false end
          then resp <- requireApproval p brokerCN req RuleBehavior anomalies ;; Ret (Some resp)
          else auditE (req_entry brokerCN req "denied" false anomalies NoCErr) ;;; Ret (Some (CError 403))
      end
  end.

Definition behavior_enabled : bool := Enabled (NewBehaviorTracker (cs_Behavior p)).

Definition handleSign (r : http_request WireRequest) : cprog cp_response :=
  match signCaller p r with
  | Err resp => Ret resp
  | Ok brokerCN =>
  match rq_body r with
  | None => Ret (CError 400)
  | Some req =>
  if wr_DryRun req && negb (wr_Preflight req) then dry_run_forward brokerCN req
  else
    g <- (if behavior_enabled then checkBehaviorGuardrails brokerCN req else Ret None) ;;
    match g with
    | Some resp => Ret resp
    | None =>
    if wr_DryRun req then dry_run_forward brokerCN req
    else match intentFrom req brokerCN false with
    | None => Ret (CError 400)
    | Some i =>
        r <- ccall_ (CSign i) ;;
        match r with
        | Err e =>
            match relaySignerRateLimit e with
            | Some resp => Ret resp
            | None =>
                if is_unavailable e
                then auditE (req_entry brokerCN req "error" false [] (CRemote e)) ;;; Ret (CError 502)
                else auditE (req_entry brokerCN req "denied" false [] (CRemote e)) ;;; Ret (CError 403)
            end
        | Ok issued => forwardSignResult brokerCN req issued
        end
    end end
  end end.

(** ** Collecting an approved request *)

Definition learnBehaviorApproval (a : Approval) (req : WireRequest) : cprog unit :=
  if bool_decide (ap_Rule a ≠ RuleBehavior) || negb behavior_enabled then Ret tt
  else ccall_ (CLearn (guardrailSubject p (ap_Caller a) (wr_EndUser req)) (wr_Host req) (wr_Command req)).

(** The grant of a usable result: [consumeOK] and the response. *)
Definition grant_result (a : Approval) (req : WireRequest) (tt_ : string) (serial : Z) (w : WireResponse) :
    cprog (bool * cp_response) :=
  learnBehaviorApproval a req ;;;
  g <- auditGate p (ap_entry a tt_ serial "approval-granted" (ap_DecidedBy a) NoCErr) ;;
  Ret (match g with Some resp => (false, resp) | None => (true, CSigned w) end).

(** The body between the claim and its completion. *)
Definition collect (a : Approval) (id : string) : cprog (bool * cp_response) :=
  rq <- ccall_ (CRequest id) ;;
  let req := default zero_request rq in
  let failed (tt_ : string) (why : string) :=
    auditE (ap_entry a tt_ 0 "error" "" (CText why)) ;;; Ret (false, CError 502) in
  match intentFrom req (ap_Caller a) true with
  | None => Ret (false, CError 400)
  | Some i =>
      r <- ccall_ (CSign (with_learn a i)) ;;
      match r with
      | Err e =>
          match relaySignerRateLimit e with
          | Some resp => Ret (false, resp)
          | None =>
              if is_unavailable e
              then auditE (ap_entry a (ap_TargetType a) 0 "error" "" (CRemote e)) ;;; Ret (false, CError 502)
              else auditE (ap_entry a (ap_TargetType a) 0 "denied" (ap_DecidedBy a) (CRemote e)) ;;; Ret (false, CError 403)
          end
      | Ok issued =>
          if wr_DryRun req then
            if bool_decide (is_Decision issued = None) then failed (ap_TargetType a) "signer response missing decision"
            else grant_result a req (ap_TargetType a) 0 (wire_decision (is_Decision issued) (is_Envelope issued))
          else if bool_decide (wr_TargetType req = TargetTypeK8s) then
            if bool_decide (is_K8sToken issued = "") then failed TargetTypeK8s "signer response missing token"
            else grant_result a req TargetTypeK8s (is_Serial issued)
                   (mkWireResponse None (is_Serial issued) (is_K8sToken issued) (is_K8sTokenExpiry issued) ""
                      (is_Decision issued) "")
          else match is_Certificate issued with
          | None => failed (ap_TargetType a) "signer response missing certificate"
          | Some cert =>
              grant_result a req (ap_TargetType a) (is_Serial issued)
                (mkWireResponse (Some cert) (is_Serial issued) "" 0 (is_ElevationPrefix issued) (is_Decision issued) "")
          end
      end
  end.

Definition handleResult (r : http_request unit) : cprog cp_response :=
  match signCaller p r with
  | Err resp => Ret resp
  | Ok pollerCN =>
      let id := rq_id r in
      g <- ccall_ (CGet id) ;;
      match g with
      | None => Ret (CError 404)
      | Some a =>
          if bool_decide (ap_Caller a ≠ pollerCN) then Ret (CError 403)
          else match ap_Status a with
          | StatusPending => Ret (CWaiting "pending")
          | StatusDenied =>
              first_ <- ccall_ (CReport id) ;;
              (if first_ : bool then auditE (ap_entry a (ap_TargetType a) 0 "approval-denied" (ap_DecidedBy a) NoCErr) else Ret tt) ;;;
              Ret (CError 403)
          | StatusExpired =>
              first_ <- ccall_ (CReport id) ;;
              (if first_ : bool then auditE (ap_entry a (ap_TargetType a) 0 "approval-timeout" "" NoCErr) else Ret tt) ;;;
              Ret (CError 408)
          | StatusApproved =>
              b <- ccall_ (CBegin id) ;;
              let '(started, retry) := b in
              if negb started then Ret (if retry : bool then CWaiting "issuing" else CError 410)
              else
                res <- collect a id ;;
                ccall_ (CFinish id res.1) ;;;
                Ret res.2
          end
      end
  end.

(** ** Listings *)

Definition wire_of_host (h : HostInfo) : WireHostInfo :=
  mkWireHostInfo (hi_Addr h) (hi_User h) (hi_HostKey h) (hi_Jump h) (hi_AllowSudo h) (hi_AllowPTY h) (hi_AllowFileTransfer h)
    (hi_Groups h).
Definition wire_of_cluster (c : ClusterInfo) : WireClusterInfo :=
  mkWireClusterInfo (ci_APIServer c) (ci_CACertPEM c) (ci_Groups c) (ci_ExtraResources c).

Definition handleHosts (r : http_request unit) : cprog cp_response :=
  match signCaller p r with
  | Err resp => Ret resp
  | Ok brokerCN =>
      h <- ccall_ (CFetchHosts brokerCN) ;;
      Ret (match h with Err _ => CError 502 | Ok hosts => CHosts (wire_of_host <$> hosts) end)
  end.
Definition handleClusters (r : http_request unit) : cprog cp_response :=
  match signCaller p r with
  | Err resp => Ret resp
  | Ok brokerCN =>
      h <- ccall_ (CFetchClusters brokerCN) ;;
      Ret (match h with Err _ => CError 502 | Ok clusters => CClusters (wire_of_cluster <$> clusters) end)
  end.

(** ** Approvers *)

Definition handleApprovalsList (r : http_request unit) : cprog cp_response :=
  match approver p r with
  | None => Ret (CError 403)
  | Some _ => l <- ccall_ CList ;; Ret (CApprovals l)
  end.

Definition json_content_type (ct : string) : bool :=
  bool_decide (ct = "application/json") || String.prefix "application/json;" ct.

(** [None] is a learn without a duration. *)
Definition decide_ttl (b : decideReq) : option duration :=
  if db_Approve b && db_Learn b
  then if db_TTLSeconds b <=? 0 then None else Some (wrap64 (db_TTLSeconds b * Second))
  else Some 0.

Definition decide_outcome (b : decideReq) (learnTTL : duration) : string :=
  if db_Approve b then if 0 <? learnTTL then "approval-decision-allow-learn" else "approval-decision-allow" else "approval-denied".

(** The four-eyes guard: the request, when its originator is the approver. *)
Definition own_request (cn : string) (g : option Approval) : option Approval :=
  match g with Some a => if bool_decide (ap_Caller a = cn) then Some a else None | None => None end.

Definition handleApprovalDecide (contentType : string) (r : http_request decideReq) : cprog cp_response :=
  match approver p r with
  | None => Ret (CError 403)
  | Some cn =>
  if negb (json_content_type contentType) then Ret (CError 415)
  else
  let id := rq_id r in
  match rq_body r with
  | None => Ret (CError 400)
  | Some body =>
  match decide_ttl body with
  | None => Ret (CError 400)
  | Some learnTTL =>
  g <- ccall_ (CGet id) ;;
  match own_request cn g with
  | Some a => auditE (ap_entry a (ap_TargetType a) 0 "self-approval-rejected" cn NoCErr) ;;; Ret (CError 403)
  | None =>
  d <- ccall_ (CDecide id (db_Approve body) cn learnTTL) ;;
  match d with
  | Err (ErrLearnUnattributable a) =>
      auditE (ap_entry a (ap_TargetType a) 0 "approval-learn-refused" cn
                (CText "end_user stripped (broker not a trusted forwarder)")) ;;;
      Ret (CError 400)
  | Err _ => Ret (CError 409)
  | Ok a =>
      let e := ap_entry a (ap_TargetType a) 0 (decide_outcome body learnTTL) cn NoCErr in
      if db_Approve body
      then g <- auditGate p e ;; Ret (match g with Some resp => resp | None => CApproval a end)
      else auditE e ;;; Ret (CApproval a)
  end end end end end.

(** ** The pages of the approval UI *)

Definition ui_before (a b : Approval) : bool :=
  let pa := bool_decide (ap_Status a = StatusPending) in
  let pb := bool_decide (ap_Status b = StatusPending) in
  if negb (Bool.eqb pa pb) then pa else ap_CreatedAt b <? ap_CreatedAt a.

Definition handleUIList (r : http_request unit) : cprog cp_response :=
  match approver p r with
  | None => Ret (CError 403)
  | Some _ => l <- ccall_ CList ;; Ret (CApprovals (sort_Slice ui_before l))
  end.

Definition handleUIDetail (r : http_request unit) : cprog cp_response :=
  match approver p r with
  | None => Ret (CError 403)
  | Some _ =>
      g <- ccall_ (CGet (rq_id r)) ;;
      Ret (match g with
           | None => CError 404
           | Some a => CDetailPage a (bool_decide (ap_Status a = StatusPending))
           end)
  end.
End handlers.

(** ** The running control plane *)

(** The state the handlers share. Of it, [cp_ops] is the history of registry
    operations, [cp_holder] says which thread holds a claim, [cp_named] are the
    ids drawn or named in a request so far, [cp_decided] the approvals granted
    with who granted them, and [cp_sent] what was sent to the signer. *)
Record cplane := mkCPlane {
  cp_reg : reg_state;
  cp_ops : list reg_op;
  cp_tracker : BehaviorTracker;
  cp_log : list crecord;
  cp_holder : gmap string nat;
  cp_named : gset string;
  cp_decided : list (string * Approval);
  cp_sent : list Intent;
}.

Definition set_cp_log (l : list crecord) (s : cplane) : cplane :=
  mkCPlane (cp_reg s) (cp_ops s) (cp_tracker s) l (cp_holder s) (cp_named s) (cp_decided s) (cp_sent s).
Definition set_cp_tracker (t : BehaviorTracker) (s : cplane) : cplane :=
  mkCPlane (cp_reg s) (cp_ops s) t (cp_log s) (cp_holder s) (cp_named s) (cp_decided s) (cp_sent s).
Definition set_cp_holder (h : gmap string nat) (s : cplane) : cplane :=
  mkCPlane (cp_reg s) (cp_ops s) (cp_tracker s) (cp_log s) h (cp_named s) (cp_decided s) (cp_sent s).
Definition add_decided (d : list (string * Approval)) (s : cplane) : cplane :=
  mkCPlane (cp_reg s) (cp_ops s) (cp_tracker s) (cp_log s) (cp_holder s) (cp_named s) (cp_decided s ++ d) (cp_sent s).
Definition add_sent (i : Intent) (s : cplane) : cplane :=
  mkCPlane (cp_reg s) (cp_ops s) (cp_tracker s) (cp_log s) (cp_holder s) (cp_named s) (cp_decided s) (cp_sent s ++ [i]).

Definition cp_items (s : cplane) : gmap string Approval := rg_items (gs_reg (cp_reg s)).

Section semantics.
Context `{WJ : WireJSON}.

(** One registry operation on the id [id], if it names one. *)
Definition reg_apply (op : reg_op) (named : gset string) (s : cplane) : cplane :=
  mkCPlane (reg_next (cp_reg s) op) (cp_ops s ++ [op]) (cp_tracker s) (cp_log s) (cp_holder s) (named ∪ cp_named s)
    (cp_decided s) (cp_sent s).

Definition later (s : cplane) (now : time) : Prop := gs_clock (cp_reg s) ≤ now.

(** [cp_sem t c s x s']: thread [t] makes the call [c]. The clock does not go back;
    a drawn id is one nobody has named before; statements of the database and
    appends to the log can fail; the signer answers anything. *)
Definition cp_sem (t : nat) (X : Type) (c : ccall X) : cplane → X → cplane → Prop :=
  match c with
  | CCheck subject host command => fun s x s' => ∃ (iter : range_order subjectState) now tr, RangeOrder iter ∧
      Check iter (cp_tracker s) now subject host command = (tr, x) ∧ s' = set_cp_tracker tr s
  | CLearn subject host command => fun s _ s' => ∃ (iter : range_order subjectState) now, RangeOrder iter ∧
      s' = set_cp_tracker (Learn iter (cp_tracker s) now subject host command) s
  | CSign i => fun s _ s' => s' = add_sent i s
  | CFetchHosts _ | CFetchClusters _ | CNotify _ | CNewID => fun s _ s' => s' = s
  | CAppend e => fun s x s' =>
      if x then s' = set_cp_log (cp_log s ++ [e]) s else s' = s ∨ s' = set_cp_log (cp_log s ++ [e]) s
  | CPurge => fun s _ s' => ∃ dbok now, later s now ∧ s' = reg_apply (RPurge dbok now) ∅ s
  | CInsert req caller rule stripped => fun s x s' => ∃ insok now id, later s now ∧ (id ∉ cp_named s) ∧
      x = (insert_approval insok now (gs_reg (cp_reg s)) id req caller rule stripped).1 ∧
      s' = reg_apply (RInsert insok now id req caller rule stripped) {[id]} s
  | CGet id => fun s x s' => ∃ now, later s now ∧ x = (Get now (gs_reg (cp_reg s)) id).1 ∧ s' = reg_apply (RGet now id) {[id]} s
  | CDecide id approve by_ learn => fun s x s' => ∃ dbok now, later s now ∧
      x = (rg_Decide dbok now (gs_reg (cp_reg s)) id approve by_ learn).1 ∧
      s' = add_decided (match x with Ok a => if approve then [(by_, a)] else [] | Err _ => [] end)
             (reg_apply (RDecide dbok now id approve by_ learn) {[id]} s)
  | CBegin id => fun s x s' => ∃ now, later s now ∧ x = (BeginConsume now (gs_reg (cp_reg s)) id).1 ∧
      s' = (let s1 := reg_apply (RBegin now id) {[id]} s in
            if x.1 then set_cp_holder (<[id := t]> (cp_holder s)) s1 else s1)
  | CFinish id success => fun s _ s' => ∃ dbok,
      s' = set_cp_holder (delete id (cp_holder s)) (reg_apply (RFinish dbok id success) {[id]} s)
  | CRequest id => fun s x s' => x = Request (gs_reg (cp_reg s)) id ∧ s' = s
  | CReport id => fun s x s' => ∃ now, later s now ∧ x = (ReportResultOnce now (gs_reg (cp_reg s)) id).1 ∧
      s' = reg_apply (RReport now id) {[id]} s
  | CList => fun s x s' => ∃ (iter : range_order Approval) dbok now, RangeOrder iter ∧ later s now ∧
      x = (rg_List iter dbok now (gs_reg (cp_reg s))).1 ∧ s' = reg_apply (RList dbok now) ∅ s
  end.

(** A control plane that has just started, without restored approvals. *)
Definition cp_init (ttl : duration) (db : bool) (cfg : BehaviorConfig) : cplane :=
  mkCPlane (reg_init ttl db) [] (NewBehaviorTracker cfg) [] ∅ ∅ [] [].
End semantics.
