(* ===== verification/ControlPlaneInv.v ===== *)
(** * Four eyes, under concurrency

    Signing requests, polls, decisions, listings and pages of the control plane
    run concurrently on one approval registry. In every interleaving the registry
    is only driven the way its own theorems assume (fresh ids, claims completed by
    their holder); an approved request was approved by an authorised approver who
    is not its originator; and what is sent to the signer as approved is the
    stored request, on behalf of its originator, with the learn intent of the
    recorded decision. *)

From S2P Require Import Prelude GoStrings CmdPolicy PolicySet K8sAction Intent Freeze Grants CA Encoding Elevate Crypto Sealed HostPolicy K8sPolicy Signer RateLimit Approval Behavior Broker OAuth ServiceConfig Prog Threads Service Remote ControlPlane.

(** Programs that make only calls other threads do not notice. *)
Create HintDb cpcalm.

(** ** The registry *)

Section registry.
Context `{WJ : WireJSON}.

(** Where an entry comes from. *)
Record changed (r : Registry) (op : reg_op) (id : string) (a a' : Approval) : Prop := {
  ch_evolves : evolves a a';
  ch_approved : ap_Status a' = StatusApproved → ap_Status a = StatusApproved ∨
    ∃ d now by_ l, op = RDecide d now id true by_ l ∧ (rg_Decide d now r id true by_ l).1 = Ok a';
  ch_issuing : ap_issuing a' = ap_issuing a ∨ (∃ now, op = RBegin now id) ∨ (∃ d b, op = RFinish d id b);
}.

Definition drawn_in (op : reg_op) (id : string) (a : Approval) : Prop :=
  ∃ insok now req caller rule stripped, op = RInsert insok now id req caller rule stripped ∧
    a = new_approval id req caller rule stripped now.

Lemma changed_quiet r op id a a' : evolves a a' → quiet a a' → changed r op id a a'.
Proof. intros He [Hq1 Hq2 Hq3 Hq4]. split; [done|intros; left; auto|by left]. Qed.

Lemma quiet_flags a c : quiet a (set_flags (ap_consumed a) (ap_issuing a) c a).
Proof. by split. Qed.

(** An operation touches one entry at most, the purge and the listing apart. *)
Lemma run_reg_from r op id a' :
  (∀ now, op ≠ RRestart now) → rg_items (run_reg r op) !! id = Some a' →
  (∃ a, rg_items r !! id = Some a ∧ (evolves a a' → changed r op id a a')) ∨ drawn_in op id a'.
Proof.
  intros Hnr Ha'.
  assert (Hsame : rg_items r !! id = Some a' → (∃ a, rg_items r !! id = Some a ∧ (evolves a a' → changed r op id a a')) ∨ drawn_in op id a').
  { intros H. left. exists a'. split; [done|]. intros ?. apply changed_quiet; [done|apply quiet_refl]. }
  assert (Hins : ∀ k a b, rg_items r !! k = Some a → (k = id → b = a' → evolves a a' → changed r op id a a') →
    <[k := b]> (rg_items r) !! id = Some a' →
    (∃ a, rg_items r !! id = Some a ∧ (evolves a a' → changed r op id a a')) ∨ drawn_in op id a').
  { intros k a b Hk Hb [[-> ->]|[_ H]]%lookup_insert_Some; [|auto]. left. exists a. split; [done|]. intros ?. by apply Hb. }
  assert (Hx : ∀ k a now, rg_items r !! k = Some a → <[k := expireLocked (rg_ttl r) now a]> (rg_items r) !! id = Some a' →
    (∃ a, rg_items r !! id = Some a ∧ (evolves a a' → changed r op id a a')) ∨ drawn_in op id a').
  { intros k a now Hk. apply (Hins k a); [done|]. intros -> <- ?. apply changed_quiet; [done|apply expireLocked_quiet]. }
  destruct op; cbn [run_reg] in Ha'.
  - apply map_lookup_filter_Some in Ha' as [? _]. auto.
  - revert Ha'. unfold insert_approval. repeat case_match; cbn; auto; intros [[-> <-]|[_ ?]]%lookup_insert_Some; auto; right; eexists _, _, _, _, _, _; eauto.
  - revert Ha'. unfold Get. case_match eqn:Hk; cbn; [|auto]. by apply Hx.
  - revert Ha'. unfold rg_Decide at 1. destruct (rg_items r !! id0) as [a0|] eqn:Hk; cbn; [|auto].
    case_bool_decide as Hp; [by apply Hx|]. case_match eqn:Hl; [by apply Hx|]. cbn. rewrite insert_insert_eq.
    apply (Hins _ a0); [done|]. intros -> <- He. split; [done| |left; apply (q_issuing _ _ (expireLocked_quiet (rg_ttl r) now a0))].
    intros Hs. destruct approve; [|done]. right. exists dbok, now, by_, learn. split; [done|].
    unfold rg_Decide. rewrite Hk. cbn. rewrite bool_decide_eq_false_2 by (intros Hn; by apply Hn). cbn in Hl. by rewrite Hl.
  - revert Ha'. unfold BeginConsume. destruct (rg_items r !! id0) as [a0|] eqn:Hk; cbn; [|auto].
    repeat case_match; cbn; rewrite ?insert_insert_eq; [by apply Hx..|]. apply (Hins _ a0); [done|].
    intros -> <- He. split; [done| |eauto]. intros Hs. left. apply (q_approved _ _ (expireLocked_quiet (rg_ttl r) now a0)). exact Hs.
  - revert Ha'. unfold FinishConsume. destruct (rg_items r !! id0) as [a0|] eqn:Hk; cbn; [|auto].
    destruct success; cbn; (apply (Hins _ a0); [done|]); intros -> <- He; (split; [done|by left|eauto]).
  - revert Ha'. unfold ReportResultOnce. destruct (rg_items r !! id0) as [a0|] eqn:Hk; cbn; [|auto].
    repeat case_match; cbn; rewrite ?insert_insert_eq; [by apply Hx..|]. apply (Hins _ a0); [done|].
    intros -> <- He. apply changed_quiet; [done|]. destruct (expireLocked_quiet (rg_ttl r) now a0). by split.
  - revert Ha'. cbn. rewrite lookup_fmap_Some. intros (b & <- & [Hb _]%map_lookup_filter_Some).
    left. exists b. split; [done|]. intros ?. apply changed_quiet; [done|apply expireLocked_quiet].
  - by destruct (Hnr now).
Qed.

Lemma run_reg_changed r op id a' :
  (∀ now, op ≠ RRestart now) →
  match op with RInsert _ _ id' _ _ _ _ => rg_items r !! id' = None | _ => True end →
  rg_items (run_reg r op) !! id = Some a' →
  (∃ a, rg_items r !! id = Some a ∧ changed r op id a a') ∨ drawn_in op id a'.
Proof.
  intros Hnr Hin Ha'. destruct (run_reg_from r op id a' Hnr Ha') as [(a & Ha & Hc)|?]; [|by right].
  left. exists a. split; [done|]. apply Hc. eapply run_reg_evolves; [|done|done].
  destruct op; try done; [|by eapply Hnr]. intros ->. congruence.
Qed.

(** A claim in flight is not taken away. *)
Lemma Begin_claimed now r id a a' :
  rg_items r !! id = Some a → ap_issuing a = true → rg_items (BeginConsume now r id).2 !! id = Some a' → ap_issuing a' = true.
Proof.
  intros Ha Hi. unfold BeginConsume. rewrite Ha. cbn. destruct (expireLocked_quiet (rg_ttl r) now a) as [Hq _ _ _].
  rewrite Hi in Hq. rewrite Hq. destruct (_ || _); cbn; rewrite lookup_insert_eq; by intros [= <-].
Qed.

(** A new claim is on an approved request that nobody holds. *)
Lemma Begin_started now r id :
  (BeginConsume now r id).1.1 = true →
  ∃ a a', rg_items r !! id = Some a ∧ ap_issuing a = false ∧ rg_items (BeginConsume now r id).2 !! id = Some a' ∧ ap_issuing a' = true.
Proof.
  unfold BeginConsume. destruct (rg_items r !! id) as [a|] eqn:Ha; [|done]. cbn. destruct (_ || _); [done|].
  destruct (ap_issuing (expireLocked _ _ _)) eqn:Hi; [done|]. intros _. cbn. exists a. eexists.
  rewrite lookup_insert_eq. split_and!; [done| |done|done].
  by rewrite (q_issuing _ _ (expireLocked_quiet (rg_ttl r) now a)) in Hi.
Qed.

(** A decision that stands. *)
Lemma rg_Decide_Ok d now r id by_ l a :
  (rg_Decide d now r id true by_ l).1 = Ok a →
  ap_DecidedBy a = by_ ∧ ap_Status a = StatusApproved ∧
  ∃ a0, rg_items r !! id = Some a0 ∧ ap_Caller a = ap_Caller a0 ∧ ap_req a = ap_req a0.
Proof.
  unfold rg_Decide. destruct (rg_items r !! id) as [a0|] eqn:Hk; [|done]. cbn. case_bool_decide as Hs; [done|].
  case_match; [done|]. intros [= <-]. cbn. split_and!; [done|done|]. exists a0. split; [done|].
  destruct (expireLocked_evolves (rg_ttl r) now a0) as [Hf _ _ _ _]. injection Hf. auto.
Qed.
End registry.

(** ** The invariant *)

Section control_plane.
Context `{WJ : WireJSON}.
Context (ParsePublicKey : string → option string) (p : cp_params) (ttl : duration) (db : bool).

(** An approval granted by [cn], and an entry of the registry granted so. *)
Record decided_ok (cn : string) (a : Approval) : Prop := {
  do_authorised : cn ∈ cs_approveCN p;
  do_four_eyes : cn ≠ ap_Caller a;
  do_recorded : ap_DecidedBy a = cn;
  do_status : ap_Status a = StatusApproved;
  do_stripped : ap_Caller a ∉ cs_forwarders p → wr_EndUser (ap_req a) = "";
}.
Definition same_grant (d a : Approval) : Prop :=
  (ap_ID d, ap_Caller d, ap_req d, ap_DecidedBy d, ap_LearnTTL d) = (ap_ID a, ap_Caller a, ap_req a, ap_DecidedBy a, ap_LearnTTL a).

(** The approved intent of a grant. *)
Definition forwards (a : Approval) (i : Intent) : Prop :=
  ∃ i0, intentFrom ParsePublicKey (ap_req a) (ap_Caller a) true = Some i0 ∧ i = with_learn a i0.

Record base_inv (s : cplane) : Prop := {
  bi_run : reg_run (reg_init ttl db) (cp_ops s) (cp_reg s);
  bi_created : gs_created (cp_reg s) ⊆ cp_named s;
  bi_items : ∀ id a, cp_items s !! id = Some a → id ∈ cp_named s;
  bi_decided : ∀ cn a, (cn, a) ∈ cp_decided s → decided_ok cn a;
  bi_approved : ∀ id a, cp_items s !! id = Some a → ap_Status a = StatusApproved →
    ∃ d, (ap_DecidedBy a, d) ∈ cp_decided s ∧ same_grant d a;
  bi_sent : ∀ i, i ∈ cp_sent s → in_Approved i = true → ∃ cn a, (cn, a) ∈ cp_decided s ∧ forwards a i;
  bi_stripped : ∀ id a, cp_items s !! id = Some a → ap_Caller a ∉ cs_forwarders p → wr_EndUser (ap_req a) = "";
}.
Definition holder_inv (s : cplane) : Prop := ∀ id u, cp_holder s !! id = Some u →
  id ∈ gs_claims (cp_reg s) ∧ id ∈ cp_named s ∧ ∀ a, cp_items s !! id = Some a → ap_issuing a = true.
Definition cp_inv (s : cplane) : Prop := base_inv s ∧ holder_inv s.

(** What any step keeps, and the guarantee of a thread. *)
Record grows (s s' : cplane) : Prop := {
  gw_named : cp_named s ⊆ cp_named s';
  gw_decided : ∀ x, x ∈ cp_decided s → x ∈ cp_decided s';
  gw_items : ∀ id a', id ∈ cp_named s → cp_items s' !! id = Some a' → ∃ a, cp_items s !! id = Some a ∧ evolves a a';
}.
Definition cp_guar (t : nat) (s s' : cplane) : Prop :=
  grows s s' ∧ ∀ id u, u ≠ t → cp_holder s !! id = Some u → cp_holder s' !! id = Some u.

Lemma grows_same s s' : cp_named s' = cp_named s → cp_decided s' = cp_decided s → cp_items s' = cp_items s → grows s s'.
Proof. intros H1 H2 H3. split; rewrite ?H1, ?H2, ?H3; [done|done|]. intros id a' _ Ha. exists a'. split; [done|apply evolves_refl]. Qed.

(** *** Steps of the registry *)

Definition op_fresh (s : cplane) (n : gset string) (op : reg_op) : Prop :=
  match op with
  | RInsert _ _ id req caller _ _ => id ∈ n ∧ (id ∉ cp_named s) ∧ (caller ∉ cs_forwarders p → wr_EndUser req = "")
  | RRestart _ => False
  | _ => True
  end.

Lemma reg_apply_items op n s id a' :
  base_inv s → op_fresh s n op → cp_items (reg_apply op n s) !! id = Some a' →
  (∃ a, cp_items s !! id = Some a ∧ changed (gs_reg (cp_reg s)) op id a a') ∨ drawn_in op id a'.
Proof.
  intros Hb Hf Ha'. apply run_reg_changed; [by intros now ->| |done]. destruct op; try done. destruct Hf as (_ & Hn & _).
  destruct (rg_items _ !! id0) eqn:E; [|done]. by apply (bi_items _ Hb) in E.
Qed.

Lemma drawn_facts n s op id a :
  op_fresh s n op → drawn_in op id a →
  id ∈ n ∧ (id ∉ cp_named s) ∧ ap_Status a = StatusPending ∧ (ap_Caller a ∉ cs_forwarders p → wr_EndUser (ap_req a) = "").
Proof. intros Hf (? & ? & ? & ? & ? & ? & -> & ->). destruct Hf as (? & ? & ?). done. Qed.

Lemma grows_apply op n ds s : base_inv s → op_fresh s n op → grows s (add_decided ds (reg_apply op n s)).
Proof.
  intros Hb Hf. split; simpl; [set_solver|intros x ?; apply elem_of_app; by left|]. intros id a' Hid Ha'.
  destruct (reg_apply_items op n s id a' Hb Hf Ha') as [(a & Ha & Hc)|Hd]; [exists a; split; [done|apply Hc]|].
  by destruct (drawn_facts _ _ _ _ _ Hf Hd) as (_ & ? & _).
Qed.

Lemma evolves_grant a a' : evolves a a' → ap_Status a = StatusApproved → same_grant a a'.
Proof. intros [Hf _ _ _ Hd] Hs. rewrite Hs in Hd. specialize (Hd ltac:(done)). unfold same_grant. congruence. Qed.

Lemma evolves_fixed a a' : evolves a a' → ap_Caller a' = ap_Caller a ∧ ap_req a' = ap_req a.
Proof. intros [Hf _ _ _ _]. split; congruence. Qed.

Lemma base_apply op n ds s :
  base_inv s → op_allowed (cp_reg s) op → op_fresh s n op →
  (∀ cn a, (cn, a) ∈ ds → decided_ok cn a) →
  (∀ d now id by_ l a, op = RDecide d now id true by_ l →
     (rg_Decide d now (gs_reg (cp_reg s)) id true by_ l).1 = Ok a → (by_, a) ∈ ds) →
  base_inv (add_decided ds (reg_apply op n s)).
Proof.
  intros Hb Hal Hf Hds Hdec. pose proof Hb as [H1 H2 H3 H4 H5 H6 H7].
  assert (Hin : ∀ cn a, (cn, a) ∈ cp_decided s → (cn, a) ∈ cp_decided s ++ ds) by (intros; apply elem_of_app; by left).
  split.
  - simpl. by apply run_snoc.
  - simpl. destruct op; simpl; set_solver.
  - intros id a' Ha'. simpl. destruct (reg_apply_items op n s id a' Hb Hf Ha') as [(a & Ha & _)|Hd].
    + apply H3 in Ha. set_solver.
    + destruct (drawn_facts _ _ _ _ _ Hf Hd) as (? & _). set_solver.
  - intros cn a [?|?]%elem_of_app; auto.
  - intros id a' Ha' Hs. simpl. destruct (reg_apply_items op n s id a' Hb Hf Ha') as [(a & Ha & [He Hap _])|Hd].
    + destruct (Hap Hs) as [Hsa|(d & now & by_ & l & -> & Hd)].
      * destruct (H5 id a Ha Hsa) as (g & Hg & Hsg). pose proof (evolves_grant _ _ He Hsa) as Hg2. exists g.
        unfold same_grant in *. split; [|congruence]. replace (ap_DecidedBy a') with (ap_DecidedBy a) by congruence. auto.
      * destruct (rg_Decide_Ok _ _ _ _ _ _ _ Hd) as (-> & _). exists a'. split; [|done]. apply elem_of_app. right. by eapply Hdec.
    + destruct (drawn_facts _ _ _ _ _ Hf Hd) as (_ & _ & Hp & _). congruence.
  - simpl. intros i Hi Happ. destruct (H6 i Hi Happ) as (cn & a & Hd & Hfw). exists cn, a. auto.
  - intros id a' Ha'. destruct (reg_apply_items op n s id a' Hb Hf Ha') as [(a & Ha & [He _ _])|Hd].
    + destruct (evolves_fixed _ _ He) as [-> ->]. by apply (H7 id).
    + by destruct (drawn_facts _ _ _ _ _ Hf Hd) as (_ & _ & _ & ?).
Qed.

(** Claims stay with their holder across an operation that neither claims nor
    completes. *)
Lemma holder_apply op n ds s :
  base_inv s → op_fresh s n op → holder_inv s →
  match op with RBegin now id => (BeginConsume now (gs_reg (cp_reg s)) id).1.1 = false | RFinish _ _ _ => False | _ => True end →
  holder_inv (add_decided ds (reg_apply op n s)).
Proof.
  intros Hb Hf Hh Hop id u Hu. destruct (Hh id u Hu) as (Hc & Hn & Hi). split_and!; simpl; [|set_solver|].
  { destruct op; simpl; try done. destruct (_ : bool); set_solver. }
  intros a' Ha'. destruct (reg_apply_items op n s id a' Hb Hf Ha') as [(a & Ha & [_ _ Hiss])|Hd].
  - specialize (Hi a Ha). destruct Hiss as [->|[[now ->]|(d & b & ->)]]; [done| |done].
    by apply (Begin_claimed now (gs_reg (cp_reg s)) id a).
  - by destruct (drawn_facts _ _ _ _ _ Hf Hd) as (_ & ? & _).
Qed.

Lemma add_decided_nil s : add_decided [] s = s.
Proof. destruct s. unfold add_decided. simpl. by rewrite app_nil_r. Qed.

Lemma calm_apply op n s :
  cp_inv s → op_allowed (cp_reg s) op → op_fresh s n op →
  match op with
  | RBegin now id => (BeginConsume now (gs_reg (cp_reg s)) id).1.1 = false
  | RFinish _ _ _ | RDecide _ _ _ true _ _ => False
  | _ => True
  end → cp_inv (reg_apply op n s) ∧ ∀ u, cp_guar u s (reg_apply op n s).
Proof.
  intros [Hb Hh] Hal Hf Hop. rewrite <-(add_decided_nil (reg_apply op n s)). split; [split|].
  - apply base_apply; try done; [by intros ? ? ?%not_elem_of_nil|]. by intros d now id by_ l a ->.
  - apply holder_apply; try done. by destruct op.
  - intros u. split; [by apply grows_apply|]. done.
Qed.

(** *** Calls *)

Definition cp_calm (X : Type) (c : ccall X) : Prop :=
  match c with
  | CSign i => in_Approved i = false
  | CInsert req caller _ _ => caller ∉ cs_forwarders p → wr_EndUser req = ""
  | CDecide _ approve _ _ => approve = false
  | CBegin _ | CFinish _ _ => False
  | _ => True
  end.

(** A change of the log or the tracker. *)
Lemma inv_quiet_fields s s' :
  cp_reg s' = cp_reg s → cp_ops s' = cp_ops s → cp_holder s' = cp_holder s → cp_named s' = cp_named s →
  cp_decided s' = cp_decided s → (∀ i, i ∈ cp_sent s' → in_Approved i = true → i ∈ cp_sent s) →
  cp_inv s → cp_inv s' ∧ ∀ u, cp_guar u s s'.
Proof.
  intros E1 E2 E3 E4 E5 E6 [[H1 H2 H3 H4 H5 H6 H7] Hh]. assert (cp_items s' = cp_items s) as E7 by (unfold cp_items; by rewrite E1).
  split; [split; [split|]|]; [| | | | | | |unfold holder_inv|]; rewrite ?E1, ?E2, ?E3, ?E4, ?E5, ?E7; try done; [eauto|].
  intros u. split; [by apply grows_same|]. by rewrite E3.
Qed.

Lemma cp_calm_ok X c : cp_calm X c → calm_call cp_sem cp_guar cp_inv X c.
Proof.
  intros Hc t s x s' HI Hs. destruct c; simpl in Hc, Hs; try done.
  - destruct Hs as (iter & now & tr & _ & _ & ->). by apply inv_quiet_fields.
  - destruct Hs as (iter & now & _ & ->). by apply inv_quiet_fields.
  - subst s'. apply inv_quiet_fields; try done. simpl. intros j [?|Hj]%elem_of_app Ha; [done|].
    apply list_elem_of_singleton in Hj. congruence.
  - subst s'. by apply inv_quiet_fields.
  - subst s'. by apply inv_quiet_fields.
  - destruct x; [|destruct Hs as [Hs|Hs]]; subst s'; by apply inv_quiet_fields.
  - subst s'. by apply inv_quiet_fields.
  - subst s'. by apply inv_quiet_fields.
  - destruct Hs as (dbok & now & Hl & ->). apply calm_apply; try done. split; [by intros ? [= <-]|done].
  - destruct Hs as (insok & now & id & Hl & Hn & _ & ->). apply calm_apply; try done; [|set_solver].
    split; [by intros ? [= <-]|]. intros Hid. apply Hn. by apply (bi_created _ (proj1 HI)).
  - destruct Hs as (now & Hl & _ & ->). apply calm_apply; try done. split; [by intros ? [= <-]|done].
  - destruct Hs as (dbok & now & Hl & -> & ->). subst approve.
    destruct (rg_Decide _ _ _ _ _ _ _).1; rewrite add_decided_nil; (apply calm_apply; try done; split; [by intros ? [= <-]|done]).
  - destruct Hs as (-> & ->). by apply inv_quiet_fields.
  - destruct Hs as (now & Hl & _ & ->). apply calm_apply; try done. split; [by intros ? [= <-]|done].
  - destruct Hs as (iter & dbok & now & _ & Hl & _ & ->). apply calm_apply; try done. split; [by intros ? [= <-]|done].
Qed.

#[local] Abbreviation rel := (rely cp_sem cp_guar cp_inv) (only parsing).
#[local] Abbreviation stab := (stable cp_guar) (only parsing).

Lemma rel_calm {A B : Type} t K (q : cprog A) (k : A → cprog B) Q :
  only cp_calm q → stab t K → (∀ a, rel t K (k a) Q) → rel t K (pbind q k) Q.
Proof. intros Ho. apply rely_calm_bind. eapply only_mono; [|exact Ho]. apply cp_calm_ok. Qed.
Lemma rel_done {A : Type} t K (q : cprog A) : only cp_calm q → stab t K → rel t K q (fun _ _ => True).
Proof. intros Ho HK. apply rely_calm; [|done|done]. eapply only_mono; [|exact Ho]. apply cp_calm_ok. Qed.

(** What a thread may know across the steps of others. *)
Lemma stable_True t : stab t (fun _ => True).
Proof. done. Qed.
Lemma stable_and t K1 K2 : stab t K1 → stab t K2 → stab t (fun s => K1 s ∧ K2 s).
Proof. intros H1 H2 u s s' Hu Hg [? ?]. split; eauto. Qed.

(** Facts about the entry of a named id that survive [evolves]. *)
Definition entry_fact (id : string) (F : Approval → Prop) (s : cplane) : Prop :=
  id ∈ cp_named s ∧ ∀ a, cp_items s !! id = Some a → F a.
Lemma stable_entry t id (F : Approval → Prop) : (∀ a a', evolves a a' → F a → F a') → stab t (entry_fact id F).
Proof.
  intros HF u s s' _ [[Hn _ Hi] _] [Hid Ha]. split; [set_solver|]. intros a' Ha'. destruct (Hi id a' Hid Ha') as (a & ? & ?). eauto.
Qed.
Lemma stable_decided t x : stab t (fun s => x ∈ cp_decided s).
Proof. intros u s s' _ [[_ Hd _] _]. apply Hd. Qed.
Lemma stable_holder t id : stab t (fun s => cp_holder s !! id = Some t).
Proof. intros u s s' Hu [_ Hh] H. by apply (Hh id t). Qed.

(** *** Steps that matter *)

Lemma decide_step t s x s' id cn learn :
  cn ∈ cs_approveCN p → cp_inv s → entry_fact id (fun a => ap_Caller a ≠ cn) s →
  cp_sem t _ (CDecide id true cn learn) s x s' → cp_guar t s s' ∧ cp_inv s' ∧ True.
Proof.
  intros Hcn [Hb Hh] [_ Hc] (dbok & now & Hl & -> & ->). set (op := RDecide dbok now id true cn learn).
  assert (op_allowed (cp_reg s) op) as Hal by (split; [by intros ? [= <-]|done]).
  split_and!; [split; [by apply grows_apply|done]|split|done]; [|by apply holder_apply].
  apply base_apply; try done.
  - destruct ((rg_Decide _ _ _ _ _ _ _).1) as [a|e] eqn:E; [|by intros ? ? ?%not_elem_of_nil].
    intros cn' a' Hin. apply list_elem_of_singleton in Hin. injection Hin as -> ->.
    destruct (rg_Decide_Ok _ _ _ _ _ _ _ E) as (Hby & Hst & a0 & Ha0 & Hca & Hrq).
    split; try done; rewrite Hca; [intros ->; by apply (Hc a0 Ha0)|]. rewrite Hrq. by apply (bi_stripped _ Hb id).
  - intros d now' id' by_ l a [= -> -> -> -> ->] E. rewrite E. by left.
Qed.

Lemma begin_step t s x s' id :
  cp_inv s → cp_sem t _ (CBegin id) s x s' →
  cp_guar t s s' ∧ cp_inv s' ∧ (x.1 = true → cp_holder s' !! id = Some t).
Proof.
  intros HI (now & Hl & -> & ->). pose proof HI as [Hb Hh]. set (op := RBegin now id). cbv zeta.
  assert (op_allowed (cp_reg s) op) as Hal by (split; [by intros ? [= <-]|done]).
  assert (op_fresh s {[id]} op) as Hf by done.
  destruct ((BeginConsume now (gs_reg (cp_reg s)) id).1.1) eqn:Hst.
  2:{ destruct (calm_apply op {[id]} s HI Hal Hf Hst). done. }
  destruct (Begin_started _ _ _ Hst) as (a & a' & Ha & Hi & Ha' & Hi').
  assert (base_inv (reg_apply op {[id]} s)) as Hb'.
  { rewrite <-(add_decided_nil (reg_apply op {[id]} s)). apply base_apply; try done. by intros ? ? ?%not_elem_of_nil. }
  assert (∀ u, cp_holder s !! id = Some u → False) as Hfree.
  { intros u Hu. destruct (Hh id u Hu) as (_ & _ & Hx). specialize (Hx a Ha). congruence. }
  split_and!.
  - split.
    + destruct (grows_apply op {[id]} [] s Hb Hf) as [G1 G2 G3]. rewrite add_decided_nil in G1, G2, G3. by split.
    + simpl. intros id' u Hu Hx. rewrite lookup_insert_ne; [done|]. intros <-. by apply (Hfree u).
  - split; [by destruct Hb'; split|]. intros id' u. simpl. intros [[<- <-]|[Hne Hu]]%lookup_insert_Some.
    + rewrite Hst. split_and!; [set_solver|set_solver|]. intros b Hb1. unfold cp_items in Hb1. simpl in Hb1. congruence.
    + destruct (Hh id' u Hu) as (Hc & Hn & Hx). rewrite Hst. split_and!; [set_solver|set_solver|].
      intros b Hb1. destruct (reg_apply_items op {[id]} s id' b Hb Hf Hb1) as [(b0 & Hb0 & [_ _ Hiss])|(? & ? & ? & ? & ? & ? & ? & _)]; [|done].
      destruct Hiss as [->|[[? [= _ ?]]|(? & ? & ?)]]; [by apply Hx|done|done].
  - intros _. simpl. by rewrite lookup_insert_eq.
Qed.

Lemma finish_step t s x s' id ok :
  cp_inv s → cp_holder s !! id = Some t → cp_sem t _ (CFinish id ok) s x s' → cp_guar t s s' ∧ cp_inv s' ∧ True.
Proof.
  intros [Hb Hh] Ht (dbok & ->). set (op := RFinish dbok id ok).
  destruct (Hh id t Ht) as (Hcl & Hnm & _).
  assert (op_allowed (cp_reg s) op) as Hal by (split; [done|exact Hcl]).
  assert (op_fresh s {[id]} op) as Hf by done.
  assert (base_inv (reg_apply op {[id]} s)) as Hb'.
  { rewrite <-(add_decided_nil (reg_apply op {[id]} s)). apply base_apply; try done. by intros ? ? ?%not_elem_of_nil. }
  split_and!; [split|split; [by destruct Hb'; split|]|done].
  - destruct (grows_apply op {[id]} [] s Hb Hf) as [G1 G2 G3]. rewrite add_decided_nil in G1, G2, G3. by split.
  - simpl. intros id' u Hu Hx. rewrite lookup_delete_ne; [done|]. intros <-. congruence.
  - intros id' u. simpl. intros [Hne Hu]%lookup_delete_Some. destruct (Hh id' u Hu) as (Hc & Hn & Hx).
    split_and!; [set_solver|set_solver|]. intros b Hb1.
    destruct (reg_apply_items op {[id]} s id' b Hb Hf Hb1) as [(b0 & Hb0 & [_ _ Hiss])|(? & ? & ? & ? & ? & ? & ? & _)]; [|done].
    destruct Hiss as [->|[[? ?]|(? & ? & [= _ ? _])]]; [by apply Hx|done|done].
Qed.

(** The approved forward. *)
Definition grant_known (a : Approval) (s : cplane) : Prop := ∃ d, (ap_DecidedBy a, d) ∈ cp_decided s ∧ same_grant d a.
Lemma stable_grant t a : stab t (grant_known a).
Proof. intros u s s' Hu Hg (d & Hd & Hs). exists d. split; [|done]. by apply (stable_decided t _ u s). Qed.

Lemma forwards_same d a req i :
  same_grant d a → req = ap_req a → intentFrom ParsePublicKey req (ap_Caller a) true = Some i → forwards d (with_learn a i).
Proof.
  intros Hs -> Hi. exists i. unfold same_grant in Hs. injection Hs as E1 E2 E3 E4 E5. rewrite E3, E2. split; [done|].
  unfold with_learn. by rewrite E1, E4, E5.
Qed.

Lemma sign_step t s x s' a req i :
  cp_inv s → grant_known a s → req = ap_req a → intentFrom ParsePublicKey req (ap_Caller a) true = Some i →
  cp_sem t _ (CSign (with_learn a i)) s x s' → cp_guar t s s' ∧ cp_inv s' ∧ cp_holder s' = cp_holder s.
Proof.
  intros [[H1 H2 H3 H4 H5 H6 H7] Hh] (d & Hd & Hs) Hr Hi ->. split_and!; [split; [by apply grows_same|done]|split; [|exact Hh]|done].
  split; try done. simpl. intros j [Hj|Hj]%elem_of_app; [by apply H6|]. apply list_elem_of_singleton in Hj as ->.
  intros _. exists (ap_DecidedBy a), d. split; [done|]. by eapply forwards_same.
Qed.

(** *** Handlers *)

Context (sort_Slice : (Approval → Approval → bool) → list Approval → list Approval).

Lemma intentFrom_approved req cn b i : intentFrom ParsePublicKey req cn b = Some i → in_Approved i = b.
Proof. unfold intentFrom. repeat case_match; intros [= <-]; done. Qed.

Lemma auditE_calm e : only cp_calm (auditE e).
Proof. by repeat split. Qed.
Lemma auditGate_calm e : only cp_calm (auditGate p e).
Proof. by repeat split. Qed.

#[local] Hint Resolve auditE_calm auditGate_calm : cpcalm.
#[local] Ltac calm_walk := repeat first
  [ exact I
  | solve [eauto 1 with cpcalm]
  | match goal with
    | |- only _ (pbind _ _) => apply only_bind; [|intros ?]
    | |- only _ (Prog.call_ (CSign _)) => split; [by (eapply intentFrom_approved; eassumption)|by intros]
    | |- only _ (Prog.call_ _) => split; [exact I|by intros]
    | |- only _ (match intentFrom ParsePublicKey ?r ?c ?b with _ => _ end) => destruct (intentFrom ParsePublicKey r c b) eqn:?
    | |- only _ (match ?x with _ => _ end) => destruct x
    | |- only _ (let x := _ in _) => cbv zeta
    end ].

Lemma requireApproval_calm cn req rule an : only cp_calm (requireApproval p cn req rule an).
Proof.
  unfold requireApproval, registry_CreateWith. apply only_bind; [|intros ?; by calm_walk].
  apply only_bind; [by calm_walk|]. intros ok. destruct (negb ok); [done|]. apply only_bind; [by calm_walk|]. intros _.
  split; [|done]. intros Hn. by rewrite bool_decide_eq_false_2.
Qed.
#[local] Hint Resolve requireApproval_calm : cpcalm.

Lemma dry_run_forward_calm cn req : only cp_calm (dry_run_forward ParsePublicKey cn req).
Proof. unfold dry_run_forward, dryRunSignError. calm_walk. Qed.
Lemma forwardSignResult_calm cn req iss : only cp_calm (forwardSignResult p cn req iss).
Proof. unfold forwardSignResult. calm_walk. Qed.
Lemma checkBehaviorGuardrails_calm cn req : only cp_calm (checkBehaviorGuardrails ParsePublicKey p cn req).
Proof.
  unfold checkBehaviorGuardrails. apply only_bind; [by calm_walk|]. intros [an ex]. destruct (negb (Enforcing _)); [by calm_walk|].
  destruct ex; [by calm_walk|]. destruct (bool_decide (an = [])); [done|]. destruct (intentFrom _ _ _ _) as [din|] eqn:Hd; [|done].
  apply only_bind; [split; [by apply intentFrom_approved in Hd|done]|]. intros ?. calm_walk.
Qed.
#[local] Hint Resolve dry_run_forward_calm forwardSignResult_calm checkBehaviorGuardrails_calm : cpcalm.

Lemma handleSign_calm r : only cp_calm (handleSign ParsePublicKey p r).
Proof. unfold handleSign. calm_walk. Qed.

Lemma learnBehavior_calm a req : only cp_calm (learnBehaviorApproval p a req).
Proof. unfold learnBehaviorApproval. calm_walk. Qed.
#[local] Hint Resolve handleSign_calm learnBehavior_calm : cpcalm.
Lemma grant_result_calm a req tt_ n w : only cp_calm (grant_result p a req tt_ n w).
Proof. unfold grant_result. calm_walk. Qed.
#[local] Hint Resolve grant_result_calm : cpcalm.

(** The stored request is the one the approver saw. *)
Definition stored_as (a : Approval) (b : Approval) : Prop := ap_req b = ap_req a ∧ ap_Caller b = ap_Caller a.
Lemma stable_stored t id a : stab t (entry_fact id (stored_as a)).
Proof. apply stable_entry. intros b b' He [? ?]. destruct (evolves_fixed _ _ He). split; congruence. Qed.

(** What the poller of an approved request knows, before and after its claim. *)
Definition approved_known (a : Approval) (id : string) (s : cplane) : Prop := grant_known a s ∧ entry_fact id (stored_as a) s.
Lemma stable_approved t a id : stab t (approved_known a id).
Proof. apply stable_and; [apply stable_grant|apply stable_stored]. Qed.
Definition claim_known (t : nat) (a : Approval) (id : string) (s : cplane) : Prop := approved_known a id s ∧ cp_holder s !! id = Some t.
Lemma stable_claim t a id : stab t (claim_known t a id).
Proof. apply stable_and; [apply stable_approved|apply stable_holder]. Qed.

Lemma collect_rely t a id (HP : ParsePublicKey "" = None) :
  rel t (claim_known t a id) (collect ParsePublicKey p a id) (fun _ K' => ∀ s, K' s → cp_holder s !! id = Some t).
Proof.
  unfold collect. apply (rely_call _ _ _ _ _ _ _ _ (fun x s => claim_known t a id s ∧ from_option (fun r => r = ap_req a) True x)).
  - intros s x s' HI HK Hs. destruct (cp_calm_ok _ (CRequest id) I t s x s' HI Hs) as [? Hg].
    destruct Hs as [-> ->]. split_and!; [auto|done|done|]. unfold Request. destruct (rg_items _ !! id) as [b|] eqn:Hb; [|done].
    simpl. by apply (proj2 (proj2 (proj1 HK)) b).
  - intros x. apply stable_and; [apply stable_claim|by intros ? ? ? ? ?].
  - intros x. destruct (intentFrom _ _ _ _) as [i|] eqn:Hi; [|by intros s [[_ ?] _]].
    assert (∃ req, x = Some req) as [req ->].
    { destruct x as [req|]; [by exists req|]. exfalso. revert Hi. unfold intentFrom. simpl. by rewrite HP. }
    apply (rely_call _ _ _ _ _ _ _ _ (fun _ => claim_known t a id)).
    + intros s r s' HI [[[Hgr Hen] Hho] Hrq] Hs.
      destruct (sign_step t s r s' a req i HI Hgr Hrq Hi Hs) as (Hg & HI' & Hh'). split_and!; [done..|].
      unfold claim_known, approved_known. rewrite Hh'. cbv beta iota delta [cp_sem] in Hs. by subst s'.
    + intros _. apply stable_claim.
    + intros r. apply rely_calm; [|apply stable_claim|by intros ? s [_ ?]].
      eapply only_mono; [apply cp_calm_ok|]. calm_walk.
Qed.

Lemma handleResult_rely t r (HP : ParsePublicKey "" = None) : rel t (fun _ => True) (handleResult ParsePublicKey p r) (fun _ _ => True).
Proof.
  unfold handleResult. destruct (signCaller p r) as [cn|]; [|done].
  apply (rely_call _ _ _ _ _ _ _ _ (fun x s => from_option (fun a => ap_Status a = StatusApproved → approved_known a (rq_id r) s) True x)).
  - intros s x s' HI _ Hs. destruct (cp_calm_ok _ (CGet (rq_id r)) I t s x s' HI Hs) as [[Hb Hh] Hg]. split_and!; [auto|done|].
    destruct Hs as (now & Hl & -> & ->). unfold Get. destruct (rg_items _ !! rq_id r) as [b|] eqn:Ha; [|done]. simpl. intros Hst.
    assert (cp_items (reg_apply (RGet now (rq_id r)) {[rq_id r]} s) !! rq_id r = Some (expireLocked (rg_ttl (gs_reg (cp_reg s))) now b)) as Hit.
    { unfold cp_items. simpl. unfold Get. rewrite Ha. simpl. by rewrite lookup_insert_eq. }
    split; [by apply (bi_approved _ Hb (rq_id r))|]. split; [set_solver|]. intros c Hc. rewrite Hit in Hc. by injection Hc as <-.
  - intros [a|]; [|done]. intros u s s' Hu Hg H Hst. simpl in H. by apply (stable_approved t a (rq_id r) u s); [..|apply H].
  - intros [a|]; [|done]. destruct (bool_decide _); [done|]. destruct (ap_Status a) eqn:Hst; try (apply rel_done; [by calm_walk|]).
    + intros u s s' Hu Hg. simpl. congruence.
    + apply (rely_call _ _ _ _ _ _ _ _ (fun (x : bool * bool) s => if x.1 then claim_known t a (rq_id r) s else True)).
      * intros s x s' HI HK Hs. simpl in HK. destruct (begin_step t s x s' (rq_id r) HI Hs) as (Hg & HI' & Hho). split_and!; [done..|].
        destruct x.1 eqn:Hx; [|done]. split; [|auto].
        destruct (HK Hst) as [(d & Hd & Hsg) Hen]. destruct Hg as [[G1 G2 G3] _].
        split; [exists d; auto|]. destruct Hen as [Hn He]. split; [set_solver|]. intros b Hb.
        destruct (G3 _ _ Hn Hb) as (b0 & Hb0 & Hev). destruct (evolves_fixed _ _ Hev). destruct (He b0 Hb0). split; congruence.
      * intros [[] ?]; [apply stable_claim|done].
      * intros [[] rt]; [|done]. cbn [negb fst]. apply rely_bind. eapply rely_mono; [|by apply collect_rely]. intros res K' HK'. cbv beta in HK'.
        apply (rely_call _ _ _ _ _ _ _ _ (fun _ _ => True)); [|done|done]. intros s x s' HI HK Hs. by eapply finish_step; eauto.
    + intros u s s' Hu Hg. simpl. congruence.
    + intros u s s' Hu Hg. simpl. congruence.
Qed.

Lemma approver_in {B : Type} (r : http_request B) cn : approver p r = Some cn → cn ∈ cs_approveCN p.
Proof. unfold approver. destruct (CallerCN _); [|done]. case_bool_decide; [|done]. by intros [= <-]. Qed.

Lemma handleApprovalDecide_rely t ct r : rel t (fun _ => True) (handleApprovalDecide p ct r) (fun _ _ => True).
Proof.
  unfold handleApprovalDecide. destruct (approver p r) as [cn|] eqn:Hcn; [|done]. apply approver_in in Hcn.
  destruct (negb (json_content_type ct)); [done|]. destruct (rq_body r) as [body|]; [|done]. destruct (decide_ttl body) as [learn|]; [|done].
  apply (rely_call _ _ _ _ _ _ _ _ (fun x s => own_request cn x = None → entry_fact (rq_id r) (fun a => ap_Caller a ≠ cn) s)).
  - intros s x s' HI _ Hs. destruct (cp_calm_ok _ (CGet (rq_id r)) I t s x s' HI Hs) as [? Hg]. split_and!; [auto|done|].
    destruct Hs as (now & Hl & -> & ->). intros Hown. split; [set_solver|]. unfold cp_items. simpl. revert Hown. unfold Get.
    destruct (rg_items _ !! rq_id r) as [b|] eqn:Ha; simpl; [|by rewrite Ha]. rewrite lookup_insert_eq.
    case_bool_decide as Hne; [done|]. by intros _ a [= <-].
  - intros x u s s' Hu Hg H Hown. refine (stable_entry t _ _ _ u s s' Hu Hg (H Hown)). intros a a' He. by destruct (evolves_fixed _ _ He) as [-> _].
  - intros x. destruct (own_request cn x) as [a|] eqn:Hown; [apply rel_done; [by calm_walk|by intros ? ? ? ? ? ?]|].
    apply (rely_call _ _ _ _ _ _ _ _ (fun _ _ => True)); [|done|intros d; apply rel_done; [by calm_walk|done]].
    intros s d s' HI HK Hs. destruct (db_Approve body).
    + by eapply (decide_step t s d s' (rq_id r)); [|done|apply HK|].
    + destruct (cp_calm_ok _ (CDecide (rq_id r) false cn learn) eq_refl t s d s' HI Hs) as [? Hg]. auto.
Qed.

(** What the control plane runs. *)
Inductive cp_thread : cprog cp_response → Prop :=
| cp_sign r : cp_thread (handleSign ParsePublicKey p r)
| cp_result r : cp_thread (handleResult ParsePublicKey p r)
| cp_hosts r : cp_thread (handleHosts p r)
| cp_clusters r : cp_thread (handleClusters p r)
| cp_approvals r : cp_thread (handleApprovalsList p r)
| cp_decide ct r : cp_thread (handleApprovalDecide p ct r)
| cp_ui_list r : cp_thread (handleUIList sort_Slice p r)
| cp_ui_detail r : cp_thread (handleUIDetail p r).

(** The control plane as a pool of handlers. *)
Definition cp_reach (cfg : BehaviorConfig) (s : cplane) (pool : list (cprog cp_response)) : Prop :=
  pool_reach cp_sem (fun _ _ => False) cp_thread (cp_init ttl db cfg) s pool.

Lemma cp_thread_rely t q (HP : ParsePublicKey "" = None) : cp_thread q → rel t (fun _ => True) q (fun _ _ => True).
Proof.
  intros [r|r|r|r|r|ct r|r|r]; [|by apply handleResult_rely| | | |apply handleApprovalDecide_rely| |]; apply rel_done; try done;
    [apply handleSign_calm|unfold handleHosts|unfold handleClusters|unfold handleApprovalsList|unfold handleUIList|unfold handleUIDetail]; calm_walk.
Qed.

Lemma cp_init_inv cfg : cp_inv (cp_init ttl db cfg).
Proof.
  assert (∀ id a, cp_items (cp_init ttl db cfg) !! id = Some a → False) as Hno by (intros id a H; unfold cp_items in H; simpl in H; by rewrite lookup_empty in H).
  split; [split|]; simpl.
  - apply run_nil.
  - set_solver.
  - intros id a H. by destruct (Hno id a).
  - by intros ? ? ?%not_elem_of_nil.
  - intros id a H. by destruct (Hno id a).
  - by intros ? ?%not_elem_of_nil.
  - intros id a H. by destruct (Hno id a).
  - intros id u H. simpl in H. by rewrite lookup_empty in H.
Qed.

Lemma cp_reach_inv cfg s pool : ParsePublicKey "" = None → cp_reach cfg s pool → cp_inv s.
Proof.
  intros HP. apply (rely_invariant cp_sem (fun _ _ => False) cp_guar cp_inv cp_thread); [|done|apply cp_init_inv].
  intros t q. by apply cp_thread_rely.
Qed.

Lemma forwards_fields a i : forwards a i →
  in_OnBehalfOf i = ap_Caller a ∧ in_EndUser i = wr_EndUser (ap_req a) ∧ in_Command i = wr_Command (ap_req a) ∧ in_Host i = wr_Host (ap_req a).
Proof. intros (i0 & Hi & ->). revert Hi. unfold intentFrom, with_learn. repeat case_match; by intros [= <-]. Qed.

(** [C6] Nothing is sent to the signer as approved without a second person. In
    every state the control plane can reach, whatever requests, polls, decisions
    and listings run concurrently: every intent sent with [approved=true] is the
    stored request of an approval some approver granted, on behalf of the
    request's originator, with the learn duration, approver and id of that grant;
    the approver is one of [approval.callers] and not the originator; and the
    intent names an end user only if the originator is a trusted forwarder. So is
    every approval the registry shows as approved. *)
Theorem approved_by_second_person cfg s pool :
  ParsePublicKey "" = None → cp_reach cfg s pool →
  (∀ i, i ∈ cp_sent s → in_Approved i = true →
    ∃ cn a, (cn, a) ∈ cp_decided s ∧ ap_DecidedBy a = cn ∧ cn ∈ cs_approveCN p ∧ cn ≠ ap_Caller a ∧ forwards a i ∧
      (ap_Caller a ∉ cs_forwarders p → in_EndUser i = "")) ∧
  (∀ id a, cp_items s !! id = Some a → ap_Status a = StatusApproved →
    ap_DecidedBy a ∈ cs_approveCN p ∧ ap_DecidedBy a ≠ ap_Caller a).
Proof.
  intros HP Hr. destruct (cp_reach_inv _ _ _ HP Hr) as [[_ _ _ Hdec Hap Hsent _] _]. split.
  - intros i Hi Ha. destruct (Hsent i Hi Ha) as (cn & a & Hd & Hf). destruct (Hdec _ _ Hd) as [H1 H2 H3 H4 H5].
    exists cn, a. split_and!; try done. intros Hn. destruct (forwards_fields _ _ Hf) as (_ & -> & _). auto.
  - intros id a Ha Hs. destruct (Hap id a Ha Hs) as (d & Hd & Hsg). destruct (Hdec _ _ Hd) as [H1 H2 H3 H4 H5].
    split; [done|]. unfold same_grant in Hsg. congruence.
Qed.

(** [C12] The handlers keep the registry's protocol. Whatever runs concurrently,
    the registry operations the control plane performs are a run of the
    registry's transition system: ids are drawn once, and a claim is completed
    only while held, by the request that holds it. Hence, unless a write that
    records a consumption is lost, no approval is ever consumed twice and only
    approved ones are. *)
Theorem registry_protocol cfg s pool :
  ParsePublicKey "" = None → cp_reach cfg s pool →
  reg_run (reg_init ttl db) (cp_ops s) (cp_reg s) ∧
  (Forall consume_durable (cp_ops s) → NoDup (gs_issued (cp_reg s)) ∧ ∀ id, id ∈ gs_issued (cp_reg s) → id ∈ gs_approved (cp_reg s)).
Proof.
  intros HP Hr. destruct (cp_reach_inv _ _ _ HP Hr) as [[Hrun _ _ _ _ _ _] _]. split; [done|]. intros Hd.
  destruct (reg_run_inv _ _ _ _ Hrun Hd) as [_ _ H3 _ _ H6 _]. split; [done|]. auto.
Qed.
End control_plane.
