(* ===== verification/ControlPlaneTrace.v ===== *)
(** * What the control plane hands out

    The traces of the two signing endpoints of the control plane, with any answers
    of the signer, the registry, the tracker and the log. *)

From S2P Require Import Prelude GoStrings CmdPolicy PolicySet K8sAction Intent Freeze Grants CA Encoding Elevate Crypto Sealed HostPolicy K8sPolicy Signer RateLimit Approval Behavior Broker OAuth ServiceConfig Prog Service Remote ControlPlane.

(** A call with its answer. *)
Inductive cobs := | CObs {X : Type} (c : ccall X) (x : X).

#[export] Instance cp_effects : Effects ccall cobs unit := {|
  observe X c x := CObs c x;
  answers _ X c x := True;
|}.

(** A started claim, and a usable answer. *)
Definition begun (o : cobs) : bool := match o with CObs (CBegin _) b => b.1 | _ => false end.
Definition signed (r : cp_response) : bool := match r with CSigned _ => true | _ => false end.

(** What a response hands over of an issued credential. *)
Definition hands_over (i : Intent) (issued : Issued) (w : WireResponse) : Prop :=
  ws_Decision w = is_Decision issued ∧
  (ws_Certificate w = None ∨ ws_Certificate w = is_Certificate issued) ∧
  (ws_K8sToken w = "" ∨ ws_K8sToken w = is_K8sToken issued) ∧
  (ws_Envelope w = "" ∨ ws_Envelope w = is_Envelope issued) ∧
  (in_DryRun i = true ∨ ws_Certificate w ≠ None ∨ ws_K8sToken w ≠ "").

Lemma auditE_behaves e t u : behaves tt (auditE e) t (Some u) → ∃ ok, t = [CObs (CAppend e) ok].
Proof. intros (ok & t' & _ & -> & Hb)%behaves_call. apply behaves_Ret in Hb as [-> _]. by exists ok. Qed.

(** Peels audits and results off a trace. *)
Ltac peel H :=
  lazymatch type of H with
  | behaves _ (Ret _) _ _ => apply behaves_Ret in H as [-> H]
  | behaves _ (pbind (auditE _) _) _ _ =>
      let t1 := fresh "t" in let t2 := fresh "t" in let Ha := fresh in
      apply behaves_bind in H as (t1 & t2 & [] & -> & Ha & H); apply auditE_behaves in Ha as (? & ->); peel H
  end.

Section trace.
Context (ParsePublicKey : string → option string) (p : cp_params).

Lemma auditGate_behaves e t x : behaves tt (auditGate p e) t (Some x) →
  ∃ ok, t = [CObs (CAppend e) ok] ∧ x = if negb ok && cs_auditFailClosed p then Some (CError 503) else None.
Proof. intros (ok & t' & _ & -> & Hb)%behaves_call. apply behaves_Ret in Hb as [-> [= ->]]. by exists ok. Qed.

(** ** Collecting *)

(** The end of a trace that delivers [w]. *)
Definition delivered (a : Approval) (i : Intent) (issued : Issued) (w : WireResponse) (t : list cobs) : Prop :=
  ∃ t1 t2 e ok, t = t1 ++ CObs (CSign i) (Ok issued) :: t2 ++ [CObs (CAppend e) ok] ∧
    cr_Outcome e = "approval-granted" ∧ cr_ApprovalID e = ap_ID a ∧ cr_ApprovedBy e = ap_DecidedBy a ∧
    (cs_auditFailClosed p = true → ok = true) ∧ hands_over i issued w.

Lemma grant_result_behaves a req tt_ n w t res :
  behaves tt (grant_result p a req tt_ n w) t (Some res) →
  res.1 = signed res.2 ∧
  ∀ w', res.2 = CSigned w' → w' = w ∧ ∃ t2 ok, t = t2 ++ [CObs (CAppend (ap_entry a tt_ n "approval-granted" (ap_DecidedBy a) NoCErr)) ok] ∧
    (cs_auditFailClosed p = true → ok = true).
Proof.
  intros (t1 & t2 & [] & -> & _ & (t3 & t4 & g & -> & Hg & Hb)%behaves_bind)%behaves_bind.
  apply behaves_Ret in Hb as [-> [= ->]]. apply auditGate_behaves in Hg as (ok & -> & ->). rewrite app_nil_r.
  destruct (negb ok && cs_auditFailClosed p) eqn:E; simpl; [split; [done|by intros]|]. split; [done|].
  intros w' [= <-]. split; [done|]. exists t1, ok. split; [done|]. intros Hc. rewrite Hc in E. by destruct ok.
Qed.

Lemma intentFrom_fields req cn b i : intentFrom ParsePublicKey req cn b = Some i →
  in_Approved i = b ∧ in_OnBehalfOf i = cn ∧ in_DryRun i = wr_DryRun req ∧ in_LearnTTLSeconds i = 0 ∧
  in_EndUser i = wr_EndUser req ∧ in_Host i = wr_Host req ∧ in_Command i = wr_Command req.
Proof. unfold intentFrom. repeat case_match; by intros [= <-]. Qed.

Lemma with_learn_fields a i : in_Approved (with_learn a i) = in_Approved i ∧ in_OnBehalfOf (with_learn a i) = in_OnBehalfOf i ∧
  in_DryRun (with_learn a i) = in_DryRun i.
Proof. unfold with_learn. by case_match. Qed.

Lemma collect_behaves a id t res :
  behaves tt (collect ParsePublicKey p a id) t (Some res) →
  res.1 = signed res.2 ∧
  ∀ w, res.2 = CSigned w → ∃ i issued, in_Approved i = true ∧ in_OnBehalfOf i = ap_Caller a ∧ delivered a i issued w t.
Proof.
  intros (rq & t' & _ & -> & Hb)%behaves_call. set (req := default zero_request rq) in Hb. clearbody req. cbv zeta in Hb.
  destruct (intentFrom _ _ _ _) as [i0|] eqn:Hi; [|peel Hb; by injection Hb as ->].
  destruct (intentFrom_fields _ _ _ _ Hi) as (F1 & F2 & F3 & _). destruct (with_learn_fields a i0) as (L1 & L2 & L3).
  remember (with_learn a i0) as i eqn:Hw. apply behaves_call in Hb as (r & t1 & _ & -> & Hb).
  destruct r as [issued|e].
  2:{ destruct (relaySignerRateLimit e) as [resp|] eqn:Hr; [|destruct (is_unavailable e); peel Hb; by injection Hb as ->].
      peel Hb. injection Hb as ->. destruct e; simpl in Hr; simplify_eq. done. }
  assert (∀ tt_ n w t2, behaves tt (grant_result p a req tt_ n w) t2 (Some res) → hands_over i issued w →
    res.1 = signed res.2 ∧ ∀ w, res.2 = CSigned w → ∃ i' iss', in_Approved i' = true ∧ in_OnBehalfOf i' = ap_Caller a ∧
      delivered a i' iss' w (CObs (CRequest id) rq :: CObs (CSign i) (Ok issued) :: t2)) as Hg.
  { intros tt_ n w t2 Hgr Hc. destruct (grant_result_behaves _ _ _ _ _ _ _ Hgr) as [H1 H2]. split; [done|].
    intros w' Hw'. destruct (H2 w' Hw') as (-> & t3 & ok & -> & Hok). exists i, issued. split_and!; [congruence|congruence|].
    eexists [_], t3, _, ok. by split_and!. }
  destruct (wr_DryRun req) eqn:Hd.
  { case_bool_decide as Hn; [peel Hb; by injection Hb as ->|]. apply (Hg _ _ _ _ Hb).
    split_and!; simpl; [done|by left|by left|by right|left; congruence]. }
  destruct (bool_decide (wr_TargetType req = TargetTypeK8s)).
  { case_bool_decide as Hn; [peel Hb; by injection Hb as ->|]. apply (Hg _ _ _ _ Hb).
    split_and!; simpl; [done|by left|by right|by left|by right; right]. }
  destruct (is_Certificate issued) as [cert|] eqn:Hce; [|peel Hb; by injection Hb as ->]. apply (Hg _ _ _ _ Hb).
  split_and!; simpl; [done|by right|by left|by left|right; by left].
Qed.

(** [C20] An approved credential leaves with its record. When a poll answers with
    a credential or an approved decision: the poller is an authenticated broker
    that originated the request; the registry showed the request approved and the
    claim was won; the signer answered this poll's approved intent; the
    [approval-granted] record with the approval's id and approver was appended
    (durably, in fail-closed mode) before the answer; the answer is what the
    signer issued; and the approval is consumed. Whenever a claim is won, it is
    settled at the end of the request: consumed if the result was delivered and
    released otherwise. *)
Theorem approved_result_recorded t r resp :
  behaves tt (handleResult ParsePublicKey p r) t (Some resp) →
  (∀ w, resp = CSigned w → ∃ cn a rt i issued t0,
     CallerCN (rq_peers r) = Some cn ∧ isSignCaller p cn = true ∧
     ap_Caller a = cn ∧ ap_Status a = StatusApproved ∧ in_Approved i = true ∧ in_OnBehalfOf i = cn ∧
     t = CObs (CGet (rq_id r)) (Some a) :: CObs (CBegin (rq_id r)) (true, rt) :: t0 ++ [CObs (CFinish (rq_id r) true) tt] ∧
     delivered a i issued w t0) ∧
  ((∃ t0, t = t0 ++ [CObs (CFinish (rq_id r) (signed resp)) tt]) ∨ Forall (fun o => begun o = false) t).
Proof.
  unfold handleResult, signCaller. destruct (CallerCN (rq_peers r)) as [cn|]; [|intros Hb; peel Hb; injection Hb as ->; split; [done|by right]].
  destruct (isSignCaller p cn) eqn:Hs; [|intros Hb; peel Hb; injection Hb as ->; split; [done|by right]].
  intros (g & t1 & _ & -> & Hb)%behaves_call. destruct g as [a|]; [|peel Hb; injection Hb as ->; split; [done|right; by repeat constructor]].
  destruct (bool_decide _) eqn:Hc; [peel Hb; injection Hb as ->; split; [done|right; by repeat constructor]|].
  apply bool_decide_eq_false, dec_stable in Hc.
  destruct (ap_Status a) eqn:Hst.
  - peel Hb. injection Hb as ->. split; [done|right; by repeat constructor].
  - apply behaves_call in Hb as ([st rt] & t2 & _ & -> & Hb). destruct st; cbn [negb] in Hb.
    2:{ peel Hb. injection Hb as ->. split; [by destruct rt|right; by repeat constructor]. }
    apply behaves_bind in Hb as (t3 & t4 & res & -> & Hcol & Hb). apply behaves_call in Hb as ([] & t5 & _ & -> & Hb).
    peel Hb. injection Hb as ->. destruct (collect_behaves _ _ _ _ Hcol) as [Hsg Hdl]. split.
    + intros w Hw. destruct (Hdl w Hw) as (i & issued & H1 & H2 & H3). exists cn, a, rt, i, issued, t3.
      rewrite Hsg, Hw. by split_and!; [..|congruence| |].
    + left. exists (CObs (CGet (rq_id r)) (Some a) :: CObs (CBegin (rq_id r)) (true, rt) :: t3). by rewrite Hsg.
  - apply behaves_call in Hb as (f & t2 & _ & -> & Hb). apply behaves_bind in Hb as (t3 & t4 & [] & -> & Ha & Hb). peel Hb. injection Hb as ->.
    split; [done|right]. destruct f; [apply auditE_behaves in Ha as (? & ->)|apply behaves_Ret in Ha as [-> _]]; by repeat constructor.
  - apply behaves_call in Hb as (f & t2 & _ & -> & Hb). apply behaves_bind in Hb as (t3 & t4 & [] & -> & Ha & Hb). peel Hb. injection Hb as ->.
    split; [done|right]. destruct f; [apply auditE_behaves in Ha as (? & ->)|apply behaves_Ret in Ha as [-> _]]; by repeat constructor.
Qed.

(** ** Guardrails *)

Definition signs (o : cobs) : option Intent := match o with CObs (CSign i) _ => Some i | _ => None end.
Definition not_sign (X : Type) (c : ccall X) : Prop := match c with CSign _ => False | _ => True end.

(** What may be sent for the request of [cn] after the history [h]. *)
Definition may_send (cn : string) (req : WireRequest) (h : list cobs) (i : Intent) : Prop :=
  in_Approved i = false ∧ in_OnBehalfOf i = cn ∧ in_LearnTTLSeconds i = 0 ∧ in_EndUser i = wr_EndUser req ∧
  in_Host i = wr_Host req ∧ in_Command i = wr_Command req ∧
  (Enforcing (NewBehaviorTracker (cs_Behavior p)) = true →
   (wr_DryRun req = true ∧ wr_Preflight req = false) ∨
   ∃ an, CObs (CCheck (guardrailSubject p cn (wr_EndUser req)) (wr_Host req) (wr_Command req)) (an, false) ∈ h ∧
     (an = [] ∨ in_DryRun i = true)).
Definition sends (cn : string) (req : WireRequest) (h : list cobs) (o : cobs) : Prop := ∀ i, signs o = Some i → may_send cn req h i.

Lemma not_sign_sends cn req h X (c : ccall X) x : not_sign X c → sends cn req h (CObs c x).
Proof. intros Hc i. by destruct c. Qed.

#[local] Ltac quiet_walk := repeat first
  [ exact I
  | match goal with
    | |- only _ (pbind _ _) => apply only_bind; [|intros ?]
    | |- only _ (Prog.call_ _) => split; [exact I|by intros]
    | |- only _ (match ?x with _ => _ end) => destruct x
    | |- only _ (let x := _ in _) => cbv zeta
    end ].

Lemma cp_safe_quiet {A : Type} cn req h (q : cprog A) (Q : list cobs → A → Prop) :
  only not_sign q → (∀ t a, Q (h ++ t) a) → safe tt (sends cn req) h q Q.
Proof. intros Ho. apply (safe_only tt _ not_sign); [|done]. intros h' X c x. apply not_sign_sends. Qed.

Lemma cp_auditE_quiet e : only not_sign (auditE e).
Proof. unfold auditE. quiet_walk. Qed.
Lemma requireApproval_quiet cn req rule an : only not_sign (requireApproval p cn req rule an).
Proof. unfold requireApproval, registry_CreateWith, auditE. quiet_walk. Qed.
Lemma forwardSignResult_quiet cn req iss : only not_sign (forwardSignResult p cn req iss).
Proof.
  unfold forwardSignResult, auditE. cbv zeta. destruct (is_Certificate iss); [quiet_walk|]. destruct (negb _); [quiet_walk|].
  destruct (is_Decision iss) as [di|]; [|done]. destruct (di_RequireApproval di); [apply requireApproval_quiet|done].
Qed.

Lemma safe_dry_run cn req h (Q : list cobs → cp_response → Prop) :
  (∀ i, intentFrom ParsePublicKey req cn false = Some i → may_send cn req h i) → (∀ t a, Q (h ++ t) a) →
  safe tt (sends cn req) h (dry_run_forward ParsePublicKey cn req) Q.
Proof.
  intros Hi HQ. unfold dry_run_forward. destruct (intentFrom _ _ _ _) as [i|]; [|specialize (HQ []); rewrite app_nil_r in HQ; apply HQ].
  apply safe_call. intros r _. split; [intros j [= <-]; auto|]. apply cp_safe_quiet; [|intros t a; rewrite <-app_assoc; apply HQ].
  unfold dryRunSignError, auditE. quiet_walk.
Qed.

Lemma may_send_checked cn req h i :
  intentFrom ParsePublicKey req cn false = Some i →
  (Enforcing (NewBehaviorTracker (cs_Behavior p)) = true →
     (wr_DryRun req = true ∧ wr_Preflight req = false) ∨
     CObs (CCheck (guardrailSubject p cn (wr_EndUser req)) (wr_Host req) (wr_Command req)) ([], false) ∈ h) →
  may_send cn req h i.
Proof.
  intros Hi Hc. destruct (intentFrom_fields _ _ _ _ Hi) as (F1 & F2 & _ & F4 & F5 & F6 & F7). split_and!; try done.
  intros He. destruct (Hc He) as [?|?]; [by left|right]. exists []. split; [done|by left].
Qed.

Lemma guardrails_safe cn req h :
  safe tt (sends cn req) h (checkBehaviorGuardrails ParsePublicKey p cn req)
    (fun h' g => g = None → Enforcing (NewBehaviorTracker (cs_Behavior p)) = true →
      CObs (CCheck (guardrailSubject p cn (wr_EndUser req)) (wr_Host req) (wr_Command req)) ([], false) ∈ h').
Proof.
  unfold checkBehaviorGuardrails. apply safe_call. intros [an ex] _. split; [done|]. cbv beta iota zeta.
  set (h1 := h ++ [_]). destruct (Enforcing _) eqn:He; simpl negb; cbv iota.
  2:{ apply cp_safe_quiet; [unfold auditE; quiet_walk|done]. }
  destruct ex.
  { apply safe_bind. apply cp_safe_quiet; [apply cp_auditE_quiet|]. by intros t ? ?. }
  destruct (bool_decide (an = [])) eqn:Ha.
  { apply bool_decide_eq_true in Ha as ->. intros _ _. unfold h1, observe, cp_effects. apply elem_of_app. right. by left. }
  destruct (intentFrom _ _ _ _) as [din|] eqn:Hi; [|done]. apply safe_call. intros r _. split.
  { intros i [= <-]. destruct (intentFrom_fields _ _ _ _ Hi) as (F1 & F2 & F3 & F4 & F5 & F6 & F7). split_and!; try done.
    intros _. right. exists an. split; [|by right]. unfold h1. apply elem_of_app. right. by left. }
  assert (∀ (q : cprog cp_response) h2, only not_sign q → safe tt (sends cn req) h2 (pbind q (fun resp => Ret (Some resp)))
    (fun h' g => g = None → true = true → CObs (CCheck (guardrailSubject p cn (wr_EndUser req)) (wr_Host req) (wr_Command req)) ([], false) ∈ h')) as Hsome.
  { intros q h2 Hq. apply safe_bind, cp_safe_quiet; [done|]. by intros t a ?. }
  assert (∀ e (resp : cp_response) h2, safe tt (sends cn req) h2 (auditE e ;;; Ret (Some resp))
    (fun h' g => g = None → true = true → CObs (CCheck (guardrailSubject p cn (wr_EndUser req)) (wr_Host req) (wr_Command req)) ([], false) ∈ h')) as Hau.
  { intros e resp h2. apply safe_bind, cp_safe_quiet; [apply cp_auditE_quiet|]. by intros t a ?. }
  destruct r as [d|e].
  - destruct (is_Decision d) as [di|]; [destruct (di_Allowed di)|]; [apply Hsome, requireApproval_quiet|apply Hau|apply Hau].
  - destruct (relaySignerRateLimit e); [done|]. destruct (is_unavailable e); apply Hau.
Qed.

(** [C22] The guardrails stand before the signer. Whatever [POST /v1/sign] sends to
    the signer is the broker's request on behalf of its authenticated common name,
    not approved and without a learn intent, whatever the body claims; and when
    the guardrails enforce, unless it is a pure dry run, the behaviour tracker was
    consulted before, for the subject of that broker, host and command, and
    reported neither an exceeded rate nor (unless what is sent is the guardrail's
    own dry run) an anomaly. The subject is the broker's name alone unless it is a
    trusted forwarder. *)
Theorem guardrails_before_signing t r o t1 i x t2 :
  behaves tt (handleSign ParsePublicKey p r) t o → t = t1 ++ CObs (CSign i) x :: t2 →
  ∃ cn req, CallerCN (rq_peers r) = Some cn ∧ isSignCaller p cn = true ∧ rq_body r = Some req ∧ may_send cn req t1 i ∧
    (cn ∉ cs_forwarders p → guardrailSubject p cn (wr_EndUser req) = cn).
Proof.
  unfold handleSign, signCaller. destruct (CallerCN (rq_peers r)) as [cn|]; [|intros [-> _] H; by destruct t1].
  destruct (isSignCaller p cn) eqn:Hs; [|intros [-> _] H; by destruct t1].
  destruct (rq_body r) as [req|]; [|intros [-> _] H; by destruct t1]. intros Hb Ht. exists cn, req.
  split_and!; try done; [|intros Hn; unfold guardrailSubject; by rewrite bool_decide_eq_false_2].
  refine (proj1 (safe_sound tt (sends cn req) _ [] (fun _ _ => True) t o _ Hb) t1 _ t2 Ht i eq_refl). clear Hb Ht t o t1 i x t2.
  destruct (wr_DryRun req && negb (wr_Preflight req)) eqn:Hpd.
  { apply andb_prop in Hpd as [Hd Hp]. apply negb_true_iff in Hp. apply safe_dry_run; [|done]. intros i Hi. apply may_send_checked; [done|]. by left. }
  apply safe_bind. eapply (safe_mono _ _ _ _ (fun h' g => g = None → Enforcing (NewBehaviorTracker (cs_Behavior p)) = true →
      CObs (CCheck (guardrailSubject p cn (wr_EndUser req)) (wr_Host req) (wr_Command req)) ([], false) ∈ h')).
  2:{ destruct (behavior_enabled p) eqn:Hen; [apply guardrails_safe|]. simpl. intros _ He. exfalso. revert Hen He.
      unfold behavior_enabled, Enabled, Enforcing. intros [_ Hx]%orb_false_elim Hy. congruence. }
  intros h' [resp|] HQ; [done|]. cbv beta iota.
  assert (∀ i, intentFrom ParsePublicKey req cn false = Some i → may_send cn req h' i) as Hsend.
  { intros i Hi. apply may_send_checked; [done|]. intros He. right. by apply HQ. }
  destruct (wr_DryRun req); [by apply safe_dry_run|]. destruct (intentFrom _ _ _ _) as [i|] eqn:Hi; [|done].
  apply safe_call. intros [issued|e] _; (split; [intros j [= <-]; by apply Hsend|]).
  - apply cp_safe_quiet; [apply forwardSignResult_quiet|done].
  - destruct (relaySignerRateLimit e); [done|]. destruct (is_unavailable e); (apply cp_safe_quiet; [|done]); unfold auditE; quiet_walk.
Qed.
End trace.
