(* ===== verification/Relay.v ===== *)
(** * What reaches the signer

    The wire between broker, control plane and signer: encoding an intent, the
    relay of the control plane and the signer's decoding compose to the broker's
    own request, and the client's wait for an approval ends. *)

From S2P Require Import Prelude GoStrings CmdPolicy PolicySet K8sAction Intent Freeze Grants CA Encoding Elevate Crypto Sealed HostPolicy K8sPolicy Signer RateLimit Approval Behavior Broker OAuth ServiceConfig Prog Service ServiceSign Remote ControlPlane.

(** What the SSH library promises of keys on the wire. *)
Class KeyCodec (MarshalAuthorizedKey : string → string) (ParsePublicKey : string → option string) : Prop := {
  key_roundtrip : ∀ k, k ≠ "" → ParsePublicKey (MarshalAuthorizedKey k) = Some k;
  key_empty : ParsePublicKey "" = None;
}.

Section relay.
Context (MarshalAuthorizedKey : string → string) (ParsePublicKey : string → option string).
Context {KC : KeyCodec MarshalAuthorizedKey ParsePublicKey}.

#[local] Abbreviation wire := (wire_of_intent MarshalAuthorizedKey) (only parsing).

(** An intent for a cluster carries its action, any other a key. *)
Definition sendable (i : Intent) : Prop :=
  int64 (in_RequestedTTL i) ∧
  if bool_decide (in_TargetType i = TargetTypeK8s) then in_K8s i ≠ None else in_PublicKey i ≠ "".

(** The request in the control plane's name: on behalf of the broker, approved or
    not, without a learn intent. *)
Definition relayed (cn : string) (approved : bool) (w : WireRequest) : WireRequest :=
  mkWireRequest (wr_Host w) (wr_Role w) (wr_Purpose w) (wr_SessionMode w) (wr_Command w) (wr_TTLSeconds w)
    (wr_PublicKey w) (wr_TargetType w) (wr_K8sVerb w) (wr_K8sResource w) (wr_K8sGroup w) (wr_K8sNamespace w)
    (wr_K8sName w) (wr_Sudo w) (wr_SudoUser w) (wr_PTY w) (wr_FileTransfer w) (wr_DryRun w) (wr_Preflight w)
    cn approved (wr_EndUser w) (wr_EndUserGroups w) (wr_EndUserContext w) (wr_BearerToken w) 0 "" "".

(** The intent the signer decides, with the caller it authenticated, the approval
    it grants the request and the end user it settled on. *)
Definition decided_intent (caller : string) (approved : bool) (u : string) (gs : option (list string)) (ctx : string) (i : Intent) : Intent :=
  mkIntent caller (in_Host i) "" None (in_Role i) (in_Purpose i) (in_SessionMode i) (in_Command i)
    (wrap64 (Z.quot (in_RequestedTTL i) Second * Second)) (in_PublicKey i) (in_Sudo i) (in_SudoUser i) (in_PTY i) (in_FileTransfer i)
    (in_DryRun i) (in_Preflight i) approved "" u gs ctx "" 0 "" "".

Lemma whole_seconds z : int64 z → int64 (Z.quot z Second * Second).
Proof.
  unfold int64, Second. intros Hz. pose proof (Z.quot_rem' z 1000000000) as Hd.
  pose proof (Z.rem_bound_abs z 1000000000 ltac:(done)) as Hr. destruct (Z_le_gt_dec 0 z) as [Hp|Hn].
  - pose proof (Z.rem_nonneg z 1000000000 ltac:(done) Hp). lia.
  - pose proof (Z.rem_nonpos z 1000000000 ltac:(done) ltac:(lia)). lia.
Qed.

Lemma wrap_seconds z : int64 z → wrap64 (Z.quot z Second * Second) = Z.quot z Second * Second.
Proof. intros Hz. by apply wrap64_id, whole_seconds. Qed.

(** The control plane relays what the broker asked. A broker's request
    that can be sent is accepted, and the request the control plane sends in turn
    is the same, field by field (host, command, elevation, key, TTL, dry-run
    flags, end user and bearer, or the cluster action), except that it names the
    broker in [on_behalf_of], carries the control plane's own approval flag, and
    has no learn intent. *)
Theorem relay_faithful i cn b :
  sendable i → ∃ j, intentFrom ParsePublicKey (wire i) cn b = Some j ∧ wire j = relayed cn b (wire i).
Proof.
  intros [Hi Hs]. pose proof (wrap_seconds _ Hi) as Hw.
  assert (Z.quot (wrap64 (Z.quot (in_RequestedTTL i) Second * Second)) Second = Z.quot (in_RequestedTTL i) Second) as Hq
    by (rewrite Hw; by apply Z.quot_mul).
  unfold intentFrom. unfold wire_of_intent at 1 2 5. cbn.
  destruct (bool_decide (in_TargetType i = TargetTypeK8s)) eqn:Hk; cbn in Hs.
  - destruct (in_K8s i) as [a|] eqn:Ha; [|done]. cbn. eexists. split; [reflexivity|].
    unfold relayed, wire_of_intent. cbn. rewrite Hq, Hk, Ha. done.
  - rewrite (bool_decide_eq_false_2 (in_PublicKey i = "")) by done. cbn. rewrite key_roundtrip by done. eexists. split; [reflexivity|].
    unfold relayed, wire_of_intent. cbn. rewrite Hq, Hk. by rewrite bool_decide_eq_false_2 by done.
Qed.

(** What the signer reads off the wire: the broker's intent, or nothing when it has
    no key. *)
Lemma decoded_intent i a u gs ctx :
  in_TargetType i ≠ TargetTypeK8s → ad_req a = set_end_user u gs ctx (wire i) →
  signed_intent ParsePublicKey a =
    if bool_decide (in_PublicKey i = "") then None else Some (decided_intent (ad_caller a) (ad_approved a) u gs ctx i).
Proof.
  intros Hk Ha. unfold signed_intent, is_k8s, ssh_intent. rewrite Ha. unfold wire_of_intent. cbn. rewrite (bool_decide_eq_false_2 _ Hk). cbn.
  rewrite (bool_decide_eq_false_2 ("" = TargetTypeK8s)) by done.
  case_bool_decide; [by rewrite (@key_empty _ _ KC)|]. by rewrite key_roundtrip.
Qed.
End relay.

(** ** Waiting for an approval *)

Inductive robs := | RObs {X : Type} (c : rcall X) (x : X).

(** The [k]-th tick of a ticker comes no earlier than [k] intervals after its
    start; the rest of the world is free. *)
#[export] Instance remote_effects : Effects rcall robs unit := {|
  observe X c x := RObs c x;
  answers _ X c := match c in rcall X return X → Prop with
                   | RTick start interval k => fun x => match x with Some now => start + Z.of_nat k * interval ≤ now | None => True end
                   | _ => fun _ => True
                   end;
|}.

Section poll.
Context (ParseCertificate : string → option Certificate).

Lemma poll_loop_fuel fuel id start deadline interval k transient t r :
  (1 ≤ fuel)%nat → 0 < interval → deadline - start < (Z.of_nat k + Z.of_nat fuel - 1) * interval →
  behaves tt (poll_loop ParseCertificate fuel id start deadline interval k transient) t (Some r) →
  r ≠ Err RPollFuel ∧ (length t ≤ 2 * fuel)%nat.
Proof.
  revert k transient t. induction fuel as [|fuel IH]; intros k transient t Hf Hint Hd; [lia|]. cbn [poll_loop].
  intros (tick & t1 & Htick & -> & Hb)%behaves_call. destruct tick as [now|]; [|apply behaves_Ret in Hb as [-> [= ->]]; split; [done|simpl; lia]].
  simpl in Htick. destruct (deadline <? now) eqn:Hdl; [apply behaves_Ret in Hb as [-> [= ->]]; split; [done|simpl; lia]|].
  apply Z.ltb_ge in Hdl. assert (1 ≤ fuel)%nat as Hf' by (destruct fuel; [exfalso; lia|lia]).
  apply behaves_call in Hb as (rp & t2 & _ & -> & Hb).
  assert (∀ tr, behaves tt (poll_loop ParseCertificate fuel id start deadline interval (S k) tr) t2 (Some r) →
    r ≠ Err RPollFuel ∧ (length (RObs (RTick start interval k) (Some now) :: RObs (RPoll id) rp :: t2) ≤ 2 * S fuel)%nat) as Hrec.
  { intros tr Hp. destruct (IH (S k) tr t2 Hf' Hint ltac:(nia) Hp). split; [done|]. simpl. lia. }
  assert (∀ x, x ≠ Err RPollFuel → behaves tt (Ret (E := rcall) x) t2 (Some r) →
    r ≠ Err RPollFuel ∧ (length (RObs (RTick start interval k) (Some now) :: RObs (RPoll id) rp :: t2) ≤ 2 * S fuel)%nat) as Hret.
  { intros x Hx [-> [= ->]]%behaves_Ret. split; [done|]. simpl. lia. }
  destruct rp as [| |rp]; [by refine (Hret _ _ Hb)..|].
  destruct (rp_Status rp =? 202); [by eapply Hrec|]. destruct (transient_status _); [case_match; [by refine (Hret _ _ Hb)|by eapply Hrec]|].
  destruct (rp_Status rp =? 200); [|by refine (Hret _ _ Hb)]. refine (Hret _ _ Hb).
  destruct (rp_body rp) as [w|]; [|done]. unfold issued_poll, issued_cert. repeat case_match; done.
Qed.

Lemma poll_interval_pos rm : 0 < poll_interval rm.
Proof. unfold poll_interval, defaultPollInterval, Second. destruct (Z.leb_spec (rm_pollInterval rm) 0); lia. Qed.

(** [C36] Waiting for a human ends. Against a ticker that keeps its interval, the
    client's wait for an approval returns a result or an error other than the
    model's own fuel, after at most one poll per interval of the configured wait
    and one more, whatever the control plane answers. *)
Theorem pollApproval_returns rm id t r :
  behaves tt (pollApproval ParseCertificate rm id) t (Some r) →
  r ≠ Err RPollFuel ∧ (length t ≤ 1 + 2 * poll_fuel rm)%nat.
Proof.
  unfold pollApproval. destruct (Z.leb_spec (rm_approvalWait rm) 0) as [Hw|Hw].
  { intros [-> [= ->]]%behaves_Ret. split; [done|]. simpl. lia. }
  intros (now & t1 & _ & -> & Hb)%behaves_call. pose proof (poll_interval_pos rm) as Hp.
  apply poll_loop_fuel in Hb as [H1 H2]; [split; [done|rewrite length_cons; lia]|unfold poll_fuel; lia|done|].
  { unfold poll_fuel. pose proof (Z.mul_succ_div_gt (rm_approvalWait rm) (poll_interval rm) Hp).
    pose proof (Z.div_pos (rm_approvalWait rm) (poll_interval rm) ltac:(lia) Hp). 
    set (q := rm_approvalWait rm / poll_interval rm) in *.
    replace (Z.of_nat 1 + Z.of_nat (S (Z.to_nat q)) - 1) with (Z.succ q) by lia. lia. }
Qed.
End poll.
