(* ===== verification/EndToEndRemote.v ===== *)
(** * Broker, wire and signing service

    The engine's one-shot execution when its signer is the signing service behind
    the wire client, instead of a signer in the same process. *)

From S2P Require Import Prelude GoStrings CmdPolicy PolicySet K8sAction Intent Freeze Grants CA Encoding Elevate Crypto Sealed HostPolicy K8sPolicy Signer Routes RateLimit Approval Broker Prog Engine EngineRun EndToEnd OAuth ServiceConfig Threads Service ServiceSign ServicePolicy Remote Relay.

Section remote.
Context `{RE : RegexpEngine} `{SP : ShellParser} `{ED : Ed25519} `{EJ : EnvelopeJSON} `{JS : JSONStrings}.
Context (oidc_Verify : string → string → option IDToken) (oor : Z).
Context (MarshalAuthorizedKey : string → string) (ParsePublicKey : string → option string).
Context {KC : KeyCodec MarshalAuthorizedKey ParsePublicKey}.
(** A certificate on the wire and back. *)
Context (MarshalCertificate : Certificate → string) (ParseCertificate : string → option Certificate).
Context (cert_roundtrip : ∀ c, ParseCertificate (MarshalCertificate c) = Some c).
Context (p : server_params) (I : svc → Prop) (rm : Remote).

#[local] Existing Instance service_effects.
#[local] Abbreviation wire := (wire_of_intent MarshalAuthorizedKey) (only parsing).

(** A response of the service as the client reads it. *)
Definition reply_body (w : WireResponse) : wire_reply :=
  mkWireReply (match ws_Certificate w with Some c => MarshalCertificate c | None => "" end) (ws_Serial w) (ws_K8sToken w)
    (ws_K8sTokenExpiry w) (ws_ElevationPrefix w) (ws_Decision w) (ws_Envelope w).
Definition reply_of (resp : http_response) : reply :=
  match resp with
  | HError code => mkReply code "" true None None
  | HRetryAfter secs => mkReply 429 (FormatInt secs) true None None
  | HSign w => mkReply 200 "" true None (Some (reply_body w))
  | _ => mkReply 200 "" true None None
  end.

(** The engine's view of the client's result. *)
Definition remote_class (r : result remote_error Issued) : result sgn_error Issued :=
  match r with
  | Ok iss => Ok iss
  | Err e => Err (if is_unavailable e then ErrSignerUnavailable else if is_rate_limited e then ErrRateLimited else SignDenied)
  end.

(** The answer of a signer behind the wire to the broker [cn]: a result of the
    client when every reply to its request is a response of the sign endpoint to
    that request from that peer. *)
Definition remote_sgn (cn : string) (i : Intent) (r : result sgn_error Issued) : Prop :=
  ∃ t x, @behaves _ _ _ remote_effects tt _ (remote_SignIntent MarshalAuthorizedKey ParseCertificate rm i) t (Some x) ∧ r = remote_class x ∧
    ∀ rp, RObs (RPost (wire i)) (Replied rp) ∈ t →
      ∃ ts req resp, CallerCN (rq_peers req) = Some cn ∧ rq_body req = Some (wire i) ∧
        @behaves _ _ _ (service_effects oidc_Verify oor) I _ (handleSign ParsePublicKey p req) ts (Some resp) ∧ rp = reply_of resp.

(** ** The endpoint never answers 202 *)

Definition not_accepted (r : http_response) : Prop := match r with HError code => code ≠ 202 | _ => True end.

#[local] Ltac answer_walk := repeat first
  [ done
  | match goal with
    | |- always _ (Ret (HError (if ?b then _ else _))) => destruct b
    | |- always _ (pbind (audited _ _ _) _) => apply (always_post not_accepted); [apply always_bind; by intros []|by intros ? ?]
    | |- always _ (pbind _ _) => apply always_bind; intros ?
    | |- always _ (match ?x with _ => _ end) => destruct x
    | |- always _ (let x := _ in _) => cbv zeta
    end ].

Lemma respondSignResult_answers caller req hosts iss :
  always (fun res => not_accepted res.2) (respondSignResult p caller req hosts iss).
Proof. unfold respondSignResult. repeat case_match; apply always_bind; intros []; done. Qed.
Lemma respondSignK8s_answers caller req iss : always (fun res => not_accepted res.2) (respondSignK8s p caller req iss).
Proof. unfold respondSignK8s. repeat case_match; apply always_bind; intros []; done. Qed.

Lemma handleSign_answers r : always not_accepted (handleSign ParsePublicKey p r).
Proof.
  unfold handleSign. apply (always_post (fun g => match g with Err resp => not_accepted resp | Ok _ => True end)).
  { unfold sign_gates. answer_walk. }
  intros [a|resp]; [|done]. intros _. destruct (bool_decide _).
  - unfold handleSignK8s. cbv zeta. destruct (k8sWireShapeError _); [answer_walk|]. destruct (outside _ _); [answer_walk|].
    destruct (bool_decide _); [answer_walk|]. apply always_bind. intros [[iss|] [e|]]; [answer_walk| |answer_walk|done].
    apply (always_post (fun res => not_accepted res.2)); [apply respondSignK8s_answers|]. intros res Hr. destruct (negb res.1); [done|].
    apply always_bind. by intros _.
  - unfold sign_ssh. destruct (ParsePublicKey _); [|done]. destruct (outside _ _); [answer_walk|]. apply always_bind.
    intros [[iss|] [e|]]; [answer_walk| |answer_walk|done].
    apply (always_post (fun res => not_accepted res.2)); [apply respondSignResult_answers|]. intros res Hr. destruct (negb res.1); [done|].
    apply always_bind. intros _. apply always_bind. by intros _.
Qed.

(** ** A certificate through the wire *)

Lemma settled_end_user t callers caller body req :
  end_user_settled t callers caller body req → ∃ u gs ctx, req = set_end_user u gs ctx body.
Proof.
  unfold end_user_settled. destruct (MayRequireVerifiedEndUser _ _).
  - intros (st & v & ident & _ & _ & _ & Ha). unfold accept_identity in Ha. repeat (case_match; [|done]). injection Ha as <-. eauto.
  - intros ->. exists (wr_EndUser body), (wr_EndUserGroups body), (wr_EndUserContext body). by destruct body.
Qed.

Lemma remote_reply cn i iss :
  remote_sgn cn i (Ok iss) →
  ∃ ts req w, CallerCN (rq_peers req) = Some cn ∧ rq_body req = Some (wire i) ∧
    @behaves _ _ _ (service_effects oidc_Verify oor) I _ (handleSign ParsePublicKey p req) ts (Some (HSign w)) ∧
    issuedFromWire ParseCertificate i (reply_body w) = Ok iss.
Proof.
  intros (t & x & Hb & Hx & Hrp). destruct x as [iss'|e]; [|done]. injection Hx as <-.
  apply behaves_call in Hb as (sn & t1 & _ & -> & Hb). destruct sn as [| |rp]; [by apply behaves_Ret in Hb as [_ ?]..|].
  destruct (Hrp rp ltac:(by left)) as (ts & req & resp & Hcn & Hbd & Hsv & ->). exists ts, req.
  pose proof (@behaves_always _ _ _ (service_effects oidc_Verify oor) _ I _ _ _ _ (handleSign_answers req) Hsv) as Hna.
  destruct resp as [code| |r| | | | | | | | | | |]; try (apply behaves_Ret in Hb as [_ Hb]; cbn in Hb; discriminate Hb).
  - simpl in Hna, Hb. rewrite (proj2 (Z.eqb_neq code 202) Hna) in Hb. destruct (negb (code =? 200)); by apply behaves_Ret in Hb as [_ ?].
  - apply behaves_Ret in Hb as [_ Hb]. exists r. split_and!; try done. cbn in Hb. by injection Hb.
Qed.

(** The certificate a broker receives is one the signer issued for its intent,
    under its authenticated name. *)
Lemma remote_signed cn i iss cert :
  remote_sgn cn i (Ok iss) → is_Certificate iss = Some cert →
  in_TargetType i ≠ TargetTypeK8s → in_OnBehalfOf i = "" →
  ∃ a u gs ctx s iter env issued, I s ∧ (∃ s1, I s1 ∧ s_state s1 = ad_state a) ∧ RangeOrder iter ∧
    (ad_approved a = true → in_Approved i = true) ∧ is_Certificate issued = Some cert ∧
    SignIntent (with_grants (provider_of iter (s_grants s)) (sv_local (ad_state a))) env
      (decided_intent cn (ad_approved a) u gs ctx i) = (Some issued, None).
Proof.
  intros Hr Hc Hk Hob. destruct (remote_reply _ _ _ Hr) as (ts & req & w & Hcn & Hbd & Hsv & Hw).
  unfold issuedFromWire in Hw. rewrite (bool_decide_eq_false_2 _ Hk) in Hw.
  destruct (in_DryRun i || bool_decide (wy_Certificate (reply_body w) = "")) eqn:Hd; [injection Hw as <-; done|].
  apply orb_false_elim in Hd as [Hd Hne]. apply bool_decide_eq_false in Hne. unfold issued_cert in Hw. simpl in Hne, Hw.
  destruct (ws_Certificate w) as [c|] eqn:Hwc; [|done]. rewrite cert_roundtrip in Hw. injection Hw as <-. simpl in Hc. injection Hc as ->.
  assert (credential (HSign w) = true) as Hcred by (simpl; by rewrite Hwc, bool_decide_eq_true_2).
  destruct (handleSign_credential oidc_Verify oor I p ParsePublicKey ts req _ Hsv Hcred) as (body & a & j & issued & Hg & Hi).
  pose proof (gd_body _ _ _ _ _ Hg) as Hb. rewrite Hbd in Hb. injection Hb as <-.
  pose proof (gd_peer _ _ _ _ _ Hg) as Hp. rewrite Hcn in Hp. injection Hp as ->.
  pose proof (gd_caller _ _ _ _ _ Hg) as Hcl. unfold resolveCaller in Hcl. simpl in Hcl. rewrite Hob, bool_decide_eq_true_2 in Hcl by done.
  injection Hcl as Hcl. destruct (settled_end_user _ _ _ _ _ (gd_user _ _ _ _ _ Hg)) as (u & gs & ctx & Hreq).
  pose proof (iss_intent _ _ _ _ _ _ _ _ Hi) as Hint.
  rewrite (decoded_intent MarshalAuthorizedKey ParsePublicKey i a u gs ctx Hk Hreq) in Hint. case_bool_decide; [done|]. injection Hint as <-.
  destruct (iss_answer _ _ _ _ _ _ _ _ Hi) as (s & iter & env & HI & Hit & Hs).
  destruct (iss_carries _ _ _ _ _ _ _ _ Hi) as (w' & [= <-] & _ & _ & [(Hcert & _)|(Hno & _)]); [|congruence].
  exists a, u, gs, ctx, s, iter, env, issued. split_and!; [done|apply (gd_live _ _ _ _ _ Hg)|done| |congruence|by rewrite <-Hcl in Hs].
  unfold ad_approved. rewrite Hreq. simpl. by intros [? _]%andb_prop.
Qed.

End remote.
