(* ===== verification/ControlPlaneRun.v ===== *)
(** * Running the control plane

    The semantics of the control plane's calls as a function (fixed clock, fresh
    ids, every statement and append succeeds), proved to be one of its behaviours,
    and a day on which the theorems about it are applied: a broker asks, the
    signer demands an approval, a second person grants it, the broker collects. *)

From S2P Require Import Prelude GoStrings CmdPolicy PolicySet K8sAction Intent Freeze Grants CA Encoding Elevate Crypto Sealed HostPolicy K8sPolicy Signer RateLimit Approval Behavior Broker OAuth ServiceConfig Prog Threads Service ServiceRun Remote ControlPlane ControlPlaneInv ControlPlaneTrace Relay.

Section exec.
Context `{WJ : WireJSON} (signer : Intent → result remote_error Issued) (append_ok : crecord → bool) (now : time).

(** [None] when the drawn id is not fresh or the clock is behind. *)
Definition fresh_id (s : cplane) : string := "ap" +:+ FormatInt (Z.of_nat (length (cp_ops s))).

Definition cp_exec (t : nat) (X : Type) (c : ccall X) (s : cplane) : option (X * cplane) :=
  let r := gs_reg (cp_reg s) in
  let timed (k : X * cplane) : option (X * cplane) := if gs_clock (cp_reg s) <=? now then Some k else None in
  match c in ccall X return (X * cplane → option (X * cplane)) → option (X * cplane) with
  | CCheck subj host cmd => fun _ => let x := Check map_to_list (cp_tracker s) now subj host cmd in Some (x.2, set_cp_tracker x.1 s)
  | CLearn subj host cmd => fun _ => Some (tt, set_cp_tracker (Learn map_to_list (cp_tracker s) now subj host cmd) s)
  | CSign i => fun _ => Some (signer i, add_sent i s)
  | CFetchHosts _ => fun _ => Some (Ok ∅, s)
  | CFetchClusters _ => fun _ => Some (Ok ∅, s)
  | CAppend e => fun _ => if append_ok e then Some (true, set_cp_log (cp_log s ++ [e]) s) else Some (false, s)
  | CNotify _ => fun _ => Some (true, s)
  | CNewID => fun _ => Some (true, s)
  | CPurge => fun timed => timed (tt, reg_apply (RPurge true now) ∅ s)
  | CInsert req caller rule stripped => fun timed =>
      if bool_decide (fresh_id s ∉ cp_named s)
      then timed ((insert_approval true now r (fresh_id s) req caller rule stripped).1,
                  reg_apply (RInsert true now (fresh_id s) req caller rule stripped) {[fresh_id s]} s)
      else None
  | CGet id => fun timed => timed ((Get now r id).1, reg_apply (RGet now id) {[id]} s)
  | CDecide id approve by_ learn => fun timed =>
      let x := (rg_Decide true now r id approve by_ learn).1 in
      timed (x, add_decided (match x with Ok a => if approve then [(by_, a)] else [] | Err _ => [] end)
                  (reg_apply (RDecide true now id approve by_ learn) {[id]} s))
  | CBegin id => fun timed =>
      let x := (BeginConsume now r id).1 in
      let s1 := reg_apply (RBegin now id) {[id]} s in
      timed (x, if x.1 then set_cp_holder (<[id := t]> (cp_holder s)) s1 else s1)
  | CFinish id ok => fun _ => Some (tt, set_cp_holder (delete id (cp_holder s)) (reg_apply (RFinish true id ok) {[id]} s))
  | CRequest id => fun _ => Some (Request r id, s)
  | CReport id => fun timed => timed ((ReportResultOnce now r id).1, reg_apply (RReport now id) {[id]} s)
  | CList => fun timed => timed ((rg_List map_to_list true now r).1, reg_apply (RList true now) ∅ s)
  end timed.

Lemma cp_exec_sem t X (c : ccall X) s x s' : cp_exec t X c s = Some (x, s') → cp_sem t X c s x s'.
Proof.
  unfold cp_exec. destruct c; cbn [cp_sem]; intros H; try (case_bool_decide as Hid; [|done]);
    try match type of H with (if gs_clock _ <=? _ then _ else _) = _ => destruct (Z.leb_spec (gs_clock (cp_reg s)) now); [|done] end.
  - simplify_eq. destruct (Check map_to_list (cp_tracker s) now subject host command) eqn:E. eexists map_to_list, now, _.
    split_and!; [apply _|done|done].
  - simplify_eq. exists map_to_list, now. split; [apply _|done].
  - by simplify_eq.
  - by simplify_eq.
  - by simplify_eq.
  - destruct (append_ok e); simplify_eq; [done|by left].
  - by simplify_eq.
  - by simplify_eq.
  - simplify_eq. by exists true, now.
  - injection H as <- <-. by exists true, now, (fresh_id s).
  - injection H as <- <-. by exists now.
  - injection H as <- <-. by exists true, now.
  - injection H as <- <-. by exists now.
  - injection H as _ <-. by exists true.
  - by simplify_eq.
  - injection H as <- <-. by exists now.
  - injection H as <- <-. exists map_to_list, true, now. split_and!; [apply _|done..].
Qed.
End exec.

(** ** A day *)

#[local] Existing Instance host_json.

Definition day_cfg : BehaviorConfig := mkBehaviorConfig "enforce" 10 0 0 0.
Definition day_params : cp_params := mkCPParams {["bob"; "agent"]} {["agent"]} {["agent"]} true None day_cfg.

(** A signer that demands an approval, and issues on one. *)
Definition day_decision : DecisionInfo :=
  mkDecisionInfo true NoReason true (RuleRequireApproval "stop") "" 60 "" "" None false false.
Definition day_cert : Certificate := mkCertificate "key" 7 "" [] 0 3900 ∅ ∅ "ca".
Definition day_signer (i : Intent) : result remote_error Issued :=
  if in_Approved i then Ok (mkIssued (Some day_cert) 7 "" 0 None "" (Some day_decision) "")
  else Ok (mkIssued None 0 "" 0 None "" (Some day_decision) "").
Definition day_exec (append_ok : crecord → bool) := cp_exec day_signer append_ok Hour.

Definition ask : http_request WireRequest :=
  mkHTTPRequest "POST" (peer "agent") (Some (relayed "" false approved_stop)) "" "" "".
(** The id drawn is [ap1]: one operation precedes the creation. *)
Definition poll (id : string) : http_request unit := mkHTTPRequest "GET" (peer "agent") None "" "" id.
Definition grant_it (cn id : string) : http_request decideReq :=
  mkHTTPRequest "POST" (peer cn) (Some (mkDecideReq true true 600)) "" "" id.

Definition handlers_day : list (cprog cp_response) :=
  [handleSign line_key day_params ask; handleResult line_key day_params (poll "ap1");
   handleApprovalDecide day_params "application/json" (grant_it "agent" "ap1");
   handleApprovalDecide day_params "application/json" (grant_it "bob" "ap1");
   handleResult line_key day_params (poll "ap1"); handleResult line_key day_params (poll "ap1")].
Definition cp_start : cplane := cp_init 0 true day_cfg.
Definition run_day : option (list cp_response * cplane) := exec_all (day_exec (fun _ => true)) 0 handlers_day cp_start.

Example run_day_results :
  (fun x => map (fun r => match r with CError c => c | CSigned _ => 200 | CApprovalPending _ | CWaiting _ => 202 | CApproval _ => 201 | _ => 0 end) x.1) <$> run_day
  = Some [202; 202; 403; 201; 200; 410].
Proof. vm_compute. reflexivity. Qed.

(** ** The theorems on it *)

Definition after_handlers : cplane := match run_day with Some (_, s) => s | None => cp_start end.
Definition no_sort (f : Approval → Approval → bool) (l : list Approval) : list Approval := l.

Lemma run_day_reach l s : run_day = Some (l, s) → cp_reach line_key day_params 0 true no_sort day_cfg s (map Ret l).
Proof.
  intros Hd. apply (exec_all_reach (day_exec (fun _ => true)) cp_sem _ (cp_exec_sem _ _ _) _ handlers_day cp_start s l []); [|exact Hd].
  unfold handlers_day. repeat constructor.
Qed.
Lemma run_day_ends : is_Some run_day.
Proof. vm_compute. eauto. Qed.
Lemma after_handlers_reach : ∃ l, cp_reach line_key day_params 0 true no_sort day_cfg after_handlers (map Ret l).
Proof.
  pose proof run_day_reach as H. pose proof run_day_ends as [x Hx]. unfold after_handlers. rewrite Hx in *. destruct x as [l s].
  exists l. by apply H.
Qed.

Lemma approved_by_second_person_witness :
  ∃ i, i ∈ cp_sent after_handlers ∧ in_Approved i = true ∧ ∃ cn, cn ∈ cs_approveCN day_params ∧ cn ≠ "agent".
Proof.
  assert (∃ i, last (cp_sent after_handlers) = Some i ∧ in_Approved i = true ∧ in_OnBehalfOf i = "agent") as (i & Hi & Ha & Ho)
    by (eexists; split; [vm_compute; reflexivity|split; reflexivity]).
  apply last_Some_elem_of in Hi. exists i. split; [exact Hi|]. split; [exact Ha|]. destruct after_handlers_reach as [l Hl].
  destruct (approved_by_second_person line_key day_params 0 true no_sort day_cfg after_handlers (map Ret l) eq_refl Hl) as [H _].
  destruct (H i Hi Ha) as (cn & a & _ & _ & Hcn & Hne & Hf & _). exists cn. split; [exact Hcn|].
  destruct (forwards_fields _ _ _ Hf) as (Hob & _). rewrite Ho in Hob. by rewrite Hob.
Defined.

Lemma registry_protocol_witness : gs_issued (cp_reg after_handlers) = ["ap1"] ∧ NoDup (gs_issued (cp_reg after_handlers)).
Proof.
  split; [vm_compute; reflexivity|]. destruct after_handlers_reach as [l Hl].
  refine (proj1 (proj2 (registry_protocol line_key day_params 0 true no_sort day_cfg after_handlers (map Ret l) eq_refl Hl) _)).
  vm_compute. repeat constructor.
Defined.

(** The poll that collects, from the state before it. *)
Definition asked : option (list cp_response * cplane) := exec_all (day_exec (fun _ => true)) 0 (take 4 handlers_day) cp_start.
Definition granted_state : cplane := match asked with Some (_, s) => s | None => cp_start end.
Definition poll_run : option (cp_response * cplane * list cobs) :=
  exec_run (EF := cp_effects) (day_exec (fun _ => true)) (fun _ _ => true) 4 (handleResult line_key day_params (poll "ap1")) granted_state.
Definition issued_answer : WireResponse := mkWireResponse (Some day_cert) 7 "" 0 "" (Some day_decision) "".

Lemma approved_result_recorded_witness :
  ∃ t s, poll_run = Some (CSigned issued_answer, s, t) ∧
    ∃ i issued t1 t2 e ok, t = t1 ++ CObs (CSign i) (Ok issued) :: t2 ++ [CObs (CAppend e) ok; CObs (CFinish "ap1" true) tt] ∧ ok = true.
Proof.
  assert (∃ t s, poll_run = Some (CSigned issued_answer, s, t)) as (t & s & Hr) by (eexists _, _; vm_compute; reflexivity).
  exists t, s. split; [exact Hr|].
  assert (behaves tt (handleResult line_key day_params (poll "ap1")) t (Some (CSigned issued_answer))) as Hb.
  { refine (exec_run_behaves (EF := cp_effects) _ tt (fun _ => True) _ 4 _ granted_state _ s t _ _ Hr); [|exact I]. intros. split; exact I. }
  destruct (approved_result_recorded line_key day_params t (poll "ap1") (CSigned issued_answer) Hb) as [H _].
  destruct (H _ eq_refl) as (cn & a & rt & i & issued & t0 & _ & _ & _ & _ & _ & _ & Ht & t1 & t2 & e & ok & Hdl & _ & _ & _ & Hok & _).
  exists i, issued, (CObs (CGet "ap1") (Some a) :: CObs (CBegin "ap1") (true, rt) :: t1), t2, e, ok. split; [|by apply Hok].
  rewrite Ht, Hdl. cbn. by rewrite <-app_assoc, <-app_comm_cons, <-app_assoc.
Defined.

Definition ask_run : option (cp_response * cplane * list cobs) :=
  exec_run (EF := cp_effects) (day_exec (fun _ => true)) (fun _ _ => true) 0 (handleSign line_key day_params ask) cp_start.
Definition ask_check : ccall (list anomaly * bool) := CCheck "agent:alice" "web1" "systemctl stop nginx".

Lemma guardrails_before_signing_witness :
  ∃ resp s x i y t2, ask_run = Some (resp, s, CObs ask_check x :: CObs (CSign i) y :: t2) ∧ in_Approved i = false ∧ in_OnBehalfOf i = "agent".
Proof.
  assert (∃ resp s x i y t2, ask_run = Some (resp, s, CObs ask_check x :: CObs (CSign i) y :: t2)) as (resp & s & x & i & y & t2 & Hr)
    by (eexists _, _, _, _, _, _; vm_compute; reflexivity).
  exists resp, s, x, i, y, t2. split; [exact Hr|].
  assert (behaves tt (handleSign line_key day_params ask) (CObs ask_check x :: CObs (CSign i) y :: t2) (Some resp)) as Hb.
  { refine (exec_run_behaves (EF := cp_effects) _ tt (fun _ => True) _ 0 _ cp_start _ s _ _ _ Hr); [|exact I]. intros. split; exact I. }
  destruct (guardrails_before_signing line_key day_params _ ask (Some resp) [CObs ask_check x] i y t2 Hb eq_refl)
    as (cn & req & Hcn & _ & _ & (Ha & Ho & _) & _).
  split; [exact Ha|]. rewrite Ho. by injection Hcn.
Defined.

(** ** On the wire *)

#[local] Instance line_codec : KeyCodec (fun k => k) line_key.
Proof. split; [|done]. intros k Hk. unfold line_key. by rewrite bool_decide_eq_false_2. Qed.

Definition broker_intent : Intent :=
  mkIntent "local" "web1" "" None RoleTarget PurposeOneshot "" "uptime" (90 * Second) "key" true "" false false false false false
    "" "alice" (Some []) "" "token" 0 "" "".
Lemma relay_faithful_witness : ∃ j, intentFrom line_key (wire_of_intent (fun k => k) broker_intent) "agent" false = Some j.
Proof.
  destruct (relay_faithful (fun k => k) line_key broker_intent "agent" false) as (j & Hj & _); [|by exists j].
  split; [split; vm_compute; congruence|vm_compute; discriminate].
Defined.

(** A control plane that stays busy. *)
Definition patient : Remote := mkRemote (7 * Second) (2 * Second).
Definition busy_handler : handler rcall unit := fun X c s =>
  match c in rcall X return unit * X with
  | RPost _ => (s, NotSent)
  | RPoll _ => (s, Replied (mkReply 202 "" true None None))
  | RClock => (s, 0)
  | RTick start interval k => (s, Some (start + Z.of_nat k * interval))
  | RGetHosts _ => (s, NotSent)
  | RGetClusters _ => (s, NotSent)
  | RGetRevocations => (s, NotSent)
  end.
Definition busy_poll := traced busy_handler (pollApproval (fun _ => None) patient "ap1") ().

Lemma pollApproval_returns_witness : busy_poll.2 = Err (RDeadline "ap1") ∧ busy_poll.2 ≠ Err RPollFuel ∧ (length busy_poll.1.2 ≤ 9)%nat.
Proof.
  split; [vm_compute; reflexivity|].
  refine (pollApproval_returns (fun _ => None) patient "ap1" busy_poll.1.2 busy_poll.2 _).
  apply traced_behaves. intros X c s. destruct c; try exact I. apply Z.le_refl.
Defined.

(** ** A rejected approval that stands *)

(** The append of the decision's record fails, every other append succeeds. *)
Definition decision_unwritable (e : crecord) : bool := negb (String.prefix "approval-decision-allow" (cr_Outcome e)).
Definition unwritable_day : list (cprog cp_response) :=
  [handleSign line_key day_params ask; handleApprovalDecide day_params "application/json" (grant_it "bob" "ap1");
   handleResult line_key day_params (poll "ap1")].

(** An approval answered with 503 still stands. In fail-closed mode, when the
    record of an allow decision cannot be written, the approver is answered 503,
    but the registry has already taken the decision: the broker's next poll
    receives the credential, and no record of the decision exists. *)
Theorem rejected_approval_released :
  ∃ s, exec_all (day_exec decision_unwritable) 0 unwritable_day cp_start
       = Some ([CApprovalPending "ap1"; CError 503; CSigned issued_answer], s) ∧
    cs_auditFailClosed day_params = true ∧
    existsb (fun e => String.prefix "approval-decision-allow" (cr_Outcome e)) (cp_log s) = false.
Proof. eexists. split; [vm_compute; reflexivity|]. split; vm_compute; reflexivity. Qed.
