(* ===== verification/EndToEndRemoteRun.v ===== *)
(** * Running broker, wire and signing service

    The sample broker of [EndToEnd] with the sample service of [ServiceRun] as its
    signer: one execution through both, on which the composed theorem is applied. *)

From S2P Require Import Prelude GoStrings CmdPolicy PolicySet K8sAction Intent Freeze Grants CA Encoding Elevate Crypto Sealed HostPolicy K8sPolicy Signer Routes RateLimit Approval Sessions Revocation Prog Broker Engine EngineSessions EngineRun EngineSessionRun EndToEnd OAuth ServiceConfig Threads Service ServiceInv ServiceSign ServicePolicy ServiceRun Remote Relay EndToEndRemote.

(** ** Certificates as text *)

#[local] Instance Certificate_eq_dec : EqDecision Certificate.
Proof. solve_decision. Defined.
#[local] Instance Certificate_countable : Countable Certificate.
Proof.
  refine (inj_countable'
    (fun c => (cert_Key c, cert_Serial c, cert_KeyId c, cert_ValidPrincipals c, cert_ValidAfter c, cert_ValidBefore c,
               cert_CriticalOptions c, cert_Extensions c, cert_SignatureKey c))
    (fun '(k, n, id, ps, va, vb, co, ex, sk) => mkCertificate k n id ps va vb co ex sk) _).
  by intros [].
Defined.

Fixpoint bits (p : positive) : string :=
  match p with xH => "" | xO p => String "0" (bits p) | xI p => String "1" (bits p) end.
Fixpoint unbits (s : string) : positive :=
  match s with "" => xH | String c s => if ascii_eqb c "0" then xO (unbits s) else xI (unbits s) end.
Lemma unbits_bits p : unbits (bits p) = p.
Proof. induction p as [p IH|p IH|]; simpl; [by rewrite IH|by rewrite IH|done]. Qed.

Definition cert_text (c : Certificate) : string := bits (encode c).
Definition cert_of_text (s : string) : option Certificate := decode (unbits s).
Lemma cert_text_roundtrip c : cert_of_text (cert_text c) = Some c.
Proof. unfold cert_of_text, cert_text. by rewrite unbits_bits, decode_encode. Qed.

(** ** The deployment *)

#[local] Existing Instances anchored_engine plain_parser toy_ed25519 singleton_json.
#[local] Instance sample_codec : EnvelopeJSON := fixed_json sample_envelope.
#[local] Instance text_codec : KeyCodec (fun k => k) line_key.
Proof. split; [|done]. intros k Hk. unfold line_key. by rewrite bool_decide_eq_false_2. Qed.

Definition agent_post (i : Intent) : http_request WireRequest :=
  mkHTTPRequest "POST" (peer "agent") (Some (wire_of_intent (fun k => k) i)) "" "" "".
Definition served_run (i : Intent) : option (http_response * svc * list sobs) :=
  exec_run (EF := service_effects no_oidc 0) svc_exec not_swap_call 0 (handleSign line_key closed_params (agent_post i)) svc_start.

(** One answer to the client's request. *)
Definition answer_with (s : sent reply) : Prog.handler rcall unit := fun X c u =>
  match c in rcall X return unit * X with
  | RPost _ => (u, s)
  | RPoll _ => (u, NotSent)
  | RClock => (u, 0)
  | RTick _ _ _ => (u, None)
  | RGetHosts _ => (u, NotSent)
  | RGetClusters _ => (u, NotSent)
  | RGetRevocations => (u, NotSent)
  end.
Definition impatient : Remote := mkRemote 0 0.
Definition client (i : Intent) : Prog.prog rcall (result remote_error Issued) := remote_SignIntent (fun k => k) cert_of_text impatient i.
Definition served_reply (i : Intent) : sent reply :=
  match served_run i with Some (resp, _, _) => Replied (reply_of cert_text resp) | None => NotSent end.
Definition client_run (i : Intent) := @traced _ _ _ remote_effects _ _ (answer_with (served_reply i)) (client i) ().
Definition remote_answer (i : Intent) : result sgn_error Issued := remote_class (client_run i).2.

#[local] Abbreviation sample_sgn :=
  (remote_sgn no_oidc 0 (fun k => k) line_key cert_text cert_of_text closed_params service_sound impatient "agent") (only parsing).

(** The client that does not wait makes one call. *)
Lemma client_trace i s : (@traced _ _ _ remote_effects _ _ (answer_with s) (client i) ()).1.2 = [RObs (RPost (wire_of_intent (fun k => k) i)) s].
Proof.
  unfold client, remote_SignIntent. cbn. destruct s as [| |r]; [done|done|]. cbn. destruct (negb (rp_read r)); [done|].
  destruct (rp_Status r =? 202); [|by destruct (negb _)]. destruct (rp_approval r); [|done]. by destruct (bool_decide _).
Qed.

Definition posted (o : robs) : option (sent reply) := match o with RObs (RPost _) x => Some x | _ => None end.

Lemma remote_answer_sgn i : sample_sgn i (remote_answer i).
Proof.
  exists (client_run i).1.2, (client_run i).2. split_and!; [|done|].
  { apply traced_behaves. by intros X []. }
  intros rp Hin. unfold client_run in Hin. rewrite client_trace in Hin. apply list_elem_of_singleton in Hin.
  apply (f_equal posted) in Hin. injection Hin as Hin. unfold served_reply in Hin. destruct (served_run i) as [[[resp s] ts]|] eqn:Hr; [|done].
  injection Hin as ->. exists ts, (agent_post i), resp. split_and!; [done|done| |done].
  refine (exec_run_behaves (EF := service_effects no_oidc 0) svc_exec service_sound service_sound not_swap_call 0 _ svc_start _ s ts _ svc_start_sound Hr).
  intros X c s0 x s' Hc Hs He. apply svc_exec_sem in He. split; [by exists 0%nat, s0, s'|].
  eapply not_swap_keeps; [|exact Hs|exact He]. by destruct c.
Qed.

Definition remote_handler : handler unit := fun X c s =>
  match c in call X return unit * X with
  | SignIntentCall i => (s, remote_answer i)
  | c => broker_handler _ c s
  end.
Definition remote_env : environment :=
  mkEnv sample_sgn (fun l => Some l) (fun _ _ => True) (fun _ _ => True)
    (opened (fun l => Some l) (fun _ _ => True) (fun _ _ => True)).

Lemma remote_manager_of : manager_of remote_env broker_manager.
Proof. destruct broker_manager_of as [H1 H2]. split; [exact H1|exact H2]. Qed.

Lemma remote_answers X (c : call X) s : answers remote_env c (remote_handler X c s).2.
Proof.
  destruct c; try exact I; simpl.
  - by left.
  - done.
  - apply remote_answer_sgn.
  - by destruct hops.
  - done.
  - by exists broker_manager; split; [apply remote_manager_of|].
  - by exists broker_manager; split; [apply remote_manager_of|].
  - by exists broker_manager; split; [apply remote_manager_of|].
Qed.

Definition remote_exec := Execute 2 broker_engine alice "web1" "uptime" 60 plain_opts.
Definition remote_trace : list obs := (traced remote_handler remote_exec ()).1.2.
Example remote_runs : (traced remote_handler remote_exec ()).2 = Ok (mkResult "up 3 days" "" 0 7 None None).
Proof. vm_compute. reflexivity. Qed.

