(* ===== verification/Redact.v ===== *)
(** * Redaction of secrets in free text

    [internal/redact]: rules compiled from patterns, applied in order to a text
    before it reaches a log, a recording or a notification. Go's regular
    expressions are a parameter; what is used of them is the order and nesting of
    the indices [FindAllStringSubmatchIndex] returns. *)

From S2P Require Import Prelude GoStrings.

Definition Marker : string := "[REDACTED:".
Definition SecretGroup : string := "secret".

Record Pattern := mkPattern { pt_Name : string; pt_Regex : string }.
Record Config := mkConfig { rc_Patterns : list Pattern; rc_DisableDefaults : bool }.
Record rule := mkRule { ru_name : string; ru_re : string; ru_secretIdx : Z }.
Definition Redactor : Type := list rule.

(** The double quote, [0x22]. *)
Definition dq : string := String (ascii_of_nat 34) "".

(** The built-in rules, in the order they run. *)
Definition Defaults : list Pattern :=
  [ mkPattern "flag-password" ("(?i)--?(?:password|passwd|pwd|pass|token|secret|api[-_]?key)[= ]+(?P<secret>" +:+ dq +:+ "[^" +:+ dq +:+ "]+" +:+ dq +:+ "|'[^']+'|[^\s" +:+ dq +:+ "']+)");
    mkPattern "mysql-p-attached" ("(?i)\b(?:mysql|mysqldump|mysqladmin|mariadb|mariadb-dump)\b[^\n|;&]*?\s-p(?P<secret>[^\s-][^\s]*)");
    mkPattern "env-assignment" ("(?i)\b(?:(?:[A-Z0-9]+_)*(?:PASSWORD|PASSWD|PASSPHRASE|SECRET|TOKEN|API_?KEY|ACCESS_?KEY|PRIVATE_?KEY|CREDENTIALS?|AUTH)|(?:[A-Z0-9]+_)+PWD)(?:_[A-Z0-9]+)*=(?P<secret>" +:+ dq +:+ "[^" +:+ dq +:+ "]+" +:+ dq +:+ "|'[^']+'|[^\s" +:+ dq +:+ "']+)");
    mkPattern "uri-userinfo" ("://[^/\s:@]+:(?P<secret>[^@\s/]+)@");
    mkPattern "auth-header" ("(?i)\b(?:authorization|proxy-authorization)\b['" +:+ dq +:+ "]?\s*[:=]\s*['" +:+ dq +:+ "]?(?:bearer|basic|token)\s+(?P<secret>[A-Za-z0-9+/=_.~-]+)");
    mkPattern "curl-user" ("(?:^|\s)(?:-u|--user)[= ]+[^\s:]+:(?P<secret>" +:+ dq +:+ "[^" +:+ dq +:+ "]+" +:+ dq +:+ "|'[^']+'|[^\s" +:+ dq +:+ "']+)");
    mkPattern "jwt" ("\beyJ[A-Za-z0-9_-]{8,}\.[A-Za-z0-9_-]{8,}\.[A-Za-z0-9_-]{8,}\b");
    mkPattern "aws-key-id" ("\b(?:AKIA|ASIA|ABIA|ACCA)[A-Z0-9]{16}\b");
    mkPattern "github-token" ("\b(?:ghp|gho|ghu|ghs|ghr|github_pat)_[A-Za-z0-9_]{20,}\b");
    mkPattern "gitlab-token" ("\bglpat-[A-Za-z0-9_-]{20,}\b");
    mkPattern "slack-token" ("\bxox[baprs]-[A-Za-z0-9-]{10,}\b");
    mkPattern "private-key-block" ("-----BEGIN [A-Z0-9 ]*PRIVATE KEY-----(?s:.*?)(?:-----END [A-Z0-9 ]*PRIVATE KEY-----|\z)") ].

(** ** Names and markers *)

Definition name_char (c : ascii) : bool :=
  is_alnum c || ascii_eqb c "."%char || ascii_eqb c "_"%char || ascii_eqb c "-"%char.

(** [^[a-zA-Z0-9._-]{1,64}$] *)
Definition reValidName (s : string) : bool :=
  (1 <=? slen s) && (slen s <=? 64) && forall_char name_char s.

(** The tail of [^\[REDACTED:[a-zA-Z0-9._-]{1,64}\]$] after [n] characters of the name. *)
Fixpoint marker_tail (n : nat) (s : string) : bool :=
  match s with
  | EmptyString => false
  | String c r =>
      if ascii_eqb c "]"%char then bool_decide (r = "") && (1 <=? n)%nat && (n <=? 64)%nat
      else name_char c && marker_tail (S n) r
  end.
Definition reMarkerToken (s : string) : bool := HasPrefix s Marker && marker_tail 0 (TrimPrefix s Marker).

(** ** Regular expressions *)

Class Regexps : Type := {
  (** [regexp.Compile] reports no error *)
  re_Compile : string → bool;
  (** [SubexpIndex]: -1 when there is no group of that name *)
  re_SubexpIndex : string → string → Z;
  (** [FindAllStringSubmatchIndex(s, -1)] *)
  re_FindAll : string → string → list (list Z);
}.

(** [m[i]] of an index slice the caller has bounds-checked. *)
Definition idx (m : list Z) (i : Z) : Z := default (-1) (m !! Z.to_nat i).

(** The text a match marks as secret: the group where it took part, else all. *)
Definition secret_span (ru : rule) (m : list Z) : Z * Z :=
  let gi := ru_secretIdx ru in
  if (0 <? gi) && (2 * gi + 1 <? Z.of_nat (length m)) && (0 <=? idx m (2 * gi))
  then (idx m (2 * gi), idx m (2 * gi + 1)) else (idx m 0, idx m 1).

(** The loop of [apply]: [last] is where the next piece of context starts. *)
Fixpoint apply_loop (ru : rule) (s : string) (last : Z) (matches : list (list Z)) : string :=
  match matches with
  | [] => slice s last (slen s)
  | m :: ms =>
      let '(start, end_) := secret_span ru m in
      if start <? last then apply_loop ru s last ms
      else if reMarkerToken (slice s start end_) then apply_loop ru s last ms
      else slice s last start +:+ Marker +:+ ru_name ru +:+ "]" +:+ apply_loop ru s end_ ms
  end.

Inductive redact_error := EBadName (i : nat) (name : string) | EBadRegex (name : string).

Section redact.
Context `{RX : Regexps}.

Definition rule_apply (ru : rule) (s : string) : string :=
  let matches := re_FindAll (ru_re ru) s in
  if bool_decide (matches = []) then s else apply_loop ru s 0 matches.

Definition Redact (r : option Redactor) (s : string) : string :=
  match r with
  | None => s
  | Some rules => if bool_decide (s = "") then s else fold_left (fun s ru => rule_apply ru s) rules s
  end.

Fixpoint compile_patterns (i : nat) (pats : list Pattern) : result redact_error (list rule) :=
  match pats with
  | [] => Ok []
  | p :: ps =>
      guard! reValidName (pt_Name p) else EBadName i (pt_Name p) in
      guard! re_Compile (pt_Regex p) else EBadRegex (pt_Name p) in
      let! rs := compile_patterns (S i) ps in
      Ok (mkRule (pt_Name p) (pt_Regex p) (re_SubexpIndex (pt_Regex p) SecretGroup) :: rs)
  end.

(** [New]: [Ok None] is the nil redactor. *)
Definition New (cfg : option Config) : result redact_error (option Redactor) :=
  let pats := match cfg with
              | Some c => (if rc_DisableDefaults c then [] else Defaults) ++ rc_Patterns c
              | None => Defaults
              end in
  if bool_decide (pats = []) then Ok None
  else let! rs := compile_patterns 0 pats in Ok (Some rs).
End redact.

(** ** What a rule does to a text *)

(** The matches as the standard library orders them: successive, inside the
    text, a group that took part inside its match. *)
Fixpoint well_placed (lo len : Z) (ms : list (list Z)) : Prop :=
  match ms with
  | [] => True
  | m :: ms =>
      (lo ≤ idx m 0 ∧ idx m 0 ≤ idx m 1 ∧ idx m 1 ≤ len) ∧
      (∀ g, 0 < g → 2 * g + 1 < Z.of_nat (length m) → 0 ≤ idx m (2 * g) →
        idx m 0 ≤ idx m (2 * g) ∧ idx m (2 * g) ≤ idx m (2 * g + 1) ∧ idx m (2 * g + 1) ≤ idx m 1) ∧
      well_placed (idx m 1) len ms
  end.

(** A text cut into context and secrets. *)
Inductive piece := Keep (t : string) | Mask (t : string).
Fixpoint originals (ps : list piece) : string :=
  match ps with [] => "" | Keep t :: ps => t +:+ originals ps | Mask t :: ps => t +:+ originals ps end.
Fixpoint masked (name : string) (ps : list piece) : string :=
  match ps with
  | [] => ""
  | Keep t :: ps => t +:+ masked name ps
  | Mask _ :: ps => Marker +:+ name +:+ "]" +:+ masked name ps
  end.
(** Where the secrets are. *)
Fixpoint mask_spans (off : Z) (ps : list piece) : list (Z * Z) :=
  match ps with
  | [] => []
  | Keep t :: ps => mask_spans (off + slen t) ps
  | Mask t :: ps => (off, off + slen t) :: mask_spans (off + slen t) ps
  end.

Definition is_secret (s : string) (ab : Z * Z) : bool := negb (reMarkerToken (slice s ab.1 ab.2)).

(** ** Proofs *)

Lemma marker_tail_spec n s : marker_tail n s = true ↔
  ∃ name, forall_char name_char name = true ∧ s = name +:+ "]" ∧ (1 ≤ n + String.length name ≤ 64)%nat.
Proof.
  revert n; induction s as [|c s IH]; intros n; cbn [marker_tail].
  { split; [done|]. intros ([|d name] & _ & H & _); by inversion H. }
  destruct (ascii_eqb c "]"%char) eqn:Ec.
  - apply ascii_eqb_eq in Ec as ->. rewrite !andb_true_iff, bool_decide_eq_true, !Nat.leb_le. split.
    + intros [[-> H1] H2]. exists "". simpl. split_and!; [done..|lia|lia].
    + intros ([|d name] & Hn & H & Hl); simpl in *; [injection H as ->; split_and!; [done|lia|lia]|].
      injection H as <- _. by vm_compute in Hn.
  - rewrite andb_true_iff, IH. split.
    + intros [Hc (name & Hn & -> & Hl)]. exists (String c name). simpl. rewrite Hc. split_and!; [done..|lia|lia].
    + intros ([|d name] & Hn & H & Hl); simpl in *; injection H as -> H; [by rewrite ascii_eqb_refl in Ec|].
      apply andb_true_iff in Hn as [Hd Hn]. split; [done|]. exists name. split_and!; [done..|lia|lia].
Qed.

(** A candidate is left alone exactly when it is one whole marker of a valid name. *)
Lemma reMarkerToken_spec s : reMarkerToken s = true ↔ ∃ name, reValidName name = true ∧ s = Marker +:+ name +:+ "]".
Proof.
  unfold reMarkerToken, reValidName. rewrite andb_true_iff. setoid_rewrite andb_true_iff. setoid_rewrite andb_true_iff.
  setoid_rewrite Z.leb_le. split.
  - intros [(t & ->)%prefix_spec H]. unfold TrimPrefix in H. rewrite prefix_refl_app in H. cbn [Marker String.length sdrop append] in H.
    apply marker_tail_spec in H as (name & Hn & -> & Hl). exists name. split; [|done]. unfold slen. split_and!; [lia|lia|done].
  - intros (name & [[H1 H2] Hn] & ->). unfold TrimPrefix. rewrite prefix_refl_app. split; [done|].
    cbn [Marker String.length sdrop append]. apply marker_tail_spec. exists name. unfold slen in *. split_and!; [done..|lia|lia].
Qed.

Section placed.
Context (ru : rule) (s : string).

Lemma secret_span_placed lo m ms : 0 ≤ lo → well_placed lo (slen s) (m :: ms) →
  let '(a, b) := secret_span ru m in lo ≤ a ∧ a ≤ b ∧ b ≤ idx m 1 ∧ idx m 1 ≤ slen s ∧ lo ≤ idx m 1.
Proof.
  intros Hlo [(H0 & H1 & H2) [Hg _]]. unfold secret_span. destruct (_ && _) eqn:E; [|lia].
  unbool. destruct (Hg (ru_secretIdx ru)) as (G1 & G2 & G3); [lia..|]. lia.
Qed.

(** From [last] on, the loop emits the pieces of the rest of the text. *)
Lemma apply_loop_pieces ms lo last : 0 ≤ last → last ≤ lo → lo ≤ slen s → well_placed lo (slen s) ms →
  ∃ ps, originals ps = slice s last (slen s) ∧ apply_loop ru s last ms = masked (ru_name ru) ps ∧
    mask_spans last ps = List.filter (is_secret s) (map (secret_span ru) ms).
Proof.
  revert lo last; induction ms as [|m ms IH]; intros lo last H0 Hlo Hl Hw.
  { exists [Keep (slice s last (slen s))]. simpl. by rewrite !String_append_nil. }
  pose proof (secret_span_placed lo m ms ltac:(lia) Hw) as Hs. cbn [apply_loop map List.filter].
  destruct (secret_span ru m) as [a b]. destruct Hs as (Ha & Hab & Hb & Hm & Hlm). destruct Hw as (_ & _ & Hw).
  destruct (Z.ltb_spec a last); [lia|]. unfold is_secret at 1. cbn [fst snd].
  destruct (reMarkerToken _); cbn [negb]; [apply (IH (idx m 1)); [lia..|done]|].
  destruct (IH (idx m 1) b) as (ps & P1 & P2 & P3); [lia..|done|].
  exists (Keep (slice s last a) :: Mask (slice s a b) :: ps). cbn [originals masked mask_spans].
  rewrite P1, <-P2, !slice_len by lia. replace (last + (a - last)) with a by lia. replace (a + (b - a)) with b by lia.
  rewrite P3. split_and!; [rewrite !slice_cat by lia; done|done|done].
Qed.
End placed.

Section laws.
Context `{RX : Regexps} (placed : ∀ re s, well_placed 0 (slen s) (re_FindAll re s)).

(** Redaction masks exactly the secrets. A rule cuts the text into context
    and secrets: the secrets are the spans its matches mark, all but those that
    are one whole marker already; each is replaced by the rule's marker, whatever
    it held, and all context is kept byte for byte and in place. *)
Theorem redaction_exact ru s :
  ∃ ps, originals ps = s ∧ rule_apply ru s = masked (ru_name ru) ps ∧
    mask_spans 0 ps = List.filter (is_secret s) (map (secret_span ru) (re_FindAll (ru_re ru) s)).
Proof.
  unfold rule_apply. case_bool_decide as E.
  { rewrite E. exists [Keep s]. simpl. by rewrite !String_append_nil. }
  destruct (apply_loop_pieces ru s (re_FindAll (ru_re ru) s) 0 0) as (ps & P1 & P2 & P3); [lia..|pose proof (slen_nonneg s); lia|auto|].
  exists ps. by rewrite P1, slice_all.
Qed.
End laws.

Section compile.
Context `{RX : Regexps}.

Lemma compile_patterns_Ok i pats rs : compile_patterns i pats = Ok rs →
  Forall2 (fun p ru => reValidName (pt_Name p) = true ∧ re_Compile (pt_Regex p) = true ∧
    ru = mkRule (pt_Name p) (pt_Regex p) (re_SubexpIndex (pt_Regex p) SecretGroup)) pats rs.
Proof.
  revert i rs; induction pats as [|p pats IH]; intros i rs; simpl; [intros [= <-]; constructor|].
  destruct (reValidName _) eqn:E1; [|done]. destruct (re_Compile _) eqn:E2; [|done].
  intros (rs' & H & [= <-])%rbind_Ok. constructor; [done|]. by eapply IH.
Qed.

(** A redactor that starts has every default and every configured rule: there is
    no smaller set to fall back to. *)
Lemma New_complete cfg r : New cfg = Ok (Some r) →
  map ru_name r = map pt_Name ((match cfg with Some c => if rc_DisableDefaults c then [] else Defaults | None => Defaults end)
                               ++ match cfg with Some c => rc_Patterns c | None => [] end) ∧
  Forall (fun ru => reValidName (ru_name ru) = true ∧ re_Compile (ru_re ru) = true) r.
Proof.
  unfold New. intros H.
  assert (∃ pats, pats = ((match cfg with Some c => if rc_DisableDefaults c then [] else Defaults | None => Defaults end)
                               ++ match cfg with Some c => rc_Patterns c | None => [] end) ∧ compile_patterns 0 pats = Ok r) as (pats & <- & Hc).
  { destruct cfg as [c|]; (case_bool_decide; [done|]); apply rbind_Ok in H as (rs & H & [= <-]); eexists; (split; [done|]); [done|].
    by rewrite app_nil_r. }
  apply compile_patterns_Ok in Hc. split.
  - clear H. induction Hc as [|p ru ps rs (_ & _ & ->) _ IH]; [done|]. simpl. by rewrite <-IH.
  - clear H. induction Hc as [|p ru ps rs (H1 & H2 & ->) _ IH]; constructor; auto.
Qed.
End compile.

(** ** A run *)

(** One pattern, one text: [key=abc] with the value in group 1. *)
Definition sample_regexps : Regexps := {|
  re_Compile := fun _ => true;
  re_SubexpIndex := fun _ _ => 1;
  re_FindAll := fun _ s => if bool_decide (s = "key=abc key=[REDACTED:k] x") then [[0; 7; 4; 7]; [8; 24; 12; 24]] else [] |}.

Lemma sample_placed re s : well_placed 0 (slen s) (@re_FindAll sample_regexps re s).
Proof.
  simpl. case_bool_decide as E; [|done]. rewrite E. clear. cbn [well_placed].
  split_and!; try (vm_compute; done); intros g H1 H2 _; cbn [length] in H2; replace g with 1 by lia; vm_compute; done.
Qed.

Lemma redaction_exact_witness : ∃ ps, originals ps = "key=abc key=[REDACTED:k] x" ∧
  @rule_apply sample_regexps (mkRule "env" "re" 1) "key=abc key=[REDACTED:k] x" = masked "env" ps ∧
  masked "env" ps = "key=[REDACTED:env] key=[REDACTED:k] x" ∧ mask_spans 0 ps = [(4, 7)].
Proof.
  destruct (@redaction_exact sample_regexps sample_placed (mkRule "env" "re" 1) "key=abc key=[REDACTED:k] x") as (ps & P1 & P2 & P3).
  exists ps. split; [done|]. split; [done|]. cbn [ru_name] in P2. rewrite P3, <-P2. split; vm_compute; reflexivity.
Defined.
