(* ===== verification/Recording.v ===== *)
(** * Session recordings

    [internal/recording/recorder.go]: an ASCIIcast file, a header line followed by
    one line per event. The file is the bytes written so far; every write may
    fail after some bytes. JSON text is a parameter. *)

From S2P Require Import Prelude GoStrings Encoding.

(** [session.StartedAt] and what the header says of a session. *)
Record Meta := mkMeta {
  mt_SessionID : string;
  mt_Caller : string;
  mt_Host : string;
  mt_Serial : Z;
  mt_PTY : bool;
  mt_Term : string;
  mt_Width : Z;
  mt_Height : Z;
  mt_StartedAt : option time;
}.
Record brokerMeta := mkBrokerMeta {
  bm_SessionID : string;
  bm_Caller : string;
  bm_Host : string;
  bm_Serial : Z;
  bm_StartedAt : time;
}.
Record header := mkHeader {
  hd_Version : Z;
  hd_Width : Z;
  hd_Height : Z;
  hd_Timestamp : Z;
  hd_Title : string;
  hd_Term : string;
  hd_Infrabroker : brokerMeta;
}.

Definition DefaultMaxBytes : Z := 100 * 1024 * 1024.

Record Recorder := mkRecorder {
  rr_open : bool;
  rr_file : string;
  rr_redactor : option (string → string);
  rr_written : Z;
  rr_maxBytes : Z;
  rr_capped : bool;
}.

(** What the file system does with one write, and when. *)
Inductive fwrite := Whole | Short (n : nat).
Record moment := mkMoment { mo_delta : Z; mo_write : fwrite }.

Inductive rec_error := ErrRecordingCapped | EWrite.
Inductive event_type := EvOut | EvIn | EvErr.

Definition lf : string := string_of_bytes [10].
Definition crlf : string := string_of_bytes [13; 10].

Section recorder.
Context (event_json : Z → event_type → string → string) (header_json : header → string).

(** [fmt.Fprintf(f, "%s\n", line)]. *)
Definition event_line (delta : Z) (et : event_type) (data : string) : string := event_json delta et data +:+ lf.

Definition meta_header (m : Meta) (now : time) : header :=
  let started := default now (mt_StartedAt m) in
  mkHeader 2 (if mt_Width m <=? 0 then 220 else mt_Width m) (if mt_Height m <=? 0 then 40 else mt_Height m) (Unix started)
    ("session " +:+ mt_SessionID m +:+ " — " +:+ mt_Caller m +:+ "@" +:+ mt_Host m)
    (if bool_decide (mt_Term m = "") then "xterm-256color" else mt_Term m)
    (mkBrokerMeta (mt_SessionID m) (mt_Caller m) (mt_Host m) (mt_Serial m) started).

(** [Open]: truncates the file; a header that cannot be written is an error. *)
Definition rec_Open (opened : bool) (w : fwrite) (now : time) (m : Meta) : option Recorder :=
  if negb opened then None
  else
    let line := header_json (meta_header m now) +:+ lf in
    match w with
    | Short _ => None
    | Whole => Some (mkRecorder true line None (slen line) DefaultMaxBytes false)
    end.

Definition SetMaxBytes (n : Z) (r : Recorder) : Recorder :=
  mkRecorder (rr_open r) (rr_file r) (rr_redactor r) (rr_written r) n (rr_capped r).
Definition rec_SetRedactor (rd : option (string → string)) (r : Recorder) : Recorder :=
  mkRecorder (rr_open r) (rr_file r) rd (rr_written r) (rr_maxBytes r) (rr_capped r).
Definition rec_Close (r : Recorder) : Recorder :=
  mkRecorder false (rr_file r) (rr_redactor r) (rr_written r) (rr_maxBytes r) (rr_capped r).
Definition set_capped (r : Recorder) : Recorder :=
  mkRecorder (rr_open r) (rr_file r) (rr_redactor r) (rr_written r) (rr_maxBytes r) true.

(** [writeLine]: a failed write leaves its bytes but does not count them. *)
Definition writeLine (mo : moment) (et : event_type) (data : string) (r : Recorder) : bool * Recorder :=
  let line := event_line (mo_delta mo) et data in
  match mo_write mo with
  | Whole => (true, mkRecorder (rr_open r) (rr_file r +:+ line) (rr_redactor r) (rr_written r + slen line) (rr_maxBytes r) (rr_capped r))
  | Short n => (false, mkRecorder (rr_open r) (rr_file r +:+ stake n line) (rr_redactor r) (rr_written r) (rr_maxBytes r) (rr_capped r))
  end.

Definition truncation_note (max : Z) : string :=
  crlf +:+ "[recording truncated: " +:+ FormatInt max +:+ "-byte limit reached]" +:+ crlf.

Definition redacted (r : Recorder) (data : string) : string :=
  match rr_redactor r with Some f => f data | None => data end.
Definition at_cap (r : Recorder) : bool := (0 <? rr_maxBytes r) && (rr_maxBytes r <=? rr_written r).

(** [write]: [WriteOutput], [WriteInput] and [WriteStderr] are its three uses. *)
Definition rec_write (mo : moment) (et : event_type) (data : string) (r : Recorder) : result rec_error unit * Recorder :=
  if bool_decide (data = "") then (Ok (), r)
  else if negb (rr_open r) then (Ok (), r)
  else if at_cap r then
    (Err ErrRecordingCapped,
     if rr_capped r then r else (writeLine mo EvOut (truncation_note (rr_maxBytes r)) (set_capped r)).2)
  else
    let '(ok, r') := writeLine mo et (redacted r data) r in
    (if ok then Ok () else Err EWrite, r').

(** ** Lemmas *)

(** An acknowledged event of an open recording is in the file, whole and
    redacted. *)
Lemma rec_write_Ok mo et data r r' : rr_open r = true → data ≠ "" → rec_write mo et data r = (Ok (), r') →
  rr_file r' = rr_file r +:+ event_line (mo_delta mo) et (redacted r data) ∧
  rr_open r' = true ∧ rr_redactor r' = rr_redactor r ∧ rr_written r' = rr_written r + slen (event_line (mo_delta mo) et (redacted r data)).
Proof.
  unfold rec_write. intros Ho Hd. rewrite Ho, (bool_decide_eq_false_2 _ Hd). cbn [negb].
  destruct (at_cap r); [done|]. unfold writeLine. by destruct (mo_write mo); intros [= <-].
Qed.

Lemma rec_write_keeps mo et data r : let r' := (rec_write mo et data r).2 in
  rr_open r' = rr_open r ∧ rr_redactor r' = rr_redactor r ∧ ∃ more, rr_file r' = rr_file r +:+ more.
Proof.
  assert (Hl : ∀ mo et data r, let r' := (writeLine mo et data r).2 in
    rr_open r' = rr_open r ∧ rr_redactor r' = rr_redactor r ∧ ∃ more, rr_file r' = rr_file r +:+ more).
  { intros mo1 et1 d1 r1. unfold writeLine. destruct (mo_write mo1); simpl; eauto. }
  assert (H0 : ∃ more, rr_file r = rr_file r +:+ more) by (exists ""; by rewrite String_append_nil).
  unfold rec_write. case_bool_decide; [done|]. destruct (negb _); [done|]. destruct (at_cap r).
  - simpl. destruct (rr_capped r); [done|]. apply (Hl mo EvOut _ (set_capped r)).
  - pose proof (Hl mo et (redacted r data) r) as H1. by destruct (writeLine _ _ _ r).
Qed.
End recorder.
