(* ===== verification/ShellReader.v ===== *)
(** * Reading a shell's output by lines

    [shellReader] of [internal/ssh/shell.go] over [bufio.Reader.ReadLine]: the
    4096-byte buffer returns a long line in fragments and strips ["\r\n"], which
    may straddle two of them; the reader puts the fragments together again and
    bounds what it holds. An SSH channel reports the end of its stream on an empty
    read only, so a full buffer is seen before the end. *)

From S2P Require Import Prelude GoStrings Encoding Intent Sessions Prog Broker EngineFiles.

Definition shellReaderLineSlack : Z := 4096.
Definition maxLine : Z := MaxOutputBytes + shellReaderLineSlack.

Inductive read_error := EEOF | EChannel | ErrShellLineTooLong.
#[export] Instance read_error_eq_dec : EqDecision read_error.
Proof. solve_decision. Defined.
Record lineRes := mkLineRes { lr_text : string; lr_err : option read_error }.

Definition LF : ascii := "010"%char.
Definition CR : ascii := "013"%char.

(** ** [bufio] *)

Inductive slice_end := Found | BufferFull | StreamEnd.

(** [ReadSlice('\n')] with [room] bytes left in the buffer: why it stopped, the
    bytes, and the rest of the stream. *)
Fixpoint ReadSlice (room : nat) (rest : string) : slice_end * string * string :=
  match room, rest with
  | O, _ => (BufferFull, "", rest)
  | S _, EmptyString => (StreamEnd, "", "")
  | S room', String c r =>
      if ascii_eqb c LF then (Found, String c "", r)
      else let '(e, l, r') := ReadSlice room' r in (e, String c l, r')
  end.

(** A string without one final carriage return, and whether it had one. *)
Fixpoint strip_cr (s : string) : string :=
  match s with
  | EmptyString => ""
  | String c EmptyString => if ascii_eqb c CR then "" else s
  | String c r => String c (strip_cr r)
  end.
Fixpoint ends_cr (s : string) : bool :=
  match s with EmptyString => false | String c EmptyString => ascii_eqb c CR | String _ r => ends_cr r end.
Fixpoint strip_lf (s : string) : string :=
  match s with
  | EmptyString => ""
  | String c EmptyString => if ascii_eqb c LF then "" else s
  | String c r => String c (strip_lf r)
  end.

Definition bufferSize : nat := Z.to_nat 4096.

(** [ReadLine]: the fragment, [isPrefix], whether an error came with it, and the
    rest of the stream. *)
Definition ReadLine (rest : string) : string * bool * bool * string :=
  let '(e, line, r) := ReadSlice bufferSize rest in
  match e with
  | BufferFull => if ends_cr line then (strip_cr line, true, false, String CR r) else (line, true, false, r)
  | StreamEnd => (line, false, bool_decide (line = ""), r)
  | Found => (strip_cr (strip_lf line), false, false, r)
  end.

(** ** [shellReader] *)

(** The goroutine's loop; [line] is the builder, [err] what the stream ends with.
    The list is what it offers on the channel; a closed [done] cuts it short. *)
Fixpoint reader_loop (fuel : nat) (line rest : string) (err : read_error) : list lineRes :=
  match fuel with
  | O => []
  | S fuel =>
      let '(frag, isPrefix, failed, rest') := ReadLine rest in
      if (0 <? slen frag) && (maxLine <? slen line + slen frag) then [mkLineRes "" (Some ErrShellLineTooLong)]
      else
        let line := line +:+ frag in
        if failed : bool then [mkLineRes line (Some err)]
        else if isPrefix : bool then reader_loop fuel line rest' err
        else mkLineRes (line +:+ newline) None :: reader_loop fuel "" rest' err
  end.
Definition shellReader (rest : string) (err : read_error) : list lineRes := reader_loop (S (String.length rest)) "" rest err.

(** ** What [ReadLine] consumes *)

Lemma ascii_eqb_sym a b : ascii_eqb a b = ascii_eqb b a.
Proof. unfold ascii_eqb. by apply bool_decide_ext. Qed.

Lemma ReadSlice_app room rest e l r : ReadSlice room rest = (e, l, r) →
  rest = l +:+ r ∧ (e = BufferFull → String.length l = room) ∧ (e = StreamEnd → r = "") ∧
  (e = Found → ∃ l0, l = l0 +:+ newline ∧ ContainsByte l0 LF = false) ∧ (e ≠ Found → ContainsByte l LF = false).
Proof.
  revert rest l r; induction room as [|room IH]; intros rest l r; simpl.
  { intros [= <- <- <-]. by split_and!. }
  destruct rest as [|c rest]; [intros [= <- <- <-]; by split_and!|].
  destruct (ascii_eqb c LF) eqn:Ec.
  { apply ascii_eqb_eq in Ec as ->. intros [= <- <- <-]. split_and!; try done. intros _. by exists "". }
  destruct (ReadSlice room rest) as [[e' l'] r'] eqn:Er. intros [= <- <- <-].
  destruct (IH _ _ _ Er) as (-> & H1 & H2 & H3 & H4). split_and!; [done|naive_solver|done| |].
  - intros He. destruct (H3 He) as (l0 & -> & H0). exists (String c l0). split; [done|].
    unfold ContainsByte in *. simpl. rewrite H0, orb_false_r. by rewrite ascii_eqb_sym.
  - intros He. unfold ContainsByte in *. simpl. rewrite (H4 He), orb_false_r. by rewrite ascii_eqb_sym.
Qed.

Lemma strip_cr_spec s : s = strip_cr s +:+ (if ends_cr s then String CR "" else "").
Proof.
  induction s as [|c s IH]; [done|]. destruct s as [|d s]; [|cbn [strip_cr ends_cr append] in *; by f_equal].
  cbn [strip_cr ends_cr]. destruct (ascii_eqb c CR) eqn:E; [apply ascii_eqb_eq in E as ->|]; done.
Qed.

Lemma strip_cr_length s : String.length s = (String.length (strip_cr s) + if ends_cr s then 1 else 0)%nat.
Proof. rewrite (strip_cr_spec s) at 1. rewrite String_length_app. by destruct (ends_cr s). Qed.

Lemma strip_cr_app a b : b ≠ "" → strip_cr (a +:+ b) = a +:+ strip_cr b.
Proof.
  intros Hb. induction a as [|c a IH]; [done|]. cbn [append]. rewrite <-IH.
  destruct (a +:+ b) as [|x y] eqn:E; [by destruct a|done].
Qed.
Lemma ends_cr_app a b : b ≠ "" → ends_cr (a +:+ b) = ends_cr b.
Proof.
  intros Hb. induction a as [|c a IH]; [done|]. cbn [append]. rewrite <-IH.
  destruct (a +:+ b) as [|x y] eqn:E; [by destruct a|done].
Qed.
Lemma strip_lf_app l : strip_lf (l +:+ newline) = l.
Proof.
  induction l as [|c l IH]; [done|]. change (String c l +:+ newline) with (String c (l +:+ newline)). cbn [strip_lf].
  rewrite IH. by destruct l.
Qed.

Lemma ReadLine_shrinks rest frag isPrefix rest' : ReadLine rest = (frag, isPrefix, false, rest') →
  (String.length rest' < String.length rest)%nat.
Proof.
  unfold ReadLine. destruct (ReadSlice _ _) as [[e l] r] eqn:Er. apply ReadSlice_app in Er as (-> & H1 & H2 & H3 & _).
  rewrite String_length_app. destruct e.
  - destruct (H3 eq_refl) as (l0 & -> & _). intros [= _ _ <-]. rewrite String_length_app. simpl. lia.
  - specialize (H1 eq_refl). assert (bufferSize = 4096%nat) as Hb by (vm_compute; reflexivity).
    destruct (ends_cr l); intros [= _ _ <-]; simpl; lia.
  - case_bool_decide as El; intros [= _ _ <-]. destruct l; [done|simpl; lia].
Qed.

(** The loop does not depend on its fuel once it covers the stream. *)
Lemma reader_fuel f g line rest err : (String.length rest < f)%nat → (String.length rest < g)%nat →
  reader_loop f line rest err = reader_loop g line rest err.
Proof.
  revert g line rest; induction f as [|f IH]; intros [|g] line rest Hf Hg; try lia. cbn [reader_loop].
  destruct (ReadLine rest) as [[[frag pre] failed] rest'] eqn:E. destruct (_ && _); [done|].
  destruct failed; [done|]. apply ReadLine_shrinks in E. destruct pre; [|f_equal]; apply IH; lia.
Qed.

(** The reader after its builder holds [line]. *)
Definition reader_at (line rest : string) (err : read_error) : list lineRes := reader_loop (S (String.length rest)) line rest err.

Lemma reader_step line rest err : reader_at line rest err =
  let '(frag, isPrefix, failed, rest') := ReadLine rest in
  if (0 <? slen frag) && (maxLine <? slen line + slen frag) then [mkLineRes "" (Some ErrShellLineTooLong)]
  else
    if failed : bool then [mkLineRes (line +:+ frag) (Some err)]
    else if isPrefix : bool then reader_at (line +:+ frag) rest' err
    else mkLineRes (line +:+ frag +:+ newline) None :: reader_at "" rest' err.
Proof.
  unfold reader_at at 1. cbn [reader_loop]. destruct (ReadLine rest) as [[[frag pre] failed] rest'] eqn:E.
  destruct (_ && _); [done|]. destruct failed; [done|]. apply ReadLine_shrinks in E.
  destruct pre; [apply reader_fuel; lia|]. rewrite String_append_assoc. f_equal. apply reader_fuel; lia.
Qed.

(** ** Lines come out whole *)

Lemma ReadSlice_line room l rest : ContainsByte l LF = false →
  ReadSlice room (l +:+ newline +:+ rest) =
  if (String.length l <? room)%nat then (Found, l +:+ newline, rest)
  else (BufferFull, stake room l, sdrop room l +:+ newline +:+ rest).
Proof.
  revert room; induction l as [|c l IH]; intros [|room] Hl; try done.
  unfold ContainsByte in *. cbn [exists_char] in Hl. apply orb_false_iff in Hl as [Hc Hl].
  cbn [append ReadSlice String.length stake sdrop]. rewrite ascii_eqb_sym, Hc, IH by done.
  change (S (String.length l) <? S room)%nat with (String.length l <? room)%nat. by destruct (_ <? _)%nat.
Qed.

Lemma ReadSlice_tail room l : ContainsByte l LF = false →
  ReadSlice room l = if (String.length l <? room)%nat then (StreamEnd, l, "") else (BufferFull, stake room l, sdrop room l).
Proof.
  revert room; induction l as [|c l IH]; intros [|room] Hl; try done.
  unfold ContainsByte in *. cbn [exists_char] in Hl. apply orb_false_iff in Hl as [Hc Hl].
  cbn [append ReadSlice String.length stake sdrop]. rewrite ascii_eqb_sym, Hc, IH by done.
  change (S (String.length l) <? S room)%nat with (String.length l <? room)%nat. by destruct (_ <? _)%nat.
Qed.

Lemma contains_app s t c : ContainsByte (s +:+ t) c = ContainsByte s c || ContainsByte t c.
Proof. apply exists_char_app. Qed.

(** A full buffer of a longer line [l]: the fragment and what is left of [l],
    the carriage return put back. *)
Definition first_frag (l : string) : string := strip_cr (stake bufferSize l).
Definition left_over (l : string) : string :=
  (if ends_cr (stake bufferSize l) then String CR "" else "") +:+ sdrop bufferSize l.

Lemma frag_split l : (bufferSize ≤ String.length l)%nat →
  l = first_frag l +:+ left_over l ∧ strip_cr l = first_frag l +:+ strip_cr (left_over l) ∧
  (String.length (left_over l) < String.length l)%nat ∧ (0 < String.length (first_frag l))%nat.
Proof.
  intros Hl. pose proof (stake_sdrop bufferSize l) as Hs. pose proof (strip_cr_spec (stake bufferSize l)) as Hc.
  assert (Hb : bufferSize = 4096%nat) by (vm_compute; reflexivity).
  assert (Hcut : l = first_frag l +:+ left_over l).
  { unfold first_frag, left_over. rewrite <-String_append_assoc, <-Hc. done. }
  assert (Hlen : (0 < String.length (first_frag l))%nat).
  { pose proof (strip_cr_length (stake bufferSize l)) as H. rewrite stake_length in H by done. unfold first_frag. destruct (ends_cr _); lia. }
  split_and!; [done| |by rewrite Hcut at 2; rewrite String_length_app; lia|done].
  rewrite Hcut at 1. destruct (decide (left_over l = "")) as [E|E]; [|by apply strip_cr_app].
  rewrite E, String_append_nil. simpl. rewrite String_append_nil. unfold left_over in E.
  destruct (ends_cr (stake bufferSize l)) eqn:Ee; [done|]. unfold first_frag.
  rewrite String_append_nil in Hc. by rewrite <-!Hc.
Qed.

Lemma ReadLine_frag l rest : ContainsByte l LF = false → (bufferSize ≤ String.length l)%nat →
  ReadLine (l +:+ newline +:+ rest) = (first_frag l, true, false, left_over l +:+ newline +:+ rest) ∧
  ReadLine l = (first_frag l, true, false, left_over l).
Proof.
  intros Hl Hlen. unfold ReadLine. rewrite ReadSlice_line, ReadSlice_tail by done.
  rewrite (proj2 (Nat.ltb_ge _ _) Hlen). unfold first_frag, left_over. pose proof (strip_cr_spec (stake bufferSize l)) as Hc.
  destruct (ends_cr (stake bufferSize l)); [done|]. rewrite String_append_nil in Hc. by rewrite <-Hc.
Qed.

Lemma left_over_plain l : ContainsByte l LF = false → (bufferSize ≤ String.length l)%nat → ContainsByte (left_over l) LF = false.
Proof. intros Hl Hlen. destruct (frag_split l Hlen) as (E & _). rewrite E, contains_app in Hl. by apply orb_false_iff in Hl as [_ ?]. Qed.

(** However long a line is, however the buffer cuts it, and wherever a carriage
    return falls, the reader delivers it once, without its line end, or stops
    when it exceeds the bound. *)
Lemma reader_line line l rest err : ContainsByte l LF = false → slen line ≤ maxLine →
  reader_at line (l +:+ newline +:+ rest) err =
  if slen line + slen (strip_cr l) <=? maxLine then mkLineRes (line +:+ strip_cr l +:+ newline) None :: reader_at "" rest err
  else [mkLineRes "" (Some ErrShellLineTooLong)].
Proof.
  remember (String.length l) as n eqn:Hn. revert line l Hn. induction n as [n IH] using lt_wf_ind. intros line l -> Hl Hline.
  rewrite reader_step. destruct (le_lt_dec bufferSize (String.length l)) as [Hlen|Hlen].
  - rewrite (proj1 (ReadLine_frag l rest Hl Hlen)). destruct (frag_split l Hlen) as (_ & -> & Hlt & Hpos).
    pose proof (slen_nonneg (strip_cr (left_over l))). rewrite slen_app. destruct (Z.ltb_spec 0 (slen (first_frag l))); [|unfold slen in *; lia].
    cbn [andb]. destruct (Z.ltb_spec maxLine (slen line + slen (first_frag l))) as [Hm|Hm].
    { destruct (Z.leb_spec (slen line + (slen (first_frag l) + slen (strip_cr (left_over l)))) maxLine); [lia|done]. }
    rewrite (IH (String.length (left_over l)) Hlt _ _ eq_refl (left_over_plain l Hl Hlen)) by (rewrite slen_app; lia).
    rewrite slen_app, !String_append_assoc, Z.add_assoc. done.
  - unfold ReadLine. rewrite ReadSlice_line, (proj2 (Nat.ltb_lt _ _) Hlen), strip_lf_app by done.
    pose proof (slen_nonneg (strip_cr l)).
    destruct (Z.ltb_spec 0 (slen (strip_cr l))), (Z.ltb_spec maxLine (slen line + slen (strip_cr l))),
      (Z.leb_spec (slen line + slen (strip_cr l)) maxLine); try lia; done.
Qed.

(** What is left when the stream ends is delivered too, with the error or before
    it. *)
Lemma reader_tail line l err : ContainsByte l LF = false → slen line ≤ maxLine →
  (slen line + slen l ≤ maxLine ∧
    (reader_at line l err = [mkLineRes (line +:+ l) (Some err)] ∨
     reader_at line l err = [mkLineRes (line +:+ l +:+ newline) None; mkLineRes "" (Some err)])) ∨
  (maxLine < slen line + slen l ∧ reader_at line l err = [mkLineRes "" (Some ErrShellLineTooLong)]).
Proof.
  remember (String.length l) as n eqn:Hn. revert line l Hn. induction n as [n IH] using lt_wf_ind. intros line l -> Hl Hline.
  rewrite reader_step. destruct (le_lt_dec bufferSize (String.length l)) as [Hlen|Hlen].
  - rewrite (proj2 (ReadLine_frag l "" Hl Hlen)). destruct (frag_split l Hlen) as (Hcut & _ & Hlt & Hpos).
    assert (Hsum : slen l = slen (first_frag l) + slen (left_over l)) by (rewrite Hcut at 1; apply slen_app).
    pose proof (slen_nonneg (left_over l)). destruct (Z.ltb_spec 0 (slen (first_frag l))); [|unfold slen in *; lia].
    cbn [andb]. destruct (Z.ltb_spec maxLine (slen line + slen (first_frag l))) as [Hm|Hm]; [right; split; [lia|done]|].
    destruct (IH (String.length (left_over l)) Hlt (line +:+ first_frag l) _ eq_refl (left_over_plain l Hl Hlen)) as [H1|H1];
      rewrite slen_app, ?String_append_assoc in *; [lia| |].
    + left. rewrite Hsum, Z.add_assoc. rewrite <-(String_append_assoc (first_frag l)), <-Hcut in H1. done.
    + right. rewrite Hsum, Z.add_assoc. done.
  - unfold ReadLine. rewrite ReadSlice_tail, (proj2 (Nat.ltb_lt _ _) Hlen) by done. pose proof (slen_nonneg l).
    destruct (Z.ltb_spec 0 (slen l)), (Z.ltb_spec maxLine (slen line + slen l)); cbn [andb]; try lia; try (right; done); left; (split; [lia|]).
    + case_bool_decide as E; [by left|]. by right.
    + case_bool_decide as E; [by left|]. by right.
Qed.

(** A stream of lines and a tail. *)
Fixpoint unlines (ls : list string) : string :=
  match ls with [] => "" | l :: ls => l +:+ newline +:+ unlines ls end.
Definition plain_line (l : string) : Prop := ContainsByte l LF = false ∧ slen (strip_cr l) ≤ maxLine.

Lemma shellReader_lines ls rest err : Forall plain_line ls →
  shellReader (unlines ls +:+ rest) err =
  map (fun l => mkLineRes (strip_cr l +:+ newline) None) ls ++ shellReader rest err.
Proof.
  change (shellReader ?r err) with (reader_at "" r err). induction 1 as [|l ls [Hl Hlen] _ IH]; [done|].
  cbn [unlines map app]. rewrite !String_append_assoc, reader_line, IH by (done || (vm_compute; done)).
  destruct (Z.leb_spec (slen "" + slen (strip_cr l)) maxLine) as [H|H]; [done|]. change (slen "") with 0 in H. lia.
Qed.
