(* ===== verification/ShellDriver.v ===== *)
(** * The shell driver

    [internal/ssh/shell.go]: a live shell over an SSH channel. A command is sent
    followed by a line that prints a private marker and the exit code; everything
    up to the marker is the command's output. Here are the session, its stderr
    buffer, its recorder and every operation; the order in which the select of
    [Exec] and the goroutine that drains stderr see things is a list of ticks. *)

From S2P Require Import Prelude GoStrings Encoding AuditTime Intent Sessions Prog Broker EngineFiles Recording ShellReader.

(** ** [strings.Index], [strconv.Atoi] *)

Fixpoint Index (s p : string) : option nat :=
  if HasPrefix s p then Some O
  else match s with EmptyString => None | String _ r => S <$> Index r p end.

Definition Atoi_int (s : string) : option Z :=
  let '(neg, ds) := match s with
                    | String c r => if ascii_eqb c "-"%char then (true, r) else if ascii_eqb c "+"%char then (false, r) else (false, s)
                    | EmptyString => (false, s)
                    end in
  if bool_decide (ds = "") || negb (forall_char is_digit ds) then None
  else
    let v := if neg : bool then - dec_acc 0 ds else dec_acc 0 ds in
    if (- 2 ^ 63 <=? v) && (v <? 2 ^ 63) then Some v else None.

(** ** Captured stderr *)

Record syncBuf := mkSyncBuf { sb_buf : string; sb_truncated : bool; sb_recorded : bool; sb_strict : bool; sb_failed : bool }.

Definition stderr_note : string :=
  newline +:+ "[stderr truncated: limit of " +:+ FormatInt MaxOutputBytes +:+ " bytes exceeded]" +:+ newline.

Definition sb_setRecorder (recorded strict : bool) (b : syncBuf) : syncBuf :=
  mkSyncBuf (sb_buf b) (sb_truncated b) recorded strict (sb_failed b).
Definition sb_reset (b : syncBuf) : syncBuf := mkSyncBuf "" false (sb_recorded b) (sb_strict b) (sb_failed b).
Definition sb_output (b : syncBuf) : string :=
  if negb (sb_truncated b) then sb_buf b else sb_buf b +:+ stderr_note.

(** ** The session *)

Record ShellSession := mkShell {
  sh_marker : string;
  sh_pty : bool;
  sh_stderr : option syncBuf;
  sh_recorder : option Recorder;
  sh_recordStrict : bool;
  sh_broken : bool;
  sh_channelOpen : bool;
}.

Definition with_stderr (b : option syncBuf) (s : ShellSession) : ShellSession :=
  mkShell (sh_marker s) (sh_pty s) b (sh_recorder s) (sh_recordStrict s) (sh_broken s) (sh_channelOpen s).
Definition with_recorder (r : option Recorder) (s : ShellSession) : ShellSession :=
  mkShell (sh_marker s) (sh_pty s) (sh_stderr s) r (sh_recordStrict s) (sh_broken s) (sh_channelOpen s).

(** [SetRecorder]: the drain of stderr shares the recorder. *)
Definition SetRecorder (r : option Recorder) (strict : bool) (s : ShellSession) : ShellSession :=
  mkShell (sh_marker s) (sh_pty s) (sb_setRecorder (bool_decide (is_Some r)) strict <$> sh_stderr s) r strict
    (sh_broken s) (sh_channelOpen s).

Definition abort (s : ShellSession) : ShellSession :=
  mkShell (sh_marker s) (sh_pty s) (sh_stderr s) (sh_recorder s) (sh_recordStrict s) true false.

(** [Close] closes the channel; the mark of a broken session stays as it is. *)
Definition sh_Close (s : ShellSession) : ShellSession :=
  mkShell (sh_marker s) (sh_pty s) (sh_stderr s) (sh_recorder s) (sh_recordStrict s) (sh_broken s) false.

Definition markerRCVar : string := "__infrabroker_rc".
Definition squote (s : string) : string := "'" +:+ s +:+ "'".
Definition dquote : string := string_of_bytes [34].

Definition printf_rc (path marker : string) : string :=
  path +:+ " '%s:%d\n' " +:+ squote marker +:+ " " +:+ dquote +:+ "${" +:+ markerRCVar +:+ "}" +:+ dquote.
Definition markerLine (marker : string) : string :=
  markerRCVar +:+ "=$?" +:+ newline +:+
  "{ " +:+ printf_rc "/usr/bin/printf" marker +:+ " 2>/dev/null || " +:+ printf_rc "/bin/printf" marker +:+ "; }; unset "
  +:+ markerRCVar +:+ newline.

Definition newMarker (random : string) : string := "__BRK_" +:+ hex_EncodeToString random +:+ "__".

Inductive exec_error :=
| EDesync
| ERecording
| EWriteCommand
| EOutputLimit
| ECancelled
| EExecTimeout
| EBadMarker (text : string)
| EReadInterrupted (e : read_error).

(** What the session meets while it waits: the caller's cancellation, the
    deadline, the next line of the reader, a chunk of stderr copied by the drain. *)
Inductive tick :=
| TCancel
| TDeadline
| TLine (mo : moment)
| TStderr (chunk : string) (mo : moment).

Section driver.
Context (event_json : Z → event_type → string → string).
Abbreviation rec_write := (rec_write event_json).

(** [syncBuf.Write] *)
Definition sb_Write (mo : moment) (p : string) (b : syncBuf) (r : option Recorder) : syncBuf * option Recorder :=
  let rem := MaxOutputBytes - slen (sb_buf b) in
  if rem <=? 0
  then (mkSyncBuf (sb_buf b) (if 0 <? slen p then true else sb_truncated b) (sb_recorded b) (sb_strict b) (sb_failed b), r)
  else
    let '(keep, truncated) := if rem <? slen p then (stake (Z.to_nat rem) p, true) else (p, sb_truncated b) in
    let buf := sb_buf b +:+ keep in
    match r with
    | Some rc =>
        if (0 <? slen keep) && sb_recorded b then
          let '(res, rc') := rec_write mo EvErr keep rc in
          (mkSyncBuf buf truncated (sb_recorded b) (sb_strict b)
             (sb_failed b || (negb (is_ok res) && sb_strict b)), Some rc')
        else (mkSyncBuf buf truncated (sb_recorded b) (sb_strict b) (sb_failed b), r)
    | None => (mkSyncBuf buf truncated (sb_recorded b) (sb_strict b) (sb_failed b), None)
    end.

(** The drain goroutine copies one chunk. *)
Definition drain (mo : moment) (chunk : string) (s : ShellSession) : ShellSession :=
  match sh_stderr s with
  | None => s
  | Some b => let '(b', r') := sb_Write mo chunk b (sh_recorder s) in with_recorder r' (with_stderr (Some b') s)
  end.

(** [stderrRecordingFailure]: [true] when it returns an error. *)
Definition stderrRecordingFailure (s : ShellSession) : bool * ShellSession :=
  match sh_stderr s with
  | Some b => if sh_recordStrict s && sb_failed b then (true, abort s) else (false, s)
  | None => (false, s)
  end.

(** Record an event; [false] when a strict session must stop. *)
Definition record (mo : moment) (et : event_type) (text : string) (s : ShellSession) : bool * ShellSession :=
  match sh_recorder s with
  | None => (true, s)
  | Some rc =>
      let '(res, rc') := rec_write mo et text rc in
      let s := with_recorder (Some rc') s in
      if negb (is_ok res) && sh_recordStrict s then (false, abort s) else (true, s)
  end.

(** [Exec] up to the write on stdin: the bytes sent. *)
Definition exec_begin (command : string) (mo : moment) (wrote : bool) (s : ShellSession) :
    result exec_error string * ShellSession :=
  if sh_broken s then (Err EDesync, s)
  else
    let '(failed, s) := stderrRecordingFailure s in
    if failed : bool then (Err ERecording, s)
    else
      let s := with_stderr (sb_reset <$> sh_stderr s) s in
      let '(ok, s) := if bool_decide (command ≠ ":") then record mo EvIn (command +:+ newline) s else (true, s) in
      if negb ok then (Err ERecording, s)
      else if negb wrote then (Err EWriteCommand, s)
      else (Ok (command +:+ newline +:+ markerLine (sh_marker s)), s).

(** [appendOut] *)
Definition appendOut (mo : moment) (text out : string) (s : ShellSession) : result exec_error string * ShellSession :=
  if bool_decide (text = "") then (Ok out, s)
  else if MaxOutputBytes <? slen out + slen text then (Err EOutputLimit, abort s)
  else
    let '(ok, s) := record mo EvOut text s in
    (if ok then Ok (out +:+ text) else Err ERecording, s).

(** The end of a command: the exit code after the marker, and the result. *)
Definition exec_end (text : string) (idx : nat) (out : string) (s : ShellSession) : result exec_error ExecResult * ShellSession :=
  match Atoi_int (TrimSpace (sdrop (idx + String.length (sh_marker s) + 1) text)) with
  | None => (Err (EBadMarker text), abort s)
  | Some code =>
      let stderr := match sh_stderr s with Some b => sb_output b | None => "" end in
      let '(failed, s) := stderrRecordingFailure s in
      if failed : bool then (Err ERecording, s) else (Ok (mkExecResult out stderr code), s)
  end.

(** One line: [inl out] goes on waiting. *)
Definition exec_line (mo : moment) (lr : lineRes) (out : string) (s : ShellSession) :
    (string + result exec_error ExecResult) * ShellSession :=
  if bool_decide (lr_err lr = Some ErrShellLineTooLong) then (inr (Err EOutputLimit), abort s)
  else match Index (lr_text lr) (sh_marker s +:+ ":") with
  | Some idx =>
      let '(r, s) := if (0 <? idx)%nat then appendOut mo (stake idx (lr_text lr)) out s else (Ok out, s) in
      match r with
      | Err e => (inr (Err e), s)
      | Ok out => let '(r, s) := exec_end (lr_text lr) idx out s in (inr r, s)
      end
  | None =>
      let '(r, s) := appendOut mo (lr_text lr) out s in
      match r with
      | Err e => (inr (Err e), s)
      | Ok out => match lr_err lr with Some e => (inr (Err (EReadInterrupted e)), s) | None => (inl out, s) end
      end
  end.

(** The select loop of [Exec] against what the reader has to deliver; [inl] when
    the ticks are over and it still waits. *)
Fixpoint exec_loop (ticks : list tick) (stream : list lineRes) (out : string) (s : ShellSession) :
    (string + result exec_error ExecResult) * ShellSession * list lineRes :=
  match ticks with
  | [] => (inl out, s, stream)
  | TCancel :: _ => (inr (Err ECancelled), abort s, stream)
  | TDeadline :: _ => (inr (Err EExecTimeout), abort s, stream)
  | TStderr chunk mo :: ticks => exec_loop ticks stream out (drain mo chunk s)
  | TLine mo :: ticks =>
      match stream with
      | [] => exec_loop ticks [] out s
      | lr :: stream =>
          match exec_line mo lr out s with
          | (inl out, s) => exec_loop ticks stream out s
          | (inr r, s) => (inr r, s, stream)
          end
      end
  end.

(** ** Opening a shell *)

(** How the steps before the first command end. *)
Record opening := mkOpening {
  op_newSession : bool;
  op_pty : bool;
  op_stdin : bool;
  op_stdout : bool;
  op_stderr : bool;
  op_start : bool;
  op_init : bool;
}.
Inductive open_error := EOpenSession | ERequestPty | EStdin | EStdout | EStderr | EStartShell | EInitPty | ESync (e : exec_error).

Definition default_shell (shellCmd : string) : string := if bool_decide (shellCmd = "") then "/bin/sh" else shellCmd.
Definition ptyInit : string := "stty -echo 2>/dev/null; PS1=''; PS2=''" +:+ newline.

(** Synchronising with a no-op: the session, or the error after closing it. *)
Definition synchronise (wrote : bool) (ticks : list tick) (stream : list lineRes) (s : ShellSession) :
    option (result open_error ShellSession * ShellSession * list lineRes) :=
  match exec_begin ":" (mkMoment 0 Whole) wrote s with
  | (Err e, s) => Some (Err (ESync e), sh_Close s, stream)
  | (Ok _, s) =>
      match exec_loop ticks stream "" s with
      | (inl _, _, _) => None
      | (inr (Err e), s, stream) => Some (Err (ESync e), sh_Close s, stream)
      | (inr (Ok _), s, stream) => Some (Ok s, s, stream)
      end
  end.

Definition fresh_shell (random : string) (pty : bool) : ShellSession :=
  mkShell (newMarker random) pty (if pty then None else Some (mkSyncBuf "" false false false false)) None false false true.

(** [OpenShell], with the shell it asks the host to start; [None]: it waits. *)
Definition OpenShell (a : opening) (shellCmd random : string) (wrote : bool) (ticks : list tick) (stream : list lineRes) :
    string * option (result open_error ShellSession * ShellSession * list lineRes) :=
  let s := fresh_shell random false in
  let fail e := Some (Err e, sh_Close s, stream) in
  (default_shell shellCmd,
   if negb (op_newSession a) then fail EOpenSession
   else if negb (op_stdin a) then fail EStdin
   else if negb (op_stdout a) then fail EStdout
   else if negb (op_stderr a) then fail EStderr
   else if negb (op_start a) then fail EStartShell
   else synchronise wrote ticks stream s).

Definition OpenShellPTY (a : opening) (shellCmd random : string) (wrote : bool) (ticks : list tick) (stream : list lineRes) :
    string * option (result open_error ShellSession * ShellSession * list lineRes) :=
  let s := fresh_shell random true in
  let fail e := Some (Err e, sh_Close s, stream) in
  (default_shell shellCmd,
   if negb (op_newSession a) then fail EOpenSession
   else if negb (op_pty a) then fail ERequestPty
   else if negb (op_stdin a) then fail EStdin
   else if negb (op_stdout a) then fail EStdout
   else if negb (op_start a) then fail EStartShell
   else if negb (op_init a) then fail EInitPty
   else synchronise wrote ticks stream s).
End driver.
