(* ===== verification/ShellRun.v ===== *)
(** * What a shell session returns

    The framing is exact: the bytes a command prints come back as its output with
    its exit code, however they are cut, and over a whole session no result is
    taken for that of another command. *)

From S2P Require Import Prelude GoStrings Encoding AuditTime Intent Sessions Prog Broker EngineFiles Recording ShellReader ShellDriver.

(** ** Searching for the marker *)

Lemma Index_None s p : Index s p = None ↔ ∀ a b, s ≠ a +:+ p +:+ b.
Proof.
  induction s as [|c s IH]; cbn [Index]; destruct (HasPrefix _ p) eqn:Hp.
  - split; [done|]. intros H. apply prefix_spec in Hp as (t & Ht). by destruct (H "" t).
  - split; [|done]. intros _ [|x a] b Heq; [|done]. simpl in Heq. rewrite Heq, prefix_refl_app in Hp. done.
  - split; [done|]. intros H. apply prefix_spec in Hp as (t & Ht). by destruct (H "" t).
  - rewrite fmap_None, IH. split.
    + intros H [|x a] b Heq; simpl in Heq; [by rewrite Heq, prefix_refl_app in Hp|]. injection Heq as -> Heq. by apply (H a b).
    + intros H a b ->. by apply (H (String c a) b).
Qed.

Lemma Index_sub a s b p : Index (a +:+ s +:+ b) p = None → Index s p = None.
Proof.
  rewrite !Index_None. intros H x y ->. apply (H (a +:+ x) (y +:+ b)). by rewrite !String_append_assoc.
Qed.

(** A line end cannot complete a pattern that has none. *)
Lemma Index_newline s p : p ≠ "" → ContainsByte p LF = false → Index s p = None → Index (s +:+ newline) p = None.
Proof.
  intros Hne Hp. rewrite !Index_None. intros H a b Heq.
  destruct (decide (b = "")) as [->|Hb].
  - rewrite String_append_nil in Heq.
    assert (Hl : ∀ t q, q ≠ "" → ContainsByte q LF = false → s +:+ newline = t +:+ q → False); [|by eapply (Hl a p)].
    clear. induction s as [|c s IH]; intros [|x t] q Hq Hc E; simpl in E.
    + change (String LF "" = q) in E. rewrite <-E in Hc. by vm_compute in Hc.
    + injection E as _ E. by destruct t; destruct q.
    + destruct q as [|y q]; [done|]. injection E as -> E. unfold ContainsByte in Hc. cbn [exists_char] in Hc. apply orb_false_iff in Hc as [_ Hc].
      destruct q as [|z q]; [by destruct s|]. by apply (IH "" (String z q)).
    + injection E as _ E. by eapply IH.
  - assert (∃ b', b = b' +:+ newline ∧ s = a +:+ p +:+ b') as (b' & -> & Hs); [|by apply (H a b')].
    rewrite <-String_append_assoc in Heq. setoid_rewrite <-String_append_assoc. revert Heq. generalize (a +:+ p). clear -Hb.
    intros t. revert s. induction t as [|x t IH]; intros s E; simpl in *; [by exists s|].
    destruct s as [|c s]; simpl in E; [injection E as _ E; by destruct t; destruct b|]. injection E as -> E.
    destruct (IH s E) as (b' & -> & ->). by exists b'.
Qed.

(** A pattern that ends in a byte it has nowhere else does not overlap itself:
    after a text without it, it is found where it is put. *)
Lemma Index_first s m c rest : ContainsByte m c = false → Index s (m +:+ String c "") = None →
  Index (s +:+ (m +:+ String c "") +:+ rest) (m +:+ String c "") = Some (String.length s).
Proof.
  intros Hm. induction s as [|x s IH]; intros Hs.
  { cbn [append]. change (String.length "") with O.
    assert (HasPrefix ((m +:+ String c "") +:+ rest) (m +:+ String c "") = true) by apply prefix_refl_app.
    destruct ((m +:+ String c "") +:+ rest) as [|y t] eqn:E; [by destruct m|]. cbn [Index]. by rewrite H. }
  assert (Hs' : Index s (m +:+ String c "") = None) by (apply (Index_sub (String x "") s "" _); by rewrite String_append_nil).
  change (String x s +:+ ?t) with (String x (s +:+ t)). cbn [Index]. rewrite IH by done.
  destruct (HasPrefix _ _) eqn:Hp; [|done]. exfalso. apply prefix_spec in Hp as (t & Heq).
  rewrite !String_append_assoc in Heq. cbn [append] in Heq.
  change (String x s +:+ m +:+ String c rest = m +:+ String c t) in Heq.
  destruct (ContainsByte (String x s) c) eqn:Hc.
  - assert (∃ u v, String x s = u +:+ String c v ∧ ContainsByte u c = false) as (u & v & E & Hu).
    { clear -Hc. generalize dependent (String x s). intros w Hc. induction w as [|y w IH]; [done|].
      unfold ContainsByte in *. cbn [exists_char] in Hc. destruct (ascii_eqb c y) eqn:Ey.
      - apply ascii_eqb_eq in Ey as ->. by exists "", w.
      - destruct (IH Hc) as (u & v & -> & Hu). exists (String y u), v. split; [done|]. cbn [exists_char]. by rewrite Ey. }
    rewrite E, String_append_assoc in Heq. cbn [append] in Heq. apply split_at_unique in Heq as [-> _]; [|done..].
    apply Index_None with (a := "") (b := v) in Hs. apply Hs. rewrite E. cbn [append]. by rewrite String_append_assoc.
  - rewrite <-String_append_assoc in Heq. apply split_at_unique in Heq as [E _]; [|by rewrite contains_app, Hc|done].
    apply (f_equal String.length) in E. rewrite String_length_app in E. simpl in E. lia.
Qed.

(** ** The exit code *)

Lemma TrimSpace_line s : forall_char plain_char s = true → s ≠ "" → TrimSpace (s +:+ newline) = s.
Proof.
  intros Hs Hne. unfold TrimSpace. assert (TrimLeftSpace (s +:+ newline) 0 = s +:+ newline) as ->.
  { destruct s as [|c s]; [done|]. cbn [append TrimLeftSpace]. cbn [forall_char] in Hs. apply andb_true_iff in Hs as [Hc _].
    by rewrite (space_len_plain c _ Hc). }
  clear Hne. induction s as [|c s IH]; [vm_compute; reflexivity|]. cbn [forall_char] in Hs. apply andb_true_iff in Hs as [Hc Hs].
  cbn [append TrimRightSpace]. unfold all_space. cbn [all_space_aux]. rewrite (space_len_plain c _ Hc), IH; done.
Qed.

Lemma digit_plain c : is_digit c = true → plain_char c = true.
Proof. unfold is_digit, plain_char, in_range. rewrite !andb_true_iff, !Z.leb_le. lia. Qed.

Lemma FormatInt_nonempty' z : 0 ≤ z < 2 ^ 63 → FormatInt z ≠ "".
Proof. intros Hz. destruct (decide (z = 0)) as [->|H0]; [by vm_compute|by apply FormatInt_nonempty]. Qed.

(** [strconv.Atoi] reads back what [strconv.Itoa] writes. *)
Lemma Atoi_int_digits s : forall_char is_digit s = true → s ≠ "" → dec_acc 0 s < 2 ^ 63 → 0 ≤ dec_acc 0 s → Atoi_int s = Some (dec_acc 0 s).
Proof.
  destruct s as [|c s]; [done|]. intros Hd _ Hv H0.
  assert (Hc : is_digit c = true) by (cbn [forall_char] in Hd; by apply andb_true_iff in Hd as [? _]).
  unfold Atoi_int. destruct (ascii_eqb c "-"%char) eqn:E1; [apply ascii_eqb_eq in E1 as ->; by vm_compute in Hc|].
  destruct (ascii_eqb c "+"%char) eqn:E2; [apply ascii_eqb_eq in E2 as ->; by vm_compute in Hc|].
  rewrite bool_decide_eq_false_2, Hd by done. cbn [negb orb].
  by rewrite (proj2 (Z.leb_le _ _)), (proj2 (Z.ltb_lt _ _)) by lia.
Qed.
Lemma Atoi_int_FormatInt z : int64 z → Atoi_int (FormatInt z) = Some z.
Proof.
  unfold int64. intros Hz. destruct (Z.le_gt_cases 0 z) as [H0|H0].
  - rewrite <-(dec_FormatInt z) at 2 by lia. apply Atoi_int_digits; rewrite ?dec_FormatInt by lia; try lia.
    + apply FormatInt_digits. lia.
    + apply FormatInt_nonempty'. lia.
  - destruct z as [|p|p]; [lia..|]. change (FormatInt (Z.neg p)) with (String "-"%char (FormatInt (Z.pos p))).
    pose proof (FormatInt_digits (Z.pos p) ltac:(lia)) as Hd. pose proof (dec_FormatInt (Z.pos p) ltac:(lia)) as Hv.
    assert (FormatInt (Z.pos p) ≠ "") as Hne by (intros E; rewrite E in Hv; vm_compute in Hv; discriminate Hv).
    unfold Atoi_int. change (ascii_eqb "-"%char "-"%char) with true. cbv iota beta.
    rewrite bool_decide_eq_false_2, Hd, dec_FormatInt by (done || lia). cbn [negb orb].
    by rewrite (proj2 (Z.leb_le _ _)), (proj2 (Z.ltb_lt _ _)) by lia.
Qed.

Lemma exit_code_read z : 0 ≤ z < 2 ^ 63 → Atoi_int (TrimSpace (FormatInt z +:+ newline)) = Some z.
Proof.
  intros Hz. pose proof (FormatInt_digits z ltac:(lia)) as Hd. pose proof (FormatInt_nonempty' z Hz) as Hne.
  rewrite TrimSpace_line; [|eapply forall_char_impl; [|exact Hd]; apply digit_plain|done].
  apply Atoi_int_FormatInt. unfold int64. lia.
Qed.

(** ** Replies *)

(** The complete lines of a text and what follows the last line end. *)
Fixpoint lines (s : string) : list string * string :=
  match s with
  | EmptyString => ([], "")
  | String c r =>
      let '(ls, last) := lines r in
      if ascii_eqb c LF then ("" :: ls, last)
      else match ls with [] => ([], String c last) | l :: ls => (String c l :: ls, last) end
  end.

(** What the driver makes of a text: each ["\r\n"] becomes ["\n"]. *)
Definition normalise (s : string) : string := unlines (map strip_cr (lines s).1) +:+ (lines s).2.

(** What the shell prints for a command that prints [out] and exits with [code],
    and what the reader makes of it. *)
Definition reply_text (marker out : string) (code : Z) : string := out +:+ (marker +:+ ":") +:+ FormatInt code +:+ newline.
Definition final_line (marker last : string) (code : Z) : lineRes :=
  mkLineRes (last +:+ (marker +:+ ":") +:+ FormatInt code +:+ newline) None.
Definition reply_lines (marker out : string) (code : Z) : list lineRes :=
  map (fun l => mkLineRes (strip_cr l +:+ newline) None) (lines out).1 ++ [final_line marker (lines out).2 code].

Lemma lines_spec s : s = unlines (lines s).1 +:+ (lines s).2 ∧
  Forall (fun l => ContainsByte l LF = false) (lines s).1 ∧ ContainsByte (lines s).2 LF = false.
Proof.
  induction s as [|c s IH]; [by split_and!|]. cbn [lines]. destruct (lines s) as [ls last]. destruct IH as (E & Hls & Hlast).
  cbn [fst snd] in *. destruct (ascii_eqb c LF) eqn:Ec.
  { apply ascii_eqb_eq in Ec as ->. cbn [unlines fst snd]. split_and!; [by rewrite E at 1|by constructor|done]. }
  assert (Hc : ∀ t, ContainsByte t LF = false → ContainsByte (String c t) LF = false).
  { intros t Ht. unfold ContainsByte in *. cbn [exists_char]. by rewrite ascii_eqb_sym, Ec. }
  destruct ls as [|l ls]; cbn [unlines fst snd append] in *; [rewrite E at 1; split_and!; auto|].
  apply Forall_cons in Hls as [H1 H2]. rewrite E at 1. split_and!; [done|by constructor; auto|done].
Qed.

Lemma normalise_plain s : ContainsByte s CR = false → normalise s = s.
Proof.
  intros H. destruct (lines_spec s) as (E & _ & _). unfold normalise. rewrite E at 3. rewrite E in H. f_equal.
  rewrite contains_app in H. apply orb_false_iff in H as [H _]. revert H. generalize (lines s).1. intros ls.
  induction ls as [|l ls IH]; [done|]. cbn [unlines map]. rewrite !contains_app, !orb_false_iff. intros (H1 & _ & H2).
  rewrite IH by done. f_equal. clear -H1. induction l as [|c l IH]; [done|]. unfold ContainsByte in *. cbn [exists_char] in H1.
  apply orb_false_iff in H1 as [Hc Hl]. cbn [strip_cr]. destruct l; [by rewrite ascii_eqb_sym, Hc|by rewrite IH].
Qed.

(** The reader on a reply followed by anything. *)
Lemma reader_reply marker out code rest err :
  ContainsByte marker LF = false → slen marker ≤ 64 → 0 ≤ code < 2 ^ 63 → slen (normalise out) ≤ MaxOutputBytes →
  shellReader (reply_text marker out code +:+ rest) err = reply_lines marker out code ++ shellReader rest err.
Proof.
  intros Hm Hml Hcode Hlen. destruct (lines_spec out) as (E & Hls & Hlast). unfold reply_text, reply_lines, normalise in *.
  set (ls := (lines out).1) in *. set (last := (lines out).2) in *. pose proof (FormatInt_digits code ltac:(lia)) as Hd.
  assert (Hdl : ContainsByte (FormatInt code) LF = false ∧ ContainsByte (FormatInt code) CR = false).
  { unfold ContainsByte. rewrite !exists_char_false. split; apply negb_false_iff; (eapply forall_char_impl; [|exact Hd]);
      intros [[] [] [] [] [] [] [] []]; done. }
  assert (Hcl : (String.length (FormatInt code) ≤ 20)%nat) by (apply FormatInt_length; lia).
  rewrite slen_app in Hlen.
  assert (Hsmall : Forall (fun l => slen (strip_cr l) ≤ slen (unlines (map strip_cr ls))) ls).
  { clear. induction ls as [|l ls IH]; [done|]. cbn [map unlines]. rewrite !slen_app. change (slen newline) with 1.
    pose proof (slen_nonneg (unlines (map strip_cr ls))). pose proof (slen_nonneg (strip_cr l)).
    constructor; [lia|]. eapply Forall_impl; [exact IH|]. simpl. intros x Hx. lia. }
  pose proof (slen_nonneg last). pose proof (slen_nonneg (unlines (map strip_cr ls))).
  assert (Hfin : plain_line (last +:+ (marker +:+ ":") +:+ FormatInt code) ∧
    strip_cr (last +:+ (marker +:+ ":") +:+ FormatInt code) = last +:+ (marker +:+ ":") +:+ FormatInt code).
  { assert (Hs : strip_cr (last +:+ (marker +:+ ":") +:+ FormatInt code) = last +:+ (marker +:+ ":") +:+ FormatInt code).
    { rewrite <-(String_append_assoc last), strip_cr_app by (by apply FormatInt_nonempty'). f_equal.
      pose proof (strip_cr_spec (FormatInt code)) as Hc. destruct (ends_cr (FormatInt code)); [|by rewrite String_append_nil in Hc].
      destruct Hdl as [_ Hdc]. rewrite Hc, contains_app in Hdc. apply orb_false_iff in Hdc as [_ Hdc]. by vm_compute in Hdc. }
    split; [|done]. split; [by rewrite !contains_app, Hlast, Hm, (proj1 Hdl)|]. rewrite Hs, !slen_app.
    change (slen ":") with 1. unfold slen at 3. unfold maxLine, shellReaderLineSlack. lia. }
  rewrite E at 1.
  replace ((unlines ls +:+ last) +:+ (marker +:+ ":") +:+ FormatInt code +:+ newline) with
    (unlines (ls ++ [last +:+ (marker +:+ ":") +:+ FormatInt code])).
  2:{ clear. induction ls as [|l ls IH]; cbn [unlines app]; [by rewrite !String_append_assoc|by rewrite IH, !String_append_assoc]. }
  rewrite shellReader_lines.
  - unfold final_line. rewrite map_app. cbn [map]. by rewrite (proj2 Hfin), !String_append_assoc.
  - apply Forall_app. split; [|constructor; [exact (proj1 Hfin)|constructor]].
    rewrite Forall_forall in *. intros l Hl. split; [by apply Hls|]. specialize (Hsmall l Hl). simpl in Hsmall.
    unfold maxLine, shellReaderLineSlack. lia.
Qed.

(** ** The driver on a reply *)

Section driver.
Context (event_json : Z → event_type → string → string).
Abbreviation record := (record event_json).
Abbreviation appendOut := (appendOut event_json).
Abbreviation exec_line := (exec_line event_json).
Abbreviation exec_loop := (exec_loop event_json).
Abbreviation exec_begin := (exec_begin event_json).
Abbreviation drain := (drain event_json).

(** What no step but [SetRecorder] changes. *)
Definition same_session (s s' : ShellSession) : Prop :=
  sh_marker s' = sh_marker s ∧ sh_recordStrict s' = sh_recordStrict s.

Lemma record_spec mo et text s : let '(ok, s') := record mo et text s in
  same_session s s' ∧ if ok then sh_broken s' = sh_broken s else sh_broken s' = true ∧ sh_recordStrict s = true.
Proof.
  unfold ShellDriver.record. destruct (sh_recorder s) as [rc|]; [|done]. destruct (rec_write _ _ _ _ _) as [res rc'].
  destruct (negb (is_ok res)); [|done]. cbn [andb sh_recordStrict with_recorder]. by destruct (sh_recordStrict s) eqn:E.
Qed.

Lemma appendOut_spec mo text out s : let '(r, s') := appendOut mo text out s in
  same_session s s' ∧
  match r with
  | Ok out' => out' = out +:+ text ∧ sh_broken s' = sh_broken s
  | Err _ => sh_broken s' = true ∧ (sh_recordStrict s = true ∨ MaxOutputBytes < slen out + slen text)
  end.
Proof.
  unfold ShellDriver.appendOut. case_bool_decide as Et; [subst; by rewrite String_append_nil|].
  destruct (Z.ltb_spec MaxOutputBytes (slen out + slen text)); [by split_and!; auto|].
  pose proof (record_spec mo EvOut text s) as Hr. destruct (record _ _ _ s) as [[] s']; [by destruct Hr as (? & ->)|].
  destruct Hr as (? & -> & ?). auto.
Qed.

Lemma drain_spec mo chunk s : same_session s (drain mo chunk s) ∧ sh_broken (drain mo chunk s) = sh_broken s.
Proof. unfold ShellDriver.drain. destruct (sh_stderr s) as [b|]; [|done]. by destruct (sb_Write _ _ _ _ _). Qed.

Lemma failure_spec s : let '(failed, s') := stderrRecordingFailure s in
  same_session s s' ∧ if failed : bool then sh_broken s' = true ∧ sh_recordStrict s = true else s' = s.
Proof. unfold stderrRecordingFailure. destruct (sh_stderr s); [|done]. destruct (sh_recordStrict s) eqn:E, (sb_failed _) eqn:F; simpl; auto; by split_and!. Qed.

Context (marker : string) (Hcolon : ContainsByte marker ":"%char = false) (Hlf : ContainsByte marker LF = false).
Abbreviation needle := (marker +:+ ":").

(** The line with the marker ends the command. *)
Lemma exec_final mo last code out s : sh_marker s = marker → 0 ≤ code < 2 ^ 63 → Index last needle = None →
  let '(r, s') := exec_line mo (final_line marker last code) out s in
  same_session s s' ∧
  ((∃ stderr, r = inr (Ok (mkExecResult (out +:+ last) stderr code)) ∧ sh_broken s' = sh_broken s) ∨
   (∃ e, r = inr (Err e) ∧ sh_broken s' = true ∧ (sh_recordStrict s = true ∨ MaxOutputBytes < slen out + slen last))).
Proof.
  intros Hmk Hcode Hlast. unfold ShellDriver.exec_line, final_line. cbn [lr_err lr_text]. rewrite Hmk, Index_first by done.
  set (text := last +:+ needle +:+ FormatInt code +:+ newline).
  assert (Hend : ∀ o s1, sh_marker s1 = marker → let '(r, s') := exec_end text (String.length last) o s1 in
    same_session s1 s' ∧ ((∃ stderr, r = Ok (mkExecResult o stderr code) ∧ sh_broken s' = sh_broken s1) ∨
      (∃ e, r = Err e ∧ sh_broken s' = true ∧ sh_recordStrict s1 = true))).
  { intros o s1 H1. unfold exec_end. rewrite H1.
    assert (sdrop (String.length last + String.length marker + 1) text = FormatInt code +:+ newline) as ->.
    { assert (Hd : ∀ a b, sdrop (String.length a) (a +:+ b) = b) by (intros a b; induction a; [by destruct b|done]).
      replace text with (((last +:+ marker) +:+ ":") +:+ (FormatInt code +:+ newline)) by (unfold text; by rewrite !String_append_assoc).
      replace (String.length last + String.length marker + 1)%nat with (String.length ((last +:+ marker) +:+ ":"));
        [apply Hd|rewrite !String_length_app; simpl; lia]. }
    rewrite exit_code_read by done. pose proof (failure_spec s1) as Hf. destruct (stderrRecordingFailure s1) as [[] s2]; naive_solver. }
  assert (Hstake : stake (String.length last) text = last).
  { unfold text. generalize (needle +:+ FormatInt code +:+ newline). clear. intros t. induction last; [done|]. simpl. by f_equal. }
  case_bool_decide as E0; [done|]. rewrite Hstake.
  destruct (0 <? String.length last)%nat eqn:El.
  - pose proof (appendOut_spec mo last out s) as Ha. destruct (appendOut mo last out s) as [[out'|e] s1].
    + destruct Ha as ([A1 A2] & -> & A3). specialize (Hend (out +:+ last) s1 ltac:(congruence)).
      destruct (exec_end _ _ _ _) as [r s2]. destruct Hend as ([B1 B2] & Hr). split; [split; congruence|].
      destruct Hr as [(x & -> & ?)|(e & -> & ? & ?)]; [left|right]; eexists; split_and!; [done|congruence|done|done|left; congruence].
    + destruct Ha as ([A1 A2] & A3 & A4). split; [done|]. right. eauto.
  - apply Nat.ltb_ge in El. assert (last = "") as -> by (destruct last; [done|simpl in El; lia]).
    specialize (Hend out s Hmk). destruct (exec_end _ _ _ _) as [r s2]. destruct Hend as ([B1 B2] & Hr). split; [done|].
    rewrite String_append_nil. destruct Hr as [(x & -> & ?)|(e & -> & ? & ?)]; [left|right]; eauto 6.
Qed.

(** Any other line of a reply is output. *)
Lemma exec_middle mo l out s : sh_marker s = marker → Index l needle = None →
  let '(r, s') := exec_line mo (mkLineRes (strip_cr l +:+ newline) None) out s in
  same_session s s' ∧
  ((r = inl (out +:+ strip_cr l +:+ newline) ∧ sh_broken s' = sh_broken s) ∨
   (∃ e, r = inr (Err e) ∧ sh_broken s' = true ∧ (sh_recordStrict s = true ∨ MaxOutputBytes < slen out + slen (strip_cr l) + 1))).
Proof.
  intros Hmk Hl. unfold ShellDriver.exec_line. cbn [lr_err lr_text]. case_bool_decide as E0; [done|].
  assert (Index (strip_cr l +:+ newline) needle = None) as Hn.
  { apply Index_newline; [by destruct marker|by rewrite contains_app, Hlf|].
    apply (Index_sub "" (strip_cr l) (if ends_cr l then String CR "" else "")). cbn [append]. by rewrite <-strip_cr_spec. }
  rewrite Hmk, Hn. pose proof (appendOut_spec mo (strip_cr l +:+ newline) out s) as Ha.
  destruct (appendOut _ _ _ _) as [[out'|e] s1]; destruct Ha as (? & Ha); (split; [done|]).
  - destruct Ha as [-> ?]. auto.
  - rewrite slen_app, Z.add_assoc in Ha. change (slen newline) with 1 in Ha. right. destruct Ha. eauto.
Qed.

Definition deliver (l : string) : lineRes := mkLineRes (strip_cr l +:+ newline) None.

(** Partial correctness: whatever happens while a reply is read, a result is the
    reply's, and an error breaks the session. *)
Lemma exec_reply ticks ls last code rest out s :
  sh_marker s = marker → 0 ≤ code < 2 ^ 63 → Forall (fun l => Index l needle = None) ls → Index last needle = None →
  let '(r, s', stream') := exec_loop ticks (map deliver ls ++ final_line marker last code :: rest) out s in
  same_session s s' ∧
  match r with
  | inl _ => True
  | inr (Ok res) => xr_Stdout res = out +:+ unlines (map strip_cr ls) +:+ last ∧ xr_ExitCode res = code ∧
                    stream' = rest ∧ sh_broken s' = sh_broken s
  | inr (Err _) => sh_broken s' = true
  end.
Proof.
  revert ls out s. induction ticks as [|[| |mo|chunk mo] ticks IH]; intros ls out s Hmk Hcode Hls Hlast; [done..| |].
  - destruct ls as [|l ls]; cbn [map app ShellDriver.exec_loop].
    + pose proof (exec_final mo last code out s Hmk Hcode Hlast) as H. destruct (exec_line _ _ _ _) as [r s1].
      destruct H as (Hs & [(stderr & -> & H)|(e & -> & H & _)]); split; done.
    + apply Forall_cons in Hls as [Hl Hls]. pose proof (exec_middle mo l out s Hmk Hl) as H. unfold deliver at 1.
      destruct (exec_line _ _ _ _) as [r s1]. destruct H as ([S1 S2] & [(-> & H)|(e & -> & H & _)]); [|done].
      specialize (IH ls (out +:+ strip_cr l +:+ newline) s1 ltac:(congruence) Hcode Hls Hlast).
      destruct (exec_loop _ _ _ _) as [[r s2] stream']. destruct IH as ([S3 S4] & IH). split; [split; congruence|].
      destruct r as [|[res|]]; [done| |done]. cbn [unlines]. rewrite !String_append_assoc in *. destruct IH as (? & ? & ? & ->). auto.
  - cbn [ShellDriver.exec_loop]. destruct (drain_spec mo chunk s) as ([D1 D2] & D3).
    specialize (IH ls out (drain mo chunk s) ltac:(congruence) Hcode Hls Hlast).
    destruct (exec_loop _ _ _ _) as [[r s2] stream']. destruct IH as ([S3 S4] & IH). split; [split; congruence|].
    by rewrite D3 in IH.
Qed.

Definition is_line (t : tick) : bool := match t with TLine _ => true | _ => false end.
Definition undisturbed (t : tick) : Prop := t ≠ TCancel ∧ t ≠ TDeadline.

(** Total correctness, when nothing interrupts and recording is not strict. *)
Lemma exec_completes ticks ls last code rest out s :
  sh_marker s = marker → 0 ≤ code < 2 ^ 63 → Forall (fun l => Index l needle = None) ls → Index last needle = None →
  sh_recordStrict s = false → slen out + slen (unlines (map strip_cr ls)) + slen last ≤ MaxOutputBytes →
  Forall undisturbed ticks → (length ls < length (List.filter is_line ticks))%nat →
  ∃ res s', exec_loop ticks (map deliver ls ++ final_line marker last code :: rest) out s = (inr (Ok res), s', rest).
Proof.
  revert ls out s. induction ticks as [|[| |mo|chunk mo] ticks IH]; intros ls out s Hmk Hcode Hls Hlast Hst Hsz Ht Hn;
    [simpl in Hn; lia|apply Forall_cons in Ht as [[Hc Hd] Ht]..]; [done..| |].
  - destruct ls as [|l ls]; cbn [map app ShellDriver.exec_loop].
    + pose proof (exec_final mo last code out s Hmk Hcode Hlast) as H. destruct (exec_line _ _ _ _) as [r s1].
      destruct H as (Hs & [(stderr & -> & H)|(e & -> & _ & [H|H])]); [eauto|congruence|].
      cbn [map unlines] in Hsz. change (slen "") with 0 in Hsz. lia.
    + apply Forall_cons in Hls as [Hl Hls]. pose proof (exec_middle mo l out s Hmk Hl) as H. unfold deliver at 1.
      cbn [map unlines] in Hsz. rewrite !slen_app in Hsz. change (slen newline) with 1 in Hsz.
      pose proof (slen_nonneg (unlines (map strip_cr ls))). pose proof (slen_nonneg last).
      destruct (exec_line _ _ _ _) as [r s1]. destruct H as ([S1 S2] & [(-> & H)|(e & -> & _ & [H|H])]); [|congruence|lia].
      apply IH; try done; [congruence..| |simpl in Hn; lia]. rewrite !slen_app. change (slen newline) with 1. lia.
  - cbn [ShellDriver.exec_loop]. destruct (drain_spec mo chunk s) as ([D1 D2] & D3). apply IH; try done; congruence.
Qed.

Lemma reply_parts out : Index out needle = None →
  Forall (fun l => Index l needle = None) (lines out).1 ∧ Index (lines out).2 needle = None.
Proof.
  destruct (lines_spec out) as (E & _). rewrite E at 1. generalize (lines out).1 (lines out).2. clear E. intros ls last H.
  assert (Hl : Index last needle = None) by (apply (Index_sub (unlines ls) last ""); by rewrite String_append_nil).
  split; [|done]. induction ls as [|l ls IH]; [done|]. cbn [unlines] in H. rewrite !String_append_assoc in H. constructor.
  - exact (Index_sub "" l _ _ H).
  - apply IH. refine (Index_sub (l +:+ newline) _ "" _ _). by rewrite String_append_nil, String_append_assoc.
Qed.
End driver.

(** A fresh marker has neither a colon nor a line end. *)
Lemma newMarker_plain random : String.length random = 8%nat →
  ContainsByte (newMarker random) ":"%char = false ∧ ContainsByte (newMarker random) LF = false ∧ slen (newMarker random) = 24.
Proof.
  intros Hr. destruct (hex_EncodeToString_spec random) as [Hl Hh]. unfold newMarker.
  assert (Hx : ∀ c, is_hex c = false → ContainsByte (hex_EncodeToString random) c = false).
  { intros c Hc. unfold ContainsByte. rewrite exists_char_false. apply negb_false_iff. eapply forall_char_impl; [|exact Hh].
    intros d Hd. destruct (ascii_eqb c d) eqn:E; [|done]. apply ascii_eqb_eq in E as ->. congruence. }
  rewrite !contains_app, !Hx by done. split_and!; [done..|]. rewrite !slen_app. unfold slen at 2. rewrite Hl, Hr. done.
Qed.

(** [C11] A command's output comes back exactly. What a command prints, with or
    without a last line end, and in lines of any length, is returned as its
    standard output with ["
"] read as ["
"], together with its exit code,
    when the private marker is not in it and it fits the limit; the reader is then
    at the byte after the reply. *)
Theorem shell_output_exact event_json s random out code rest err ticks :
  sh_marker s = newMarker random → String.length random = 8%nat → sh_recordStrict s = false →
  Index out (sh_marker s +:+ ":") = None → 0 ≤ code < 2 ^ 63 → slen (normalise out) ≤ MaxOutputBytes →
  Forall undisturbed ticks → (length (lines out).1 < length (List.filter is_line ticks))%nat →
  ∃ res s', exec_loop event_json ticks (shellReader (reply_text (sh_marker s) out code +:+ rest) err) "" s =
      (inr (Ok res), s', shellReader rest err) ∧
    xr_Stdout res = normalise out ∧ xr_ExitCode res = code.
Proof.
  intros Hmk Hr Hst Hidx Hcode Hlen Ht Hn. destruct (newMarker_plain random Hr) as (Hc & Hl & Hs). rewrite <-Hmk in Hc, Hl, Hs.
  rewrite reader_reply by (done || lia). destruct (reply_parts (sh_marker s) out Hidx) as [Hls Hlast].
  unfold reply_lines. rewrite <-app_assoc. cbn [app]. unfold normalise in Hlen. rewrite slen_app in Hlen.
  destruct (exec_completes event_json (sh_marker s) Hc Hl ticks (lines out).1 (lines out).2 code (shellReader rest err) "" s)
    as (res & s' & E); [done..|change (slen "") with 0; lia|done|done|].
  exists res, s'. split; [exact E|].
  pose proof (exec_reply event_json (sh_marker s) Hc Hl ticks (lines out).1 (lines out).2 code (shellReader rest err) "" s
    eq_refl Hcode Hls Hlast) as H. rewrite E in H. by destruct H as (_ & ? & ? & _).
Qed.

(** ** A whole session *)

(** One call of [Exec]: its command, what its writes meet and its ticks; or the
    drain of stderr between calls. *)
Inductive shell_op :=
| OpExec (command : string) (mo : moment) (wrote : bool) (ticks : list tick)
| OpDrain (chunk : string) (mo : moment).

(** The results of the calls in order, up to one that still waits. [host] is what
    the host prints for the commands it gets, in order; each reply is queued behind
    what was not read of the earlier ones. *)
Fixpoint session_run (event_json : Z → event_type → string → string) (host : list (string * Z)) (stream : list lineRes)
    (ops : list shell_op) (s : ShellSession) : list (result exec_error ExecResult) :=
  match ops with
  | [] => []
  | OpDrain chunk mo :: ops => session_run event_json host stream ops (drain event_json mo chunk s)
  | OpExec command mo wrote ticks :: ops =>
      match exec_begin event_json command mo wrote s with
      | (Err e, s) => Err e :: session_run event_json host stream ops s
      | (Ok _, s) =>
          match host with
          | [] => []
          | (out, code) :: host =>
              match exec_loop event_json ticks (stream ++ reply_lines (sh_marker s) out code) "" s with
              | (inl _, _, _) => []
              | (inr r, s, stream) => r :: session_run event_json host stream ops s
              end
          end
      end
  end.

(** A write on stdin that failed is the last: the channel is gone. *)
Fixpoint stdin_final (ops : list shell_op) : Prop :=
  match ops with
  | [] => True
  | OpExec _ _ wrote _ :: ops =>
      (wrote = false → Forall (fun o => match o with OpExec _ _ w _ => w = false | _ => True end) ops) ∧ stdin_final ops
  | OpDrain _ _ :: ops => stdin_final ops
  end.

Section session.
Context (event_json : Z → event_type → string → string) (marker : string).
Context (Hcolon : ContainsByte marker ":"%char = false) (Hlf : ContainsByte marker LF = false).

Lemma exec_begin_spec command mo wrote s : let '(r, s') := exec_begin event_json command mo wrote s in
  same_session s s' ∧
  match r with
  | Ok _ => sh_broken s = false ∧ sh_broken s' = false ∧ wrote = true
  | Err e => sh_broken s' = true ∨ wrote = false
  end.
Proof.
  unfold exec_begin. destruct (sh_broken s) eqn:Hb; [auto; by split; auto|].
  pose proof (failure_spec s) as Hf. destruct (stderrRecordingFailure s) as [[] s1]; [by destruct Hf as (? & ? & _); auto|].
  destruct Hf as (_ & ->). set (s1 := with_stderr _ s).
  assert (Hr : let '(ok, s') := if bool_decide (command ≠ ":") then record event_json mo EvIn (command +:+ newline) s1 else (true, s1) in
    same_session s s' ∧ if ok then sh_broken s' = sh_broken s else sh_broken s' = true).
  { case_bool_decide; [|done]. pose proof (record_spec event_json mo EvIn (command +:+ newline) s1) as H1.
    destruct (record _ _ _ _ _) as [[] s2]; destruct H1 as (? & H1); split; done || by destruct H1. }
  destruct (if bool_decide _ then _ else _) as [ok s2]. destruct ok, Hr as (? & Hr); cbn [negb]; [|by auto].
  destruct wrote; cbn [negb]; split; auto. split_and!; congruence.
Qed.

(** No command gets through any more. *)
Lemma dead_session host stream ops s :
  (sh_broken s = true ∨ Forall (fun o => match o with OpExec _ _ w _ => w = false | _ => True end) ops) →
  Forall (fun r => ∃ e, r = Err e) (session_run event_json host stream ops s).
Proof.
  revert s. induction ops as [|[command mo wrote ticks|chunk mo] ops IH]; intros s H; cbn [session_run]; [done| |].
  - destruct H as [H|[-> H]%Forall_cons].
    + unfold exec_begin. rewrite H. constructor; [by eexists|]. apply IH. by left.
    + pose proof (exec_begin_spec command mo false s) as Hb. destruct (exec_begin _ _ _ _ _) as [[line|e] s1]; [by destruct Hb as (_ & _ & _ & ?)|].
      constructor; [by eexists|]. apply IH. by right.
  - apply IH. rewrite (proj2 (drain_spec event_json mo chunk s)). destruct H as [|[_ ?]%Forall_cons]; auto.
Qed.

Definition reply_ok (r : string * Z) : Prop := Index r.1 (marker +:+ ":") = None ∧ 0 ≤ r.2 < 2 ^ 63.

Lemma session_run_results host ops s i r :
  sh_marker s = marker → Forall reply_ok host → stdin_final ops →
  session_run event_json host [] ops s !! i = Some (Ok r) →
  ∃ out code, host !! i = Some (out, code) ∧ xr_Stdout r = normalise out ∧ xr_ExitCode r = code.
Proof.
  revert host s i. induction ops as [|[command mo wrote ticks|chunk mo] ops IH]; intros host s i Hmk Hh Hf; cbn [session_run]; [done| |].
  - cbn [stdin_final] in Hf. destruct Hf as [Hw Hf].
    assert (Hdead : ∀ h st s', (sh_broken s' = true ∨ wrote = false) → ∀ j, session_run event_json h st ops s' !! j ≠ Some (Ok r)).
    { intros h st s' Hd j Hj. assert (Hall : Forall (fun r => ∃ e, r = Err e) (session_run event_json h st ops s')).
      { apply dead_session. destruct Hd as [|Hd]; [by left|right; auto]. }
      rewrite Forall_lookup in Hall. by destruct (Hall _ _ Hj). }
    pose proof (exec_begin_spec command mo wrote s) as Hb. destruct (exec_begin _ _ _ _ _) as [[line|e] s1].
    2:{ destruct i as [|i]; [done|]. simpl. intros Hi. destruct Hb as (_ & Hb). by destruct (Hdead host [] s1 Hb i). }
    destruct Hb as ([B1 _] & _ & Hb & _). destruct host as [|[out code] host]; [done|]. apply Forall_cons in Hh as [[Hidx Hcode] Hh].
    cbn [fst snd app] in *. destruct (reply_parts marker out Hidx) as [Hls Hlast]. unfold reply_lines. rewrite B1, Hmk.
    pose proof (exec_reply event_json marker Hcolon Hlf ticks (lines out).1 (lines out).2 code [] "" s1 ltac:(congruence) Hcode Hls Hlast) as H.
    unfold deliver in H. destruct (exec_loop _ _ _ _ _) as [[[|[res|e]] s2] st]; [done|..]; destruct H as ([E1 _] & H).
    + destruct H as (H1 & H2 & -> & H3). destruct i as [|i]; [intros [= <-]; by exists out, code|].
      intros Hi. refine (IH host s2 i _ Hh Hf Hi). congruence.
    + destruct i as [|i]; [done|]. simpl. intros Hi. by destruct (Hdead host st s2 (or_introl H) i).
  - intros Hi. refine (IH host _ i _ Hh Hf Hi). destruct (drain_spec event_json mo chunk s) as ([D1 _] & _). congruence.
Qed.
End session.

(** [C10] No result is taken for another command's. Over a whole session, with
    timeouts, cancellations, overflows, failing writes and failing recordings at any
    point, and stderr arriving at any time, the [i]th call returns a result only if
    it is the output and the exit code of the [i]th command the shell was sent. *)
Theorem shell_never_misattributes event_json random host ops s i r :
  sh_marker s = newMarker random → String.length random = 8%nat →
  Forall (reply_ok (sh_marker s)) host → stdin_final ops →
  session_run event_json host [] ops s !! i = Some (Ok r) →
  ∃ out code, host !! i = Some (out, code) ∧ xr_Stdout r = normalise out ∧ xr_ExitCode r = code.
Proof.
  intros Hmk Hr. destruct (newMarker_plain random Hr) as (Hc & Hl & _). rewrite <-Hmk in Hc, Hl.
  by apply session_run_results.
Qed.
