(* ===== verification/ShellRecord.v ===== *)
(** * Strict recording and bounded output of a shell session *)

From S2P Require Import Prelude GoStrings Encoding AuditTime Intent Sessions Prog Broker EngineFiles Recording ShellReader ShellDriver ShellRun.

(** An event as it was passed to the recorder, at its time. *)
Record cast_event := mkCastEvent { ce_delta : Z; ce_type : event_type; ce_data : string }.

Definition event_type_eqb (a b : event_type) : bool :=
  match a, b with EvOut, EvOut | EvIn, EvIn | EvErr, EvErr => true | _, _ => false end.
(** All the data of one stream, in order. *)
Fixpoint cast_data (et : event_type) (es : list cast_event) : string :=
  match es with
  | [] => ""
  | e :: es => (if event_type_eqb (ce_type e) et then ce_data e else "") +:+ cast_data et es
  end.

Section recorded.
Context (event_json : Z → event_type → string → string).

(** The lines of a cast, each event redacted on its own. *)
Fixpoint cast_text (rd : option (string → string)) (es : list cast_event) : string :=
  match es with
  | [] => ""
  | e :: es =>
      event_line event_json (ce_delta e) (ce_type e) (match rd with Some f => f (ce_data e) | None => ce_data e end)
      +:+ cast_text rd es
  end.

Lemma cast_text_app rd es fs : cast_text rd (es ++ fs) = cast_text rd es +:+ cast_text rd fs.
Proof. induction es as [|e es IH]; [done|]. cbn [app cast_text]. by rewrite IH, String_append_assoc. Qed.
Lemma cast_data_app et es fs : cast_data et (es ++ fs) = cast_data et es +:+ cast_data et fs.
Proof. induction es as [|e es IH]; [done|]. cbn [app cast_data]. by rewrite IH, String_append_assoc. Qed.

(** A strict session with its recorder in place. *)
Definition recording (rd : option (string → string)) (s : ShellSession) : Prop :=
  sh_recordStrict s = true ∧ (∀ b, sh_stderr s = Some b → sb_recorded b = true ∧ sb_strict b = true) ∧
  ∃ rc, sh_recorder s = Some rc ∧ rr_open rc = true ∧ rr_redactor rc = rd.
Definition cast_file (s : ShellSession) : string := match sh_recorder s with Some rc => rr_file rc | None => "" end.
Definition stderr_text (s : ShellSession) : string := match sh_stderr s with Some b => sb_buf b | None => "" end.
Definition stderr_failed (s : ShellSession) : bool := match sh_stderr s with Some b => sb_failed b | None => false end.

(** From [f0] on, the cast holds exactly the events [es]. *)
Definition on_record (rd : option (string → string)) (f0 : string) (es : list cast_event) (s : ShellSession) : Prop :=
  cast_file s = f0 +:+ cast_text rd es ∧ cast_data EvErr es = stderr_text s.

Lemma record_strict rd mo et text s s' : recording rd s → text ≠ "" → record event_json mo et text s = (true, s') →
  recording rd s' ∧ sh_stderr s' = sh_stderr s ∧ cast_file s' = cast_file s +:+ cast_text rd [mkCastEvent (mo_delta mo) et text].
Proof.
  intros (Hst & Hw & rc & Hrc & Ho & <-) Ht. unfold record, cast_file. rewrite Hrc.
  destruct (rec_write _ _ _ _ rc) as [res rc'] eqn:E. cbn [sh_recordStrict with_recorder]. rewrite Hst, andb_true_r.
  destruct res as [[]|]; [|done]. cbn [is_ok negb]. intros [= <-]. apply rec_write_Ok in E as (F & O & R & _); [|done..].
  split_and!; [|done|]; cbn [with_recorder sh_recorder]; [split; [done|]; split; [done|]; by exists rc'|].
  cbn [cast_text ce_delta ce_type ce_data]. by rewrite String_append_nil.
Qed.

Lemma drain_strict rd mo chunk f0 es s : recording rd s → let s' := drain event_json mo chunk s in
  recording rd s' ∧ (stderr_failed s = true → stderr_failed s' = true) ∧
  (on_record rd f0 es s → stderr_failed s' = true ∨ ∃ fs, on_record rd f0 (es ++ fs) s' ∧ cast_data EvOut fs = "").
Proof.
  intros (Hst & Hw & rc & Hrc & Ho & Hrd). unfold drain, stderr_failed, on_record, stderr_text, cast_file. destruct (sh_stderr s) as [b|] eqn:Hb.
  2:{ cbv zeta. rewrite Hb, Hrc. split_and!; [split_and!; eauto; by rewrite Hb|done|]. intros [H1 H2]. right. exists []. by rewrite app_nil_r. }
  destruct (Hw b eq_refl) as [B1 B2]. unfold sb_Write. rewrite Hrc, B1, B2.
  assert (Hsame : ∀ b', sb_recorded b' = true → sb_strict b' = true → recording rd (with_recorder (Some rc) (with_stderr (Some b') s))).
  { intros b' H1 H2. split_and!; [done| |by exists rc]. by intros ? [= <-]. }
  destruct (Z.leb_spec (MaxOutputBytes - slen (sb_buf b)) 0).
  { cbv zeta. cbn [sh_stderr sh_recorder with_recorder with_stderr sb_failed sb_buf]. split_and!; [by apply Hsame|done|].
    intros [H1 H2]. right. exists []. by rewrite app_nil_r. }
  destruct (if MaxOutputBytes - slen (sb_buf b) <? slen chunk then _ else _) as [keep truncated]. destruct (Z.ltb_spec 0 (slen keep)) as [Hk|Hk]; cbn [andb].
  2:{ assert (keep = "") as -> by (destruct keep; [done|unfold slen in Hk; simpl in Hk; lia]).
      cbv zeta. cbn [sh_stderr sh_recorder with_recorder with_stderr sb_failed sb_buf]. rewrite String_append_nil. split_and!; [by apply Hsame|done|].
      intros [H1 H2]. right. exists []. by rewrite app_nil_r. }
  assert (Hne : keep ≠ "") by (intros ->; unfold slen in Hk; simpl in Hk; lia).
  destruct (rec_write_keeps event_json mo EvErr keep rc) as (K1 & K2 & _).
  destruct (rec_write _ _ _ _ rc) as [res rc'] eqn:E. cbv zeta. cbn [fst snd] in K1, K2.
  cbn [sh_stderr sh_recorder with_recorder with_stderr sb_failed sb_buf]. split_and!.
  - split_and!; [done|by intros ? [= <-]|]. exists rc'. split_and!; [done|congruence..].
  - intros ->. done.
  - intros [H1 H2]. destruct res as [[]|]; [|left; by destruct (sb_failed b)]. right.
    apply rec_write_Ok in E as (F & _); [|done..]. exists [mkCastEvent (mo_delta mo) EvErr keep]. split; [|done].
    rewrite F, H1, cast_text_app, cast_data_app, H2. cbn [cast_text cast_data ce_delta ce_type ce_data event_type_eqb].
    unfold redacted. rewrite Hrd, !String_append_nil, String_append_assoc. done.
Qed.

(** While a command runs: after the events [pre] the cast holds the output so far,
    or the drain has failed and the command will. *)
Definition kept (rd : option (string → string)) (f0 : string) (pre : list cast_event) (out : string) (s : ShellSession) : Prop :=
  recording rd s ∧
  (stderr_failed s = true ∨ ∃ es, on_record rd f0 (pre ++ es) s ∧ cast_data EvOut es = out).

Section kept.
Context (rd : option (string → string)) (f0 : string) (pre : list cast_event).
Abbreviation kept := (kept rd f0 pre).

Lemma appendOut_kept mo text out s out' s' : kept out s → appendOut event_json mo text out s = (Ok out', s') → kept out' s'.
Proof.
  unfold appendOut. intros [Hr Hk]. case_bool_decide as Et; [by intros [= <- <-]|]. destruct (_ <? _); [done|].
  destruct (record _ _ _ _ s) as [[] s1] eqn:E; [|done]. intros [= <- <-].
  destruct (record_strict rd mo EvOut text s s1 Hr Et E) as (Hr1 & Hs & Hf). split; [done|].
  unfold stderr_failed, on_record, stderr_text in *. rewrite Hs. destruct Hk as [|(es & [H1 H2] & H3)]; [by left|]. right.
  exists (es ++ [mkCastEvent (mo_delta mo) EvOut text]).
  rewrite Hf, H1, app_assoc, cast_text_app, (cast_data_app EvErr), H2, cast_data_app, H3.
  cbn [cast_data ce_type ce_data event_type_eqb]. rewrite !cast_text_app. by rewrite !String_append_nil, !String_append_assoc.
Qed.

(** What a returned result and the session's cast agree on. *)
Definition result_recorded (r : ExecResult) (s : ShellSession) : Prop :=
  ∃ es, on_record rd f0 (pre ++ es) s ∧ cast_data EvOut es = xr_Stdout r ∧
    xr_Stderr r = match sh_stderr s with Some b => sb_output b | None => "" end.

Lemma exec_end_kept text idx out s r s' : kept out s → exec_end text idx out s = (Ok r, s') → result_recorded r s'.
Proof.
  unfold exec_end. intros [(Hst & _) Hk]. destruct (Atoi_int _) as [code|]; [|done].
  unfold stderrRecordingFailure. rewrite Hst. unfold stderr_failed in Hk. destruct (sh_stderr s) as [b|] eqn:Hb; cbn [andb].
  - destruct (sb_failed b) eqn:F; [done|]. intros [= <- <-]. destruct Hk as [|(es & H1 & H2)]; [done|].
    exists es. by rewrite Hb.
  - intros [= <- <-]. destruct Hk as [|(es & H1 & H2)]; [done|]. exists es. by rewrite Hb.
Qed.

Lemma exec_line_kept mo lr out s : kept out s → let '(r, s') := exec_line event_json mo lr out s in
  match r with inl out' => kept out' s' | inr (Ok r) => result_recorded r s' | inr (Err _) => True end.
Proof.
  intros Hk. unfold exec_line. case_bool_decide; [done|]. destruct (Index _ _) as [idx|].
  - destruct (0 <? idx)%nat.
    + destruct (appendOut _ _ _ _ _) as [[out'|] s1] eqn:Ea; [|done]. apply (appendOut_kept _ _ _ _ _ _ Hk) in Ea.
      destruct (exec_end _ _ _ _) as [[r|] s2] eqn:Ee; [|done]. by eapply exec_end_kept.
    + destruct (exec_end _ _ _ _) as [[r|] s2] eqn:Ee; [|done]. by eapply exec_end_kept.
  - destruct (appendOut _ _ _ _ _) as [[out'|] s1] eqn:Ea; [|done]. apply (appendOut_kept _ _ _ _ _ _ Hk) in Ea.
    by destruct (lr_err lr).
Qed.

Lemma exec_loop_kept ticks stream out s r s' st : kept out s →
  exec_loop event_json ticks stream out s = (inr (Ok r), s', st) → result_recorded r s'.
Proof.
  revert stream out s. induction ticks as [|[| |mo|chunk mo] ticks IH]; intros stream out s Hk; cbn [exec_loop]; [done..| |].
  - destruct stream as [|lr stream]; [by apply IH|]. pose proof (exec_line_kept mo lr out s Hk) as H.
    destruct (exec_line _ _ _ _ _) as [[out'|[r'|e]] s1]; [by apply IH| |done]. by intros [= <- <- _].
  - apply IH. destruct Hk as [Hr Hk]. split; [exact (proj1 (drain_strict rd mo chunk f0 [] s Hr))|].
    destruct Hk as [Hf|(es & H1 & H2)]; [left; exact (proj1 (proj2 (drain_strict rd mo chunk f0 [] s Hr)) Hf)|].
    destruct (drain_strict rd mo chunk f0 (pre ++ es) s Hr) as (_ & _ & H). destruct (H H1) as [|(fs & H3 & H4)]; [by left|].
    right. exists (es ++ fs). by rewrite app_assoc, cast_data_app, H2, H4, String_append_nil.
Qed.
End kept.
End recorded.

(** [C17] Strict recording is complete. A call that returns a result on a session
    that records strictly has left in the recording, after what was there before,
    the command, then every byte of the standard output and of the kept standard
    error it returns, each event whole and redacted, and nothing else. *)
Theorem strict_session_recorded event_json rd s command mo wrote line s1 ticks stream r s2 st :
  recording rd s → command ≠ ":" →
  exec_begin event_json command mo wrote s = (Ok line, s1) → exec_loop event_json ticks stream "" s1 = (inr (Ok r), s2, st) →
  ∃ es, cast_file s2 = cast_file s +:+ cast_text event_json rd (mkCastEvent (mo_delta mo) EvIn (command +:+ newline) :: es) ∧
    cast_data EvOut es = xr_Stdout r ∧
    match sh_stderr s2 with
    | Some b => cast_data EvErr es = sb_buf b ∧ xr_Stderr r = sb_output b
    | None => cast_data EvErr es = "" ∧ xr_Stderr r = ""
    end.
Proof.
  intros Hr Hc Hb Hl. set (e0 := mkCastEvent (mo_delta mo) EvIn (command +:+ newline)).
  assert (Hk : kept event_json rd (cast_file s) [e0] "" s1).
  { revert Hb. unfold exec_begin. destruct (sh_broken s); [done|]. destruct (stderrRecordingFailure s) as [[] s0] eqn:Hf; [done|].
    assert (s0 = s) as -> by (pose proof (failure_spec s) as H; rewrite Hf in H; tauto).
    rewrite bool_decide_eq_true_2 by done. set (s3 := with_stderr _ s).
    assert (Hr3 : recording rd s3).
    { destruct Hr as (H1 & H2 & H3). split_and!; [done| |done]. intros b. cbn [s3 with_stderr sh_stderr].
      destruct (sh_stderr s) as [b0|]; [|done]. intros [= <-]. exact (H2 b0 eq_refl). }
    destruct (record _ _ _ _ s3) as [[] s4] eqn:E; [|done]. destruct wrote; [|done]. intros [= _ <-].
    apply (record_strict event_json rd) in E as (Hr4 & Hs4 & Hf4); [|done|by destruct command].
    split; [done|]. right. exists []. split; [|done]. split; [exact Hf4|]. unfold stderr_text. rewrite Hs4.
    cbn [s3 with_stderr sh_stderr]. by destruct (sh_stderr s). }
  destruct (exec_loop_kept event_json rd (cast_file s) [e0] _ _ _ _ _ _ _ Hk Hl) as (es & [H1 H2] & H3 & H4).
  exists es. split; [exact H1|]. split; [done|]. unfold stderr_text in H2. cbn [app cast_data e0 ce_type event_type_eqb append] in H2.
  destruct (sh_stderr s2); auto.
Qed.

(** ** Bounds *)

Section bounded.
Context (event_json : Z → event_type → string → string).

Definition stderr_bounded (s : ShellSession) : Prop := slen (stderr_text s) ≤ MaxOutputBytes.

(** What the reader offers: text, or an error. *)
Definition delivered (lr : lineRes) : Prop := lr_err lr = None → lr_text lr ≠ "".

Lemma shellReader_delivers rest err : Forall delivered (shellReader rest err).
Proof.
  unfold shellReader. generalize (S (String.length rest)). intros f. generalize "". revert rest.
  induction f as [|f IH]; intros rest line; cbn [reader_loop]; [done|].
  destruct (ReadLine rest) as [[[frag pre] failed] rest']. destruct (_ && _); [by repeat constructor|].
  destruct failed; [by repeat constructor|]. destruct pre; [done|]. constructor; [|done]. intros _. cbn [lr_text].
  by destruct (line +:+ frag).
Qed.

Lemma record_stderr mo et text s : sh_stderr (record event_json mo et text s).2 = sh_stderr s.
Proof. unfold record. destruct (sh_recorder s); [|done]. destruct (rec_write _ _ _ _ _). by destruct (_ && _). Qed.

Lemma drain_bounded mo chunk s : stderr_bounded s → stderr_bounded (drain event_json mo chunk s).
Proof.
  unfold drain, stderr_bounded, stderr_text. destruct (sh_stderr s) as [b|] eqn:Hb; [|by rewrite Hb]. intros H.
  unfold sb_Write. destruct (Z.leb_spec (MaxOutputBytes - slen (sb_buf b)) 0); [done|].
  assert (Hk : let '(keep, _) := if MaxOutputBytes - slen (sb_buf b) <? slen chunk
      then (stake (Z.to_nat (MaxOutputBytes - slen (sb_buf b))) chunk, true) else (chunk, sb_truncated b) in
    slen (sb_buf b) + slen keep ≤ MaxOutputBytes).
  { destruct (Z.ltb_spec (MaxOutputBytes - slen (sb_buf b)) (slen chunk)) as [Hl|]; [|lia].
    unfold slen in *. rewrite stake_length; lia. }
  destruct (if _ <? _ then _ else _) as [keep truncated]. rewrite <-slen_app in Hk.
  destruct (sh_recorder s); [|done]. destruct (_ && _); [|done]. by destruct (rec_write _ _ _ _ _).
Qed.

Definition result_bounded (r : ExecResult) : Prop :=
  slen (xr_Stdout r) ≤ MaxOutputBytes ∧ slen (xr_Stderr r) ≤ MaxOutputBytes + slen stderr_note.

Lemma appendOut_bounded mo text out s out' s' : slen out ≤ MaxOutputBytes → appendOut event_json mo text out s = (Ok out', s') →
  slen out' ≤ MaxOutputBytes ∧ slen out' = slen out + slen text ∧ sh_stderr s' = sh_stderr s.
Proof.
  unfold appendOut. intros Ho. case_bool_decide as Et; [intros [= <- <-]; subst; change (slen "") with 0; split_and!; [lia|lia|done]|].
  destruct (Z.ltb_spec MaxOutputBytes (slen out + slen text)); [done|]. pose proof (record_stderr mo EvOut text s) as Hs.
  destruct (record _ _ _ _ s) as [[] s1]; [|done]. intros [= <- <-]. rewrite slen_app. split_and!; [lia|done|done].
Qed.

Lemma exec_end_bounded text idx out s r s' : slen out ≤ MaxOutputBytes → stderr_bounded s → exec_end text idx out s = (Ok r, s') →
  result_bounded r.
Proof.
  unfold exec_end, stderr_bounded, stderr_text. intros Ho Hs. destruct (Atoi_int _); [|done].
  destruct (stderrRecordingFailure s) as [[] s1]; [done|]. intros [= <- _]. split; [done|]. cbn [xr_Stderr].
  assert (Hn : 0 ≤ slen stderr_note) by apply slen_nonneg. destruct (sh_stderr s) as [b|]; [|lia].
  unfold sb_output. destruct (negb _); [lia|]. rewrite slen_app. lia.
Qed.

Lemma exec_line_bounded mo lr out s : slen out ≤ MaxOutputBytes → stderr_bounded s → delivered lr →
  let '(r, s') := exec_line event_json mo lr out s in
  match r with
  | inl out' => slen out < slen out' ≤ MaxOutputBytes ∧ stderr_bounded s'
  | inr (Ok r) => result_bounded r
  | inr (Err _) => True
  end.
Proof.
  intros Ho Hs Hd. unfold exec_line. case_bool_decide; [done|]. destruct (Index _ _) as [idx|].
  - destruct (0 <? idx)%nat.
    + destruct (appendOut _ _ _ _ _) as [[out'|] s1] eqn:Ea; [|done]. apply (appendOut_bounded _ _ _ _ _ _ Ho) in Ea as (H1 & _ & H2).
      destruct (exec_end _ _ _ _) as [[r|] s2] eqn:Ee; [|done]. eapply (exec_end_bounded _ _ _ s1); [done| |done].
      unfold stderr_bounded, stderr_text. by rewrite H2.
    + destruct (exec_end _ _ _ _) as [[r|] s2] eqn:Ee; [|done]. refine (exec_end_bounded _ _ _ _ _ _ Ho Hs Ee).
  - destruct (appendOut _ _ _ _ _) as [[out'|] s1] eqn:Ea; [|done]. apply (appendOut_bounded _ _ _ _ _ _ Ho) in Ea as (H1 & H2 & H3).
    unfold delivered in Hd. destruct (lr_err lr); [done|]. specialize (Hd eq_refl).
    assert (0 < slen (lr_text lr)) by (destruct (lr_text lr); [done|unfold slen; simpl; lia]).
    split; [lia|]. unfold stderr_bounded, stderr_text. by rewrite H3.
Qed.
End bounded.

(** A session never holds or returns more than its limits, and cannot be kept
    waiting by output. A returned result has at most [MaxOutputBytes] of standard
    output, and of standard error with its note; a call that has not returned has
    read at most one line per byte of the output it holds, hence fewer lines than
    the limit has bytes. *)
Theorem exec_bounded event_json ticks stream out s : slen out ≤ MaxOutputBytes → stderr_bounded s → Forall delivered stream →
  let '(r, s', stream') := exec_loop event_json ticks stream out s in
  match r with
  | inl out' => slen out' ≤ MaxOutputBytes ∧
                slen out + Z.of_nat (length stream) ≤ slen out' + Z.of_nat (length stream')
  | inr (Ok r) => result_bounded r
  | inr (Err _) => True
  end.
Proof.
  revert stream out s. induction ticks as [|[| |mo|chunk mo] ticks IH]; intros stream out s Ho Hs Hd; cbn [exec_loop]; [split; [done|lia]|done..| |].
  - destruct stream as [|lr stream]; [by apply IH|]. apply Forall_cons in Hd as [H1 Hd].
    pose proof (exec_line_bounded event_json mo lr out s Ho Hs H1) as H.
    destruct (exec_line _ _ _ _ _) as [[out'|[r|e]] s1]; [|done..]. destruct H as [[H2 H3] H4]. specialize (IH stream out' s1 H3 H4 Hd).
    destruct (exec_loop _ _ _ _ _) as [[[out2|r] s2] st]; [|done]. destruct IH. cbn [length]. split; [done|lia].
  - apply IH; [done| |done]. by apply drain_bounded.
Qed.

(** ** Shell sessions at work

    Concrete runs of the driver to which the statements about it apply. *)

Definition sample_json (delta : Z) (et : event_type) (data : string) : string :=
  match et with EvOut => "o " | EvIn => "i " | EvErr => "e " end +:+ data.
Definition sample_shell : ShellSession := fresh_shell "abcdefgh" false.
Definition sample_moment : moment := mkMoment 5 Whole.
Definition sample_ticks : list tick := [TLine sample_moment; TStderr "warning" sample_moment; TLine sample_moment; TLine sample_moment].
(** Two lines, the first ended as on a terminal, and one that is not ended. *)
Definition sample_out : string := "one" +:+ crlf +:+ "two" +:+ newline +:+ "three".

Lemma shell_output_exact_witness :
  ∃ res s', exec_loop sample_json sample_ticks (shellReader (reply_text (sh_marker sample_shell) sample_out 3 +:+ "later") EEOF) "" sample_shell =
      (inr (Ok res), s', shellReader "later" EEOF) ∧
    xr_Stdout res = "one" +:+ newline +:+ "two" +:+ newline +:+ "three" ∧ xr_ExitCode res = 3.
Proof.
  destruct (shell_output_exact sample_json sample_shell "abcdefgh" sample_out 3 "later" EEOF sample_ticks) as (res & s' & H1 & H2 & H3);
    [reflexivity..|vm_compute; reflexivity|lia|vm_compute; discriminate|repeat constructor; discriminate|vm_compute; lia|].
  exists res, s'. split; [exact H1|]. rewrite H2, H3. split; reflexivity.
Defined.

(** The second command times out; what it printed stays in flight. *)
Definition sample_host : list (string * Z) := [("up" +:+ newline, 0); ("slow", 1); ("late", 0)].
Definition sample_ops : list shell_op :=
  [OpExec "uptime" sample_moment true [TLine sample_moment; TLine sample_moment]; OpDrain "noise" sample_moment;
   OpExec "sleep 60" sample_moment true [TDeadline]; OpExec "id" sample_moment true [TLine sample_moment; TLine sample_moment]].
Definition sample_results : list (result exec_error ExecResult) :=
  session_run sample_json sample_host [] sample_ops sample_shell.

Lemma shell_never_misattributes_witness :
  sample_results = [Ok (mkExecResult ("up" +:+ newline) "" 0); Err EExecTimeout; Err EDesync] ∧
  ∃ out code, sample_host !! 0%nat = Some (out, code) ∧ "up" +:+ newline = normalise out ∧ 0 = code.
Proof.
  split; [vm_compute; reflexivity|].
  refine (shell_never_misattributes sample_json "abcdefgh" sample_host sample_ops sample_shell 0 (mkExecResult ("up" +:+ newline) "" 0) _ _ _ _ _).
  - reflexivity.
  - reflexivity.
  - repeat constructor; vm_compute; done.
  - repeat split; discriminate.
  - vm_compute. reflexivity.
Defined.

(** A strict session whose recorder redacts everything. *)
Definition sample_redactor : option (string → string) := Some (fun _ => "*").
Definition strict_shell : ShellSession :=
  SetRecorder (Some (mkRecorder true ("head" +:+ newline) sample_redactor 5 DefaultMaxBytes false)) true sample_shell.
Definition strict_stream : list lineRes := shellReader (reply_text (sh_marker strict_shell) "root" 0) EEOF.
Definition strict_line : string := "id" +:+ newline +:+ markerLine (sh_marker strict_shell).
Definition strict_begun : ShellSession := (exec_begin sample_json "id" sample_moment true strict_shell).2.
Definition strict_ended : ShellSession :=
  (exec_loop sample_json [TStderr "w" sample_moment; TLine sample_moment] strict_stream "" strict_begun).1.2.

Lemma strict_session_recorded_witness :
  cast_file strict_ended = "head" +:+ newline +:+ "i *" +:+ newline +:+ "e *" +:+ newline +:+ "o *" +:+ newline ∧
  ∃ es, cast_file strict_ended = cast_file strict_shell +:+
      cast_text sample_json sample_redactor (mkCastEvent 5 EvIn ("id" +:+ newline) :: es) ∧
    cast_data EvOut es = "root" ∧
    match sh_stderr strict_ended with
    | Some b => cast_data EvErr es = sb_buf b ∧ "w" = sb_output b
    | None => cast_data EvErr es = "" ∧ "w" = ""
    end.
Proof.
  split; [vm_compute; reflexivity|].
  refine (strict_session_recorded sample_json sample_redactor strict_shell "id" sample_moment true strict_line strict_begun
    [TStderr "w" sample_moment; TLine sample_moment] strict_stream (mkExecResult "root" "w" 0) strict_ended _ _ _ _ _).
  - split; [reflexivity|]. split; [|eexists; split; [reflexivity|split; reflexivity]]. intros b [= <-]. split; reflexivity.
  - discriminate.
  - reflexivity.
  - vm_compute. reflexivity.
Defined.

Lemma exec_bounded_witness :
  let '(r, _, stream') := exec_loop sample_json [TLine sample_moment; TLine sample_moment]
    (shellReader (sample_out +:+ newline +:+ "more") EEOF) "" sample_shell in
  match r with
  | inl out' => slen out' ≤ MaxOutputBytes ∧ 0 + 5 ≤ slen out' + Z.of_nat (length stream')
  | inr _ => False
  end.
Proof.
  pose proof (exec_bounded sample_json [TLine sample_moment; TLine sample_moment]
    (shellReader (sample_out +:+ newline +:+ "more") EEOF) "" sample_shell
    ltac:(vm_compute; discriminate) ltac:(vm_compute; discriminate) (shellReader_delivers _ _)) as H.
  exact H.
Defined.
