(* ===== verification/SshConn.v ===== *)
(** * Connection chains and one-shot commands

    [internal/ssh/run.go]: [Dial] through bastions, [ExecOnce] with its timeout
    and cancellation. The network and the SSH library answer the calls. *)

From S2P Require Import Prelude GoStrings CmdPolicy PolicySet Encoding K8sAction Intent CA Elevate Crypto HostPolicy Signer Sessions Prog Broker Engine EngineFiles.

(** [ssh.ClientConfig]: one certificate to log in with, one host key to accept. *)
Record ClientConfig := mkClientConfig {
  cc_User : string;
  cc_PrivateKey : string;
  cc_Certificate : Certificate;
  cc_HostKey : string;
  cc_HostKeyAlgorithms : list string;
  cc_Timeout : Z;
}.

Inductive dial_error :=
| ENoHops
| EHostKeyRequired (addr : string)
| ECertSigner (addr : string)
| EConnect (addr : string)
| EHandshake (addr : string)
| EHop (addr : string).

(** A client and what it goes through, in the order they were made. *)
Record Conn := mkConn { cn_Client : nat; cn_closers : list nat }.

(** Calls on the network; connections and clients are handles. *)
Inductive ncall : Type → Type :=
| NTcp (addr : string) (timeout : Z) : ncall (option nat)
| NHandshake (nc : nat) (addr : string) (cfg : ClientConfig) : ncall (option nat)
| NVia (client : nat) (addr : string) (timeout : Z) : ncall (option nat)
| NCloseNet (nc : nat) : ncall unit
| NCloseClient (client : nat) : ncall bool.

Inductive nobs :=
| ONTcp (addr : string) (r : option nat)
| ONHandshake (nc : nat) (addr : string) (cfg : ClientConfig) (r : option nat)
| ONVia (client : nat) (addr : string) (r : option nat)
| ONCloseNet (nc : nat)
| ONCloseClient (client : nat).

Definition net_observe {X : Type} (c : ncall X) : X → nobs :=
  match c with
  | NTcp addr _ => ONTcp addr
  | NHandshake nc addr cfg => ONHandshake nc addr cfg
  | NVia client addr _ => ONVia client addr
  | NCloseNet nc => fun _ => ONCloseNet nc
  | NCloseClient client => fun _ => ONCloseClient client
  end.
#[export] Instance net_effects : Effects ncall nobs unit := {| observe X := net_observe; answers _ _ _ _ := True |}.
Abbreviation nprog := (Prog.prog ncall) (only parsing).
Definition ncall_ {X : Type} (c : ncall X) : Prog.prog ncall X := Prog.call_ c.

Definition KeyAlgoRSA : string := "ssh-rsa".
Definition CertAlgoRSAv01 : string := "ssh-rsa-cert-v01@openssh.com".

(** An RSA key is offered with its SHA-2 signature algorithms first. *)
Definition hostKeyAlgorithmsFor (keyType : string) : list string :=
  if bool_decide (keyType = KeyAlgoRSA) then ["rsa-sha2-512"; "rsa-sha2-256"; KeyAlgoRSA]
  else if bool_decide (keyType = CertAlgoRSAv01)
  then ["rsa-sha2-512-cert-v01@openssh.com"; "rsa-sha2-256-cert-v01@openssh.com"; CertAlgoRSAv01]
  else [keyType].

Section dial.
(** [ssh.PublicKey.Type], and whether the library makes a certificate signer of a
    private key and a certificate. *)
Context (keyType : string → string) (certSigner : string → Certificate → bool).

(** A host key is required: an absent one has no wire form. *)
Definition hopClientConfig (h : Hop) (timeout : Z) : result dial_error ClientConfig :=
  guard! bool_decide (hop_HostKey h ≠ "") else EHostKeyRequired (hop_Addr h) in
  guard! certSigner (hop_PrivateKey h) (hop_Certificate h) else ECertSigner (hop_Addr h) in
  Ok (mkClientConfig (hop_User h) (hop_PrivateKey h) (hop_Certificate h) (hop_HostKey h)
        (hostKeyAlgorithmsFor (keyType (hop_HostKey h))) timeout).

Fixpoint close_each (l : list nat) : nprog unit :=
  match l with [] => Ret tt | c :: l => ncall_ (NCloseClient c) ;;; close_each l end.

Definition closeAll (c : Conn) : nprog unit := ncall_ (NCloseClient (cn_Client c)) ;;; close_each (rev (cn_closers c)).

(** The first error of [Close]: [false] when some close failed. *)
Fixpoint close_report (l : list nat) (ok : bool) : nprog bool :=
  match l with [] => Ret ok | c :: l => r <- ncall_ (NCloseClient c) ;; close_report l (ok && r) end.
Definition Conn_Close (c : Conn) : nprog bool :=
  r <- ncall_ (NCloseClient (cn_Client c)) ;; close_report (rev (cn_closers c)) r.

(** [for i := 1; i < len(hops); i++] *)
Fixpoint dial_loop (timeout : Z) (hops : list Hop) (conn : Conn) : nprog (result dial_error Conn) :=
  match hops with
  | [] => Ret (Ok conn)
  | h :: hops =>
      match hopClientConfig h timeout with
      | Err e => closeAll conn ;;; Ret (Err e)
      | Ok cfg =>
          nc <- ncall_ (NVia (cn_Client conn) (hop_Addr h) timeout) ;;
          match nc with
          | None => closeAll conn ;;; Ret (Err (EHop (hop_Addr h)))
          | Some nc =>
              cc <- ncall_ (NHandshake nc (hop_Addr h) cfg) ;;
              match cc with
              | None => ncall_ (NCloseNet nc) ;;; (closeAll conn ;;; Ret (Err (EHandshake (hop_Addr h))))
              | Some client => dial_loop timeout hops (mkConn client (cn_closers conn ++ [cn_Client conn]))
              end
          end
      end
  end.

Definition Dial (hops : list Hop) (timeout : Z) : nprog (result dial_error Conn) :=
  match hops with
  | [] => Ret (Err ENoHops)
  | h :: hops =>
      let timeout := if timeout =? 0 then 10 * Second else timeout in
      match hopClientConfig h timeout with
      | Err e => Ret (Err e)
      | Ok cfg =>
          tcp <- ncall_ (NTcp (hop_Addr h) timeout) ;;
          match tcp with
          | None => Ret (Err (EConnect (hop_Addr h)))
          | Some tcp =>
              c0 <- ncall_ (NHandshake tcp (hop_Addr h) cfg) ;;
              match c0 with
              | None => ncall_ (NCloseNet tcp) ;;; Ret (Err (EHandshake (hop_Addr h)))
              | Some client => dial_loop timeout hops (mkConn client [])
              end
          end
      end
  end.
End dial.

(** ** Nothing stays open *)

(** Clients made and closed in a trace, in order; connections whose handshake
    failed, and those closed. *)
Definition opened (t : list nobs) : list nat := omap (fun o => match o with ONHandshake _ _ _ (Some c) => Some c | _ => None end) t.
Definition closed (t : list nobs) : list nat := omap (fun o => match o with ONCloseClient c => Some c | _ => None end) t.
Definition stranded (t : list nobs) : list nat := omap (fun o => match o with ONHandshake nc _ _ None => Some nc | _ => None end) t.
Definition dropped (t : list nobs) : list nat := omap (fun o => match o with ONCloseNet nc => Some nc | _ => None end) t.

(** The handshakes made, as which host with which key was accepted for which. *)
Definition handshakes (t : list nobs) : list (string * ClientConfig) :=
  omap (fun o => match o with ONHandshake _ addr cfg _ => Some (addr, cfg) | _ => None end) t.
(** The handshake a hop asks for. *)
Definition for_hop (h : Hop) (p : string * ClientConfig) : Prop :=
  p.1 = hop_Addr h ∧ cc_HostKey p.2 = hop_HostKey h ∧ hop_HostKey h ≠ "" ∧ cc_User p.2 = hop_User h ∧
  cc_PrivateKey p.2 = hop_PrivateKey h ∧ cc_Certificate p.2 = hop_Certificate h.

Definition conn_clients (c : Conn) : list nat := cn_closers c ++ [cn_Client c].

(** How [Dial] may end, from the clients [cs] it already has. *)
Definition dial_end (cs : list nat) (hops : list Hop) (t : list nobs) (r : result dial_error Conn) : Prop :=
  (∃ k ps, handshakes t = ps ∧ Forall2 for_hop (take k hops) ps ∧ (is_ok r = true → (length hops ≤ k)%nat)) ∧ dropped t = stranded t ∧
  match r with
  | Ok conn => conn_clients conn = cs ++ opened t ∧ closed t = [] ∧ stranded t = []
  | Err _ => closed t = rev (cs ++ opened t)
  end.

Lemma behaves_close_each l t u : behaves tt (close_each l) t (Some u) → t = map ONCloseClient l.
Proof.
  revert t. induction l as [|c l IH]; intros t; cbn [close_each]; [by intros [-> _]%behaves_Ret|].
  intros (x & t' & _ & -> & Hb)%behaves_call. cbn [map]. f_equal. by apply IH.
Qed.

Lemma behaves_closeAll conn t u : behaves tt (closeAll conn) t (Some u) → t = map ONCloseClient (rev (conn_clients conn)).
Proof.
  intros (x & t' & _ & -> & Hb)%behaves_call. apply behaves_close_each in Hb as ->. unfold conn_clients. by rewrite rev_app_distr.
Qed.

Lemma closing_trace l : opened (map ONCloseClient l) = [] ∧ closed (map ONCloseClient l) = l ∧ stranded (map ONCloseClient l) = [] ∧
  dropped (map ONCloseClient l) = [] ∧ handshakes (map ONCloseClient l) = [].
Proof. induction l as [|c l (H1 & H2 & H3 & H4 & H5)]; [done|]. cbn [map]. unfold opened, closed, stranded, dropped, handshakes in *. cbn [omap list_omap]. by rewrite H1, H2, H3, H4, H5. Qed.

Section dial_proofs.
Context (keyType : string → string) (certSigner : string → Certificate → bool).

Lemma hopClientConfig_pins h timeout cfg : hopClientConfig keyType certSigner h timeout = Ok cfg → for_hop h (hop_Addr h, cfg).
Proof. unfold hopClientConfig. case_bool_decide; [|done]. destruct (certSigner _ _); [|done]. by intros [= <-]. Qed.

(** Closing what there is, after some failure. *)
Lemma dial_closes conn t e (r : result dial_error Conn) : behaves tt (closeAll conn ;;; Ret (Err e)) t (Some r) →
  r = Err e ∧ opened t = [] ∧ closed t = rev (conn_clients conn) ∧ stranded t = [] ∧ dropped t = [] ∧ handshakes t = [].
Proof.
  intros (t1 & t2 & [] & -> & H1 & [-> [= ->]]%behaves_Ret)%behaves_bind. apply behaves_closeAll in H1 as ->.
  rewrite app_nil_r. split; [done|]. apply closing_trace.
Qed.

Lemma dial_loop_end timeout hops conn t r : behaves tt (dial_loop keyType certSigner timeout hops conn) t (Some r) →
  dial_end (conn_clients conn) hops t r.
Proof.
  unfold dial_end. revert conn t. induction hops as [|h hops IH]; intros conn t; cbn [dial_loop].
  { intros [-> [= ->]]%behaves_Ret. split_and!; [|done..|by rewrite app_nil_r|done|done]. exists O, []. split_and!; [done|constructor|simpl; lia]. }
  destruct (hopClientConfig _ _ h timeout) as [cfg|e] eqn:Hcfg.
  2:{ intros (-> & H1 & H2 & H3 & H4 & H5)%dial_closes. rewrite H1, H2, H3, H4, H5, app_nil_r. split_and!; [|done..].
      exists O, []. split_and!; [done|constructor|done]. }
  apply hopClientConfig_pins in Hcfg. intros (nc & t1 & _ & -> & Hb)%behaves_call. destruct nc as [nc|].
  2:{ apply dial_closes in Hb as (-> & H1 & H2 & H3 & H4 & H5). unfold opened, closed, stranded, dropped, handshakes in *.
      cbn [observe net_effects net_observe omap list_omap]. rewrite H1, H2, H3, H4, H5, app_nil_r. split_and!; [|done..].
      exists O, []. split_and!; [done|constructor|done]. }
  apply behaves_call in Hb as (cc & t2 & _ & -> & Hb). destruct cc as [client|].
  - apply IH in Hb as ((k & ps & Hps & Hk & Hall) & Hd & Hr). split_and!.
    + exists (S k), ((hop_Addr h, cfg) :: ps). split_and!; [by rewrite <-Hps|by constructor|]. intros Ho. specialize (Hall Ho). simpl. lia.
    + exact Hd.
    + unfold conn_clients in Hr. cbn [cn_closers cn_Client] in Hr. rewrite <-app_assoc in Hr. exact Hr.
  - apply behaves_call in Hb as ([] & t3 & _ & -> & Hb). apply dial_closes in Hb as (-> & H1 & H2 & H3 & H4 & H5).
    unfold opened, closed, stranded, dropped, handshakes in *.
    cbn [observe net_effects net_observe omap list_omap]. rewrite H1, H2, H3, H4, H5, app_nil_r. split_and!; [|done..].
    exists 1%nat, [(hop_Addr h, cfg)]. split_and!; [done|constructor; [done|by destruct hops]|done].
Qed.

(** [C29] A connection chain is pinned and leaks nothing. Every handshake of [Dial]
    is with the next hop's address, offers the certificate made for that hop and
    accepts that hop's pinned key alone, and a chain is returned only after all of
    them; when any step fails, every client made so far is closed, the last one
    first, and so is a connection whose handshake failed. On success nothing was
    closed, and the connection holds exactly the clients that were made, in order. *)
Theorem dial_pinned_no_leak hops timeout t r : behaves tt (Dial keyType certSigner hops timeout) t (Some r) → dial_end [] hops t r.
Proof.
  unfold Dial. destruct hops as [|h hops].
  { intros [-> [= ->]]%behaves_Ret. split_and!; [|done..]. exists O, []. by split_and!. }
  set (tmo := if timeout =? 0 then _ else _). clearbody tmo. cbv zeta.
  destruct (hopClientConfig _ _ h tmo) as [cfg|e] eqn:Hcfg.
  2:{ intros [-> [= ->]]%behaves_Ret. split_and!; [|done..]. exists O, []. split_and!; [done|constructor|done]. }
  apply hopClientConfig_pins in Hcfg. intros (nc & t1 & _ & -> & Hb)%behaves_call. destruct nc as [nc|].
  2:{ apply behaves_Ret in Hb as [-> [= ->]]. split_and!; [|done..]. exists O, []. split_and!; [done|constructor|done]. }
  apply behaves_call in Hb as (cc & t2 & _ & -> & Hb). destruct cc as [client|].
  - apply dial_loop_end in Hb as ((k & ps & Hps & Hk & Hall) & Hd & Hr). split_and!.
    + exists (S k), ((hop_Addr h, cfg) :: ps). split_and!; [by rewrite <-Hps|by constructor|]. intros Ho. specialize (Hall Ho). simpl. lia.
    + exact Hd.
    + exact Hr.
  - apply behaves_call in Hb as ([] & t3 & _ & -> & [-> [= ->]]%behaves_Ret). split_and!; [|done..].
    exists 1%nat, [(hop_Addr h, cfg)]. split_and!; [done|constructor; [done|by destruct hops]|done].
Qed.
End dial_proofs.

(** ** One-shot commands *)

Definition defaultExecTimeout : Z := 10 * 60 * Second.
Definition defaultPTYTerm : string := "xterm-256color".

Record RunOptions := mkRunOptions {
  ro_PTY : bool;
  ro_Term : string;
  ro_Rows : Z;
  ro_Cols : Z;
  ro_Timeout : Z;
  ro_Stdin : string;
}.

(** Terminal, rows and columns; echo is off. *)
Definition ptyParams (o : RunOptions) : string * Z * Z :=
  (if bool_decide (ro_Term o = "") then defaultPTYTerm else ro_Term o,
   if ro_Rows o =? 0 then 40 else ro_Rows o, if ro_Cols o =? 0 then 220 else ro_Cols o).

(** The error of [session.Run], and what ends the wait for it: the run with the
    chunks it wrote to the two streams, the caller, or the timer. *)
Inductive run_error := RunExit (status : Z) | RunLost.
Inductive waited :=
| WDone (stdout stderr : list string) (e : option run_error)
| WCancelled
| WTimeout.

Inductive xcall : Type → Type :=
| XNewSession (client : nat) : xcall (option nat)
| XRequestPty (session : nat) (term : string) (rows cols : Z) : xcall bool
| XRun (session : nat) (command stdin : string) (timeout : Z) : xcall waited
| XSignal (session : nat) : xcall unit
| XCloseSession (session : nat) : xcall unit.
Inductive xobs :=
| OXNewSession (client : nat) (r : option nat)
| OXRequestPty (session : nat)
| OXRun (session : nat) (command stdin : string) (r : waited)
| OXSignal (session : nat)
| OXCloseSession (session : nat).
Definition x_observe {X : Type} (c : xcall X) : X → xobs :=
  match c with
  | XNewSession client => OXNewSession client
  | XRequestPty s _ _ _ => fun _ => OXRequestPty s
  | XRun s command stdin _ => OXRun s command stdin
  | XSignal s => fun _ => OXSignal s
  | XCloseSession s => fun _ => OXCloseSession s
  end.
#[export] Instance x_effects : Effects xcall xobs unit := {| observe X := x_observe; answers _ _ _ _ := True |}.
Abbreviation xprog := (Prog.prog xcall) (only parsing).
Definition xcall_ {X : Type} (c : xcall X) : Prog.prog xcall X := Prog.call_ c.

Inductive once_error := EOnceSession | EOncePty | EOnceCancelled | EOnceTimeout | EOnceRun.

(** [runWithTimeout] around [waitResult]: an interrupted process is signalled. *)
Definition runWithTimeout (session : nat) (command stdin : string) (timeout : Z) :
    xprog (result once_error (list string * list string * option run_error)) :=
  w <- xcall_ (XRun session command stdin timeout) ;;
  match w with
  | WDone out err e => Ret (Ok (out, err, e))
  | WCancelled => xcall_ (XSignal session) ;;; Ret (Err EOnceCancelled)
  | WTimeout => xcall_ (XSignal session) ;;; Ret (Err EOnceTimeout)
  end.

(** [finishResult]: an exit status is a result, any other error is one. *)
Definition finishResult (out err : string) (e : option run_error) : result once_error ExecResult :=
  match e with
  | None => Ok (mkExecResult out err 0)
  | Some (RunExit status) => Ok (mkExecResult out err status)
  | Some RunLost => Err EOnceRun
  end.

(** The body of [ExecOnce] with its session; the deferred close comes after it. *)
Definition exec_once_body (session : nat) (command : string) (o : RunOptions) : xprog (result once_error ExecResult) :=
  let timeout := if ro_Timeout o <=? 0 then defaultExecTimeout else ro_Timeout o in
  if ro_PTY o then
    let '(term, rows, cols) := ptyParams o in
    ok <- xcall_ (XRequestPty session term rows cols) ;;
    if negb ok then Ret (Err EOncePty)
    else
      r <- runWithTimeout session command "" timeout ;;
      Ret (let! (out, _, e) := r in finishResult (capture MaxOutputBytes out) "" e)
  else
    r <- runWithTimeout session command (ro_Stdin o) timeout ;;
    Ret (let! (out, err, e) := r in finishResult (capture MaxOutputBytes out) (capture MaxOutputBytes err) e).

Definition ExecOnce (client : nat) (command : string) (o : RunOptions) : xprog (result once_error ExecResult) :=
  s <- xcall_ (XNewSession client) ;;
  match s with
  | None => Ret (Err EOnceSession)
  | Some session =>
      r <- exec_once_body session command o ;;
      xcall_ (XCloseSession session) ;;; Ret r
  end.

Definition captured (s : string) : Prop := slen s ≤ MaxOutputBytes + TruncationMarkerLen.

Lemma capture_captured chunks : captured (capture MaxOutputBytes chunks).
Proof.
  unfold captured, capture, lw_output, TruncationMarkerLen.
  destruct (lw_writes (mkLimitedWriter "" MaxOutputBytes false) chunks) as (K1 & K2 & _); [done|vm_compute; done|done|].
  set (w := fold_left _ _ _) in *. clearbody w. cbn [lw_max] in *. fold (slen (truncationMarker MaxOutputBytes)).
  pose proof (slen_nonneg (truncationMarker MaxOutputBytes)). destruct (negb _); [lia|]. rewrite slen_app, K1. lia.
Qed.

(** How the body may end: the run happened at most once, with this command, and an
    interrupted one was signalled and has no result. *)
Definition body_end (session : nat) (command : string) (t : list xobs) (r : result once_error ExecResult) : Prop :=
  (∃ stdin w pre, t = pre ++ OXRun session command stdin w ::
     (match w with WDone _ _ _ => [] | _ => [OXSignal session] end) ∧ pre `sublist_of` [OXRequestPty session] ∧
     match w with
     | WDone _ _ e => ∀ res, r = Ok res → captured (xr_Stdout res) ∧ captured (xr_Stderr res) ∧
                        xr_ExitCode res = match e with Some (RunExit c) => c | _ => 0 end ∧ e ≠ Some RunLost
     | _ => is_ok r = false
     end) ∨ (t = [OXRequestPty session] ∧ r = Err EOncePty).

Lemma runWithTimeout_end session command stdin timeout t r : behaves tt (runWithTimeout session command stdin timeout) t (Some r) →
  ∃ w, t = OXRun session command stdin w :: (match w with WDone _ _ _ => [] | _ => [OXSignal session] end) ∧
    match w with WDone out err e => r = Ok (out, err, e) | _ => is_ok r = false end.
Proof.
  intros (w & t1 & _ & -> & Hb)%behaves_call. exists w. destruct w as [out err e| |].
  - by apply behaves_Ret in Hb as [-> [= ->]].
  - by apply behaves_call in Hb as ([] & t2 & _ & -> & [-> [= ->]]%behaves_Ret).
  - by apply behaves_call in Hb as ([] & t2 & _ & -> & [-> [= ->]]%behaves_Ret).
Qed.

Lemma finishResult_inv out err e res : finishResult out err e = Ok res →
  xr_Stdout res = out ∧ xr_Stderr res = err ∧ xr_ExitCode res = match e with Some (RunExit c) => c | _ => 0 end ∧ e ≠ Some RunLost.
Proof. destruct e as [[]|]; by intros [= <-]. Qed.

Lemma exec_once_body_end session command o t r : behaves tt (exec_once_body session command o) t (Some r) →
  body_end session command t r.
Proof.
  unfold exec_once_body. set (tmo := if _ <=? _ then _ else _). clearbody tmo. cbv zeta.
  assert (He : captured "") by (vm_compute; discriminate).
  destruct (ro_PTY o).
  - destruct (ptyParams o) as [[term rows] cols]. intros (ok & t1 & _ & -> & Hb)%behaves_call. destruct ok; cbn [negb] in Hb.
    2:{ apply behaves_Ret in Hb as [-> [= ->]]. by right. }
    apply behaves_bind in Hb as (t2 & t3 & x & -> & (w & -> & Hw)%runWithTimeout_end & [-> [= ->]]%behaves_Ret). left.
    exists "", w, [OXRequestPty session]. split_and!; [by rewrite app_nil_r|done|].
    destruct w as [out err e| |]; [subst x|by destruct x..].
    intros res (H1 & H2 & H3 & H4)%finishResult_inv. rewrite H1, H2. split_and!; [apply capture_captured|done..].
  - intros (t2 & t3 & x & -> & (w & -> & Hw)%runWithTimeout_end & [-> [= ->]]%behaves_Ret)%behaves_bind. left.
    exists (ro_Stdin o), w, []. split_and!; [by rewrite app_nil_r|apply sublist_nil_l|].
    destruct w as [out err e| |]; [subst x|by destruct x..].
    intros res (H1 & H2 & H3 & H4)%finishResult_inv. rewrite H1, H2. split_and!; [apply capture_captured..|done|done].
Qed.

(** A one-shot command is bounded and cleaned up. The command is run at most
    once, on a session that is closed last whatever happened; a run that was
    cancelled or timed out is signalled and yields no result, and a result carries
    at most the output limit and its note per stream and the exit status of the
    run. *)
Theorem exec_once_clean client command o t r : behaves tt (ExecOnce client command o) t (Some r) →
  (t = [OXNewSession client None] ∧ r = Err EOnceSession) ∨
  ∃ session t', t = OXNewSession client (Some session) :: t' ++ [OXCloseSession session] ∧ body_end session command t' r.
Proof.
  intros (s & t1 & _ & -> & Hb)%behaves_call. destruct s as [session|].
  2:{ apply behaves_Ret in Hb as [-> [= ->]]. by left. }
  apply behaves_bind in Hb as (t2 & t3 & x & -> & H1 & Hb). apply behaves_call in Hb as ([] & t4 & _ & -> & [-> [= ->]]%behaves_Ret).
  right. exists session, t2. split; [done|]. by apply exec_once_body_end in H1.
Qed.

(** ** Runs *)

(** The second hop's handshake fails. *)
Definition sample_net (X : Type) (c : ncall X) (n : nat) : nat * X :=
  match c in ncall X return nat * X with
  | NTcp _ _ => (S n, Some n)
  | NHandshake _ addr _ => (S n, if bool_decide (addr = "db:22") then None else Some n)
  | NVia _ _ _ => (S n, Some n)
  | NCloseNet _ => (n, ())
  | NCloseClient _ => (n, true)
  end.
Definition sample_hop (addr key : string) : Hop :=
  mkHop addr "deploy" key "priv" (mkCertificate "pub" 1 "kid" ["deploy"] 0 60 ∅ ∅ "ca").
Definition sample_hops : list Hop := [sample_hop "bastion:22" "k1"; sample_hop "db:22" "k2"].
Definition sample_dial := traced (EF := net_effects) sample_net (Dial (fun _ => "ssh-ed25519") (fun _ _ => true) sample_hops 0) O.

Lemma dial_pinned_no_leak_witness :
  sample_dial.2 = Err (EHandshake "db:22") ∧ opened sample_dial.1.2 = [1%nat] ∧ closed sample_dial.1.2 = [1%nat] ∧
  dropped sample_dial.1.2 = [2%nat] ∧ dial_end [] sample_hops sample_dial.1.2 sample_dial.2.
Proof.
  split; [reflexivity|]. split; [reflexivity|]. split; [reflexivity|]. split; [reflexivity|].
  apply (dial_pinned_no_leak (fun _ => "ssh-ed25519") (fun _ _ => true) sample_hops 0).
  apply (traced_behaves (EF := net_effects) tt sample_net). intros X c n. exact I.
Defined.

Definition sample_exec (X : Type) (c : xcall X) (n : nat) : nat * X :=
  match c in xcall X return nat * X with
  | XNewSession _ => (n, Some 7%nat)
  | XRequestPty _ _ _ _ => (n, true)
  | XRun _ _ _ _ => (n, WTimeout)
  | XSignal _ => (n, ())
  | XCloseSession _ => (n, ())
  end.
Definition sample_once := traced (EF := x_effects) sample_exec (ExecOnce 1 "sleep 9999" (mkRunOptions false "" 0 0 0 "")) O.

Lemma exec_once_clean_witness :
  sample_once.1.2 = [OXNewSession 1 (Some 7%nat); OXRun 7 "sleep 9999" "" WTimeout; OXSignal 7; OXCloseSession 7] ∧
  ((sample_once.1.2 = [OXNewSession 1 None] ∧ sample_once.2 = Err EOnceSession) ∨
   ∃ session t', sample_once.1.2 = OXNewSession 1 (Some session) :: t' ++ [OXCloseSession session] ∧ body_end session "sleep 9999" t' sample_once.2).
Proof.
  split; [reflexivity|]. apply (exec_once_clean 1 "sleep 9999" (mkRunOptions false "" 0 0 0 "")).
  apply (traced_behaves (EF := x_effects) tt sample_exec). intros X c n. exact I.
Defined.
