(* ===== verification/K8sClient.v ===== *)
(** * The Kubernetes REST client

    [internal/k8s/client.go]: which request an action becomes, what of the answer
    is handed back, and what of the cluster's identity is kept out of messages.
    The HTTP transport and JSON are answered by the environment. *)

From stdpp Require Import sorting.
From S2P Require Import Prelude GoStrings CmdPolicy PolicySet Encoding K8sAction Intent Crypto HostPolicy K8sPolicy Signer Sessions Prog Broker Engine EngineFiles EngineK8s EngineRun EngineK8sRun ShellReader ShellDriver ShellRun.

(** ** [net/url] *)

Definition upper_hex (z : Z) : ascii := byte_chr (if z <? 10 then 48 + z else 55 + z).
Definition percent (c : ascii) : string :=
  String "%"%char (String (upper_hex (byte_of c / 16)) (String (upper_hex (byte_of c mod 16)) "")).
Definition unreserved (c : ascii) : bool := is_alnum c || ContainsByte "-_.~" c.

(** [url.PathEscape] leaves the sub-delimiters a path segment may hold. *)
Definition segment_char (c : ascii) : bool := unreserved c || ContainsByte "$&+=:@" c.
Fixpoint PathEscape (s : string) : string :=
  match s with
  | EmptyString => ""
  | String c r => (if segment_char c then String c "" else percent c) +:+ PathEscape r
  end.
Fixpoint QueryEscape (s : string) : string :=
  match s with
  | EmptyString => ""
  | String c r => (if ascii_eqb c " "%char then "+" else if unreserved c then String c "" else percent c) +:+ QueryEscape r
  end.
(** [url.Values.Encode] of single-valued keys that are already in order. *)
Definition encode_pairs (q : list (string * string)) : string :=
  Join (map (fun kv => QueryEscape kv.1 +:+ "=" +:+ QueryEscape kv.2) q) "&".

Fixpoint TrimRightByte (c : ascii) (s : string) : string :=
  match s with
  | EmptyString => ""
  | String d r => match TrimRightByte c r with EmptyString => if ascii_eqb c d then "" else String d "" | t => String d t end
  end.

(** ** Paths *)

Definition resourcePath (def : ResourceDef) (namespace name : string) : string :=
  (if bool_decide (rd_Group def = "") then "/api/" +:+ PathEscape (rd_Version def)
   else "/apis/" +:+ PathEscape (rd_Group def) +:+ "/" +:+ PathEscape (rd_Version def)) +:+
  (if rd_Namespaced def && bool_decide (namespace ≠ "") then "/namespaces/" +:+ PathEscape namespace else "") +:+
  "/" +:+ PathEscape (rd_Resource def) +:+
  (if bool_decide (name ≠ "") then "/" +:+ PathEscape name else "").

Definition logPath (namespace pod : string) : string :=
  "/api/v1/namespaces/" +:+ PathEscape namespace +:+ "/pods/" +:+ PathEscape pod +:+ "/log".

Definition tokenPath (namespace sa : string) : string :=
  "/api/v1/namespaces/" +:+ PathEscape namespace +:+ "/serviceaccounts/" +:+ PathEscape sa +:+ "/token".

(** ** Requests *)

Definition apiMaxBytes : Z := 4 * 1024 * 1024.
Definition logsMaxBytes : Z := 512 * 1024.
Definition FieldManager : string := "infrabroker".

Record Target := mkTarget { tg_APIServer : string; tg_CAPEM : string }.
Record Client := mkClient { cl_target : Target; cl_token : string; cl_timeout : Z }.

Record api_request := mkApiRequest {
  aq_Method : string;
  aq_URL : string;
  aq_Authorization : string;
  aq_Accept : string;
  aq_ContentType : string;
  aq_Body : option string;
}.

(** [NewClient]: without a certificate for the cluster there is no client. *)
Definition NewClient (parsesPEM : string → bool) (t : Target) (token : string) (timeout : Z) : option Client :=
  if negb (parsesPEM (tg_CAPEM t)) then None
  else Some (mkClient t token (if timeout <=? 0 then 30 * Second else timeout)).

Inductive transport_error := TECancelled | TEDeadline | TETimeout | TEOther.
Inductive api_error :=
| EBuildRequest
| ETransport (method path cause : string)
| EReadResponse
| ETooLarge (method path : string) (limit : Z)
| EStatus (method path : string) (code : Z) (msg : string).

Definition transportErrorCause (e : transport_error) : string :=
  match e with
  | TECancelled => "request canceled"
  | TEDeadline | TETimeout => "request timed out"
  | TEOther => "could not reach the API server"
  end.

(** What comes back: nothing to send, no answer, or a status with a body that may
    break off. *)
Inductive answer :=
| ANoRequest
| ANoAnswer (e : transport_error)
| AResponse (code : Z) (body : string) (broken : bool).

(** The [message] of a Status body, when it decodes to one. *)
Definition statusMessage (decode : string → option string) (body : string) (code : Z) : string :=
  FormatInt code +:+ " " +:+
  match decode body with Some m => if bool_decide (m ≠ "") then m else TrimSpace body | None => TrimSpace body end.

Definition build_request (c : Client) (method path : string) (query : list (string * string)) (contentType : string)
    (body : option string) : api_request :=
  mkApiRequest method
    (TrimRightByte "/"%char (tg_APIServer (cl_target c)) +:+ path +:+
     (if bool_decide (query = []) then "" else "?" +:+ encode_pairs query))
    ("Bearer " +:+ cl_token c) "application/json" contentType body.

(** [do] on the answer to its request. [io.LimitReader] cuts one byte past the cap. *)
Definition do_answer (decode : string → option string) (method path : string) (maxBytes : Z) (a : answer) : result api_error string :=
  match a with
  | ANoRequest => Err EBuildRequest
  | ANoAnswer e => Err (ETransport method path (transportErrorCause e))
  | AResponse code body broken =>
      let rb := stake (Z.to_nat (maxBytes + 1)) body in
      if broken && (slen body <? maxBytes + 1) then Err EReadResponse
      else if maxBytes <? slen rb then Err (ETooLarge method path maxBytes)
      else if (code <? 200) || (300 <=? code) then Err (EStatus method path code (statusMessage decode rb code))
      else Ok rb
  end.

Record ListOptions := mkListOptions { lo_LabelSelector : string; lo_FieldSelector : string; lo_Limit : Z }.
Record LogOptions := mkLogOptions { lg_Container : string; lg_TailLines : Z; lg_SinceSeconds : Z }.

Definition pair_if (b : bool) (k v : string) : list (string * string) := if b then [(k, v)] else [].

(** The query of each verb; keys in the order [Encode] sorts them. *)
Definition list_query (o : ListOptions) : list (string * string) :=
  pair_if (bool_decide (lo_FieldSelector o ≠ "")) "fieldSelector" (lo_FieldSelector o) ++
  pair_if (bool_decide (lo_LabelSelector o ≠ "")) "labelSelector" (lo_LabelSelector o) ++
  pair_if (0 <? lo_Limit o) "limit" (FormatInt (lo_Limit o)).
Definition log_query (o : LogOptions) : list (string * string) :=
  pair_if (bool_decide (lg_Container o ≠ "")) "container" (lg_Container o) ++
  pair_if (0 <? lg_SinceSeconds o) "sinceSeconds" (FormatInt (lg_SinceSeconds o)) ++
  [("tailLines", FormatInt (if lg_TailLines o <=? 0 then 200 else lg_TailLines o))].

Section verbs.
Context (c : Client) (lo : ListOptions) (go : LogOptions).

Definition Get (def : ResourceDef) (namespace name : string) : api_request :=
  build_request c "GET" (resourcePath def namespace name) [] "" None.
Definition List_ (def : ResourceDef) (namespace : string) : api_request :=
  build_request c "GET" (resourcePath def namespace "") (list_query lo) "" None.
Definition Logs (namespace pod : string) : api_request := build_request c "GET" (logPath namespace pod) (log_query go) "" None.
Definition Delete (def : ResourceDef) (namespace name : string) : api_request :=
  build_request c "DELETE" (resourcePath def namespace name) [] "" None.
Definition Apply (def : ResourceDef) (namespace name manifest : string) : api_request :=
  build_request c "PATCH" (resourcePath def namespace name) [("fieldManager", FieldManager)] "application/apply-patch+yaml" (Some manifest).

(** The verb's request, as [runK8sAction] picks it. *)
Definition action_request (def : ResourceDef) (a : K8sAction) (manifest : string) : option api_request :=
  if bool_decide (ka_Verb a = K8sVerbGet) then Some (Get def (ka_Namespace a) (ka_Name a))
  else if bool_decide (ka_Verb a = K8sVerbList) then Some (List_ def (ka_Namespace a))
  else if bool_decide (ka_Verb a = K8sVerbLogs) then Some (Logs (ka_Namespace a) (ka_Name a))
  else if bool_decide (ka_Verb a = K8sVerbDelete) then Some (Delete def (ka_Namespace a) (ka_Name a))
  else if bool_decide (ka_Verb a = K8sVerbApply) then
    if bool_decide (manifest = "") then None else Some (Apply def (ka_Namespace a) (ka_Name a) manifest)
  else None.
End verbs.

(** ** Messages *)

Definition bound_sa : string := "<bound service account>".
Definition quote_char : ascii := "034"%char.
Definition user_prefix : string := "User " +:+ String quote_char "".

(** Length at the head of [s] of the clause [User] with a quoted name. *)
Definition user_match (s : string) : option nat :=
  if HasPrefix s user_prefix then (fun n => n + 7)%nat <$> Index (sdrop 6 s) (String quote_char "") else None.

Definition sa_stop (c : ascii) : bool := ContainsByte (string_of_bytes [9; 10; 12; 13; 32; 34; 39; 44; 59; 41]) c.
Fixpoint sa_run (s : string) : nat :=
  match s with EmptyString => 0%nat | String c r => if sa_stop c then 0%nat else S (sa_run r) end.
(** Length at the head of [s] of [system:serviceaccount:] or
    [system:serviceaccounts:] and what follows up to white space, a quote, a
    comma, a semicolon or a closing parenthesis. *)
Definition sa_match (s : string) : option nat :=
  if HasPrefix s "system:serviceaccount:" then Some (22 + sa_run (sdrop 22 s))%nat
  else if HasPrefix s "system:serviceaccounts:" then Some (23 + sa_run (sdrop 23 s))%nat else None.

(** [ReplaceAllString]: leftmost matches that do not overlap; [skip] bytes of the
    last one are left. *)
Fixpoint replace_all (m : string → option nat) (by_ : string) (s : string) (skip : nat) : string :=
  match s with
  | EmptyString => ""
  | String c r =>
      match skip with
      | S k => replace_all m by_ r k
      | O => match m s with
             | Some n => by_ +:+ replace_all m by_ r (pred n)
             | None => String c (replace_all m by_ r O)
             end
      end
  end.

Definition RedactPrincipal (s : string) : string :=
  replace_all sa_match bound_sa
    (replace_all user_match (user_prefix +:+ bound_sa +:+ String quote_char "") s O) O.

Definition status_Error (method path msg : string) : string := "k8s: " +:+ method +:+ " " +:+ path +:+ ": " +:+ RedactPrincipal msg.
Definition status_Detail (method path msg : string) : string := "k8s: " +:+ method +:+ " " +:+ path +:+ ": " +:+ msg.

(** ** Minting tokens *)

Record MinterTarget := mkMinterTarget { mi_Target : Target; mi_TokenFile : string }.
Inductive mint_error := EUnknownMinter (cluster : string) | EMinterToken | EMinterClient | EMintMarshal | EMint (namespace sa cluster detail : string) | EMintResponse (cluster : string).

Definition mint_detail (e : api_error) : string :=
  match e with
  | EStatus method path _ msg => status_Detail method path msg
  | ETransport method path cause => "k8s: " +:+ method +:+ " " +:+ path +:+ ": " +:+ cause
  | ETooLarge method path limit => "k8s: " +:+ method +:+ " " +:+ path +:+ ": response exceeds " +:+ FormatInt limit +:+ "-byte limit"
  | EBuildRequest => "k8s: building request"
  | EReadResponse => "k8s: reading response"
  end.

Section mint.
(** The token file, PEM parsing, the JSON of the request and of its answer, and
    the API server. *)
Context (ReadFile : string → option string) (parsesPEM : string → bool) (requestJSON : Z → option string).
Context (decodeStatus : string → option string) (decodeToken : string → option (string * time)) (serve : api_request → answer).

Definition MintToken (targets : gmap string MinterTarget) (cluster namespace sa : string) (ttl : Z) : result mint_error (string * time) :=
  match targets !! cluster with
  | None => Err (EUnknownMinter cluster)
  | Some t =>
      match ReadFile (mi_TokenFile t) with
      | None => Err EMinterToken
      | Some tok =>
          match NewClient parsesPEM (mi_Target t) (TrimSpace tok) (15 * Second) with
          | None => Err EMinterClient
          | Some c =>
              match requestJSON (Z.quot ttl Second) with
              | None => Err EMintMarshal
              | Some body =>
                  let path := tokenPath namespace sa in
                  match do_answer decodeStatus "POST" path apiMaxBytes (serve (build_request c "POST" path [] "application/json" (Some body))) with
                  | Err e => Err (EMint namespace sa cluster (mint_detail e))
                  | Ok out =>
                      match decodeToken out with
                      | Some (token, expiry) => if bool_decide (token = "") then Err (EMintResponse cluster) else Ok (token, expiry)
                      | None => Err (EMintResponse cluster)
                      end
                  end
              end
          end
      end
  end.
End mint.
