(* ===== verification/K8sClientRun.v ===== *)
(** * What a request to the API server denotes

    The URL is an injective image of the action that was signed, only whole
    successful answers are handed back, and no service account is named in the
    messages that leave the broker. *)

From S2P Require Import Prelude GoStrings CmdPolicy PolicySet Encoding K8sAction Intent Crypto HostPolicy K8sPolicy Signer Sessions Prog Broker Engine EngineFiles EngineK8s EngineRun EngineK8sRun ShellReader ShellDriver ShellRun K8sClient.

(** ** Escaping *)

Definition escape_char (c : ascii) : string := if segment_char c then String c "" else percent c.

(** The escape of a byte, read back. *)
Definition unhex (c : ascii) : Z := let b := byte_of c in if b <? 65 then b - 48 else b - 55.
Definition unescape_head (s : string) : option ascii :=
  match s with
  | String "%" (String a (String b _)) => Some (byte_chr (16 * unhex a + unhex b))
  | String c _ => Some c
  | EmptyString => None
  end.

Lemma unescape_escape c r : unescape_head (escape_char c +:+ r) = Some c.
Proof. destruct c as [[] [] [] [] [] [] [] []]; vm_compute; reflexivity. Qed.

Lemma escape_char_plain c : forall_char (fun d => negb (ContainsByte "/?" d)) (escape_char c) = true.
Proof. destruct c as [[] [] [] [] [] [] [] []]; vm_compute; reflexivity. Qed.

Lemma PathEscape_inj s t : PathEscape s = PathEscape t → s = t.
Proof.
  revert t. induction s as [|c s IH]; intros [|d t]; cbn [PathEscape]; fold (escape_char); [done|..].
  - intros H. pose proof (unescape_escape d (PathEscape t)) as Hd. unfold escape_char in Hd. by rewrite <-H in Hd.
  - intros H. pose proof (unescape_escape c (PathEscape s)) as Hc. unfold escape_char in Hc. by rewrite H in Hc.
  - intros H. pose proof (unescape_escape c (PathEscape s)) as Hc. pose proof (unescape_escape d (PathEscape t)) as Hd.
    unfold escape_char in Hc, Hd. rewrite H, Hd in Hc. injection Hc as ->. apply String_append_inj_l in H. f_equal. by apply IH.
Qed.

Lemma PathEscape_plain s : forall_char (fun d => negb (ContainsByte "/?" d)) (PathEscape s) = true.
Proof.
  induction s as [|c s IH]; [done|]. cbn [PathEscape]. rewrite forall_char_app, IH, andb_true_r. exact (escape_char_plain c).
Qed.

Lemma PathEscape_without s c : ContainsByte "/?" c = true → ContainsByte (PathEscape s) c = false.
Proof. intros Hc. eapply chars_exclude; [|apply PathEscape_plain]. simpl. by rewrite Hc. Qed.

(** What comes before a separator that is absent from it is determined. *)
Definition headed (c : ascii) (s : string) : Prop := s = "" ∨ ∃ r, s = String c r.
Lemma split_headed c e1 e2 p1 p2 : ContainsByte e1 c = false → ContainsByte e2 c = false → headed c p1 → headed c p2 →
  e1 +:+ p1 = e2 +:+ p2 → e1 = e2 ∧ p1 = p2.
Proof.
  intros H1 H2 [->|(r1 & ->)] [->|(r2 & ->)] H; rewrite ?String_append_nil in H.
  - done.
  - symmetry in H. by apply split_at_absent in H.
  - by apply split_at_absent in H.
  - apply split_at_unique in H as [-> ->]; done.
Qed.

(** ** Paths as segments *)

Fixpoint path_of (segs : list string) : string :=
  match segs with [] => "" | s :: r => "/" +:+ PathEscape s +:+ path_of r end.

Lemma path_of_headed l : headed "/"%char (path_of l).
Proof. destruct l as [|s l]; [by left|right]. cbn [path_of append]. by eexists. Qed.

Lemma path_of_inj l k : path_of l = path_of k → l = k.
Proof.
  revert k. induction l as [|s l IH]; intros [|t k] H; cbn [path_of append] in H; [done..|]. injection H as H.
  apply (split_headed "/"%char) in H as [H1 H2]; [|by apply PathEscape_without|by apply PathEscape_without|apply path_of_headed..].
  f_equal; [by apply PathEscape_inj|by apply IH].
Qed.

Lemma path_of_plain l : ContainsByte (path_of l) "?"%char = false.
Proof.
  induction l as [|s l IH]; [done|]. cbn [path_of]. rewrite !contains_app, IH, PathEscape_without by done. done.
Qed.

Definition segments (group version namespace resource name : string) : list string :=
  (if bool_decide (group = "") then ["api"; version] else ["apis"; group; version]) ++
  (if bool_decide (namespace = "") then [] else ["namespaces"; namespace]) ++ [resource] ++
  (if bool_decide (name = "") then [] else [name]).

Lemma segments_inj g1 v1 n1 r1 m1 g2 v2 n2 r2 m2 : segments g1 v1 n1 r1 m1 = segments g2 v2 n2 r2 m2 →
  g1 = g2 ∧ v1 = v2 ∧ n1 = n2 ∧ r1 = r2 ∧ m1 = m2.
Proof.
  unfold segments. repeat case_bool_decide; cbn [app]; intros E; simplify_eq; done.
Qed.

Lemma resourcePath_segments def ns name :
  resourcePath def ns name = path_of (segments (rd_Group def) (rd_Version def) (if rd_Namespaced def then ns else "") (rd_Resource def) name).
Proof.
  unfold resourcePath, segments. destruct (rd_Namespaced def); cbn [andb]; repeat case_bool_decide; try done;
    cbn [app path_of]; rewrite ?String_append_nil, ?String_append_assoc; reflexivity.
Qed.

(** Two objects share a path only if they are the same. *)
Lemma resourcePath_inj d1 ns1 m1 d2 ns2 m2 : resourcePath d1 ns1 m1 = resourcePath d2 ns2 m2 →
  rd_Group d1 = rd_Group d2 ∧ rd_Version d1 = rd_Version d2 ∧ rd_Resource d1 = rd_Resource d2 ∧ m1 = m2 ∧
  (if rd_Namespaced d1 then ns1 else "") = (if rd_Namespaced d2 then ns2 else "").
Proof. rewrite !resourcePath_segments. intros (? & ? & ? & ? & ?)%path_of_inj%segments_inj. auto. Qed.

Lemma logPath_segments ns pod : logPath ns pod = path_of ["api"; "v1"; "namespaces"; ns; "pods"; pod; "log"].
Proof. unfold logPath. cbn [path_of]. rewrite ?String_append_nil, ?String_append_assoc. reflexivity. Qed.

(** ** The request of an action *)

(** The segments of an action's path. *)
Definition action_segments (version : string) (a : K8sAction) : list string :=
  if bool_decide (ka_Verb a = K8sVerbLogs) then ["api"; "v1"; "namespaces"; ka_Namespace a; "pods"; ka_Name a; "log"]
  else segments (ka_Group a) version (ka_Namespace a) (ka_Resource a) (ka_Name a).

Definition action_method (a : K8sAction) : string :=
  if bool_decide (ka_Verb a = K8sVerbDelete) then "DELETE" else if bool_decide (ka_Verb a = K8sVerbApply) then "PATCH" else "GET".

(** An action that passed the checks before the signer. *)
Lemma preflight_facts ci a def n : k8s_preflight ci a = Ok (def, n) →
  ka_Validate n = Ok () ∧ rd_Resource def = ka_Resource n ∧ rd_Group def = ka_Group n ∧
  (rd_Namespaced def = false → ka_Namespace n = "").
Proof.
  intros (Hv & -> & table & Ht & Hres)%k8s_preflight_inv. split; [by eapply preflight_valid|].
  unfold k8s_Resolve in Hres. destruct (table !! ka_Resource a) as [d|] eqn:Hl; [|done]. destruct (_ || _); [|done].
  injection Hres as ->. destruct (Resources_ok _ _ Ht _ _ Hl) as (Hr & _). cbn [normalize ka_Resource ka_Group ka_Namespace].
  split_and!; [done|done|]. by intros ->.
Qed.

(** A name is what tells a get from a list. *)
Lemma Validate_name a : ka_Validate a = Ok () →
  (ka_Verb a = K8sVerbList ∧ ka_Name a = "") ∨ (ka_Verb a ≠ K8sVerbList ∧ ka_Name a ≠ "").
Proof.
  unfold ka_Validate. intros H. repeat (case_bool_decide || case_match); simplify_eq/=; unbool; auto.
Qed.
Lemma Validate_logs a : ka_Validate a = Ok () → ka_Verb a = K8sVerbLogs → ka_Resource a = "pods" ∧ ka_Group a = "".
Proof.
  unfold ka_Validate. intros H Hv. rewrite Hv in H. repeat (case_bool_decide || case_match); simplify_eq/=; unbool; auto.
Qed.

Lemma action_request_shape ci a def n c lo go_ m q : k8s_preflight ci a = Ok (def, n) → action_request c lo go_ def n m = Some q →
  aq_Method q = action_method n ∧
  ∃ query, aq_URL q = TrimRightByte "/"%char (tg_APIServer (cl_target c)) +:+ path_of (action_segments (rd_Version def) n) +:+ query ∧
    headed "?"%char query.
Proof.
  intros (Hv & Hr & Hg & Hns)%preflight_facts.
  assert (Hp : ∀ name, resourcePath def (ka_Namespace n) name =
    path_of (segments (ka_Group n) (rd_Version def) (ka_Namespace n) (ka_Resource n) name)).
  { intros name. rewrite resourcePath_segments, Hr, Hg. destruct (rd_Namespaced def); [done|]. by rewrite Hns. }
  assert (Hq : ∀ method path query ct body, let b := build_request c method path query ct body in
    aq_Method b = method ∧ ∃ t, aq_URL b = TrimRightByte "/"%char (tg_APIServer (cl_target c)) +:+ path +:+ t ∧ headed "?"%char t).
  { intros method path query ct body. split; [done|]. eexists. split; [done|]. case_bool_decide; [by left|right; by eexists]. }
  unfold action_request, action_method, action_segments, Get, List_, Logs, Delete, Apply.
  destruct (decide (ka_Verb n = K8sVerbGet)) as [E|E]; [rewrite E|].
  { intros [= <-]. rewrite Hp. apply Hq. }
  rewrite (bool_decide_eq_false_2 _ E). destruct (decide (ka_Verb n = K8sVerbList)) as [E1|E1]; [rewrite E1|].
  { intros [= <-]. rewrite Hp. destruct (Validate_name n Hv) as [[_ ->]|[? _]]; [apply Hq|done]. }
  rewrite (bool_decide_eq_false_2 _ E1). destruct (decide (ka_Verb n = K8sVerbLogs)) as [E2|E2]; [rewrite E2|].
  { intros [= <-]. rewrite logPath_segments. apply Hq. }
  rewrite (bool_decide_eq_false_2 _ E2). destruct (decide (ka_Verb n = K8sVerbDelete)) as [E3|E3]; [rewrite E3|].
  { intros [= <-]. rewrite Hp. apply Hq. }
  rewrite (bool_decide_eq_false_2 _ E3). case_bool_decide; [|done]. case_bool_decide; [done|]. intros [= <-]. rewrite Hp. apply Hq.
Qed.

Lemma action_segments_inj v1 n1 v2 n2 : ka_Validate n1 = Ok () → ka_Validate n2 = Ok () → action_method n1 = action_method n2 →
  action_segments v1 n1 = action_segments v2 n2 → n1 = n2.
Proof.
  intros H1 H2 Hm Hs. pose proof (Validate_name _ H1) as N1. pose proof (Validate_name _ H2) as N2.
  destruct (Validate_fields _ H1) as (V1 & _), (Validate_fields _ H2) as (V2 & _).
  pose proof (Validate_logs _ H1) as L1. pose proof (Validate_logs _ H2) as L2.
  destruct n1 as [b1 r1 g1 s1 m1], n2 as [b2 r2 g2 s2 m2]. cbn [ka_Verb ka_Name ka_Resource ka_Group ka_Namespace] in *.
  unfold action_segments in Hs. cbn [ka_Verb ka_Name ka_Resource ka_Group ka_Namespace] in Hs.
  assert (b1 = K8sVerbLogs ↔ b2 = K8sVerbLogs) as Hl.
  { destruct (decide (b1 = K8sVerbLogs)) as [E1|E1], (decide (b2 = K8sVerbLogs)) as [E2|E2]; try tauto; exfalso;
      rewrite ?(bool_decide_eq_true_2 _ E1), ?(bool_decide_eq_true_2 _ E2), ?(bool_decide_eq_false_2 _ E1), ?(bool_decide_eq_false_2 _ E2) in Hs;
      unfold segments in Hs; repeat case_bool_decide; simplify_eq/=. }
  destruct (decide (b1 = K8sVerbLogs)) as [E1|E1].
  - assert (b2 = K8sVerbLogs) as E2 by tauto. rewrite (bool_decide_eq_true_2 _ E1), (bool_decide_eq_true_2 _ E2) in Hs.
    destruct (L1 E1), (L2 E2). simplify_eq/=. done.
  - assert (b2 ≠ K8sVerbLogs) as E2 by tauto. rewrite (bool_decide_eq_false_2 _ E1), (bool_decide_eq_false_2 _ E2) in Hs.
    apply segments_inj in Hs as (-> & _ & -> & -> & ->). assert (b1 = b2) as ->; [|done].
    unfold action_method in Hm. cbn [ka_Verb] in Hm. unfold K8sVerbs in V1, V2.
    repeat (apply elem_of_cons in V1 as [->|V1]); try (by apply not_elem_of_nil in V1);
      repeat (apply elem_of_cons in V2 as [->|V2]); try (by apply not_elem_of_nil in V2); try done; try (vm_compute in Hm; congruence);
      exfalso; naive_solver.
Qed.


(** ** Answers *)

(** Only a whole, successful answer within its limit is handed back. *)
Lemma do_answer_whole decode method path maxBytes a out : 0 ≤ maxBytes →
  do_answer decode method path maxBytes a = Ok out →
  ∃ code, a = AResponse code out false ∧ 200 ≤ code < 300 ∧ slen out ≤ maxBytes.
Proof.
  intros Hm. destruct a as [|e|code body broken]; cbn [do_answer]; [done..|].
  destruct (_ && _) eqn:Eb; [done|]. destruct (Z.ltb_spec maxBytes (slen (stake (Z.to_nat (maxBytes + 1)) body))) as [|Hl]; [done|].
  destruct (_ || _) eqn:Ec; [done|]. intros [= <-]. apply orb_false_iff in Ec as [C1%Z.ltb_ge C2%Z.leb_gt].
  assert (Hsl : slen body ≤ maxBytes).
  { destruct (Z.le_gt_cases (slen body) maxBytes); [done|]. unfold slen in *. rewrite stake_length in Hl; lia. }
  assert (Hst : stake (Z.to_nat (maxBytes + 1)) body = body).
  { clear -Hsl. unfold slen in Hsl. assert (String.length body ≤ Z.to_nat (maxBytes + 1))%nat as H by lia. revert H.
    generalize (Z.to_nat (maxBytes + 1)). clear. intros n. revert n. induction body as [|c b IH]; intros [|n] H; simpl in *; try done; try lia.
    f_equal. apply IH. lia. }
  rewrite Hst in *. exists code. split_and!; [|lia|lia|done]. f_equal. destruct broken; [|done].
  cbn [andb] in Eb. apply Z.ltb_ge in Eb. lia.
Qed.

(** ** No service account in a message *)

Section redact_principal.
Context (p : string) (Hp : p = "system:serviceaccount:" ∨ p = "system:serviceaccounts:").

Lemma sa_match_head s n : sa_match s = Some n → (0 < n)%nat.
Proof. unfold sa_match. repeat case_match; intros [= <-]; lia. Qed.
Lemma sa_match_None s : sa_match s = None → HasPrefix s p = false.
Proof. unfold sa_match. destruct Hp as [-> | ->]; repeat case_match; done. Qed.

(** Text without the placeholder's first byte at the head of the output was
    copied from the head of the input. *)
Lemma replaced_head t s : ContainsByte t "<"%char = false → HasPrefix (replace_all sa_match bound_sa s 0) t = true → HasPrefix s t = true.
Proof.
  revert s. induction t as [|x t IH]; intros s Hx; [by destruct s|]. unfold ContainsByte in *. cbn [exists_char] in Hx.
  apply orb_false_iff in Hx as [Hx Ht]. destruct s as [|c s]; cbn [replace_all]; [done|].
  destruct (sa_match _) as [n|].
  - intros H. exfalso. unfold bound_sa in H. cbn [append HasPrefix String.prefix] in H. unfold HasPrefix in H. cbn [String.prefix] in H.
    destruct (Ascii.ascii_dec x "<"%char) as [->|]; [by rewrite ascii_eqb_refl in Hx|done].
  - unfold HasPrefix. cbn [String.prefix]. destruct (Ascii.ascii_dec x c); [|done]. by apply IH.
Qed.

Lemma placeholder_apart t : Index t p = None → Index (bound_sa +:+ t) p = None.
Proof. intros H. unfold bound_sa. destruct Hp as [-> | ->]; cbn; by rewrite H. Qed.

Lemma sa_replaced s k : Index (replace_all sa_match bound_sa s k) p = None.
Proof.
  revert k. induction s as [|c s IH]; intros k; cbn [replace_all]; [by destruct Hp as [-> | ->]|].
  destruct k as [|k]; [|done]. destruct (sa_match (String c s)) as [n|] eqn:E; [by apply placeholder_apart|].
  cbn [Index]. rewrite IH. destruct (HasPrefix _ p) eqn:F; [|done]. exfalso.
  assert (HasPrefix (replace_all sa_match bound_sa (String c s) 0) p = true) as H by (cbn [replace_all]; by rewrite E).
  apply replaced_head in H; [|by destruct Hp as [-> | ->]]. apply sa_match_None in E. congruence.
Qed.
End redact_principal.

(** The bound service account is kept out of what an agent sees. Whatever the
    API server answered, the message of a refused request names no service account
    and no group of them. *)
Theorem principal_redacted msg :
  Index (RedactPrincipal msg) "system:serviceaccount:" = None ∧ Index (RedactPrincipal msg) "system:serviceaccounts:" = None.
Proof. unfold RedactPrincipal. split; apply sa_replaced; auto. Qed.

(** ** A run *)

Definition sample_cluster : ClusterInfo := mkClusterInfo "https://10.0.0.2:6443/" "" ["web"] [].
Definition sample_client : Client := mkClient (mkTarget "https://10.0.0.2:6443/" "pem") "token" (30 * Second).
Definition deployments_def : ResourceDef := mkResourceDef "deployments" "apps" "v1" "Deployment" true.
(** With and without the group that the table fills in. *)
Definition short_action : K8sAction := mkK8sAction "apply" "deployments" "" "prod" "api".
Definition full_action : K8sAction := mkK8sAction "apply" "deployments" "apps" "prod" "api".
Definition no_list : ListOptions := mkListOptions "" "" 0.
Definition no_logs : LogOptions := mkLogOptions "" 0 0.
Definition sample_request (manifest : string) : api_request :=
  mkApiRequest "PATCH" "https://10.0.0.2:6443/apis/apps/v1/namespaces/prod/deployments/api?fieldManager=infrabroker" "Bearer token"
    "application/json" "application/apply-patch+yaml" (Some manifest).

