(* ===== verification/Bridge.v ===== *)
(** * The approval bridge and the notifiers

    [internal/bridge]: pending approvals are presented on a chat platform and
    clicks are relayed to the control plane, by one goroutine that polls and
    takes decisions in turn; the Slack adapter withholds cards while clicks
    cannot arrive. [internal/control/notifier.go], [teams.go]: what a
    notification shows. Unicode case tables, time and rule texts are parameters;
    the chat platform and the control plane answer the calls. *)

From S2P Require Import Prelude GoStrings PolicySet Encoding Intent Approval.

Record Decision := mkDecisionClick { de_ID : string; de_Approve : bool; de_By : string }.

Record Bridge := mkBridge {
  br_posted : gset string;
  br_origins : gmap string string;
  br_identity : gmap string string;
  br_redactor : option (string → string);
}.

(** What the bridge does that others see. *)
Inductive bridge_action :=
| APost (a : Approval)
| ADecide (id : string) (approve : bool)
| ARefuse (d : Decision).

Section bridge.
Context (ToUpper : string → string) (EqualFold : string → string → bool).

Definition newBridge (redactor : option (string → string)) (identityMap : gmap string string) : Bridge :=
  mkBridge ∅ ∅ identityMap redactor.
Definition poll_interval (interval : Z) : Z := if interval <=? 0 then 5 * Second else interval.

Definition isSelfApproval (b : Bridge) (d : Decision) : bool :=
  if bool_decide (br_identity b = ∅) then false
  else
    let clicker := default "" (br_identity b !! ToUpper (de_By d)) in
    let origin := default "" (br_origins b !! de_ID d) in
    if bool_decide (clicker = "") || bool_decide (origin = "") then false else EqualFold clicker origin.

(** The loop of [poll]; [answers] are those of the adapter to each card. *)
Fixpoint present (l : list Approval) (answers : list bool) (b : Bridge) : Bridge * list bridge_action :=
  match l with
  | [] => (b, [])
  | a :: l =>
      let b := mkBridge (br_posted b) (<[ap_ID a := ap_EndUser a]> (br_origins b)) (br_identity b) (br_redactor b) in
      if bool_decide (ap_Status a ≠ StatusPending) then present l answers b
      else if bool_decide (ap_ID a ∈ br_posted b) then present l answers b
      else
        let ok := match answers with x :: _ => x | [] => false end in
        let b := if ok then mkBridge ({[ap_ID a]} ∪ br_posted b) (br_origins b) (br_identity b) (br_redactor b) else b in
        let '(b', acts) := present l (tail answers) b in
        (b', APost (WithRedactedCommand (br_redactor b) a) :: acts)
  end.

Definition live_ids (l : list Approval) : gset string := list_to_set (map ap_ID l).

(** [poll]: [None] is a listing that failed. *)
Definition poll (listing : option (list Approval)) (answers : list bool) (b : Bridge) : Bridge * list bridge_action :=
  match listing with
  | None => (b, [])
  | Some l =>
      let '(b, acts) := present l answers b in
      (mkBridge (br_posted b ∩ live_ids l) (filter (fun kv => kv.1 ∈ live_ids l) (br_origins b)) (br_identity b) (br_redactor b), acts)
  end.

(** The decision case of [Run]; [decided] is the control plane's answer. *)
Definition relay (d : Decision) (decided : bool) (b : Bridge) : Bridge * list bridge_action :=
  if de_Approve d && isSelfApproval b d then (b, [ARefuse d])
  else if negb decided then (b, [ADecide (de_ID d) (de_Approve d)])
  else (mkBridge (br_posted b ∖ {[de_ID d]}) (delete (de_ID d) (br_origins b)) (br_identity b) (br_redactor b),
        [ADecide (de_ID d) (de_Approve d)]).

(** What the select of [Run] meets, and the end of [Run]. *)
Inductive bridge_event :=
| BTick (listing : option (list Approval)) (answers : list bool)
| BDecision (d : Decision) (decided : bool)
| BCancelled
| BClosed.
Inductive bridge_exit := ErrCancelled | ErrAdapterStopped.

Fixpoint run_loop (evs : list bridge_event) (b : Bridge) : Bridge * list bridge_action * option bridge_exit :=
  match evs with
  | [] => (b, [], None)
  | BCancelled :: _ => (b, [], Some ErrCancelled)
  | BClosed :: _ => (b, [], Some ErrAdapterStopped)
  | BTick l ans :: evs =>
      let '(b, acts) := poll l ans b in
      let '(b, more, e) := run_loop evs b in (b, acts ++ more, e)
  | BDecision d decided :: evs =>
      let '(b, acts) := relay d decided b in
      let '(b, more, e) := run_loop evs b in (b, acts ++ more, e)
  end.

(** [Run] polls before it waits. *)
Definition Run (first : option (list Approval)) (answers : list bool) (evs : list bridge_event) (b : Bridge) :
    Bridge * list bridge_action * option bridge_exit := run_loop (BTick first answers :: evs) b.

(** ** The identity map *)

Inductive identity_error := EIdentityEmpty | EIdentityKey (k : string) | EIdentityValue (k : string) | EIdentityTwice (k : string).

Fixpoint identity_loop (raw : list (string * string)) (m : gmap string string) : result identity_error (gmap string string) :=
  match raw with
  | [] => Ok m
  | (k, v) :: raw =>
      let nk := ToUpper (TrimSpace k) in
      let nv := TrimSpace v in
      guard! bool_decide (nk ≠ "") else EIdentityKey k in
      guard! bool_decide (nv ≠ "") else EIdentityValue k in
      guard! bool_decide (m !! nk = None) else EIdentityTwice nk in
      identity_loop raw (<[nk := nv]> m)
  end.

(** [loadIdentityMap] after reading: [raw] is the decoded object in the order the
    range visits it; no path leaves the guard off. *)
Definition loadIdentityMap (raw : option (list (string * string))) : result identity_error (gmap string string) :=
  match raw with
  | None => Ok ∅
  | Some [] => Err EIdentityEmpty
  | Some raw => identity_loop raw ∅
  end.
End bridge.

(** ** The Slack adapter *)

Record SlackAdapter := mkSlackAdapter { sl_connected : bool; sl_done : bool; sl_decisions : list Decision }.

Definition actionApprove : string := "infrabroker_approve".
Definition actionDeny : string := "infrabroker_deny".

Inductive slack_event :=
| SConnected
| SConnecting (connectionCount : Z)
| SConnectionError
| SInvalidAuth
| SInteractive (blockActions : bool) (user : string) (actions : list (string * string))
| SOther.

(** [NewSlackAdapter] refuses missing credentials. *)
Definition NewSlackAdapter (botToken appToken channel : string) : option SlackAdapter :=
  if bool_decide (botToken = "") || bool_decide (appToken = "") || bool_decide (channel = "") then None
  else Some (mkSlackAdapter false false []).

Definition set_connected (c : bool) (a : SlackAdapter) : SlackAdapter := mkSlackAdapter c (sl_done a) (sl_decisions a).
Definition Stop (a : SlackAdapter) : SlackAdapter := mkSlackAdapter (sl_connected a) true (sl_decisions a).
(** A click after [Stop] is dropped. *)
Definition sendDecision (d : Decision) (a : SlackAdapter) : SlackAdapter :=
  if sl_done a then a else mkSlackAdapter (sl_connected a) (sl_done a) (sl_decisions a ++ [d]).

Fixpoint send_clicks (user : string) (actions : list (string * string)) (a : SlackAdapter) : SlackAdapter :=
  match actions with
  | [] => a
  | (actionID, value) :: actions =>
      send_clicks user actions
        (if bool_decide (actionID = actionApprove) then sendDecision (mkDecisionClick value true user) a
         else if bool_decide (actionID = actionDeny) then sendDecision (mkDecisionClick value false user) a
         else a)
  end.

Definition slack_handle (evt : slack_event) (a : SlackAdapter) : SlackAdapter :=
  match evt with
  | SConnected => set_connected true a
  | SConnecting n => if 0 <? n then set_connected false a else a
  | SConnectionError | SInvalidAuth => set_connected false a
  | SInteractive blockActions user actions => if blockActions : bool then send_clicks user actions a else a
  | SOther => a
  end.

(** The socket loop has returned: no click can arrive any more. *)
Definition slack_exited (a : SlackAdapter) : SlackAdapter := Stop (set_connected false a).

(** [Post]: the card and whether it was accepted; withheld while disconnected. *)
Definition slack_Post (a : SlackAdapter) (accepted : bool) (ap : Approval) : bool * list Approval :=
  if negb (sl_connected a) then (false, []) else (accepted, [ap]).

(** ** What a card shows *)

Definition SlackCommandMax : Z := 2000.
Definition TeamsCommandMax : Z := 8000.

(** [utf8.RuneStart]: not a continuation byte. *)
Definition RuneStart (c : ascii) : bool := negb (in_range 128 191 c).
Fixpoint rune_cut (cmd : string) (cut : nat) : nat :=
  match cut with
  | O => O
  | S k => match String.get cut cmd with Some c => if RuneStart c then cut else rune_cut cmd k | None => cut end
  end.
Definition PresentedCommand (cmd : string) (max : Z) : string :=
  if slen cmd <=? max then cmd
  else stake (rune_cut cmd (Z.to_nat max)) cmd +:+ " ... [truncated: " +:+ FormatInt (slen cmd) +:+
       " bytes total; full command in /ui/approvals/<id>]".

Section cards.
Context (show_rule : matched_rule → string) (rfc3339 : time → string).

Definition sudo_user (a : Approval) : string := if bool_decide (ap_SudoUser a = "") then "root" else ap_SudoUser a.

Definition status_text (s : Status) : string :=
  match s with StatusPending => "pending" | StatusApproved => "approved" | StatusDenied => "denied" | StatusExpired => "expired" end.

(** The plain-text block of [buildApprovalBlocks], and the value its two buttons
    carry. *)
Definition approval_card (ap : Approval) : string * string :=
  ("run " +:+ PresentedCommand (ap_Command ap) SlackCommandMax +:+ " on " +:+
   (if bool_decide (TargetLabel ap = "Cluster") then "cluster " +:+ ap_Host ap else ap_Host ap) +:+ string_of_bytes [10] +:+
   "caller " +:+ ap_Caller ap +:+
   (if bool_decide (ap_EndUser ap ≠ "") then " · user " +:+ ap_EndUser ap
    else if ap_EndUserStripped ap then " · user (asserted by an untrusted broker, dropped)" else "") +:+
   (if ap_Sudo ap then " · sudo → " +:+ sudo_user ap else "") +:+
   (if bool_decide (show_rule (ap_Rule ap) ≠ "") then " · rule " +:+ show_rule (ap_Rule ap) else ""),
   ap_ID ap).

Definition approvalFacts (a : Approval) : list (string * string) :=
  List.filter (fun f => negb (bool_decide (f.2 = "")))
    ([("Approval ID", ap_ID a); ("Status", status_text (ap_Status a)); ("Created", rfc3339 (ap_CreatedAt a));
      (TargetLabel a, ap_Host a); ("Command", PresentedCommand (ap_Command a) TeamsCommandMax); ("Caller (broker)", ap_Caller a)] ++
     (if bool_decide (ap_EndUser a ≠ "") then [("End user", ap_EndUser a)]
      else if ap_EndUserStripped a then [("End user", "(asserted by an untrusted broker, dropped)")] else []) ++
     (if ap_Sudo a then [("Elevation", "sudo → " +:+ sudo_user a)] else []) ++
     (if bool_decide (show_rule (ap_Rule a) ≠ "") then [("Policy rule", show_rule (ap_Rule a))] else [])).

(** [teamsMarkdownEscaper] *)
Definition teams_special (c : ascii) : bool := ContainsByte (string_of_bytes [92; 96; 42; 95; 91; 93; 40; 41; 35; 126; 62; 124]) c.
Definition backslash : ascii := "092"%char.
Fixpoint teamsMarkdownEscape (s : string) : string :=
  match s with
  | EmptyString => ""
  | String c r => if teams_special c then String backslash (String c (teamsMarkdownEscape r)) else String c (teamsMarkdownEscape r)
  end.
Definition adaptiveCard_facts (a : Approval) : list (string * string) :=
  map (fun f => (f.1, teamsMarkdownEscape f.2)) (approvalFacts a).

(** [strings.ReplaceAll] of the placeholder in the link template. *)
Fixpoint replace_id (id s : string) (skip : nat) : string :=
  match s with
  | EmptyString => ""
  | String c r =>
      match skip with
      | S k => replace_id id r k
      | O => if HasPrefix s "{id}" then id +:+ replace_id id r 3 else String c (replace_id id r O)
      end
  end.
Definition renderURL (template id : string) : string := if bool_decide (template = "") then "" else replace_id id template O.

Definition elevation_label (a : Approval) : string := if ap_Sudo a then "sudo:" +:+ sudo_user a else "none".
Definition user_label (a : Approval) : string :=
  if bool_decide (ap_EndUser a = "") && ap_EndUserStripped a then "(stripped)" else ap_EndUser a.
End cards.

(** [WebhookNotifier.Notify] and [TeamsNotifier.Notify] after marshalling: [None]
    is no answer; redirects are not followed, so they count as failures. *)
Definition notified (status : option Z) : bool := match status with Some code => negb (300 <=? code) | None => false end.
