(* ===== verification/BridgeRun.v ===== *)
(** * What the bridge relays and shows *)

From S2P Require Import Prelude GoStrings PolicySet Encoding Intent Approval Bridge.

Section bridge.
Context (ToUpper : string → string) (EqualFold : string → string → bool).
Abbreviation relay := (relay ToUpper EqualFold).
Abbreviation run_loop := (run_loop ToUpper EqualFold).
Abbreviation isSelfApproval := (isSelfApproval ToUpper EqualFold).

Lemma present_keeps l ans b : let '(b', _) := present l ans b in br_identity b' = br_identity b ∧ br_redactor b' = br_redactor b.
Proof.
  revert ans b. induction l as [|a l IH]; intros ans b; cbn [present]; [done|].
  repeat case_bool_decide; try (specialize (IH ans (mkBridge (br_posted b) (<[ap_ID a:=ap_EndUser a]> (br_origins b)) (br_identity b) (br_redactor b)));
    by destruct (present _ _ _)).
  match goal with |- context [present l (tail ans) ?b1] => specialize (IH (tail ans) b1); destruct (present l (tail ans) b1) end.
  by destruct (match ans with x :: _ => x | [] => false end).
Qed.

Definition noted (a : Approval) (b : Bridge) : Bridge :=
  mkBridge (br_posted b) (<[ap_ID a := ap_EndUser a]> (br_origins b)) (br_identity b) (br_redactor b).

Lemma present_snoc l a ans b :
  br_origins (present (l ++ [a]) ans b).1 = <[ap_ID a := ap_EndUser a]> (br_origins (present l ans b).1).
Proof.
  revert ans b. induction l as [|x l IH]; intros ans b; cbn [present app].
  - repeat case_bool_decide; try done. by destruct (match ans with y :: _ => y | [] => false end).
  - repeat case_bool_decide; [exact (IH ans (noted x b))|exact (IH ans (noted x b))|].
    match goal with |- context [present l (tail ans) ?b2] => specialize (IH (tail ans) b2);
      destruct (present l (tail ans) b2), (present (l ++ [a]) (tail ans) b2) end. exact IH.
Qed.

(** The originator a listing gives for an id: that of its last entry. *)
Lemma present_origins l ans b id : br_origins (present l ans b).1 !! id =
  match list_find_first (fun a => bool_decide (ap_ID a = id)) (reverse l) with Some a => Some (ap_EndUser a) | None => br_origins b !! id end.
Proof.
  induction l as [|a l IH] using rev_ind; [done|]. rewrite reverse_app, present_snoc. cbn [reverse rev_append app list_find_first].
  case_bool_decide as E; [subst; by rewrite lookup_insert_eq|]. by rewrite lookup_insert_ne.
Qed.

(** Events that neither list requests, nor settle [id], nor end the run. *)
Definition leaves (id : string) (e : bridge_event) : Prop :=
  match e with
  | BTick None _ => True
  | BDecision d decided => de_ID d = id → decided = false
  | _ => False
  end.

Lemma relay_keeps d decided b : br_identity (relay d decided b).1 = br_identity b.
Proof. unfold Bridge.relay. repeat case_match; done. Qed.
Lemma relay_leaves id d decided b : leaves id (BDecision d decided) → br_origins (relay d decided b).1 !! id = br_origins b !! id.
Proof.
  unfold Bridge.relay. cbn [leaves]. intros H. destruct (_ && _); [done|]. destruct decided; [|done]. cbn [negb fst br_origins].
  destruct (decide (de_ID d = id)) as [E|E]; [by specialize (H E)|by rewrite lookup_delete_ne].
Qed.

(** The run after some of its events. *)
Lemma run_loop_app id es evs b : Forall (leaves id) es → ∃ b1 acts,
  br_identity b1 = br_identity b ∧ br_origins b1 !! id = br_origins b !! id ∧
  run_loop (es ++ evs) b = let '(b2, more, e) := run_loop evs b1 in (b2, acts ++ more, e).
Proof.
  intros He. revert b. induction He as [|e es He _ IH]; intros b.
  { exists b, []. split_and!; [done..|]. cbn [app]. by destruct (run_loop evs b) as [[] ?]. }
  destruct e as [[l|] ans|d decided| |]; cbn [leaves] in He; try done; cbn [app Bridge.run_loop].
  - cbn [poll]. destruct (IH b) as (b1 & acts & H1 & H2 & ->). exists b1, acts. split_and!; [done..|]. by destruct (run_loop evs b1) as [[] ?].
  - pose proof (relay_keeps d decided b) as K1. pose proof (relay_leaves id d decided b He) as K2.
    destruct (relay d decided b) as [b0 acts0]. cbn [fst] in K1, K2. destruct (IH b0) as (b1 & acts & H1 & H2 & ->).
    exists b1, (acts0 ++ acts). split_and!; [congruence..|]. destruct (run_loop evs b1) as [[] ?]. by rewrite app_assoc.
Qed.

(** [C7] Four eyes on the chat platform. Once a listing has shown the bridge a
    request, and until it is settled or another listing is seen, an approval
    clicked by a person whom the identity map takes for the request's originator
    is refused: it is never relayed to the control plane, whatever other clicks,
    failed polls and failed relays come between. *)
Theorem bridge_four_eyes b l ans a mid d decided u :
  a ∈ l → ap_ID a = de_ID d → (∀ a', a' ∈ l → ap_ID a' = ap_ID a → ap_EndUser a' = ap_EndUser a) →
  Forall (leaves (de_ID d)) mid → br_identity b !! ToUpper (de_By d) = Some u → u ≠ "" → ap_EndUser a ≠ "" →
  EqualFold u (ap_EndUser a) = true → de_Approve d = true →
  ∃ b' acts, run_loop (BTick (Some l) ans :: mid ++ [BDecision d decided]) b = (b', acts ++ [ARefuse d], None).
Proof.
  intros Ha Hid Huniq Hmid Hu Hu0 Ho0 Hfold Happ. cbn [Bridge.run_loop].
  destruct (poll (Some l) ans b) as [b1 acts1] eqn:Hp.
  assert (br_identity b1 = br_identity b ∧ br_origins b1 !! de_ID d = Some (ap_EndUser a)) as [Hi Ho].
  { cbn [poll] in Hp. pose proof (present_keeps l ans b) as K. pose proof (present_origins l ans b (de_ID d)) as O.
    destruct (present l ans b) as [b0 acts0]. injection Hp as <- <-. destruct K as [K _]. cbn [br_identity br_origins fst] in *.
    split; [done|]. apply map_lookup_filter_Some. split; [|cbn [fst]; unfold live_ids; rewrite elem_of_list_to_set, <-Hid; apply list_elem_of_fmap; eauto].
    rewrite O. destruct (list_find_first _ (reverse l)) as [a'|] eqn:E.
    - apply list_find_first_Some in E as [Hin E%bool_decide_eq_true]. f_equal. apply Huniq; [by rewrite elem_of_reverse in Hin|congruence].
    - exfalso. apply (list_find_first_None _ _) with (x := a) in E; [by apply bool_decide_eq_false in E|]. by rewrite elem_of_reverse. }
  destruct (run_loop_app (de_ID d) mid [BDecision d decided] b1 Hmid) as (b2 & acts2 & I2 & O2 & ->).
  cbn [Bridge.run_loop]. assert (Hself : isSelfApproval b2 d = true).
  { unfold Bridge.isSelfApproval. rewrite O2, Ho, I2, Hi, Hu. cbn [default]. rewrite bool_decide_eq_false_2 by (intros E; by rewrite E in Hu).
    by rewrite !bool_decide_eq_false_2 by done. }
  unfold Bridge.relay at 1. rewrite Happ, Hself. cbn [andb]. eexists b2, (acts1 ++ acts2). by rewrite app_assoc, app_nil_r.
Qed.

(** ** Cards *)

Lemma present_cards l ans b c : APost c ∈ (present l ans b).2 →
  ∃ a, a ∈ l ∧ ap_Status a = StatusPending ∧ (ap_ID a ∉ br_posted b) ∧ c = WithRedactedCommand (br_redactor b) a.
Proof.
  revert ans b. induction l as [|a l IH]; intros ans b; cbn [present]; [by intros ?%not_elem_of_nil|].
  assert (Hrec : ∀ ans' b', br_redactor b' = br_redactor b → br_posted b ⊆ br_posted b' → APost c ∈ (present l ans' b').2 →
    ∃ x, x ∈ a :: l ∧ ap_Status x = StatusPending ∧ (ap_ID x ∉ br_posted b) ∧ c = WithRedactedCommand (br_redactor b) x).
  { intros ans' b' R S (x & H1 & H2 & H3 & ->)%IH. exists x. rewrite R. split_and!; [by right|done|set_solver|done]. }
  repeat case_bool_decide; [by apply Hrec|by apply Hrec|].
  match goal with |- context [present l (tail ans) ?b2] => pose proof (Hrec (tail ans) b2) as H2;
    assert (br_redactor b2 = br_redactor b ∧ br_posted b ⊆ br_posted b2) as [R S] by (destruct (match ans with x :: _ => x | [] => false end); split; simpl; done || set_solver);
    destruct (present l (tail ans) b2) as [b3 acts]; specialize (H2 R S) end.
  cbn [snd] in *. intros [[= ->]|Hin]%elem_of_cons; [|by apply H2]. exists a.
  split_and!; [by left|by destruct (decide (ap_Status a = StatusPending))|done|]. by destruct (match ans with x :: _ => x | [] => false end).
Qed.

(** Every card is a request that a listing showed as pending, with its command
    redacted. *)
Lemma cards_pending evs b c : APost c ∈ (run_loop evs b).1.2 →
  ∃ l ans a, BTick (Some l) ans ∈ evs ∧ a ∈ l ∧ ap_Status a = StatusPending ∧ c = WithRedactedCommand (br_redactor b) a.
Proof.
  revert b. induction evs as [|e evs IH]; intros b; cbn [Bridge.run_loop]; [by intros ?%not_elem_of_nil|].
  assert (Hrec : ∀ b', br_redactor b' = br_redactor b → APost c ∈ (run_loop evs b').1.2 →
    ∃ l ans a, BTick (Some l) ans ∈ e :: evs ∧ a ∈ l ∧ ap_Status a = StatusPending ∧ c = WithRedactedCommand (br_redactor b) a).
  { intros b' R (l & ans & a & H1 & H2)%IH. exists l, ans, a. rewrite R in H2. split; [by right|done]. }
  destruct e as [[l|] ans|d decided| |]; [| | |by intros ?%not_elem_of_nil..].
  - pose proof (present_cards l ans b c) as Hc. pose proof (present_keeps l ans b) as K. cbn [poll].
    destruct (present l ans b) as [b1 acts]. cbn [snd] in Hc. destruct K as [_ K].
    match goal with |- context [Bridge.run_loop _ _ evs ?b2] => specialize (Hrec b2 K); destruct (run_loop evs b2) as [[b3 more] ex] end.
    cbn [fst snd] in *. intros [Hin|Hin]%elem_of_app; [|by apply Hrec].
    destruct (Hc Hin) as (a & H1 & H2 & _ & ->). exists l, ans, a. split; [by left|done].
  - cbn [poll]. specialize (Hrec b eq_refl). by destruct (run_loop evs b) as [[b3 more] ex].
  - assert (Hr : br_redactor (relay d decided b).1 = br_redactor b ∧ APost c ∉ (relay d decided b).2).
    { unfold Bridge.relay. destruct (_ && _); [split; [done|]|destruct (negb decided); (split; [done|])]; set_solver. }
    destruct (relay d decided b) as [b1 acts]. destruct Hr as [R N]. specialize (Hrec b1 R).
    destruct (run_loop evs b1) as [[b3 more] ex]. cbn [fst snd] in *. intros [?|?]%elem_of_app; [done|by apply Hrec].
Qed.

(** While a request stays listed and unsettled, it is not presented again. *)
Definition stays (id : string) (e : bridge_event) : Prop :=
  match e with
  | BTick (Some l) _ => id ∈ live_ids l
  | BDecision d decided => de_ID d = id → decided = false
  | _ => True
  end.

Lemma present_posted l ans b : br_posted b ⊆ br_posted (present l ans b).1.
Proof.
  revert ans b. induction l as [|a l IH]; intros ans b; cbn [present]; [done|].
  repeat case_bool_decide; [exact (IH ans (noted a b))|exact (IH ans (noted a b))|].
  match goal with |- context [present l (tail ans) ?b2] => specialize (IH (tail ans) b2);
    assert (br_posted b ⊆ br_posted b2) as S by (destruct (match ans with x :: _ => x | [] => false end); simpl; set_solver);
    destruct (present l (tail ans) b2) end. cbn [fst] in *. set_solver.
Qed.

Theorem presented_once evs b id : id ∈ br_posted b → Forall (stays id) evs → ∀ c, APost c ∈ (run_loop evs b).1.2 → ap_ID c ≠ id.
Proof.
  intros Hid Hall c. revert b Hid. induction Hall as [|e evs He _ IH]; intros b Hid; cbn [Bridge.run_loop]; [by intros ?%not_elem_of_nil|].
  destruct e as [[l|] ans|d decided| |]; [| | |by intros ?%not_elem_of_nil..].
  - pose proof (present_cards l ans b c) as Hc. pose proof (present_posted l ans b) as K. cbn [poll].
    destruct (present l ans b) as [b1 acts]. cbn [fst snd] in *. cbn [stays] in He.
    match goal with |- context [Bridge.run_loop _ _ evs ?b2] => specialize (IH b2 ltac:(simpl; set_solver)); destruct (run_loop evs b2) as [[b3 more] ex] end.
    cbn [fst snd] in *. intros [Hin|Hin]%elem_of_app; [|by apply IH].
    destruct (Hc Hin) as (a & _ & _ & Hn & ->). intros <-. apply Hn. by destruct (br_redactor b).
  - cbn [poll]. specialize (IH b Hid). by destruct (run_loop evs b) as [[b3 more] ex].
  - assert (Hr : id ∈ br_posted (relay d decided b).1 ∧ APost c ∉ (relay d decided b).2).
    { unfold Bridge.relay. cbn [stays] in He. destruct (_ && _); [set_solver|]. destruct decided; cbn [negb]; [|set_solver].
      simpl. split; [|set_solver]. apply elem_of_difference. split; [done|]. intros ->%elem_of_singleton. by specialize (He eq_refl). }
    destruct (relay d decided b) as [b1 acts]. destruct Hr as [R N]. specialize (IH b1 R).
    destruct (run_loop evs b1) as [[b3 more] ex]. cbn [fst snd] in *. intros [?|?]%elem_of_app; [done|by apply IH].
Qed.
End bridge.

(** ** The identity map covers whoever it lists *)

Lemma identity_loop_spec ToUpper raw m m' : identity_loop ToUpper raw m = Ok m' →
  (∀ k v, m !! k = Some v → m' !! k = Some v) ∧
  ∀ k v, (k, v) ∈ raw → m' !! ToUpper (TrimSpace k) = Some (TrimSpace v) ∧ TrimSpace v ≠ "".
Proof.
  revert m. induction raw as [|[k v] raw IH]; intros m; cbn [identity_loop].
  { intros [= <-]. split; [done|]. by intros k v ?%not_elem_of_nil. }
  case_bool_decide as E1; [|done]. case_bool_decide as E2; [|done]. case_bool_decide as E3; [|done].
  intros H. destruct (IH _ H) as [I1 I2]. split.
  - intros x y Hx. apply I1. rewrite lookup_insert_ne; [done|]. intros <-. congruence.
  - intros x y [[= -> ->]|Hin]%elem_of_cons; [|by apply I2]. split; [|done]. apply I1. by rewrite lookup_insert_eq.
Qed.

(** ** Literal text in a card *)

(** Reading with backslash escapes: no active markup character. *)
Fixpoint literal (s : string) (escaped : bool) : bool :=
  match s with
  | EmptyString => negb escaped
  | String c r =>
      if escaped then literal r false
      else if ascii_eqb c backslash then literal r true
      else negb (teams_special c) && literal r false
  end.
(** What such a reading shows. *)
Fixpoint shown (s : string) (escaped : bool) : string :=
  match s with
  | EmptyString => ""
  | String c r =>
      if escaped then String c (shown r false)
      else if ascii_eqb c backslash then shown r true else String c (shown r false)
  end.

(** A card shows an approver exactly what was asked. Whatever a command, a
    host or an identity contains, the escaped text has no active markup and reads
    as the text itself. *)
Theorem teams_card_literal s : literal (teamsMarkdownEscape s) false = true ∧ shown (teamsMarkdownEscape s) false = s.
Proof.
  induction s as [|c s [IH1 IH2]]; [done|]. cbn [teamsMarkdownEscape]. destruct (teams_special c) eqn:E.
  - cbn [literal shown]. rewrite ascii_eqb_refl, IH1, IH2. done.
  - cbn [literal shown]. destruct (ascii_eqb c backslash) eqn:Eb; [apply ascii_eqb_eq in Eb as ->; by vm_compute in E|].
    by rewrite E, IH1, IH2.
Qed.

Lemma slack_withholds a accepted ap : (slack_Post a accepted ap).2 ≠ [] → sl_connected a = true.
Proof. unfold slack_Post. by destruct (sl_connected a). Qed.

(** ** A run *)

Definition sample_approval (id user : string) : Approval :=
  mkApproval id "broker" user "web1" "rm -rf /tmp/x" false "" (RuleRequireApproval "rm") StatusPending 0 "" None "" 0 false
    (mkWireRequest "web1" "target" "oneshot" "" "rm -rf /tmp/x" 60 "" "" "" "" "" "" "" false "" false false false false "" false user None "" "" 0 "" "")
    false false false.
Definition sample_identity : gmap string string := {["U1" := "alice"; "U2" := "bob"]}.
Definition sample_bridge : Bridge := newBridge None sample_identity.
Definition same_text (a b : string) : bool := bool_decide (a = b).
Definition sample_listing : list Approval := [sample_approval "7" "alice"; sample_approval "8" "bob"].

Lemma bridge_four_eyes_witness :
  ∃ b' acts, run_loop id same_text
    (BTick (Some sample_listing) [true; true] :: [BTick None []; BDecision (mkDecisionClick "8" true "U1") true] ++ [BDecision (mkDecisionClick "7" true "U1") true])
    sample_bridge = (b', acts ++ [ARefuse (mkDecisionClick "7" true "U1")], None).
Proof.
  apply (bridge_four_eyes id same_text sample_bridge sample_listing [true; true] (sample_approval "7" "alice")
    [BTick None []; BDecision (mkDecisionClick "8" true "U1") true] (mkDecisionClick "7" true "U1") true "alice").
  - left.
  - reflexivity.
  - intros a' H Hid. unfold sample_listing in H. apply elem_of_cons in H as [->|H]; [reflexivity|].
    apply elem_of_cons in H as [->|H]; [discriminate Hid|by apply not_elem_of_nil in H].
  - repeat constructor. discriminate.
  - reflexivity.
  - discriminate.
  - discriminate.
  - reflexivity.
  - reflexivity.
Defined.

(** After a restart, until the first listing succeeds, the bridge does not know
    who asked: the originator's own click on an earlier card is relayed. *)
Example unlisted_self_approval_relayed :
  (Run id same_text None [] [BDecision (mkDecisionClick "7" true "U1") true] sample_bridge).1.2 = [ADecide "7" true].
Proof. reflexivity. Qed.
