(* ===== verification/PolicyRec.v ===== *)
(** * Policy recommendations

    [internal/policyrec/policyrec.go]: what the recommender reads out of an
    audit log. [summary] and the three kinds of evidence are the reference; the
    theorem says that [Recommend] returns exactly the suggestions the evidence
    supports, in order of support. *)

From S2P Require Import Prelude GoStrings CmdPolicy PolicySet HostPolicy K8sPolicy AuditEntry AuditTime AuditStore AuditRun.

Abbreviation key := (string * string)%type (only parsing).

Inductive SuggestionType := Promote | DeadRule | Friction.
#[global] Instance SuggestionType_eq_dec : EqDecision SuggestionType.
Proof. solve_decision. Defined.

Record Suggestion := mkSuggestion {
  sg_Type : SuggestionType;
  sg_Host : string;
  sg_Pattern : string;
  sg_Count : Z;
  sg_Callers : Z;
  sg_Approved : Z;
  sg_FirstSeen : option time;
  sg_LastSeen : option time;
  sg_Samples : list string;
}.

(** [Since] is [None] for the zero time. *)
Record Options := mkOptions { op_Host : string; op_Since : option time; op_MinCount : Z }.

(** ** Evidence of one bucket *)

Record stat := mkStat {
  st_count : Z;
  st_approved : Z;
  st_callers : option (gset string);
  st_seenApprovals : gset string;
  st_first : option time;
  st_last : option time;
  st_samples : list string;
}.
Definition zero_stat : stat := mkStat 0 0 None ∅ None None [].

(** The zero [time.Time] is the first instant of year 1. *)
Definition instant (t : option time) : Z := default (-62135596800 * Second) t.
Definition Before (a b : option time) : bool := instant a <? instant b.

Definition bumpTimes (t : option time) (s : stat) : stat :=
  mkStat (st_count s) (st_approved s) (st_callers s) (st_seenApprovals s)
    (if Before t (st_first s) then t else st_first s) (if Before (st_last s) t then t else st_last s) (st_samples s).
Definition addSample (cmd : string) (s : stat) : stat :=
  mkStat (st_count s) (st_approved s) (st_callers s) (st_seenApprovals s) (st_first s) (st_last s)
    (if bool_decide (length (st_samples s) < 3)%nat && negb (bool_decide (cmd ∈ st_samples s))
     then st_samples s ++ [cmd] else st_samples s).
Definition add_caller (c : string) (s : stat) : stat :=
  mkStat (st_count s) (st_approved s) (Some ({[c]} ∪ default ∅ (st_callers s))) (st_seenApprovals s)
    (st_first s) (st_last s) (st_samples s).
Definition seen_again (e : Entry) (s : stat) : stat :=
  addSample (ae_Command e) (bumpTimes (ae_Time e) (add_caller (ae_Caller e) s)).

(** [observe]: the maps and the first time are set at the first entry; the second
    record of one approval is not counted. *)
Definition observe (e : Entry) (approved : bool) (s : stat) : stat :=
  let s := match st_callers s with
           | None => mkStat (st_count s) (st_approved s) (Some ∅) ∅ (ae_Time e) (st_last s) (st_samples s)
           | Some _ => s
           end in
  if negb (bool_decide (ae_ApprovalID e = "")) && bool_decide (ae_ApprovalID e ∈ st_seenApprovals s)
  then seen_again e s
  else seen_again e
    (mkStat (st_count s + 1) (st_approved s + if approved then 1 else 0) (st_callers s)
       (if bool_decide (ae_ApprovalID e = "") then st_seenApprovals s else {[ae_ApprovalID e]} ∪ st_seenApprovals s)
       (st_first s) (st_last s) (st_samples s)).

Definition isApprovalGrant (outcome : string) : bool :=
  bool_decide (outcome ∈ ["approval-granted"; "approval-decision-allow"; "approval-decision-allow-learn"]).

(** [ruleArg]: the pattern a rule label carries. *)
Definition ruleArg_allow (r : matched_rule) : option string := match r with RuleAllow pat => Some pat | _ => None end.
Definition ruleArg_deny (r : matched_rule) : option string := match r with RuleDeny pat => Some pat | _ => None end.

Definition at_key (m : gmap key stat) (k : key) : stat := default zero_stat (m !! k).

Record findings := mkFindings { fd_promote : gmap key stat; fd_friction : gmap key stat; fd_used : gset key }.

Section recommend.
Context `{RE : RegexpEngine} `{SP : ShellParser}.

Definition in_scope (opts : Options) (e : Entry) : bool :=
  negb (bool_decide (ae_Command e = "") || bool_decide (ae_Host e = ""))
  && negb (bool_decide (op_Host opts ≠ "") && bool_decide (ae_Host e ≠ op_Host opts))
  && negb (match op_Since opts with Some t => Before (ae_Time e) (Some t) | None => false end).

Definition ran (outcome : string) : bool :=
  isApprovalGrant outcome || bool_decide (outcome ∈ ["executed"; "session_exec"; "dry_run_allowed"]).
Definition refused (outcome : string) : bool :=
  bool_decide (outcome ∈ ["denied"; "session_exec_denied"; "dry_run_denied"]).

Definition use_rule (host : string) (r : matched_rule) (used : gset key) : gset key :=
  let used := match ruleArg_allow r with Some pat => {[(host, pat)]} ∪ used | None => used end in
  match ruleArg_deny r with Some pat => {[(host, pat)]} ∪ used | None => used end.

(** One iteration of the loop over the entries. *)
Definition recommend_entry (compiled : PolicyTable) (opts : Options) (f : findings) (e : Entry) : findings :=
  if negb (in_scope opts e) then f else
  match compiled !! ae_Host e with
  | None => f
  | Some hp =>
      let d := Decide (hp_Policies hp) (ae_Command e) in
      match d_err d with
      | Some _ => f
      | None =>
          let used := use_rule (ae_Host e) (d_rule d) (fd_used f) in
          let approved := isApprovalGrant (ae_Outcome e) in
          let k := (ae_Host e, ae_Command e) in
          if negb (d_allowed d) && ran (ae_Outcome e)
          then mkFindings (<[k := observe e approved (at_key (fd_promote f) k)]> (fd_promote f)) (fd_friction f) used
          else if negb (d_allowed d) && refused (ae_Outcome e)
          then mkFindings (fd_promote f) (<[k := observe e approved (at_key (fd_friction f) k)]> (fd_friction f)) used
          else mkFindings (fd_promote f) (fd_friction f) used
      end
  end.
Definition no_findings : findings := mkFindings ∅ ∅ ∅.
Definition recommend_loop (compiled : PolicyTable) (opts : Options) (entries : list Entry) (f : findings) : findings :=
  fold_left (recommend_entry compiled opts) entries f.

(** The order in which the buckets of a map are visited. *)
Definition key_order : Type := gmap key stat → list (key * stat).

Definition cmd_suggestion (t : SuggestionType) (anchor : bool) (ks : key * stat) : Suggestion :=
  let '((host, item), s) := ks in
  mkSuggestion t host (if anchor then "^" +:+ QuoteMeta item +:+ "$" else item) (st_count s)
    (Z.of_nat (size (default ∅ (st_callers s)))) (st_approved s) (st_first s) (st_last s) (st_samples s).
Definition buildCmd (iter : key_order) (t : SuggestionType) (m : gmap key stat) (minCount : Z) (anchor : bool) : list Suggestion :=
  map (cmd_suggestion t anchor) (List.filter (fun ks => negb (st_count ks.2 <? minCount)) (iter m)).

Definition host_patterns (hp : HostPolicy) : list string := flat_map (fun cp => cp_Allow cp ++ cp_Deny cp) (hp_Policies hp).
Definition dead_rule (host pat : string) : Suggestion := mkSuggestion DeadRule host pat 0 0 0 None None [].
Definition buildDeadRules (iter : range_order HostPolicy) (compiled : PolicyTable) (used : gset key) (opts : Options) : list Suggestion :=
  flat_map (fun '(host, hp) =>
    if bool_decide (op_Host opts ≠ "") && bool_decide (host ≠ op_Host opts) then []
    else map (dead_rule host) (List.filter (fun pat => negb (bool_decide ((host, pat) ∈ used))) (host_patterns hp)))
    (iter compiled).

(** [sort.SliceStable] by support, then by host. *)
Definition ranks_before (a b : Suggestion) : bool :=
  if bool_decide (sg_Count a ≠ sg_Count b) then sg_Count b <? sg_Count a else str_ltb (sg_Host a) (sg_Host b).
Fixpoint insert_ranked (x : Suggestion) (l : list Suggestion) : list Suggestion :=
  match l with
  | [] => [x]
  | y :: r => if ranks_before y x then y :: insert_ranked x r else x :: l
  end.
Definition SliceStable (l : list Suggestion) : list Suggestion := foldr insert_ranked [] l.

Definition Recommend (iterP iterF : key_order) (iterH : range_order HostPolicy) (entries : list Entry)
    (compiled : PolicyTable) (opts : Options) : list Suggestion :=
  let opts := mkOptions (op_Host opts) (op_Since opts) (if op_MinCount opts <? 1 then 1 else op_MinCount opts) in
  let f := recommend_loop compiled opts entries no_findings in
  SliceStable (buildCmd iterP Promote (fd_promote f) (op_MinCount opts) true
               ++ buildCmd iterF Friction (fd_friction f) (op_MinCount opts) false
               ++ buildDeadRules iterH compiled (fd_used f) opts).
End recommend.

(** ** What the evidence is *)

Section evidence.
Context `{RE : RegexpEngine} `{SP : ShellParser}.

(** The current policy's decision on an entry in scope. *)
Definition judged (compiled : PolicyTable) (opts : Options) (e : Entry) : option decision :=
  if negb (in_scope opts e) then None else
  match compiled !! ae_Host e with
  | None => None
  | Some hp => let d := Decide (hp_Policies hp) (ae_Command e) in match d_err d with Some _ => None | None => Some d end
  end.

(** Entries on a command the current policy does not allow, with an outcome. *)
Definition bears (outcome : string → bool) (compiled : PolicyTable) (opts : Options) (k : key) (e : Entry) : bool :=
  bool_decide ((ae_Host e, ae_Command e) = k) && outcome (ae_Outcome e)
  && match judged compiled opts e with Some d => negb (d_allowed d) | None => false end.
Definition evidence (outcome : string → bool) (compiled : PolicyTable) (opts : Options) (entries : list Entry) (k : key) : list Entry :=
  List.filter (bears outcome compiled opts k) entries.

(** An entry with no approval counts; the entries of one approval count once. *)
Definition unapproved (ev : list Entry) : list Entry := List.filter (fun e => bool_decide (ae_ApprovalID e = "")) ev.
Definition approvals (ev : list Entry) : gset string := list_to_set (map ae_ApprovalID ev) ∖ {[""]}.
Definition support (ev : list Entry) : Z := Z.of_nat (length (unapproved ev)) + Z.of_nat (size (approvals ev)).

Fixpoint counted (seen : gset string) (ev : list Entry) : list Entry :=
  match ev with
  | [] => []
  | e :: ev =>
      if bool_decide (ae_ApprovalID e = "") then e :: counted seen ev
      else if bool_decide (ae_ApprovalID e ∈ seen) then counted seen ev
      else e :: counted ({[ae_ApprovalID e]} ∪ seen) ev
  end.

Record summarises (ev : list Entry) (s : Suggestion) : Prop := mkSummarises {
  sm_count : sg_Count s = support ev;
  sm_callers : sg_Callers s = Z.of_nat (size (list_to_set (map ae_Caller ev) : gset string));
  sm_approved : sg_Approved s = Z.of_nat (length (List.filter (fun e => isApprovalGrant (ae_Outcome e)) (counted ∅ ev)));
  sm_first : sg_FirstSeen s ∈ map ae_Time ev;
  sm_earliest : ∀ e, e ∈ ev → instant (sg_FirstSeen s) ≤ instant (ae_Time e);
  sm_last : sg_LastSeen s ∈ None :: map ae_Time ev;
  sm_latest : ∀ e, e ∈ ev → instant (ae_Time e) ≤ instant (sg_LastSeen s);
}.

(** A rule that decided an entry in scope. *)
Definition decided_by (compiled : PolicyTable) (opts : Options) (entries : list Entry) (host pat : string) : Prop :=
  ∃ e d, e ∈ entries ∧ ae_Host e = host ∧ judged compiled opts e = Some d ∧ (d_rule d = RuleAllow pat ∨ d_rule d = RuleDeny pat).
Definition undecided_rule (compiled : PolicyTable) (opts : Options) (entries : list Entry) (host pat : string) : Prop :=
  (op_Host opts = "" ∨ host = op_Host opts) ∧ (∃ hp, compiled !! host = Some hp ∧ pat ∈ host_patterns hp)
  ∧ ¬ decided_by compiled opts entries host pat.

(** ** Buckets *)

Definition bucket (ev : list Entry) : stat := fold_left (fun s e => observe e (isApprovalGrant (ae_Outcome e)) s) ev zero_stat.

Lemma bucket_snoc ev e : bucket (ev ++ [e]) = observe e (isApprovalGrant (ae_Outcome e)) (bucket ev).
Proof. unfold bucket. by rewrite fold_left_app. Qed.

Lemma approvals_elem i ev : i ∈ approvals ev ↔ i ∈ map ae_ApprovalID ev ∧ i ≠ "".
Proof. unfold approvals. rewrite elem_of_difference, elem_of_list_to_set, elem_of_singleton. done. Qed.
Lemma approvals_app ev ev' : approvals (ev ++ ev') = approvals ev ∪ approvals ev'.
Proof. apply set_eq; intros i. rewrite elem_of_union, !approvals_elem, map_app, elem_of_app. tauto. Qed.
Lemma approvals_one e : approvals [e] = if bool_decide (ae_ApprovalID e = "") then ∅ else {[ae_ApprovalID e]}.
Proof.
  apply set_eq; intros i. rewrite approvals_elem. cbn [map].
  case_bool_decide as H; rewrite ?H, ?elem_of_singleton; [set_solver|].
  split; [set_solver|by intros ->; split; [left|]].
Qed.

Lemma counted_snoc ev e : ∀ seen, counted seen (ev ++ [e]) =
  counted seen ev ++ if bool_decide (ae_ApprovalID e = "") then [e]
                     else if bool_decide (ae_ApprovalID e ∈ seen ∪ approvals ev) then [] else [e].
Proof.
  induction ev as [|x ev IH]; intros seen; cbn [app counted].
  - replace (approvals []) with (∅ : gset string) by done. rewrite union_empty_r_L. by repeat case_bool_decide.
  - change (x :: ev) with ([x] ++ ev). rewrite approvals_app, approvals_one, assoc_L by apply _.
    repeat case_bool_decide; rewrite ?IH; cbn [app]; repeat case_bool_decide; try done; exfalso; rewrite !elem_of_union in *; rewrite ?elem_of_singleton, ?elem_of_empty in *; intuition congruence.
Qed.

Lemma approvals_snoc ev e :
  approvals (ev ++ [e]) = if bool_decide (ae_ApprovalID e = "") then approvals ev else {[ae_ApprovalID e]} ∪ approvals ev.
Proof. rewrite approvals_app, approvals_one. case_bool_decide; [apply union_empty_r_L|apply union_comm_L]. Qed.

Lemma support_snoc ev e :
  support (ev ++ [e]) = support ev +
    if bool_decide (ae_ApprovalID e = "") then 1 else if bool_decide (ae_ApprovalID e ∈ approvals ev) then 0 else 1.
Proof.
  unfold support, unapproved. rewrite List.filter_app, length_app, approvals_snoc. cbn [List.filter].
  case_bool_decide; cbn [length]; [lia|]. case_bool_decide as Hin.
  - replace ({[ae_ApprovalID e]} ∪ approvals ev) with (approvals ev) by set_solver. lia.
  - rewrite size_union, size_singleton by set_solver. lia.
Qed.

(** The bucket of one command. *)
Record bucket_spec (cmd : string) (ev : list Entry) (s : stat) : Prop := mkBucketSpec {
  bs_count : st_count s = support ev;
  bs_approved : st_approved s = Z.of_nat (length (List.filter (fun e => isApprovalGrant (ae_Outcome e)) (counted ∅ ev)));
  bs_callers : st_callers s = Some (list_to_set (map ae_Caller ev));
  bs_seen : st_seenApprovals s = approvals ev;
  bs_first : st_first s ∈ map ae_Time ev;
  bs_earliest : ∀ e, e ∈ ev → instant (st_first s) ≤ instant (ae_Time e);
  bs_last : st_last s ∈ None :: map ae_Time ev;
  bs_latest : ∀ e, e ∈ ev → instant (ae_Time e) ≤ instant (st_last s);
  bs_samples : st_samples s = [cmd];
}.

Lemma observe_first e approved :
  observe e approved zero_stat =
  seen_again e (mkStat 1 (if approved then 1 else 0) (Some ∅) (if bool_decide (ae_ApprovalID e = "") then ∅ else {[ae_ApprovalID e]})
                  (ae_Time e) None []).
Proof.
  unfold observe. cbn [zero_stat st_callers st_seenApprovals st_count st_approved st_first st_last st_samples].
  rewrite (bool_decide_eq_false_2 (ae_ApprovalID e ∈ ∅)) by set_solver. rewrite andb_false_r.
  do 2 f_equal; case_bool_decide; set_solver.
Qed.

Lemma observe_next cmd ev s e approved :
  bucket_spec cmd ev s →
  observe e approved s =
  seen_again e
    (if negb (bool_decide (ae_ApprovalID e = "")) && bool_decide (ae_ApprovalID e ∈ approvals ev) then s
     else mkStat (st_count s + 1) (st_approved s + if approved then 1 else 0) (st_callers s) (approvals (ev ++ [e]))
            (st_first s) (st_last s) (st_samples s)).
Proof.
  intros H. unfold observe. rewrite (bs_callers _ _ _ H), (bs_seen _ _ _ H), approvals_snoc, <- (bs_callers _ _ _ H).
  by destruct (_ && _).
Qed.

Lemma if_same {A : Type} (b : bool) (x : A) : (if b then x else x) = x.
Proof. by destruct b. Qed.

Lemma bucket_once cmd e : ae_Command e = cmd → bucket_spec cmd [e] (bucket [e]).
Proof.
  intros Hc. unfold bucket. cbn [fold_left]. rewrite observe_first.
  unfold seen_again, addSample, bumpTimes, add_caller. cbn.
  split; cbn; rewrite ?Hc; try done.
  - unfold support, unapproved. rewrite approvals_one. cbn. case_bool_decide; cbn; [done|by rewrite size_singleton].
  - rewrite (bool_decide_eq_false_2 (ae_ApprovalID e ∈ _)) by set_solver.
    replace (if bool_decide (ae_ApprovalID e = "") then [e] else [e]) with [e] by by case_bool_decide.
    cbn. by destruct (isApprovalGrant _).
  - by rewrite approvals_one.
  - rewrite if_same. by left.
  - intros x ->%list_elem_of_singleton. by rewrite if_same.
  - destruct (Before _ _); [right|]; by left.
  - intros x ->%list_elem_of_singleton. fold (instant (if Before None (ae_Time e) then ae_Time e else None)).
    unfold Before. destruct (Z.ltb_spec (instant None) (instant (ae_Time e))); lia.
Qed.

Lemma bucket_next cmd ev s e :
  bucket_spec cmd ev s → ae_Command e = cmd → bucket_spec cmd (ev ++ [e]) (observe e (isApprovalGrant (ae_Outcome e)) s).
Proof.
  intros H Hc. rewrite (observe_next _ _ _ _ _ H).
  assert (∀ t t', st_callers t = st_callers s → st_first t = st_first s → st_last t = st_last s → st_samples t = st_samples s →
    t' = seen_again e t →
    st_callers t' = Some (list_to_set (map ae_Caller (ev ++ [e]))) ∧ st_first t' ∈ map ae_Time (ev ++ [e]) ∧
    (∀ x, x ∈ ev ++ [e] → instant (st_first t') ≤ instant (ae_Time x)) ∧ st_last t' ∈ None :: map ae_Time (ev ++ [e]) ∧
    (∀ x, x ∈ ev ++ [e] → instant (ae_Time x) ≤ instant (st_last t')) ∧ st_samples t' = [cmd] ∧
    st_count t' = st_count t ∧ st_approved t' = st_approved t ∧ st_seenApprovals t' = st_seenApprovals t) as Hrest.
  { intros t t' Ec Ef El Es ->. unfold seen_again, addSample, bumpTimes, add_caller. cbn [st_callers st_first st_last st_samples st_count st_approved st_seenApprovals].
    rewrite Ec, Ef, El, Es, (bs_callers _ _ _ H), (bs_samples _ _ _ H), Hc. cbn [length default].
    rewrite (bool_decide_eq_true_2 (cmd ∈ [cmd])) by by left. rewrite andb_false_r.
    pose proof (bs_first _ _ _ H) as Hf. pose proof (bs_last _ _ _ H) as Hl.
    split_and!; try done.
    - rewrite map_app, list_to_set_app_L. cbn. f_equal. set_solver.
    - rewrite map_app, elem_of_app. destruct (Before _ _); [right; by left|by left].
    - intros x [Hx|Hx%list_elem_of_singleton]%elem_of_app.
      + pose proof (bs_earliest _ _ _ H x Hx). unfold Before. destruct (Z.ltb_spec (instant (ae_Time e)) (instant (st_first s))); lia.
      + subst x. unfold Before. destruct (Z.ltb_spec (instant (ae_Time e)) (instant (st_first s))); lia.
    - rewrite map_app. destruct (Before _ _); set_solver.
    - intros x [Hx|Hx%list_elem_of_singleton]%elem_of_app.
      + pose proof (bs_latest _ _ _ H x Hx). unfold Before. destruct (Z.ltb_spec (instant (st_last s)) (instant (ae_Time e))); lia.
      + subst x. unfold Before. destruct (Z.ltb_spec (instant (st_last s)) (instant (ae_Time e))); lia. }
  pose proof (counted_snoc ev e ∅) as Hcs. rewrite union_empty_l_L in Hcs.
  case_bool_decide as Hid; [|case_bool_decide as Hin]; cbn [negb andb];
    (edestruct Hrest as (? & ? & ? & ? & ? & ? & Rc & Ra & Rs); [..|reflexivity|]; [done..|];
     split; try done; rewrite ?Rc, ?Ra, ?Rs, ?support_snoc, ?Hcs, ?List.filter_app, ?length_app, ?approvals_snoc; cbn;
     rewrite ?(bs_count _ _ _ H), ?(bs_approved _ _ _ H), ?(bs_seen _ _ _ H); repeat case_bool_decide; try done; cbn;
     try (destruct (isApprovalGrant _); cbn); try lia; set_solver).
Qed.

Lemma bucket_exact cmd ev : ev ≠ [] → Forall (fun e => ae_Command e = cmd) ev → bucket_spec cmd ev (bucket ev).
Proof.
  induction ev as [|e ev IH] using rev_ind; [done|]. intros _ [Hev He]%Forall_app. rewrite Forall_singleton in He.
  destruct ev as [|x ev]; [exact (bucket_once cmd e He)|].
  rewrite bucket_snoc. apply bucket_next; [by apply IH|done].
Qed.

(** ** The loop over the entries *)

Definition bucket_of (ev : list Entry) : option stat := match ev with [] => None | _ => Some (bucket ev) end.

Lemma ran_not_refused o : refused o = true → ran o = false.
Proof.
  unfold refused. intros H%bool_decide_eq_true_1. unfold ran, isApprovalGrant.
  rewrite !bool_decide_eq_false_2 by (repeat (apply list_elem_of_cons in H as [->|H]); set_solver). done.
Qed.

Lemma evidence_snoc outcome compiled opts entries e k :
  evidence outcome compiled opts (entries ++ [e]) k =
  evidence outcome compiled opts entries k ++ if bears outcome compiled opts k e then [e] else [].
Proof. unfold evidence. rewrite List.filter_app. by cbn; destruct (bears _ _ _ _ _). Qed.

Lemma bucket_of_snoc ev e : bucket_of (ev ++ [e]) = Some (observe e (isApprovalGrant (ae_Outcome e)) (default zero_stat (bucket_of ev))).
Proof. unfold bucket_of. destruct ev as [|x ev]; [done|]. cbn [app]. change (x :: ev ++ [e]) with ((x :: ev) ++ [e]). by rewrite bucket_snoc. Qed.

Lemma recommend_entry_judged compiled opts f e :
  recommend_entry compiled opts f e =
  match judged compiled opts e with
  | None => f
  | Some d =>
      let used := use_rule (ae_Host e) (d_rule d) (fd_used f) in
      let k := (ae_Host e, ae_Command e) in
      if negb (d_allowed d) && ran (ae_Outcome e)
      then mkFindings (<[k := observe e (isApprovalGrant (ae_Outcome e)) (at_key (fd_promote f) k)]> (fd_promote f)) (fd_friction f) used
      else if negb (d_allowed d) && refused (ae_Outcome e)
      then mkFindings (fd_promote f) (<[k := observe e (isApprovalGrant (ae_Outcome e)) (at_key (fd_friction f) k)]> (fd_friction f)) used
      else mkFindings (fd_promote f) (fd_friction f) used
  end.
Proof.
  unfold recommend_entry, judged. destruct (in_scope opts e); [|done]. cbn [negb].
  destruct (compiled !! ae_Host e); [|done]. by destruct (d_err _).
Qed.

(** A bucket map after an entry that bears on it, and after one that does not. *)
Lemma bucket_insert (outcome : string → bool) (compiled : PolicyTable) (opts : Options) (entries : list Entry) (m : gmap (string * string) stat) (e : Entry) :
  (∀ k : string * string, m !! k = bucket_of (evidence outcome compiled opts entries k)) →
  bears outcome compiled opts (ae_Host e, ae_Command e) e = true → ∀ k : string * string,
  (<[(ae_Host e, ae_Command e) := observe e (isApprovalGrant (ae_Outcome e)) (at_key m (ae_Host e, ae_Command e))]> m) !! k =
  bucket_of (evidence outcome compiled opts (entries ++ [e]) k).
Proof.
  intros Hm Hb k. rewrite evidence_snoc. destruct (decide ((ae_Host e, ae_Command e) = k)) as [<-|Hk].
  - rewrite lookup_insert_eq, Hb, bucket_of_snoc. unfold at_key. by rewrite Hm.
  - rewrite lookup_insert_ne, Hm by done. unfold bears. rewrite bool_decide_eq_false_2 by done. cbn. by rewrite app_nil_r.
Qed.
Lemma bucket_skip (outcome : string → bool) (compiled : PolicyTable) (opts : Options) (entries : list Entry) (m : gmap (string * string) stat) (e : Entry) :
  (∀ k : string * string, m !! k = bucket_of (evidence outcome compiled opts entries k)) →
  bears outcome compiled opts (ae_Host e, ae_Command e) e = false → ∀ k : string * string,
  m !! k = bucket_of (evidence outcome compiled opts (entries ++ [e]) k).
Proof.
  intros Hm Hb k. rewrite evidence_snoc, Hm.
  destruct (bears _ _ _ k e) eqn:Hk; [|by rewrite app_nil_r].
  unfold bears in Hk. apply andb_true_iff in Hk as [[<-%bool_decide_eq_true_1 ?]%andb_true_iff ?].
  unfold bears in Hb. rewrite bool_decide_eq_true_2 in Hb by done. cbn in Hb.
  by rewrite H, H0 in Hb.
Qed.

Lemma use_rule_elem host r used h pat :
  (h, pat) ∈ use_rule host r used ↔ (h, pat) ∈ used ∨ (h = host ∧ (r = RuleAllow pat ∨ r = RuleDeny pat)).
Proof. unfold use_rule. destruct r; cbn; set_solver. Qed.

Lemma decided_by_snoc compiled opts entries e h pat :
  decided_by compiled opts (entries ++ [e]) h pat ↔
  decided_by compiled opts entries h pat ∨
  (h = ae_Host e ∧ ∃ d, judged compiled opts e = Some d ∧ (d_rule d = RuleAllow pat ∨ d_rule d = RuleDeny pat)).
Proof.
  unfold decided_by. split.
  - intros (x & d & Hx & Hh & Hj & Hr). rewrite elem_of_app, list_elem_of_singleton in Hx.
    destruct Hx as [Hx| ->]; [left; exists x, d; done|]. right. split; [done|]. eauto.
  - intros [(x & d & Hx & Hh & Hj & Hr)|(-> & d & Hj & Hr)]; [exists x, d|exists e, d]; rewrite elem_of_app, list_elem_of_singleton; eauto.
Qed.

(** What the loop has gathered. *)
Record gathered (compiled : PolicyTable) (opts : Options) (entries : list Entry) (f : findings) : Prop := mkGathered {
  ga_promote : ∀ k : string * string, fd_promote f !! k = bucket_of (evidence ran compiled opts entries k);
  ga_friction : ∀ k : string * string, fd_friction f !! k = bucket_of (evidence refused compiled opts entries k);
  ga_used : ∀ host pat, (host, pat) ∈ fd_used f ↔ decided_by compiled opts entries host pat;
}.

Lemma bears_own outcome compiled opts e :
  bears outcome compiled opts (ae_Host e, ae_Command e) e =
  outcome (ae_Outcome e) && match judged compiled opts e with Some d => negb (d_allowed d) | None => false end.
Proof. unfold bears. by rewrite bool_decide_eq_true_2. Qed.

Lemma recommend_entry_gathered compiled opts entries f e :
  gathered compiled opts entries f → gathered compiled opts (entries ++ [e]) (recommend_entry compiled opts f e).
Proof.
  intros [Hp Hf Hu]. rewrite recommend_entry_judged.
  pose proof (bears_own ran compiled opts e) as Br. pose proof (bears_own refused compiled opts e) as Bf.
  pose proof (ran_not_refused (ae_Outcome e)) as Hd.
  assert (∀ used : gset (string * string), (∀ host pat, (host, pat) ∈ used ↔
      (host, pat) ∈ fd_used f ∨ (host = ae_Host e ∧ ∃ d, judged compiled opts e = Some d ∧ (d_rule d = RuleAllow pat ∨ d_rule d = RuleDeny pat))) →
      ∀ host pat, (host, pat) ∈ used ↔ decided_by compiled opts (entries ++ [e]) host pat) as HU.
  { intros used H host pat. by rewrite H, decided_by_snoc, Hu. }
  destruct (judged compiled opts e) as [d|].
  - cbv zeta. assert (∀ host pat, (host, pat) ∈ use_rule (ae_Host e) (d_rule d) (fd_used f) ↔ decided_by compiled opts (entries ++ [e]) host pat) as HU'.
    { apply HU. intros host pat. rewrite use_rule_elem. naive_solver. }
    destruct (d_allowed d), (ran (ae_Outcome e)) eqn:Er, (refused (ae_Outcome e)) eqn:Ef; cbn [negb andb] in *; try (by specialize (Hd eq_refl));
      split; cbn [fd_promote fd_friction fd_used]; try done; eauto using bucket_insert, bucket_skip.
  - rewrite andb_false_r in Br, Bf. split; eauto using bucket_skip. apply HU. naive_solver.
Qed.

Lemma recommend_loop_gathered compiled opts entries : gathered compiled opts entries (recommend_loop compiled opts entries no_findings).
Proof.
  induction entries as [|e entries IH] using rev_ind.
  - split; [done..|]. intros host pat. split; [set_solver|]. by intros (e & d & He%not_elem_of_nil & _).
  - unfold recommend_loop. rewrite fold_left_app. cbn [fold_left]. by apply recommend_entry_gathered.
Qed.

Lemma evidence_command outcome compiled opts entries host cmd :
  Forall (fun e => ae_Command e = cmd) (evidence outcome compiled opts entries (host, cmd)).
Proof.
  apply Forall_forall. intros e [_ He]%list_elem_of_In%filter_In. unfold bears in He.
  apply andb_true_iff in He as [[[=]%bool_decide_eq_true_1 _]%andb_true_iff _]. done.
Qed.

(** The suggestion of a bucket. *)
Lemma cmd_suggestion_spec t anchor outcome compiled opts entries host cmd :
  evidence outcome compiled opts entries (host, cmd) ≠ [] →
  let s := cmd_suggestion t anchor ((host, cmd), bucket (evidence outcome compiled opts entries (host, cmd))) in
  summarises (evidence outcome compiled opts entries (host, cmd)) s ∧ sg_Samples s = [cmd].
Proof.
  intros Hne. pose proof (bucket_exact cmd _ Hne (evidence_command _ _ _ _ _ _)) as [B1 B2 B3 B4 B5 B6 B7 B8 B9].
  cbv zeta. split; [split|]; cbn [cmd_suggestion sg_Count sg_Callers sg_Approved sg_FirstSeen sg_LastSeen sg_Samples]; rewrite ?B3; done.
Qed.

(** ** The ranking *)

Definition ranked (a b : Suggestion) : Prop := ranks_before b a = false.

Lemma ranked_spec a b : ranked a b ↔ sg_Count b < sg_Count a ∨ (sg_Count a = sg_Count b ∧ str_ltb (sg_Host b) (sg_Host a) = false).
Proof.
  unfold ranked, ranks_before. case_bool_decide as H; [rewrite Z.ltb_ge; split; [intros ?; left; lia|intros [?|[? _]]; lia]|].
  split; [by right|]. intros [?|[_ ?]]; [lia|done].
Qed.
Lemma str_le_trans a b c : str_ltb b a = false → str_ltb c b = false → str_ltb c a = false.
Proof.
  intros H1 H2. apply not_true_iff_false. intros H3.
  destruct (str_ltb a b) eqn:H4; [by rewrite (str_ltb_trans _ _ _ H3 H4) in H2|].
  by rewrite (str_ltb_total _ _ H4 H1), H2 in H3.
Qed.
#[local] Instance ranked_trans : Transitive ranked.
Proof.
  intros a b c. rewrite !ranked_spec. intros [?|[? ?]] [?|[? ?]]; [left; lia..|]. right. split; [lia|]. by eapply str_le_trans.
Qed.
Lemma ranked_total a b : ranks_before a b = true → ranked a b.
Proof.
  unfold ranked, ranks_before. rewrite (bool_decide_ext (sg_Count b ≠ sg_Count a) (sg_Count a ≠ sg_Count b)) by lia.
  case_bool_decide; [rewrite Z.ltb_lt, Z.ltb_ge; lia|apply str_ltb_asym].
Qed.

Lemma insert_ranked_perm x l : insert_ranked x l ≡ₚ x :: l.
Proof. induction l as [|y l IH]; [done|]. cbn. destruct (ranks_before y x); [|done]. rewrite IH. apply Permutation_swap. Qed.
Lemma insert_ranked_sorted x l : Sorted ranked l → Sorted ranked (insert_ranked x l).
Proof.
  induction 1 as [|y l Hl IH Hy]; [by repeat constructor|]. cbn. destruct (ranks_before y x) eqn:E.
  - constructor; [done|]. destruct l as [|z l]; cbn; [constructor; by apply ranked_total|].
    inversion Hy; subst. destruct (ranks_before z x); constructor; [done|by apply ranked_total].
  - constructor; [by constructor|]. by constructor.
Qed.
Lemma SliceStable_perm l : SliceStable l ≡ₚ l.
Proof. induction l as [|x l IH]; [done|]. cbn. by rewrite insert_ranked_perm, IH. Qed.
Lemma SliceStable_sorted l : StronglySorted ranked (SliceStable l).
Proof. apply Sorted_StronglySorted; [apply ranked_trans|]. induction l as [|x l IH]; [constructor|]. by apply insert_ranked_sorted. Qed.

Class KeyOrder (iter : key_order) : Prop := key_order_perm : ∀ m, iter m ≡ₚ map_to_list m.

Lemma buildCmd_elem iter `{!KeyOrder iter} t m minCount anchor s :
  s ∈ buildCmd iter t m minCount anchor ↔
  ∃ host cmd b, m !! (host, cmd) = Some b ∧ minCount ≤ st_count b ∧ s = cmd_suggestion t anchor ((host, cmd), b).
Proof.
  unfold buildCmd. rewrite list_elem_of_In, in_map_iff. split.
  - intros ([[host cmd] b] & <- & [Hin Hc%negb_true_iff%Z.ltb_ge]%filter_In). rewrite <-list_elem_of_In, (key_order_perm m), elem_of_map_to_list in Hin.
    by exists host, cmd, b.
  - intros (host & cmd & b & Hm & Hc & ->). exists ((host, cmd), b). split; [done|]. apply filter_In.
    rewrite <-list_elem_of_In, (key_order_perm m), elem_of_map_to_list. split; [done|]. by apply negb_true_iff, Z.ltb_ge.
Qed.

Lemma buildDeadRules_elem (iter : range_order HostPolicy) `{!RangeOrder iter} compiled used opts s :
  s ∈ buildDeadRules iter compiled used opts ↔
  ∃ host pat hp, s = dead_rule host pat ∧ compiled !! host = Some hp ∧ pat ∈ host_patterns hp ∧ ((host, pat) ∉ used) ∧
                 (op_Host opts = "" ∨ host = op_Host opts).
Proof.
  unfold buildDeadRules. rewrite list_elem_of_In, in_flat_map. split.
  - intros ([host hp] & Hin & Hs). apply list_elem_of_In, (range_elem iter) in Hin.
    destruct (bool_decide (op_Host opts ≠ "") && bool_decide (host ≠ op_Host opts)) eqn:E; [done|].
    apply in_map_iff in Hs as (pat & <- & [Hp Hu%negb_true_iff%bool_decide_eq_false_1]%filter_In).
    rewrite <-list_elem_of_In in Hp. exists host, pat, hp. split_and!; try done.
    apply andb_false_iff in E as [E%bool_decide_eq_false_1|E%bool_decide_eq_false_1]; [left|right]; by apply dec_stable.
  - intros (host & pat & hp & -> & Hc & Hp & Hu & Ho). exists (host, hp). split; [by apply list_elem_of_In, (range_elem iter)|].
    assert (bool_decide (op_Host opts ≠ "") && bool_decide (host ≠ op_Host opts) = false) as ->.
    { apply andb_false_iff. destruct Ho; [left|right]; by apply bool_decide_eq_false_2; intros ?. }
    apply in_map. apply filter_In. rewrite <-list_elem_of_In. split; [done|]. by apply negb_true_iff, bool_decide_eq_false_2.
Qed.

(** ** The recommendations *)

Definition min_support (opts : Options) : Z := Z.max 1 (op_MinCount opts).

(** A command suggestion with the support it needs. *)
Definition supported (t : SuggestionType) (pattern : string → string) (outcome : string → bool) (compiled : PolicyTable)
    (opts : Options) (entries : list Entry) (host cmd : string) (s : Suggestion) : Prop :=
  let ev := evidence outcome compiled opts entries (host, cmd) in
  sg_Type s = t ∧ sg_Host s = host ∧ sg_Pattern s = pattern cmd ∧ sg_Samples s = [cmd] ∧
  min_support opts ≤ support ev ∧ summarises ev s.
Definition anchored (cmd : string) : string := "^" +:+ QuoteMeta cmd +:+ "$".

Lemma buildCmd_supported (iter : key_order) `{!KeyOrder iter} t (anchor : bool) outcome compiled opts opts' entries m :
  (∀ k : string * string, m !! k = bucket_of (evidence outcome compiled opts entries k)) → min_support opts' = min_support opts →
  (∀ s, s ∈ buildCmd iter t m (min_support opts') anchor →
     ∃ host cmd, supported t (if anchor then anchored else id) outcome compiled opts entries host cmd s) ∧
  (∀ host cmd, min_support opts ≤ support (evidence outcome compiled opts entries (host, cmd)) →
     ∃ s, s ∈ buildCmd iter t m (min_support opts') anchor ∧
       supported t (if anchor then anchored else id) outcome compiled opts entries host cmd s).
Proof.
  intros Hm ->.
  assert (∀ host cmd, let ev := evidence outcome compiled opts entries (host, cmd) in ev ≠ [] → min_support opts ≤ st_count (bucket ev) →
    supported t (if anchor then anchored else id) outcome compiled opts entries host cmd (cmd_suggestion t anchor ((host, cmd), bucket ev))) as Hs.
  { intros host cmd ev Hne Hc. pose proof (cmd_suggestion_spec t anchor outcome compiled opts entries host cmd Hne) as [S1 S2].
    rewrite (bs_count _ _ _ (bucket_exact cmd _ Hne (evidence_command _ _ _ _ _ _))) in Hc.
    unfold supported. split_and!; try done. cbn. by destruct anchor. }
  split.
  - intros s (host & cmd & b & Hb & Hc & ->)%buildCmd_elem; [|done]. rewrite Hm in Hb. unfold bucket_of in Hb.
    exists host, cmd. destruct (evidence _ _ _ _ _) as [|e ev] eqn:E; [done|]. injection Hb as <-.
    rewrite <-E in Hc |- *. apply Hs; [by rewrite E|done].
  - intros host cmd Hc. destruct (evidence outcome compiled opts entries (host, cmd)) as [|e ev] eqn:E.
    { change (support []) with 0 in Hc. unfold min_support in Hc. lia. }
    assert (evidence outcome compiled opts entries (host, cmd) ≠ []) as Hne by by rewrite E.
    assert (min_support opts ≤ st_count (bucket (evidence outcome compiled opts entries (host, cmd)))) as Hc'.
    { by rewrite (bs_count _ _ _ (bucket_exact cmd _ Hne (evidence_command _ _ _ _ _ _))), E. }
    eexists. split; [apply buildCmd_elem; [done|]; exists host, cmd; eexists; split_and!; [|exact Hc'|reflexivity]|by apply Hs].
    by rewrite Hm, E.
Qed.

Lemma evidence_opts outcome compiled h since c c' entries k :
  evidence outcome compiled (mkOptions h since c) entries k = evidence outcome compiled (mkOptions h since c') entries k.
Proof. done. Qed.

(** The recommender suggests exactly what the log supports. Its output is
    ordered by support and then host. Every suggestion to allow a command names a
    command that ran or was approved although the current policy does not allow
    it, at least as often as asked, every suggestion of friction one that was
    refused, and every dead rule one that decided no entry in scope; the counts
    take the two records of one approval for one. Conversely every such command
    and every such rule is suggested. *)
Theorem recommend_exact (iterP iterF : key_order) (iterH : range_order HostPolicy) `{!KeyOrder iterP} `{!KeyOrder iterF}
    `{!RangeOrder iterH} entries compiled opts :
  let out := Recommend iterP iterF iterH entries compiled opts in
  StronglySorted ranked out ∧
  (∀ s, s ∈ out →
     (∃ host cmd, supported Promote anchored ran compiled opts entries host cmd s) ∨
     (∃ host cmd, supported Friction id refused compiled opts entries host cmd s) ∨
     (∃ host pat, s = dead_rule host pat ∧ undecided_rule compiled opts entries host pat)) ∧
  (∀ host cmd, min_support opts ≤ support (evidence ran compiled opts entries (host, cmd)) →
     ∃ s, s ∈ out ∧ supported Promote anchored ran compiled opts entries host cmd s) ∧
  (∀ host cmd, min_support opts ≤ support (evidence refused compiled opts entries (host, cmd)) →
     ∃ s, s ∈ out ∧ supported Friction id refused compiled opts entries host cmd s) ∧
  (∀ host pat, undecided_rule compiled opts entries host pat → dead_rule host pat ∈ out).
Proof.
  unfold Recommend. cbv zeta. set (o := mkOptions _ _ _).
  assert (op_MinCount o = min_support opts) as Ho.
  { unfold o, min_support. cbn. destruct (Z.ltb_spec (op_MinCount opts) 1); lia. }
  assert (min_support o = min_support opts) as Hmo by (unfold min_support; rewrite Ho; unfold min_support; lia).
  destruct (recommend_loop_gathered compiled o entries) as [Gp Gf Gu].
  destruct opts as [h since c]. change (∀ k : string * string, fd_promote (recommend_loop compiled o entries no_findings) !! k = bucket_of (evidence ran compiled (mkOptions h since c) entries k)) in Gp.
  change (∀ k : string * string, fd_friction (recommend_loop compiled o entries no_findings) !! k = bucket_of (evidence refused compiled (mkOptions h since c) entries k)) in Gf.
  destruct (buildCmd_supported iterP Promote true _ _ _ o _ _ Gp Hmo) as [P1 P2].
  destruct (buildCmd_supported iterF Friction false _ _ _ o _ _ Gf Hmo) as [F1 F2].
  rewrite Ho, <- Hmo. split; [apply SliceStable_sorted|].
  setoid_rewrite SliceStable_perm. setoid_rewrite elem_of_app. setoid_rewrite elem_of_app.
  pose proof (buildDeadRules_elem iterH) as HD. setoid_rewrite HD. setoid_rewrite Gu. split_and!.
  - intros s [Hs|[Hs|(host & pat & hp & -> & Hh & Hp & Hu & Hf)]]; [left; eauto|right; left; eauto|right; right].
    exists host, pat. split; [done|]. split; [done|]. split; [by exists hp|done].
  - intros host cmd Hs. destruct (P2 host cmd) as (s & ? & ?); [by rewrite <- Hmo|]. eauto.
  - intros host cmd Hs. destruct (F2 host cmd) as (s & ? & ?); [by rewrite <- Hmo|]. eauto.
  - intros host pat (Hf & (hp & Hh & Hp) & Hu). right. right. exists host, pat, hp. done.
Qed.
End evidence.

(** ** A log *)

#[export] Instance map_to_list_keys : KeyOrder (@map_to_list (string * string) stat (gmap (string * string) stat) _).
Proof. by intros m. Qed.

(** A parser for sequences of plain commands. *)
Definition sequence_parser : ShellParser := {|
  sh_Parse s := Some (map (fun c => mkStmt false false false (Some (CallExpr [] (map (fun w => [Lit w]) (Fields c)))) []) (Split s ";"%char));
  expand_Literal w := Some (Join (map lit_value w) "");
|}.

Definition log_entry (at_ : Z) (caller cmd outcome approval : string) : Entry :=
  mkEntry (Some at_) caller "web1" "deploy" "" cmd "" 0 "" "" "" "" outcome 0 "" "" false "" false "" approval "" "" "" 0 "" "".
Definition rec_table : PolicyTable :=
  {["web1" := set_Policies [mkCommandPolicy CmdPolicyAllowlist "" ["uptime"; "df"] [] [] None] zero_host]}.
Definition rec_log : list Entry :=
  [log_entry 10 "agent" "uptime;df" "executed" "";
   log_entry 20 "agent" "id" "approval-decision-allow" "a1"; log_entry 30 "agent" "id" "approval-granted" "a1";
   log_entry 40 "other" "id" "executed" ""; log_entry 50 "agent" "reboot" "denied" ""].
Definition rec_run : list Suggestion :=
  @Recommend prefix_engine sequence_parser map_to_list map_to_list map_to_list rec_log rec_table (mkOptions "" None 0).

Example rec_run_ranked :
  map (fun s => (sg_Type s, sg_Pattern s, sg_Count s, sg_Callers s, sg_Approved s)) rec_run =
  [(Promote, "^id$", 2, 2, 1); (Friction, "reboot", 1, 1, 0); (DeadRule, "uptime", 0, 0, 0)].
Proof. vm_compute. reflexivity. Qed.

Lemma recommend_exact_witness :
  ∃ s, s ∈ rec_run ∧ sg_Type s = Promote ∧ sg_Pattern s = "^id$" ∧ sg_Count s = 2.
Proof.
  destruct (@recommend_exact prefix_engine sequence_parser map_to_list map_to_list map_to_list _ _ _
              rec_log rec_table (mkOptions "" None 0)) as (_ & _ & Hp & _).
  destruct (Hp "web1" "id") as (s & Hs & Ht & _ & Hpat & _ & _ & Hsum); [vm_compute; discriminate|].
  exists s. split; [exact Hs|]. split; [exact Ht|]. split; [exact Hpat|]. rewrite (sm_count _ _ Hsum). vm_compute. reflexivity.
Defined.

(** A rule can be in use and be called dead: on a line of several commands
    [Decide] names the rule of the last one only, so the rule that allowed the
    first is suggested for removal, and without it the line is refused. *)
Theorem live_rule_called_dead :
  dead_rule "web1" "uptime" ∈ rec_run ∧
  verdict_of (@Decide prefix_engine sequence_parser [mkCommandPolicy CmdPolicyAllowlist "" ["uptime"; "df"] [] [] None] "uptime;df") = VAllow ∧
  verdict_of (@Decide prefix_engine sequence_parser [mkCommandPolicy CmdPolicyAllowlist "" ["df"] [] [] None] "uptime;df") = VDeny.
Proof. split_and!; [|vm_compute; reflexivity..]. apply list_elem_of_In. vm_compute. do 2 right. by left. Qed.
