(* ===== verification/Mcp.v ===== *)
(** * The tools offered to the model

    [internal/mcpserver]: the handlers of the SSH, session, file and Kubernetes
    tools over the engine, with the in-conversation approval of [ssh_execute],
    the listings of hosts and clusters, and the texts shown for errors. A handler
    is a program over the engine's calls; the caller is the one the frontend
    derived from the connection or the token. *)

From S2P Require Import Prelude GoStrings CmdPolicy PolicySet Encoding K8sAction Intent Crypto CA HostPolicy Signer Sessions Prog Broker Engine EngineSessions EngineFiles EngineK8s AuditTime AuditEntry.

(** ** Listings *)

Record ServerInfo := mkServerInfo { si_Name : string; si_AllowSudo : bool; si_AllowPTY : bool; si_AllowFileTransfer : bool; si_Jump : string }.

Definition visible (groups : list string) (c : Caller) : bool :=
  match who_Groups c with None => true | Some gs => GroupsIntersect groups gs end.

(** [sort.Slice] by name; the names of a map are distinct. *)
Fixpoint insert_named {A : Type} (name : A → string) (x : A) (l : list A) : list A :=
  match l with
  | [] => [x]
  | y :: r => if str_ltb (name y) (name x) then y :: insert_named name x r else x :: l
  end.
Definition sort_named {A : Type} (name : A → string) (l : list A) : list A := foldr (insert_named name) [] l.

Definition server_info (name : string) (h : HostInfo) : ServerInfo :=
  mkServerInfo name (hi_AllowSudo h) (hi_AllowPTY h) (hi_AllowFileTransfer h) (hi_Jump h).
(** [ServerInfos]: of the cache in remote mode, of the configuration otherwise. *)
Definition ServerInfos (iterR : range_order HostInfo) (iterL : range_order HostConfig) (e : Engine) (hosts : gmap string HostInfo)
    (c : Caller) : list ServerInfo :=
  sort_named si_Name
    (if e_remote e
     then map (fun kv => server_info kv.1 kv.2) (List.filter (fun kv => visible (hi_Groups kv.2) c) (iterR hosts))
     else map (fun kv => server_info kv.1 (local_info kv.2)) (List.filter (fun kv => visible (hc_Groups kv.2) c) (iterL (e_Hosts e)))).

Definition K8sClusters (iter : range_order ClusterInfo) (clusters : gmap string ClusterInfo) (c : Caller) : list string :=
  sort_named id (map fst (List.filter (fun kv => visible (ci_Groups kv.2) c) (iter clusters))).
Definition HasK8sClusters (iter : range_order ClusterInfo) (clusters : gmap string ClusterInfo) : bool :=
  (0 <? length (K8sClusters iter clusters (mkCaller "" None "" "")))%nat.

(** ** Replies *)

(** What the model is told when a tool fails. *)
Inductive tool_message :=
| MInput (e : input_error)
| MUpstream
| MEngine (e : engine_error)
| MDeclined (command server : string)
| MNeedsApproval (tool host runsAs : string) (rule : matched_rule)
| MClusterApproval (cluster : string) (rule : matched_rule)
| MContentLimit (max : Z)
| MBadBase64
| MNoManifest.

(** [ToolAsk] is the question put to the human. *)
Inductive tool_reply (A : Type) : Type :=
| ToolError (m : tool_message)
| ToolAsk (server command runsAs : string) (rule : matched_rule)
| ToolOk (a : A).
Arguments ToolError {A} m.
Arguments ToolAsk {A} server command runsAs rule.
Arguments ToolOk {A} a.

Definition toolMessage (err : engine_error) : tool_message := match err with ErrUpstream _ => MUpstream | _ => MEngine err end.

(** [ApprovalRequiredError] and its [RunsAs]. *)
Definition approval_required (err : engine_error) : option (string * matched_rule * string * bool) :=
  match err with ErrApprovalRequired host rule elevation pty => Some (host, rule, elevation, pty) | _ => None end.
Definition RunsAs (elevation : string) (pty : bool) : string :=
  (if bool_decide (elevation = "") then "" else " as " +:+ elevation) +:+ (if pty then " with PTY" else "").
Definition noElicitApprovalWording (tool : string) (err : engine_error) : tool_message :=
  match approval_required err with
  | Some (host, rule, elevation, pty) => MNeedsApproval tool host (RunsAs elevation pty) rule
  | None => toolMessage err
  end.
Definition k8sApprovalWording (cluster : string) (err : engine_error) : tool_message :=
  match approval_required err with Some (_, rule, _, _) => MClusterApproval cluster rule | None => toolMessage err end.

(** [reasonCode] *)
Definition reasonCode (d : DecisionInfo) : string :=
  if di_Allowed d then if di_RequireApproval d then "needs_approval" else "allowed"
  else match di_MatchedRule d with
       | RuleDeny _ => "command_denied"
       | RuleShellParse _ => "shell_parse_error"
       | RuleAllowlistNoMatch => "allowlist_no_match"
       | _ => "denied"
       end.

(** ** The human's answer *)

(** The response a retried call carries for the approval question: an elicitation
    result with its action and the [approve] field when that is a boolean, or a
    response of another type. *)
Inductive input_response := ElicitResult (action : string) (approve : option bool) | OtherResponse.

Definition elicitedApproval (resp : option input_response) : bool * bool :=
  match resp with
  | None => (false, false)
  | Some (ElicitResult action approve) =>
      if bool_decide (action = "accept") then (default false approve, true) else (false, true)
  | Some OtherResponse => (false, true)
  end.

(** ** The SSH tools *)

Record executeInput := mkExecuteInput {
  xi_Server : string;
  xi_Command : string;
  xi_TTLSeconds : Z;
  xi_Sudo : bool;
  xi_SudoUser : string;
  xi_PTY : bool;
  xi_DryRun : bool;
}.
Inductive execute_output := ODecision (d : DecisionInfo) (code : string) | OExecuted (r : Result).

Record putFileInput := mkPutFileInput {
  pi_Server : string;
  pi_Path : string;
  pi_Content : string;
  pi_ContentBase64 : bool;
  pi_Mode : string;
  pi_TTLSeconds : Z;
}.
Record getFileOutput := mkGetFileOutput {
  go_Content : string;
  go_Base64 : bool;
  go_Size : Z;
  go_SHA256 : string;
  go_Serial : Z;
  go_Warning : warning;
}.

Definition encodedBound (max : Z) : Z := max + max / 3 + 4.

Section tools.
Context `{SP : ShellParser} `{SH : Sha256}.
(** The order in which the fields of an input are checked, the fuel of the walk
    along the bastions, the engine and the caller. *)
Context (iter : range_order string) (fuel : nat) (e : Engine) (caller : Caller).

Definition with_input {A : Type} (fields : gmap string string) (p : prog (tool_reply A)) : prog (tool_reply A) :=
  match ValidateInput iter fields with Err x => Ret (ToolError (MInput x)) | Ok _ => p end.

Definition executed (r : result engine_error Result) : prog (tool_reply execute_output) :=
  Ret (match r with
       | Err err => ToolError (toolMessage err)
       | Ok res => match re_DryRun res with Some d => ToolOk (ODecision d (reasonCode d)) | None => ToolOk (OExecuted res) end
       end).

Definition tool_opts (i : executeInput) (approved : bool) : ExecOptions :=
  mkExecOptions (xi_Sudo i) (xi_SudoUser i) (xi_PTY i) (xi_DryRun i) approved "" false.

Definition ssh_execute (elicitApprovals : bool) (resp : option input_response) (i : executeInput) : prog (tool_reply execute_output) :=
  with_input {["server" := xi_Server i; "command" := xi_Command i; "sudo_user" := xi_SudoUser i]} (
  let run opts := Execute fuel e caller (xi_Server i) (xi_Command i) (xi_TTLSeconds i) opts in
  r <- run (tool_opts i false) ;;
  match r with
  | Ok _ => executed r
  | Err err =>
      match (if elicitApprovals then approval_required err else None) with
      | None => executed r
      | Some (_, rule, elevation, pty) =>
          let '(approved, answered) := elicitedApproval resp in
          if negb answered then Ret (ToolAsk (xi_Server i) (xi_Command i) (RunsAs elevation pty) rule)
          else if negb approved then
            AuditApprovalDeclined e caller (xi_Server i) (xi_Command i) rule (tool_opts i false) ;;;
            Ret (ToolError (MDeclined (xi_Command i) (xi_Server i)))
          else
            a <- AuditApprovalGranted e caller (xi_Server i) (xi_Command i) rule (tool_opts i false) ;;
            match a with
            | Some aErr => Ret (ToolError (toolMessage aErr))
            | None => r <- run (tool_opts i true) ;; executed r
            end
      end
  end).

Definition ssh_session_open (server mode : string) (ttlSeconds : Z) (sudo : bool) (sudoUser : string) : prog (tool_reply (string * Z)) :=
  with_input {["server" := server; "mode" := mode; "sudo_user" := sudoUser]} (
  r <- OpenSession fuel e caller server mode ttlSeconds (mkExecOptions sudo sudoUser false false false "" false) ;;
  Ret (match r with Err err => ToolError (noElicitApprovalWording "ssh_session_open" err) | Ok res => ToolOk res end)).

Definition ssh_session_exec (sessionID command : string) : prog (tool_reply execute_output) :=
  with_input {["session_id" := sessionID; "command" := command]} (
  r <- SessionExec fuel e caller sessionID command ;;
  Ret (match r with Err err => ToolError (toolMessage err) | Ok res => ToolOk (OExecuted res) end)).

Definition ssh_session_close (sessionID : string) : prog (tool_reply unit) :=
  with_input {["session_id" := sessionID]} (
  r <- CloseSession e caller sessionID ;;
  Ret (match r with Err err => ToolError (toolMessage err) | Ok _ => ToolOk () end)).

(** ** Files *)

(** The bytes an input stands for. *)
Definition put_content (content : string) (base64 : bool) : option string := if base64 then StdDecode content else Some content.

Definition ssh_put_file (i : putFileInput) : prog (tool_reply FileTransferResult) :=
  with_input {["server" := pi_Server i; "path" := pi_Path i; "mode" := pi_Mode i]} (
  let maxBytes := FileTransferMaxBytes e in
  if encodedBound maxBytes <? slen (pi_Content i) then Ret (ToolError (MContentLimit maxBytes))
  else
  match put_content (pi_Content i) (pi_ContentBase64 i) with
  | None => Ret (ToolError MBadBase64)
  | Some content =>
      r <- PutFile fuel e caller (pi_Server i) (pi_Path i) content (pi_Mode i) (pi_TTLSeconds i) ;;
      Ret (match r with Err err => ToolError (noElicitApprovalWording "ssh_put_file" err) | Ok res => ToolOk res end)
  end).

(** Text as it is when it is valid UTF-8 without a NUL, base64 otherwise. *)
Definition get_output (res : FileTransferResult) : getFileOutput :=
  if ValidString (ft_Content res) && negb (ContainsByte (ft_Content res) NUL)
  then mkGetFileOutput (ft_Content res) false (ft_Size res) (ft_SHA256 res) (ft_Serial res) (ft_Warning res)
  else mkGetFileOutput (StdEncode (ft_Content res)) true (ft_Size res) (ft_SHA256 res) (ft_Serial res) (ft_Warning res).

Definition ssh_get_file (server path : string) (maxBytes ttlSeconds : Z) : prog (tool_reply getFileOutput) :=
  with_input {["server" := server; "path" := path]} (
  r <- GetFile fuel e caller server path maxBytes ttlSeconds ;;
  Ret (match r with Err err => ToolError (noElicitApprovalWording "ssh_get_file" err) | Ok res => ToolOk (get_output res) end)).

(** ** Clusters *)

Inductive k8s_output := KDecision (d : DecisionInfo) (code : string) | KResult (r : K8sResult).

Definition runK8s (cluster : string) (action : K8sAction) (manifest : string) (dryRun : bool) : prog (tool_reply k8s_output) :=
  with_input {["cluster" := cluster; "resource" := ka_Resource action; "group" := ka_Group action;
               "namespace" := ka_Namespace action; "name" := ka_Name action]} (
  r <- K8sExecute e caller cluster action manifest dryRun ;;
  Ret (match r with
       | Err err => ToolError (k8sApprovalWording cluster err)
       | Ok res => match kr_DryRun res with Some d => ToolOk (KDecision d (reasonCode d)) | None => ToolOk (KResult res) end
       end)).

Definition k8s_get (cluster resource group namespace name : string) (dryRun : bool) : prog (tool_reply k8s_output) :=
  runK8s cluster (mkK8sAction K8sVerbGet resource group namespace name) "" dryRun.
Definition k8s_list (cluster resource group namespace label_selector field_selector : string) (dryRun : bool) : prog (tool_reply k8s_output) :=
  with_input {["label_selector" := label_selector; "field_selector" := field_selector]}
    (runK8s cluster (mkK8sAction K8sVerbList resource group namespace "") "" dryRun).
Definition k8s_logs (cluster namespace pod container : string) (dryRun : bool) : prog (tool_reply k8s_output) :=
  with_input {["container" := container]} (runK8s cluster (mkK8sAction K8sVerbLogs "pods" "" namespace pod) "" dryRun).
Definition k8s_apply (cluster resource group namespace name manifest : string) (dryRun : bool) : prog (tool_reply k8s_output) :=
  with_input {["cluster" := cluster; "manifest" := manifest]}
    (if bool_decide (TrimSpace manifest = "") then Ret (ToolError MNoManifest)
     else runK8s cluster (mkK8sAction K8sVerbApply resource group namespace name) manifest dryRun).
Definition k8s_delete (cluster resource group namespace name : string) (dryRun : bool) : prog (tool_reply k8s_output) :=
  runK8s cluster (mkK8sAction K8sVerbDelete resource group namespace name) "" dryRun.
End tools.
