(* ===== verification/McpRun.v ===== *)
(** * What the tools do

    Statements about the tool handlers of [Mcp]: an approval given in the
    conversation is a human's and is recorded before it is used, and the file
    tools carry bytes without loss. *)

From S2P Require Import Prelude GoStrings CmdPolicy PolicySet Encoding K8sAction Intent Elevate Crypto CA HostPolicy Signer Sessions Prog Broker Engine Routes EngineSessions EngineRun EngineFiles EngineK8s EngineRecords EndToEnd EngineFilesRun AuditTime AuditEntry AuditRun Mcp.

(** ** Approved intents *)

(** Calls that ask the signer to take a command for approved only when the
    options say so. *)
Definition approved_only (approved : bool) (X : Type) (c : call X) : Prop :=
  match c with SignIntentCall i => in_Approved i = true → approved = true | _ => True end.

Lemma quiet_approved_only {A : Type} (p : prog A) (approved : bool) :
  only quiet p → only (fun X c => match c with SignIntentCall _ => False | _ => True end) p → only (approved_only approved) p.
Proof.
  induction p as [a|X c f IH]; cbn; [done|]. intros [_ Hq] [Hn Hk]. split; [by destruct c|]. intros x. by apply IH.
Qed.

Ltac approvals := repeat first
  [ exact I | apply only_bind; [|intros ?] | split; [first [exact I|done]|intros ?] | intros ? | progress cbn [only]
  | match goal with |- only _ (match ?x with _ => _ end) => destruct x end
  | match goal with |- only _ (if ?x then _ else _) => destruct x end ].

Section approved.
Context (fuel : nat) (e : Engine) (c : Caller).

Lemma hostInfo_ao b n : only (approved_only b) (hostInfo e n).
Proof. unfold hostInfo. approvals. Qed.
Lemma refresh_ao b : only (approved_only b) (refreshHostsForNewConnection e).
Proof. unfold refreshHostsForNewConnection, refreshHostsNow. approvals. Qed.
Lemma auditE_ao b ent : only (approved_only b) (auditE e ent).
Proof. unfold auditE, appendAudit, hostInfo. approvals. Qed.
Lemma audit_fail_ao {A : Type} b ent err : only (approved_only b) (audit_fail e ent err : prog (result engine_error A)).
Proof. unfold audit_fail. apply only_bind; [apply auditE_ao|done]. Qed.
Lemma audit_gate_ao {A : Type} b ent (a : A) : only (approved_only b) (audit_gate e ent a).
Proof. unfold audit_gate. apply only_bind; [apply auditE_ao|done]. Qed.
Lemma chain_loop_ao b n cur seen chain : only (approved_only b) (chain_loop e n cur seen chain).
Proof.
  revert cur seen chain. induction n as [|n IH]; intros cur seen chain; cbn [chain_loop]; repeat case_bool_decide; try done.
  apply only_bind; [apply hostInfo_ao|]. intros [hi|]; [apply IH|done].
Qed.
Lemma sign_hop_ao b opts name hi intent : (∀ pub, in_Approved (intent pub) = true → b = true) →
  only (approved_only b) (sign_hop opts name hi intent).
Proof.
  intros Hi. unfold sign_hop, parseHostKeyCached. apply only_bind; [approvals|]. intros [[priv pub]|]; [|done].
  apply only_bind; [by split; [exact (Hi pub)|]|]. intros r. approvals.
Qed.
Lemma hops_loop_ao ttl purpose command opts names hops serial dec :
  only (approved_only (eo_Approved opts)) (hops_loop e c ttl purpose command opts names hops serial dec).
Proof.
  revert hops serial dec. induction names as [|n names IH]; intros hops serial dec; cbn [hops_loop]; [done|].
  apply only_bind; [apply hostInfo_ao|]. intros [hi|]; [|done]. unfold ebind. apply only_bind.
  - apply sign_hop_ao. intros pub. by destruct (bool_decide _).
  - intros [r|x]; [|done]. destruct (bool_decide _); apply IH.
Qed.
Lemma dryRun_ao b host command ttl opts : only (approved_only b) (dryRun e c host command ttl opts).
Proof.
  unfold dryRun. apply only_bind; [approvals|]. intros [[priv pub]|]; [|done].
  apply only_bind; [by split|]. intros [issued|x]; [|apply audit_fail_ao]. cbv zeta; apply only_bind; [apply auditE_ao|intros ?; exact I].
Qed.
Lemma Execute_ao host command ttl opts : only (approved_only (eo_Approved opts)) (Execute fuel e c host command ttl opts).
Proof.
  unfold Execute. apply only_bind; [apply refresh_ao|]. intros [?|?]; [|apply audit_fail_ao].
  apply only_bind; [apply hostInfo_ao|]. intros [hi|]; [|apply audit_fail_ao].
  destruct (bool_decide _); [done|]. destruct (eo_DryRun opts); [apply dryRun_ao|].
  apply only_bind.
  { unfold buildHops, resolveChain, ebind. apply only_bind; [apply chain_loop_ao|]. intros [chain|?]; [apply hops_loop_ao|done]. }
  intros [[[hops serial] dec]|?]; [|apply audit_fail_ao].
  apply only_bind; [by split|]. intros [cn|]; [|apply audit_fail_ao]. unfold with_conn. apply only_bind; [|approvals].
  apply only_bind; [by split|]. intros [res|]; [apply audit_gate_ao|apply audit_fail_ao].
Qed.
End approved.

(** ** Withheld certificates *)

Section withheld.
Context (env : environment) (fuel : nat) (e : Engine) (c : Caller).

(** The signer answered an intent without a certificate, for a rule. *)
Definition withheld (t : list obs) (rule : matched_rule) : Prop :=
  ∃ i issued, OSign i (Ok issued) ∈ t ∧ is_Certificate issued = None ∧ decisionRule (is_Decision issued) = rule.
Definition asks (err : engine_error) (rule : matched_rule) : Prop := ∃ host elevation pty, err = ErrApprovalRequired host rule elevation pty.

Lemma withheld_app t1 t2 rule : withheld t1 rule ∨ withheld t2 rule → withheld (t1 ++ t2) rule.
Proof. intros [(i & iss & ? & ?)|(i & iss & ? & ?)]; exists i, iss; rewrite elem_of_app; auto. Qed.

Lemma sign_hop_withheld opts name hi intent t err rule :
  behaves env (sign_hop opts name hi intent) t (Some (Err err)) → asks err rule → withheld t rule.
Proof.
  unfold sign_hop. intros (kp & t1 & _ & -> & Hb)%behaves_call (host & elevation & pty & ->).
  destruct kp as [[priv pub]|]; [|by destruct Hb as [_ [=]]].
  apply behaves_call in Hb as (r & t2 & _ & -> & Hb). apply (withheld_app [_; _] t2). left.
  destruct r as [issued|x]; [|by destruct Hb as [_ [=]]].
  destruct (is_Certificate issued) eqn:Hc.
  - unfold parseHostKeyCached in Hb. apply behaves_bind in Hb as (ta & tb & hk & -> & _ & Hb).
    destruct hk; by destruct Hb as [_ [=]].
  - destruct Hb as [_ [= _ Hr _ _]]. exists (intent pub), issued. split_and!; [right; by left|done|done].
Qed.
Lemma chain_loop_error n cur seen chain t err rule :
  behaves env (chain_loop e n cur seen chain) t (Some (Err err)) → ¬ asks err rule.
Proof.
  revert cur seen chain t. induction n as [|n IH]; intros cur seen chain t; cbn [chain_loop].
  { case_bool_decide; by intros [_ [=]] (? & ? & ? & ?); subst. }
  case_bool_decide; [by intros [_ [=]] (? & ? & ? & ?)|].
  case_bool_decide; [by intros [_ [=]] (? & ? & ? & ?); subst|].
  intros (t1 & t2 & hi & -> & _ & Hb)%behaves_bind. destruct hi; [by eapply IH|].
  destruct Hb as [_ [=]]. by intros (? & ? & ? & ?); subst.
Qed.
Lemma hops_loop_withheld ttl purpose command opts names hops serial dec t err rule :
  behaves env (hops_loop e c ttl purpose command opts names hops serial dec) t (Some (Err err)) → asks err rule → withheld t rule.
Proof.
  revert hops serial dec t. induction names as [|n names IH]; intros hops serial dec t; cbn [hops_loop]; [by intros [_ [=]]|].
  intros (t1 & t2 & hi & -> & _ & Hb)%behaves_bind Ha. apply withheld_app. right.
  destruct hi as [hi|]; [|destruct Hb as [_ [=]]; by destruct Ha as (? & ? & ? & ?); subst].
  unfold ebind in Hb. apply behaves_bind in Hb as (ta & tb & r & -> & Hs & Hb). apply withheld_app.
  destruct r as [r|x]; [right; destruct (bool_decide _); by eapply IH|].
  destruct Hb as [-> [= ->]]. left. by eapply sign_hop_withheld.
Qed.

Lemma auditE_result ent t r : behaves env (auditE e ent) t (Some r) → r = None ∨ r = Some ErrAuditUnavailable.
Proof.
  unfold auditE, appendAudit. intros (t1 & t2 & hi & -> & _ & Hb)%behaves_bind.
  apply behaves_call in Hb as (ok & t' & _ & -> & [-> [= ->]]%behaves_Ret). destruct (negb ok && _); auto.
Qed.

(** When [Execute] asks for approval, the signer withheld a certificate and
    nothing was sent. *)
Lemma Execute_withheld host command ttl opts t err rule :
  behaves env (Execute fuel e c host command ttl opts) t (Some (Err err)) → asks err rule → withheld t rule ∧ Forall silent t.
Proof.
  intros Hb Ha. assert (∀ ent err' t', behaves env (audit_fail e ent err' : prog (result engine_error Result)) t' (Some (Err err)) → err' = err ∧ Forall silent t') as HA.
  { intros ent err' t' H. split; [|by eapply quiet_silent; [apply audit_fail_quiet|exact H]].
    apply audit_fail_appends in H as [[= ->] _]. done. }
  unfold Execute in Hb. apply behaves_bind in Hb as (t1 & t2 & r & -> & H1 & Hb).
  pose proof (quiet_silent _ _ _ _ (refresh_quiet e) H1) as S1.
  destruct r as [[]|x].
  2:{ destruct (HA _ _ _ Hb) as [-> _]. exfalso. unfold refreshHostsForNewConnection, refreshHostsNow in H1.
      revert H1. destruct Ha as (? & ? & ? & ->). destruct (e_remote e); cbn [negb]; [|by intros [_ [=]]].
      intros (l & ta & _ & -> & Hb1)%behaves_call. apply behaves_call in Hb1 as (n & tb & _ & -> & Hb1).
      cbv zeta in Hb1. destruct (match l with Some t => _ | None => false end); [by destruct Hb1 as [_ [=]]|].
      apply behaves_call in Hb1 as ([hs|] & tc & _ & -> & Hb1); [|by destruct Hb1 as [_ [=]]].
      apply behaves_call in Hb1 as (n2 & td & _ & -> & Hb1). apply behaves_call in Hb1 as ([] & te & _ & -> & Hb1).
      apply behaves_call in Hb1 as ([] & tf & _ & -> & Hb1). by destruct Hb1 as [_ [=]]. }
  apply behaves_bind in Hb as (t3 & t4 & hi & -> & H3 & Hb). pose proof (quiet_silent _ _ _ _ (hostInfo_quiet e _) H3) as S3.
  destruct Ha as (ho & el & pt & ->).
  destruct hi as [hi|]; [|by destruct (HA _ _ _ Hb) as [[=] _]].
  case_bool_decide; [by destruct Hb as [_ [=]]|].
  destruct (eo_DryRun opts).
  { exfalso. unfold dryRun in Hb. apply behaves_call in Hb as (kp & ta & _ & -> & Hb). destruct kp as [[priv pub]|]; [|by destruct Hb as [_ [=]]].
    apply behaves_call in Hb as (r & tb & _ & -> & Hb). destruct r as [issued|x].
    - apply behaves_bind in Hb as (tc & td & [] & -> & _ & Hb); by destruct Hb as [_ [=]].
    - destruct (HA _ _ _ Hb) as [Hx _]. unfold classifySignErr in Hx. by destruct (upstream_class x). }
  apply behaves_bind in Hb as (t5 & t6 & b & -> & H5 & Hb). pose proof (quiet_silent _ _ _ _ (buildHops_quiet fuel e _ _ _ _ _ _) H5) as S5.
  destruct b as [[[hops serial] dec]|x].
  - exfalso. apply behaves_call in Hb as (cn & ta & _ & -> & Hb). destruct cn as [cn|]; [|by destruct (HA _ _ _ Hb) as [[=] _]].
    unfold with_conn in Hb. apply behaves_bind in Hb as (tb & tc & r & -> & Hr & Hb).
    apply behaves_call in Hb as ([] & td & _ & -> & [-> [= <-]]%behaves_Ret).
    apply behaves_call in Hr as (xr & te & _ & -> & Hr). destruct xr; [|by destruct (HA _ _ _ Hr) as [[=] _]].
    apply behaves_bind in Hr as (tg & th & a & -> & Hg & [-> [= Hr]]%behaves_Ret).
    destruct (auditE_result _ _ _ Hg) as [-> | ->]; done.
  - destruct (HA _ _ _ Hb) as [Hx S6]. assert (x = ErrApprovalRequired ho rule el pt) as ->.
    { unfold classifySignErr in Hx. destruct x; try done. by destruct (upstream_class _). }
    split; [|by rewrite !Forall_app]. do 2 (apply withheld_app; right). apply withheld_app. left.
    unfold buildHops, ebind, resolveChain in H5. apply behaves_bind in H5 as (ta & tb & ch & -> & Hch & H5).
    apply withheld_app. destruct ch as [chain|x].
    + right. eapply hops_loop_withheld; [exact H5|]. by exists ho, el, pt.
    + exfalso. destruct H5 as [-> [= <-]]. eapply chain_loop_error; [exact Hch|]. by exists ho, el, pt.
Qed.
End withheld.

(** ** Approval in the conversation *)

Section approval.
Context `{SP : ShellParser} `{SH : Sha256} (env : environment).
Context (iter : range_order string) (fuel : nat) (e : Engine) (c : Caller) (elicit : bool) (resp : option input_response) (i : executeInput).

Definition granted_record (rule : matched_rule) (outcome u : string) : entry :=
  with_user u (with_run 0 (elevationLabel (tool_opts i false)) (xi_PTY i) rule None approvalViaElicitation
    (basic_entry c (xi_Server i) (xi_Command i) outcome NoErr)).

(** The human said yes to this command, after the signer had withheld its
    certificate, and that is on record. *)
Definition approved_in_chat (h : list obs) : Prop :=
  elicit = true ∧ resp = Some (ElicitResult "accept" (Some true)) ∧
  ∃ rule, withheld h rule ∧ ∃ u ok, OAppend (granted_record rule "approval_granted" u) ok ∈ h ∧ (e_auditFailClosed e = true → ok = true).
Definition approval_rule (h : list obs) (ob : obs) : Prop :=
  ∀ it r, ob = OSign it r → in_Approved it = true → approved_in_chat h.

Lemma approved_in_chat_app h t : approved_in_chat h → approved_in_chat (h ++ t).
Proof.
  intros (? & ? & rule & Hw & u & ok & Hin & ?). do 2 (split; [done|]). exists rule. split; [apply withheld_app; by left|].
  exists u, ok. rewrite elem_of_app. auto.
Qed.

Lemma elicited_yes : elicitedApproval resp = (true, true) → resp = Some (ElicitResult "accept" (Some true)).
Proof.
  destruct resp as [[action approve|]|]; cbn; try done. case_bool_decide; [|done]. subst. destruct approve as [[]|]; by intros [=].
Qed.

Lemma approval_required_asks err host rule elevation pty : approval_required err = Some (host, rule, elevation, pty) → asks err rule.
Proof. destruct err; try done. intros [= -> -> -> ->]. by eexists _, _, _. Qed.

(** As [safe_only], of the histories that extend the present one. *)
Lemma safe_only_from (P : list obs → obs → Prop) {A : Type} (S : ∀ X, call X → Prop) (p : prog A) h (Q : list obs → A → Prop) :
  (∀ t X (cl : call X) x, S _ cl → P (h ++ t) (observe cl x)) → only S p → (∀ t a, Q (h ++ t) a) → safe env P h p Q.
Proof.
  revert h. induction p as [a|X cl f IH]; intros h HP Ho HQ; cbn in *.
  { specialize (HQ [] a). by rewrite app_nil_r in HQ. }
  destruct Ho as [Hc Hf]. intros x Hx. split; [specialize (HP [] X cl x Hc); by rewrite app_nil_r in HP|]. apply IH; [|done|].
  - intros t Y cl' y Hy. rewrite <-app_assoc. by apply HP.
  - intros t a. rewrite <-app_assoc. apply HQ.
Qed.

Lemma not_approved h X (cl : call X) x : approved_only false X cl → approval_rule h (observe cl x).
Proof. intros Hc it r Hob Ha. destruct cl; cbn in Hob; try done. injection Hob as -> ->. by specialize (Hc Ha). Qed.

Lemma ssh_execute_safe : safe env approval_rule [] (ssh_execute iter fuel e c elicit resp i) (fun _ _ => True).
Proof.
  unfold ssh_execute, with_input. destruct (ValidateInput _ _) as [[]|?]; [|done]. cbv zeta.
  apply safe_bind. eapply safe_intro; [apply not_approved|exact (Execute_ao fuel e c _ _ _ (tool_opts i false))|].
  intros t r Hr. cbn [app]. destruct r as [res|err]; [done|].
  destruct elicit eqn:Eelicit; [|done]. destruct (approval_required err) as [[[[host rule] elevation] pty]|] eqn:Hreq; [|done].
  destruct (elicitedApproval resp) as [approved answered] eqn:Hel. destruct answered; [|done]. cbn [negb].
  assert (asks err rule) as Hasks by by apply approval_required_asks in Hreq.
  destruct (Execute_withheld _ _ _ _ _ _ _ _ _ _ _ Hr Hasks) as [Hw _].
  destruct approved; cbn [negb].
  2:{ apply safe_bind. unfold AuditApprovalDeclined. apply safe_bind. eapply safe_intro; [apply not_approved|apply auditE_ao|done]. }
  apply safe_bind. eapply safe_intro; [apply not_approved|apply auditE_ao|].
  intros t' a Ha. destruct a as [aErr|]; [done|].
  assert (approved_in_chat (t ++ t')) as Hin.
  { split; [done|]. split; [by apply elicited_yes|]. exists rule. split; [apply withheld_app; by left|].
    apply auditE_appends in Ha as (u & ok & Hin & Hok). exists u, ok. rewrite elem_of_app. split; [by right|]. by apply Hok. }
  apply safe_bind. eapply safe_only_from; [|apply Execute_ao|done].
  intros t2 X cl x _ it r' _ _. by apply approved_in_chat_app.
Qed.

(** Runs that end with a question or a decline. *)
Lemma ssh_execute_stops t reply : behaves env (ssh_execute iter fuel e c elicit resp i) t (Some reply) →
  match reply with
  | ToolAsk _ _ _ rule => withheld t rule ∧ Forall silent t
  | ToolError (MDeclined _ _) =>
      Forall silent t ∧ ∃ rule u ok, withheld t rule ∧ OAppend (granted_record rule "approval_declined" u) ok ∈ t
  | _ => True
  end.
Proof.
  assert (∀ r t', behaves env (executed r) t' (Some reply) →
    match reply with ToolAsk _ _ _ _ => False | ToolError (MDeclined _ _) => False | _ => True end) as Hend.
  { intros r t' [_ [= ->]]. destruct r as [res|err]; [by destruct (re_DryRun res)|by destruct err]. }
  assert (match reply with ToolAsk _ _ _ _ => False | ToolError (MDeclined _ _) => False | _ => True end →
    ∀ (X : matched_rule → Prop) (Y : Prop), match reply with ToolAsk _ _ _ rule => X rule | ToolError (MDeclined _ _) => Y | _ => True end) as Hout.
  { intros H X Y. by destruct reply as [[]| |]. }
  unfold ssh_execute, with_input. destruct (ValidateInput _ _) as [[]|?]; [|intros [_ [= ->]]; done]. cbv zeta.
  intros (t1 & t2 & r & -> & H1 & Hb)%behaves_bind.
  destruct r as [res|err]; [apply Hout, (Hend _ _ Hb)|].
  destruct (if elicit then approval_required err else None) as [[[[host rule] elevation] pty]|] eqn:Hreq;
    [|apply Hout, (Hend _ _ Hb)].
  destruct elicit; [|done]. apply approval_required_asks in Hreq as Hasks.
  destruct (Execute_withheld _ _ _ _ _ _ _ _ _ _ _ H1 Hasks) as [Hw Hs].
  destruct (elicitedApproval resp) as [approved answered]. destruct answered; cbn [negb] in Hb.
  2:{ destruct Hb as [-> [= ->]]. by rewrite app_nil_r. }
  destruct approved; cbn [negb] in Hb.
  - apply behaves_bind in Hb as (t3 & t4 & a & -> & Ha & Hb). destruct a as [aErr|].
    + destruct Hb as [_ [= ->]]. by destruct (auditE_result _ _ _ _ _ Ha) as [[=]|[= ->]].
    + apply behaves_bind in Hb as (t5 & t6 & r & -> & _ & Hb). apply Hout, (Hend _ _ Hb).
  - apply behaves_bind in Hb as (t3 & t4 & [] & -> & Ha & [-> [= ->]]%behaves_Ret).
    unfold AuditApprovalDeclined in Ha. apply behaves_bind in Ha as (t5 & t6 & r & -> & Ha & [-> _]).
    pose proof (quiet_silent _ _ _ _ (auditE_quiet e _) Ha) as Hs2. rewrite !app_nil_r. split; [by rewrite Forall_app|].
    apply auditE_appends in Ha as (u & ok & Hin & _). exists rule, u, ok. split; [apply withheld_app; by left|].
    rewrite elem_of_app. by right.
Qed.

End approval.

(** ** Files *)

Lemma ascii_valid s : forall_char (fun ch => byte_of ch <? 128) s = true → ValidString s = true.
Proof.
  unfold ValidString. induction s as [|ch s IH]; [done|]. cbn [forall_char]. intros [Hc Hs]%andb_true_iff.
  rewrite runes_cons, Hc. cbn. by apply IH.
Qed.
Lemma base64_valid s : ValidString (StdEncode s) = true ∧ ContainsByte (StdEncode s) NUL = false.
Proof.
  destruct (StdEncode_spec s) as [_ Hs]. split.
  - apply ascii_valid. eapply forall_char_impl; [|exact Hs]. intros [[] [] [] [] [] [] [] []]; vm_compute; congruence.
  - unfold ContainsByte. rewrite exists_char_false. apply negb_false_iff. eapply forall_char_impl; [|exact Hs].
    intros [[] [] [] [] [] [] [] []]; vm_compute; congruence.
Qed.

(** Content within the limit passes the gate in front of the decoder, in either
    form. *)
Lemma encodedBound_fits s max : 0 ≤ max → slen s ≤ max → slen s ≤ encodedBound max ∧ slen (StdEncode s) ≤ encodedBound max.
Proof.
  intros Hm Hs. destruct (StdEncode_spec s) as [Hl _]. unfold encodedBound, slen in *.
  pose proof (Z.div_mod max 3 ltac:(done)). pose proof (Z.mod_pos_bound max 3 ltac:(lia)).
  assert (pad_len (String.length s) ≤ 2)%nat by (unfold pad_len; destruct (String.length s mod 3)%nat as [|[|[|?]]]; lia).
  lia.
Qed.

Section files.
Context `{SP : ShellParser} `{SH : Sha256} (env : environment).
Context (iter : range_order string) (fuel : nat) (e : Engine) (c : Caller).

Lemma FileTransferMaxBytes_nonneg : 0 ≤ FileTransferMaxBytes e.
Proof. unfold FileTransferMaxBytes. destruct (Z.ltb_spec 0 (e_FileTransferMaxBytes e)); [lia|vm_compute; congruence]. Qed.

Lemma get_output_carries res : slen (ft_Content res) ≤ FileTransferMaxBytes e →
  ValidString (go_Content (get_output res)) = true ∧ ContainsByte (go_Content (get_output res)) NUL = false ∧
  slen (go_Content (get_output res)) ≤ encodedBound (FileTransferMaxBytes e) ∧
  put_content (go_Content (get_output res)) (go_Base64 (get_output res)) = Some (ft_Content res).
Proof.
  intros Hs. destruct (encodedBound_fits _ _ FileTransferMaxBytes_nonneg Hs) as [H1 H2]. unfold get_output.
  destruct (ValidString (ft_Content res) && negb (ContainsByte (ft_Content res) NUL)) eqn:E; cbn [go_Content go_Base64 put_content].
  - apply andb_true_iff in E as [? ?%negb_true_iff]. done.
  - destruct (base64_valid (ft_Content res)) as [? ?]. rewrite Std_roundtrip. done.
Qed.

(** The file tools carry bytes without loss. What [ssh_get_file] answers is
    the output of the command that ran on the host, with its size and digest; it
    is valid UTF-8 without a NUL, so the JSON transport keeps it; and handing it
    back to [ssh_put_file], with the same base64 flag, passes the size gate in
    front of the decoder and writes exactly those bytes, for any host, path and
    mode. *)
Theorem file_tools_roundtrip server path maxBytes ttl t out :
  behaves env (ssh_get_file iter fuel e c server path maxBytes ttl) t (Some (ToolOk out)) →
  ∃ content,
    (∃ cn wire x, OExec cn wire false "" (Some x) ∈ t ∧ xr_Stdout x = content) ∧
    go_Size out = slen content ∧ go_SHA256 out = hexsum content ∧
    ValidString (go_Content out) = true ∧ ContainsByte (go_Content out) NUL = false ∧
    ∀ server' path' mode ttl',
      ssh_put_file iter fuel e c (mkPutFileInput server' path' (go_Content out) (go_Base64 out) mode ttl') =
      with_input iter {["server" := server'; "path" := path'; "mode" := mode]} (
        r <- PutFile fuel e c server' path' content mode ttl' ;;
        Ret (match r with Err err => ToolError (noElicitApprovalWording "ssh_put_file" err) | Ok res => ToolOk res end)).
Proof.
  unfold ssh_get_file, with_input. destruct (ValidateInput _ _) as [[]|?]; [|by intros [_ [=]]].
  intros (t1 & t2 & r & -> & Hg & [-> Hr]%behaves_Ret)%behaves_bind. destruct r as [ft|]; [|done]. injection Hr as ->.
  apply GetFile_inv in Hg as (_ & t3 & t4 & res & -> & He & Hx & Hs & Hf).
  apply audit_gate_appends in Hf as (u & ok & _ & Hf). destruct (Hf ft eq_refl) as [-> _].
  exists (re_Stdout res).
  assert (slen (re_Stdout res) ≤ FileTransferMaxBytes e) as Hmax.
  { unfold get_max in Hs. destruct (_ && _) eqn:E; [|done]. apply andb_true_iff in E as [_ ?%Z.ltb_lt]. lia. }
  pose proof (get_output_carries (mkTransfer (re_Stdout res) (slen (re_Stdout res)) (hexsum (re_Stdout res)) (re_Serial res) (re_Warning res)) Hmax)
    as (Hv & Hn & Hl & Hp).
  split_and!; try done.
  - apply Execute_ends in He. inversion He as [? ? _ Hdry|?|? ? cn xr ? ? ? ? _ _ _ _ Hres]; subst.
    { by specialize (Hdry _ eq_refl). }
    destruct (Hres _ eq_refl) as (_ & _ & x & -> & -> & _). exists cn. eexists _, x. split; [|done].
    rewrite !elem_of_app. left. left. right. right. left.
  - unfold get_output. by destruct (_ && _).
  - unfold get_output. by destruct (_ && _).
  - intros server' path' mode ttl'. unfold ssh_put_file, with_input. cbn [pi_Server pi_Path pi_Mode pi_Content pi_ContentBase64 pi_TTLSeconds].
    destruct (ValidateInput _ _); [|done]. cbv zeta.
    destruct (Z.ltb_spec (encodedBound (FileTransferMaxBytes e)) (slen (go_Content (get_output (mkTransfer (re_Stdout res) (slen (re_Stdout res)) (hexsum (re_Stdout res)) (re_Serial res) (re_Warning res)))))); [lia|].
    by rewrite Hp.
Qed.
End files.

(** ** Runs *)

#[local] Abbreviation sha := (Build_Sha256 (fun s => s)).

Definition stop_input : executeInput := mkExecuteInput "web1" "systemctl stop nginx" 60 false "" false false.
Definition chat (resp : option input_response) : list obs * tool_reply execute_output :=
  let '(_, t, a) := traced broker_handler (ssh_execute map_to_list 2 broker_engine alice true resp stop_input) () in (t, a).
Definition yes : option input_response := Some (ElicitResult "accept" (Some true)).

Example chat_asks : (chat None).2 = ToolAsk "web1" "systemctl stop nginx" "" (RuleRequireApproval "systemctl stop").
Proof. vm_compute. reflexivity. Qed.
Example chat_declines : (chat (Some (ElicitResult "decline" (Some true)))).2 = ToolError (MDeclined "systemctl stop nginx" "web1").
Proof. vm_compute. reflexivity. Qed.
Example chat_runs : match (chat yes).2 with ToolOk (OExecuted r) => re_ExitCode r | _ => 1 end = 0.
Proof. vm_compute. reflexivity. Qed.

Definition is_approved_sign (ob : obs) : bool := match ob with OSign i _ => in_Approved i | _ => false end.

Definition approved_intent : Intent :=
  target_intent alice "web1" PurposeOneshot "" "systemctl stop nginx" (60 * Second) (tool_opts stop_input true) false "key".
Example chat_signs :
  (chat yes).1 = before is_approved_sign (chat yes).1 ++ OSign approved_intent (sign_now approved_intent) :: after is_approved_sign (chat yes).1.
Proof. vm_compute. reflexivity. Qed.


Definition get_tool : list obs * tool_reply getFileOutput :=
  any_run (@ssh_get_file sha map_to_list 2 broker_engine alice "web1" "/etc/motd" 4096 60).
Example get_tool_reads : get_tool.2 = ToolOk (mkGetFileOutput motd false 7 (hex_EncodeToString motd) 9 None).
Proof. vm_compute. reflexivity. Qed.

Lemma file_tools_roundtrip_witness :
  ∃ content, content = motd ∧
    @ssh_put_file sha map_to_list 2 broker_engine alice (mkPutFileInput "web2" "/etc/motd" motd false "" 60) =
    with_input map_to_list {["server" := "web2"; "path" := "/etc/motd"; "mode" := ""]} (
      r <- @PutFile sha 2 broker_engine alice "web2" "/etc/motd" content "" 60 ;;
      Ret (match r with Err err => ToolError (noElicitApprovalWording "ssh_put_file" err) | Ok res => ToolOk res end)).
Proof.
  destruct (@file_tools_roundtrip sha any_env map_to_list 2 broker_engine alice "web1" "/etc/motd" 4096 60
    get_tool.1 (mkGetFileOutput motd false 7 (hex_EncodeToString motd) 9 None)) as (content & (cn & wire & x & Hin & Hx) & _ & _ & _ & _ & Hput).
  { rewrite <-get_tool_reads. apply any_run_behaves. }
  exists content. split; [|apply (Hput "web2" "/etc/motd" "" 60)].
  rewrite <-Hx. apply list_elem_of_In in Hin. vm_compute in Hin.
  repeat (destruct Hin as [Hin|Hin]; [first [discriminate Hin|injection Hin as _ _ <-; reflexivity]|]). destruct Hin.
Defined.
