(* ===== verification/ConfCheck.v ===== *)
(** * Configuration files

    [internal/confcheck/confcheck.go]: the check for repeated keys over the token
    stream of the decoder, the removal of comment keys, and the strict load. The
    JSONC reader, [encoding/json] and the Unicode tables behind
    [strings.ToLower] and the case folding of [encoding/json] are parameters. *)

From S2P Require Import Prelude GoStrings Encoding.

(** A JSON document; the members of an object in order. *)
Inductive json :=
| JScalar (text : string)
| JString (s : string)
| JArray (elems : list json)
| JObject (members : list (string * json)).

Section json_ind.
Context (P : json → Prop) (HS : ∀ t, P (JScalar t)) (HT : ∀ s, P (JString s))
  (HA : ∀ l, Forall P l → P (JArray l)) (HO : ∀ ms, Forall (fun kv => P kv.2) ms → P (JObject ms)).
Fixpoint json_nested (v : json) : P v :=
  match v with
  | JScalar t => HS t
  | JString s => HT s
  | JArray l => HA l ((fix go l := match l return Forall P l with [] => Forall_nil_2 _ | x :: r => Forall_cons_2 _ _ _ (json_nested x) (go r) end) l)
  | JObject ms =>
      HO ms ((fix go ms := match ms return Forall (fun kv => P kv.2) ms with
                           | [] => Forall_nil_2 _
                           | kv :: r => Forall_cons_2 _ _ _ (json_nested kv.2) (go r)
                           end) ms)
  end.
End json_ind.

(** What [json.Decoder.Token] returns. *)
Inductive token := TOpenObject | TCloseObject | TOpenArray | TCloseArray | TString (s : string) | TScalar (text : string).

Fixpoint tokens (v : json) : list token :=
  match v with
  | JScalar t => [TScalar t]
  | JString s => [TString s]
  | JArray l => TOpenArray :: flat_map tokens l ++ [TCloseArray]
  | JObject ms => TOpenObject :: flat_map (fun kv => TString kv.1 :: tokens kv.2) ms ++ [TCloseObject]
  end.

(** ** Repeated keys *)

Inductive dup_error := EDuplicateKey (key first loc : string) | EDecode | EDecodeFuel.

(** [escapePointer]: the replacer works on the original text. *)
Fixpoint escapePointer (k : string) : string :=
  match k with
  | "" => ""
  | String ch r =>
      (if ascii_eqb ch "~"%char then "~0" else if ascii_eqb ch "/"%char then "~1" else String ch "") +:+ escapePointer r
  end.

Section keys.
Context (ToLower : string → string).

(** [checkDupKeys] and its two loops; [More] is false before a closing token. *)
Fixpoint checkDupKeys (fuel : nat) (toks : list token) (path : string) : result dup_error (list token) :=
  match fuel with
  | O => Err EDecodeFuel
  | S fuel =>
      match toks with
      | [] => Err EDecode
      | TOpenObject :: toks => object_loop fuel ∅ toks path
      | TOpenArray :: toks => array_loop fuel 0 toks path
      | _ :: toks => Ok toks
      end
  end
with object_loop (fuel : nat) (seen : gmap string string) (toks : list token) (path : string) : result dup_error (list token) :=
  match fuel with
  | O => Err EDecodeFuel
  | S fuel =>
      match toks with
      | TCloseObject :: toks => Ok toks
      | TString key :: toks =>
          match seen !! ToLower key with
          | Some first => Err (EDuplicateKey key first (if bool_decide (path = "") then "/" else path))
          | None =>
              match checkDupKeys fuel toks (path +:+ "/" +:+ escapePointer key) with
              | Err e => Err e
              | Ok toks => object_loop fuel (<[ToLower key := key]> seen) toks path
              end
          end
      | _ => Err EDecode
      end
  end
with array_loop (fuel : nat) (i : Z) (toks : list token) (path : string) : result dup_error (list token) :=
  match fuel with
  | O => Err EDecodeFuel
  | S fuel =>
      match toks with
      | [] => Err EDecode
      | TCloseArray :: toks => Ok toks
      | TCloseObject :: _ => Err EDecode
      | _ =>
          match checkDupKeys fuel toks (path +:+ "/" +:+ FormatInt i) with
          | Err e => Err e
          | Ok toks => array_loop fuel (i + 1) toks path
          end
      end
  end.

Definition rejectDuplicateKeys (v : json) : result dup_error (list token) :=
  checkDupKeys (length (tokens v)) (tokens v) "".

(** ** Comment keys *)

Definition is_composite (v : json) : bool := match v with JArray _ | JObject _ => true | _ => false end.

(** [strings.HasSuffix] *)
Definition HasSuffix (s suffix : string) : bool :=
  bool_decide (String.length suffix ≤ String.length s)%nat && bool_decide (sdrop (String.length s - String.length suffix) s = suffix).

Definition isCommentKey (k : string) (v : json) : bool :=
  if negb (HasPrefix k "_") || bool_decide (k = "_default") then false
  else if HasSuffix k "_comment" || HasSuffix k "_example" then true
  else negb (is_composite v).

Fixpoint strip (v : json) : json :=
  match v with
  | JObject ms =>
      JObject ((fix go ms := match ms with
                             | [] => []
                             | (k, x) :: r => if isCommentKey k x then go r else (k, strip x) :: go r
                             end) ms)
  | JArray l => JArray (map strip l)
  | _ => v
  end.

(** ** The strict load *)

(** A Go type by the keys it accepts: a struct with the names and types of its
    fields, a map, a slice, or anything else. *)
Inductive schema := SStruct (fields : list (string * schema)) | SMap (elem : schema) | SSlice (elem : schema) | SOther.

(** [encoding/json]: the field of exactly that name, else the first whose folded
    name agrees. *)
Context (fold : string → string).
Definition field_of {A : Type} (fields : list (string * A)) (k : string) : option A :=
  match List.find (fun f => bool_decide (f.1 = k)) fields with
  | Some f => Some f.2
  | None => match List.find (fun f => bool_decide (fold f.1 = fold k)) fields with Some f => Some f.2 | None => None end
  end.

(** [DisallowUnknownFields] *)
Fixpoint known_fields (v : json) (s : schema) : bool :=
  match v with
  | JObject ms =>
      match s with
      | SStruct fields => forallb (fun kv => match field_of fields kv.1 with Some s' => known_fields kv.2 s' | None => false end) ms
      | SMap s' => forallb (fun kv => known_fields kv.2 s') ms
      | _ => true
      end
  | JArray l => match s with SSlice s' => forallb (fun x => known_fields x s') l | _ => true end
  | _ => true
  end.

(** [Strict] on a document the JSONC reader accepted; [typed] is whether
    [json.Unmarshal] decodes it into the type. *)
Definition Strict (typed : schema → json → bool) (s : schema) (v : json) : bool :=
  match rejectDuplicateKeys v with
  | Err _ => false
  | Ok _ => typed s v && match rejectDuplicateKeys v with Ok _ => typed s (strip v) && known_fields (strip v) s | Err _ => false end
  end.
End keys.

(** ** Texts *)

(** [jsonPtrEscape] of [cmd/broker-ctl]: one replacement after the other. *)
Definition jsonPtrEscape (s : string) : string := ReplaceByte (ReplaceByte s "~"%char "~0") "/"%char "~1".

(** [strings.ReplaceAll] of the two bytes [a], [b] by the byte [r]. *)
Fixpoint ReplacePair (a b r : ascii) (s : string) : string :=
  match s with
  | "" => ""
  | String x s' =>
      match s' with
      | String y s'' => if ascii_eqb x a && ascii_eqb y b then String r (ReplacePair a b r s'') else String x (ReplacePair a b r s')
      | "" => String x ""
      end
  end.
Definition unescapePtr (s : string) : string := ReplacePair "~" "0" "~" (ReplacePair "~" "1" "/" s).

(** One operation of a JSON patch. *)
Inductive patch_op := OpAdd (path : string) (value : json) | OpRemove (path : string).

Section texts.
(** The document of a JSONC text; [hujson]'s patch of a text with the layout of
    what it inserts. *)
Context (ToLower : string → string) (parse : string → option json) (hujson_patch : string → list patch_op → option string).

Definition Standardize (raw : string) : option json :=
  match parse raw with
  | None => None
  | Some v => match rejectDuplicateKeys ToLower v with Ok _ => Some v | Err _ => None end
  end.

(** [Patch]: the text is checked before and after. *)
Definition Patch (raw : string) (ops : list patch_op) : option string :=
  match Standardize raw with
  | None => None
  | Some _ =>
      match hujson_patch raw ops with
      | None => None
      | Some out => match Standardize out with None => None | Some _ => Some out end
      end
  end.

(** [Unmarshal] into a type whose values [decode] makes. *)
Definition Unmarshal {A : Type} (decode : json → option A) (raw : string) : option A := Standardize raw ≫= decode.
End texts.

(** ** What the check decides *)

Section spec.
Context (ToLower : string → string).

(** No object of the document has two keys that agree up to case. *)
Fixpoint unambiguous (v : json) : bool :=
  match v with
  | JObject ms => bool_decide (NoDup (map (fun kv => ToLower kv.1) ms)) && forallb (fun kv => unambiguous kv.2) ms
  | JArray l => forallb unambiguous l
  | _ => true
  end.

Definition decides (ok : bool) (rest : list token) (r : result dup_error (list token)) : Prop :=
  if ok then r = Ok rest
  else ∃ key first loc, r = Err (EDuplicateKey key first loc) ∧ ToLower key = ToLower first.

Definition check_spec (v : json) : Prop := ∀ fuel rest path, (length (tokens v) ≤ fuel)%nat →
  decides (unambiguous v) rest (checkDupKeys ToLower fuel (tokens v ++ rest) path).

Lemma tokens_nonempty v : (1 ≤ length (tokens v))%nat.
Proof. destruct v; cbn; lia. Qed.

Lemma fresh_insert (seen : gmap string string) a (k : string) (ms : list (string * json)) :
  forallb (fun kv => bool_decide (<[a := k]> seen !! ToLower kv.1 = None)) ms =
  bool_decide (a ∉ map (fun kv => ToLower kv.1) ms) && forallb (fun kv => bool_decide (seen !! ToLower kv.1 = None)) ms.
Proof.
  induction ms as [|kv ms IH]; cbn [forallb map]; [by rewrite bool_decide_eq_true_2 by apply not_elem_of_nil|]. rewrite IH.
  destruct (decide (a = ToLower kv.1)) as [->|Hne].
  - rewrite lookup_insert_eq, (bool_decide_eq_false_2 (Some k = None)), (bool_decide_eq_false_2 (_ ∉ _ :: _)) by (set_solver || done). done.
  - rewrite lookup_insert_ne by done.
    rewrite (bool_decide_ext (a ∉ ToLower kv.1 :: map (fun kv => ToLower kv.1) ms) (a ∉ map (fun kv => ToLower kv.1) ms)) by set_solver.
    by destruct (bool_decide (seen !! _ = None)), (bool_decide (a ∉ _)).
Qed.
Lemma NoDup_cons_bool (a : string) l : bool_decide (NoDup (a :: l)) = bool_decide (a ∉ l) && bool_decide (NoDup l).
Proof. rewrite <-bool_decide_and. apply bool_decide_ext, NoDup_cons. Qed.

(** The keys seen so far are those of the members read. *)
Lemma object_loop_spec ms : Forall (fun kv => check_spec kv.2) ms → ∀ fuel (seen : gmap string string) rest path,
  (length (flat_map (fun kv => TString kv.1 :: tokens kv.2) ms) < fuel)%nat → (∀ l f, seen !! l = Some f → ToLower f = l) →
  decides (bool_decide (NoDup (map (fun kv => ToLower kv.1) ms)) && forallb (fun kv => bool_decide (seen !! ToLower kv.1 = None)) ms
           && forallb (fun kv => unambiguous kv.2) ms) rest
    (object_loop ToLower fuel seen (flat_map (fun kv => TString kv.1 :: tokens kv.2) ms ++ TCloseObject :: rest) path).
Proof.
  induction 1 as [|[k x] ms Hx Hms IH]; intros fuel seen rest path Hf Hseen; (destruct fuel as [|fuel]; [lia|]).
  { done. }
  cbn [flat_map fst snd app] in *. rewrite length_cons, length_app in Hf.
  cbn [object_loop map forallb fst snd]. destruct (seen !! ToLower k) as [first|] eqn:E.
  { rewrite (bool_decide_eq_false_2 (Some first = None)) by done. rewrite andb_false_r. cbn.
    exists k, first. eexists. split; [reflexivity|]. by rewrite (Hseen _ _ E). }
  rewrite (bool_decide_eq_true_2 (None = None)) by done. cbn [andb].
  pose proof (Hx fuel (flat_map (fun kv => TString kv.1 :: tokens kv.2) ms ++ TCloseObject :: rest)
                (path +:+ "/" +:+ escapePointer k) ltac:(lia)) as Hc.
  rewrite <-app_assoc. cbn [app snd]. cbn [snd] in Hc. unfold decides in Hc. destruct (unambiguous x); cbn [andb].
  2:{ destruct Hc as (key & first & loc & -> & Hk). rewrite andb_false_r. by exists key, first, loc. }
  rewrite Hc. specialize (IH fuel (<[ToLower k := k]> seen) rest path ltac:(lia)).
  eassert (_ = _) as ->; [|apply IH].
  - rewrite fresh_insert, NoDup_cons_bool.
    destruct (bool_decide (_ ∉ _)), (bool_decide (NoDup _)), (forallb _ ms), (forallb (fun kv => unambiguous kv.2) ms); done.
  - intros l f. destruct (decide (ToLower k = l)) as [<-|]; [rewrite lookup_insert_eq; by intros [= <-]|rewrite lookup_insert_ne by done; apply Hseen].
Qed.

Lemma array_loop_spec l : Forall check_spec l → ∀ fuel i rest path,
  (length (flat_map tokens l) < fuel)%nat →
  decides (forallb unambiguous l) rest (array_loop ToLower fuel i (flat_map tokens l ++ TCloseArray :: rest) path).
Proof.
  induction 1 as [|x l Hx Hl IH]; intros fuel i rest path Hf; (destruct fuel as [|fuel]; [lia|]); [done|].
  cbn [flat_map] in *. rewrite length_app in Hf. rewrite <-app_assoc.
  pose proof (tokens_nonempty x). pose proof (Hx fuel (flat_map tokens l ++ TCloseArray :: rest) (path +:+ "/" +:+ FormatInt i) ltac:(lia)) as Hc.
  assert (array_loop ToLower (S fuel) i (tokens x ++ flat_map tokens l ++ TCloseArray :: rest) path =
    match checkDupKeys ToLower fuel (tokens x ++ flat_map tokens l ++ TCloseArray :: rest) (path +:+ "/" +:+ FormatInt i) with
    | Err e => Err e
    | Ok toks => array_loop ToLower fuel (i + 1) toks path
    end) as -> by by destruct x.
  unfold decides in Hc. cbn [forallb]. destruct (unambiguous x); cbn [andb].
  - rewrite Hc. apply IH. lia.
  - destruct Hc as (key & first & loc & -> & Hk). by exists key, first, loc.
Qed.

Lemma check_all v : check_spec v.
Proof.
  induction v as [t|t|l IH|ms IH] using json_nested; intros [|fuel] rest path Hf; cbn [tokens length] in Hf; try lia; [done..| |].
  - cbn [tokens checkDupKeys unambiguous app]. rewrite <-app_assoc. cbn [app]. apply array_loop_spec; [done|]. rewrite length_app in Hf. cbn in Hf. lia.
  - cbn [tokens checkDupKeys unambiguous app]. rewrite <-app_assoc. cbn [app].
    assert (∀ seen : gmap string string, seen = ∅ → forallb (fun kv => bool_decide (seen !! ToLower kv.1 = None)) ms = true) as Hempty.
    { intros seen ->. apply forallb_forall. intros kv _. apply bool_decide_eq_true_2. by rewrite lookup_empty. }
    pose proof (object_loop_spec ms IH fuel ∅ rest path) as H. rewrite (Hempty ∅ eq_refl), andb_true_r in H. apply H; [|by intros ? ? ?].
    rewrite length_app in Hf. cbn in Hf. lia.
Qed.

Lemma duplicate_keys_check v :
  (unambiguous v = true → rejectDuplicateKeys ToLower v = Ok []) ∧
  (unambiguous v = false → ∃ key first loc,
     rejectDuplicateKeys ToLower v = Err (EDuplicateKey key first loc) ∧ ToLower key = ToLower first).
Proof.
  pose proof (check_all v (length (tokens v)) [] "" ltac:(lia)) as H. rewrite app_nil_r in H. unfold rejectDuplicateKeys.
  unfold decides in H. by destruct (unambiguous v); split.
Qed.

(** The check for repeated keys is exact and always ends. On the tokens of
    any document it accepts precisely when no object in it, at any depth, has
    two keys that agree up to case; otherwise it names two keys of one object
    that do. The fuel, one step per token, is never exhausted. *)
Theorem duplicate_keys_exact v :
  (rejectDuplicateKeys ToLower v = Ok [] ↔ unambiguous v = true) ∧
  (unambiguous v = false → ∃ key first loc,
     rejectDuplicateKeys ToLower v = Err (EDuplicateKey key first loc) ∧ ToLower key = ToLower first).
Proof.
  destruct (duplicate_keys_check v) as [H1 H2]. split; [|done]. split; [|done].
  destruct (unambiguous v); [done|]. destruct (H2 eq_refl) as (? & ? & ? & -> & _). done.
Qed.
End spec.

(** ** Pointers and texts *)

(** Both escapes agree, leave no separator, and [unescapePtr] undoes them: a
    pointer names the entry it was built for. *)
Lemma jsonPtrEscape_escapePointer s : jsonPtrEscape s = escapePointer s.
Proof.
  unfold jsonPtrEscape. induction s as [|c s IH]; [done|]. cbn [ReplaceByte escapePointer].
  destruct (ascii_eqb c "~"%char) eqn:E; cbn [String.append ReplaceByte]; [by rewrite <-IH|].
  by rewrite <-IH.
Qed.
Lemma escapePointer_no_slash s : ContainsByte (escapePointer s) "/"%char = false.
Proof.
  induction s as [|c s IH]; [done|]. unfold ContainsByte in *. cbn [escapePointer].
  destruct (ascii_eqb c "~"%char) eqn:E1; [done|]. destruct (ascii_eqb c "/"%char) eqn:E2; [done|].
  cbn [String.append exists_char]. rewrite IH, orb_false_r. unfold ascii_eqb in *. apply bool_decide_eq_false in E2.
  by apply bool_decide_eq_false.
Qed.
(** After the first pass only the tildes are escaped. *)
Lemma unescape_slashes s : ReplacePair "~" "1" "/" (escapePointer s) = ReplaceByte s "~"%char "~0".
Proof.
  induction s as [|c s IH]; [done|]. cbn [escapePointer ReplaceByte].
  destruct (ascii_eqb c "~"%char) eqn:E1; cbn [String.append].
  { cbn [ReplacePair]. rewrite <-IH. by destruct (escapePointer s). }
  destruct (ascii_eqb c "/"%char) eqn:E2; cbn [String.append].
  { apply bool_decide_eq_true in E2 as ->. cbn [ReplacePair]. cbn. by rewrite IH. }
  rewrite <-IH. cbn [ReplacePair]. rewrite E1. by destruct (escapePointer s).
Qed.
Lemma unescape_tildes s : ReplacePair "~" "0" "~" (ReplaceByte s "~"%char "~0") = s.
Proof.
  induction s as [|c s IH]; [done|]. cbn [ReplaceByte]. destruct (ascii_eqb c "~"%char) eqn:E; cbn [String.append].
  - apply bool_decide_eq_true in E as ->. cbn [ReplacePair]. cbn. by rewrite IH.
  - cbn [ReplacePair]. rewrite E. cbn [andb]. rewrite <-IH at 2. by destruct (ReplaceByte s _ _).
Qed.
Lemma unescapePtr_escape s : unescapePtr (jsonPtrEscape s) = s.
Proof. unfold unescapePtr. by rewrite jsonPtrEscape_escapePointer, unescape_slashes, unescape_tildes. Qed.

Lemma Standardize_unambiguous ToLower parse raw v : Standardize ToLower parse raw = Some v →
  parse raw = Some v ∧ unambiguous ToLower v = true.
Proof.
  unfold Standardize. destruct (parse raw) as [v'|]; [|done]. destruct (rejectDuplicateKeys ToLower v') eqn:E; [|done].
  intros [= ->]. split; [done|]. destruct (unambiguous ToLower v) eqn:Eu; [done|].
  destruct (proj2 (duplicate_keys_check ToLower v) Eu) as (? & ? & ? & ? & _). congruence.
Qed.

Lemma Patch_unambiguous ToLower parse hp raw ops out : Patch ToLower parse hp raw ops = Some out →
  ∃ v, parse out = Some v ∧ unambiguous ToLower v = true.
Proof.
  unfold Patch. destruct (Standardize _ _ raw); [|done]. destruct (hp raw ops); [|done].
  destruct (Standardize _ _ _) as [v|] eqn:E; [|done]. intros [= ->]. exists v. by apply Standardize_unambiguous.
Qed.

(** ** Readers of one document *)

Section readers.
Context (ToLower fold : string → string).

(** The member a JSON pointer names: the first of exactly that name, which is
    the one a rewrite of the file edits. *)
Fixpoint pointer (v : json) (path : list string) : option json :=
  match path with
  | [] => Some v
  | k :: path =>
      match v with
      | JObject ms => match List.find (fun kv => bool_decide (kv.1 = k)) ms with Some kv => pointer kv.2 path | None => None end
      | _ => None
      end
  end.
(** The value the loader leaves in a field: the last member whose name folds to
    the field's. *)
Fixpoint loaded (v : json) (path : list string) : option json :=
  match path with
  | [] => Some v
  | k :: path =>
      match v with
      | JObject ms => match List.find (fun kv => bool_decide (fold kv.1 = fold k)) (rev ms) with Some kv => loaded kv.2 path | None => None end
      | _ => None
      end
  end.

(** ASCII names, on which both foldings only merge the cases of a letter. *)
Definition ascii_name (k : string) : bool := forall_char (fun c => byte_of c <? 128) k.
Fixpoint ascii_keys (v : json) : bool :=
  match v with
  | JObject ms => forallb (fun kv => ascii_name kv.1 && ascii_keys kv.2) ms
  | JArray l => forallb ascii_keys l
  | _ => true
  end.
Hypothesis folds_agree : ∀ k k', ascii_name k = true → ascii_name k' = true → fold k = fold k' → ToLower k = ToLower k'.

Lemma find_agrees (ms : list (string * json)) k kv :
  NoDup (map (fun kv => ToLower kv.1) ms) → (∀ kv, In kv ms → ascii_name kv.1 = true) →
  List.find (fun kv => bool_decide (kv.1 = k)) ms = Some kv →
  List.find (fun kv => bool_decide (fold kv.1 = fold k)) (rev ms) = Some kv.
Proof.
  intros Hnd Has [Hin Hk%bool_decide_eq_true_1]%find_some.
  destruct (List.find (fun kv => bool_decide (fold kv.1 = fold k)) (rev ms)) as [kv'|] eqn:E.
  - apply find_some in E as [Hin' Hk'%bool_decide_eq_true_1]. apply in_rev in Hin'. f_equal.
    apply list_elem_of_In in Hin as Hi, Hin' as Hi'. apply list_elem_of_lookup in Hi as [i Hi], Hi' as [j Hj].
    assert (i = j) as ->; [|congruence].
    apply (NoDup_lookup ((fun kv => ToLower kv.1) <$> ms) i j (ToLower k) Hnd); rewrite list_lookup_fmap; [rewrite Hi|rewrite Hj]; cbn; f_equal.
    + by rewrite Hk.
    + apply folds_agree; [by apply Has| |done]. rewrite <-Hk. by apply Has.
  - exfalso. eapply find_none in E; [|by apply in_rev; rewrite rev_involutive; exact Hin]. by rewrite Hk, bool_decide_eq_true_2 in E.
Qed.

(** A document of ASCII keys that passes the check reads the same to
    everyone. Whatever member a JSON pointer names, which is what an edit of the configuration
    rewrites, the loader leaves exactly that value in the field of that name,
    at every depth, although the one takes the first exact match and the other
    the last match up to case. *)
Theorem edit_and_load_agree v path x :
  rejectDuplicateKeys ToLower v = Ok [] → ascii_keys v = true → pointer v path = Some x → loaded v path = Some x.
Proof.
  intros Hr. assert (unambiguous ToLower v = true) as Hu.
  { destruct (unambiguous ToLower v) eqn:E; [done|]. destruct (proj2 (duplicate_keys_check ToLower v) E) as (? & ? & ? & H & _). congruence. }
  clear Hr. revert v Hu. induction path as [|k path IH]; intros v Hu Ha; [done|]. cbn [pointer loaded].
  destruct v as [| | |ms]; try done. cbn [unambiguous ascii_keys] in Hu, Ha. apply andb_true_iff in Hu as [Hnd%bool_decide_eq_true_1 Hms].
  rewrite forallb_forall in Hms, Ha.
  assert (∀ kv, In kv ms → ascii_name kv.1 = true ∧ ascii_keys kv.2 = true) as Hk by (intros kv Hin; by apply andb_true_iff, Ha).
  destruct (List.find _ ms) as [kv|] eqn:E; [|done]. rewrite (find_agrees _ _ _ Hnd (fun kv Hin => proj1 (Hk kv Hin)) E).
  apply IH; [by apply Hms, (find_some _ _ E)|by apply Hk, (find_some _ _ E)].
Qed.
End readers.

(** ** The strict load *)

Section strict.
Context (ToLower fold : string → string) (typed : schema → json → bool).

(** A member at a place where the type has a struct. *)
Inductive struct_member : schema → json → list (string * schema) → string → json → Prop :=
| sm_here fields ms k x : (k, x) ∈ ms → struct_member (SStruct fields) (JObject ms) fields k x
| sm_field fields ms k x s f k' x' : (k, x) ∈ ms → isCommentKey k x = false → field_of fold fields k = Some s →
    struct_member s x f k' x' → struct_member (SStruct fields) (JObject ms) f k' x'
| sm_map s ms k x f k' x' : (k, x) ∈ ms → isCommentKey k x = false →
    struct_member s x f k' x' → struct_member (SMap s) (JObject ms) f k' x'
| sm_slice s l x f k' x' : x ∈ l → struct_member s x f k' x' → struct_member (SSlice s) (JArray l) f k' x'.

Fixpoint strip_members (ms : list (string * json)) : list (string * json) :=
  match ms with [] => [] | (k, x) :: r => if isCommentKey k x then strip_members r else (k, strip x) :: strip_members r end.
Lemma strip_object ms : strip (JObject ms) = JObject (strip_members ms).
Proof. reflexivity. Qed.
Lemma strip_members_elem ms k x : (k, x) ∈ ms → isCommentKey k x = false → (k, strip x) ∈ strip_members ms.
Proof.
  intros Hin Hc. induction ms as [|[k' x'] ms IH]; [by apply not_elem_of_nil in Hin|]. cbn [strip_members].
  apply elem_of_cons in Hin as [[= <- <-]|Hin]; [rewrite Hc; by left|]. destruct (isCommentKey k' x'); [|right]; auto.
Qed.

Lemma stripped_member s v f k x : known_fields fold (strip v) s = true → struct_member s v f k x →
  isCommentKey k x = true ∨ ∃ s', field_of fold f k = Some s'.
Proof.
  intros Hk H. induction H as [fields ms k x Hin|fields ms k x s f k' x' Hin Hc Hf _ IH|s ms k x f k' x' Hin Hc _ IH|s l x f k' x' Hin _ IH].
  - destruct (isCommentKey k x) eqn:E; [by left|right]. rewrite strip_object in Hk. cbn [known_fields] in Hk.
    rewrite forallb_forall in Hk. pose proof (Hk _ (proj1 (list_elem_of_In _ _) (strip_members_elem _ _ _ Hin E))) as H. cbn in H.
    destruct (field_of fold fields k); [eauto|done].
  - apply IH. rewrite strip_object in Hk. cbn [known_fields] in Hk. rewrite forallb_forall in Hk.
    pose proof (Hk _ (proj1 (list_elem_of_In _ _) (strip_members_elem _ _ _ Hin Hc))) as H. cbn in H. by rewrite Hf in H.
  - apply IH. rewrite strip_object in Hk. cbn [known_fields] in Hk. rewrite forallb_forall in Hk.
    exact (Hk _ (proj1 (list_elem_of_In _ _) (strip_members_elem _ _ _ Hin Hc))).
  - apply IH. cbn [strip known_fields] in Hk. rewrite forallb_forall in Hk. apply Hk, in_map. by apply list_elem_of_In.
Qed.

(** A mistyped control never loads. When [Strict] accepts a configuration,
    every member at a place where the type has a struct, at any depth below
    fields, maps and lists, is either a field of that struct or a comment; and no
    object of the file repeats a key. *)
Theorem strict_rejects_typos s v f k x :
  Strict ToLower fold typed s v = true → struct_member s v f k x →
  (isCommentKey k x = true ∨ ∃ s', field_of fold f k = Some s') ∧ typed s v = true ∧ unambiguous ToLower v = true.
Proof.
  unfold Strict. intros H Hm. destruct (rejectDuplicateKeys ToLower v) eqn:E; [|done].
  apply andb_true_iff in H as [Ht [_ Hk]%andb_true_iff]. split; [by eapply stripped_member|]. split; [done|].
  destruct (unambiguous ToLower v) eqn:Eu; [done|]. destruct (proj2 (duplicate_keys_check ToLower v) Eu) as (? & ? & ? & ? & _). congruence.
Qed.
End strict.

(** ** Documents *)

(** Lower case of the ASCII letters; other runes stay, U+017F (long s), which is
    a lower-case letter, among them. *)
Definition ascii_lower (c : ascii) : ascii := if in_range 65 90 c then byte_chr (byte_of c + 32) else c.
Fixpoint lower (s : string) : string := match s with "" => "" | String c r => String (ascii_lower c) (lower r) end.
(** Case folding: besides, the long s folds with s. *)
Fixpoint fold_name (s : string) : string :=
  match s with
  | "" => ""
  | String c r =>
      match r with
      | String d r' =>
          if (byte_of c =? 197) && (byte_of d =? 191) then String "s"%char (fold_name r') else String (ascii_lower c) (fold_name r)
      | "" => String (ascii_lower c) ""
      end
  end.

Definition signer_schema : schema :=
  SStruct [("sign_callers", SSlice SOther); ("hosts", SMap (SStruct [("addr", SOther); ("allow_sudo", SOther)]))].
Definition host_doc (addr : string) : json := JObject [("addr", JString addr); ("allow_sudo", JScalar "false"); ("_note", JString "rack 4")].
Definition good_doc : json :=
  JObject [("sign_callers", JArray [JString "broker1"]); ("hosts", JObject [("web1", host_doc "10.0.0.1:22")]); ("_comment", JString "x")].

Example good_doc_loads : Strict lower lower (fun _ _ => true) signer_schema good_doc = true.
Proof. vm_compute. reflexivity. Qed.
Example typo_refused :
  Strict lower lower (fun _ _ => true) signer_schema (JObject [("sign_caller", JArray [JString "broker1"])]) = false.
Proof. vm_compute. reflexivity. Qed.
Example case_duplicate_refused :
  rejectDuplicateKeys lower (JObject [("hosts", JObject [("web1", JObject [("addr", JString "a"); ("Addr", JString "b")])])])
  = Err (EDuplicateKey "Addr" "addr" "/hosts/web1").
Proof. vm_compute. reflexivity. Qed.

Lemma edit_and_load_agree_witness : loaded lower good_doc ["hosts"; "web1"; "addr"] = Some (JString "10.0.0.1:22").
Proof. apply (edit_and_load_agree lower lower (fun k k' _ _ H => H) good_doc ["hosts"; "web1"; "addr"]); vm_compute; reflexivity. Defined.

Lemma strict_rejects_typos_witness : isCommentKey "_note" (JString "rack 4") = true.
Proof.
  destruct (strict_rejects_typos lower lower (fun _ _ => true) signer_schema good_doc
    [("addr", SOther); ("allow_sudo", SOther)] "_note" (JString "rack 4")) as [[H|[s' H]] _]; [vm_compute; reflexivity| |exact H|vm_compute in H; discriminate].
  apply sm_field with "hosts" (JObject [("web1", host_doc "10.0.0.1:22")]) (SMap (SStruct [("addr", SOther); ("allow_sudo", SOther)])).
  - right. left.
  - reflexivity.
  - reflexivity.
  - apply sm_map with "web1" (host_doc "10.0.0.1:22"); [left|reflexivity|]. apply sm_here. right. right. left.
Defined.

(** The check compares lower-cased keys, the loader folded ones: two spellings of
    one field, the second with a long s, pass the check, and an edit rewrites the
    first while the loader takes the second. *)
Definition long_s : string := string_of_bytes [197; 191].
Definition two_spellings : json :=
  JObject [("sign_callers", JArray [JString "broker1"]); (long_s +:+ "ign_callers", JArray [JString "other"])].
Theorem long_s_slips_through :
  rejectDuplicateKeys lower two_spellings = Ok [] ∧
  pointer two_spellings ["sign_callers"] = Some (JArray [JString "broker1"]) ∧
  loaded fold_name two_spellings ["sign_callers"] = Some (JArray [JString "other"]) ∧
  known_fields fold_name two_spellings signer_schema = true.
Proof. split_and!; vm_compute; reflexivity. Qed.
