(* ===== verification/LocalMode.v ===== *)
(** * Starting the broker

    [NewEngine], [buildSigner], [policyFromHosts] and
    [ignoredRemoteFieldsWarning] of [internal/broker/engine.go]: from the
    configuration to an engine and, in local mode, its in-process signer. *)

From S2P Require Import Prelude GoStrings CmdPolicy PolicySet Encoding K8sAction Intent Freeze Grants CA Elevate Crypto Sealed HostPolicy K8sPolicy Signer Sessions Revocation Prog Broker Engine EngineFiles Routes EngineSessions EngineRun EngineSessionRun EndToEnd AuditStore ServiceConfig.

(** The fields of [Config] that start-up reads; [bc_Signer] is [Signer != nil]. *)
Record Config := mkBrokerConfig {
  bc_Signer : bool;
  bc_CAKey : string;
  bc_CAKeys : gmap string CAKeyConfig;
  bc_AuditFailMode : string;
  bc_SourceAddress : string;
  bc_MaxTTLSeconds : Z;
  bc_SessionIdleSeconds : Z;
  bc_SessionMaxSeconds : Z;
  bc_SessionRecordingDir : string;
  bc_SessionRecordingStrict : bool;
  bc_FileTransferMaxBytes : Z;
  bc_Hosts : gmap string HostConfig;
  bc_CommandPolicies : gmap string CommandPolicy;
  bc_GroupCommandPolicies : gmap string (list string);
}.

(** ** The policy of a local configuration *)

(** The hosts some host jumps through. *)
Definition jumpTargets (hosts : gmap string HostConfig) : gset string :=
  list_to_set (List.filter (fun j => negb (bool_decide (j = ""))) (map (fun kv => hc_Jump kv.2) (map_to_list hosts))).

Definition policy_of (cfg : Config) (name : string) (hc : HostConfig) : HostPolicy :=
  mkHostPolicy (hc_Addr hc) (hc_User hc) (hc_HostKey hc) (hc_Jump hc) (hc_Principal hc)
    (if bool_decide (hc_SourceAddress hc ≠ "") then hc_SourceAddress hc else bc_SourceAddress cfg) 0 0
    (hc_AllowAsBastion hc || bool_decide (name ∈ jumpTargets (bc_Hosts cfg))) [] (hc_AllowSudo hc) (hc_AllowedSudoUsers hc)
    (hc_AllowPTY hc) (hc_AllowFileTransfer hc) (hc_Groups hc) false (hc_CommandPolicy hc) [].
Definition policyFromHosts (cfg : Config) : PolicyTable := map_imap (fun name hc => Some (policy_of cfg name hc)) (bc_Hosts cfg).

(** ** Fields a remote configuration ignores *)

Definition hostCommandPolicySet (cp : CommandPolicy) : bool :=
  bool_decide (cp_Mode cp ≠ "") || bool_decide (cp_Enforcement cp ≠ "") || bool_decide (cp_Allow cp ≠ []) || bool_decide (cp_Deny cp ≠ []) ||
  bool_decide (cp_RequireApproval cp ≠ []) || bool_decide (cp_ShellParse cp ≠ None).

Definition noted (b : bool) (name : string) : list string := if b then [name] else [].
Definition ignored_top (cfg : Config) : list string :=
  noted (bool_decide (bc_CAKey cfg ≠ "")) "ca_key" ++ noted (bool_decide (bc_CAKeys cfg ≠ ∅)) "ca_keys" ++
  noted (bool_decide (bc_CommandPolicies cfg ≠ ∅)) "command_policies" ++
  noted (bool_decide (bc_GroupCommandPolicies cfg ≠ ∅)) "group_command_policies" ++
  noted (bool_decide (bc_SourceAddress cfg ≠ "")) "source_address".
Definition ignored_host (hc : HostConfig) : list string :=
  noted (bool_decide (hc_Principal hc ≠ "")) "principal" ++ noted (bool_decide (hc_SourceAddress hc ≠ "")) "source_address" ++
  noted (hostCommandPolicySet (hc_CommandPolicy hc)) "command_policy" ++ noted (hc_AllowSudo hc) "allow_sudo" ++
  noted (bool_decide (hc_AllowedSudoUsers hc ≠ [])) "allowed_sudo_users" ++ noted (hc_AllowPTY hc) "allow_pty" ++
  noted (hc_AllowFileTransfer hc) "allow_file_transfer" ++ noted (hc_AllowAsBastion hc) "allow_as_bastion".
Definition host_notes (cfg : Config) : list string :=
  flat_map (fun name =>
    match bc_Hosts cfg !! name with
    | Some hc => match ignored_host hc with [] => [] | f => [name +:+ ": " +:+ Join f ", "] end
    | None => []
    end) (merge_sort String.le (map_to_list (bc_Hosts cfg)).*1).

Definition ignoredRemoteFieldsWarning (cfg : Config) : string :=
  if negb (bc_Signer cfg) then "" else
  let top := ignored_top cfg in
  let hostNotes := host_notes cfg in
  if bool_decide (top = []) && bool_decide (hostNotes = []) then "" else
  "remote mode (signer block set): ignoring local-mode config —" +:+
  (if bool_decide (top = []) then "" else " " +:+ Join top ", ") +:+
  (if bool_decide (hostNotes = []) then "" else
   (if bool_decide (top = []) then "" else ";") +:+ " policy fields on " +:+ FormatInt (Z.of_nat (length hostNotes)) +:+
   " host(s) (" +:+ Join hostNotes "; " +:+ ")") +:+
  ". Host inventory and policy come from the signer.".

(** ** Start-up *)

(** [time.Duration(n) * time.Second], or the default when that is not positive. *)
Definition seconds_or (n : Z) (default : duration) : duration :=
  let d := wrap64 (n * Second) in if d <=? 0 then default else d.

Inductive start_error :=
| EFileTransferMax
| EClientTLS
| EMaxTTL (n : Z)
| ELoadCAKeys (e : load_error)
| EHostPolicy (e : signer_error)
| EIdentity
| EOpenAudit
| EFailMode
| EHostLoad
| EClusterLoad.

(** What start-up finds outside: the client TLS files, the name in the client
    certificate, the audit log, and the signer's first answers. *)
Record surroundings := mkSurroundings {
  su_tls : bool;
  su_cn : option string;
  su_audit : bool;
  su_hosts : option (gmap string HostInfo);
  su_clusters : bool;
}.

Section start.
Context `{RE : RegexpEngine} (keys : key_backends) (iterK : range_order CAKeyConfig).
Context (iterL : range_order CommandPolicy) (iterG : range_order (list string)) (iterH : range_order HostPolicy).

(** No local signer is a remote one. *)
Definition buildSigner (su : surroundings) (cfg : Config) (maxTTL : duration) : result start_error (option Local) :=
  if bc_Signer cfg then guard! su_tls su else EClientTLS in Ok None else
  guard! bc_MaxTTLSeconds cfg <=? 900 else EMaxTTL (bc_MaxTTLSeconds cfg) in
  let! cas := rmap_err ELoadCAKeys (LoadGroupCAs keys iterK (bc_CAKey cfg) (bc_CAKeys cfg)) in
  let! compiled := rmap_err EHostPolicy
    (CompileHostPolicies iterL iterG iterH (policyFromHosts cfg) (bc_CommandPolicies cfg) (bc_GroupCommandPolicies cfg)) in
  Ok (Some (NewLocalWithGrants cas.1 cas.2 compiled maxTTL None)).

(** The first load of hosts and clusters; nothing to do without a signer. *)
Definition initRemoteMode (su : surroundings) (remote : bool) : result start_error (gmap string HostInfo) :=
  if negb remote then Ok ∅ else
  match su_hosts su with
  | None => Err EHostLoad
  | Some h => guard! su_clusters su else EClusterLoad in Ok h
  end.

(** [NewEngine]: the warning it logs, and the engine with its signer, session
    table and host cache. *)
Definition NewEngine (su : surroundings) (cfg : Config) :
    string * result start_error (Engine * option Local * sessionManager * gmap string HostInfo) :=
  (ignoredRemoteFieldsWarning cfg,
   guard! bc_FileTransferMaxBytes cfg <=? MaxFileTransferMaxBytes else EFileTransferMax in
   let maxTTL := seconds_or (bc_MaxTTLSeconds cfg) (5 * Minute) in
   let! sgn := buildSigner su cfg maxTTL in
   let! own := (if bc_Signer cfg then match su_cn su with Some cn => Ok cn | None => Err EIdentity end else Ok localCaller) in
   guard! su_audit su else EOpenAudit in
   match FailClosed (bc_AuditFailMode cfg) with
   | None => Err EFailMode
   | Some closed =>
       let! hosts := initRemoteMode su (bc_Signer cfg) in
       Ok (mkEngine (bc_Hosts cfg) (bc_SourceAddress cfg) (bc_Signer cfg) maxTTL closed own (bc_SessionRecordingDir cfg)
             (bc_SessionRecordingStrict cfg) (bc_FileTransferMaxBytes cfg),
           sgn, newSessionManager (seconds_or (bc_SessionIdleSeconds cfg) (5 * Minute)) (seconds_or (bc_SessionMaxSeconds cfg) (30 * Minute)), hosts)
   end).
End start.

(** ** What local mode enforces *)

Lemma policyFromHosts_lookup cfg name hp : policyFromHosts cfg !! name = Some hp ↔
  ∃ hc, bc_Hosts cfg !! name = Some hc ∧ hp = policy_of cfg name hc.
Proof. unfold policyFromHosts. rewrite map_lookup_imap. destruct (bc_Hosts cfg !! name); simpl; naive_solver. Qed.

(** Only a host that another one jumps through. *)
Lemma jumpTargets_spec hosts name :
  name ∈ jumpTargets hosts ↔ name ≠ "" ∧ ∃ other hc, hosts !! other = Some hc ∧ hc_Jump hc = name.
Proof.
  unfold jumpTargets. rewrite elem_of_list_to_set, list_elem_of_In, filter_In, in_map_iff. split.
  - intros [([other hc] & <- & Hin) Hne%negb_true_iff%bool_decide_eq_false]. split; [done|].
    apply list_elem_of_In, elem_of_map_to_list in Hin. by exists other, hc.
  - intros (Hne & other & hc & Hh & <-). split; [|by apply negb_true_iff, bool_decide_eq_false].
    exists (other, hc). split; [done|]. by apply list_elem_of_In, elem_of_map_to_list.
Qed.

Section confined.
Context `{RE : RegexpEngine} `{SP : ShellParser} `{ED : Ed25519} `{EJ : EnvelopeJSON} (keys : key_backends) (iterK : range_order CAKeyConfig).
Context (iterL : range_order CommandPolicy) (iterG : range_order (list string)) (iterH : range_order HostPolicy).
Context `{!RangeOrder iterL} `{!RangeOrder iterH}.

(** The compiled policy of a host of the configuration. *)
Definition compiled_policy (cfg : Config) (name : string) (hc : HostConfig) : HostPolicy :=
  set_Policies (composePolicies (policy_of cfg name hc) (bc_CommandPolicies cfg) (bc_GroupCommandPolicies cfg)) (policy_of cfg name hc).

Record serves (cfg : Config) (e : Engine) (l : Local) : Prop := mkServes {
  sv_local : e_remote e = false;
  sv_hosts : e_Hosts e = bc_Hosts cfg;
  sv_grants : l_grants l = None;
  sv_policy : ∀ name hp, l_policy l !! name = Some hp →
    host_compiled hp ∧ ∃ hc, bc_Hosts cfg !! name = Some hc ∧ hp = compiled_policy cfg name hc;
}.

Lemma NewEngine_local su cfg w e l sm hs :
  NewEngine keys iterK iterL iterG iterH su cfg = (w, Ok (e, Some l, sm, hs)) → serves cfg e l.
Proof.
  unfold NewEngine. intros [= _ H]. apply guard_Ok in H as [_ H]. apply rbind_Ok in H as (sgn & Hb & H).
  apply rbind_Ok in H as (own & _ & H). apply guard_Ok in H as [_ H]. destruct (FailClosed _) as [closed|]; [|done].
  apply rbind_Ok in H as (h & _ & [= <- -> _ _]). unfold buildSigner in Hb.
  destruct (bc_Signer cfg) eqn:Er; [apply guard_Ok in Hb as [_ ?]; done|].
  apply guard_Ok in Hb as [_ Hb]. apply rbind_Ok in Hb as (cas & _ & Hb). apply rbind_Ok in Hb as (p & Hp & [= <-]).
  split; [done..|]. cbn [l_policy NewLocalWithGrants]. intros name hp Hl.
  destruct (CompileHostPolicies iterL iterG iterH (policyFromHosts cfg) (bc_CommandPolicies cfg) (bc_GroupCommandPolicies cfg)) eqn:E; [|done].
  injection Hp as ->. destruct (CompileHostPolicies_host _ _ _ _ _ _ _ _ _ E Hl) as (Hc & hp0 & H0 & -> & _).
  split; [done|]. apply policyFromHosts_lookup in H0 as (hc & Hh & ->). by exists hc.
Qed.

(** What a certificate carries whatever it was issued for. *)
Lemma signed_cert l senv i iss err cert :
  SignIntent l senv i = (Some iss, err) → is_Certificate iss = Some cert →
  ∃ hp, l_policy l !! in_Host i = Some hp ∧ authorized hp i ∧
    (hp_SourceAddress hp ≠ "" → cert_CriticalOptions cert !! "source-address" = Some (hp_SourceAddress hp)) ∧
    (is_Some (cert_Extensions cert !! "permit-port-forwarding") → in_Role i = RoleBastion).
Proof.
  intros Hs Hc. destruct (SignIntent_cert _ _ _ _ _ _ Hs Hc) as (_ & _ & _ & _ & d & hp & Hres & Hhp & _ & Hb).
  exists hp. split; [done|]. apply resolve_inv in Hres as (hp' & elev & cp & Hhp' & Hr). assert (hp' = hp) as -> by congruence.
  apply BuildAndSign_Ok in Hb as (_ & _ & _ & _ & _ & ->).
  destruct (rs_constraints _ _ _ _ _ _ _ _ Hr) as (fc & Hcon & _). split; [by eapply rs_auth|]. rewrite Hcon. split.
  - intros Hne. cbn. unfold set_if. rewrite (bool_decide_eq_true_2 (hp_SourceAddress hp ≠ "")) by done.
    case_bool_decide; by simplify_map_eq.
  - intros Hx. apply cert_of_extensions in Hx as [[? _]|[_ Hx]]; [done|]. by apply bool_decide_eq_true in Hx.
Qed.

(** A hop to a host of the configuration, with its pinned key. *)
Definition configured (env : environment) (cfg : Config) (name : string) (hc : HostConfig) (hop : Hop) : Prop :=
  bc_Hosts cfg !! name = Some hc ∧ hop_Addr hop = hc_Addr hc ∧ hop_User hop = hc_User hc ∧
  env_hostkey env (hc_HostKey hc) = Some (hop_HostKey hop).

Lemma hop_configured env cfg e l h intent name hi hop iss :
  serves cfg e l → (∀ i x, env_sgn env i x → local_sgn l i x) → hop_good env e h intent name hi hop iss →
  ∃ hc pub senv, configured env cfg name hc hop ∧ SignIntent l senv (intent name pub) = (Some iss, None) ∧
    is_Certificate iss = Some (hop_Certificate hop).
Proof.
  intros [Hl Hh _ _] Hsgn (pub & Hk & Ha & Hu & Hkey & _ & Hs & Hc). unfold known in Hk. rewrite Hl, Hh in Hk.
  destruct Hk as (hc & Hhc & ->). apply Hsgn in Hs as (senv & Hs). symmetry in Hs. apply local_answer_Ok in Hs.
  by exists hc, pub, senv.
Qed.

(** A bastion the configuration offers as one, and whose own policy restricts
    nothing. *)
Definition bastion_allowed (env : environment) (cfg : Config) (hop : Hop) : Prop :=
  ∃ name hc, configured env cfg name hc hop ∧
    (hc_AllowAsBastion hc = true ∨ ∃ other hc', bc_Hosts cfg !! other = Some hc' ∧ hc_Jump hc' = name) ∧
    ps_Restricts (effectivePolicies (compiled_policy cfg name hc)) = false.

Lemma bastion_good_allowed env cfg e l c ttl purpose h name hi hop iss :
  serves cfg e l → (∀ i x, env_sgn env i x → local_sgn l i x) → hop_good env e h (bastion_of c ttl purpose) name hi hop iss →
  bastion_allowed env cfg hop.
Proof.
  intros Hsv Hsgn Hg. destruct (hop_configured _ _ _ _ _ _ _ _ _ _ Hsv Hsgn Hg) as (hc & pub & senv & Hcf & Hs & Hc).
  destruct (signed_cert _ _ _ _ _ _ Hs Hc) as (hp & Hhp & Hau & _). destruct (sv_policy _ _ _ Hsv _ _ Hhp) as (_ & hc' & Hh & ->).
  destruct Hcf as (Hh0 & Hcf). assert (hc' = hc) as -> by (cbn in Hh; congruence). exists name, hc. split; [done|].
  split; [|destruct (ps_Restricts _) eqn:E; [by apply (au_policy _ _ Hau) in E|done]].
  pose proof (au_bastion _ _ Hau eq_refl) as Hb. cbn in Hb. apply orb_true_iff in Hb as [Hb|Hb]; [by left|right].
  apply bool_decide_eq_true, jumpTargets_spec in Hb as (_ & Hb). exact Hb.
Qed.

(** [C4] A broker in local mode does only what its configuration says. When
    [NewEngine] starts an engine with an in-process signer, every one-shot
    command it sends goes to a host of the configuration, at the configured
    address and account and with the configured host key pinned, under a
    certificate without port forwarding and bound to the host's own source
    address, or else the global one, if one is set; where the composed policy of
    that host (its own and those of its groups) restricts and enforces, the
    certificate is pinned to the command, which the policy does not deny, and
    gates only if the request carries an approval. Every bastion on the way is a
    host of the configuration that is marked as one or that another host jumps
    through, and has no command policy to circumvent. *)
Theorem local_broker_confined su cfg w e l sm hs env fuel c host command ttlSeconds opts t o t1 cn cmd pty stdin r t2 :
  NewEngine keys iterK iterL iterG iterH su cfg = (w, Ok (e, Some l, sm, hs)) →
  (∀ i x, env_sgn env i x → local_sgn l i x) →
  behaves env (Execute fuel e c host command ttlSeconds opts) t o → t = t1 ++ OExec cn cmd pty stdin r :: t2 →
  cmd = command ∧
  ∃ hc bastions hop, ODial (bastions ++ [hop]) (Some cn) ∈ t1 ∧ Forall (bastion_allowed env cfg) bastions ∧
    configured env cfg host hc hop ∧
    let hp := compiled_policy cfg host hc in
    let v := spec_decide (effectivePolicies hp) command in
    cert_Extensions (hop_Certificate hop) !! "permit-port-forwarding" = None ∧
    (hp_SourceAddress hp ≠ "" → cert_CriticalOptions (hop_Certificate hop) !! "source-address" = Some (hp_SourceAddress hp)) ∧
    (ps_Restricts (effectivePolicies hp) = true → Enforcement (effectivePolicies hp) = CmdPolicyEnforce →
       (∃ pub elev, let i := oneshot_of c (ttlFor e ttlSeconds) command opts host pub in
          resolveElevation hp i = Ok elev ∧ cert_CriticalOptions (hop_Certificate hop) !! "force-command" = Some (pinned_command i elev)) ∧
       v ≠ VDeny ∧ (v = VApproval → eo_Approved opts = true)).
Proof.
  intros Hsv%NewEngine_local Hsgn Hb Ht.
  destruct (safe_sound env _ _ [] _ _ _ (Execute_signed env fuel e c host command ttlSeconds opts []) Hb) as [H1 _].
  destruct (H1 _ _ _ Ht) as (-> & _ & _ & _ & chain & hops & iss & Hd & Hlast & bs & bh & tgt & hi & hop & -> & -> & Hbs & Hg).
  rewrite last_snoc in Hlast. injection Hlast as ->. split; [done|].
  destruct (hop_configured _ _ _ _ _ _ _ _ _ _ Hsv Hsgn Hg) as (hc & pub & senv & Hcf & Hs & Hc).
  exists hc, bh, hop. split; [done|]. split.
  { apply Forall_forall. intros b [k Hb']%list_elem_of_lookup. eapply Forall2_lookup_r in Hbs as (n & _ & hi' & iss' & Hg'); [|exact Hb'].
    by eapply bastion_good_allowed. }
  split; [done|]. destruct (signed_cert _ _ _ _ _ _ Hs Hc) as (hp & Hhp & Hau & Hsrc & Hfw).
  destruct (sv_policy _ _ _ Hsv _ _ Hhp) as (Hcomp & hc' & Hh & ->). destruct Hcf as (Hh0 & _).
  assert (hc' = hc) as -> by (cbn in Hh; congruence). cbv zeta. split_and!; [|exact Hsrc|].
  { destruct (cert_Extensions _ !! _) eqn:E; [|done]. by discriminate (Hfw ltac:(eauto)). }
  intros Hr He. pose proof (sv_grants _ _ _ Hsv) as Hgr.
  assert (widen_only (l_grants l)) as Hwo by (rewrite Hgr; done).
  destruct (oneshot_authorised _ _ _ _ _ _ Hs Hc Hhp eq_refl eq_refl Hcomp Hwo Hr He) as ((elev & Hel & Hfc) & Hnd & Hap).
  rewrite Hgr in Hnd, Hap. split; [by exists pub, elev|]. split; [exact Hnd|].
  intros Hv. by destruct (Hap Hv) as [?|(? & ? & _)].
Qed.
End confined.

(** A remote broker with local controls in its file never starts silently. *)
Lemma ignored_never_silent cfg : bc_Signer cfg = true →
  ignoredRemoteFieldsWarning cfg = "" ↔
  ignored_top cfg = [] ∧ ∀ name hc, bc_Hosts cfg !! name = Some hc → ignored_host hc = [].
Proof.
  intros Hs. assert (host_notes cfg = [] ↔ ∀ name hc, bc_Hosts cfg !! name = Some hc → ignored_host hc = []) as Hn.
  { assert (∀ name, name ∈ merge_sort String.le (map_to_list (bc_Hosts cfg)).*1 ↔ is_Some (bc_Hosts cfg !! name)) as Hin.
    { intros name. rewrite merge_sort_Permutation, list_elem_of_fmap. split.
      - intros ([n hc] & -> & H%elem_of_map_to_list). by exists hc.
      - intros [hc H%elem_of_map_to_list]. by exists (name, hc). }
    unfold host_notes. split.
    - intros H name hc Hh. destruct (ignored_host hc) as [|f fs] eqn:Ef; [done|]. exfalso.
      assert (In (name +:+ ": " +:+ Join (f :: fs) ", ") []) as []. rewrite <-H. apply in_flat_map. exists name.
      split; [by apply list_elem_of_In, Hin|]. rewrite Hh, Ef. by left.
    - intros H. destruct (flat_map _ _) as [|x l] eqn:E; [done|]. assert (In x (x :: l)) as Hx by by left.
      rewrite <-E in Hx. apply in_flat_map in Hx as (name & [hc Hh]%list_elem_of_In%Hin & Hx). by rewrite Hh, (H _ _ Hh) in Hx. }
  unfold ignoredRemoteFieldsWarning. rewrite Hs, <-Hn. cbn [negb]. destruct (ignored_top cfg) eqn:Et, (host_notes cfg) eqn:Eh; cbn; naive_solver.
Qed.

(** ** A local broker *)

Definition home_keys : key_backends := mkKeyBackends (fun p => Some ("key of " +:+ p)) (fun _ => None) (fun _ _ => None) "".
Definition home_config : Config :=
  mkBrokerConfig false "ca.pem" ∅ "" "10.0.0.0/8" 300 0 0 "" false 0
    {["web1" := mkHostConfig "10.0.0.1:22" "deploy" "host:web1" "ssh-ed25519 AAAA" "gw" "" true ["root"] false false ["web"] false sample_allow;
      "gw" := mkHostConfig "10.0.0.2:22" "jump" "host:gw" "ssh-ed25519 BBBB" "" "" false [] false false ["web"] false no_policy]} ∅ ∅.
Definition home_start : string * result start_error (Engine * option Local * sessionManager * gmap string HostInfo) :=
  @NewEngine prefix_engine home_keys map_to_list map_to_list map_to_list map_to_list (mkSurroundings false None true None false) home_config.
Definition home_engine : Engine := match home_start.2 with Ok (e, _, _, _) => e | Err _ => broker_engine end.
Definition home_signer : Local := match home_start.2 with Ok (_, Some l, _, _) => l | _ => broker_signer end.
Definition home_table : sessionManager := newSessionManager (5 * Minute) (30 * Minute).

Definition home_handler : handler unit := fun X c s =>
  match c in call X return unit * X with
  | SignIntentCall i => (s, local_answer (@SignIntent prefix_engine plain_parser toy_ed25519 (fixed_json sample_envelope) home_signer sample_sign_env i))
  | c => broker_handler _ c s
  end.
Definition home_env : environment :=
  mkEnv (@local_sgn prefix_engine plain_parser toy_ed25519 (fixed_json sample_envelope) home_signer)
    (fun l => Some l) (fun _ _ => True) (fun _ _ => True) (opened (fun l => Some l) (fun _ _ => True) (fun _ _ => True)).
Lemma home_answers X (c : call X) s : answers home_env c (home_handler X c s).2.
Proof. pose proof (broker_answers X c s) as H. destruct c; try exact H. by exists sample_sign_env. Qed.

Definition home_run (command : string) : list obs * result engine_error Result :=
  let p := traced home_handler (Execute 3 home_engine alice "web1" command 60 plain_opts) () in (p.1.2, p.2).
Definition home_trace : list obs := (home_run "uptime").1.

Example home_runs : (home_run "uptime").2 = Ok (mkResult "up 3 days" "" 0 7 None None).
Proof. vm_compute. reflexivity. Qed.
Example home_denies : forallb (fun ob => negb (is_exec ob)) (home_run "rm -rf /").1 = true.
Proof. vm_compute. reflexivity. Qed.

Lemma local_broker_confined_witness :
  ∃ hc bastions hop, ODial (bastions ++ [hop]) (Some 1%nat) ∈ before is_exec home_trace ∧ Forall (bastion_allowed home_env home_config) bastions ∧
    configured home_env home_config "web1" hc hop.
Proof.
  destruct (@local_broker_confined prefix_engine plain_parser toy_ed25519 (fixed_json sample_envelope) home_keys map_to_list map_to_list map_to_list map_to_list
    _ _ (mkSurroundings false None true None false) home_config "" home_engine home_signer home_table ∅ home_env 3 alice "web1" "uptime" 60 plain_opts
    home_trace (Some (Ok (mkResult "up 3 days" "" 0 7 None None)))
    (before is_exec home_trace) 1 "uptime" false "" (Some (mkExecResult "up 3 days" "" 0)) (after is_exec home_trace))
    as (_ & hc & bastions & hop & H1 & H2 & H3 & _).
  - vm_compute. reflexivity.
  - intros i x H. exact H.
  - rewrite <-home_runs. apply traced_behaves, home_answers.
  - vm_compute. reflexivity.
  - exists hc, bastions, hop. exact (conj H1 (conj H2 H3)).
Defined.
