(* ===== verification/KeyCustody.v ===== *)
(** * CA keys that live elsewhere

    [internal/ca/akv.go] and [agent.go]: a CA key in an Azure vault or an
    ssh-agent, of which the signer holds only the public half. The vault and the
    agent are parameters that change between calls: keys are rotated, added and
    removed while the signer runs. Bytes are integers in [[0, 256)]. *)

From S2P Require Import Prelude GoStrings Encoding CA ServiceConfig.

(** ** Integers as bytes *)

(** [big.Int.SetBytes] and [big.Int.Bytes] of a non-negative integer. *)
Definition SetBytes (l : list Z) : Z := fold_left (fun acc b => acc * 256 + b) l 0.
Definition byte_len (z : Z) : nat := if z =? 0 then O else Z.to_nat (Z.log2 z / 8 + 1).
Definition int_Bytes (z : Z) : list Z := be_bytes (byte_len z) z.

(** ** [asn1.Marshal] of a pair of integers *)

Definition der_length (n : Z) : list Z :=
  if n <? 128 then [n] else let lb := int_Bytes n in (128 + Z.of_nat (length lb)) :: lb.
Definition der_tlv (tag : Z) (content : list Z) : list Z := tag :: der_length (Z.of_nat (length content)) ++ content.
Definition der_integer (z : Z) : list Z :=
  der_tlv 2 (match int_Bytes z with [] => [0] | b :: r => if 128 <=? b then 0 :: b :: r else b :: r end).
Definition der_signature (r s : Z) : list Z := der_tlv 48 (der_integer r ++ der_integer s).

(** ** Keys *)

Inductive curve := P256 | P384 | P521.
Inductive PublicKey := ECKey (c : curve) (x y : Z) | RSAKey (n e : Z).
Inductive hash := SHA256 | SHA384 | SHA512 | OtherHash.
Inductive SignatureAlgorithm := ES256 | ES384 | ES512 | RS256 | RS384 | RS512.
Definition BitSize (c : curve) : Z := match c with P256 => 256 | P384 => 384 | P521 => 521 end.
Definition coordBytes (c : curve) : Z := (BitSize c + 7) / 8.

Inductive akv_error :=
| ENoKeyType | EKeyType (t : string) | ENoCurve | ECurve (c : string) | ENoCoordinate | ENoModulus | EExponent
| EHash | ESignatureLength | EGetKey | ENoVersion | EVaultSign | EMissing (fields : list string) | EEmptySecret | ECredential.

(** A key of the vault; [jk_KID] is the version its identifier names, if it has
    an identifier. *)
Record JSONWebKey := mkJWK {
  jk_KID : option string;
  jk_Kty : option string;
  jk_Crv : option string;
  jk_X : list Z;
  jk_Y : list Z;
  jk_N : list Z;
  jk_E : list Z;
}.

Definition parseAKVECKey (k : JSONWebKey) : result akv_error PublicKey :=
  match jk_Crv k with
  | None => Err ENoCurve
  | Some crv =>
      let! c := (if bool_decide (crv = "P-256") then Ok P256 else if bool_decide (crv = "P-384") then Ok P384
                 else if bool_decide (crv = "P-521") then Ok P521 else Err (ECurve crv)) in
      guard! negb (bool_decide (jk_X k = []) || bool_decide (jk_Y k = [])) else ENoCoordinate in
      Ok (ECKey c (SetBytes (jk_X k)) (SetBytes (jk_Y k)))
  end.
Definition parseAKVRSAKey (k : JSONWebKey) : result akv_error PublicKey :=
  guard! negb (bool_decide (jk_N k = []) || bool_decide (jk_E k = [])) else ENoModulus in
  let e := SetBytes (jk_E k) in
  guard! e <=? 2 ^ 31 - 1 else EExponent in
  Ok (RSAKey (SetBytes (jk_N k)) e).
Definition parseAKVPublicKey (k : JSONWebKey) : result akv_error PublicKey :=
  match jk_Kty k with
  | None => Err ENoKeyType
  | Some t =>
      if bool_decide (t = "EC") || bool_decide (t = "EC-HSM") then parseAKVECKey k
      else if bool_decide (t = "RSA") || bool_decide (t = "RSA-HSM") then parseAKVRSAKey k
      else Err (EKeyType t)
  end.

Definition akvAlgorithm (pub : PublicKey) (h : hash) : result akv_error SignatureAlgorithm :=
  match pub, h with
  | ECKey _ _ _, SHA256 => Ok ES256
  | ECKey _ _ _, SHA384 => Ok ES384
  | ECKey _ _ _, SHA512 => Ok ES512
  | RSAKey _ _, SHA256 => Ok RS256
  | RSAKey _ _, SHA384 => Ok RS384
  | RSAKey _ _, SHA512 => Ok RS512
  | _, OtherHash => Err EHash
  end.

Definition rawECSignatureToDER (raw : list Z) (coord : Z) : result akv_error (list Z) :=
  guard! Z.of_nat (length raw) =? 2 * coord else ESignatureLength in
  Ok (der_signature (SetBytes (take (Z.to_nat coord) raw)) (SetBytes (drop (Z.to_nat coord) raw))).

(** [akvCredential]: the default chain, or a service principal; the secret comes
    from the environment. *)
Inductive credential := DefaultCredential | ServicePrincipal (tenant client secret : string).
Definition akvCredential (getenv : string → string) (tenantID clientID secretEnv : string) : result akv_error credential :=
  if bool_decide (tenantID = "") && bool_decide (clientID = "") && bool_decide (secretEnv = "") then Ok DefaultCredential else
  let missing := List.filter (fun f => bool_decide (f.2 = "")) [("tenant_id", tenantID); ("client_id", clientID); ("client_secret_env", secretEnv)] in
  guard! bool_decide (missing = []) else EMissing (map fst missing) in
  guard! bool_decide (getenv secretEnv ≠ "") else EEmptySecret in
  Ok (ServicePrincipal tenantID clientID (getenv secretEnv)).

(** ** The vault signer *)

Record akvSigner := mkAKV { av_keyName : string; av_keyVersion : string; av_pubKey : PublicKey }.

Section akv.
(** A vault in some state, and its two operations. *)
Context {vault : Type} (GetKey : vault → string → string → option JSONWebKey).
Context (VaultSign : vault → string → string → SignatureAlgorithm → list Z → option (list Z)).

Definition newAKVSignerWithOps (v : vault) (keyName keyVersion : string) : result akv_error akvSigner :=
  match GetKey v keyName keyVersion with
  | None => Err EGetKey
  | Some k =>
      let! pub := parseAKVPublicKey k in
      let version := if bool_decide (keyVersion = "") then default "" (jk_KID k) else keyVersion in
      guard! bool_decide (version ≠ "") else ENoVersion in
      Ok (mkAKV keyName version pub)
  end.

Definition akv_Sign (v : vault) (a : akvSigner) (digest : list Z) (h : hash) : result akv_error (list Z) :=
  let! alg := akvAlgorithm (av_pubKey a) h in
  match VaultSign v (av_keyName a) (av_keyVersion a) alg digest with
  | None => Err EVaultSign
  | Some raw => match av_pubKey a with ECKey c _ _ => rawECSignatureToDER raw (coordBytes c) | RSAKey _ _ => Ok raw end
  end.
End akv.

(** ** The agent signer *)

Record agentSigner := mkAgentSigner { ag_socket : string; ag_pub : string }.
Inductive agent_error := EAgentDial | EAgentList | EKeyNotInAgent | EAgentAlgorithm (a : string) | EAgentSign.

Section agent.
(** An agent in some state: the wire forms of its keys in order, [None] when it
    does not answer; whether a key takes an algorithm; its signatures. *)
Context {agent : Type} (dial : agent → string → bool) (agent_keys : agent → option (list string)).
Context (takes_algorithm : agent → string → bool) (agent_sign : agent → string → string → string → option string).

Definition matchAgentSigner (ag : agent) (pub : string) : result agent_error string :=
  match agent_keys ag with
  | None => Err EAgentList
  | Some ks => match List.find (fun k => bool_decide (k = pub)) ks with Some k => Ok k | None => Err EKeyNotInAgent end
  end.
Definition withSigner {A : Type} (ag : agent) (s : agentSigner) (fn : string → result agent_error A) : result agent_error A :=
  guard! dial ag (ag_socket s) else EAgentDial in
  let! sg := matchAgentSigner ag (ag_pub s) in fn sg.
Definition SignWithAlgorithm (ag : agent) (s : agentSigner) (data algorithm : string) : result agent_error string :=
  withSigner ag s (fun sg =>
    guard! bool_decide (algorithm = "") || takes_algorithm ag sg else EAgentAlgorithm algorithm in
    match agent_sign ag sg data algorithm with Some sig => Ok sig | None => Err EAgentSign end).

(** [loadCAFromAgent] past its guards: the pinned key is there now. *)
Definition new_agent_signer (ag : agent) (socket pub : string) : result agent_error agentSigner :=
  let s := mkAgentSigner socket pub in
  let! _ := withSigner ag s (fun _ => Ok ()) in Ok s.
End agent.

(** ** Reading a signature *)

Definition read_length (l : list Z) : option (Z * list Z) :=
  match l with
  | [] => None
  | b :: r =>
      if b <? 128 then Some (b, r)
      else let k := Z.to_nat (b - 128) in
           if (k <=? length r)%nat then Some (SetBytes (take k r), drop k r) else None
  end.
Definition read_tlv (tag : Z) (l : list Z) : option (list Z * list Z) :=
  match l with
  | t :: l =>
      if t =? tag then
        match read_length l with
        | Some (n, r) => if n <=? Z.of_nat (length r) then Some (take (Z.to_nat n) r, drop (Z.to_nat n) r) else None
        | None => None
        end
      else None
  | [] => None
  end.
(** A two's-complement integer that is not negative. *)
Definition read_integer (l : list Z) : option (Z * list Z) :=
  match read_tlv 2 l with
  | Some (b :: c, r) => if b <? 128 then Some (SetBytes (b :: c), r) else None
  | _ => None
  end.
Definition read_signature (l : list Z) : option (Z * Z) :=
  match read_tlv 48 l with
  | Some (body, []) =>
      match read_integer body with
      | Some (r, rest) => match read_integer rest with Some (s, []) => Some (r, s) | _ => None end
      | None => None
      end
  | _ => None
  end.

Lemma SetBytes_snoc l b : SetBytes (l ++ [b]) = SetBytes l * 256 + b.
Proof. unfold SetBytes. by rewrite fold_left_app. Qed.
Lemma SetBytes_be n z : 0 ≤ z < 256 ^ Z.of_nat n → SetBytes (be_bytes n z) = z.
Proof.
  revert z. induction n as [|n IH]; intros z Hz; [cbn in *; lia|]. cbn [be_bytes]. rewrite SetBytes_snoc, IH.
  - pose proof (Z.div_mod z 256). lia.
  - rewrite Nat2Z.inj_succ, Z.pow_succ_r in Hz by lia. split; [apply Z.div_pos; lia|apply Z.div_lt_upper_bound; lia].
Qed.
Lemma SetBytes_nonneg l : Forall is_byte l → 0 ≤ SetBytes l.
Proof.
  induction l as [|b l IH] using rev_ind; [by intros; cbn|]. intros [H1 H2]%Forall_app. rewrite SetBytes_snoc.
  apply Forall_cons in H2 as [H2 _]. unfold is_byte in H2. specialize (IH H1). lia.
Qed.
Lemma SetBytes_zero l : SetBytes (0 :: l) = SetBytes l.
Proof. reflexivity. Qed.
Lemma byte_len_bound z : 0 ≤ z → z < 256 ^ Z.of_nat (byte_len z).
Proof.
  intros Hz. unfold byte_len. destruct (Z.eqb_spec z 0) as [->|Hne]; [cbn; lia|].
  pose proof (Z.log2_spec z ltac:(lia)) as [_ Hl]. pose proof (Z.log2_nonneg z).
  pose proof (Z.div_pos (Z.log2 z) 8 ltac:(lia) ltac:(lia)) as Hq. pose proof (Z.div_mod (Z.log2 z) 8 ltac:(lia)) as Hd.
  pose proof (Z.mod_pos_bound (Z.log2 z) 8 ltac:(lia)) as Hm. rewrite Z2Nat.id by lia. change 256 with (2 ^ 8). rewrite <-Z.pow_mul_r by lia.
  eapply Z.lt_le_trans; [exact Hl|]. apply Z.pow_le_mono_r; lia.
Qed.
Lemma SetBytes_int z : 0 ≤ z → SetBytes (int_Bytes z) = z.
Proof. intros Hz. apply SetBytes_be. split; [done|by apply byte_len_bound]. Qed.

Lemma read_der_length n r : 0 ≤ n → read_length (der_length n ++ r) = Some (n, r).
Proof.
  intros Hn. unfold der_length. destruct (Z.ltb_spec n 128) as [Hl|Hl]; cbn [app read_length]; [by rewrite (proj2 (Z.ltb_lt _ _))|].
  rewrite (proj2 (Z.ltb_ge _ _)) by lia. replace (Z.to_nat (128 + Z.of_nat (length (int_Bytes n)) - 128)) with (length (int_Bytes n)) by lia.
  rewrite length_app, (proj2 (Nat.leb_le _ _)), take_app_length, drop_app_length, SetBytes_int by lia. done.
Qed.
Lemma read_der_tlv tag c r : read_tlv tag (der_tlv tag c ++ r) = Some (c, r).
Proof.
  unfold der_tlv. cbn [app read_tlv]. rewrite Z.eqb_refl, <-app_assoc, read_der_length by lia.
  rewrite length_app, (proj2 (Z.leb_le _ _)) by lia. rewrite Nat2Z.id, take_app_length, drop_app_length. done.
Qed.
Lemma read_der_integer z r : 0 ≤ z → read_integer (der_integer z ++ r) = Some (z, r).
Proof.
  intros Hz. unfold read_integer, der_integer. rewrite read_der_tlv. pose proof (SetBytes_int z Hz) as H.
  destruct (int_Bytes z) as [|b c]; [cbn in H; by subst z|].
  destruct (Z.leb_spec 128 b); [by rewrite SetBytes_zero, H|]. by rewrite (proj2 (Z.ltb_lt _ _)), H.
Qed.
Lemma read_der_signature r s : 0 ≤ r → 0 ≤ s → read_signature (der_signature r s) = Some (r, s).
Proof.
  intros Hr Hs. unfold read_signature, der_signature. rewrite <-(app_nil_r (der_tlv _ _)), read_der_tlv, read_der_integer by done.
  by rewrite <-(app_nil_r (der_integer s)), read_der_integer.
Qed.

(** ** Whose signature it is *)

(** What a vault promises: a named version is one key for good; the identifier of
    a key names its version; a signature under a version is that key's. *)
Class Vault {vault : Type} (GetKey : vault → string → string → option JSONWebKey)
    (VaultSign : vault → string → string → SignatureAlgorithm → list Z → option (list Z))
    (key_at : vault → string → string → option JSONWebKey) (sign_with : JSONWebKey → SignatureAlgorithm → list Z → list Z)
    (evolves : vault → vault → Prop) := mkVault {
  vt_named v name ver k : GetKey v name ver = Some k → ver ≠ "" → key_at v name ver = Some k;
  vt_latest v name ver k : GetKey v name "" = Some k → jk_KID k = Some ver → ver ≠ "" → key_at v name ver = Some k;
  vt_sign v name ver alg d raw : VaultSign v name ver alg d = Some raw → ver ≠ "" →
    ∃ k, key_at v name ver = Some k ∧ raw = sign_with k alg d;
  vt_fixed v v' name ver k k' : evolves v v' → key_at v name ver = Some k → key_at v' name ver = Some k' → k' = k;
  vt_bytes k alg d : Forall is_byte (sign_with k alg d);
}.

Section custody.
Context {vault : Type} {GetKey : vault → string → string → option JSONWebKey}
  {VaultSign : vault → string → string → SignatureAlgorithm → list Z → option (list Z)}
  {key_at : vault → string → string → option JSONWebKey} {sign_with : JSONWebKey → SignatureAlgorithm → list Z → list Z}
  {evolves : vault → vault → Prop} `{V : !Vault GetKey VaultSign key_at sign_with evolves}.

(** The signature [sig] says what [raw] says. *)
Definition same_signature (pub : PublicKey) (raw sig : list Z) : Prop :=
  match pub with
  | ECKey c _ _ =>
      Z.of_nat (length raw) = 2 * coordBytes c ∧
      read_signature sig = Some (SetBytes (take (Z.to_nat (coordBytes c)) raw), SetBytes (drop (Z.to_nat (coordBytes c)) raw))
  | RSAKey _ _ => sig = raw
  end.

Lemma newAKV_key v name ver a : newAKVSignerWithOps GetKey v name ver = Ok a →
  av_keyName a = name ∧ av_keyVersion a ≠ "" ∧ (ver ≠ "" → av_keyVersion a = ver) ∧
  ∃ k, key_at v name (av_keyVersion a) = Some k ∧ parseAKVPublicKey k = Ok (av_pubKey a).
Proof.
  unfold newAKVSignerWithOps. destruct (GetKey v name ver) as [k|] eqn:Eg; [|done].
  intros (pub & Hp & H)%rbind_Ok. cbv zeta in H. destruct (bool_decide (ver = "")) eqn:Ev.
  - apply bool_decide_eq_true in Ev as ->. destruct (bool_decide (default "" (jk_KID k) ≠ "")) eqn:Ek; [|done]. injection H as <-.
    apply bool_decide_eq_true in Ek. cbn. split_and!; [done|done|done|]. exists k. split; [|done].
    destruct (jk_KID k) as [w|] eqn:Ew; [|done]. by apply vt_latest.
  - apply bool_decide_eq_false in Ev. rewrite bool_decide_eq_true_2 in H by done. injection H as <-. cbn. split_and!; [done|done|done|].
    exists k. split; [by apply vt_named|done].
Qed.

Lemma rawEC_read raw c sig : Forall is_byte raw → rawECSignatureToDER raw (coordBytes c) = Ok sig → same_signature (ECKey c 0 0) raw sig.
Proof.
  intros Hb. unfold rawECSignatureToDER. destruct (Z.eqb_spec (Z.of_nat (length raw)) (2 * coordBytes c)) as [Hl|]; [|done].
  intros [= <-]. split; [done|]. apply read_der_signature; apply SetBytes_nonneg; [by apply Forall_take|by apply Forall_drop].
Qed.

(** [C40] A CA key in a vault stays the key it was. A signer that starts on a vault
    key advertises the public half of one version, the configured one if there
    is one, and from then on every signature it returns was made by exactly that
    version, however often the key is rotated, and encodes the two integers the
    vault returned, or for RSA its very bytes. *)
Theorem vault_signatures_match_key v0 v name ver a digest h sig :
  newAKVSignerWithOps GetKey v0 name ver = Ok a → evolves v0 v → akv_Sign VaultSign v a digest h = Ok sig →
  (ver ≠ "" → av_keyVersion a = ver) ∧
  ∃ k alg, key_at v0 name (av_keyVersion a) = Some k ∧ parseAKVPublicKey k = Ok (av_pubKey a) ∧
    akvAlgorithm (av_pubKey a) h = Ok alg ∧ same_signature (av_pubKey a) (sign_with k alg digest) sig.
Proof.
  intros Hn Hev Hs. destruct (newAKV_key _ _ _ _ Hn) as (<- & Hne & Hver & k & Hk & Hp). split; [done|].
  unfold akv_Sign in Hs. apply rbind_Ok in Hs as (alg & Halg & Hs). exists k, alg. split_and!; [done|done|done|].
  destruct (VaultSign v (av_keyName a) (av_keyVersion a) alg digest) as [raw|] eqn:Er; [|done].
  destruct (vt_sign _ _ _ _ _ _ Er Hne) as (k' & Hk' & ->). rewrite (vt_fixed _ _ _ _ _ _ Hev Hk Hk') in Hs.
  destruct (av_pubKey a) as [c x y|n e]; [|by injection Hs as <-]. apply (rawEC_read _ c); [apply vt_bytes|done].
Qed.
End custody.

(** An agent signer signs with the pinned key or not at all, whatever else the
    agent holds by then. *)
Lemma agent_signs_pinned {agent : Type} dial agent_keys takes_algorithm agent_sign (ag : agent) s data algorithm sig :
  SignWithAlgorithm dial agent_keys takes_algorithm agent_sign ag s data algorithm = Ok sig →
  (∃ ks, agent_keys ag = Some ks ∧ ag_pub s ∈ ks) ∧ agent_sign ag (ag_pub s) data algorithm = Some sig.
Proof.
  unfold SignWithAlgorithm, withSigner. destruct (dial ag (ag_socket s)); [|done]. intros (sg & Hm & H)%rbind_Ok.
  unfold matchAgentSigner in Hm. destruct (agent_keys ag) as [ks|]; [|done]. destruct (List.find _ ks) as [k|] eqn:Ef; [|done]. injection Hm as ->.
  apply find_some in Ef as [Hin%list_elem_of_In ->%bool_decide_eq_true]. destruct (_ || _); [|done].
  destruct (agent_sign _ _ _ _); [|done]. injection H as ->. eauto.
Qed.

(** ** A rotated key *)

Record toy_vault := mkToy { tv_versions : gmap string JSONWebKey; tv_latest : string }.
Definition with_kid (ver : string) (k : JSONWebKey) : JSONWebKey :=
  mkJWK (Some ver) (jk_Kty k) (jk_Crv k) (jk_X k) (jk_Y k) (jk_N k) (jk_E k).
Definition toy_key_at (v : toy_vault) (_ ver : string) : option JSONWebKey := with_kid ver <$> tv_versions v !! ver.
Definition toy_GetKey (v : toy_vault) (name ver : string) : option JSONWebKey :=
  toy_key_at v name (if bool_decide (ver = "") then tv_latest v else ver).
Definition toy_sign_with (k : JSONWebKey) (_ : SignatureAlgorithm) (d : list Z) : list Z := be_bytes 64 (SetBytes (jk_X k) * 256 + SetBytes d).
Definition toy_VaultSign (v : toy_vault) (name ver : string) (alg : SignatureAlgorithm) (d : list Z) : option (list Z) :=
  (fun k => toy_sign_with k alg d) <$> toy_GetKey v name ver.
Definition toy_evolves (v v' : toy_vault) : Prop := tv_versions v ⊆ tv_versions v'.

#[export] Instance toy_vault_laws : Vault toy_GetKey toy_VaultSign toy_key_at toy_sign_with toy_evolves.
Proof.
  split.
  - intros v name ver k H Hne. unfold toy_GetKey in H. by rewrite bool_decide_eq_false_2 in H.
  - intros v name ver k H Hkid _. unfold toy_GetKey, toy_key_at in *. rewrite bool_decide_eq_true_2 in H by done.
    destruct (tv_versions v !! tv_latest v) eqn:E; [|done]. injection H as <-. injection Hkid as <-. by rewrite E.
  - intros v name ver alg d raw H Hne. unfold toy_VaultSign, toy_GetKey in H. rewrite bool_decide_eq_false_2 in H by done.
    destruct (toy_key_at v name ver) as [k|]; [|done]. injection H as <-. by exists k.
  - intros v v' name ver k k' Hev H H'. unfold toy_key_at in *. destruct (tv_versions v !! ver) as [x|] eqn:E; [|done].
    rewrite (lookup_weaken _ _ _ _ E Hev) in H'. cbn in *. congruence.
  - intros k alg d. apply be_bytes_bound.
Qed.

Definition p256_key (x : Z) : JSONWebKey := mkJWK None (Some "EC-HSM") (Some "P-256") [x] [7] [] [].
Definition before_rotation : toy_vault := mkToy {["v1" := p256_key 3]} "v1".
Definition after_rotation : toy_vault := mkToy {["v1" := p256_key 3; "v2" := p256_key 5]} "v2".

Example started : newAKVSignerWithOps toy_GetKey before_rotation "ca" "" = Ok (mkAKV "ca" "v1" (ECKey P256 3 7)).
Proof. vm_compute. reflexivity. Qed.
Example long_form : read_signature (der_signature (2 ^ 521 - 1) (2 ^ 520)) = Some (2 ^ 521 - 1, 2 ^ 520) ∧
  take 3 (der_signature (2 ^ 521 - 1) (2 ^ 520)) = [48; 129; 136].
Proof. split; vm_compute; reflexivity. Qed.

Lemma vault_signatures_match_key_witness :
  ∃ sig, akv_Sign toy_VaultSign after_rotation (mkAKV "ca" "v1" (ECKey P256 3 7)) [1; 2] SHA256 = Ok sig ∧
    ∃ k alg, toy_key_at before_rotation "ca" "v1" = Some k ∧ parseAKVPublicKey k = Ok (ECKey P256 3 7) ∧
      same_signature (ECKey P256 3 7) (toy_sign_with k alg [1; 2]) sig.
Proof.
  eexists. split; [vm_compute; reflexivity|].
  edestruct (vault_signatures_match_key (V := toy_vault_laws) before_rotation after_rotation "ca" "" (mkAKV "ca" "v1" (ECKey P256 3 7)) [1; 2] SHA256)
    as (_ & k & alg & H1 & H2 & _ & H3); [vm_compute; reflexivity| |vm_compute; reflexivity|].
  - apply map_subseteq_spec. intros i x H. cbn [tv_versions before_rotation] in H. apply lookup_singleton_Some in H as [<- <-]. reflexivity.
  - exists k, alg. exact (conj H1 (conj H2 H3)).
Defined.
