(* ===== verification/ConfigWrite.v ===== *)
(** * Rewriting a configuration file

    [atomicWrite] of [cmd/signer/policy.go], [writeConfigAtomic],
    [patchConfigEntry] and [patchConfigEntryKeys] of [cmd/broker-ctl/main.go], as
    programs over the calls to the file system, against a file system whose
    unsynced state a crash may lose. *)

From S2P Require Import Prelude GoStrings CmdPolicy PolicySet Prog HostPolicy ConfCheck.

(** ** A file system that can crash *)

(** A file: content and attributes, and whether they are on the disk as they
    are. *)
Record inode := mkInode { ino_content : string; ino_mode : Z; ino_uid : Z; ino_gid : Z; ino_synced : bool }.

(** Directory entries now ([fs_dir]) and as last synced ([fs_durable]). *)
Record fs := mkFs {
  fs_links : gmap string string;
  fs_dir : gmap string nat;
  fs_durable : gmap string nat;
  fs_inodes : gmap nat inode;
  fs_next : nat;
  fs_euid : Z;
  fs_egid : Z;
}.

Definition with_dir (d : gmap string nat) (s : fs) : fs :=
  mkFs (fs_links s) d (fs_durable s) (fs_inodes s) (fs_next s) (fs_euid s) (fs_egid s).
Definition with_durable (d : gmap string nat) (s : fs) : fs :=
  mkFs (fs_links s) (fs_dir s) d (fs_inodes s) (fs_next s) (fs_euid s) (fs_egid s).
Definition with_inode (i : nat) (ino : inode) (s : fs) : fs :=
  mkFs (fs_links s) (fs_dir s) (fs_durable s) (<[i := ino]> (fs_inodes s)) (fs_next s) (fs_euid s) (fs_egid s).
Definition file_at (s : fs) (path : string) : option inode := fs_dir s !! path ≫= (fun i => fs_inodes s !! i).

(** ** Calls *)

Record attrs := mkAttrs { at_mode : Z; at_uid : Z; at_gid : Z }.
Inductive chown_answer := ChownOk | ChownEPERM | ChownError.

Inductive fcall : Type → Type :=
| FReadFile (path : string) : fcall (option string)
| FEvalSymlinks (path : string) : fcall (option string)
| FStat (path : string) : fcall (option attrs)
| FIds : fcall (Z * Z)
| FCreateTemp (path : string) : fcall (option string)
| FChmod (tmp : string) (mode : Z) : fcall bool
| FChown (tmp : string) (uid gid : Z) : fcall chown_answer
| FWrite (tmp b : string) : fcall bool
| FSync (tmp : string) : fcall bool
| FClose (tmp : string) : fcall bool
| FRename (tmp path : string) : fcall bool
| FRemove (tmp : string) : fcall unit
| FSyncDir (path : string) : fcall unit.
Abbreviation fprog := (Prog.prog fcall) (only parsing).
Abbreviation fcall_ := (@Prog.call_ fcall _) (only parsing).

Inductive write_error := ECreate | EChmod | EOwner (uid : Z) | EGroup (gid : Z) | EWrite | EFsync | EClose | ERename.

(** ** The two writers *)

(** From the write to the rename, and the directory sync whose failure is
    ignored. *)
Definition write_and_rename (tmp path b : string) : fprog (result write_error unit) :=
  ok <- fcall_ (FWrite tmp b) ;;
  if negb ok then fcall_ (FClose tmp) ;;; Ret (Err EWrite) else
  ok <- fcall_ (FSync tmp) ;;
  if negb ok then fcall_ (FClose tmp) ;;; Ret (Err EFsync) else
  ok <- fcall_ (FClose tmp) ;;
  if negb ok then Ret (Err EClose) else
  ok <- fcall_ (FRename tmp path) ;;
  if negb ok then Ret (Err ERename) else
  fcall_ (FSyncDir path) ;;; Ret (Ok ()).

(** [defer os.Remove(tmp)] *)
Definition with_temp (tmp : string) (p : fprog (result write_error unit)) : fprog (result write_error unit) :=
  r <- p ;; fcall_ (FRemove tmp) ;;; Ret r.

Definition atomicWrite (path0 b : string) : fprog (result write_error unit) :=
  resolved <- fcall_ (FEvalSymlinks path0) ;;
  let path := default path0 resolved in
  st <- fcall_ (FStat path) ;;
  let mode := match st with Some a => at_mode a | None => 384 end in
  f <- fcall_ (FCreateTemp path) ;;
  match f with
  | None => Ret (Err ECreate)
  | Some tmp =>
      with_temp tmp (
      ok <- fcall_ (FChmod tmp mode) ;;
      if negb ok then fcall_ (FClose tmp) ;;; Ret (Err EChmod) else write_and_rename tmp path b)
  end.

(** The ids to restore; [-1] keeps the process's own. *)
Definition kept_id (was mine : Z) : Z := if was =? mine then -1 else was.

Definition writeConfigAtomic (path0 b : string) : fprog (result write_error unit) :=
  resolved <- fcall_ (FEvalSymlinks path0) ;;
  let path := default path0 resolved in
  st <- fcall_ (FStat path) ;;
  ids <- fcall_ FIds ;;
  let mode := match st with Some a => at_mode a | None => 416 end in
  let uid := match st with Some a => kept_id (at_uid a) ids.1 | None => -1 end in
  let gid := match st with Some a => kept_id (at_gid a) ids.2 | None => -1 end in
  f <- fcall_ (FCreateTemp path) ;;
  match f with
  | None => Ret (Err ECreate)
  | Some tmp =>
      with_temp tmp (
      ok <- fcall_ (FChmod tmp mode) ;;
      if negb ok then fcall_ (FClose tmp) ;;; Ret (Err EChmod) else
      if (uid =? -1) && (gid =? -1) then write_and_rename tmp path b else
      r <- fcall_ (FChown tmp uid gid) ;;
      match r with
      | ChownOk => write_and_rename tmp path b
      | ChownEPERM =>
          if negb (uid =? -1) then fcall_ (FClose tmp) ;;; Ret (Err (EOwner uid)) else write_and_rename tmp path b
      | ChownError =>
          fcall_ (FClose tmp) ;;; Ret (Err (if negb (uid =? -1) then EOwner uid else EGroup gid))
      end)
  end.

(** ** Edits *)

Record policyConfig := mkPolicyConfig {
  pc_Hosts : PolicyTable;
  pc_CommandPolicies : gmap string CommandPolicy;
  pc_GroupCommandPolicies : gmap string (list string);
}.

Inductive edit_error := ERead | EParse | EPatch | EInvalid | EWriteFailed (e : write_error).

(** [isJSONNull] *)
Definition isJSONNull (raw : json) : bool := match raw with JScalar t => bool_decide (t = "null") | _ => false end.

(** [json.Unmarshal] into a map of raw values: an object, or [null] for an empty
    map. *)
Definition top_level (v : json) : option (list (string * json)) :=
  match v with JObject ms => Some ms | _ => if isJSONNull v then Some [] else None end.

Definition entry_path (section name : string) : string := "/" +:+ section +:+ "/" +:+ jsonPtrEscape name.

(** The operations of [patchConfigEntry]; a section that is absent or null is
    added whole. *)
Definition entry_ops (std : option json) (section name : string) (value : json) (remove : bool) : option (list patch_op) :=
  if remove then Some [OpRemove (entry_path section name)] else
  match std with
  | None => None
  | Some v =>
      match top_level v with
      | None => None
      | Some top =>
          Some (match List.find (fun kv => bool_decide (kv.1 = section)) (rev top) with
                | Some (_, raw) =>
                    if negb (isJSONNull raw) then [OpAdd (entry_path section name) value]
                    else [OpAdd ("/" +:+ section) (JObject [(name, value)])]
                | None => [OpAdd ("/" +:+ section) (JObject [(name, value)])]
                end)
      end
  end.

(** The operations of [patchConfigEntryKeys]. *)
Definition key_ops (section name : string) (set : gmap string json) (remove : list string) : list patch_op :=
  let base := entry_path section name +:+ "/" in
  map (fun k => OpAdd (base +:+ jsonPtrEscape k) (default (JScalar "null") (set !! k))) (merge_sort String.le (map_to_list set).*1) ++
  map (fun k => OpRemove (base +:+ jsonPtrEscape k)) remove.

Section edits.
(** The JSONC reader and patcher, and the decoder of the policy sections. *)
Context `{RE : RegexpEngine} (ToLower : string → string) (parse : string → option json).
Context (hujson_patch : string → list patch_op → option string) (decode : json → option policyConfig).
Context (iterL : range_order CommandPolicy) (iterG : range_order (list string)) (iterH : range_order HostPolicy).

Definition validateEditedConfig (b : string) : bool :=
  match Unmarshal ToLower parse decode b with
  | None => false
  | Some cfg => is_ok (CompileHostPolicies iterL iterG iterH (pc_Hosts cfg) (pc_CommandPolicies cfg) (pc_GroupCommandPolicies cfg))
  end.

(** The end both edits share: patch, validate, write. *)
Definition patch_and_write (path orig : string) (ops : list patch_op) : fprog (result edit_error unit) :=
  match Patch ToLower parse hujson_patch orig ops with
  | None => Ret (Err EPatch)
  | Some nb =>
      if negb (validateEditedConfig nb) then Ret (Err EInvalid)
      else r <- writeConfigAtomic path nb ;; Ret (match r with Ok _ => Ok () | Err e => Err (EWriteFailed e) end)
  end.

Definition patchConfigEntry (path section name : string) (value : json) (remove : bool) : fprog (result edit_error unit) :=
  orig <- fcall_ (FReadFile path) ;;
  match orig with
  | None => Ret (Err ERead)
  | Some orig =>
      match entry_ops (Standardize ToLower parse orig) section name value remove with
      | None => Ret (Err EParse)
      | Some ops => patch_and_write path orig ops
      end
  end.

Definition patchConfigEntryKeys (path section name : string) (set : gmap string json) (remove : list string) : fprog (result edit_error unit) :=
  match key_ops section name set remove with
  | [] => Ret (Ok ())
  | ops =>
      orig <- fcall_ (FReadFile path) ;;
      match orig with None => Ret (Err ERead) | Some orig => patch_and_write path orig ops end
  end.
End edits.

(** ** The file system answers *)

(** How the calls that can fail turn out, each made at most once: the name the
    temporary file gets, and for a write that fails the bytes it left. *)
Record outcomes := mkOutcomes {
  oc_temp : option string;
  oc_chmod : bool;
  oc_chown : chown_answer;
  oc_write : option string;
  oc_sync : bool;
  oc_close : bool;
  oc_rename : bool;
  oc_remove : bool;
  oc_syncdir : bool;
}.

Definition on_file (tmp : string) (g : inode → inode) (s : fs) : fs :=
  match fs_dir s !! tmp with
  | Some i => match fs_inodes s !! i with Some ino => with_inode i (g ino) s | None => s end
  | None => s
  end.
Definition set_id (id was : Z) : Z := if id =? -1 then was else id.

Definition fs_handler (oc : outcomes) : Prog.handler fcall fs := fun X c s =>
  match c in fcall X return fs * X with
  | FReadFile path => (s, ino_content <$> file_at s (default path (fs_links s !! path)))
  | FEvalSymlinks path => (s, fs_links s !! path)
  | FStat path => (s, (fun i => mkAttrs (ino_mode i) (ino_uid i) (ino_gid i)) <$> file_at s path)
  | FIds => (s, (fs_euid s, fs_egid s))
  | FCreateTemp _ =>
      match oc_temp oc with
      | None => (s, None)
      | Some tmp =>
          (mkFs (fs_links s) (<[tmp := fs_next s]> (fs_dir s)) (fs_durable s)
             (<[fs_next s := mkInode "" 384 (fs_euid s) (fs_egid s) false]> (fs_inodes s)) (S (fs_next s)) (fs_euid s) (fs_egid s), Some tmp)
      end
  | FChmod tmp mode =>
      (if oc_chmod oc then on_file tmp (fun i => mkInode (ino_content i) mode (ino_uid i) (ino_gid i) false) s else s, oc_chmod oc)
  | FChown tmp uid gid =>
      (match oc_chown oc with
       | ChownOk => on_file tmp (fun i => mkInode (ino_content i) (ino_mode i) (set_id uid (ino_uid i)) (set_id gid (ino_gid i)) false) s
       | _ => s
       end, oc_chown oc)
  | FWrite tmp b =>
      (on_file tmp (fun i => mkInode (ino_content i +:+ default b (oc_write oc)) (ino_mode i) (ino_uid i) (ino_gid i) false) s,
       match oc_write oc with None => true | Some _ => false end)
  | FSync tmp =>
      (if oc_sync oc then on_file tmp (fun i => mkInode (ino_content i) (ino_mode i) (ino_uid i) (ino_gid i) true) s else s, oc_sync oc)
  | FClose _ => (s, oc_close oc)
  | FRename tmp path =>
      (match (if oc_rename oc then fs_dir s !! tmp else None) with
       | Some i => with_dir (<[path := i]> (delete tmp (fs_dir s))) s
       | None => s
       end, oc_rename oc)
  | FRemove tmp => (if oc_remove oc then with_dir (delete tmp (fs_dir s)) s else s, ())
  | FSyncDir _ => (if oc_syncdir oc then with_durable (fs_dir s) s else s, ())
  end.

(** The states a program goes through. *)
Fixpoint states {E : Type → Type} {S A : Type} (h : Prog.handler E S) (p : Prog.prog E A) (s : S) : list S :=
  match p with
  | Ret _ => [s]
  | Do c k => let '(s', x) := h _ c s in s :: states h (k x) s'
  end.

(** What a file may hold after a crash: its entry is the synced or the present
    one; a file that is not on the disk as it is may hold anything. *)
Definition survives (s : fs) (path content : string) (mode uid gid : Z) : Prop :=
  ∃ i ino, (fs_durable s !! path = Some i ∨ fs_dir s !! path = Some i) ∧ fs_inodes s !! i = Some ino ∧
    (ino_synced ino = true → content = ino_content ino ∧ mode = ino_mode ino ∧ uid = ino_uid ino ∧ gid = ino_gid ino).

(** ** Reasoning about every state of a run *)

Fixpoint along {E : Type → Type} {S A : Type} (h : Prog.handler E S) (P : S → Prop) (p : Prog.prog E A) (s : S) (Q : A → S → Prop) : Prop :=
  match p with
  | Ret a => P s ∧ Q a s
  | Do c k => P s ∧ let '(s', x) := h _ c s in along h P (k x) s' Q
  end.

Section along.
Context {E : Type → Type} {S : Type} (h : Prog.handler E S) (P : S → Prop).

Lemma along_bind {A B : Type} (p : Prog.prog E A) (k : A → Prog.prog E B) s Q :
  along h P p s (fun a s' => along h P (k a) s' Q) → along h P (pbind p k) s Q.
Proof.
  revert s. induction p as [a|X c f IH]; intros s; cbn; [by intros [_ ?]|].
  intros [? H]. split; [done|]. destruct (h X c s) as [s' x]. by apply IH.
Qed.
Lemma along_unbind {A B : Type} (p : Prog.prog E A) (k : A → Prog.prog E B) s Q :
  along h P (pbind p k) s Q → along h P p s (fun a s' => along h P (k a) s' Q).
Proof.
  revert s. induction p as [a|X c f IH]; intros s; cbn.
  - intros H. split; [|done]. destruct (k a); cbn in H; apply H.
  - intros [? H]. split; [done|]. destruct (h X c s) as [s' x]. by apply IH.
Qed.
Lemma along_sound {A : Type} (p : Prog.prog E A) s Q :
  along h P p s Q → Forall P (states h p s) ∧ Q (run h p s).2 (run h p s).1.
Proof.
  revert s. induction p as [a|X c f IH]; intros s; cbn; [by intros [? ?]; split; [repeat constructor|]|].
  intros [? H]. destruct (h X c s) as [s' x]. destruct (IH x s' H). split; [by constructor|done].
Qed.
Lemma along_call {X A : Type} (c : E X) (k : X → Prog.prog E A) s Q :
  P s → (let '(s', x) := h _ c s in along h P (k x) s' Q) → along h P (pbind (Prog.call_ c) k) s Q.
Proof. intros Hs H. split; [done|]. by destruct (h X c s). Qed.
Lemma along_end {A : Type} (p : Prog.prog E A) s Q : along h P p s Q → along h P p s (fun a s' => P s' ∧ Q a s').
Proof.
  revert s. induction p as [a|X c f IH]; intros s; cbn; [by intros [? ?]|].
  intros [? H]. split; [done|]. destruct (h X c s). by apply IH.
Qed.
Lemma along_mono {A : Type} (p : Prog.prog E A) s (Q Q' : A → S → Prop) :
  (∀ a s', Q a s' → Q' a s') → along h P p s Q → along h P p s Q'.
Proof.
  intros HQ. revert s. induction p as [a|X c f IH]; intros s; cbn; [by intros [? ?]; auto|].
  intros [? H]. split; [done|]. destruct (h X c s). by apply IH.
Qed.
End along.

(** ** The stages of a rewrite *)

Section stages.
Context (oc : outcomes) (s : fs) (path tmp : string) (ino0 : inode) (i0 : nat) (b : string).
Hypothesis Hold : fs_dir s !! path = Some i0 ∧ fs_durable s !! path = Some i0 ∧ fs_inodes s !! i0 = Some ino0.
Hypothesis Hsynced : ino_synced ino0 = true.
Hypothesis Hfresh : fs_dir s !! tmp = None ∧ tmp ≠ path ∧ i0 ≠ fs_next s.

Definition staged (ino : inode) : fs :=
  mkFs (fs_links s) (<[tmp := fs_next s]> (fs_dir s)) (fs_durable s) (<[fs_next s := ino]> (fs_inodes s)) (S (fs_next s)) (fs_euid s) (fs_egid s).
Definition dropped (ino : inode) : fs := with_dir (fs_dir s) (staged ino).
Definition renamed (durable : gmap string nat) (ino : inode) : fs :=
  with_durable durable (with_dir (<[path := fs_next s]> (fs_dir s)) (staged ino)).

Lemma on_staged g ino : on_file tmp g (staged ino) = staged (g ino).
Proof.
  unfold on_file. cbn [staged fs_dir fs_inodes]. rewrite !lookup_insert_eq. unfold with_inode, staged. cbn.
  by rewrite insert_insert_eq.
Qed.
Lemma rename_staged ino : oc_rename oc = true → (fs_handler oc _ (FRename tmp path) (staged ino)).1 = renamed (fs_durable s) ino.
Proof.
  intros H. cbn. rewrite H, lookup_insert_eq. unfold renamed, with_dir, with_durable. cbn. f_equal.
  rewrite delete_insert_eq, delete_id; [done|]. apply Hfresh.
Qed.
Lemma drop_staged ino : with_dir (delete tmp (fs_dir (staged ino))) (staged ino) = dropped ino.
Proof. unfold dropped, with_dir. cbn. f_equal. rewrite delete_insert_eq, delete_id; [done|]. apply Hfresh. Qed.
Lemma drop_renamed d ino : with_dir (delete tmp (fs_dir (renamed d ino))) (renamed d ino) = renamed d ino.
Proof.
  unfold renamed, with_dir, with_durable. cbn. f_equal. rewrite delete_id; [done|]. rewrite lookup_insert_ne; [apply Hfresh|].
  destruct Hfresh as (_ & ? & _). congruence.
Qed.

(** What may be found at the path after a crash: the old file, or the new one
    with the attributes it was given. *)
Definition intact (mode uid : Z) (s' : fs) : Prop := ∀ content m u g, survives s' path content m u g →
  (content = ino_content ino0 ∧ m = ino_mode ino0 ∧ u = ino_uid ino0 ∧ g = ino_gid ino0) ∨
  (content = b ∧ m = mode ∧ u = uid).

Lemma intact_old mode uid s' : fs_dir s' !! path = Some i0 → fs_durable s' !! path = Some i0 → fs_inodes s' !! i0 = Some ino0 → intact mode uid s'.
Proof.
  intros H1 H2 H3 content m u g (i & ino & [Hi|Hi] & Hino & Hsy); simplify_eq; left; by apply Hsy.
Qed.
Lemma intact_self mode uid : intact mode uid s.
Proof. destruct Hold as (? & ? & ?). by apply intact_old. Qed.
Lemma intact_staged mode uid ino : intact mode uid (staged ino) ∧ intact mode uid (dropped ino).
Proof.
  destruct Hold as (? & ? & ?), Hfresh as (? & ? & ?).
  split; apply intact_old; cbn; rewrite ?lookup_insert_ne by congruence; done.
Qed.
Lemma intact_renamed d ino mode uid : (d !! path = Some i0 ∨ d !! path = Some (fs_next s)) →
  ino_synced ino = true → ino_content ino = b → ino_mode ino = mode → ino_uid ino = uid → intact mode uid (renamed d ino).
Proof.
  destruct Hold as (? & ? & ?), Hfresh as (? & ? & ?). intros Hd Hsy Hc Hm Hu content m u g (i & ino' & Hi & Hino & Hs).
  cbn in Hi, Hino. rewrite lookup_insert_eq in Hi.
  destruct (decide (i = fs_next s)) as [->|Hne].
  - rewrite lookup_insert_eq in Hino. injection Hino as <-. right. destruct (Hs Hsy) as (-> & -> & -> & _). done.
  - assert (i = i0) as -> by (destruct Hi as [Hi|Hi], Hd as [Hd|Hd]; congruence).
    rewrite lookup_insert_ne in Hino by congruence. left. simplify_eq. by apply Hs.
Qed.
Hint Resolve intact_self : core.

(** From a staged temporary file on: the result and the file at the path. *)
Definition rewritten (ino : inode) (r : result write_error unit) (s' : fs) : Prop :=
  match r with
  | Ok _ => file_at s' path = Some (mkInode b (ino_mode ino) (ino_uid ino) (ino_gid ino) true)
  | Err _ => file_at s' path = file_at s path ∧ (oc_remove oc = true → fs_dir s' !! tmp = None)
  end.

Lemma file_at_old s' : fs_dir s' !! path = Some i0 → fs_inodes s' !! i0 = Some ino0 → file_at s' path = file_at s path.
Proof. intros H1 H2. unfold file_at. destruct Hold as (-> & _ & H3). rewrite H1. cbn. by rewrite H2, H3. Qed.
Lemma file_at_staged ino : file_at (staged ino) path = file_at s path ∧ file_at (dropped ino) path = file_at s path.
Proof.
  destruct Hold as (? & ? & ?), Hfresh as (? & ? & ?).
  split; apply file_at_old; cbn; rewrite ?lookup_insert_ne by congruence; done.
Qed.

Lemma removed_spec mode uid ino0' ino e : along (fs_handler oc) (intact mode uid) (fcall_ (FRemove tmp) ;;; Ret (Err e)) (staged ino) (rewritten ino0').
Proof.
  apply along_call; [apply intact_staged|]. cbn [fs_handler]. destruct (oc_remove oc) eqn:E.
  - rewrite drop_staged. split; [apply intact_staged|]. split; [apply file_at_staged|]. intros _. cbn. apply Hfresh.
  - split; [apply intact_staged|]. split; [apply file_at_staged|congruence].
Qed.

(** A failing step: close, remove the temporary file, report. *)
Lemma give_up_spec mode uid ino ino' e :
  along (fs_handler oc) (intact mode uid) (fcall_ (FClose tmp) ;;; Ret (Err e)) (staged ino)
    (fun r s' => along (fs_handler oc) (intact mode uid) (fcall_ (FRemove tmp) ;;; Ret r) s' (rewritten ino')).
Proof. apply along_call; [apply intact_staged|]. cbn [fs_handler]. split; [apply intact_staged|]. apply removed_spec. Qed.

Lemma commit_spec ino : ino_content ino = "" →
  along (fs_handler oc) (intact (ino_mode ino) (ino_uid ino)) (with_temp tmp (write_and_rename tmp path b)) (staged ino) (rewritten ino).
Proof.
  intros Hc. unfold with_temp, write_and_rename. apply along_bind.
  apply along_call; [apply intact_staged|]. cbn [fs_handler]. rewrite on_staged, Hc. cbn [String.append].
  destruct (oc_write oc) as [part|]; cbn [negb default]; [apply give_up_spec|].
  apply along_call; [apply intact_staged|]. cbn [fs_handler]. destruct (oc_sync oc); cbn [negb]; [|apply give_up_spec].
  rewrite on_staged. cbn [ino_content ino_mode ino_uid ino_gid].
  apply along_call; [apply intact_staged|]. cbn [fs_handler]. destruct (oc_close oc); cbn [negb]; [|split; [apply intact_staged|apply removed_spec]].
  apply along_call; [apply intact_staged|]. destruct (oc_rename oc) eqn:Hr.
  2:{ cbn [fs_handler]. rewrite Hr. cbn [negb]. split; [apply intact_staged|apply removed_spec]. }
  pose proof (rename_staged (mkInode b (ino_mode ino) (ino_uid ino) (ino_gid ino) true) Hr) as Hren.
  assert ((fs_handler oc bool (FRename tmp path) (staged (mkInode b (ino_mode ino) (ino_uid ino) (ino_gid ino) true))).2 = true) as Hans by done.
  destruct (fs_handler oc bool (FRename tmp path) _) as [s1 ok]. cbn in Hren, Hans. subst s1 ok. cbn [negb].
  assert (∀ d, (d !! path = Some i0 ∨ d !! path = Some (fs_next s)) →
    intact (ino_mode ino) (ino_uid ino) (renamed d (mkInode b (ino_mode ino) (ino_uid ino) (ino_gid ino) true))) as Hren by by intros d Hd; apply intact_renamed.
  assert (∀ d, (d !! path = Some i0 ∨ d !! path = Some (fs_next s)) →
    along (fs_handler oc) (intact (ino_mode ino) (ino_uid ino)) (fcall_ (FRemove tmp) ;;; Ret (Ok ()))
      (renamed d (mkInode b (ino_mode ino) (ino_uid ino) (ino_gid ino) true)) (rewritten ino)) as Hend.
  { intros d Hd. apply along_call; [by apply Hren|]. cbn [fs_handler].
    assert (∀ x : fs, (if oc_remove oc then x else x) = x) as Hif by by destruct (oc_remove oc).
    rewrite drop_renamed, Hif. split; [by apply Hren|]. unfold rewritten, file_at. cbn. rewrite lookup_insert_eq. cbn. by rewrite lookup_insert_eq. }
  destruct Hold as (_ & Hdur & _).
  apply along_call; [apply Hren; auto|]. cbn [fs_handler]. destruct (oc_syncdir oc).
  - change (with_durable (fs_dir (renamed (fs_durable s) (mkInode b (ino_mode ino) (ino_uid ino) (ino_gid ino) true)))
      (renamed (fs_durable s) (mkInode b (ino_mode ino) (ino_uid ino) (ino_gid ino) true)))
      with (renamed (<[path := fs_next s]> (fs_dir s)) (mkInode b (ino_mode ino) (ino_uid ino) (ino_gid ino) true)).
    assert (<[path := fs_next s]> (fs_dir s) !! path = Some (fs_next s)) as Hp by by rewrite lookup_insert_eq.
    split; [apply Hren; auto|apply Hend; auto].
  - split; [apply Hren; auto|apply Hend; auto].
Qed.

(** The whole of a writer once the temporary file exists. *)
Lemma atomicWrite_body : 
  along (fs_handler oc) (intact (ino_mode ino0) (fs_euid s))
    (with_temp tmp (ok <- fcall_ (FChmod tmp (ino_mode ino0)) ;;
       if negb ok then fcall_ (FClose tmp) ;;; Ret (Err EChmod) else write_and_rename tmp path b))
    (staged (mkInode "" 384 (fs_euid s) (fs_egid s) false))
    (rewritten (mkInode b (ino_mode ino0) (fs_euid s) (fs_egid s) true)).
Proof.
  unfold with_temp. apply along_bind, along_call; [apply intact_staged|]. cbn [fs_handler]. destruct (oc_chmod oc); cbn [negb]; [|apply give_up_spec].
  rewrite on_staged. cbn [ino_content ino_uid ino_gid].
  pose proof (commit_spec (mkInode "" (ino_mode ino0) (fs_euid s) (fs_egid s) false) eq_refl) as H.
  unfold with_temp in H. by apply along_unbind in H.
Qed.

(** What a writer leaves: the new file with the old mode and owner, and a group
    that is the old one unless the system refused to restore it; or the old
    file, and no temporary one. *)
Definition replaced (uid : Z) (group : Z → Prop) (r : result write_error unit) (s' : fs) : Prop :=
  match r with
  | Ok _ => ∃ g, file_at s' path = Some (mkInode b (ino_mode ino0) uid g true) ∧ group g
  | Err _ => file_at s' path = file_at s path ∧ (oc_remove oc = true → fs_dir s' !! tmp = None)
  end.
Lemma rewritten_replaced uid group ino r s' :
  ino_mode ino = ino_mode ino0 → ino_uid ino = uid → group (ino_gid ino) → rewritten ino r s' → replaced uid group r s'.
Proof. intros Hm <- Hg. destruct r as [[]|e]; cbn; [|done]. rewrite Hm. eauto. Qed.

Definition old_group (g : Z) : Prop := g = ino_gid ino0 ∨ (oc_chown oc = ChownEPERM ∧ g = fs_egid s).

Lemma set_kept_id was mine : 0 ≤ was → set_id (kept_id was mine) mine = was.
Proof.
  intros H. unfold set_id, kept_id. destruct (Z.eqb_spec was mine) as [->|]; [done|]. destruct (Z.eqb_spec was (-1)); [lia|done].
Qed.
Lemma kept_id_own was mine : 0 ≤ was → kept_id was mine = -1 → was = mine.
Proof. unfold kept_id. destruct (Z.eqb_spec was mine); [done|lia]. Qed.

Lemma commit_replaced ino :
  ino_content ino = "" → ino_mode ino = ino_mode ino0 → ino_uid ino = ino_uid ino0 → old_group (ino_gid ino) →
  along (fs_handler oc) (intact (ino_mode ino0) (ino_uid ino0)) (write_and_rename tmp path b) (staged ino)
    (fun r s' => along (fs_handler oc) (intact (ino_mode ino0) (ino_uid ino0)) (fcall_ (FRemove tmp) ;;; Ret r) s' (replaced (ino_uid ino0) old_group)).
Proof.
  intros Hc Hm Hu Hg. apply along_unbind. eapply along_mono; [intros r s'; by apply rewritten_replaced|].
  rewrite <-Hm, <-Hu. by apply commit_spec.
Qed.
Lemma give_up_replaced ino e :
  along (fs_handler oc) (intact (ino_mode ino0) (ino_uid ino0)) (fcall_ (FClose tmp) ;;; Ret (Err e)) (staged ino)
    (fun r s' => along (fs_handler oc) (intact (ino_mode ino0) (ino_uid ino0)) (fcall_ (FRemove tmp) ;;; Ret r) s' (replaced (ino_uid ino0) old_group)).
Proof.
  eapply along_mono; [|apply (give_up_spec _ _ ino ino0)]. intros r s'. cbn beta. apply along_mono. intros r' s''. cbn.
  destruct r' as [[]|]; cbn; [|done]. intros H. eexists. split; [exact H|by left].
Qed.

Lemma writeConfigAtomic_body : 0 ≤ ino_uid ino0 → 0 ≤ ino_gid ino0 →
  let uid := kept_id (ino_uid ino0) (fs_euid s) in
  let gid := kept_id (ino_gid ino0) (fs_egid s) in
  along (fs_handler oc) (intact (ino_mode ino0) (ino_uid ino0))
    (with_temp tmp (
      ok <- fcall_ (FChmod tmp (ino_mode ino0)) ;;
      if negb ok then fcall_ (FClose tmp) ;;; Ret (Err EChmod) else
      if (uid =? -1) && (gid =? -1) then write_and_rename tmp path b else
      r <- fcall_ (FChown tmp uid gid) ;;
      match r with
      | ChownOk => write_and_rename tmp path b
      | ChownEPERM =>
          if negb (uid =? -1) then fcall_ (FClose tmp) ;;; Ret (Err (EOwner uid)) else write_and_rename tmp path b
      | ChownError =>
          fcall_ (FClose tmp) ;;; Ret (Err (if negb (uid =? -1) then EOwner uid else EGroup gid))
      end))
    (staged (mkInode "" 384 (fs_euid s) (fs_egid s) false)) (replaced (ino_uid ino0) old_group).
Proof.
  intros Hu Hg uid gid. unfold with_temp. apply along_bind, along_call; [apply intact_staged|].
  cbn [fs_handler]. destruct (oc_chmod oc); cbn [negb]; [|apply give_up_replaced].
  rewrite on_staged. cbn [ino_content ino_uid ino_gid].
  destruct ((uid =? -1) && (gid =? -1)) eqn:Eown.
  { apply andb_true_iff in Eown as [E1%Z.eqb_eq E2%Z.eqb_eq]. apply kept_id_own in E1, E2; [|done..].
    apply commit_replaced; cbn; [done|done|done|by left]. }
  apply along_call; [apply intact_staged|]. cbn [fs_handler]. destruct (oc_chown oc) eqn:Ech.
  - rewrite on_staged. cbn [ino_content ino_mode ino_uid ino_gid]. unfold uid, gid. rewrite !set_kept_id by done.
    apply commit_replaced; cbn; [done..|by left].
  - destruct (Z.eqb_spec uid (-1)) as [E1|]; cbn [negb]; [|apply give_up_replaced]. apply kept_id_own in E1; [|done].
    apply commit_replaced; cbn; [done..|by right].
  - apply give_up_replaced.
Qed.
End stages.

(** ** The configuration survives *)

(** The file is there, on the disk, and its directory entry too. *)
Record settled (s : fs) (path : string) (ino : inode) : Prop := mkSettled {
  se_entry : ∃ i, fs_dir s !! path = Some i ∧ fs_durable s !! path = Some i ∧ fs_inodes s !! i = Some ino ∧ i ≠ fs_next s;
  se_synced : ino_synced ino = true;
  se_ids : 0 ≤ ino_uid ino ∧ 0 ≤ ino_gid ino;
}.
(** [os.CreateTemp] opens exclusively. *)
Definition exclusive (oc : outcomes) (s : fs) (path : string) : Prop :=
  ∀ tmp, oc_temp oc = Some tmp → fs_dir s !! tmp = None ∧ tmp ≠ path.

Definition kept (s : fs) (path : string) (r : result write_error unit) (s' : fs) (new : inode → Prop) (oc : outcomes) : Prop :=
  match r with
  | Ok _ => ∃ ino, file_at s' path = Some ino ∧ new ino
  | Err _ => file_at s' path = file_at s path ∧ (oc_remove oc = true → ∀ tmp, oc_temp oc = Some tmp → fs_dir s' !! tmp = None)
  end.

Lemma writeConfigAtomic_along oc s path0 b ino0 :
  let path := default path0 (fs_links s !! path0) in
  settled s path ino0 → exclusive oc s path →
  along (fs_handler oc) (intact path ino0 b (ino_mode ino0) (ino_uid ino0)) (writeConfigAtomic path0 b) s
    (fun r s' => kept s path r s' (fun ino => ∃ g, ino = mkInode b (ino_mode ino0) (ino_uid ino0) g true ∧
       (g = ino_gid ino0 ∨ (oc_chown oc = ChownEPERM ∧ g = fs_egid s))) oc).
Proof.
  intros path [(i0 & Hd & Hdur & Hi & Hne) Hsy [Hu Hg]] Hex. unfold writeConfigAtomic.
  assert (intact path ino0 b (ino_mode ino0) (ino_uid ino0) s) as Hs by by eapply intact_self.
  apply along_call; [done|]. cbn [fs_handler]. change (default path0 (fs_links s !! path0)) with path.
  apply along_call; [done|]. cbn [fs_handler]. unfold file_at. rewrite Hd. cbn [mbind option_bind]. rewrite Hi. cbn [fmap option_fmap option_map at_mode at_uid at_gid].
  apply along_call; [done|]. cbn [fs_handler fst snd]. apply along_call; [done|]. cbn [fs_handler].
  destruct (oc_temp oc) as [tmp|] eqn:Et.
  - destruct (Hex tmp Et) as [Hf1 Hf2].
    pose proof (writeConfigAtomic_body oc s path tmp ino0 i0 b (conj Hd (conj Hdur Hi)) Hsy (conj Hf1 (conj Hf2 Hne)) Hu Hg) as H.
    eapply along_mono; [|exact H]. intros [[]|e] s'; cbn.
    + intros (g & H1 & H2). eexists. split; [exact H1|]. by exists g.
    + intros [H1 H2]. split; [done|]. intros Hrm tmp' Ht. rewrite Et in Ht. injection Ht as <-. by apply H2.
  - split; [done|]. split; [done|]. intros _ tmp Ht. by rewrite Et in Ht.
Qed.

Lemma atomicWrite_along oc s path0 b ino0 :
  let path := default path0 (fs_links s !! path0) in
  settled s path ino0 → exclusive oc s path →
  along (fs_handler oc) (intact path ino0 b (ino_mode ino0) (fs_euid s)) (atomicWrite path0 b) s
    (fun r s' => kept s path r s' (fun ino => ino = mkInode b (ino_mode ino0) (fs_euid s) (fs_egid s) true) oc).
Proof.
  intros path [(i0 & Hd & Hdur & Hi & Hne) Hsy _] Hex. unfold atomicWrite.
  assert (intact path ino0 b (ino_mode ino0) (fs_euid s) s) as Hs by by eapply intact_self.
  apply along_call; [done|]. cbn [fs_handler]. change (default path0 (fs_links s !! path0)) with path.
  apply along_call; [done|]. cbn [fs_handler]. unfold file_at. rewrite Hd. cbn [mbind option_bind]. rewrite Hi. cbn [fmap option_fmap option_map at_mode].
  apply along_call; [done|]. cbn [fs_handler]. destruct (oc_temp oc) as [tmp|] eqn:Et.
  - destruct (Hex tmp Et) as [Hf1 Hf2].
    pose proof (atomicWrite_body oc s path tmp ino0 i0 b (conj Hd (conj Hdur Hi)) Hsy (conj Hf1 (conj Hf2 Hne))) as H.
    eapply along_mono; [|exact H]. intros [[]|e] s'; cbn.
    + intros H1. eexists. split; [exact H1|done].
    + intros [H1 H2]. split; [done|]. intros Hrm tmp' Ht. rewrite Et in Ht. injection Ht as <-. by apply H2.
  - split; [done|]. split; [done|]. intros _ tmp Ht. by rewrite Et in Ht.
Qed.

Section edit.
Context `{RE : RegexpEngine} (ToLower : string → string) (parse : string → option json).
Context (hujson_patch : string → list patch_op → option string) (decode : json → option policyConfig).
Context (iterL : range_order CommandPolicy) (iterG : range_order (list string)) (iterH : range_order HostPolicy).
#[local] Abbreviation validateEditedConfig := (validateEditedConfig ToLower parse decode iterL iterG iterH).
#[local] Abbreviation Patch := (Patch ToLower parse hujson_patch).

(** A validated result of the edit, with the mode and owner of the file. *)
Definition edited (ino0 : inode) (o : list patch_op) (content : string) (m u : Z) : Prop :=
  Patch (ino_content ino0) o = Some content ∧ (∃ v, parse content = Some v ∧ unambiguous ToLower v = true) ∧
  validateEditedConfig content = true ∧ m = ino_mode ino0 ∧ u = ino_uid ino0.
Definition old_or_edited (path : string) (ino0 : inode) (o : list patch_op) (s' : fs) : Prop := ∀ content m u g, survives s' path content m u g →
  (content = ino_content ino0 ∧ m = ino_mode ino0 ∧ u = ino_uid ino0 ∧ g = ino_gid ino0) ∨ edited ino0 o content m u.
Definition edit_done (s : fs) (path : string) (ino0 : inode) (o : list patch_op) (r : result edit_error unit) (s' : fs) : Prop :=
  match r with
  | Ok _ => ∃ ino, file_at s' path = Some ino ∧ edited ino0 o (ino_content ino) (ino_mode ino) (ino_uid ino) ∧ ino_synced ino = true
  | Err _ => file_at s' path = file_at s path
  end.

Lemma along_weaken {S A : Type} {E : Type → Type} (h : Prog.handler E S) (P P' : S → Prop) (p : Prog.prog E A) s Q :
  (∀ s', P s' → P' s') → along h P p s Q → along h P' p s Q.
Proof.
  intros HP. revert s. induction p as [a|X c f IH]; intros s; cbn; [intros [? ?]; auto|].
  intros [? H]. split; [auto|]. destruct (h X c s). by apply IH.
Qed.

Lemma settled_stays s path ino0 o : settled s path ino0 → old_or_edited path ino0 o s.
Proof.
  intros [(i0 & Hd & Hdur & Hi & _) Hsy _] content m u g H.
  destruct H as (i & ino & [?|?] & ? & Hs); simplify_eq; left; by apply Hs.
Qed.

Lemma settled_read s path ino0 : settled s path ino0 → ino_content <$> file_at s path = Some (ino_content ino0).
Proof. intros [(i0 & Hd & _ & Hi & _) _ _]. unfold file_at. rewrite Hd. cbn. by rewrite Hi. Qed.

Lemma patch_and_write_along oc s path0 ino0 o :
  let path := default path0 (fs_links s !! path0) in
  settled s path ino0 → exclusive oc s path →
  along (fs_handler oc) (old_or_edited path ino0 o) (patch_and_write ToLower parse hujson_patch decode iterL iterG iterH path0 (ino_content ino0) o) s (edit_done s path ino0 o).
Proof.
  intros path Hse Hex. pose proof (settled_stays s path ino0 o Hse) as Hs. unfold patch_and_write.
  destruct (Patch (ino_content ino0) o) as [nb|] eqn:Ep; [|done].
  destruct (validateEditedConfig nb) eqn:Ev; [|done]. cbn [negb].
  assert (∀ s', intact path ino0 nb (ino_mode ino0) (ino_uid ino0) s' → old_or_edited path ino0 o s') as Hw.
  { intros s' H content m u g Hsv. destruct (H _ _ _ _ Hsv) as [?|(-> & -> & ->)]; [by left|]. right. split_and!; eauto using Patch_unambiguous. }
  apply along_bind. eapply along_weaken; [exact Hw|]. eapply along_mono; [|exact (along_end _ _ _ _ _ (writeConfigAtomic_along oc s path0 nb ino0 Hse Hex))].
  intros r s' [Hi Hk]. split; [by apply Hw|]. destruct r as [[]|e]; cbn in *; [|apply Hk].
  destruct Hk as (ino & Hf & g & -> & _). eexists. split_and!; [exact Hf| |done]. split_and!; eauto using Patch_unambiguous.
Qed.

(** A per-key edit, from the file it reads. *)
Lemma patchConfigEntryKeys_along oc s path0 ino0 section name set remove :
  let path := default path0 (fs_links s !! path0) in
  settled s path ino0 → exclusive oc s path → key_ops section name set remove ≠ [] →
  along (fs_handler oc) (old_or_edited path ino0 (key_ops section name set remove))
    (patchConfigEntryKeys ToLower parse hujson_patch decode iterL iterG iterH path0 section name set remove) s
    (edit_done s path ino0 (key_ops section name set remove)).
Proof.
  intros path Hse Hex Hne. unfold patchConfigEntryKeys. destruct (key_ops section name set remove) as [|op o] eqn:Eo; [done|].
  apply along_call; [by apply settled_stays|]. cbn [fs_handler].
  change (default path0 (fs_links s !! path0)) with path. rewrite (settled_read _ _ _ Hse). by apply patch_and_write_along.
Qed.

(** [C35] An edit never leaves a torn or unusable configuration. Through every
    edit of a file by [broker-ctl], whichever of its steps fails and wherever a
    crash cuts it, what is found at the path (through its symbolic link) is
    either the old file with its attributes, or the complete result of the edit:
    a document that parses, repeats no key at any depth and whose policies
    compile, with the old mode and owner. The command reports success only with
    the latter in place, and on an error the old file is in place. The signer's
    own rewrite has the same guarantee for the text it is given, with its own
    user as owner, and leaves no temporary file behind when removing it works. *)
Theorem config_edit_safe oc s path0 ino0 :
  let path := default path0 (fs_links s !! path0) in
  settled s path ino0 → exclusive oc s path →
  (∀ section name value remove,
     let p := patchConfigEntry ToLower parse hujson_patch decode iterL iterG iterH path0 section name value remove in
     let o := default [] (entry_ops (Standardize ToLower parse (ino_content ino0)) section name value remove) in
     Forall (old_or_edited path ino0 o) (states (fs_handler oc) p s) ∧
     edit_done s path ino0 o (run (fs_handler oc) p s).2 (run (fs_handler oc) p s).1) ∧
  (∀ section name set remove, key_ops section name set remove ≠ [] →
     let p := patchConfigEntryKeys ToLower parse hujson_patch decode iterL iterG iterH path0 section name set remove in
     let o := key_ops section name set remove in
     Forall (old_or_edited path ino0 o) (states (fs_handler oc) p s) ∧
     edit_done s path ino0 o (run (fs_handler oc) p s).2 (run (fs_handler oc) p s).1) ∧
  (∀ b, let p := atomicWrite path0 b in
     Forall (intact path ino0 b (ino_mode ino0) (fs_euid s)) (states (fs_handler oc) p s) ∧
     kept s path (run (fs_handler oc) p s).2 (run (fs_handler oc) p s).1
       (fun ino => ino = mkInode b (ino_mode ino0) (fs_euid s) (fs_egid s) true) oc).
Proof.
  intros path Hse Hex. pose proof (settled_stays s path ino0) as Hst.
  pose proof (settled_read s path ino0 Hse) as Hread.
  split_and!.
  - intros section name value remove p o. apply along_sound. unfold p, patchConfigEntry. apply along_call; [by apply Hst|]. cbn [fs_handler].
    change (default path0 (fs_links s !! path0)) with path. rewrite Hread. subst o.
    destruct (entry_ops _ _ _ _ _) as [o|]; [by apply patch_and_write_along|]. split; [by apply Hst|done].
  - intros section name set remove Hne p o. by apply along_sound, patchConfigEntryKeys_along.
  - intros b p. exact (along_sound _ _ _ _ _ (atomicWrite_along oc s path0 b ino0 Hse Hex)).
Qed.
End edit.

(** ** An edit *)

Definition etc_fs : fs :=
  mkFs {["/home/op/signer.json" := "/etc/infrabroker/signer.json"]} {["/etc/infrabroker/signer.json" := 1%nat]}
    {["/etc/infrabroker/signer.json" := 1%nat]} {[1%nat := mkInode "old" 416 990 990 true]} 2 0 0.
(** A reader that knows two texts, and a patcher that appends. *)
Definition toy_doc (s : string) : option json :=
  if bool_decide (s = "old") then Some (JObject [("hosts", JObject [])])
  else if bool_decide (s = "old+rule") then Some (JObject [("hosts", JObject [("web1", JScalar "1")])]) else None.
Definition toy_patch (orig : string) (o : list patch_op) : option string :=
  match o with [OpAdd "/hosts/web1/addr" _] => Some (orig +:+ "+rule") | _ => None end.
Definition toy_config (_ : json) : option policyConfig := Some (mkPolicyConfig web_hosts ∅ ∅).
Definition etc_edit : fprog (result edit_error unit) :=
  @patchConfigEntryKeys prefix_engine lower toy_doc toy_patch toy_config map_to_list map_to_list map_to_list
    "/home/op/signer.json" "hosts" "web1" {["addr" := JScalar "1"]} [].
Definition etc_run (oc : outcomes) : fs * result edit_error unit := run (fs_handler oc) etc_edit etc_fs.
Definition all_well : outcomes := mkOutcomes (Some "/etc/infrabroker/.signer.json.tmp-1") true ChownOk None true true true true true.
Definition disk_full : outcomes := mkOutcomes (Some "/etc/infrabroker/.signer.json.tmp-1") true ChownOk (Some "ol") true true true true true.

Example edit_runs :
  (etc_run all_well).2 = Ok () ∧ file_at (etc_run all_well).1 "/etc/infrabroker/signer.json" = Some (mkInode "old+rule" 416 990 990 true).
Proof. split; vm_compute; reflexivity. Qed.
Example edit_full : (etc_run disk_full).2 = Err (EWriteFailed EWrite) ∧ fs_dir (etc_run disk_full).1 = fs_dir etc_fs.
Proof. split; vm_compute; reflexivity. Qed.

Lemma config_edit_safe_witness :
  Forall (@old_or_edited prefix_engine lower toy_doc toy_patch toy_config map_to_list map_to_list map_to_list "/etc/infrabroker/signer.json"
      (mkInode "old" 416 990 990 true) (key_ops "hosts" "web1" {["addr" := JScalar "1"]} []))
    (states (fs_handler disk_full) etc_edit etc_fs) ∧
  file_at (etc_run disk_full).1 "/etc/infrabroker/signer.json" = Some (mkInode "old" 416 990 990 true).
Proof.
  destruct (@config_edit_safe prefix_engine lower toy_doc toy_patch toy_config map_to_list map_to_list map_to_list disk_full etc_fs "/home/op/signer.json"
    (mkInode "old" 416 990 990 true)) as (_ & H & _).
  - split; [|reflexivity|cbn; lia]. exists 1%nat. split_and!; [reflexivity..|]. vm_compute. discriminate.
  - intros tmp Ht. injection Ht as <-. split; [reflexivity|]. vm_compute. discriminate.
  - destruct (H "hosts" "web1" {["addr" := JScalar "1"]} []) as [H1 H2]; [vm_compute; discriminate|]. split; [exact H1|]. vm_compute. reflexivity.
Defined.
