(* ===== verification/ConfigEdit.v ===== *)
(** * Editing the signer's hosts, keys and callers

    [host add], [host remove], [ca-keys add] and [callers add] of
    [cmd/broker-ctl/main.go]: from the flags and the file to the operations of a
    JSON patch, and what the patch makes of the document. JSON texts are read and
    written at the level of documents; strings are taken to be UTF-8. *)

From S2P Require Import Prelude GoStrings CmdPolicy PolicySet Encoding Prog HostPolicy AuditTime ShellDriver ConfCheck ConfigWrite.

(** ** Entries and their JSON *)

Record hostEntry := mkHostEntry {
  he_Addr : string;
  he_User : string;
  he_HostKey : string;
  he_Jump : string;
  he_Principal : string;
  he_SourceAddress : string;
  he_MaxTTLSeconds : Z;
  he_AllowAsBastion : bool;
  he_AllowedCallers : list string;
  he_AllowSudo : bool;
  he_AllowedSudoUsers : list string;
  he_AllowPTY : bool;
  he_AllowFileTransfer : bool;
  he_Groups : list string;
  he_CommandPolicy : option json;
}.

(** [omitempty] *)
Definition json_bool (b : bool) : json := JScalar (if b then "true" else "false").
Definition omit_str (v : string) : option json := if bool_decide (v = "") then None else Some (JString v).
Definition omit_int (v : Z) : option json := if v =? 0 then None else Some (JScalar (FormatInt v)).
Definition omit_bool (v : bool) : option json := if v then Some (json_bool true) else None.
Definition omit_list (v : list string) : option json := if bool_decide (v = []) then None else Some (JArray (map JString v)).

(** [json.Marshal] of an entry, by its fields: [None] is a field left out. *)
Definition host_fields (h : hostEntry) : list (string * option json) :=
  [("addr", Some (JString (he_Addr h))); ("user", Some (JString (he_User h))); ("host_key", Some (JString (he_HostKey h)));
   ("jump", omit_str (he_Jump h)); ("principal", Some (JString (he_Principal h))); ("source_address", omit_str (he_SourceAddress h));
   ("max_ttl_seconds", omit_int (he_MaxTTLSeconds h)); ("allow_as_bastion", omit_bool (he_AllowAsBastion h));
   ("allowed_callers", omit_list (he_AllowedCallers h)); ("allow_sudo", omit_bool (he_AllowSudo h));
   ("allowed_sudo_users", omit_list (he_AllowedSudoUsers h)); ("allow_pty", omit_bool (he_AllowPTY h));
   ("allow_file_transfer", omit_bool (he_AllowFileTransfer h)); ("groups", omit_list (he_Groups h)); ("command_policy", he_CommandPolicy h)].
Definition given (fs : list (string * option json)) : list (string * json) :=
  omap (fun kv => (fun v => (kv.1, v)) <$> kv.2) fs.
Definition hostEntryKeys : list string :=
  ["addr"; "user"; "host_key"; "jump"; "principal"; "source_address"; "max_ttl_seconds"; "allow_as_bastion"; "allowed_callers"; "allow_sudo";
   "allowed_sudo_users"; "allow_pty"; "allow_file_transfer"; "groups"; "command_policy"].
Definition host_json (h : hostEntry) : json := JObject (given (host_fields h)).

(** [json.Unmarshal] of a document into a map of raw values. *)
Definition member (ms : list (string * json)) (k : string) : option json :=
  snd <$> List.find (fun kv => bool_decide (kv.1 = k)) (rev ms).

Section decode.
(** How [encoding/json] folds names. *)
Context (fold : string → string).

(** The value a field gets: the last member whose name folds to the field's. *)
Definition field (ms : list (string * json)) (k : string) : option json :=
  snd <$> List.find (fun kv => bool_decide (fold kv.1 = fold k)) (rev ms).

(** One field of each type; [None] is a value of another type. *)
Definition str_of (o : option json) : option string :=
  match o with None => Some "" | Some (JString s) => Some s | Some v => if isJSONNull v then Some "" else None end.
Definition int_of (o : option json) : option Z :=
  match o with None => Some 0 | Some (JScalar t) => if bool_decide (t = "null") then Some 0 else Atoi_int t | Some _ => None end.
Definition bool_of (o : option json) : option bool :=
  match o with
  | None => Some false
  | Some (JScalar t) => if bool_decide (t = "true") then Some true
                        else if bool_decide (t = "false") || bool_decide (t = "null") then Some false else None
  | Some _ => None
  end.
Definition list_of (o : option json) : option (list string) :=
  match o with
  | None => Some []
  | Some (JArray l) => mapM (fun x => str_of (Some x)) l
  | Some v => if isJSONNull v then Some [] else None
  end.

(** [json.Unmarshal] of an entry; [null] is the zero entry. *)
Definition decode_members (ms : list (string * json)) : option hostEntry :=
  addr ← str_of (field ms "addr"); user ← str_of (field ms "user"); host_key ← str_of (field ms "host_key");
  jump ← str_of (field ms "jump"); principal ← str_of (field ms "principal"); source ← str_of (field ms "source_address");
  ttl ← int_of (field ms "max_ttl_seconds"); bastion ← bool_of (field ms "allow_as_bastion"); callers ← list_of (field ms "allowed_callers");
  sudo ← bool_of (field ms "allow_sudo"); sudo_users ← list_of (field ms "allowed_sudo_users"); pty ← bool_of (field ms "allow_pty");
  transfer ← bool_of (field ms "allow_file_transfer"); groups ← list_of (field ms "groups");
  Some (mkHostEntry addr user host_key jump principal source ttl bastion callers sudo sudo_users pty transfer groups (field ms "command_policy")).
Definition decode_host (v : json) : option hostEntry := top_level v ≫= decode_members.

(** ** Command policies *)

Definition policy_fields (p : CommandPolicy) : list (string * option json) :=
  [("mode", omit_str (cp_Mode p)); ("enforcement", omit_str (cp_Enforcement p)); ("allow", omit_list (cp_Allow p));
   ("deny", omit_list (cp_Deny p)); ("require_approval", omit_list (cp_RequireApproval p)); ("shell_parse", json_bool <$> cp_ShellParse p)].
Definition policy_json (p : CommandPolicy) : json := JObject (given (policy_fields p)).
Definition flag_of (o : option json) : option (option bool) :=
  match o with
  | None => Some None
  | Some v => if isJSONNull v then Some None else Some <$> bool_of o
  end.
Definition decode_policy (v : json) : option CommandPolicy :=
  ms ← top_level v;
  mode ← str_of (field ms "mode"); enforcement ← str_of (field ms "enforcement"); allow ← list_of (field ms "allow");
  deny ← list_of (field ms "deny"); approval ← list_of (field ms "require_approval"); parse ← flag_of (field ms "shell_parse");
  Some (mkCommandPolicy mode enforcement allow deny approval parse).

(** [splitComma] *)
Definition splitComma (s : string) : list string :=
  List.filter (fun p => negb (bool_decide (p = ""))) (map TrimSpace (Split s ","%char)).

(** ** [host add] *)

(** The flags; [fl_set] are those given on the command line. *)
Record hostFlags := mkHostFlags {
  fl_name : string; fl_addr : string; fl_user : string; fl_hostKey : string; fl_scan : bool; fl_principal : string; fl_ttl : Z;
  fl_jump : string; fl_srcAddr : string; fl_sudo : bool; fl_sudoUsers : string; fl_pty : bool; fl_fileTransfer : bool;
  fl_groups : string; fl_callers : string; fl_bastion : bool; fl_force : bool;
  fl_mode : string; fl_enforcement : string; fl_allow : string; fl_deny : string; fl_approve : string; fl_shell : bool;
  fl_set : gset string;
}.

Definition key_given (f : hostFlags) : bool := fl_scan f || bool_decide (fl_hostKey f ≠ "").

(** The entry the flags describe. *)
Definition flagged_entry (f : hostFlags) (hk : string) : hostEntry :=
  mkHostEntry (fl_addr f) (fl_user f) hk (fl_jump f)
    (if bool_decide (fl_principal f = "") then "host:" +:+ fl_name f else fl_principal f)
    (fl_srcAddr f) (fl_ttl f) (fl_bastion f) (splitComma (fl_callers f)) (fl_sudo f) (splitComma (fl_sudoUsers f)) (fl_pty f)
    (fl_fileTransfer f) (splitComma (fl_groups f)) None.

Definition set_flags (f : hostFlags) : gset string :=
  if key_given f then fl_set f else fl_set f ∖ {["host-key"; "scan"]}.
Definition policy_flags : list string := ["policy-mode"; "policy-enforcement"; "allow"; "deny"; "require-approval"; "shell-parse"].
Definition policySet (f : hostFlags) : bool := existsb (fun k => bool_decide (k ∈ set_flags f)) policy_flags.

Definition mergeUnsetHostFields (hp existing : hostEntry) (set : gset string) : hostEntry :=
  let keep {A : Type} (flag : string) (old new : A) : A := if bool_decide (flag ∈ set) then new else old in
  mkHostEntry (he_Addr hp) (he_User hp)
    (if bool_decide ("host-key" ∈ set) || bool_decide ("scan" ∈ set) then he_HostKey hp else he_HostKey existing)
    (keep "jump" (he_Jump existing) (he_Jump hp)) (keep "principal" (he_Principal existing) (he_Principal hp))
    (keep "source-address" (he_SourceAddress existing) (he_SourceAddress hp)) (keep "ttl" (he_MaxTTLSeconds existing) (he_MaxTTLSeconds hp))
    (keep "bastion" (he_AllowAsBastion existing) (he_AllowAsBastion hp)) (keep "callers" (he_AllowedCallers existing) (he_AllowedCallers hp))
    (keep "sudo" (he_AllowSudo existing) (he_AllowSudo hp)) (keep "sudo-users" (he_AllowedSudoUsers existing) (he_AllowedSudoUsers hp))
    (keep "pty" (he_AllowPTY existing) (he_AllowPTY hp)) (keep "file-transfer" (he_AllowFileTransfer existing) (he_AllowFileTransfer hp))
    (keep "groups" (he_Groups existing) (he_Groups hp)) (he_CommandPolicy hp).

Definition shell_arg (f : hostFlags) : option bool := if bool_decide ("shell-parse" ∈ set_flags f) then Some (fl_shell f) else None.

Definition buildCommandPolicyJSON (f : hostFlags) : json :=
  policy_json (mkCommandPolicy (fl_mode f) (fl_enforcement f) (splitComma (fl_allow f)) (splitComma (fl_deny f)) (splitComma (fl_approve f)) (shell_arg f)).

Definition merge_policy (f : hostFlags) (p : CommandPolicy) : CommandPolicy :=
  let keep {A : Type} (flag : string) (old new : A) : A := if bool_decide (flag ∈ set_flags f) then new else old in
  mkCommandPolicy (keep "policy-mode" (cp_Mode p) (fl_mode f)) (keep "policy-enforcement" (cp_Enforcement p) (fl_enforcement f))
    (keep "allow" (cp_Allow p) (splitComma (fl_allow f))) (keep "deny" (cp_Deny p) (splitComma (fl_deny f)))
    (keep "require-approval" (cp_RequireApproval p) (splitComma (fl_approve f))) (keep "shell-parse" (cp_ShellParse p) (shell_arg f)).
Definition mergeCommandPolicyJSON (existing : option json) (f : hostFlags) : option json :=
  match existing with
  | None => Some (policy_json (merge_policy f no_policy))
  | Some v => (fun p => policy_json (merge_policy f p)) <$> decode_policy v
  end.

(** [hostEntryDelta]; [jsonEqual] compares compacted texts. *)
Context (jsonEqual : json → json → bool).

Definition differs (ms : list (string * json)) (k : string) (nv : json) : bool :=
  match member ms k with Some ov => negb (jsonEqual ov nv) | None => true end.
Definition hostEntryDelta (existing : json) (hp : hostEntry) : option (gmap string json * list string) :=
  ms ← top_level existing;
  Some (list_to_map (List.filter (fun kv => differs ms kv.1 kv.2) (given (host_fields hp))),
        merge_sort String.le
          (map fst (List.filter (fun kv => bool_decide (kv.2 = None) && bool_decide (member ms kv.1 ≠ None)) (host_fields hp)))).

Inductive add_error := EUsage | EKeyRequired | EExclusive | EHostKey | EReadConfig | EParseHosts | EExists | EPolicy | EMerge | EWriting (e : edit_error).

(** [extractHosts] with [extractRawHost]: every entry must decode. *)
Definition section_of (top : list (string * json)) (name : string) : option (list (string * json)) :=
  match member top name with None => Some [] | Some v => top_level v end.
Definition extractHosts (top : list (string * json)) : option (list (string * json)) :=
  hosts ← section_of top "hosts";
  if forallb (fun kv => bool_decide (decode_host kv.2 ≠ None)) hosts then Some hosts else None.

(** [extractCallers]: as with hosts, every entry must decode. *)
Definition decode_caller (v : json) : option (list string * bool * bool) :=
  ms ← top_level v;
  groups ← list_of (field ms "allowed_groups"); self ← bool_of (field ms "self_approve"); verified ← bool_of (field ms "require_verified_end_user");
  Some (groups, self, verified).
Definition extractCallers (top : list (string * json)) : option (list (string * json)) :=
  callers ← section_of top "callers";
  if forallb (fun kv => bool_decide (decode_caller kv.2 ≠ None)) callers then Some callers else None.

(** The entry to write, given the existing one. *)
Definition updated_entry (f : hostFlags) (hk : string) (existing : hostEntry) : option hostEntry :=
  let hp := mergeUnsetHostFields (flagged_entry f hk) existing (set_flags f) in
  let with_policy p := mkHostEntry (he_Addr hp) (he_User hp) (he_HostKey hp) (he_Jump hp) (he_Principal hp) (he_SourceAddress hp) (he_MaxTTLSeconds hp)
    (he_AllowAsBastion hp) (he_AllowedCallers hp) (he_AllowSudo hp) (he_AllowedSudoUsers hp) (he_AllowPTY hp) (he_AllowFileTransfer hp) (he_Groups hp) p in
  if policySet f then (fun p => with_policy (Some p)) <$> mergeCommandPolicyJSON (he_CommandPolicy existing) f
  else Some (with_policy (he_CommandPolicy existing)).
Definition new_entry (f : hostFlags) (hk : string) : hostEntry :=
  let hp := flagged_entry f hk in
  mkHostEntry (he_Addr hp) (he_User hp) (he_HostKey hp) (he_Jump hp) (he_Principal hp) (he_SourceAddress hp) (he_MaxTTLSeconds hp)
    (he_AllowAsBastion hp) (he_AllowedCallers hp) (he_AllowSudo hp) (he_AllowedSudoUsers hp) (he_AllowPTY hp) (he_AllowFileTransfer hp) (he_Groups hp)
    (if policySet f then Some (buildCommandPolicyJSON f) else None).
End decode.

(** ** [ca-keys add] and [callers add] *)

Record caKeyEntry := mkCAKeyEntry {
  ke_Type : string; ke_Path : string; ke_Socket : string; ke_PublicKeyPath : string; ke_VaultURL : string; ke_KeyName : string;
}.
Definition ca_fields (e : caKeyEntry) : list (string * option json) :=
  [("type", Some (JString (ke_Type e))); ("path", omit_str (ke_Path e)); ("socket", omit_str (ke_Socket e));
   ("public_key_path", omit_str (ke_PublicKeyPath e)); ("vault_url", omit_str (ke_VaultURL e)); ("key_name", omit_str (ke_KeyName e))].

Definition caKeyBackends : list (string * list string) :=
  [("pem", ["path"]); ("agent", ["socket"; "public_key_path"]);
   ("akv", ["vault_url"; "key_name"; "key_version"; "tenant_id"; "client_id"; "client_secret_env"])].
Definition caKeyBackendKeys (typ : string) : list string :=
  match List.find (fun kv => bool_decide (kv.1 = typ)) caKeyBackends with Some kv => kv.2 | None => [] end.
(** The backend a key belongs to; the lists are disjoint, so the order of the
    range does not matter. *)
Definition key_owner (k : string) : string :=
  match List.find (fun kv => bool_decide (k ∈ kv.2)) caKeyBackends with Some kv => kv.1 | None => "" end.

(** The flags of another backend, by name. *)
Definition checkCAKeyEntryFlags (e : caKeyEntry) : list string :=
  merge_sort String.le
    (map (fun k => "--" +:+ ReplaceByte k "_"%char "-")
       (List.filter (fun k => negb (bool_decide (k = "type")) && negb (bool_decide (key_owner k = ke_Type e))) (map fst (given (ca_fields e))))).

Definition caKeyEntryDelta (jsonEqual : json → json → bool) (existing : json) (e : caKeyEntry) :
    option (gmap string json * list string * list string) :=
  ms ← top_level existing;
  let oldType := match member ms "type" with Some (JString t) => t | _ => "" end in
  let remove := if bool_decide (oldType ≠ ke_Type e) then List.filter (fun k => bool_decide (member ms k ≠ None)) (caKeyBackendKeys oldType) else [] in
  Some (list_to_map (List.filter (fun kv => differs jsonEqual ms kv.1 kv.2) (given (ca_fields e))), remove,
        if bool_decide (remove = []) then [] else oldType :: remove).

(** The flags of [ca-keys add]. *)
Definition ca_flags_ok (name : string) (e : caKeyEntry) : bool :=
  negb (bool_decide (name = "")) && negb (bool_decide (ke_Type e = "")) &&
  (if bool_decide (ke_Type e = "pem") then bool_decide (ke_Path e ≠ "")
   else if bool_decide (ke_Type e = "akv") then bool_decide (ke_VaultURL e ≠ "") && bool_decide (ke_KeyName e ≠ "")
   else if bool_decide (ke_Type e = "agent") then bool_decide (ke_PublicKeyPath e ≠ "") else false).

Definition caller_json (groups : list string) : json := JObject [("allowed_groups", JArray (map JString groups))].

(** ** The commands *)

Section commands.
Context `{RE : RegexpEngine} (ToLower fold : string → string) (jsonEqual : json → json → bool) (parse : string → option json).
Context (hujson_patch : string → list patch_op → option string) (decode : json → option policyConfig).
Context (iterL : range_order CommandPolicy) (iterG : range_order (list string)) (iterH : range_order HostPolicy).
(** [ssh-keyscan] of an address, and the standard input. *)
Context (keyscan : string → option string) (stdin : option string).

#[local] Abbreviation patchConfigEntry := (patchConfigEntry ToLower parse hujson_patch decode iterL iterG iterH).
#[local] Abbreviation patchConfigEntryKeys := (patchConfigEntryKeys ToLower parse hujson_patch decode iterL iterG iterH).

Definition acquireHostKey (scan : bool) (hostKey addr : string) : option string :=
  if scan then keyscan addr else if bool_decide (hostKey = "-") then TrimSpace <$> stdin else Some hostKey.

Definition loadRaw (data : option string) : option (list (string * json)) :=
  data ≫= Unmarshal ToLower parse top_level.

Definition report {A : Type} (action : A) (p : fprog (result edit_error unit)) : fprog (result add_error A) :=
  r <- p ;; Ret (match r with Ok _ => Ok action | Err e => Err (EWriting e) end).

Definition cmdHostAdd (path : string) (f : hostFlags) : fprog (result add_error string) :=
  if bool_decide (fl_name f = "") || bool_decide (fl_addr f = "") || bool_decide (fl_user f = "") then Ret (Err EUsage)
  else if negb (key_given f) && negb (fl_force f) then Ret (Err EKeyRequired)
  else if fl_scan f && bool_decide (fl_hostKey f ≠ "") then Ret (Err EExclusive)
  else match (if key_given f then acquireHostKey (fl_scan f) (fl_hostKey f) (fl_addr f) else Some "") with
  | None => Ret (Err EHostKey)
  | Some hk =>
      data <- fcall_ (FReadFile path) ;;
      match loadRaw data with
      | None => Ret (Err EReadConfig)
      | Some top =>
      match extractHosts fold top with
      | None => Ret (Err EParseHosts)
      | Some hosts =>
      match member hosts (fl_name f) with
      | None =>
          if negb (key_given f) then Ret (Err EKeyRequired)
          else report "added" (patchConfigEntry path "hosts" (fl_name f) (host_json (new_entry f hk)) false)
      | Some existingRaw =>
          if negb (fl_force f) then Ret (Err EExists) else
          match decode_host fold existingRaw ≫= updated_entry fold f hk with
          | None => Ret (Err EPolicy)
          | Some hp =>
              if isJSONNull existingRaw then report "updated" (patchConfigEntry path "hosts" (fl_name f) (host_json hp) false)
              else match hostEntryDelta jsonEqual existingRaw hp with
                   | None => Ret (Err EMerge)
                   | Some (set, remove) => report "updated" (patchConfigEntryKeys path "hosts" (fl_name f) set remove)
                   end
          end
      end end end
  end.

(** [host remove], [ca-keys remove], [callers remove]: [entries] reads the
    section. *)
Definition cmd_remove (entries : list (string * json) → option (list (string * json))) (section path name : string) : fprog (result add_error string) :=
  data <- fcall_ (FReadFile path) ;;
  match loadRaw data with
  | None => Ret (Err EReadConfig)
  | Some top =>
      match entries top with
      | None => Ret (Err EParseHosts)
      | Some es =>
          match member es name with
          | None => Ret (Err EExists)
          | Some _ => report "removed" (patchConfigEntry path section name (JScalar "null") true)
          end
      end
  end.
Definition cmdHostRemove : string → string → fprog (result add_error string) := cmd_remove (extractHosts fold) "hosts".
Definition cmdCAKeysRemove : string → string → fprog (result add_error string) := cmd_remove (fun top => section_of top "ca_keys") "ca_keys".
Definition cmdCallersRemove : string → string → fprog (result add_error string) := cmd_remove (extractCallers fold) "callers".

(** [cmdCAKeysAdd] with [caKeysAdd]: the action and what was dropped. *)
Definition caKeysAdd (path name : string) (e : caKeyEntry) (force : bool) : fprog (result add_error (string * list string)) :=
  if negb (ca_flags_ok name e) then Ret (Err EUsage)
  else if negb (bool_decide (checkCAKeyEntryFlags e = [])) then Ret (Err EExclusive)
  else
    data <- fcall_ (FReadFile path) ;;
    match loadRaw data with
    | None => Ret (Err EReadConfig)
    | Some top =>
    match section_of top "ca_keys" with
    | None => Ret (Err EParseHosts)
    | Some keys =>
        let whole action := report (action, []) (patchConfigEntry path "ca_keys" name (JObject (given (ca_fields e))) false) in
        match member keys name with
        | None => whole "added"
        | Some existing =>
            if negb force then Ret (Err EExists)
            else if isJSONNull existing then whole "updated"
            else match caKeyEntryDelta jsonEqual existing e with
                 | None => Ret (Err EMerge)
                 | Some (set, remove, dropped) => report ("updated", dropped) (patchConfigEntryKeys path "ca_keys" name set remove)
                 end
        end
    end end.

(** [callersAdd] *)
Definition callersAdd (path name : string) (groups : list string) (force : bool) : fprog (result add_error string) :=
  data <- fcall_ (FReadFile path) ;;
  match loadRaw data with
  | None => Ret (Err EReadConfig)
  | Some top =>
  match section_of top "callers" with
  | None => Ret (Err EParseHosts)
  | Some callers =>
      match member callers name with
      | None => report "added" (patchConfigEntry path "callers" name (caller_json groups) false)
      | Some existing =>
          if negb force then Ret (Err EExists)
          else if isJSONNull existing then report "updated" (patchConfigEntry path "callers" name (caller_json groups) false)
          else report "updated" (patchConfigEntryKeys path "callers" name {["allowed_groups" := JArray (map JString groups)]} [])
      end
  end end.
End commands.
