(* ===== verification/ConfigEditRun.v ===== *)
(** * What an edit of the configuration changes

    The documented effect of a JSON patch on a document, and the statement about
    [host add --force] from the flags to the file. *)

From S2P Require Import Prelude GoStrings CmdPolicy PolicySet Encoding Prog HostPolicy AuditTime ShellDriver ShellRun ConfCheck ConfigWrite ConfigEdit.

(** ** The effect of a patch *)

(** Members of an object, by the first of that name. *)
Definition lookup_first (ms : list (string * json)) (k : string) : option json := snd <$> List.find (fun kv => bool_decide (kv.1 = k)) ms.
(** An added member replaces the one of that name in place, or comes last. *)
Fixpoint set_first (ms : list (string * json)) (k : string) (v : json) : list (string * json) :=
  match ms with
  | [] => [(k, v)]
  | kv :: r => if bool_decide (kv.1 = k) then (k, v) :: r else kv :: set_first r k v
  end.
Fixpoint del_first (ms : list (string * json)) (k : string) : list (string * json) :=
  match ms with [] => [] | kv :: r => if bool_decide (kv.1 = k) then r else kv :: del_first r k end.

(** The reference tokens of a JSON pointer (RFC 6901). *)
Definition ptr (path : string) : list string := map unescapePtr (tail (Split path "/"%char)).

(** One operation below the members a pointer walks through (RFC 6902); on
    arrays and at the root nothing is said. *)
Fixpoint edit_at (toks : list string) (v : option json) (doc : json) : option json :=
  match toks, doc with
  | [k], JObject ms =>
      match v, lookup_first ms k with
      | Some v, _ => Some (JObject (set_first ms k v))
      | None, Some _ => Some (JObject (del_first ms k))
      | None, None => None
      end
  | k :: toks, JObject ms => x ← lookup_first ms k; x' ← edit_at toks v x; Some (JObject (set_first ms k x'))
  | _, _ => None
  end.
Definition apply_op (doc : json) (op : patch_op) : option json :=
  match op with OpAdd p v => edit_at (ptr p) (Some v) doc | OpRemove p => edit_at (ptr p) None doc end.
Fixpoint apply_ops (doc : json) (ops : list patch_op) : option json :=
  match ops with [] => Some doc | op :: r => doc ← apply_op doc op; apply_ops doc r end.

(** ** Members *)

Definition keys (ms : list (string * json)) : list string := map fst ms.

Lemma lookup_first_cons kv ms k : lookup_first (kv :: ms) k = if bool_decide (kv.1 = k) then Some kv.2 else lookup_first ms k.
Proof. unfold lookup_first. cbn. by case_bool_decide. Qed.
Lemma lookup_first_None ms k : lookup_first ms k = None ↔ k ∉ keys ms.
Proof.
  induction ms as [|kv ms IH]; [by split; [intros _ ?%elem_of_nil|]|]. rewrite lookup_first_cons. unfold keys in *. cbn [map].
  rewrite not_elem_of_cons, <-IH. case_bool_decide; naive_solver.
Qed.
Lemma lookup_set_first ms k v k' : lookup_first (set_first ms k v) k' = if bool_decide (k = k') then Some v else lookup_first ms k'.
Proof.
  induction ms as [|kv ms IH]; cbn [set_first].
  - rewrite lookup_first_cons. done.
  - destruct (bool_decide (kv.1 = k)) eqn:E; rewrite !lookup_first_cons.
    + apply bool_decide_eq_true in E. cbn. subst k. by destruct (bool_decide (kv.1 = k')).
    + apply bool_decide_eq_false in E. rewrite IH. repeat case_bool_decide; naive_solver.
Qed.
Lemma lookup_del_first ms k k' : NoDup (keys ms) →
  lookup_first (del_first ms k) k' = if bool_decide (k = k') then None else lookup_first ms k'.
Proof.
  induction ms as [|kv ms IH]; cbn [del_first]; [by case_bool_decide|]. cbn [keys map]. intros [Hn Hd]%NoDup_cons.
  destruct (bool_decide (kv.1 = k)) eqn:E; rewrite !lookup_first_cons.
  - apply bool_decide_eq_true in E. subst k. case_bool_decide; [subst k'; by apply lookup_first_None|done].
  - apply bool_decide_eq_false in E. rewrite IH by done. repeat case_bool_decide; naive_solver.
Qed.
Lemma keys_set_first ms k v : keys (set_first ms k v) = if bool_decide (k ∈ keys ms) then keys ms else keys ms ++ [k].
Proof.
  induction ms as [|kv ms IH]; cbn [set_first]; [done|]. destruct (bool_decide (kv.1 = k)) eqn:E.
  - apply bool_decide_eq_true in E. subst k. cbn [keys map fst]. by rewrite bool_decide_eq_true_2 by left.
  - apply bool_decide_eq_false in E. change (keys (kv :: set_first ms k v)) with (kv.1 :: keys (set_first ms k v)). rewrite IH.
    change (keys (kv :: ms)) with (kv.1 :: keys ms). destruct (decide (k ∈ keys ms)).
    + by rewrite !bool_decide_eq_true_2 by (try right; done).
    + rewrite !bool_decide_eq_false_2; [done| |done]. by intros [->|?]%elem_of_cons.
Qed.
Lemma keys_del_first ms k : keys (del_first ms k) `sublist_of` keys ms.
Proof.
  induction ms as [|kv ms IH]; cbn [del_first keys map]; [done|]. case_bool_decide; [by apply sublist_cons|]. by apply sublist_skip.
Qed.
Lemma NoDup_set_first ms k v : NoDup (keys ms) → NoDup (keys (set_first ms k v)).
Proof.
  intros H. rewrite keys_set_first. case_bool_decide as E; [done|]. apply NoDup_app. split_and!; [done| |by apply NoDup_singleton].
  intros x Hx ->%list_elem_of_singleton. done.
Qed.
Lemma NoDup_del_first ms k : NoDup (keys ms) → NoDup (keys (del_first ms k)).
Proof. intros H. exact (sublist_NoDup _ _ H (keys_del_first ms k)). Qed.
Lemma set_first_same ms k v : lookup_first ms k = Some v → set_first ms k v = ms.
Proof.
  induction ms as [|[k' v'] ms IH]; [done|]. rewrite lookup_first_cons. cbn. case_bool_decide; [naive_solver|]. intros Hl. by rewrite IH.
Qed.
Lemma set_first_twice ms k v w : set_first (set_first ms k v) k w = set_first ms k w.
Proof.
  induction ms as [|kv ms IH]; cbn [set_first]; [cbn; by rewrite bool_decide_eq_true_2|].
  case_bool_decide as E; cbn [set_first fst]; [by rewrite bool_decide_eq_true_2|]. rewrite bool_decide_eq_false_2 by done. by rewrite IH.
Qed.

(** With distinct keys the last member of a name is the first. *)
Lemma find_rev_unique {A : Type} (p : A → bool) (l : list A) x :
  (∀ i j y z, l !! i = Some y → l !! j = Some z → p y = true → p z = true → i = j) →
  List.find p l = Some x → List.find p (rev l) = Some x.
Proof.
  intros Hu Hf. apply find_some in Hf as [Hin Hp]. destruct (List.find p (rev l)) as [y|] eqn:E.
  - apply find_some in E as [Hin' Hp']. apply in_rev in Hin'. f_equal.
    apply list_elem_of_In, list_elem_of_lookup in Hin as [i Hi], Hin' as [j Hj]. rewrite (Hu _ _ _ _ Hi Hj Hp Hp') in Hi. congruence.
  - eapply find_none in E; [|by apply in_rev; rewrite rev_involutive; exact Hin]. congruence.
Qed.
Lemma find_rev_none {A : Type} (p : A → bool) (l : list A) : List.find p l = None → List.find p (rev l) = None.
Proof.
  intros H. destruct (List.find p (rev l)) as [y|] eqn:E; [|done]. apply find_some in E as [Hin%in_rev Hp].
  by rewrite (find_none _ _ H _ Hin) in Hp.
Qed.
Lemma member_first ms k : NoDup (keys ms) → member ms k = lookup_first ms k.
Proof.
  intros Hn. unfold member, lookup_first. destruct (List.find _ ms) as [kv|] eqn:E; [|by rewrite (find_rev_none _ _ E)].
  erewrite find_rev_unique; [done| |exact E]. intros i j y z Hi Hj ?%bool_decide_eq_true ?%bool_decide_eq_true.
  eapply (NoDup_lookup (keys ms)); [done|unfold keys..]; rewrite list_lookup_fmap; [by rewrite Hi|rewrite Hj]; cbn; congruence.
Qed.

(** ** Edits of one entry *)

Definition key_edit (ms : list (string * json)) (e : string * option json) : option (list (string * json)) :=
  match e.2, lookup_first ms e.1 with
  | Some v, _ => Some (set_first ms e.1 v)
  | None, Some _ => Some (del_first ms e.1)
  | None, None => None
  end.
Fixpoint key_edits (ms : list (string * json)) (es : list (string * option json)) : option (list (string * json)) :=
  match es with [] => Some ms | e :: r => ms ← key_edit ms e; key_edits ms r end.
Definition edits_of (set : gmap string json) (remove : list string) : list (string * option json) :=
  map (fun k => (k, Some (default (JScalar "null") (set !! k)))) (merge_sort String.le (map_to_list set).*1) ++ map (fun k => (k, None)) remove.

(** A section name that needs no escaping. *)
Definition plain_section (section : string) : Prop := ContainsByte section "/"%char = false ∧ unescapePtr section = section.

Lemma ptr_key section name k : plain_section section →
  ptr (entry_path section name +:+ "/" +:+ jsonPtrEscape k) = [section; name; k].
Proof.
  intros [Hs Hu]. unfold ptr, entry_path.
  assert (("/" +:+ section +:+ "/" +:+ jsonPtrEscape name) +:+ "/" +:+ jsonPtrEscape k =
    Join [""; section; jsonPtrEscape name; jsonPtrEscape k] (String "/"%char "")) as -> by (cbn; by rewrite !String_append_assoc).
  rewrite Split_Join; [|done|].
  - cbn. by rewrite Hu, !unescapePtr_escape.
  - rewrite !jsonPtrEscape_escapePointer. repeat apply Forall_cons_2; auto using escapePointer_no_slash, Forall_nil_2.
Qed.

Section entry.
Context (top es : list (string * json)) (section name : string).
Definition nested (ms : list (string * json)) : json := JObject (set_first top section (JObject (set_first es name (JObject ms)))).
Definition op_of (e : string * option json) : patch_op :=
  let p := entry_path section name +:+ "/" +:+ jsonPtrEscape e.1 in
  match e.2 with Some v => OpAdd p v | None => OpRemove p end.

Lemma key_ops_edits set remove : key_ops section name set remove = map op_of (edits_of set remove).
Proof.
  unfold key_ops, edits_of. rewrite map_app, !map_map. f_equal; apply map_ext; intros k; unfold op_of; cbn [fst snd]; by rewrite ?String_append_assoc.
Qed.

Hypothesis Hplain : plain_section section.

Lemma apply_op_key ms e : apply_op (nested ms) (op_of e) = nested <$> key_edit ms e.
Proof.
  assert (apply_op (nested ms) (op_of e) = edit_at [section; name; e.1] e.2 (nested ms)) as ->.
  { destruct e as [k [v|]]; cbn [op_of fst snd apply_op]; by rewrite ptr_key. }
  unfold nested, key_edit. destruct e as [k o]. cbn [fst snd edit_at]. rewrite lookup_set_first, bool_decide_eq_true_2 by done.
  cbn [mbind option_bind]. rewrite lookup_set_first, bool_decide_eq_true_2 by done. cbn [mbind option_bind].
  destruct o as [v|]; [|destruct (lookup_first ms k)]; cbn; by rewrite ?set_first_twice.
Qed.
Lemma apply_ops_keys ms l : apply_ops (nested ms) (map op_of l) = nested <$> key_edits ms l.
Proof.
  revert ms. induction l as [|e l IH]; intros ms; [done|]. cbn [map apply_ops key_edits]. rewrite apply_op_key.
  destruct (key_edit ms e) as [ms'|]; cbn; [apply IH|done].
Qed.
End entry.

Lemma nested_self top es ms section name :
  lookup_first top section = Some (JObject es) → lookup_first es name = Some (JObject ms) → nested top es section name ms = JObject top.
Proof. intros H1 H2. unfold nested. by rewrite (set_first_same es), (set_first_same top). Qed.

(** What a sequence of edits of different keys leaves. *)
Lemma key_edits_spec ms l : NoDup (keys ms) → NoDup (map fst l) → (∀ k, (k, None) ∈ l → k ∈ keys ms) →
  ∃ ms', key_edits ms l = Some ms' ∧ NoDup (keys ms') ∧
    (∀ k, lookup_first ms' k = match List.find (fun e => bool_decide (e.1 = k)) l with Some e => e.2 | None => lookup_first ms k end).
Proof.
  revert ms. induction l as [|[k o] l IH]; intros ms Hn Hl Hr; [by exists ms|]. cbn [map fst] in Hl. apply NoDup_cons in Hl as [Hk Hl].
  assert (∃ ms1, key_edit ms (k, o) = Some ms1 ∧ NoDup (keys ms1) ∧
    ∀ k', lookup_first ms1 k' = if bool_decide (k = k') then o else lookup_first ms k') as (ms1 & He & Hn1 & H1).
  { unfold key_edit. cbn [fst snd]. destruct o as [v|].
    - eexists. split_and!; [done|by apply NoDup_set_first|]. intros k'. apply lookup_set_first.
    - destruct (lookup_first ms k) eqn:E; [|apply lookup_first_None in E; by destruct E; apply Hr; left].
      eexists. split_and!; [done|by apply NoDup_del_first|]. intros k'. by apply lookup_del_first. }
  destruct (IH ms1) as (ms' & Hes & Hn' & H'); [done|done| |].
  { intros k' Hin. destruct (decide (k' ∈ keys ms1)) as [|Hne]; [done|]. apply lookup_first_None in Hne. rewrite H1 in Hne.
    case_bool_decide as E.
    - subst k'. destruct Hk. apply list_elem_of_fmap. by exists (k, None).
    - apply lookup_first_None in Hne. destruct Hne. apply Hr. by right. }
  exists ms'. cbn [key_edits List.find fst]. rewrite He. split_and!; [done|done|]. intros k'. rewrite H', H1.
  destruct (List.find _ l) as [e|] eqn:E; [|by case_bool_decide].
  apply find_some in E as [Hin%list_elem_of_In E%bool_decide_eq_true]. rewrite bool_decide_eq_false_2; [done|].
  intros ->. destruct Hk. apply list_elem_of_fmap. by exists e.
Qed.

Lemma find_first_app {A : Type} (p : A → bool) (l r : list A) :
  List.find p (l ++ r) = match List.find p l with Some x => Some x | None => List.find p r end.
Proof. induction l as [|x l IH]; cbn; [done|]. by destruct (p x). Qed.
Lemma find_key_map {A : Type} (g : string → A) (h : A → string) l k : (∀ k, h (g k) = k) →
  List.find (fun e => bool_decide (h e = k)) (map g l) = if bool_decide (k ∈ l) then Some (g k) else None.
Proof.
  intros Hg. induction l as [|x l IH]; cbn [map List.find]; [done|]. rewrite Hg.
  destruct (decide (x = k)) as [->|Hne].
  - by rewrite !bool_decide_eq_true_2 by (try left; done).
  - rewrite bool_decide_eq_false_2, IH by done.
    by rewrite (bool_decide_ext (k ∈ x :: l) (k ∈ l)) by (rewrite elem_of_cons; naive_solver).
Qed.
Lemma sorted_dom (set : gmap string json) k : k ∈ merge_sort String.le (map_to_list set).*1 ↔ is_Some (set !! k).
Proof.
  rewrite merge_sort_Permutation, list_elem_of_fmap. split.
  - intros ([k' v] & -> & H%elem_of_map_to_list). by exists v.
  - intros [v H%elem_of_map_to_list]. by exists (k, v).
Qed.
Lemma find_edits set remove k :
  List.find (fun e => bool_decide (e.1 = k)) (edits_of set remove) =
  match set !! k with Some v => Some (k, Some v) | None => if bool_decide (k ∈ remove) then Some (k, None) else None end.
Proof.
  unfold edits_of. rewrite find_first_app, !(find_key_map _ fst) by done.
  destruct (set !! k) as [v|] eqn:E.
  - rewrite bool_decide_eq_true_2 by (by apply sorted_dom; exists v). done.
  - rewrite bool_decide_eq_false_2; [done|]. rewrite sorted_dom, E. by intros [? ?].
Qed.
Lemma NoDup_edits set remove : NoDup remove → (∀ k, k ∈ remove → set !! k = None) → NoDup (map fst (edits_of set remove)).
Proof.
  intros Hr Hd. unfold edits_of. rewrite map_app, !map_map. cbn. rewrite !map_id. apply NoDup_app. split_and!; [| |done].
  - rewrite merge_sort_Permutation. apply NoDup_fst_map_to_list.
  - intros k [v Hv]%sorted_dom Hk. by rewrite (Hd k Hk) in Hv.
Qed.

(** ** Deltas *)

Section delta.
Context (jsonEqual : json → json → bool) (Hequal : ∀ a b, jsonEqual a b = true → a = b).
Context (fs : list (string * option json)) (ms : list (string * json)).
Hypothesis Hfs : NoDup (map fst fs).
Hypothesis Hms : NoDup (keys ms).

Lemma present_elem k v : (k, v) ∈ given fs ↔ (k, Some v) ∈ fs.
Proof.
  unfold given. rewrite list_elem_of_omap. split.
  - intros ([k' [v'|]] & Hin & H); cbn in H; [by injection H as -> ->|done].
  - intros H. by exists (k, Some v).
Qed.
Lemma present_keys l : map fst (given l) `sublist_of` map fst l.
Proof.
  induction l as [|[k [v|]] l IH]; [done|..]; cbn; [by apply sublist_skip|by apply sublist_cons].
Qed.
Lemma field_unique k o o' : (k, o) ∈ fs → (k, o') ∈ fs → o = o'.
Proof.
  intros [i Hi]%list_elem_of_lookup [j Hj]%list_elem_of_lookup.
  assert (i = j) as ->; [|congruence]. eapply (NoDup_lookup (map fst fs)); [done|..]; rewrite list_lookup_fmap; [by rewrite Hi|by rewrite Hj].
Qed.

Definition delta_set : gmap string json := list_to_map (List.filter (fun kv => differs jsonEqual ms kv.1 kv.2) (given fs)).
Definition delta_remove : list string :=
  merge_sort String.le (map fst (List.filter (fun kv => bool_decide (kv.2 = None) && bool_decide (member ms kv.1 ≠ None)) fs)).

Lemma filter_keys {A : Type} (p : string * A → bool) l : map fst (List.filter p l) `sublist_of` map fst l.
Proof. induction l as [|x l IH]; cbn; [done|]. destruct (p x); [by apply sublist_skip|by apply sublist_cons]. Qed.
Lemma delta_set_lookup k v : delta_set !! k = Some v ↔ (k, Some v) ∈ fs ∧ differs jsonEqual ms k v = true.
Proof.
  unfold delta_set. rewrite <-elem_of_list_to_map.
  - rewrite list_elem_of_In, filter_In, <-list_elem_of_In, present_elem. done.
  - eapply sublist_NoDup; [|apply filter_keys]. eapply sublist_NoDup; [exact Hfs|apply present_keys].
Qed.
Lemma delta_remove_elem k : k ∈ delta_remove ↔ (k, None) ∈ fs ∧ k ∈ keys ms.
Proof.
  unfold delta_remove. rewrite merge_sort_Permutation, list_elem_of_fmap. split.
  - intros ([k' o] & -> & [Hin [Ho%bool_decide_eq_true Hm%bool_decide_eq_true]%andb_true_iff]%list_elem_of_In%filter_In).
    apply list_elem_of_In in Hin. cbn in Ho. subst o. split; [done|]. cbn in *. rewrite member_first in Hm by done.
    destruct (decide (k' ∈ keys ms)); [done|]. by destruct Hm; apply lookup_first_None.
  - intros [Hin Hk]. exists (k, None). split; [done|]. apply list_elem_of_In, filter_In. split; [by apply list_elem_of_In|].
    cbn. apply bool_decide_eq_true_2. rewrite member_first by done. intros H%lookup_first_None. done.
Qed.

(** The members a delta leaves: the fields of the entry as they should be, and
    every other member as it was. *)
Lemma delta_result : ∃ ms', key_edits ms (edits_of delta_set delta_remove) = Some ms' ∧ NoDup (keys ms') ∧
  (∀ k o, (k, o) ∈ fs → lookup_first ms' k = o) ∧ (∀ k, k ∉ map fst fs → lookup_first ms' k = lookup_first ms k).
Proof.
  destruct (key_edits_spec ms (edits_of delta_set delta_remove)) as (ms' & He & Hn & H); [done| | |].
  - apply NoDup_edits.
    + unfold delta_remove. rewrite merge_sort_Permutation. eapply sublist_NoDup; [exact Hfs|]. apply filter_keys.
    + intros k [Hk _]%delta_remove_elem. destruct (delta_set !! k) eqn:E; [|done]. apply delta_set_lookup in E as [E _].
      by pose proof (field_unique _ _ _ Hk E).
  - intros k Hin. pose proof (find_edits delta_set delta_remove k) as Hf. apply (delta_remove_elem k).
    unfold edits_of in Hin. apply elem_of_app in Hin as [Hin|Hin].
    + by apply list_elem_of_fmap in Hin as (? & [=] & _).
    + by apply list_elem_of_fmap in Hin as (? & [= ->] & ?).
  - exists ms'. split_and!; [done|done| |].
    + intros k o Hin. rewrite H, find_edits. destruct (delta_set !! k) as [v|] eqn:E.
      { apply delta_set_lookup in E as [E _]. cbn. by apply (field_unique k). }
      destruct o as [v|].
      * rewrite bool_decide_eq_false_2 by (intros [Hx _]%delta_remove_elem; by pose proof (field_unique _ _ _ Hin Hx)).
        destruct (differs jsonEqual ms k v) eqn:Ed; [by rewrite (proj2 (delta_set_lookup k v) (conj Hin Ed)) in E|].
        unfold differs in Ed. rewrite member_first in Ed by done. destruct (lookup_first ms k); [|done].
        apply negb_false_iff, Hequal in Ed. by subst.
      * case_bool_decide as Ek; [done|]. apply lookup_first_None. intros Hk. apply Ek, delta_remove_elem. done.
    + intros k Hk. rewrite H, find_edits. destruct (delta_set !! k) as [v|] eqn:E.
      { apply delta_set_lookup in E as [E _]. destruct Hk. apply list_elem_of_fmap. by exists (k, Some v). }
      rewrite bool_decide_eq_false_2; [done|]. intros [E' _]%delta_remove_elem. destruct Hk. apply list_elem_of_fmap. by exists (k, None).
Qed.
End delta.

(** ** Reading an entry back *)

Lemma str_of_omit s : str_of (omit_str s) = Some s.
Proof. unfold omit_str. case_bool_decide; [by subst|done]. Qed.
Lemma int_of_omit z : int64 z → int_of (omit_int z) = Some z.
Proof.
  intros Hz. unfold omit_int. destruct (Z.eqb_spec z 0) as [->|]; [done|]. cbn. pose proof (Atoi_int_FormatInt z Hz) as Ha.
  case_bool_decide as E; [rewrite E in Ha; by vm_compute in Ha|done].
Qed.
Lemma bool_of_omit b : bool_of (omit_bool b) = Some b.
Proof. by destruct b. Qed.
Lemma strings_read l : mapM (fun x => str_of (Some x)) (map JString l) = Some l.
Proof. induction l as [|x l IH]; [done|]. cbn in *. by rewrite IH. Qed.
Lemma list_of_omit l : list_of (omit_list l) = Some l.
Proof. unfold omit_list. case_bool_decide; [by subst|]. apply strings_read. Qed.
Lemma Atoi_int_range t z : Atoi_int t = Some z → int64 z.
Proof.
  unfold Atoi_int, int64. destruct (match t with "" => _ | _ => _ end) as [neg ds]. destruct (_ || _); [done|].
  destruct (_ && _) eqn:E; [|done]. intros [= <-]. apply andb_true_iff in E as [?%Z.leb_le ?%Z.ltb_lt]. lia.
Qed.
Lemma int_of_range o z : int_of o = Some z → int64 z.
Proof.
  destruct o as [[t| | |]|]; cbn; try done; [|by intros [= <-]]. case_bool_decide; [by intros [= <-]|apply Atoi_int_range].
Qed.

Section spelling.
Context (fold : string → string).

(** No member is another spelling of a key. *)
Definition spelled (ks : list string) (ms : list (string * json)) : Prop :=
  ∀ k k', k ∈ keys ms → k' ∈ ks → fold k = fold k' → k = k'.

Lemma field_first ks ms k : NoDup (keys ms) → spelled ks ms → k ∈ ks → field fold ms k = lookup_first ms k.
Proof.
  intros Hn Hs Hk. rewrite <-member_first by done. unfold field, member.
  assert (∀ l, (∀ kv, In kv l → In kv ms) →
    List.find (fun kv => bool_decide (fold kv.1 = fold k)) l = List.find (fun kv => bool_decide (kv.1 = k)) l) as H.
  { induction l as [|kv l IH]; intros Hl; [done|]. cbn [List.find]. rewrite (bool_decide_ext (fold kv.1 = fold k) (kv.1 = k)).
    - rewrite IH; [done|]. intros kv' ?. apply Hl. by right.
    - split; [|by intros ->]. intros E. apply Hs; [|done|done]. unfold keys. apply list_elem_of_In, in_map, Hl. by left. }
  rewrite H; [done|]. intros kv. by rewrite <-in_rev.
Qed.

Lemma spelled_extend ks ms ms' : (∀ k k', k ∈ ks → k' ∈ ks → fold k = fold k' → k = k') → spelled ks ms →
  (∀ k, k ∉ ks → lookup_first ms' k = lookup_first ms k) → spelled ks ms'.
Proof.
  intros Hinj Hs Ho k k' Hk Hk' E. destruct (decide (k ∈ ks)) as [|Hne]; [by apply Hinj|]. apply Hs; [|done|done].
  destruct (decide (k ∈ keys ms)) as [|H]; [done|]. apply lookup_first_None in H. rewrite <-Ho in H by done. by apply lookup_first_None in H.
Qed.

Lemma decode_fields ms h : int64 (he_MaxTTLSeconds h) → (∀ k o, (k, o) ∈ host_fields h → field fold ms k = o) →
  decode_members fold ms = Some h.
Proof.
  intros Ht H. unfold decode_members.
  rewrite (H "addr" (Some (JString (he_Addr h)))), (H "user" (Some (JString (he_User h)))), (H "host_key" (Some (JString (he_HostKey h)))),
    (H "jump" (omit_str (he_Jump h))), (H "principal" (Some (JString (he_Principal h)))), (H "source_address" (omit_str (he_SourceAddress h))),
    (H "max_ttl_seconds" (omit_int (he_MaxTTLSeconds h))), (H "allow_as_bastion" (omit_bool (he_AllowAsBastion h))),
    (H "allowed_callers" (omit_list (he_AllowedCallers h))), (H "allow_sudo" (omit_bool (he_AllowSudo h))),
    (H "allowed_sudo_users" (omit_list (he_AllowedSudoUsers h))), (H "allow_pty" (omit_bool (he_AllowPTY h))),
    (H "allow_file_transfer" (omit_bool (he_AllowFileTransfer h))), (H "groups" (omit_list (he_Groups h))), (H "command_policy" (he_CommandPolicy h))
    by (unfold host_fields; set_solver).
  rewrite !str_of_omit, int_of_omit, !bool_of_omit, !list_of_omit by done. cbn. by destruct h.
Qed.
End spelling.

(** ** What an update may change *)

Section update.
Context (fold : string → string).

Definition entry_policy (h : hostEntry) : option CommandPolicy :=
  match he_CommandPolicy h with None => Some no_policy | Some v => decode_policy fold v end.

(** Nothing changes for which no flag was given. *)
Record respects (f : hostFlags) (old new : hostEntry) : Prop := mkRespects {
  rp_key : key_given f = false → he_HostKey new = he_HostKey old;
  rp_jump : "jump" ∉ fl_set f → he_Jump new = he_Jump old;
  rp_principal : "principal" ∉ fl_set f → he_Principal new = he_Principal old;
  rp_source : "source-address" ∉ fl_set f → he_SourceAddress new = he_SourceAddress old;
  rp_ttl : "ttl" ∉ fl_set f → he_MaxTTLSeconds new = he_MaxTTLSeconds old;
  rp_bastion : "bastion" ∉ fl_set f → he_AllowAsBastion new = he_AllowAsBastion old;
  rp_callers : "callers" ∉ fl_set f → he_AllowedCallers new = he_AllowedCallers old;
  rp_sudo : "sudo" ∉ fl_set f → he_AllowSudo new = he_AllowSudo old;
  rp_sudo_users : "sudo-users" ∉ fl_set f → he_AllowedSudoUsers new = he_AllowedSudoUsers old;
  rp_pty : "pty" ∉ fl_set f → he_AllowPTY new = he_AllowPTY old;
  rp_transfer : "file-transfer" ∉ fl_set f → he_AllowFileTransfer new = he_AllowFileTransfer old;
  rp_groups : "groups" ∉ fl_set f → he_Groups new = he_Groups old;
  rp_policy : policySet f = false → he_CommandPolicy new = he_CommandPolicy old;
  rp_rules : policySet f = true → ∃ p p', entry_policy old = Some p ∧ entry_policy new = Some p' ∧
    ("policy-mode" ∉ fl_set f → cp_Mode p' = cp_Mode p) ∧ ("policy-enforcement" ∉ fl_set f → cp_Enforcement p' = cp_Enforcement p) ∧
    ("allow" ∉ fl_set f → cp_Allow p' = cp_Allow p) ∧ ("deny" ∉ fl_set f → cp_Deny p' = cp_Deny p) ∧
    ("require-approval" ∉ fl_set f → cp_RequireApproval p' = cp_RequireApproval p) ∧
    ("shell-parse" ∉ fl_set f → cp_ShellParse p' = cp_ShellParse p);
}.

(** The names the two structures use fold apart. *)
Definition policy_keys : list string := ["mode"; "enforcement"; "allow"; "deny"; "require_approval"; "shell_parse"].
Definition folds_apart (ks : list string) : Prop := ∀ k k', k ∈ ks → k' ∈ ks → fold k = fold k' → k = k'.

Lemma lookup_present fs k o : NoDup (map fst fs) → (k, o) ∈ fs → lookup_first (given fs) k = o.
Proof.
  intros Hn Hin. destruct (lookup_first (given fs) k) as [v|] eqn:E.
  - unfold lookup_first in E. destruct (List.find _ _) as [[k' v']|] eqn:Ef; [|done]. injection E as ->.
    apply find_some in Ef as [Hi%list_elem_of_In Hk%bool_decide_eq_true]. cbn in Hk. subst k'. apply present_elem in Hi.
    by rewrite (field_unique fs Hn k _ _ Hin Hi).
  - destruct o as [v|]; [|done]. apply lookup_first_None in E. destruct E. unfold keys. apply list_elem_of_fmap. exists (k, v).
    split; [done|]. by apply present_elem.
Qed.
Lemma field_present fs ks k o : NoDup (map fst fs) → map fst fs = ks → folds_apart ks → (k, o) ∈ fs → field fold (given fs) k = o.
Proof.
  intros Hn <- Hap Hin. assert (k ∈ map fst fs) as Hk by (apply list_elem_of_fmap; by exists (k, o)).
  rewrite (field_first fold (map fst fs)); [by apply lookup_present| | |done].
  - eapply sublist_NoDup; [exact Hn|apply present_keys].
  - intros k1 k2 H1 H2. apply Hap; [|done]. eapply sublist_subseteq; [apply present_keys|exact H1].
Qed.

Lemma flag_of_bool o : flag_of (json_bool <$> o) = Some o.
Proof. by destruct o as [[]|]. Qed.

Lemma policy_read p : folds_apart policy_keys → decode_policy fold (policy_json p) = Some p.
Proof.
  intros Hap. assert (∀ k o, (k, o) ∈ policy_fields p → field fold (given (policy_fields p)) k = o) as H.
  { intros k o. apply (field_present _ policy_keys); [|done|done]. by apply (bool_decide_unpack _). }
  unfold decode_policy, policy_json. cbn [top_level mbind option_bind].
  rewrite (H "mode" (omit_str (cp_Mode p))), (H "enforcement" (omit_str (cp_Enforcement p))), (H "allow" (omit_list (cp_Allow p))),
    (H "deny" (omit_list (cp_Deny p))), (H "require_approval" (omit_list (cp_RequireApproval p))), (H "shell_parse" (json_bool <$> cp_ShellParse p))
    by (unfold policy_fields; set_solver).
  rewrite !str_of_omit, !list_of_omit, flag_of_bool. cbn. by destruct p.
Qed.

Lemma set_flags_subset f k : k ∉ fl_set f → k ∉ set_flags f.
Proof. unfold set_flags. destruct (key_given f); set_solver. Qed.

Lemma updated_respects f hk old new : folds_apart policy_keys → updated_entry fold f hk old = Some new → respects f old new.
Proof.
  intros Hap H. unfold updated_entry in H.
  assert (∀ (A : Type) k (x y : A), k ∉ fl_set f → (if bool_decide (k ∈ set_flags f) then x else y) = y) as Hk.
  { intros A k x y Hn. by rewrite bool_decide_eq_false_2 by by apply set_flags_subset. }
  assert (key_given f = false → bool_decide ("host-key" ∈ set_flags f) || bool_decide ("scan" ∈ set_flags f) = false) as Hkey.
  { intros Hg. unfold set_flags. rewrite Hg. rewrite !bool_decide_eq_false_2 by set_solver. done. }
  destruct (policySet f) eqn:Hp.
  - unfold mergeCommandPolicyJSON in H. destruct (entry_policy old) as [p|] eqn:Ep.
    + assert (he_CommandPolicy new = Some (policy_json (merge_policy f p))) as Hnew.
      { unfold entry_policy in Ep. destruct (he_CommandPolicy old) as [v|]; [rewrite Ep in H|injection Ep as <-]; by injection H as <-. }
      assert (∃ q, new = mkHostEntry (fl_addr f) (fl_user f) (he_HostKey (mergeUnsetHostFields (flagged_entry f hk) old (set_flags f)))
        (he_Jump q) (he_Principal q) (he_SourceAddress q) (he_MaxTTLSeconds q) (he_AllowAsBastion q) (he_AllowedCallers q) (he_AllowSudo q)
        (he_AllowedSudoUsers q) (he_AllowPTY q) (he_AllowFileTransfer q) (he_Groups q) (he_CommandPolicy new) ∧
        q = mergeUnsetHostFields (flagged_entry f hk) old (set_flags f)) as (q & -> & ->).
      { eexists. split; [|done]. destruct (match he_CommandPolicy old with None => _ | Some _ => _ end); [|done]. by injection H as <-. }
      split; cbn -[policySet]; try (intros Hn; by rewrite ?Hk); [by intros ->%Hkey|congruence|].
      intros _. exists p, (merge_policy f p). unfold entry_policy at 2. cbn in Hnew |- *. rewrite Hnew, policy_read by done.
      split_and!; [done|done|..]; intros Hn; cbn; by rewrite Hk.
    + exfalso. unfold entry_policy in Ep. destruct (he_CommandPolicy old) as [v|]; [|done]. by rewrite Ep in H.
  - injection H as <-. split; cbn -[policySet]; try (intros Hn; by rewrite ?Hk); [by intros ->%Hkey|congruence].
Qed.

Lemma updated_ttl f hk old new : int64 (fl_ttl f) → int64 (he_MaxTTLSeconds old) → updated_entry fold f hk old = Some new →
  int64 (he_MaxTTLSeconds new).
Proof.
  intros H1 H2 H. unfold updated_entry in H. destruct (policySet f); [destruct (mergeCommandPolicyJSON _ _ _); [|done]|]; injection H as <-; cbn; by case_bool_decide.
Qed.
Lemma decoded_ttl ms h : decode_members fold ms = Some h → int64 (he_MaxTTLSeconds h).
Proof.
  unfold decode_members. intros H. repeat (apply bind_Some in H as (? & ?Hb & H)). injection H as <-. cbn. by eapply int_of_range.
Qed.
End update.

(** ** An update of a host *)

Lemma unambiguous_keys ToLower ms : unambiguous ToLower (JObject ms) = true → NoDup (keys ms).
Proof.
  cbn. intros [H%bool_decide_eq_true _]%andb_true_iff. unfold keys. apply (NoDup_fmap_1 ToLower).
  by rewrite <-list_fmap_compose.
Qed.
Lemma unambiguous_member ToLower ms k v : unambiguous ToLower (JObject ms) = true → lookup_first ms k = Some v → unambiguous ToLower v = true.
Proof.
  cbn. intros [_ H]%andb_true_iff Hl. unfold lookup_first in Hl. destruct (List.find _ ms) as [kv|] eqn:E; [|done]. injection Hl as <-.
  apply find_some in E as [Hin _]. rewrite forallb_forall in H. by apply H.
Qed.

Section host_update.
Context `{RE : RegexpEngine} (ToLower fold : string → string) (jsonEqual : json → json → bool) (parse : string → option json).
Context (hujson_patch : string → list patch_op → option string) (decode : json → option policyConfig).
Context (iterL : range_order CommandPolicy) (iterG : range_order (list string)) (iterH : range_order HostPolicy).
Context (keyscan : string → option string) (stdin : option string).
#[local] Abbreviation cmdHostAdd := (cmdHostAdd ToLower fold jsonEqual parse hujson_patch decode iterL iterG iterH keyscan stdin).

(** Equal compact texts are equal values; the patcher does what a JSON patch is
    documented to do; the names of fields fold apart. *)
Hypothesis Hequal : ∀ a b, jsonEqual a b = true → a = b.
Hypothesis Hpatch : ∀ raw v ops out v', parse raw = Some v → hujson_patch raw ops = Some out → apply_ops v ops = Some v' → parse out = Some v'.
Hypothesis Hhost : folds_apart fold hostEntryKeys.
Hypothesis Hpolicy : folds_apart fold policy_keys.

Lemma hosts_plain : plain_section "hosts".
Proof. by split. Qed.
Lemma host_fields_NoDup h : NoDup (map fst (host_fields h)).
Proof. change (NoDup hostEntryKeys). by apply (bool_decide_unpack _). Qed.

(** The document after a per-key edit of a host. *)
Lemma keys_edited oc s path0 ino0 top hosts ms ms' name set remove s' :
  let path := default path0 (fs_links s !! path0) in
  settled s path ino0 → exclusive oc s path → parse (ino_content ino0) = Some (JObject top) →
  lookup_first top "hosts" = Some (JObject hosts) → lookup_first hosts name = Some (JObject ms) →
  key_edits ms (edits_of set remove) = Some ms' →
  run (fs_handler oc) (patchConfigEntryKeys ToLower parse hujson_patch decode iterL iterG iterH path0 "hosts" name set remove) s = (s', Ok ()) →
  ∃ ino, file_at s' path = Some ino ∧ parse (ino_content ino) = Some (nested top hosts "hosts" name ms').
Proof.
  intros path Hse Hex Hparse Ht Hh Hed Hrun. pose proof (nested_self top hosts ms "hosts" name Ht Hh) as Hself.
  pose proof (apply_ops_keys top hosts "hosts" name hosts_plain ms (edits_of set remove)) as Happ. rewrite Hed, <-key_ops_edits, Hself in Happ.
  destruct (decide (key_ops "hosts" name set remove = [])) as [E|E].
  - unfold patchConfigEntryKeys in Hrun. rewrite E in Hrun, Happ. injection Hrun as <-.
    destruct Hse as [(i0 & Hd & _ & Hi & _) _ _]. exists ino0. split; [|rewrite Hparse; exact Happ]. unfold file_at. rewrite Hd. exact Hi.
  - pose proof (along_sound _ _ _ _ _ (patchConfigEntryKeys_along ToLower parse hujson_patch decode iterL iterG iterH oc s path0 ino0 "hosts" name set remove Hse Hex E)) as [_ Hd].
    rewrite Hrun in Hd. destruct Hd as (ino & Hf & (Hp & _) & _). exists ino. split; [exact Hf|].
    unfold Patch in Hp. destruct (Standardize ToLower parse (ino_content ino0)); [|done].
    destruct (hujson_patch _ _) as [out|] eqn:Eh; [|done]. destruct (Standardize ToLower parse out); [|done].
    injection Hp as <-. by eapply Hpatch.
Qed.

End host_update.

(** ** Updates *)

Fixpoint json_eqb (a b : json) : bool :=
  match a, b with
  | JScalar t, JScalar t' | JString t, JString t' => bool_decide (t = t')
  | JArray l, JArray l' =>
      (fix go l l' := match l, l' with [], [] => true | x :: r, x' :: r' => json_eqb x x' && go r r' | _, _ => false end) l l'
  | JObject ms, JObject ms' =>
      (fix go ms ms' := match ms, ms' with
                        | [], [] => true
                        | (k, x) :: r, (k', x') :: r' => bool_decide (k = k') && json_eqb x x' && go r r'
                        | _, _ => false
                        end) ms ms'
  | _, _ => false
  end.
Lemma json_eqb_eq a : ∀ b, json_eqb a b = true → a = b.
Proof.
  induction a as [t|t|l IH|ms IH] using json_nested; intros [t'|t'|l'|ms']; cbn; try done; try (by intros ->%bool_decide_eq_true).
  - intros H. f_equal. revert l' H. induction IH as [|x l Hx _ IH]; intros [|x' l']; try done.
    intros [H1%Hx H2%IH]%andb_true_iff. congruence.
  - intros H. f_equal. revert ms' H. induction IH as [|[k x] ms Hx _ IH]; intros [|[k' x'] ms']; try done.
    intros [[->%bool_decide_eq_true H1%Hx]%andb_true_iff H2%IH]%andb_true_iff. cbn in H1. congruence.
Qed.

Lemma folds_apart_NoDup fold ks : NoDup (map fold ks) → folds_apart fold ks.
Proof.
  intros Hn k k' [i Hi]%list_elem_of_lookup [j Hj]%list_elem_of_lookup E.
  assert (i = j) as ->; [|congruence]. apply (NoDup_lookup (map fold ks) i j (fold k)); [done|..]; rewrite list_lookup_fmap; [by rewrite Hi|rewrite Hj; cbn; congruence].
Qed.
Lemma spelled_check fold ks ms :
  forallb (fun k => forallb (fun k' => negb (bool_decide (fold k = fold k')) || bool_decide (k = k')) ks) (keys ms) = true → spelled fold ks ms.
Proof.
  intros H k k' Hk%list_elem_of_In Hk'%list_elem_of_In E. rewrite forallb_forall in H. specialize (H k Hk). rewrite forallb_forall in H. specialize (H k' Hk').
  rewrite bool_decide_eq_true_2 in H by done. by apply bool_decide_eq_true in H.
Qed.

(** A sealed host with an allowlist, and the flags of an update that moves it and
    takes its sudo away. *)
Definition sealed_members (addr sudo_key : string) : list (string * json) :=
  [("addr", JString addr); ("user", JString "deploy"); ("host_key", JString "ssh-ed25519 AAAA"); ("principal", JString "host:web1");
   ("max_ttl_seconds", JScalar "120"); (sudo_key, JScalar "true"); ("sealed_exec", JScalar "true");
   ("command_policy", JObject [("mode", JString "allowlist"); ("allow", JArray [JString "uptime"])])].
Definition sealed_doc (ms : list (string * json)) : json :=
  JObject [("callers", JObject []); ("hosts", JObject [("web1", JObject ms)])].
Definition no_sudo (addr : string) : hostFlags :=
  mkHostFlags "web1" addr "deploy" "" false "" 120 "" "" false "" false false "" "" false true "" "" "" "" "" false {["addr"; "user"; "name"; "force"; "sudo"]}.

Definition new_members : list (string * json) := del_first (sealed_members "10.0.0.9:22" "allow_sudo") "allow_sudo".
Definition text_doc (s : string) : option json :=
  if bool_decide (s = "old") then Some (sealed_doc (sealed_members "10.0.0.1:22" "allow_sudo"))
  else if bool_decide (s = "new") then Some (sealed_doc new_members) else None.
Definition text_patch (raw : string) (ops : list patch_op) : option string :=
  match text_doc raw ≫= (fun v => apply_ops v ops) with
  | Some v => if json_eqb v (sealed_doc new_members) then Some "new" else None
  | None => None
  end.
Definition update_run (doc : string → option json) (f : hostFlags) : fs * result add_error string :=
  run (fs_handler all_well)
    (@cmdHostAdd prefix_engine lower lower json_eqb doc text_patch toy_config map_to_list map_to_list map_to_list (fun _ => None) None "/home/op/signer.json" f) etc_fs.

Example update_runs : (update_run text_doc (no_sudo "10.0.0.9:22")).2 = Ok "updated".
Proof. vm_compute. reflexivity. Qed.

Lemma text_patch_sound raw v ops out v' : text_doc raw = Some v → text_patch raw ops = Some out → apply_ops v ops = Some v' → text_doc out = Some v'.
Proof.
  intros Hd Hp Ha. unfold text_patch in Hp. rewrite Hd in Hp. cbn [mbind option_bind] in Hp. rewrite Ha in Hp.
  destruct (json_eqb v' (sealed_doc new_members)) eqn:E; [|done]. injection Hp as <-. by apply json_eqb_eq in E as ->.
Qed.

Lemma lower_host_keys : folds_apart lower hostEntryKeys.
Proof. apply folds_apart_NoDup, (bool_decide_unpack _). vm_compute. exact I. Qed.
Lemma lower_policy_keys : folds_apart lower policy_keys.
Proof. apply folds_apart_NoDup, (bool_decide_unpack _). vm_compute. exact I. Qed.


(** Spelled otherwise, a right is not taken away: the signer reads [Allow_Sudo] as
    [allow_sudo], the command finds no key of that name to remove, writes nothing
    and reports an update. *)
Definition other_spelling (s : string) : option json :=
  if bool_decide (s = "old") then Some (sealed_doc (sealed_members "10.0.0.1:22" "Allow_Sudo")) else None.
Theorem misspelled_right_survives :
  let ms := sealed_members "10.0.0.1:22" "Allow_Sudo" in
  (update_run other_spelling (no_sudo "10.0.0.1:22")).2 = Ok "updated" ∧ (update_run other_spelling (no_sudo "10.0.0.1:22")).1 = etc_fs ∧
  (he_AllowSudo <$> decode_host lower (JObject ms)) = Some true ∧ fl_sudo (no_sudo "10.0.0.1:22") = false ∧ "sudo" ∈ fl_set (no_sudo "10.0.0.1:22").
Proof. cbv zeta. split_and!; vm_compute; reflexivity. Qed.
