(* ===== verification/Frontend.v ===== *)
(** * Front ends and what operators read

    [internal/brokermain]: the mTLS endpoint for one-shot commands, the classes of
    its errors, and the caller of a bearer token; the check of the control
    plane's configuration ([cmd/control-plane]); the audit table of
    [cmd/broker-ctl]. *)

From S2P Require Import Prelude GoStrings CmdPolicy PolicySet Encoding K8sAction Intent Crypto CA HostPolicy Signer Sessions Prog Broker Engine EngineFiles AuditEntry OAuth.

(** ** The mTLS endpoint *)

Record runRequest := mkRunRequest {
  rr_Host : string;
  rr_Command : string;
  rr_TTLSeconds : Z;
  rr_Sudo : bool;
  rr_SudoUser : string;
  rr_PTY : bool;
}.

(** The text of an error answer: fixed, of the input check, or of the engine's
    error. *)
Inductive http_text := TFixed (s : string) | TInput (e : input_error) | TError (e : engine_error).
Inductive http_reply := HError (status : Z) (text : http_text) (retryAfter : string) | HResult (r : Result).

Definition classifyError (err : engine_error) : Z * http_text :=
  match err with
  | ErrBadRequest _ => (400, TError err)
  | ErrUnknownHost _ => (404, TError err)
  | ErrUpstream _ => (502, TFixed "upstream failure")
  | ErrRemoteCommand _ _ => (502, TError err)
  | ErrAuditUnavailable => (500, TFixed "audit unavailable")
  | ESignFailed _ ErrRateLimited => (429, TError err)
  | _ => (403, TError err)
  end.

Section http.
Context (iter : range_order string) (fuel : nat) (e : Engine).
(** [retryAfter]: the hint a rate-limit error of the signer carries. *)
Context (retryAfter : engine_error → string).

(** [sshRunHandler]; [cn] is the verified name of the peer, [body] the decoded
    body within its limit. *)
Definition sshRun (method : string) (cn : option string) (body : option runRequest) : prog http_reply :=
  if bool_decide (method ≠ "POST") then Ret (HError 405 (TFixed "method not allowed") "") else
  match cn with
  | None => Ret (HError 401 (TFixed "unauthenticated") "")
  | Some caller =>
  match body with
  | None => Ret (HError 400 (TFixed "invalid request") "")
  | Some req =>
  match ValidateInput iter {["server" := rr_Host req; "command" := rr_Command req; "sudo_user" := rr_SudoUser req]} with
  | Err x => Ret (HError 400 (TInput x) "")
  | Ok _ =>
      r <- Execute fuel e (mkCaller caller None "" "") (rr_Host req) (rr_Command req) (rr_TTLSeconds req)
             (mkExecOptions (rr_Sudo req) (rr_SudoUser req) (rr_PTY req) false false "" false) ;;
      Ret (match r with
           | Ok res => HResult res
           | Err err => let '(status, text) := classifyError err in HError status text (if status =? 429 then retryAfter err else "")
           end)
  end end end.
End http.

(** ** The caller of a token *)

Definition httpCaller (ti : option TokenInfo) : Caller :=
  match ti with
  | None => mkCaller "" None "" ""
  | Some ti => mkCaller (ti_UserID ti) (ti_groups ti) (ti_raw_token ti) (default "" (ti_context ti))
  end.

(** ** The control plane's configuration *)

Record approval_config := mkApprovalConfig { ac_Notifier : string; ac_TeamsFormat : string; ac_WebhookURL : string; ac_BehaviorMode : string }.
Inductive config_error := EUnknownNotifier (v : string) | EUnknownFormat (v : string) | EUnknownMode (v : string) | EWebhookURL | ECleartext | EScheme (s : string).

Section validate.
(** [url.Parse] gives scheme and host name; [net.ParseIP] with [IsLoopback]. *)
Context (parse_url : string → option (string * string)) (loopback_ip : string → option bool).

Definition isLoopbackHost (host : string) : bool := bool_decide (host = "localhost") || default false (loopback_ip host).

Definition validateConfig (c : approval_config) : result config_error unit :=
  if negb (bool_decide (ac_Notifier c ∈ [""; "log"; "webhook"; "teams"])) then Err (EUnknownNotifier (ac_Notifier c))
  else if negb (bool_decide (ac_TeamsFormat c ∈ [""; "workflow"; "adaptivecard"; "messagecard"])) then Err (EUnknownFormat (ac_TeamsFormat c))
  else if negb (bool_decide (ac_BehaviorMode c ∈ [""; "off"; "observe"; "enforce"])) then Err (EUnknownMode (ac_BehaviorMode c))
  else if (bool_decide (ac_Notifier c = "webhook") || bool_decide (ac_Notifier c = "teams")) && bool_decide (ac_WebhookURL c ≠ "") then
    match parse_url (ac_WebhookURL c) with
    | None => Err EWebhookURL
    | Some (scheme, host) =>
        if bool_decide (scheme = "https") then Ok ()
        else if bool_decide (scheme = "http") then if isLoopbackHost host then Ok () else Err ECleartext
        else Err (EScheme scheme)
    end
  else Ok ().

(** An accepted configuration sends approvals over TLS or to this host only. *)
Lemma validateConfig_url c : validateConfig c = Ok () → ac_Notifier c = "webhook" ∨ ac_Notifier c = "teams" → ac_WebhookURL c ≠ "" →
  ∃ scheme host, parse_url (ac_WebhookURL c) = Some (scheme, host) ∧ (scheme = "https" ∨ (scheme = "http" ∧ isLoopbackHost host = true)).
Proof.
  unfold validateConfig. intros H Hn Hu. repeat (destruct (negb (bool_decide (_ ∈ _))); [done|]).
  assert ((bool_decide (ac_Notifier c = "webhook") || bool_decide (ac_Notifier c = "teams")) && bool_decide (ac_WebhookURL c ≠ "") = true) as E.
  { rewrite (bool_decide_eq_true_2 (ac_WebhookURL c ≠ "")), andb_true_r by done. by destruct Hn as [-> | ->]. }
  rewrite E in H. destruct (parse_url _) as [[scheme host]|]; [|done]. exists scheme, host. split; [done|].
  destruct (decide (scheme = "https")); [by left|]. rewrite bool_decide_eq_false_2 in H by done.
  destruct (decide (scheme = "http")); [|by rewrite bool_decide_eq_false_2 in H by done]. right. subst scheme. cbn in H.
  by destruct (isLoopbackHost host).
Qed.
End validate.

(** ** The audit table *)

Definition control_char (c : ascii) : bool := (byte_of c <? 32) || (byte_of c =? 127).
(** [fmt.Fprintf(&b, `\x%02x`, c)] *)
Definition hex2 (c : ascii) : string := String "\"%char ("x" +:+ String (hex_digit (byte_of c / 16)) (String (hex_digit (byte_of c mod 16)) "")).
Definition escape_char (c : ascii) : string :=
  if byte_of c =? 10 then "\n" else if byte_of c =? 13 then "\r" else if byte_of c =? 9 then "\t"
  else if control_char c then hex2 c else String c "".
Fixpoint escape_chars (s : string) : string := match s with "" => "" | String c r => escape_char c +:+ escape_chars r end.
Definition escapeText (s : string) : string := if forall_char (fun c => negb (control_char c)) s then s else escape_chars s.

Definition bracketed (label v : string) : string := if bool_decide (v = "") then "" else " [" +:+ label +:+ escapeText v +:+ "]".
Definition auditDetail (e : Entry) : string :=
  escapeText (ae_Command e) +:+ bracketed "" (ae_Elevation e) +:+ (if ae_PTY e then " [pty]" else "") +:+
  bracketed "ctx: " (ae_EndUserContext e) +:+ bracketed "rule: " (ae_PolicyRule e) +:+ (if ae_DryRun e then " [dry-run]" else "") +:+
  bracketed "approved-by: " (ae_ApprovedBy e) +:+ bracketed "anomaly: " (ae_Anomaly e) +:+ bracketed "warning: " (ae_Warning e) +:+
  bracketed "err: " (ae_Err e).

Definition tab : ascii := "009"%char.
(** [printAuditRow]: seven columns; [time_text] is the formatted time. *)
Definition audit_columns (time_text : string) (e : Entry) : list string :=
  [time_text; FormatInt (ae_Seq e); escapeText (ae_Caller e); escapeText (ae_Host e); escapeText (ae_Outcome e); FormatInt (ae_Serial e); auditDetail e].
Definition printAuditRow (time_text : string) (e : Entry) : string :=
  Join (audit_columns time_text e) (String tab "") +:+ String "010"%char "".

Definition printable (c : ascii) : bool := negb (control_char c).

Lemma escape_char_printable c : forall_char printable (escape_char c) = true.
Proof. destruct c as [[] [] [] [] [] [] [] []]; vm_compute; reflexivity. Qed.
Lemma escapeText_printable s : forall_char printable (escapeText s) = true.
Proof.
  unfold escapeText. destruct (forall_char _ s) eqn:E; [exact E|]. clear E.
  induction s as [|c s IH]; [done|]. cbn [escape_chars]. by rewrite forall_char_app, escape_char_printable, IH.
Qed.
Lemma bracketed_printable label v : forall_char printable label = true → forall_char printable (bracketed label v) = true.
Proof. intros H. unfold bracketed. case_bool_decide; [done|]. by rewrite !forall_char_app, H, escapeText_printable. Qed.
Lemma auditDetail_printable e : forall_char printable (auditDetail e) = true.
Proof.
  unfold auditDetail. rewrite !forall_char_app, escapeText_printable, !bracketed_printable by done.
  by destruct (ae_PTY e), (ae_DryRun e).
Qed.
Lemma FormatInt_printable z : forall_char printable (FormatInt z) = true.
Proof.
  eapply forall_char_impl; [|apply FormatInt_chars]. intros c. unfold numeral_char. intros H.
  destruct c as [[] [] [] [] [] [] [] []]; vm_compute in H |- *; congruence.
Qed.

(** Whatever an entry holds, its row is one line of seven columns, the last of
    which ends the line: no recorded text adds a column, a row or a terminal
    control. *)
Theorem audit_row_unforgeable time_text e : forall_char printable time_text = true →
  Forall (fun col => forall_char printable col = true) (audit_columns time_text e) ∧
  length (audit_columns time_text e) = 7%nat ∧
  Split (Join (audit_columns time_text e) (String tab "")) tab = audit_columns time_text e ∧
  forall_char (fun c => printable c || ascii_eqb c tab) (Join (audit_columns time_text e) (String tab "")) = true.
Proof.
  intros Ht. assert (Forall (fun col => forall_char printable col = true) (audit_columns time_text e)) as Hc.
  { unfold audit_columns. repeat constructor; auto using FormatInt_printable, escapeText_printable, auditDetail_printable. }
  split_and!; [done|done| |].
  - apply Split_Join; [done|]. eapply Forall_impl; [exact Hc|]. intros col Hcol. unfold ContainsByte. rewrite exists_char_false.
    apply negb_false_iff. eapply forall_char_impl; [|exact Hcol]. intros c. unfold printable, control_char. intros H.
    destruct c as [[] [] [] [] [] [] [] []]; vm_compute in H |- *; congruence.
  - induction Hc as [|col cols Hcol Hcols IH]; [done|].
    assert (forall_char (fun c => printable c || ascii_eqb c tab) col = true) as Hcol'.
    { eapply forall_char_impl; [|exact Hcol]. by intros c ->. }
    destruct cols as [|col' cols]; [done|]. change (Join (col :: col' :: cols) (String tab "")) with (col +:+ String tab "" +:+ Join (col' :: cols) (String tab "")).
    by rewrite !forall_char_app, Hcol', IH.
Qed.

(** An answer of the endpoint never carries the detail of an upstream failure. *)
Definition masked (r : http_reply) : Prop := ∀ status what ra, r ≠ HError status (TError (ErrUpstream what)) ra.
Lemma sshRun_masked iter fuel e retryAfter method cn body : always masked (sshRun iter fuel e retryAfter method cn body).
Proof.
  unfold sshRun. destruct (bool_decide _); [done|]. destruct cn as [cn|]; [|done]. destruct body as [req|]; [|done].
  destruct (ValidateInput _ _); [|done]. apply always_bind. intros [res|err]; [done|].
  destruct (classifyError err) as [status text] eqn:E. intros st what ra [= _ -> _].
  destruct err; try done. by destruct e0.
Qed.

Definition forged_entry : Entry :=
  mkEntry (Some 0) "agent" "web1" "deploy" "" ("id" +:+ string_of_bytes [10; 27]) "" 7 "" "" "" "" "denied" 0 "" "" false "" false "" "" "" "" "" 3 "" "".
Example forged_row : printAuditRow "2026-01-01T00:00:00Z" forged_entry =
  Join ["2026-01-01T00:00:00Z"; "3"; "agent"; "web1"; "denied"; "7"; "id\n\x1b"] (String tab "") +:+ string_of_bytes [10].
Proof. vm_compute. reflexivity. Qed.
